(* ===== verification/_CoqProject ===== *)
-Q . S2P
Prelude.v
Decimal.v
Utf8.v
F32.v
MessageBuffer.v
Udp.v
Reliability.v
ObjectIds.v
Clone.v
Packet.v
SyncTrees.v
Quaternion.v
SyncParse.v
SyncWrite.v
Session.v
WorldGrid.v
RoutingBucket.v
InterestNg.v
GameState.v
Ingest.v
Outbound.v
EntityStore.v
ZoneIngest.v
QuadTree.v
ZoneRegistry.v
Handoff.v
AdaptiveTick.v
VoicePacket.v
VoiceCrypto.v
VoiceRouting.v
VoiceServer.v
ResourceOrder.v
MeshForward.v
StateBags.v
Kvp.v
EntityWorld.v
PushLoop.v
Players.v
Events.v
DebugFeed.v
GameServer.v
Auth.v
Config.v
ControlApi.v
Connection.v
ScriptHost.v
ResourceManager.v
Packfile.v
CfxBoot.v
Downloads.v
HotReload.v
Oob.v
Endpoint.v
