(* ===== verification/Prelude.v ===== *)
(** * Baston: verification of the OneSync server core

    Baston is a FiveM-compatible game server. Clients upload a stream of clone
    records (creates, syncs, removals, takeovers of networked entities); a zone
    server arbitrates them, keeps the world, and sends every client the part of
    it that concerns it. A gateway in front of several zone servers routes
    players to the zone that covers their position, hands them over when they
    cross a boundary, and keeps a merged copy of the entities of all zones.
    Paths are under src/crates/.

    ** Files

    Shared: Prelude.v (machine integers, lists, sorting, [min_by], reachability),
    F32.v (binary32 through the Standard Library's SpecFloat: arithmetic,
    comparisons, [min]/[max] with their NaN rules, casts), Decimal.v (printing
    and parsing decimal numbers, prefixes of byte strings), Utf8.v (the lossy and
    the strict decoding, trimming).

    The wire (baston-protocol/src/rage and src/udp):
    - MessageBuffer.v: buffer.rs, the big-endian bit cursor;
    - Clone.v: clone.rs, one record of either direction;
    - Packet.v: packet.rs and lz4dict.rs, frame index, packet decoding, the
      fragmenting writer; liblz4 is an interface with its documented laws;
    - ObjectIds.v, Reliability.v, Udp.v: object_ids.rs (id leases),
      reliability.rs (acknowledgements), udp/ (route, time sync, handshake);
    - SyncTrees.v, SyncParse.v, SyncWrite.v, Quaternion.v: the sync trees, their
      decoder and the writer of server-authored entities;
    - Session.v, WorldGrid.v: session.rs, player slots and the sector grid;
    - Players.v: baston-protocol/src/players.rs, sources, tokens, identifiers;
    - Events.v: events.rs, native.rs, udp/state.rs: events, calls of natives,
      reported states; JSON and MessagePack are a class.

    The zone (baston-zone/src):
    - RoutingBucket.v: routing_bucket.rs; InterestNg.v: interest_ng.rs, what a
      client is told in a tick; GameState.v: onesync/mod.rs, the authoritative
      world; Ingest.v: onesync/ingest.rs, arbitration of uploads; Outbound.v:
      from a tick's plan over these to the packets a client decodes;
    - EntityStore.v: entity.rs, entity_manager.rs, state_sync.rs and the merge
      of baston-gateway/src/state_aggregator.rs: the entity store, its dirty
      batches and the gateway's replica;
    - ZoneIngest.v: state_ingest.rs, ownership.rs, player_snapshot.rs;
    - Handoff.v: boundary_detector.rs, handoff_manager.rs, mesh.rs,
      boundary_loop.rs and the handoff calls of baston-gateway/src/mesh.rs;
    - AdaptiveTick.v: adaptive_tick.rs, the tick-rate controller.

    The voice server (baston-voice/src), embedded in the gateway:
    - VoicePacket.v: pds.rs, lib.rs, voice.rs, framing.rs: varints, voice
      datagrams, control frames;
    - VoiceCrypto.v: crypto.rs, OCB2 and the rolling nonces; AES is a class;
    - VoiceRouting.v: channel.rs, session.rs, target.rs, router.rs;
    - VoiceServer.v: server/mod.rs, control.rs, udp.rs: the shared state, the
      control handlers, the UDP socket.

    The gateway (baston-gateway/src):
    - QuadTree.v: quadtree.rs and baston-protocol/src/spatial.rs;
    - ZoneRegistry.v: zone_registry.rs, connection_router.rs, the routing and
      recovery of mesh.rs;
    - MeshForward.v: mesh_forward.rs, the forwarding of updates to the zones and
      the hold around a handoff;
    - PushLoop.v: the push loop of state_aggregator.rs, what binary clients are
      told of the merged world;
    - DebugFeed.v: debug_info.rs and the facts of udp/debug_feed.rs, the overlay;
    - GameServer.v: udp/server.rs, udp/inbound.rs, udp/handle.rs: the task that
      owns the ENet host. It composes the components above: the directory, the
      game state and its ingestion, the zone ingestion, the routing control and
      the mirror of the scripts, the overlay. Its state is [UdpServer]; ENet's
      events are its inputs ([on_receive], [on_disconnect]), what it asks of ENet
      and of other tasks the list [effects];
    - Oob.v: udp/oob.rs, the queries answered on the game socket;
    - Auth.v: auth/, tickets, the key cache and the reuse of tickets; RSA, SHA-1
      and base64 are a class;
    - Connection.v: http/client.rs with baston-scripting/src/deferrals.rs: a
      connection from its request to its answer, with Auth.v and Players.v;
    - ControlApi.v: api/ and admin.rs: keys, permissions, control routes, audit;
    - Downloads.v: http/files.rs, the caches of archives and streaming assets,
      the builtins, getConfiguration; SHA-1 and the disk are parameters;
    - Endpoint.v: http/resource_endpoint.rs, requests scripts answer;
    - CfxBoot.v: cfx.rs with baston-core/src/license.rs and baston-cfx-platform:
      the licence verdict, the broker's configuration, the slots.

    The configuration (baston-config/src/lib.rs): Config.v, a module for each
    section, and what the zone builds from it; TOML is a class.

    Scripts (baston-scripting/src):
    - StateBags.v: state_bag.rs, the state bags and the routing control;
    - Kvp.v: kvp.rs, the key-value store; the file and its JSON are a class;
    - EntityWorld.v: entity_world.rs and baston-gateway/src/world_control.rs, the
      mirror of the world scripts read and the commands they queue;
    - ScriptHost.v: host.rs, http_handler.rs, the parts of runtime.rs and
      extensions/mod.rs that keep state: one isolate per resource, commands,
      replies, event chains, loading. What the isolates do is a class
      ([Isolates]), which the theorems hold for; a call whose dispatch never
      settles in some isolate has no result ([Waits]), as the host sets no
      deadline.

    The resource loader (baston-zone/src):
    - ResourceOrder.v: resource_loader/topo.rs, the start order;
    - ResourceManager.v: resource_loader/resource_manager.rs and manifest.rs,
      baston-scripting/src/resource_registry.rs: discovery, start, stop, restart
      on top of ScriptHost.v, and the files scripts may name;
    - HotReload.v: resource_loader/hot_reload.rs;
    - Packfile.v: packfile.rs, the archive a client mounts.

    ** How the code is modelled

    A Rust function is a Rocq function of the same name and shape; [&mut self]
    is state passing; [Option] and [Result] are [option] and sums; a cast or a
    wrapping operation is written out; floats are SpecFloat values, rounded as
    the hardware rounds. Hash maps are [gmap]s; where a result depends on the
    iteration order of a hash map, the order is an argument ([values] in
    ZoneRegistry.v, [orphaned] in [handle_zone_failure]) or the theorem is up
    to permutation. Clock readings and fresh ids are arguments. A call that
    takes two locks one after the other, or awaits a remote answer, is given
    in halves, and theorems about interleavings run other calls in between
    ([EntityManager.update_half], [evict_zones_half], [begin_request]). A
    remote call is answered, not delivered, or executed with its reply lost
    ([Handoff.remote]).

    ** What the theorems show

    - Codecs: what is written is read back (records, packets, lease lists,
      acknowledgements, sync trees, quaternions), decoding arbitrary bytes
      terminates with fields in range, fragments respect the packet size, the
      tree walk is the structural parse of the tree.
    - World and arbitration: an upload changes only what its sender may change,
      the registry invariant (ids, owners, leases, buckets) is kept by every
      call, ingestion never reaches the panicking index, ids are leased lowest
      first, a removed client leaves nothing behind.
    - Interest: a client gets a sync only for what it was created, a removal
      for what left its scope, nothing of another bucket, within its budget,
      and, in either id mode and in every reachable state, the packets built
      from a tick's plan decode to the records that are due.
    - Zone store and its replica: the merged world exactly, over any whole calls
      and any ticks, lost or not; it is the zone's world as of the last tick when
      every batch arrives and no id is respawned before one; what happens when a
      batch is lost or a removal overtakes an update.
    - Zone ingestion and ownership: an update changes one entity and at most one
      owner, a refused one nothing; the ownership scan gives every entity to a
      nearest player and is idempotent.
    - Crossing zones: snapshot, restore and release conserve the player's
      entities; where a crossing leaves the player for every fate of its calls,
      and when that is not exactly one zone; cooldowns prevent ping-pong under any interleaving.
    - Gateway: the quadtree is a map from zones to boxes; lookups answer exactly
      for the registered zones; recovery places or kicks every orphan once,
      within capacities, with a level load; each player's updates are forwarded
      in order, those of a handoff's hold to the new zone.
    - Resources start after their dependencies, in an order the hash map does
      not influence; the loop is never stuck.
    - Tick rate: bounded, backs off at once, climbs back.
    - Voice: a datagram is attributed to the player whose key opens it, goes
      exactly to those it is meant for; a client in the nonce window's reach
      decrypts exactly the relayed packet, unless its history shows the nonce; no nonce is accepted twice whatever arrives; sessions,
      keys, queues and addresses stay in step in every reachable state.

    - Push loop: with every operation delivered a client holds exactly what its
      area shows; what a lost delta leaves behind.
    - Scripts: replication of the state bags converges, change handlers get
      exactly the admitted changes, the key-value store survives a restart,
      the mirror is exactly the last published world; what an event and the
      events it brings back cost, dispatch and publish, whether the isolates
      answer or not; which isolates, handlers and changes are left of the
      resources after any calls that return, and what scripts are told of them.

    - Game server: no datagram and no interleaving of turns panics the task; a
      peer without a token has no effect; a disconnection removes the player
      from every component, except that another peer may keep its source; the host arbitration answers and frees everybody; routing buckets
      and the scripts' world mirror the state they should; the queues drain in
      order; what a reconnecting player loses.

    Several theorems state what the code does where it does not do what it
    means to; the manifest lists them as findings.

    ** Fuel and bounds

    [SyncParse.walk] and [SyncWrite.write_node] have a fuel of the table's
    length, which [parse_sync_tree_structural] shows is never used up;
    [Packet.decode_records] one record per remaining bit, shown enough;
    [QuadTree.insert] has [INSERT_LEVELS] = 9 levels, one per depth 0 to 8,
    shown enough by [insert_total]; the readers of VoicePacket.v recurse through
    [unbounded], one level per remaining byte, shown equal to their recursion
    ([unbounded_unfold]); [VoiceCrypto.encrypt_loop] one round per byte
    ([ocb_loop_exit]); [ResourceOrder.kahn] one turn per resource
    ([topo_sort_spec]); [ScriptHost.chain] one turn more than the 64 events the
    code allows ([event_chain_bounded]); [Packfile.flatten_loop] one per directory
    ([flatten_placed]). All other recursion is structural; loops that poll the
    outside (the broker's answer, the reads of a file) recurse over what they see,
    and [CfxBoot.query_ends] shows that the deadlines end them.
    Integers keep their widths; player counts of the registry are unsigned and
    compared only.

    ** Not modelled

    Pure input and output (sockets, the HTTP server, gRPC channels, NATS, task
    spawning, metrics, logging, observability.rs), V8 and the tables that bind
    natives to it (baston-scripting/src/extensions/natives_*.rs, rpc_natives/),
    which call the components above; scripts are the class [Isolates]: whether a
    dispatch settles, and when a script is terminated, is up to it, while a script
    that is loaded comes to idle. The UDP task awaits the handlers of playerDropped
    within its turn; GameServer.v takes them as a function, so its theorems are
    about turns in which they return. Code whose substance is a third-party crate (bincode, serde,
    TOML, protobuf, TLS, argon2, AES, RSA, SHA-1) is a class or a parameter with
    its documented laws. The monitoring routes of the API and /info.json render
    data. Of the modelled files: URL decoding of the handshake (udp/handshake.rs),
    the lossy rendering of licence plates (sync_parse.rs), [Aabb::parse], the
    recovery's two gRPC calls per player, the snapshot of the overlay
    (udp/debug_feed.rs), the select loop of udp/server.rs but for the order of its
    two queues, the convars and player getters of extensions/mod.rs, the walk of a
    directory (http/stream_cache.rs), the removal of the broker's files
    (sidecar.rs). The escrow plugin, the stub sidecar and the load test are not
    part of the running server's logic. *)

From Stdlib Require Import Sorting.Sorted.
From stdpp Require Export base numbers list sets gmap.
From Stdlib Require Export ZArith Lia.

#[export] Set Default Goal Selector "!".
#[global] Open Scope Z_scope.

(** ** Machine integers

    Rust integers are [Z] kept in the range of their width; the casts of the
    source ([as u8], [as u16], [as i32], ...) are written out as the functions
    below, so that every truncation is visible in the definitions. *)

Definition u8 (z : Z) : Z := z mod 2 ^ 8.
Definition u16 (z : Z) : Z := z mod 2 ^ 16.
Definition u32 (z : Z) : Z := z mod 2 ^ 32.
Definition u64 (z : Z) : Z := z mod 2 ^ 64.

(** [x as i32] on an integer: reinterpretation modulo [2^32]. *)
Definition i32 (z : Z) : Z := (z + 2 ^ 31) mod 2 ^ 32 - 2 ^ 31.

(** [!x] on a [u8] and on a [u16]. *)
Definition not_u8 (z : Z) : Z := Z.lxor z 255.
Definition not_u16 (z : Z) : Z := Z.lxor z 65535.

(** Checked integer conversions: membership in a width. *)
Definition is_u (w : Z) (z : Z) : Prop := 0 <= z < 2 ^ w.
#[global] Instance is_u_dec w z : Decision (is_u w z).
Proof. unfold is_u; apply _. Defined.

Abbreviation is_byte := (is_u 8).
Abbreviation bytes_ok := (Forall (is_u 8)).

Definition U16_MAX : Z := 65535.

(** Linear arithmetic with division and modulo by constants. *)
Ltac zdm := Z.to_euclidean_division_equations; lia.

Lemma pow2_pos w : 0 <= w -> 0 < 2 ^ w.
Proof. intros; apply Z.pow_pos_nonneg; lia. Qed.

Lemma is_u_mod w z : 0 <= w -> is_u w (z mod 2 ^ w).
Proof. intros; unfold is_u; apply Z.mod_pos_bound, pow2_pos; lia. Qed.

Lemma u_id w z : is_u w z -> z mod 2 ^ w = z.
Proof. unfold is_u; intros; apply Z.mod_small; lia. Qed.

Lemma is_u_0 w : 0 <= w -> is_u w 0.
Proof. intros; unfold is_u. pose proof (pow2_pos w). lia. Qed.

Lemma is_u_le w w' z : 0 <= w <= w' -> is_u w z -> is_u w' z.
Proof.
  unfold is_u; intros Hw Hz. assert (2 ^ w <= 2 ^ w') by (apply Z.pow_le_mono_r; lia). lia.
Qed.

Lemma is_u_lor w a b : 0 <= w -> is_u w a -> is_u w b -> is_u w (Z.lor a b).
Proof.
  intros Hw Ha Hb. rewrite <- (u_id w a Ha), <- (u_id w b Hb), <- !Z.land_ones by lia.
  rewrite <- Z.land_lor_distr_l, Z.land_ones by lia. by apply is_u_mod.
Qed.

Lemma is_u_land w a b : 0 <= w -> is_u w a -> is_u w (Z.land a b).
Proof.
  intros Hw Ha. rewrite <- (u_id w a Ha), <- Z.land_ones by lia.
  rewrite <- Z.land_assoc, (Z.land_comm _ b), Z.land_assoc, Z.land_ones by lia.
  by apply is_u_mod.
Qed.

Lemma testbit_above w z i : is_u w z -> w <= i -> 0 <= w -> Z.testbit z i = false.
Proof.
  intros Hz Hi Hw. rewrite <- (u_id w z Hz). by apply Z.mod_pow2_bits_high; lia.
Qed.

Lemma is_u_lxor w a b : 0 <= w -> is_u w a -> is_u w b -> is_u w (Z.lxor a b).
Proof.
  intros Hw Ha Hb.
  assert (Z.lxor a b = Z.lxor a b mod 2 ^ w) as E.
  { apply Z.bits_inj'. intros i Hi. destruct (Z.ltb_spec i w).
    - by rewrite Z.mod_pow2_bits_low.
    - rewrite Z.mod_pow2_bits_high, Z.lxor_spec, !(testbit_above w) by (done || lia). done. }
  rewrite E. by apply is_u_mod.
Qed.

(** ** The state-and-error monad of the decoders

    A Rust function taking [&mut S] and using [?] on options: it returns an
    option and, whatever the outcome, the mutated state. *)

Definition SM (S A : Type) : Type := S -> option A * S.

#[global] Instance SM_ret {S} : MRet (SM S) := fun A a s => (Some a, s).
#[global] Instance SM_bind {S} : MBind (SM S) := fun A B f m s =>
  match m s with
  | (Some a, s') => f a s'
  | (None, s') => (None, s')
  end.
#[global] Instance SM_fmap {S} : FMap (SM S) := fun A B f m s =>
  match m s with
  | (Some a, s') => (Some (f a), s')
  | (None, s') => (None, s')
  end.

(** An infallible call inside a fallible function. *)
Definition lift {S A} (m : S -> A * S) : SM S A := fun s =>
  let '(a, s') := m s in (Some a, s').

(** A fallible call whose [None] is a value (no [?] at the call site). *)
Definition attempt {S A} (m : SM S A) : SM S (option A) := fun s =>
  let '(o, s') := m s in (Some o, s').

(** Leave the function with [None]. *)
Definition fail_with_none {S A} : SM S A := fun s => (None, s).

(** [if c { m? }] with a default when the condition is false. *)
Definition when {S A} (c : bool) (m : SM S A) (default : A) : SM S A :=
  if c then m else mret default.

(** [for _ in 0..n { m? }]. *)
Fixpoint repeat_m {S} (n : nat) (m : SM S unit) : SM S unit :=
  match n with
  | O => mret tt
  | S n' => m ≫= fun _ => repeat_m n' m
  end.

(** [for x in xs { out.push(f x ?) }]. *)
Fixpoint map_m {S A B} (f : A -> SM S B) (xs : list A) : SM S (list B) :=
  match xs with
  | [] => mret []
  | x :: xs' => f x ≫= fun y => map_m f xs' ≫= fun ys => mret (y :: ys)
  end.

(** [for x in xs { acc = f(acc, x)? }]. *)
Fixpoint fold_m {S A B} (f : B -> A -> SM S B) (acc : B) (xs : list A) : SM S B :=
  match xs with
  | [] => mret acc
  | x :: xs' => f acc x ≫= fun acc => fold_m f acc xs'
  end.

Lemma bind_some {S A B} (m : SM S A) (k : A -> SM S B) s a s' :
  m s = (Some a, s') -> (m ≫= k) s = k a s'.
Proof. intros H. unfold mbind, SM_bind. by rewrite H. Qed.

Lemma bind_none {S A B} (m : SM S A) (k : A -> SM S B) s s' :
  m s = (None, s') -> (m ≫= k) s = (None, s').
Proof. intros H. unfold mbind, SM_bind. by rewrite H. Qed.

(** ** Field assignment on records

    [r <| f := v |>] is the source's [r.f = v]. A record type gives the class
    [Rebuild] its constructor applied to its own projections; the update of a
    projection is found by abstracting it from that term. *)

Class Rebuild (R : Type) := rebuild_record : R -> R.
Class FieldUpdate {R A : Type} (f : R -> A) := update_field : (A -> A) -> R -> R.

Ltac field_update f :=
  match type of f with
  | ?R -> ?A =>
    let body := eval hnf in (rebuild_record : R -> R) in
    match eval pattern f in body with
    | ?k _ => exact (fun (u : A -> A) (r : R) => k (fun r0 => u (f r0)) r)
    end
  end.

#[export] Hint Extern 0 (FieldUpdate ?f) => field_update f : typeclass_instances.

Notation "r <| f := v |>" := (update_field (f := f) (fun _ => v) r)
  (at level 1, left associativity, f at level 9, v at level 200,
   format "r  <| f  :=  v |>").

Create Rewrite HintDb le_bytes.

(** ** Little-endian bytes: [to_le_bytes] and [from_le_bytes]. *)

Fixpoint to_le_bytes (n : nat) (z : Z) : list Z :=
  match n with
  | O => []
  | S n' => u8 z :: to_le_bytes n' (Z.shiftr z 8)
  end.

Fixpoint from_le_bytes (bs : list Z) : Z :=
  match bs with
  | [] => 0
  | b :: bs' => Z.lor b (Z.shiftl (from_le_bytes bs') 8)
  end.

Lemma length_to_le_bytes n z : length (to_le_bytes n z) = n.
Proof. revert z; induction n as [|n IH]; intros; simpl; auto. Qed.

Lemma to_le_bytes_ok n z : bytes_ok (to_le_bytes n z).
Proof. revert z; induction n; intros; cbn [to_le_bytes]; constructor; auto. by apply (is_u_mod 8). Qed.

(** Every byte string produced for [n] bytes is read back modulo [2^(8n)]. *)
Lemma from_to_le_bytes n z : from_le_bytes (to_le_bytes n z) = z mod 2 ^ (8 * Z.of_nat n).
Proof.
  revert z; induction n as [|n IH]; intros z.
  { simpl. by rewrite Z.mod_1_r. }
  cbn [to_le_bytes from_le_bytes]. rewrite IH. unfold u8.
  apply Z.bits_inj'; intros i Hi. rewrite Z.lor_spec, Z.shiftl_spec by lia.
  destruct (Z.ltb_spec i 8).
  - rewrite (Z.mod_pow2_bits_low z 8) by lia. rewrite (Z.testbit_neg_r _ (i - 8)) by lia.
    rewrite Z.mod_pow2_bits_low by lia. by rewrite orb_false_r.
  - rewrite (Z.mod_pow2_bits_high z 8) by lia. cbn [orb].
    destruct (Z.ltb_spec i (8 * Z.of_nat (S n))).
    + rewrite !Z.mod_pow2_bits_low, Z.shiftr_spec by lia. f_equal; lia.
    + rewrite !Z.mod_pow2_bits_high by lia. done.
Qed.

Lemma from_to_le_bytes_id n z :
  is_u (8 * Z.of_nat n) z -> from_le_bytes (to_le_bytes n z) = z.
Proof. intros. rewrite from_to_le_bytes. by apply u_id. Qed.

#[global] Arguments to_le_bytes : simpl never.
#[global] Arguments from_le_bytes : simpl never.

(** ** Options and lists *)

Definition is_none {A} (o : option A) : bool := match o with None => true | Some _ => false end.
Definition is_some {A} (o : option A) : bool := match o with None => false | Some _ => true end.

(** [slice.get(off..off + n)]. *)
Definition get_slice (buf : list Z) (off n : nat) : option (list Z) :=
  if decide (off + n <= length buf)%nat then Some (take n (drop off buf)) else None.

Lemma get_slice_app (pre mid post : list Z) :
  get_slice (pre ++ mid ++ post) (length pre) (length mid) = Some mid.
Proof.
  unfold get_slice. rewrite !length_app, decide_True by lia.
  by rewrite drop_app_length, take_app_length.
Qed.

Lemma foldl_ext {A B} (f g : A -> B -> A) (l : list B) a :
  (forall a x, x ∈ l -> f a x = g a x) -> foldl f a l = foldl g a l.
Proof.
  revert a; induction l as [|x l IH]; intros a H; simpl; [done|].
  rewrite H by set_solver. apply IH. intros; apply H; set_solver.
Qed.

Lemma seqZ_snoc m n : 0 <= n -> seqZ m (n + 1) = seqZ m n ++ [m + n].
Proof. intros. by rewrite seqZ_app by lia. Qed.

(** Disjoint bit fields: or-ing a value shifted past [n] bits onto an [n]-bit one. *)
Lemma lor_shiftl_add n a b : 0 <= n -> is_u n a -> Z.lor a (Z.shiftl b n) = a + b * 2 ^ n.
Proof.
  intros Hn Ha. rewrite <- Z.shiftl_mul_pow2 by done. symmetry. apply Z.add_nocarry_lor.
  apply Z.bits_inj'. intros k Hk. rewrite Z.land_spec, Z.bits_0, Z.shiftl_spec by done.
  destruct (Z.ltb_spec k n).
  - by rewrite (Z.testbit_neg_r b), andb_false_r by lia.
  - by rewrite (testbit_above n a).
Qed.

(** Bytes and the number they spell. *)

Lemma from_le_cons b l : is_u 8 b -> from_le_bytes (b :: l) = b + 256 * from_le_bytes l.
Proof.
  intros Hb. change (from_le_bytes (b :: l)) with (Z.lor b (Z.shiftl (from_le_bytes l) 8)).
  rewrite lor_shiftl_add by (done || lia). lia.
Qed.

Lemma from_le_range l : bytes_ok l -> 0 <= from_le_bytes l < 2 ^ (8 * Z.of_nat (length l)).
Proof.
  induction 1 as [|b l Hb Hl IH]; [done|]. rewrite from_le_cons by done. unfold is_u in Hb.
  cbn [length]. rewrite Nat2Z.inj_succ, Z.mul_succ_r, Z.pow_add_r by lia. change (2 ^ 8) with 256 in *. lia.
Qed.

(** The other direction: bytes are those of the number they spell. *)
Lemma to_from_le_bytes l : bytes_ok l -> to_le_bytes (length l) (from_le_bytes l) = l.
Proof.
  induction 1 as [|b l Hb Hl IH]; [done|]. rewrite from_le_cons by done. cbn [length].
  change (u8 (b + 256 * from_le_bytes l) :: to_le_bytes (length l) (Z.shiftr (b + 256 * from_le_bytes l) 8) = b :: l).
  unfold is_u in Hb. unfold u8. rewrite Z.shiftr_div_pow2 by lia. change (2 ^ 8) with 256 in *. f_equal; [zdm|].
  replace ((b + 256 * from_le_bytes l) / 256) with (from_le_bytes l) by zdm. exact IH.
Qed.

Lemma to_le_bytes_mod n z : to_le_bytes n (z mod 2 ^ (8 * Z.of_nat n)) = to_le_bytes n z.
Proof.
  rewrite <- from_to_le_bytes. rewrite <- (length_to_le_bytes n z) at 1. apply to_from_le_bytes, to_le_bytes_ok.
Qed.

Lemma lor_double_bit v b : Z.lor (v * 2) (Z.b2z b) = 2 * v + Z.b2z b.
Proof.
  change 2 with (2 ^ 1). rewrite <- (Z.shiftl_mul_pow2 v 1), Z.lor_comm, lor_shiftl_add by
    (lia || (destruct b; unfold is_u; simpl; lia)). lia.
Qed.

(** ** Sorting

    [sort_by leb] is the stable sort of the source's [sort_by] and
    [sort_by_key]; the order the algorithm visits elements in is immaterial. *)

Section sorting.
Context {A : Type} (leb : A -> A -> bool).

Fixpoint insert_sorted (x : A) (l : list A) : list A :=
  match l with
  | [] => [x]
  | y :: l' => if leb x y then x :: l else y :: insert_sorted x l'
  end.

Definition sort_by (l : list A) : list A := foldr insert_sorted [] l.

Lemma insert_sorted_perm x l : insert_sorted x l ≡ₚ x :: l.
Proof.
  induction l as [|y l IH]; cbn; [done|]. destruct (leb x y); [done|].
  rewrite IH. apply Permutation_swap.
Qed.

Lemma sort_by_perm l : sort_by l ≡ₚ l.
Proof. induction l as [|x l IH]; cbn; [done|]. by rewrite insert_sorted_perm, IH. Qed.

Lemma insert_sorted_sorted x l : (forall a b, leb a b = false -> leb b a = true) ->
  Sorted leb l -> Sorted leb (insert_sorted x l).
Proof.
  intros Htot. induction l as [|y l IH]; intros Hs; cbn; [by repeat constructor|].
  destruct (leb x y) eqn:E; [by constructor; [|constructor; rewrite E]|].
  apply Sorted_inv in Hs as [Hs Hy]. constructor; [by apply IH|].
  assert (Hyx : leb y x = true) by by apply Htot.
  destruct l as [|z l]; cbn; [by constructor; rewrite Hyx|].
  destruct (leb x z); constructor; [by rewrite Hyx|by inversion Hy].
Qed.

Lemma sort_by_sorted l : (forall a b, leb a b = false -> leb b a = true) -> Sorted leb (sort_by l).
Proof. intros Htot. induction l; cbn; [constructor|by apply insert_sorted_sorted]. Qed.

End sorting.

(** The byte order of strings. *)
Fixpoint bytes_leb (a b : list Z) : bool :=
  match a, b with
  | [], _ => true
  | _ :: _, [] => false
  | x :: a', y :: b' => (x <? y) || ((x =? y) && bytes_leb a' b')
  end.

Lemma bytes_leb_total a b : bytes_leb a b = false -> bytes_leb b a = true.
Proof.
  revert b. induction a as [|x a IH]; intros [|y b]; cbn; try done.
  destruct (Z.ltb_spec x y), (Z.eqb_spec x y), (Z.ltb_spec y x), (Z.eqb_spec y x); cbn; try done; try lia. apply IH.
Qed.

#[export] Instance bytes_leb_trans : Transitive (fun a b => Is_true (bytes_leb a b)).
Proof.
  intros a. induction a as [|x a IH]; intros [|y b] [|z c]; cbn; try done.
  destruct (Z.ltb_spec x y), (Z.eqb_spec x y), (Z.ltb_spec y z), (Z.eqb_spec y z), (Z.ltb_spec x z), (Z.eqb_spec x z);
    cbn; try done; try lia. apply IH.
Qed.

#[export] Instance bytes_leb_antisymm : AntiSymm (=) (fun a b => Is_true (bytes_leb a b)).
Proof.
  intros a. induction a as [|x a IH]; intros [|y b]; cbn; try done.
  destruct (Z.ltb_spec x y), (Z.eqb_spec x y), (Z.ltb_spec y x), (Z.eqb_spec y x); cbn; try done; try lia.
  intros H1 H2. f_equal; [done|by apply IH].
Qed.

(** ** [iter().min_by(cmp)]: the first of the least elements *)

Definition min_by {A} (cmp : A -> A -> comparison) (l : list A) : option A :=
  match l with
  | [] => None
  | x :: rest => Some (foldl (fun best y => match cmp best y with Gt => y | _ => best end) x rest)
  end.

Lemma min_by_elem {A} (cmp : A -> A -> comparison) l x : min_by cmp l = Some x -> x ∈ l.
Proof.
  destruct l as [|y l]; [done|]. cbn [min_by]. intros [= <-]. revert y.
  induction l as [|z l IH]; intros y; cbn [foldl]; [by left|].
  specialize (IH (match cmp y z with Gt => z | _ => y end)). rewrite elem_of_cons in IH.
  rewrite !elem_of_cons. destruct (cmp y z); destruct IH; auto.
Qed.

(** The first of the least: nothing in the list is below it. *)
Lemma min_by_least {A} (cmp : A -> A -> comparison) l x :
  (forall a, cmp a a <> Gt) -> (forall a b, cmp a b = Gt -> cmp b a <> Gt) ->
  (forall a b c, cmp a b <> Gt -> cmp b c <> Gt -> cmp a c <> Gt) ->
  min_by cmp l = Some x -> forall y, y ∈ l -> cmp x y <> Gt.
Proof.
  intros Hrefl Hgt Htrans. destruct l as [|z l]; [done|]. cbn [min_by]. intros [= <-].
  assert (Hall : forall l best, let r := foldl (fun best y => match cmp best y with Gt => y | _ => best end) best l in
    cmp r best <> Gt /\ forall y, y ∈ l -> cmp r y <> Gt).
  { clear l z. induction l as [|w l IH]; intros best; cbn [foldl].
    - split; [apply Hrefl|]. by intros y Hy%elem_of_nil.
    - destruct (IH (match cmp best w with Gt => w | _ => best end)) as [H1 H2].
      assert (Hb : cmp (match cmp best w with Gt => w | _ => best end) best <> Gt /\
                   cmp (match cmp best w with Gt => w | _ => best end) w <> Gt).
      { destruct (cmp best w) eqn:E; (split; [|]); first [apply Hrefl|by apply Hgt|congruence]. }
      destruct Hb as [Hb1 Hb2].
      split; [exact (Htrans _ _ _ H1 Hb1)|].
      intros y [->|Hy]%elem_of_cons; [exact (Htrans _ _ _ H1 Hb2)|by apply H2]. }
  destruct (Hall l z) as [K1 K2]. intros y [->|Hy]%elem_of_cons; [exact K1|by apply K2].
Qed.

(** ** Runs of a step relation *)

Lemma rtc_invariant {A} (R : A -> A -> Prop) (P : A -> Prop) x y :
  (forall a b, R a b -> P a -> P b) -> rtc R x y -> P x -> P y.
Proof. intros Hstep Hr. induction Hr as [|a b c Hab _ IH]; [done|]. intros Ha. by apply IH, (Hstep a b). Qed.
