(* ===== verification/Decimal.v ===== *)
(** * Numbers in text

    [format!("{n}")] and [str::parse::<u32>] as the standard library defines
    them, on byte strings, with the searches the callers use. *)

From S2P Require Import Prelude.

Fixpoint decimal_digits (n : nat) (z : Z) : list Z :=
  match n with
  | O => []
  | S n' => (if z <? 10 then [] else decimal_digits n' (z / 10)) ++ [48 + z mod 10]
  end.

(** A u32 has at most ten digits. *)
Definition decimal (z : Z) : list Z := decimal_digits 10 z.

(** Of a [w]-bit unsigned integer, which an overflow refuses. *)
Fixpoint parse_digits (w acc : Z) (bs : list Z) : option Z :=
  match bs with
  | [] => Some acc
  | b :: rest =>
      if (48 <=? b) && (b <=? 57) then
        let acc := acc * 10 + (b - 48) in
        if acc <? 2 ^ w then parse_digits w acc rest else None
      else None
  end.

Definition parse_unsigned (w : Z) (bs : list Z) : option Z :=
  match bs with
  | [] => None
  | 43 :: [] => None
  | 43 :: rest => parse_digits w 0 rest
  | _ => parse_digits w 0 bs
  end.

Definition parse_u32 : list Z -> option Z := parse_unsigned 32.
Definition parse_u64 : list Z -> option Z := parse_unsigned 64.

(** [str::find] of a character. *)
Fixpoint find_byte (c : Z) (bs : list Z) : option nat :=
  match bs with
  | [] => None
  | b :: rest => if b =? c then Some O else S <$> find_byte c rest
  end.

(** [str::strip_prefix]. *)
Fixpoint strip_prefix (prefix bs : list Z) : option (list Z) :=
  match prefix, bs with
  | [], _ => Some bs
  | p :: prefix, b :: bs => if p =? b then strip_prefix prefix bs else None
  | _, [] => None
  end.

(** [str::starts_with]. *)
Definition starts_with (prefix bs : list Z) : bool := is_some (strip_prefix prefix bs).

(** [str::contains] of a text, [windows(n).any(..)] of bytes. *)
Fixpoint contains_slice (needle hay : list Z) : bool :=
  starts_with needle hay || match hay with [] => false | _ :: hay => contains_slice needle hay end.

Lemma parse_digits_app w a : forall acc b,
  parse_digits w acc (a ++ b) = parse_digits w acc a ≫= fun v => parse_digits w v b.
Proof.
  induction a as [|x a IH]; intros acc b; cbn [app parse_digits]; [done|].
  destruct (_ && _); [|done]. destruct (_ <? _); [apply IH|done].
Qed.

Lemma decimal_digits_range n z : 0 <= z -> Forall (fun b => 48 <= b <= 57) (decimal_digits n z).
Proof.
  revert z. induction n as [|n IH]; intros z Hz; cbn [decimal_digits]; [constructor|].
  apply Forall_app. split.
  - destruct (z <? 10); [constructor|]. apply IH. zdm.
  - constructor; [|constructor]. zdm.
Qed.

Lemma parse_decimal_digits n : forall z, 0 <= z < 2 ^ 32 -> (0 < n)%nat -> z < 10 ^ Z.of_nat n ->
  parse_digits 32 0 (decimal_digits n z) = Some z.
Proof.
  induction n as [|n IH]; intros z Hz Hn Hb; [lia|]. cbn [decimal_digits]. rewrite parse_digits_app.
  assert (E : (if z <? 10 then Some 0 else Some (z / 10)) = parse_digits 32 0 (if z <? 10 then [] else decimal_digits n (z / 10))).
  { destruct (Z.ltb_spec z 10); [done|]. symmetry. apply IH; [zdm| |].
    - destruct n; [|lia]. change (10 ^ Z.of_nat 1) with 10 in Hb. lia.
    - rewrite Nat2Z.inj_succ, Z.pow_succ_r in Hb by lia. zdm. }
  rewrite <- E. assert (Hd : 0 <= z mod 10 < 10) by (apply Z.mod_pos_bound; lia).
  destruct (Z.ltb_spec z 10); cbn [mbind option_bind parse_digits];
    (destruct (Z.leb_spec 48 (48 + z mod 10)); [|lia]); (destruct (Z.leb_spec (48 + z mod 10) 57); [|lia]); cbn [andb].
  - replace (0 * 10 + (48 + z mod 10 - 48)) with z by zdm. by destruct (Z.ltb_spec z (2 ^ 32)); [|lia].
  - replace (z / 10 * 10 + (48 + z mod 10 - 48)) with z by zdm. by destruct (Z.ltb_spec z (2 ^ 32)); [|lia].
Qed.

Lemma find_byte_app a b c : Forall (fun x => x <> c) a -> find_byte c (a ++ c :: b) = Some (length a).
Proof.
  induction 1 as [|x a Hx Ha IH]; cbn [app find_byte length]; [by rewrite Z.eqb_refl|].
  destruct (Z.eqb_spec x c); [done|]. by rewrite IH.
Qed.

Lemma decimal_range n : is_u 32 n -> Forall (fun b => 48 <= b <= 57) (decimal n).
Proof. unfold is_u. intros. apply decimal_digits_range. lia. Qed.

Lemma parse_u32_decimal n : is_u 32 n -> parse_u32 (decimal n) = Some n.
Proof.
  intros Hn. pose proof (decimal_range n Hn) as Hd. unfold is_u in Hn.
  assert (Hp : parse_digits 32 0 (decimal n) = Some n) by (apply parse_decimal_digits; lia).
  unfold parse_u32, parse_unsigned, decimal in *. remember (decimal_digits 10 n) as ds eqn:E.
  destruct Hd as [|d ds Hd Hds].
  { cbn [decimal_digits] in E. by apply app_cons_not_nil in E. }
  rewrite <- Hp. clear -Hd. assert (d <> 43) by lia.
  destruct d as [|d|d]; try done. do 6 (destruct d as [d|d|]; try done).
Qed.

Lemma strip_prefix_app prefix bs : strip_prefix prefix (prefix ++ bs) = Some bs.
Proof. induction prefix as [|p prefix IH]; [done|]. cbn. by rewrite Z.eqb_refl. Qed.

Lemma strip_prefix_spec prefix bs rest : strip_prefix prefix bs = Some rest <-> bs = prefix ++ rest.
Proof.
  split; [|intros ->; apply strip_prefix_app].
  revert bs. induction prefix as [|p prefix IH]; intros bs; cbn; [by intros [= ->]|].
  destruct bs as [|b bs]; [done|]. destruct (Z.eqb_spec p b); [|done]. subst. by intros ->%IH.
Qed.

Lemma decimal_inj a b : is_u 32 a -> is_u 32 b -> decimal a = decimal b -> a = b.
Proof. intros Ha Hb E. apply (inj Some). by rewrite <- (parse_u32_decimal a), <- (parse_u32_decimal b), E. Qed.
