(* ===== verification/Utf8.v ===== *)
(** * UTF-8 as the standard library reads it

    [str::from_utf8] and [String::from_utf8_lossy] on byte strings: the next
    character of a string, or the longest part of one that can be told to be
    wrong, which the lossy reading replaces by U+FFFD. *)

From S2P Require Import Prelude.

Definition between (lo hi b : Z) : bool := (lo <=? b) && (b <=? hi).
Definition continuation (b : Z) : bool := between 128 191 b.

(** The bytes that may follow a first byte of a sequence of three or four. *)
Definition second_of_3 (b1 b2 : Z) : bool :=
  if b1 =? 224 then between 160 191 b2 else if b1 =? 237 then between 128 159 b2 else continuation b2.
Definition second_of_4 (b1 b2 : Z) : bool :=
  if b1 =? 240 then between 144 191 b2 else if b1 =? 244 then between 128 143 b2 else continuation b2.

(** The byte at a position; the end of the string reads as 0. *)
Definition at_or_0 (bs : list Z) (i : nat) : Z := nth i bs 0.

(** Whether a string starts with a character, and the length of the character
    or of the wrong part. *)
Definition next_char (bs : list Z) : bool * nat :=
  let b1 := at_or_0 bs 0 in let b2 := at_or_0 bs 1 in
  let b3 := at_or_0 bs 2 in let b4 := at_or_0 bs 3 in
  if between 0 127 b1 then (true, 1%nat)
  else if between 194 223 b1 then
    if continuation b2 then (true, 2%nat) else (false, 1%nat)
  else if between 224 239 b1 then
    if negb (second_of_3 b1 b2) then (false, 1%nat)
    else if negb (continuation b3) then (false, 2%nat) else (true, 3%nat)
  else if between 240 244 b1 then
    if negb (second_of_4 b1 b2) then (false, 1%nat)
    else if negb (continuation b3) then (false, 2%nat)
    else if negb (continuation b4) then (false, 3%nat) else (true, 4%nat)
  else (false, 1%nat).

Definition REPLACEMENT : list Z := [239; 191; 189].

(** One character per round; a round takes at least one byte. *)
Fixpoint lossy_loop (n : nat) (bs : list Z) : list Z :=
  match n, bs with
  | S n, _ :: _ =>
      let '(ok, len) := next_char bs in
      (if ok then take len bs else REPLACEMENT) ++ lossy_loop n (drop len bs)
  | _, _ => []
  end.

Definition from_utf8_lossy (bs : list Z) : list Z := lossy_loop (length bs) bs.

Fixpoint valid_loop (n : nat) (bs : list Z) : bool :=
  match n, bs with
  | S n, _ :: _ => let '(ok, len) := next_char bs in ok && valid_loop n (drop len bs)
  | _, _ => true
  end.

Definition utf8_valid (bs : list Z) : bool := valid_loop (length bs) bs.

Definition from_utf8 (bs : list Z) : option (list Z) := if utf8_valid bs then Some bs else None.

(** [str::trim]: the length of a white-space character at the start of a
    string, and of its bytes in reverse at the start of the reversed string. *)
Definition white_space (bs : list Z) : option nat :=
  match bs with
  | b :: _ =>
      if between 9 13 b || (b =? 32) then Some 1%nat
      else match bs with
      | 194 :: b2 :: _ => if (b2 =? 133) || (b2 =? 160) then Some 2%nat else None
      | 225 :: 154 :: 128 :: _ => Some 3%nat
      | 226 :: 128 :: b3 :: _ => if between 128 138 b3 || (b3 =? 168) || (b3 =? 169) || (b3 =? 175) then Some 3%nat else None
      | 226 :: 129 :: 159 :: _ => Some 3%nat
      | 227 :: 128 :: 128 :: _ => Some 3%nat
      | _ => None
      end
  | [] => None
  end.

Definition white_space_rev (bs : list Z) : option nat :=
  match bs with
  | b :: _ =>
      if between 9 13 b || (b =? 32) then Some 1%nat
      else match bs with
      | b2 :: 194 :: _ => if (b2 =? 133) || (b2 =? 160) then Some 2%nat else None
      | 128 :: 154 :: 225 :: _ => Some 3%nat
      | b3 :: 128 :: 226 :: _ => if between 128 138 b3 || (b3 =? 168) || (b3 =? 169) || (b3 =? 175) then Some 3%nat else None
      | 159 :: 129 :: 226 :: _ => Some 3%nat
      | 128 :: 128 :: 227 :: _ => Some 3%nat
      | _ => None
      end
  | [] => None
  end.

Fixpoint trim_loop (n : nat) (white : list Z -> option nat) (bs : list Z) : list Z :=
  match n, white bs with
  | S n, Some len => trim_loop n white (drop len bs)
  | _, _ => bs
  end.

Definition trim_start (bs : list Z) : list Z := trim_loop (length bs) white_space bs.
Definition trim_end (bs : list Z) : list Z := rev (trim_loop (length bs) white_space_rev (rev bs)).
Definition trim (bs : list Z) : list Z := trim_end (trim_start bs).

Example trim_both : trim [32; 9; 97; 32; 98; 226; 128; 137; 10] = [97; 32; 98].
Proof. reflexivity. Qed.

(** ** What the two readings have to do with each other *)

Lemma next_char_len bs : (1 <= (next_char bs).2 <= 4)%nat.
Proof. unfold next_char. repeat (case_match; cbn [snd]; try lia). Qed.

Lemma next_char_fits bs : bs <> [] -> (next_char bs).1 = true -> ((next_char bs).2 <= length bs)%nat.
Proof.
  destruct bs as [|b1 [|b2 [|b3 [|b4 rest]]]]; [done|..]; intros _;
    unfold next_char, at_or_0; cbn [nth length]; unfold second_of_3, second_of_4, continuation, between;
    repeat (case_match; cbn [fst snd]; try done; try lia).
Qed.

Lemma next_char_app a b : a <> [] -> (next_char a).1 = true -> next_char (a ++ b) = next_char a.
Proof.
  intros Ha Hok. pose proof (next_char_fits a Ha Hok) as Hl. revert Hok Hl.
  destruct a as [|b1 [|b2 [|b3 [|b4 rest]]]]; [done|..]; unfold next_char, at_or_0; cbn [app nth length];
    unfold second_of_3, second_of_4, continuation, between; repeat (case_match; cbn [fst snd]; try done; try lia).
Qed.

Lemma drop_char_length bs : bs <> [] -> (length (drop (next_char bs).2 bs) < length bs)%nat.
Proof. intros H. rewrite length_drop. pose proof (next_char_len bs). destruct bs; [done|]. cbn [length]. lia. Qed.

Lemma valid_loop_fuel n : forall m bs, (length bs <= n)%nat -> (length bs <= m)%nat -> valid_loop n bs = valid_loop m bs.
Proof.
  induction n as [|n IH]; intros m bs Hn Hm.
  - destruct bs; [by destruct m|cbn in Hn; lia].
  - destruct m as [|m]; [destruct bs; [done|cbn in Hm; lia]|]. destruct bs as [|b bs]; [done|].
    cbn [valid_loop]. pose proof (drop_char_length (b :: bs) ltac:(done)) as Hd.
    destruct (next_char (b :: bs)) as [ok len]. cbn [snd] in Hd. f_equal. apply IH; cbn [length] in *; lia.
Qed.

Lemma utf8_valid_step bs : bs <> [] ->
  utf8_valid bs = (next_char bs).1 && utf8_valid (drop (next_char bs).2 bs).
Proof.
  intros Hne. pose proof (drop_char_length bs Hne) as Hd. unfold utf8_valid. destruct bs as [|b bs]; [done|].
  cbn [length valid_loop]. destruct (next_char (b :: bs)) as [ok len]. cbn [fst snd] in *. f_equal.
  apply valid_loop_fuel; cbn [length] in *; lia.
Qed.

Lemma utf8_valid_char a b : a <> [] -> (next_char a).1 = true -> (next_char a).2 = length a ->
  utf8_valid (a ++ b) = utf8_valid b.
Proof.
  intros Ha Hok Hl. rewrite utf8_valid_step by (by destruct a). rewrite next_char_app by done.
  by rewrite Hok, Hl, drop_app_length.
Qed.

Lemma next_char_take bs : bs <> [] -> (next_char bs).1 = true ->
  next_char (take (next_char bs).2 bs) = next_char bs.
Proof.
  intros Hne Hok. pose proof (next_char_fits bs Hne Hok) as Hl. revert Hok Hl.
  destruct bs as [|b1 [|b2 [|b3 [|b4 rest]]]]; [done|..]; unfold next_char, at_or_0; cbn [nth length];
    unfold second_of_3, second_of_4, continuation, between;
    repeat (case_match; cbn [fst snd take nth]; try done; try lia);
    repeat (case_match; try done; try lia).
Qed.

(** The lossy reading is always a string, and reads a string as itself. *)
Lemma lossy_loop_valid n : forall bs, (length bs <= n)%nat -> utf8_valid (lossy_loop n bs) = true.
Proof.
  induction n as [|n IH]; intros bs Hn; [done|]. destruct bs as [|b bs]; [done|].
  cbn [lossy_loop]. pose proof (drop_char_length (b :: bs) ltac:(done)) as Hd.
  pose proof (next_char_take (b :: bs) ltac:(done)) as Ht. pose proof (next_char_fits (b :: bs) ltac:(done)) as Hf.
  pose proof (next_char_len (b :: bs)) as Hlen.
  destruct (next_char (b :: bs)) as [ok len]. cbn [fst snd] in *.
  assert (Hrest : utf8_valid (lossy_loop n (drop len (b :: bs))) = true) by (apply IH; cbn [length] in *; lia).
  destruct ok.
  - rewrite utf8_valid_char; [done| |by rewrite Ht|rewrite Ht by done; cbn [snd]; rewrite length_take; specialize (Hf eq_refl); lia].
    destruct len; [lia|done].
  - by rewrite utf8_valid_char.
Qed.

Lemma from_utf8_lossy_valid bs : utf8_valid (from_utf8_lossy bs) = true.
Proof. by apply lossy_loop_valid. Qed.

Lemma lossy_loop_id n : forall bs, (length bs <= n)%nat -> utf8_valid bs = true -> lossy_loop n bs = bs.
Proof.
  induction n as [|n IH]; intros bs Hn Hv; [destruct bs; [done|cbn in Hn; lia]|]. destruct bs as [|b bs]; [done|].
  rewrite utf8_valid_step in Hv by done. pose proof (drop_char_length (b :: bs) ltac:(done)) as Hd. cbn [lossy_loop].
  destruct (next_char (b :: bs)) as [ok len]. cbn [fst snd] in *. apply andb_true_iff in Hv as [-> Hv].
  rewrite IH by (done || (cbn [length] in *; lia)). apply take_drop.
Qed.

Lemma from_utf8_lossy_id bs : utf8_valid bs = true -> from_utf8_lossy bs = bs.
Proof. by apply lossy_loop_id. Qed.

Lemma utf8_valid_ascii bs : Forall (fun b => 0 <= b <= 127) bs -> utf8_valid bs = true.
Proof.
  induction 1 as [|b bs Hb _ IH]; [done|]. rewrite utf8_valid_step by done.
  unfold next_char, at_or_0, between. cbn [nth]. destruct Hb.
  rewrite !(proj2 (Z.leb_le _ _)) by done. exact IH.
Qed.
