(* ===== verification/F32.v ===== *)
(** * IEEE binary32 arithmetic: Rust's [f32]

    Rust's [f32] operations are IEEE 754 binary32 with round-to-nearest-even;
    they are modelled by the Standard Library's executable [SpecFloat] at
    precision 24 and maximal exponent 128.  The casts between floats and
    integers are Rust's [as]: to integer they truncate towards zero, saturate
    at the bounds of the target and send NaN to 0.

    NaN payloads and signs are not represented: no code modelled here looks at
    them, except [total_cmp], where every NaN is ordered as a positive NaN.

    The transcendental functions are platform code of unspecified precision:
    they are the operations of the class [Libm]. *)

From S2P Require Import Prelude.
From Stdlib Require Export SpecFloat.

Abbreviation f32 := spec_float.
Abbreviation vec3 := (f32 * f32 * f32)%type.

Definition f32_add : f32 -> f32 -> f32 := SFadd 24 128.
Definition f32_sub : f32 -> f32 -> f32 := SFsub 24 128.
Definition f32_mul : f32 -> f32 -> f32 := SFmul 24 128.
Definition f32_div : f32 -> f32 -> f32 := SFdiv 24 128.
Definition f32_sqrt : f32 -> f32 := SFsqrt 24 128.
Definition f32_neg : f32 -> f32 := SFopp.
Definition f32_abs : f32 -> f32 := SFabs.

(** [a < b], [a <= b], [a > b], [a >= b], [a == b]: false on NaN. *)
Definition f32_lt : f32 -> f32 -> bool := SFltb.
Definition f32_le : f32 -> f32 -> bool := SFleb.
Definition f32_gt (a b : f32) : bool := SFltb b a.
Definition f32_ge (a b : f32) : bool := SFleb b a.
Definition f32_eq : f32 -> f32 -> bool := SFeqb.

(** [n as f32] for an integer [n]: rounded to nearest even. *)
Definition f32_of_Z (n : Z) : f32 := binary_normalize 24 128 n 0 false.

Definition is_nan (a : f32) : bool :=
  match a with S754_nan => true | _ => false end.
Definition is_finite (a : f32) : bool :=
  match a with S754_zero _ | S754_finite _ _ _ => true | _ => false end.

(** [f32::max], [f32::min]: a NaN operand is ignored. *)
Definition f32_max (a b : f32) : f32 :=
  if is_nan a then b else if is_nan b then a else if f32_lt a b then b else a.
Definition f32_min (a b : f32) : f32 :=
  if is_nan a then b else if is_nan b then a else if f32_lt b a then b else a.

(** The integer part, towards zero, of a finite float. *)
Definition trunc_Z (s : bool) (m : positive) (e : Z) : Z :=
  let mag := if 0 <=? e then Z.shiftl (Z.pos m) e else Z.shiftr (Z.pos m) (- e) in
  if s then - mag else mag.

Definition clampZ (lo hi z : Z) : Z := Z.max lo (Z.min hi z).

(** [a as T] for an integer type with bounds [lo] and [hi]. *)
Definition f32_to_Z (lo hi : Z) (a : f32) : Z :=
  match a with
  | S754_nan => 0
  | S754_zero _ => 0
  | S754_infinity s => if s then lo else hi
  | S754_finite s m e => clampZ lo hi (trunc_Z s m e)
  end.

Definition f32_as_i32 : f32 -> Z := f32_to_Z (- 2 ^ 31) (2 ^ 31 - 1).
Definition f32_as_u32 : f32 -> Z := f32_to_Z 0 (2 ^ 32 - 1).
Definition f32_as_usize : f32 -> Z := f32_to_Z 0 (2 ^ 64 - 1).

(** [f32::floor]. *)
Definition f32_floor (a : f32) : f32 :=
  match a with
  | S754_finite s m e =>
    if 0 <=? e then a
    else
      let z := if s then - Z.pos m else Z.pos m in
      binary_normalize 24 128 (Z.shiftr z (- e)) 0 s
  | _ => a
  end.

(** [a % b]: the exact remainder, with the sign of [a]. *)
Definition f32_rem (a b : f32) : f32 :=
  match a, b with
  | S754_nan, _ | _, S754_nan => S754_nan
  | S754_infinity _, _ => S754_nan
  | _, S754_zero _ => S754_nan
  | S754_zero _, _ => a
  | S754_finite _ _ _, S754_infinity _ => a
  | S754_finite s m e, S754_finite _ m' e' =>
    let e0 := Z.min e e' in
    let r := Z.shiftl (Z.pos m) (e - e0) mod Z.shiftl (Z.pos m') (e' - e0) in
    binary_normalize 24 128 (if s then - r else r) e0 s
  end.

(** [f32::rem_euclid]. *)
Definition f32_rem_euclid (a b : f32) : f32 :=
  let r := f32_rem a b in
  if f32_lt r (S754_zero false) then f32_add r (f32_abs b) else r.

(** [f32::total_cmp]. *)
Definition f32_total_cmp (a b : f32) : comparison :=
  match a, b with
  | S754_nan, S754_nan => Eq
  | S754_nan, _ => Gt
  | _, S754_nan => Lt
  | S754_zero s, S754_zero s' =>
    match s, s' with true, false => Lt | false, true => Gt | _, _ => Eq end
  | _, _ => match SFcompare a b with Some c => c | None => Eq end
  end.

(** ** Constants of the source, by their binary32 representation. *)

Definition f32_zero : f32 := S754_zero false.
Definition f32_one : f32 := f32_of_Z 1.
Definition f32_half : f32 := S754_finite false 8388608 (-24).
(** [std::f32::consts::PI] *)
Definition f32_PI : f32 := S754_finite false 13176795 (-22).
(** [f32::EPSILON], that is [2^-23] *)
Definition f32_EPSILON : f32 := S754_finite false 8388608 (-46).

(** [f32::to_degrees] multiplies by the binary32 value of [180/pi];
    [f32::to_radians] by [PI / 180.0] computed in binary32. *)
Definition to_degrees (a : f32) : f32 := f32_mul a (S754_finite false 15019745 (-18)).
Definition to_radians (a : f32) : f32 := f32_mul a (f32_div f32_PI (f32_of_Z 180)).

Class Libm := {
  f32_sin : f32 -> f32;
  f32_cos : f32 -> f32;
  f32_atan2 : f32 -> f32 -> f32
}.

(** ** Facts shared by the clients *)

Lemma f32_to_Z_bounds lo hi a : lo <= 0 <= hi -> lo <= f32_to_Z lo hi a <= hi.
Proof.
  intros H. destruct a as [s|s| |s m e]; cbn; try destruct s; unfold clampZ; lia.
Qed.

(** The larger of anything and zero is a number, and not a negative one. *)
Lemma f32_max_zero_nonneg a :
  is_nan (f32_max a f32_zero) = false /\ f32_lt (f32_max a f32_zero) f32_zero = false.
Proof. destruct a as [s|s| |s m e]; try destruct s; cbn; auto. Qed.

Lemma SFcompare_antisym a b : SFcompare b a = option_map CompOpp (SFcompare a b).
Proof.
  destruct a as [sa|sa| |sa ma ea], b as [sb|sb| |sb mb eb]; try done; simpl;
    try (by destruct sa); try (by destruct sb); try (by destruct sa, sb).
  rewrite (Z.compare_antisym ea eb). change (Pos.compare_cont Eq) with Pos.compare.
  rewrite (Pos.compare_antisym ma mb). destruct sa, sb; try done; destruct (ea ?= eb); try done.
Qed.

Lemma f32_lt_asym a b : f32_lt a b = true -> f32_gt a b = false.
Proof.
  unfold f32_lt, f32_gt, SFltb. rewrite (SFcompare_antisym a b).
  by destruct (SFcompare a b) as [[]|].
Qed.

(** A number (not NaN) whose sign bit is clear. *)
Definition nonneg_num (a : f32) : bool :=
  match a with
  | S754_zero s | S754_infinity s | S754_finite s _ _ => negb s
  | S754_nan => false
  end.

Lemma nonneg_num_spec a : nonneg_num a = true ->
  is_nan a = false /\ f32_abs a = a /\ f32_ge a f32_zero = true.
Proof. by destruct a as [[]|[]| |[] m e]. Qed.

Lemma shr_1_nonneg mrs : 0 <= shr_m mrs -> 0 <= shr_m (shr_1 mrs).
Proof. destruct mrs as [[|[]|[]] r s]; simpl; lia. Qed.

Lemma iter_shr_1_nonneg n mrs : 0 <= shr_m mrs -> 0 <= shr_m (iter_pos shr_1 n mrs).
Proof.
  revert mrs; induction n as [n IH|n IH|]; intros mrs H; simpl; auto using shr_1_nonneg.
Qed.

Lemma shr_fexp_nonneg p E m e l : 0 <= m -> 0 <= shr_m (fst (shr_fexp p E m e l)).
Proof.
  intros Hm. unfold shr_fexp, shr.
  assert (0 <= shr_m (shr_record_of_loc m l)) by (by destruct l as [|[]]).
  destruct (_ - _)%Z; simpl; auto using iter_shr_1_nonneg.
Qed.

Lemma round_nearest_even_nonneg m l : 0 <= m -> 0 <= round_nearest_even m l.
Proof. intros Hm. destruct l as [|[]]; simpl; [lia|destruct (Z.even m); lia|lia|lia]. Qed.

(** Rounding a non-negative magnitude under a clear sign stays such a number. *)
Lemma binary_round_aux_nonneg p E m e l : 0 <= m ->
  nonneg_num (binary_round_aux p E false m e l) = true.
Proof.
  intros Hm. unfold binary_round_aux.
  pose proof (shr_fexp_nonneg p E m e l Hm) as H1.
  destruct (shr_fexp p E m e l) as [mrs' e'] eqn:E1. simpl in H1.
  pose proof (round_nearest_even_nonneg _ (loc_of_shr_record mrs') H1) as H2.
  pose proof (shr_fexp_nonneg p E _ e' loc_Exact H2) as H3.
  destruct (shr_fexp p E (round_nearest_even _ _) e' loc_Exact) as [mrs'' e'']. simpl in H3.
  destruct (shr_m mrs''); [done| |lia]. by destruct (_ <=? _).
Qed.

(** The square root of anything clamped to zero is a non-negative number; a
    negative zero, which [max] may keep, is its own root. *)
Lemma f32_sqrt_clamped a : let r := f32_sqrt (f32_max a f32_zero) in
  nonneg_num r = true \/ r = S754_zero true.
Proof.
  destruct a as [[]|[]| |[] m e]; try (by left); try (by right).
  left. change (f32_max _ _) with (S754_finite false m e).
  change (f32_sqrt _) with (SFsqrt 24 128 (S754_finite false m e)).
  unfold SFsqrt, SFsqrt_core_binary.
  match goal with |- context [Z.sqrtrem ?n] =>
    pose proof (Z.sqrt_nonneg n) as Hn; rewrite <- Z.sqrtrem_sqrt in Hn;
    destruct (Z.sqrtrem n) as [q r] end.
  by apply binary_round_aux_nonneg.
Qed.

Example f32_exact : f32_sub (f32_mul (f32_of_Z 3) f32_half) f32_one = f32_half.
Proof. reflexivity. Qed.
Example f32_floor_neg : f32_floor (f32_neg f32_half) = f32_of_Z (-1).
Proof. reflexivity. Qed.
Example f32_trunc_neg : f32_as_i32 (f32_neg (f32_mul (f32_of_Z 3) f32_half)) = -1.
Proof. reflexivity. Qed.

(** ** [total_cmp] is a total order

    Every float has a rank in the lexicographic order of three integers. *)

Definition total_rank (a : f32) : Z * Z * Z :=
  match a with
  | S754_nan => (4, 0, 0)
  | S754_infinity s => if s then (-2, 0, 0) else (3, 0, 0)
  | S754_zero s => if s then (0, 0, 0) else (1, 0, 0)
  | S754_finite s m e => if s then (-1, - e, - Z.pos m) else (2, e, Z.pos m)
  end.

Definition lex_compare (a b : Z * Z * Z) : comparison :=
  match a.1.1 ?= b.1.1 with
  | Eq => match a.1.2 ?= b.1.2 with Eq => a.2 ?= b.2 | c => c end
  | c => c
  end.

Lemma total_cmp_rank a b : f32_total_cmp a b = lex_compare (total_rank a) (total_rank b).
Proof.
  destruct a as [[]|[]| |[] m e], b as [[]|[]| |[] m' e']; try reflexivity.
  cbn -[Z.compare]. unfold lex_compare. cbn -[Z.compare Z.opp].
  assert (Hop : forall x y, (- x ?= - y) = (y ?= x)) by (intros; apply Z.compare_opp).
  change (Z.neg m) with (- Z.pos m). change (Z.neg m') with (- Z.pos m').
  rewrite !Hop, (Z.compare_antisym e e').
  destruct (e ?= e'); cbn; try done. change (CompOpp (Pos.compare m m') = Pos.compare m' m).
  by rewrite <- Pos.compare_antisym.
Qed.

Lemma lex_compare_le a b c : lex_compare a b <> Gt -> lex_compare b c <> Gt -> lex_compare a c <> Gt.
Proof.
  destruct a as [[a1 a2] a3], b as [[b1 b2] b3], c as [[c1 c2] c3]. unfold lex_compare. cbn -[Z.compare].
  destruct (Z.compare_spec a1 b1), (Z.compare_spec b1 c1), (Z.compare_spec a1 c1); try done; try lia;
  destruct (Z.compare_spec a2 b2), (Z.compare_spec b2 c2), (Z.compare_spec a2 c2); try done; try lia;
  rewrite !Z.compare_le_iff; lia.
Qed.

Lemma lex_compare_total a b : lex_compare a b = Gt -> lex_compare b a = Lt.
Proof.
  destruct a as [[a1 a2] a3], b as [[b1 b2] b3]. unfold lex_compare. cbn -[Z.compare].
  rewrite (Z.compare_antisym a1 b1), (Z.compare_antisym a2 b2), (Z.compare_antisym a3 b3).
  by destruct (a1 ?= b1), (a2 ?= b2), (a3 ?= b3).
Qed.

Lemma lex_compare_refl a : lex_compare a a = Eq.
Proof. unfold lex_compare. by rewrite !Z.compare_refl. Qed.

Lemma total_cmp_trans a b c : f32_total_cmp a b <> Gt -> f32_total_cmp b c <> Gt -> f32_total_cmp a c <> Gt.
Proof. rewrite !total_cmp_rank. apply lex_compare_le. Qed.

Lemma total_cmp_gt a b : f32_total_cmp a b = Gt -> f32_total_cmp b a = Lt.
Proof. rewrite !total_cmp_rank. apply lex_compare_total. Qed.

Lemma total_cmp_refl a : f32_total_cmp a a = Eq.
Proof. rewrite total_cmp_rank. apply lex_compare_refl. Qed.

(** ** The order of the numbers

    Without NaN the partial comparison is the order of a rank, in which the
    two zeros coincide. *)

Definition num_rank (a : f32) : Z * Z * Z :=
  match a with
  | S754_nan => (3, 0, 0)
  | S754_infinity s => if s then (-2, 0, 0) else (2, 0, 0)
  | S754_zero _ => (0, 0, 0)
  | S754_finite s m e => if s then (-1, - e, - Z.pos m) else (1, e, Z.pos m)
  end.

Lemma num_cmp_rank a b : is_nan a = false -> is_nan b = false ->
  SFcompare a b = Some (lex_compare (num_rank a) (num_rank b)).
Proof.
  intros Ha Hb. destruct a as [[]|[]| |[] m e], b as [[]|[]| |[] m' e']; try done.
  all: cbn -[Z.compare]; unfold lex_compare; cbn -[Z.compare Z.opp].
  change (Z.neg m) with (- Z.pos m). change (Z.neg m') with (- Z.pos m').
  rewrite !Z.compare_opp, (Z.compare_antisym e e').
  destruct (e ?= e'); cbn; try done. change (Some (CompOpp (Pos.compare m m')) = Some (Pos.compare m' m)).
  by rewrite <- Pos.compare_antisym.
Qed.

Lemma f32_le_num a b : f32_le a b = true ->
  is_nan a = false /\ is_nan b = false /\ lex_compare (num_rank a) (num_rank b) <> Gt.
Proof.
  unfold f32_le, SFleb. intros H.
  assert (Hn : is_nan a = false /\ is_nan b = false) by (by destruct a, b).
  destruct Hn as [Ha Hb]. rewrite num_cmp_rank in H by done. by destruct (lex_compare _ _).
Qed.

Lemma f32_lt_num a b : f32_lt a b = true ->
  is_nan a = false /\ is_nan b = false /\ lex_compare (num_rank a) (num_rank b) = Lt.
Proof.
  unfold f32_lt, SFltb. intros H.
  assert (Hn : is_nan a = false /\ is_nan b = false) by (by destruct a, b).
  destruct Hn as [Ha Hb]. rewrite num_cmp_rank in H by done. by destruct (lex_compare _ _).
Qed.

Lemma num_le a b : is_nan a = false -> is_nan b = false ->
  lex_compare (num_rank a) (num_rank b) <> Gt -> f32_le a b = true.
Proof.
  intros Ha Hb H. unfold f32_le, SFleb. rewrite num_cmp_rank by done. by destruct (lex_compare _ _).
Qed.

Lemma num_lt a b : is_nan a = false -> is_nan b = false ->
  lex_compare (num_rank a) (num_rank b) = Lt -> f32_lt a b = true.
Proof. intros Ha Hb H. unfold f32_lt, SFltb. by rewrite num_cmp_rank, H by done. Qed.

Lemma lex_compare_lt a b c : lex_compare a b = Lt -> lex_compare b c <> Gt -> lex_compare a c = Lt.
Proof.
  destruct a as [[a1 a2] a3], b as [[b1 b2] b3], c as [[c1 c2] c3]. unfold lex_compare. cbn -[Z.compare].
  destruct (Z.compare_spec a1 b1), (Z.compare_spec b1 c1), (Z.compare_spec a1 c1); try done; try lia;
  destruct (Z.compare_spec a2 b2), (Z.compare_spec b2 c2), (Z.compare_spec a2 c2); try done; try lia;
  rewrite !Z.compare_lt_iff, ?Z.compare_le_iff; lia.
Qed.

Lemma f32_le_trans a b c : f32_le a b = true -> f32_le b c = true -> f32_le a c = true.
Proof.
  intros (Ha & Hb & H1)%f32_le_num (_ & Hc & H2)%f32_le_num. apply num_le; [done..|].
  exact (lex_compare_le _ _ _ H1 H2).
Qed.

Lemma f32_lt_le_trans a b c : f32_lt a b = true -> f32_le b c = true -> f32_lt a c = true.
Proof.
  intros (Ha & Hb & H1)%f32_lt_num (_ & Hc & H2)%f32_le_num. apply num_lt; [done..|].
  exact (lex_compare_lt _ _ _ H1 H2).
Qed.

Lemma f32_le_refl a : is_nan a = false -> f32_le a a = true.
Proof. intros Ha. apply num_le; [done..|]. by rewrite lex_compare_refl. Qed.

Lemma lex_compare_le_lt a b c : lex_compare a b <> Gt -> lex_compare b c = Lt -> lex_compare a c = Lt.
Proof.
  destruct a as [[a1 a2] a3], b as [[b1 b2] b3], c as [[c1 c2] c3]. unfold lex_compare. cbn -[Z.compare].
  destruct (Z.compare_spec a1 b1), (Z.compare_spec b1 c1), (Z.compare_spec a1 c1); try done; try lia;
  destruct (Z.compare_spec a2 b2), (Z.compare_spec b2 c2), (Z.compare_spec a2 c2); try done; try lia;
  rewrite ?Z.compare_lt_iff, ?Z.compare_le_iff; lia.
Qed.

Lemma f32_le_lt_trans a b c : f32_le a b = true -> f32_lt b c = true -> f32_lt a c = true.
Proof.
  intros (Ha & Hb & H1)%f32_le_num (_ & Hc & H2)%f32_lt_num. apply num_lt; [done..|].
  exact (lex_compare_le_lt _ _ _ H1 H2).
Qed.

(** Equality of numbers. *)
Lemma lex_compare_eq a b : lex_compare a b = Eq -> a = b.
Proof.
  destruct a as [[x y] z], b as [[x' y'] z']. unfold lex_compare. cbn -[Z.compare]. intros H.
  destruct (Z.compare_spec x x') as [->| |], (Z.compare_spec y y') as [->| |], (Z.compare_spec z z') as [->| |];
    cbn in H; done.
Qed.

Lemma f32_eq_num a b : f32_eq a b = true <-> is_nan a = false /\ is_nan b = false /\ num_rank a = num_rank b.
Proof.
  unfold f32_eq, SFeqb. split.
  - intros H. assert (Hn : is_nan a = false /\ is_nan b = false) by (by destruct a, b).
    destruct Hn as [Ha Hb]. rewrite num_cmp_rank in H by done. do 2 (split; [done|]).
    apply lex_compare_eq. by destruct (lex_compare _ _).
  - intros (Ha & Hb & E). by rewrite num_cmp_rank, E, lex_compare_refl by done.
Qed.
