(* ===== verification/MessageBuffer.v ===== *)
(** * The [datBitBuffer]-compatible bit buffer
    (src/crates/baston-protocol/src/rage/buffer.rs)

    The reader/writer every OneSync codec is built on.  Section by section:
    the state and the operations of the source; the bit-level view of a byte
    buffer; the functional specification of each operation on that view; and
    the two specification judgements, [reads] and [writes], against which the
    codecs of the other files are proved. *)

From S2P Require Import Prelude F32.

(** ** State *)

Record MessageBuffer := {
  data : list Z;
  cur_bit : Z;
  max_bit : Z;
  length_hack : bool
}.

Definition new (size : Z) : MessageBuffer :=
  {| data := replicate (Z.to_nat size) 0; cur_bit := 0; max_bit := size * 8;
     length_hack := false |}.

Definition from_bytes (d : list Z) : MessageBuffer :=
  {| data := d; cur_bit := 0; max_bit := Z.of_nat (length d) * 8; length_hack := false |}.

Definition from_bits (d : list Z) (bit_len : Z) : MessageBuffer :=
  {| data := d; cur_bit := 0; max_bit := Z.min bit_len (Z.of_nat (length d) * 8);
     length_hack := false |}.

Definition with_length_hack (b : MessageBuffer) (enabled : bool) : MessageBuffer :=
  {| data := data b; cur_bit := cur_bit b; max_bit := max_bit b; length_hack := enabled |}.

Definition set_current_bit (b : MessageBuffer) (bit : Z) : MessageBuffer :=
  {| data := data b; cur_bit := bit; max_bit := max_bit b; length_hack := length_hack b |}.

Definition with_data (b : MessageBuffer) (d : list Z) : MessageBuffer :=
  {| data := d; cur_bit := cur_bit b; max_bit := max_bit b; length_hack := length_hack b |}.

Definition advance (b : MessageBuffer) (n : Z) : MessageBuffer :=
  set_current_bit b (cur_bit b + n).

(** ** Bit access on a byte vector: [(data[bit/8] >> (7 - bit%8)) & 1] and
    [data[idx] = (data[idx] & !(1 << shift)) | (b << shift)].  Indexing is
    total here with default [0]; [wf] below is the type invariant under which
    every index the operations use is in range. *)

Definition byte_at (d : list Z) (idx : Z) : Z := default 0 (d !! Z.to_nat idx).

Definition bit_of (d : list Z) (bit : Z) : Z :=
  Z.land (Z.shiftr (byte_at d (bit / 8)) (7 - bit mod 8)) 1.

Definition set_bit (d : list Z) (bit b : Z) : list Z :=
  let idx := bit / 8 in
  let shift := 7 - bit mod 8 in
  <[Z.to_nat idx :=
      Z.lor (Z.land (byte_at d idx) (not_u8 (Z.shiftl 1 shift))) (Z.shiftl b shift)]> d.

(** ** Operations *)

Definition effective_len_of (hack : bool) (length : Z) : Z :=
  if (length =? 13) && hack then 16 else length.

Definition effective_len (self : MessageBuffer) (length : Z) : Z :=
  effective_len_of (length_hack self) length.

Definition read_bits_single (length : Z) : SM MessageBuffer Z := fun self =>
  let length := effective_len self length in
  if cur_bit self + length >? max_bit self
  then (None, advance self length)
  else
    let value := foldl (fun value i =>
        let bit := cur_bit self + i in
        Z.lor (u32 (Z.shiftl value 1)) (bit_of (data self) bit))
      0 (seqZ 0 length) in
    (Some value, advance self length).

Definition write_bits_single (value length : Z) : MessageBuffer -> bool * MessageBuffer :=
  fun self =>
  let length := effective_len self length in
  if cur_bit self + length >? max_bit self then (false, self)
  else
    let d := foldl (fun d i =>
        let bit := cur_bit self + i in
        let b := u8 (Z.land (Z.shiftr value (length - 1 - i)) 1) in
        set_bit d bit b)
      (data self) (seqZ 0 length) in
    (true, advance (with_data self d) length).

Definition read_bit (self : MessageBuffer) : Z * MessageBuffer :=
  let idx := cur_bit self / 8 in
  if idx >=? Z.of_nat (length (data self))
  then (0, advance self 1)
  else (bit_of (data self) (cur_bit self), advance self 1).

Definition write_bit (bit : bool) (self : MessageBuffer) : bool * MessageBuffer :=
  let idx := cur_bit self / 8 in
  if idx >=? Z.of_nat (length (data self))
  then (false, self)
  else (true, advance (with_data self (set_bit (data self) (cur_bit self) (Z.b2z bit))) 1).

(** [dest[db..db + n].copy_from_slice(&src[sb..sb + n])]. *)
Definition copy_from_slice (dest src : list Z) (db sb n : Z) : list Z :=
  take (Z.to_nat db) dest
    ++ take (Z.to_nat n) (drop (Z.to_nat sb) src)
    ++ drop (Z.to_nat (db + n)) dest.

Definition copy_bits (dest src : list Z) (length dest_bit src_bit : Z) : list Z :=
  if (dest_bit mod 8 =? 0) && (src_bit mod 8 =? 0) && (length mod 8 =? 0)
  then
    let db := dest_bit / 8 in
    let sb := src_bit / 8 in
    let n := length / 8 in
    copy_from_slice dest src db sb n
  else
    foldl (fun dest i =>
        let s := src_bit + i in
        let bit := bit_of src s in
        let d := dest_bit + i in
        set_bit dest d bit)
      dest (seqZ 0 length).

(** [read_bits] fills a caller-supplied [dest]; it returns its success flag
    with the new contents of [dest]. *)
Definition read_bits (dest : list Z) (length : Z) (self : MessageBuffer)
    : (bool * list Z) * MessageBuffer :=
  if length =? 0 then ((true, dest), self)
  else if cur_bit self + length >? max_bit self then ((false, dest), self)
  else ((true, copy_bits dest (data self) length 0 (cur_bit self)), advance self length).

Definition write_bits (src : list Z) (length : Z) (self : MessageBuffer)
    : bool * MessageBuffer :=
  if cur_bit self + length >? max_bit self then (false, self)
  else (true, advance (with_data self (copy_bits (data self) src length (cur_bit self) 0)) length).

Definition read_signed (length : Z) : SM MessageBuffer Z := fun self =>
  if (length =? 0) || (length >? 32) then (None, self)
  else (sign ← read_bits_single 1;
        d ← read_bits_single (length - 1);
        mret (i32 (i32 sign + Z.lxor (i32 d) (- i32 sign)))) self.

Definition and_then (w1 w2 : MessageBuffer -> bool * MessageBuffer)
    : MessageBuffer -> bool * MessageBuffer := fun self =>
  let '(ok, self') := w1 self in
  if ok then w2 self' else (false, self').

(** [w1 && w2] on writers: the second runs only when the first succeeds. *)
Infix "&&&" := and_then (at level 40, left associativity).

Definition write_signed (value length : Z) : MessageBuffer -> bool * MessageBuffer :=
  let sign := if value <? 0 then 1 else 0 in
  let sign_ex := if value <? 0 then -1 else 0 in
  let d := u32 (Z.lxor value sign_ex) in
  write_bits_single sign 1 &&& write_bits_single d (length - 1).

(** [((1u64 << length) - 1) as f32]. *)
Definition quantum_max (length : Z) : f32 := f32_of_Z (u64 (Z.shiftl 1 length) - 1).

Definition read_float (length : Z) (divisor : f32) : SM MessageBuffer f32 := fun self =>
  if (length =? 0) || (length >? 32) then (None, self)
  else (integer ← read_bits_single length;
        let max := quantum_max length in
        mret (f32_mul (f32_div (f32_of_Z (i32 integer)) max) divisor)) self.

Definition write_float (length : Z) (divisor value : f32)
    : MessageBuffer -> bool * MessageBuffer :=
  let max := quantum_max length in
  let integer := f32_as_i32 (f32_mul (f32_div value divisor) max) in
  write_bits_single (u32 integer) length.

Definition read_signed_float (length : Z) (divisor : f32) : SM MessageBuffer f32 :=
  integer ← read_signed length;
  let max := quantum_max (length - 1) in
  mret (f32_mul (f32_div (f32_of_Z integer) max) divisor).

Definition write_signed_float (length : Z) (divisor value : f32)
    : MessageBuffer -> bool * MessageBuffer :=
  let max := quantum_max (length - 1) in
  let integer := f32_as_i32 (f32_mul (f32_div value divisor) max) in
  write_signed integer length.

Definition read_long (length : Z) : SM MessageBuffer Z := fun self =>
  if (length =? 0) || (length >? 64) then (None, self)
  else if length <=? 32 then read_bits_single length self
  else (low ← read_bits_single 32;
        high ← read_bits_single (length - 32);
        mret (Z.lor low (Z.shiftl high 32))) self.

Definition write_long (value length : Z) : MessageBuffer -> bool * MessageBuffer :=
  if length <=? 32 then write_bits_single (u32 value) length
  else write_bits_single (u32 value) 32
       &&& write_bits_single (u32 (Z.shiftr value 32)) (length - 32).

Definition require_length (self : MessageBuffer) (length : Z) : bool :=
  cur_bit self + length <? max_bit self.

Definition align (self : MessageBuffer) : MessageBuffer :=
  let r := cur_bit self mod 8 in
  if r =? 0 then self else advance self (8 - r).

Definition is_at_end (self : MessageBuffer) : bool := cur_bit self >=? max_bit self.

Definition data_length (self : MessageBuffer) : Z :=
  cur_bit self / 8 + (if cur_bit self mod 8 =? 0 then 0 else 1).

(** ** Executable checks against the source's unit tests *)

Definition wr (w : MessageBuffer -> bool * MessageBuffer) (b : MessageBuffer) :=
  snd (w b).

Example msb_first_layout :
  data (wr (write_bits_single 10 4 &&& write_bits_single 6 4) (new 1)) = [166].
Proof. reflexivity. Qed.

Example signed_asymmetry :
  let rt v := fst (read_signed 14 (set_current_bit (wr (write_signed v 14) (new 4)) 0)) in
  (rt <$> [-4096; -5; -1; 0; 1; 4095]) =
  [Some (-4096 + 1); Some (-4); Some 0; Some 0; Some 1; Some 4095].
Proof. reflexivity. Qed.

Example failed_read_still_advances :
  let '(r, b) := read_bits_single 6 (snd (read_bits_single 6 (from_bytes [255]))) in
  r = None /\ cur_bit b = 12.
Proof. split; reflexivity. Qed.

(** ** The bit-level view *)

(** Bit [i] of a byte vector, MSB first within each byte. *)
Definition bit_at (d : list Z) (i : Z) : bool := Z.testbit (byte_at d (i / 8)) (7 - i mod 8).

(** [n] bits from [cur]. *)
Definition get_bits (d : list Z) (cur n : Z) : list bool := bit_at d <$> seqZ cur n.

(** Write a bit string at [cur]. *)
Fixpoint put_bits (d : list Z) (cur : Z) (bs : list bool) : list Z :=
  match bs with
  | [] => d
  | b :: bs' => put_bits (set_bit d cur (Z.b2z b)) (cur + 1) bs'
  end.

(** The [n] low bits of [v], most significant first, and back. *)
Definition bits_of (n v : Z) : list bool := (fun i => Z.testbit v (n - 1 - i)) <$> seqZ 0 n.
Definition of_bits (bs : list bool) : Z := foldl (fun v b => 2 * v + Z.b2z b) 0 bs.

(** The bits of a byte string. *)
Definition bits_of_bytes (l : list Z) : list bool := l ≫= bits_of 8.

Abbreviation blen bs := (Z.of_nat (length (bs : list bool))).
Abbreviation dlen d := (8 * Z.of_nat (length (d : list Z))).

(** The type invariant of a buffer: its bytes are bytes and its bound lies
    within them. The fields are private, and every constructor and operation
    maintains it, so no operation indexes out of range. *)
Record wf (b : MessageBuffer) : Prop := {
  wf_bytes : bytes_ok (data b);
  wf_cur : 0 <= cur_bit b;
  wf_max : 0 <= max_bit b <= dlen (data b)
}.

(** A buffer over its whole byte vector: what [new] and [from_bytes] build. *)
Record wf_full (b : MessageBuffer) : Prop := {
  wf_full_wf : wf b;
  wf_full_max : max_bit b = dlen (data b)
}.

(** *** Set one bit, read one bit *)

Lemma b2z_land1 z : Z.land z 1 = Z.b2z (Z.testbit z 0).
Proof.
  change 1 with (Z.ones 1). rewrite Z.land_ones by lia. change (2 ^ 1) with 2.
  by rewrite Z.bit0_mod.
Qed.

Lemma bit_of_bit_at d i : bit_of d i = Z.b2z (bit_at d i).
Proof.
  unfold bit_of, bit_at. rewrite b2z_land1, Z.shiftr_spec by lia. by rewrite Z.add_0_l.
Qed.

Lemma length_set_bit d i b : length (set_bit d i b) = length d.
Proof. apply length_insert. Qed.

Lemma byte_at_ok d i : bytes_ok d -> is_byte (byte_at d i).
Proof.
  intros Hd. unfold byte_at. destruct (d !! Z.to_nat i) as [x|] eqn:E; simpl.
  - by eapply (Forall_lookup_1 _ d).
  - by apply is_u_0.
Qed.

Lemma set_bit_byte_ok x s b : is_byte x -> 0 <= s <= 7 ->
  is_byte (Z.lor (Z.land x (not_u8 (Z.shiftl 1 s))) (Z.shiftl (Z.b2z b) s)).
Proof.
  intros Hx Hs. apply is_u_lor; [lia|by apply is_u_land|].
  unfold is_u. rewrite Z.shiftl_mul_pow2 by lia.
  pose proof (Z.pow_le_mono_r 2 s 7). pose proof (pow2_pos s). destruct b; simpl Z.b2z; lia.
Qed.

Lemma set_bit_ok d i b : bytes_ok d -> bytes_ok (set_bit d i (Z.b2z b)).
Proof.
  intros Hd. unfold set_bit. apply Forall_insert; [done|].
  apply set_bit_byte_ok; [by apply byte_at_ok|zdm].
Qed.

Lemma testbit_set_bit x s b k : 0 <= s <= 7 -> 0 <= k <= 7 ->
  Z.testbit (Z.lor (Z.land x (not_u8 (Z.shiftl 1 s))) (Z.shiftl (Z.b2z b) s)) k
  = if decide (k = s) then b else Z.testbit x k.
Proof.
  intros Hs Hk. unfold not_u8.
  rewrite Z.lor_spec, Z.land_spec, Z.lxor_spec, !Z.shiftl_spec by lia.
  change 255 with (Z.ones 8). rewrite Z.ones_spec_low by lia.
  case_decide as Hd.
  - subst. rewrite Z.sub_diag. simpl. rewrite andb_false_r. by destruct b.
  - replace (Z.testbit 1 (k - s)) with false.
    + simpl. rewrite andb_true_r. replace (Z.testbit (Z.b2z b) (k - s)) with false.
      * by rewrite orb_false_r.
      * destruct (Z.ltb_spec k s); [by rewrite Z.testbit_neg_r by lia|].
        destruct b; [|by rewrite Z.testbit_0_l].
        simpl Z.b2z. rewrite (testbit_above 1); [done|split|..]; lia.
    + destruct (Z.ltb_spec k s); [by rewrite Z.testbit_neg_r by lia|].
      rewrite (testbit_above 1); [done|split|..]; lia.
Qed.

Lemma bit_at_set_bit d i b j : 0 <= i < dlen d -> 0 <= j ->
  bit_at (set_bit d i (Z.b2z b)) j = if decide (j = i) then b else bit_at d j.
Proof.
  intros Hi Hj. unfold bit_at, set_bit, byte_at.
  assert (Hi8 : (Z.to_nat (i / 8) < length d)%nat) by zdm.
  destruct (decide (j / 8 = i / 8)) as [He|Hne].
  - rewrite He, list_lookup_insert_eq by done. simpl.
    rewrite testbit_set_bit by zdm. destruct (decide (j = i)) as [->|Hji].
    + by rewrite decide_True.
    + rewrite decide_False by zdm. by rewrite <- He.
  - rewrite list_lookup_insert_ne by zdm.
    by rewrite decide_False by (intros ->; lia).
Qed.

(** *** Bit strings *)

Lemma length_put_bits bs d cur : length (put_bits d cur bs) = length d.
Proof. revert d cur; induction bs; intros; simpl; [done|]. by rewrite IHbs, length_set_bit. Qed.

Lemma put_bits_ok bs d cur : bytes_ok d -> bytes_ok (put_bits d cur bs).
Proof. revert d cur; induction bs; intros; simpl; auto using set_bit_ok. Qed.

Lemma bit_at_put_bits bs d cur j :
  0 <= cur -> cur + blen bs <= dlen d -> 0 <= j ->
  bit_at (put_bits d cur bs) j =
  if decide (cur <= j < cur + blen bs) then bs !!! Z.to_nat (j - cur) else bit_at d j.
Proof.
  revert d cur; induction bs as [|b bs IH]; intros d cur Hc Hl Hj; cbn [put_bits length] in *.
  { rewrite decide_False by lia. done. }
  rewrite IH by (rewrite ?length_set_bit; lia). rewrite bit_at_set_bit by lia.
  destruct (decide (cur <= j < cur + Z.of_nat (S (length bs)))).
  - destruct (decide (j = cur)) as [->|].
    + rewrite decide_False by lia. by rewrite Z.sub_diag.
    + rewrite decide_True by lia.
      replace (Z.to_nat (j - cur)) with (S (Z.to_nat (j - (cur + 1)))) by lia. done.
  - rewrite !decide_False by lia. done.
Qed.

Lemma length_get_bits d cur n : 0 <= n -> blen (get_bits d cur n) = n.
Proof. intros. unfold get_bits. rewrite length_fmap, length_seqZ. lia. Qed.

Lemma get_bits_app d cur n m : 0 <= n -> 0 <= m ->
  get_bits d cur (n + m) = get_bits d cur n ++ get_bits d (cur + n) m.
Proof. intros. unfold get_bits. by rewrite seqZ_app, fmap_app by lia. Qed.

Lemma get_bits_ext d d' cur n :
  (forall j, cur <= j < cur + n -> bit_at d j = bit_at d' j) ->
  get_bits d cur n = get_bits d' cur n.
Proof. intros H. unfold get_bits. apply list_fmap_ext. intros i j Hj. apply H.
  apply list_elem_of_lookup_2, elem_of_seqZ in Hj. lia. Qed.

Lemma list_bool_ext (l k : list bool) :
  length l = length k -> (forall i, (i < length l)%nat -> l !!! i = k !!! i) -> l = k.
Proof.
  intros Hl H. apply list_eq. intros i.
  destruct (decide (i < length l)%nat) as [Hi|Hi].
  - rewrite !list_lookup_lookup_total_lt by lia. f_equal. by apply H.
  - rewrite !lookup_ge_None_2 by lia. done.
Qed.

Lemma lookup_total_get_bits d cur n i : Z.of_nat i < n ->
  get_bits d cur n !!! i = bit_at d (cur + Z.of_nat i).
Proof.
  intros. unfold get_bits. rewrite list_lookup_total_alt, list_lookup_fmap.
  by rewrite lookup_seqZ_lt.
Qed.

(** Reading back what was written. *)
Lemma get_put_bits d cur bs : 0 <= cur -> cur + blen bs <= dlen d ->
  get_bits (put_bits d cur bs) cur (blen bs) = bs.
Proof.
  intros. apply list_bool_ext.
  - pose proof (length_get_bits (put_bits d cur bs) cur (blen bs)). lia.
  - intros i Hi. pose proof (length_get_bits (put_bits d cur bs) cur (blen bs)).
    rewrite lookup_total_get_bits, bit_at_put_bits, decide_True by lia. f_equal; lia.
Qed.

(** Bits outside the written range are untouched. *)
Lemma get_put_bits_ne d cur bs c n : 0 <= cur -> cur + blen bs <= dlen d -> 0 <= c ->
  c + n <= cur \/ cur + blen bs <= c ->
  get_bits (put_bits d cur bs) c n = get_bits d c n.
Proof. intros. apply get_bits_ext. intros. rewrite bit_at_put_bits, decide_False by lia. done. Qed.

Lemma put_bits_app d cur bs cs :
  put_bits d cur (bs ++ cs) = put_bits (put_bits d cur bs) (cur + blen bs) cs.
Proof.
  revert d cur; induction bs as [|b bs IH]; intros d cur; simpl; [by rewrite Z.add_0_r|].
  rewrite IH. f_equal. lia.
Qed.

(** Two byte vectors with the same bits are equal. *)
Lemma data_ext d d' : bytes_ok d -> bytes_ok d' -> length d = length d' ->
  (forall j, 0 <= j < dlen d -> bit_at d j = bit_at d' j) -> d = d'.
Proof.
  intros Hd Hd' Hl H. apply list_eq. intros i.
  destruct (decide (i < length d)%nat) as [Hi|Hi].
  2: { by rewrite !lookup_ge_None_2 by lia. }
  destruct (lookup_lt_is_Some_2 d i) as [x Hx]; [done|].
  destruct (lookup_lt_is_Some_2 d' i) as [y Hy]; [lia|].
  rewrite Hx, Hy. f_equal.
  apply Z.bits_inj'. intros k Hk. destruct (Z.ltb_spec k 8).
  - specialize (H (8 * Z.of_nat i + (7 - k))). unfold bit_at, byte_at in H.
    replace ((8 * Z.of_nat i + (7 - k)) / 8) with (Z.of_nat i) in H by zdm.
    replace (7 - (8 * Z.of_nat i + (7 - k)) mod 8) with k in H by zdm.
    rewrite Nat2Z.id, Hx, Hy in H. apply H. lia.
  - pose proof (Forall_lookup_1 _ _ _ _ Hd Hx). pose proof (Forall_lookup_1 _ _ _ _ Hd' Hy).
    by rewrite (testbit_above 8 x), (testbit_above 8 y) by (done || lia).
Qed.

(** *** Numbers as bit strings *)

Lemma of_bits_snoc bs b : of_bits (bs ++ [b]) = 2 * of_bits bs + Z.b2z b.
Proof. unfold of_bits. by rewrite foldl_app. Qed.

Lemma of_bits_bound bs : 0 <= of_bits bs < 2 ^ blen bs.
Proof.
  induction bs as [|b bs IH] using rev_ind; [simpl; unfold of_bits; simpl; lia|].
  rewrite of_bits_snoc, length_app. simpl length.
  replace (Z.of_nat (length bs + 1)) with (Z.succ (blen bs)) by lia.
  rewrite Z.pow_succ_r by lia. destruct b; simpl Z.b2z; lia.
Qed.

Lemma bits_of_snoc n v : 0 <= n -> bits_of (n + 1) v = bits_of n (Z.shiftr v 1) ++ [Z.testbit v 0].
Proof.
  intros. unfold bits_of. rewrite seqZ_snoc, fmap_app by lia. f_equal.
  - apply list_fmap_ext. intros i j Hj%list_elem_of_lookup_2%elem_of_seqZ.
    rewrite Z.shiftr_spec by lia. f_equal; lia.
  - cbn [fmap list_fmap]. do 2 f_equal. lia.
Qed.

Lemma of_bits_bits_of n v : 0 <= n -> of_bits (bits_of n v) = v mod 2 ^ n.
Proof.
  intros Hn. revert v. pattern n. apply natlike_ind; [..|done].
  { intros v. rewrite Z.mod_1_r. reflexivity. }
  clear n Hn. intros n Hn IH v. unfold Z.succ. rewrite bits_of_snoc, of_bits_snoc, IH by lia.
  rewrite Z.shiftr_div_pow2, Z.bit0_mod by lia. change (2 ^ 1) with 2.
  replace (2 ^ (n + 1)) with (2 * 2 ^ n) by (rewrite Z.pow_add_r; lia).
  rewrite (Z.rem_mul_r v 2 (2 ^ n)) by (pose proof (pow2_pos n); lia). lia.
Qed.

Lemma of_bits_bits_of_id n v : 0 <= n -> is_u n v -> of_bits (bits_of n v) = v.
Proof. intros. rewrite of_bits_bits_of by done. by apply u_id. Qed.

Lemma length_bits_of n v : 0 <= n -> blen (bits_of n v) = n.
Proof. intros. unfold bits_of. rewrite length_fmap, length_seqZ. lia. Qed.

Lemma bits_of_mod n v : bits_of n (v mod 2 ^ n) = bits_of n v.
Proof.
  unfold bits_of. apply list_fmap_ext. intros i j Hj%list_elem_of_lookup_2%elem_of_seqZ.
  apply Z.mod_pow2_bits_low. lia.
Qed.

(** ** Functional specification of the operations *)

Lemma read_loop_spec d cur n : 0 <= n <= 32 ->
  foldl (fun value i => Z.lor (u32 (Z.shiftl value 1)) (bit_of d (cur + i))) 0 (seqZ 0 n)
  = of_bits (get_bits d cur n).
Proof.
  intros Hn. assert (H32 : n <= 32) by lia. revert H32. pattern n.
  apply natlike_ind; [done|..|lia]. clear n Hn. intros n Hn IH Hn32. unfold Z.succ in *.
  rewrite seqZ_snoc, foldl_app, IH by lia. unfold get_bits.
  rewrite seqZ_snoc, fmap_app by lia. fold (get_bits d cur n). cbn [foldl fmap list_fmap].
  rewrite of_bits_snoc.
  pose proof (of_bits_bound (get_bits d cur n)) as Hb. rewrite length_get_bits in Hb by lia.
  assert (2 ^ n <= 2 ^ 31) by (apply Z.pow_le_mono_r; lia).
  unfold u32. rewrite Z.shiftl_mul_pow2, Z.mod_small by lia.
  rewrite bit_of_bit_at, Z.add_0_l. apply lor_double_bit.
Qed.

Lemma read_bits_single_spec n b : 0 <= effective_len b n <= 32 ->
  read_bits_single n b =
  if cur_bit b + effective_len b n >? max_bit b then (None, advance b (effective_len b n))
  else (Some (of_bits (get_bits (data b) (cur_bit b) (effective_len b n))),
        advance b (effective_len b n)).
Proof.
  intros Hn. unfold read_bits_single. destruct (_ >? _); [done|].
  by rewrite read_loop_spec.
Qed.

(** A per-bit loop that sets bit [cur + i] to [f i] is [put_bits]. *)
Lemma put_loop_spec (f : Z -> bool) d cur n o :
  foldl (fun d i => set_bit d (cur + i) (Z.b2z (f i))) d (seqZ o n)
  = put_bits d (cur + o) (f <$> seqZ o n).
Proof.
  destruct (Z.leb_spec n 0) as [|Hn]; [by rewrite seqZ_nil|].
  assert (Hn0 : 0 <= n) by lia. clear Hn. revert d o. pattern n.
  apply natlike_ind; [..|done]; clear n Hn0.
  { intros. by rewrite seqZ_nil. }
  intros n Hn IH d o. rewrite seqZ_cons by lia. simpl. rewrite Z.pred_succ, IH.
  f_equal. lia.
Qed.

Lemma write_bits_single_spec v n b :
  write_bits_single v n b =
  if cur_bit b + effective_len b n >? max_bit b then (false, b)
  else (true, advance (with_data b (put_bits (data b) (cur_bit b)
                        (bits_of (effective_len b n) v))) (effective_len b n)).
Proof.
  unfold write_bits_single. destruct (_ >? _); [done|]. repeat f_equal.
  transitivity (foldl (fun d i => set_bit d (cur_bit b + i)
     (Z.b2z (Z.testbit v (effective_len b n - 1 - i)))) (data b) (seqZ 0 (effective_len b n))).
  - apply foldl_ext. intros d i Hi%elem_of_seqZ. f_equal.
    rewrite b2z_land1, Z.shiftr_spec by lia. unfold u8. rewrite Z.add_0_l.
    by destruct (Z.testbit _ _).
  - by rewrite (put_loop_spec (fun i => Z.testbit v (effective_len b n - 1 - i))), Z.add_0_r.
Qed.

(** *** Blob copies *)

Lemma byte_at_app_l d e j : 0 <= j < Z.of_nat (length d) -> byte_at (d ++ e) j = byte_at d j.
Proof. intros. unfold byte_at. by rewrite lookup_app_l by lia. Qed.
Lemma byte_at_app_r d e j : Z.of_nat (length d) <= j ->
  byte_at (d ++ e) j = byte_at e (j - Z.of_nat (length d)).
Proof. intros. unfold byte_at. rewrite lookup_app_r by lia. do 2 f_equal. lia. Qed.

Lemma byte_at_copy_from_slice dest src db sb n j :
  0 <= db -> 0 <= sb -> 0 <= n -> db + n <= Z.of_nat (length dest) ->
  sb + n <= Z.of_nat (length src) -> 0 <= j ->
  byte_at (copy_from_slice dest src db sb n) j =
  if decide (db <= j < db + n) then byte_at src (sb + (j - db)) else byte_at dest j.
Proof.
  intros. unfold copy_from_slice, byte_at.
  assert (length (take (Z.to_nat db) dest) = Z.to_nat db) as Hl1 by (rewrite length_take; lia).
  assert (length (take (Z.to_nat n) (drop (Z.to_nat sb) src)) = Z.to_nat n) as Hl2
    by (rewrite length_take, length_drop; lia).
  case_decide; [|destruct (Z.ltb_spec j db)].
  - rewrite lookup_app_r, lookup_app_l by lia. rewrite lookup_take_lt, lookup_drop by lia.
    do 2 f_equal. lia.
  - by rewrite lookup_app_l, lookup_take_lt by lia.
  - rewrite !lookup_app_r, lookup_drop by lia. do 2 f_equal. lia.
Qed.

Lemma copy_from_slice_ok dest src db sb n :
  bytes_ok dest -> bytes_ok src -> bytes_ok (copy_from_slice dest src db sb n).
Proof.
  intros. unfold copy_from_slice. apply Forall_app_2; [by apply Forall_take|].
  apply Forall_app_2; [by apply Forall_take, Forall_drop|by apply Forall_drop].
Qed.

(** The byte-aligned fast path and the per-bit loop of [copy_bits] agree: both
    transfer the same bit string. *)
Lemma copy_bits_spec dest src n db sb :
  bytes_ok dest -> bytes_ok src -> 0 <= db -> 0 <= sb -> 0 <= n ->
  db + n <= dlen dest -> sb + n <= dlen src ->
  copy_bits dest src n db sb = put_bits dest db (get_bits src sb n).
Proof.
  intros Hd Hs Hdb Hsb Hn Hdl Hsl. unfold copy_bits. destruct (_ && _) eqn:E.
  - apply andb_prop in E as [[E1 E2]%andb_prop E3].
    apply Z.eqb_eq in E1, E2, E3.
    assert (length (copy_from_slice dest src (db / 8) (sb / 8) (n / 8)) = length dest) as Hlen.
    { unfold copy_from_slice. rewrite !length_app, !length_take, !length_drop. zdm. }
    apply data_ext; [by apply copy_from_slice_ok|by apply put_bits_ok|by rewrite length_put_bits|].
    intros j Hj. rewrite bit_at_put_bits, length_get_bits by (rewrite ?length_get_bits; lia).
    unfold bit_at at 1. rewrite byte_at_copy_from_slice by zdm.
    destruct (decide (db <= j < db + n)).
    + rewrite decide_True by zdm. rewrite lookup_total_get_bits by lia. unfold bit_at.
      f_equal; [f_equal|]; zdm.
    + rewrite decide_False by zdm. done.
  - transitivity (put_bits dest (db + 0) ((fun i => bit_at src (sb + i)) <$> seqZ 0 n)).
    + rewrite <- put_loop_spec. apply foldl_ext. intros. by rewrite bit_of_bit_at.
    + rewrite Z.add_0_r. f_equal. unfold get_bits.
      assert (seqZ sb n = Z.add sb <$> seqZ 0 n) as -> by by rewrite fmap_add_seqZ, Z.add_0_r.
      by rewrite <- list_fmap_compose.
Qed.

Lemma get_bits_byte x l : bytes_ok (x :: l) -> get_bits (x :: l) 0 8 = bits_of 8 x.
Proof.
  intros _. apply list_fmap_ext. intros i j Hj%list_elem_of_lookup_2%elem_of_seqZ.
  unfold bit_at, byte_at. replace (Z.to_nat (j / 8)) with O by zdm. simpl. f_equal. zdm.
Qed.

Lemma get_bits_tail x l n : 0 <= n -> get_bits (x :: l) 8 n = get_bits l 0 n.
Proof.
  intros. unfold get_bits. change 8 with (8 + 0) at 1.
  rewrite <- (fmap_add_seqZ 8 0), <- list_fmap_compose.
  apply list_fmap_ext. intros i j Hj%list_elem_of_lookup_2%elem_of_seqZ. simpl.
  unfold bit_at, byte_at. replace (Z.to_nat ((8 + j) / 8)) with (S (Z.to_nat (j / 8))) by zdm.
  simpl. f_equal. zdm.
Qed.

Lemma length_bits_of_bytes l : blen (bits_of_bytes l) = dlen l.
Proof.
  induction l as [|x l IH]; [done|]. unfold bits_of_bytes in *. cbn [mbind list_bind].
  rewrite length_app. pose proof (length_bits_of 8 x). cbn [length]. lia.
Qed.

Lemma get_bits_of_bytes l : bytes_ok l -> get_bits l 0 (dlen l) = bits_of_bytes l.
Proof.
  induction l as [|x l IH]; intros Hl; [done|]. inversion_clear Hl as [|? ? Hx Hl'].
  replace (dlen (x :: l)) with (8 + dlen l) by (cbn [length]; lia).
  rewrite get_bits_app by lia. rewrite get_bits_byte by (by constructor).
  change (0 + 8) with 8. rewrite get_bits_tail by lia. by rewrite IH.
Qed.

(** Filling a byte vector with the bits of another of the same length. *)
Lemma put_bits_of_bytes d l : bytes_ok d -> bytes_ok l -> length d = length l ->
  put_bits d 0 (bits_of_bytes l) = l.
Proof.
  intros Hd Hl Hlen. pose proof (length_bits_of_bytes l).
  apply data_ext; [by apply put_bits_ok|done|by rewrite length_put_bits|].
  rewrite length_put_bits. intros j Hj. rewrite bit_at_put_bits, decide_True by lia.
  rewrite <- get_bits_of_bytes by done. rewrite lookup_total_get_bits by lia. f_equal. lia.
Qed.

Lemma zeros_ok n : bytes_ok (replicate n 0).
Proof. apply Forall_replicate. by apply is_u_0. Qed.
#[export] Hint Resolve zeros_ok put_bits_ok : core.

(** ** Specification judgements for codecs

    A codec is specified by the bit string it puts on the wire.  [writes hack w
    bs]: on any buffer in that length-hack mode, [w] appends exactly [bs] when
    there is room for it, and reports failure otherwise.  [reads hack m bs a]:
    on any buffer whose next bits are [bs], [m] consumes exactly them and
    returns [a].  Both compose along the code's own sequencing. *)

Definition append (b : MessageBuffer) (bs : list bool) : MessageBuffer :=
  advance (with_data b (put_bits (data b) (cur_bit b) bs)) (blen bs).

Definition writes (hack : bool) (w : MessageBuffer -> bool * MessageBuffer) (bs : list bool) : Prop :=
  forall b, wf_full b -> length_hack b = hack -> cur_bit b <= max_bit b ->
    (cur_bit b + blen bs <= max_bit b -> w b = (true, append b bs)) /\
    (max_bit b < cur_bit b + blen bs -> fst (w b) = false).

(** The next bits of [b] are [bs]. *)
Definition upcoming (b : MessageBuffer) (bs : list bool) : Prop :=
  cur_bit b + blen bs <= max_bit b /\ get_bits (data b) (cur_bit b) (blen bs) = bs.

Definition reads {A} (hack : bool) (m : SM MessageBuffer A) (bs : list bool) (a : A) : Prop :=
  forall b, wf b -> length_hack b = hack -> upcoming b bs ->
    m b = (Some a, advance b (blen bs)).

(** *** Buffers under the judgements *)

Lemma wf_advance b n : 0 <= n -> wf b -> wf (advance b n).
Proof. intros Hn []. split; simpl; [done|lia|done]. Qed.

Lemma wf_set_current b n : 0 <= n -> wf b -> wf (set_current_bit b n).
Proof. intros Hn []. by split. Qed.

Lemma wf_full_append b bs : wf_full b -> cur_bit b + blen bs <= max_bit b -> wf_full (append b bs).
Proof.
  intros [[? ? ?] ?] ?. split; [split|]; simpl; rewrite ?length_put_bits; auto; lia.
Qed.

Lemma wf_full_new n : 0 <= n -> wf_full (new n).
Proof.
  intros. split; [split|]; simpl; rewrite ?length_replicate; auto; lia.
Qed.

Lemma wf_full_from_bytes d : bytes_ok d -> wf_full (from_bytes d).
Proof. intros. split; [split|]; simpl; auto; lia. Qed.

Lemma wf_from_bits d n : bytes_ok d -> 0 <= n -> wf (from_bits d n).
Proof. intros. split; simpl; auto; lia. Qed.

Lemma append_append b bs cs : append (append b bs) cs = append b (bs ++ cs).
Proof.
  unfold append, advance, set_current_bit, with_data. simpl.
  rewrite put_bits_app, length_app. f_equal. lia.
Qed.

Lemma append_nil b : append b [] = b.
Proof. destruct b. unfold append, advance, set_current_bit, with_data. simpl. f_equal. lia. Qed.

Lemma advance_advance b n m : advance (advance b n) m = advance b (n + m).
Proof. unfold advance, set_current_bit; simpl. f_equal. lia. Qed.

Lemma advance_0 b : advance b 0 = b.
Proof. destruct b. unfold advance, set_current_bit; simpl. f_equal. lia. Qed.

Lemma upcoming_app b bs cs : upcoming b (bs ++ cs) <-> upcoming b bs /\ upcoming (advance b (blen bs)) cs.
Proof.
  unfold upcoming. simpl. rewrite length_app, Nat2Z.inj_add, get_bits_app by lia. split.
  - intros [? [Hbs Hcs]%app_inj_1]; [split; split; auto; lia|].
    pose proof (length_get_bits (data b) (cur_bit b) (blen bs)). lia.
  - intros [[? ->] [? ->]]. split; [lia|done].
Qed.

Lemma upcoming_nil b : cur_bit b <= max_bit b -> upcoming b [].
Proof. split; [simpl; lia|done]. Qed.

(** What a writer left in a buffer is upcoming for a reader placed before it. *)
Lemma upcoming_append b bs : wf_full b -> cur_bit b + blen bs <= max_bit b ->
  upcoming (set_current_bit (append b bs) (cur_bit b)) bs.
Proof. intros [[] ?] ?. split; simpl; [lia|]. apply get_put_bits; lia. Qed.

(** *** Composition *)


Lemma writes_and hack w1 w2 bs1 bs2 :
  writes hack w1 bs1 -> writes hack w2 bs2 -> writes hack (w1 &&& w2) (bs1 ++ bs2).
Proof.
  intros H1 H2 b Hb Hh Hm. destruct (H1 b Hb Hh Hm) as [H1t H1f]. unfold and_then.
  rewrite length_app. split; intros Hr.
  - rewrite H1t by lia. destruct (H2 (append b bs1)) as [H2t _].
    + apply wf_full_append; [done|lia].
    + done.
    + simpl; lia.
    + rewrite H2t by (simpl; lia). by rewrite append_append.
  - destruct (Z.ltb_spec (max_bit b) (cur_bit b + blen bs1)).
    + specialize (H1f ltac:(lia)). destruct (w1 b) as [[] ?]; [done|done].
    + rewrite H1t by lia. apply H2; [by apply wf_full_append|done|simpl; lia|simpl; lia].
Qed.

Lemma reads_ret {A} hack (a : A) : reads hack (mret a) [] a.
Proof. intros b _ _ _. simpl. by rewrite advance_0. Qed.

Lemma reads_bind {A B} hack (m : SM MessageBuffer A) (k : A -> SM MessageBuffer B) bs1 bs2 a c :
  reads hack m bs1 a -> reads hack (k a) bs2 c -> reads hack (m ≫= k) (bs1 ++ bs2) c.
Proof.
  intros H1 H2 b Hb Hh [Hu1 Hu2]%upcoming_app.
  rewrite (bind_some _ _ _ a _ (H1 b Hb Hh Hu1)), H2; [|by apply wf_advance; [lia|]|done|done].
  by rewrite advance_advance, length_app, Nat2Z.inj_add.
Qed.

(** The last read of a record needs no trailing empty string. *)
Lemma reads_bind_ret {A B} hack (m : SM MessageBuffer A) (k : A -> B) bs a :
  reads hack m bs a -> reads hack (m ≫= fun x => mret (k x)) bs (k a).
Proof.
  intros H. rewrite <- (app_nil_r bs). eapply reads_bind; [done|]. apply reads_ret.
Qed.

(** *** The primitive fields *)

Definition field_bits (hack : bool) (n v : Z) : list bool := bits_of (effective_len_of hack n) v.

Lemma length_field_bits hack n v : 0 <= n ->
  blen (field_bits hack n v) = effective_len_of hack n.
Proof.
  intros. apply length_bits_of. unfold effective_len_of. destruct (_ && _); lia.
Qed.

Lemma writes_single hack v n : 0 <= n -> writes hack (write_bits_single v n) (field_bits hack n v).
Proof.
  intros Hn b Hb Hh _. rewrite length_field_bits by done. rewrite write_bits_single_spec.
  unfold effective_len. rewrite Hh. split; intros.
  - destruct (Z.gtb_spec (cur_bit b + effective_len_of hack n) (max_bit b)); [lia|].
    unfold append. rewrite length_field_bits by done. done.
  - destruct (Z.gtb_spec (cur_bit b + effective_len_of hack n) (max_bit b)); [done|lia].
Qed.

Lemma reads_single hack v n : 0 <= n <= 32 -> is_u (effective_len_of hack n) v ->
  reads hack (read_bits_single n) (field_bits hack n v) v.
Proof.
  intros Hn Hv b Hb Hh [Hu1 Hu2].
  assert (0 <= effective_len_of hack n <= 32) as He
    by (unfold effective_len_of; destruct (_ && _); lia).
  rewrite length_field_bits in * by lia.
  rewrite read_bits_single_spec; unfold effective_len; rewrite Hh; [|done].
  destruct (Z.gtb_spec (cur_bit b + effective_len_of hack n) (max_bit b)); [lia|].
  rewrite Hu2. unfold field_bits. by rewrite of_bits_bits_of_id by (done || lia).
Qed.

Lemma writes_bit hack v : writes hack (write_bit v) [v].
Proof.
  intros b [[] ] Hh _. unfold write_bit. simpl.
  destruct (Z.geb_spec (cur_bit b / 8) (Z.of_nat (length (data b)))); split; intros; try done; zdm.
Qed.

Lemma reads_bit hack v : reads hack (lift read_bit) [v] (Z.b2z v).
Proof.
  intros b [] Hh [Hu1 Hu2]. unfold lift, read_bit. simpl in *.
  destruct (Z.geb_spec (cur_bit b / 8) (Z.of_nat (length (data b)))); [zdm|].
  rewrite bit_of_bit_at. unfold get_bits in Hu2. rewrite seqZ_cons in Hu2 by lia.
  by injection Hu2 as <-.
Qed.

Lemma writes_blob hack src n : bytes_ok src -> 0 <= n <= dlen src ->
  writes hack (write_bits src n) (get_bits src 0 n).
Proof.
  intros Hs Hn b [[] ] Hh _. unfold write_bits. rewrite length_get_bits by lia. split; intros.
  - destruct (Z.gtb_spec (cur_bit b + n) (max_bit b)); [lia|].
    rewrite copy_bits_spec by (done || lia). unfold append.
    rewrite length_get_bits by lia. done.
  - destruct (Z.gtb_spec (cur_bit b + n) (max_bit b)); [done|lia].
Qed.

(** [read_bits] into a zeroed vector, as an operation of the monad. *)
Lemma read_bits_spec dest n b bs : wf b -> bytes_ok dest -> blen bs = n -> n <= dlen dest ->
  upcoming b bs ->
  read_bits dest n b = ((true, put_bits dest 0 bs), advance b n).
Proof.
  intros [] Hd Hn Hdn [Hu1 Hu2]. unfold read_bits. rewrite Hn in *.
  destruct (Z.eqb_spec n 0) as [->|].
  - assert (bs = []) as -> by (destruct bs; [done|simpl in *; lia]). simpl. by rewrite advance_0.
  - destruct (Z.gtb_spec (cur_bit b + n) (max_bit b)); [lia|].
    rewrite copy_bits_spec by (done || lia). by rewrite Hu2.
Qed.

(** ** Reading untrusted input

    [safe hack m P]: on any well-formed buffer in mode [hack], whatever its contents, [m] leaves the
    bytes and the mode alone, never moves the cursor backwards, and what it
    returns satisfies [P]. *)

Record frame (b b' : MessageBuffer) : Prop := {
  frame_wf : wf b';
  frame_cur : cur_bit b <= cur_bit b';
  frame_data : data b' = data b;
  frame_max : max_bit b' = max_bit b;
  frame_hack : length_hack b' = length_hack b
}.

Definition safe (hack : bool) {A} (m : SM MessageBuffer A) (P : A -> Prop) : Prop :=
  forall b, wf b -> length_hack b = hack -> frame b (snd (m b)) /\ (forall a, fst (m b) = Some a -> P a).

Lemma frame_advance b n : wf b -> 0 <= n -> frame b (advance b n).
Proof. intros. split; [by apply wf_advance|simpl; lia|done..]. Qed.

Lemma frame_refl b : wf b -> frame b b.
Proof. intros. split; [done|lia|done..]. Qed.

Lemma frame_trans b1 b2 b3 : frame b1 b2 -> frame b2 b3 -> frame b1 b3.
Proof. intros [] []. split; [done|lia|congruence..]. Qed.

Lemma safe_ret hack {A} (a : A) (P : A -> Prop) : P a -> safe hack (mret a) P.
Proof. intros Ha b Hb _. split; [by apply frame_refl|]. by intros ? [= <-]. Qed.

Lemma safe_fail hack {A} (P : A -> Prop) : safe hack fail_with_none P.
Proof. intros b Hb _. split; [by apply frame_refl|done]. Qed.

Lemma safe_bind hack {A B} (m : SM MessageBuffer A) (k : A -> SM MessageBuffer B) P Q :
  safe hack m P -> (forall a, P a -> safe hack (k a) Q) -> safe hack (m ≫= k) Q.
Proof.
  intros Hm Hk b Hb Hh. destruct (Hm b Hb Hh) as [Hf Ha]. unfold mbind, SM_bind.
  destruct (m b) as [[a|] b']; simpl in *; [|done].
  destruct (Hk a (Ha a eq_refl) b' (frame_wf _ _ Hf)) as [Hf' Ha']; [by rewrite (frame_hack _ _ Hf)|].
  split; [by eapply frame_trans|done].
Qed.

Lemma safe_weaken hack {A} (m : SM MessageBuffer A) (P Q : A -> Prop) :
  safe hack m P -> (forall a, P a -> Q a) -> safe hack m Q.
Proof. intros Hm HPQ b Hb Hh. destruct (Hm b Hb Hh). auto. Qed.

Lemma safe_if hack {A} (c : bool) (m m' : SM MessageBuffer A) P :
  safe hack m P -> safe hack m' P -> safe hack (if c then m else m') P.
Proof. by destruct c. Qed.

Lemma effective_len_bounds hack n : 0 <= n <= 32 -> n <= effective_len_of hack n <= 32.
Proof. unfold effective_len_of. destruct (Z.eqb_spec n 13), hack; simpl; lia. Qed.

(** A field of [n] bits is below [2^n], or [2^16] for the widened 13-bit field. *)
Lemma safe_single hack n : 0 <= n <= 32 ->
  safe hack (read_bits_single n) (is_u (effective_len_of hack n)).
Proof.
  intros Hn b Hb Hh. pose proof (effective_len_bounds (length_hack b) n Hn) as He.
  fold (effective_len b n) in He.
  rewrite read_bits_single_spec by lia. destruct (_ >? _); simpl.
  { split; [apply frame_advance; [done|lia]|done]. }
  split; [apply frame_advance; [done|lia]|]. intros a [= <-]. rewrite <- Hh. fold (effective_len b n).
  pose proof (of_bits_bound (get_bits (data b) (cur_bit b) (effective_len b n))) as H.
  rewrite length_get_bits in H by lia. eapply is_u_le; [|exact H]. lia.
Qed.

Lemma safe_read_bit hack : safe hack (lift read_bit) (fun v => v = 0 \/ v = 1).
Proof.
  intros b Hb _. unfold lift, read_bit. destruct (_ >=? _); simpl.
  all: split; [apply frame_advance; [done|lia]|intros ? [= <-]].
  - by left.
  - rewrite bit_of_bit_at. destruct (bit_at _ _); [by right|by left].
Qed.

Lemma copy_bits_ok dest src n db sb : bytes_ok dest -> bytes_ok src -> 0 <= db ->
  0 <= sb -> 0 <= n -> db + n <= dlen dest -> sb + n <= dlen src ->
  bytes_ok (copy_bits dest src n db sb) /\ length (copy_bits dest src n db sb) = length dest.
Proof.
  intros. rewrite copy_bits_spec by done. rewrite length_put_bits. auto.
Qed.

Lemma safe_read_bits hack dest n : bytes_ok dest -> 0 <= n <= dlen dest ->
  safe hack (fun b => let '((ok, d'), b') := read_bits dest n b in
                 if ok then (Some d', b') else (None, b'))
    (fun d' => bytes_ok d' /\ length d' = length dest).
Proof.
  intros Hd Hn b Hb _. destruct Hb as [? ? ?] eqn:E. unfold read_bits.
  destruct (n =? 0); simpl; [split; [by apply frame_refl|by intros ? [= <-]]|].
  destruct (Z.gtb_spec (cur_bit b + n) (max_bit b)); simpl; [split; [by apply frame_refl|done]|].
  split; [apply frame_advance; [done|lia]|]. intros ? [= <-]. apply copy_bits_ok; auto; lia.
Qed.

(** *** Truncating to the written bytes *)

(** [buf.buffer()[..buf.data_length()].to_vec()]. *)
Definition written (b : MessageBuffer) : list Z := take (Z.to_nat (data_length b)) (data b).

Lemma data_length_ceil b : data_length b = (cur_bit b + 7) / 8.
Proof. unfold data_length. destruct (Z.eqb_spec (cur_bit b mod 8) 0); zdm. Qed.

Lemma byte_at_take d k j : 0 <= j < k -> byte_at (take (Z.to_nat k) d) j = byte_at d j.
Proof. intros. unfold byte_at. rewrite lookup_take_lt by lia. done. Qed.

Lemma bit_at_take d k i : 0 <= i < 8 * k -> bit_at (take (Z.to_nat k) d) i = bit_at d i.
Proof. intros. unfold bit_at. rewrite byte_at_take by zdm. done. Qed.

(** The bytes written from the start of a buffer carry its bits, padded. *)
Lemma written_append b bs : wf_full b -> cur_bit b = 0 -> blen bs <= max_bit b ->
  let d := written (append b bs) in
  bytes_ok d /\ Z.of_nat (length d) = (blen bs + 7) / 8 /\ upcoming (from_bytes d) bs.
Proof.
  intros [[Hd _ _] Hm] Hc Hl d. subst d. unfold written. rewrite data_length_ceil.
  cbn [append advance set_current_bit with_data cur_bit data]. rewrite Hc, Z.add_0_l.
  assert (Hlen : Z.of_nat (length (take (Z.to_nat ((blen bs + 7) / 8)) (put_bits (data b) 0 bs)))
    = (blen bs + 7) / 8) by (rewrite length_take, length_put_bits; zdm).
  split; [by apply Forall_take, put_bits_ok|]. split; [exact Hlen|].
  split; cbn [from_bytes cur_bit max_bit data]; [zdm|].
  etransitivity; [|apply (get_put_bits (data b) 0 bs); lia]. apply get_bits_ext. intros i Hi. apply bit_at_take. zdm.
Qed.

(** ** What the buffer guarantees *)

Lemma set_current_append b bs : advance (set_current_bit (append b bs) (cur_bit b)) (blen bs)
  = append b bs.
Proof. done. Qed.

Lemma read_back {A} hack (m : SM MessageBuffer A) bs a b :
  wf_full b -> length_hack b = hack -> cur_bit b + blen bs <= max_bit b -> reads hack m bs a ->
  m (set_current_bit (append b bs) (cur_bit b)) = (Some a, append b bs).
Proof.
  intros Hb Hh Hr Hm. rewrite (Hm (set_current_bit (append b bs) (cur_bit b))).
  - by rewrite set_current_append.
  - destruct (wf_full_append b bs Hb Hr) as [[] ?]. destruct Hb as [[] ?]. by split.
  - done.
  - by apply upcoming_append.
Qed.

(** Reading back a field written from an arbitrary [u32]: it is truncated to
    the field's width. *)
Lemma reads_single_mod hack v n : 0 <= n <= 32 ->
  reads hack (read_bits_single n) (field_bits hack n v) (v mod 2 ^ effective_len_of hack n).
Proof.
  intros Hn. pose proof (effective_len_bounds hack n Hn).
  unfold field_bits. rewrite <- bits_of_mod. apply reads_single; [done|].
  apply is_u_mod. lia.
Qed.

(** a field written with [write_bits_single] into a buffer that has room is
    read back by [read_bits_single] from the same position, truncated to the
    field's width (16 bits for a 13-bit field under the length hack); the
    cursor lands where the writer left it and every other bit is untouched. *)
Theorem write_read_single b v n :
  wf_full b -> 0 <= n <= 32 -> cur_bit b + effective_len b n <= max_bit b ->
  exists b', write_bits_single v n b = (true, b') /\ wf_full b' /\
    cur_bit b' = cur_bit b + effective_len b n /\
    read_bits_single n (set_current_bit b' (cur_bit b)) = (Some (v mod 2 ^ effective_len b n), b') /\
    forall i, 0 <= i -> i < cur_bit b \/ cur_bit b' <= i ->
      bit_at (data b') i = bit_at (data b) i.
Proof.
  intros Hb Hn Hr. pose proof (effective_len_bounds (length_hack b) n Hn) as He.
  fold (effective_len b n) in He. pose proof Hb as [[Hd Hc Hm] Hfull].
  assert (Hl : blen (field_bits (length_hack b) n v) = effective_len b n)
    by (apply length_field_bits; lia).
  set (bs := field_bits (length_hack b) n v) in *.
  assert (Hroom : cur_bit b + blen bs <= max_bit b) by lia.
  exists (append b bs). split; [|split; [|split; [|split]]].
  - apply (writes_single (length_hack b)); [lia|done|done|lia|done].
  - by apply wf_full_append.
  - simpl. lia.
  - apply (read_back (length_hack b)); [done|done|done|]. by apply reads_single_mod.
  - intros i Hi Hout. cbn [append advance set_current_bit with_data cur_bit data] in *.
    rewrite bit_at_put_bits by lia. rewrite decide_False by lia. done.
Qed.

Lemma write_read_single_witness : exists b',
  write_bits_single 77 6 (advance (new 2) 3) = (true, b') /\ wf_full b' /\ cur_bit b' = 9 /\
  read_bits_single 6 (set_current_bit b' 3) = (Some 13, b') /\
  forall i, 0 <= i -> i < 3 \/ cur_bit b' <= i -> bit_at (data b') i = bit_at (data (new 2)) i.
Proof.
  apply (write_read_single (advance (new 2) 3) 77 6); [|lia|vm_compute; discriminate].
  split; [apply wf_advance; [lia|apply wf_full_new; lia]|reflexivity].
Defined.

Lemma reads_signed hack v n : 1 <= n <= 32 -> - 2 ^ (n - 1) <= v < 2 ^ (n - 1) ->
  reads hack (read_signed n)
    (field_bits hack 1 (if v <? 0 then 1 else 0)
     ++ field_bits hack (n - 1) (u32 (Z.lxor v (if v <? 0 then -1 else 0))))
    (if v <? 0 then v + 1 else v).
Proof.
  intros Hn Hv. assert (2 ^ (n - 1) <= 2 ^ 31) by (apply Z.pow_le_mono_r; lia).
  pose proof (effective_len_bounds hack (n - 1) ltac:(lia)).
  assert (2 ^ (n - 1) <= 2 ^ effective_len_of hack (n - 1)) by (apply Z.pow_le_mono_r; lia).
  set (d := if v <? 0 then -1 - v else v).
  assert (Hd : Z.lxor v (if v <? 0 then -1 else 0) = d).
  { subst d. destruct (v <? 0); [|apply Z.lxor_0_r]. rewrite Z.lxor_m1_r. unfold Z.lnot. lia. }
  assert (0 <= d < 2 ^ (n - 1)) by (subst d; destruct (Z.ltb_spec v 0); lia).
  rewrite Hd. unfold u32. rewrite Z.mod_small by lia.
  intros b Hb Hh Hu. unfold read_signed.
  destruct (Z.eqb_spec n 0); [lia|]. destruct (Z.gtb_spec n 32); [lia|]. cbn [orb].
  assert (Hread : reads hack (sign ← read_bits_single 1; d ← read_bits_single (n - 1);
            mret (i32 (i32 sign + Z.lxor (i32 d) (- i32 sign))))
     (field_bits hack 1 (if v <? 0 then 1 else 0) ++ field_bits hack (n - 1) d)
     (let s := if v <? 0 then 1 else 0 in i32 (i32 s + Z.lxor (i32 d) (- i32 s)))).
  { eapply reads_bind; [apply reads_single; [lia|by destruct (v <? 0), hack]|cbv beta].
    eapply (reads_bind_ret _ _ (fun d => i32 (_ + Z.lxor (i32 d) _))).
    apply reads_single; [lia|unfold is_u; lia]. }
  rewrite Hread by done. f_equal. f_equal.
  assert (Hi : i32 d = d) by (unfold i32; rewrite Z.mod_small; lia).
  cbv zeta. rewrite Hi. subst d. destruct (Z.ltb_spec v 0).
  - change (i32 1) with 1. rewrite Z.lxor_m1_r. unfold Z.lnot, i32. rewrite Z.mod_small; lia.
  - change (i32 0) with 0. change (- 0) with 0. rewrite Z.lxor_0_r, Z.add_0_l. done.
Qed.

(** the signed codec is not symmetric: a non-negative value in range comes
    back unchanged, a negative value [v] comes back as [v + 1]. *)
Theorem write_read_signed b v n :
  wf_full b -> 1 <= n <= 32 -> - 2 ^ (n - 1) <= v < 2 ^ (n - 1) ->
  cur_bit b + 1 + effective_len b (n - 1) <= max_bit b ->
  exists b', write_signed v n b = (true, b') /\
    read_signed n (set_current_bit b' (cur_bit b)) = (Some (if v <? 0 then v + 1 else v), b').
Proof.
  intros Hb Hn Hv Hr. set (hack := length_hack b).
  set (bs := field_bits hack 1 (if v <? 0 then 1 else 0)
     ++ field_bits hack (n - 1) (u32 (Z.lxor v (if v <? 0 then -1 else 0)))).
  assert (Hl : blen bs = 1 + effective_len b (n - 1)).
  { subst bs. rewrite length_app, Nat2Z.inj_add, !length_field_bits by lia.
    unfold effective_len. fold hack. by destruct hack. }
  pose proof (effective_len_bounds hack (n - 1) ltac:(lia)).
  fold (effective_len b (n - 1)) in *. exists (append b bs). split.
  - assert (writes hack (write_signed v n) bs) as Hw
      by (apply writes_and; apply writes_single; lia).
    unfold effective_len in *. fold hack in Hr, Hl. apply Hw; [done|done|lia|lia].
  - unfold effective_len in *. fold hack in Hr, Hl.
    apply (read_back hack); [done|done|lia|by apply reads_signed].
Qed.

Lemma write_read_signed_witness : exists b',
  write_signed (-5) 14 (new 4) = (true, b') /\
  read_signed 14 (set_current_bit b' 0) = (Some (-4), b').
Proof.
  apply (write_read_signed (new 4) (-5) 14); [apply wf_full_new; lia|lia|lia|].
  vm_compute; discriminate.
Defined.

(** Width of a long field on the wire. *)
Definition long_len (hack : bool) (n : Z) : Z :=
  if n <=? 32 then effective_len_of hack n else 32 + effective_len_of hack (n - 32).

Definition long_bits (hack : bool) (n v : Z) : list bool :=
  if n <=? 32 then field_bits hack n (u32 v)
  else field_bits hack 32 (u32 v) ++ field_bits hack (n - 32) (u32 (Z.shiftr v 32)).

Lemma writes_long hack v n : 1 <= n <= 64 -> writes hack (write_long v n) (long_bits hack n v).
Proof.
  intros. unfold write_long, long_bits. destruct (Z.leb_spec n 32).
  - apply writes_single; lia.
  - apply writes_and; apply writes_single; lia.
Qed.

Lemma length_long_bits hack n v : 1 <= n <= 64 -> blen (long_bits hack n v) = long_len hack n.
Proof.
  intros. unfold long_len, long_bits. destruct (Z.leb_spec n 32).
  - apply length_field_bits; lia.
  - rewrite length_app, Nat2Z.inj_add, !length_field_bits by lia. by destruct hack.
Qed.

Lemma u32_mod_le n v : 0 <= n <= 32 -> u32 v mod 2 ^ n = v mod 2 ^ n.
Proof.
  intros. unfold u32. apply Z.bits_inj'. intros i Hi. destruct (Z.ltb_spec i n).
  - by rewrite !Z.mod_pow2_bits_low by lia.
  - by rewrite !Z.mod_pow2_bits_high by lia.
Qed.

Lemma reads_long hack v n : 1 <= n <= 64 ->
  reads hack (read_long n) (long_bits hack n v) (v mod 2 ^ long_len hack n).
Proof.
  intros Hn b Hb Hh Hu. unfold read_long, long_bits, long_len in *.
  destruct (Z.eqb_spec n 0); [lia|]. destruct (Z.gtb_spec n 64); [lia|]. cbn [orb].
  destruct (Z.leb_spec n 32).
  - pose proof (effective_len_bounds hack n ltac:(lia)).
    rewrite <- (u32_mod_le (effective_len_of hack n) v) by lia.
    by apply (reads_single_mod hack (u32 v) n ltac:(lia)).
  - pose proof (effective_len_bounds hack (n - 32) ltac:(lia)) as He.
    set (m := effective_len_of hack (n - 32)) in *.
    assert (Hread : reads hack (low ← read_bits_single 32; high ← read_bits_single (n - 32);
              mret (Z.lor low (Z.shiftl high 32)))
       (field_bits hack 32 (u32 v) ++ field_bits hack (n - 32) (u32 (Z.shiftr v 32)))
       (Z.lor (u32 v) (Z.shiftl (u32 (Z.shiftr v 32) mod 2 ^ m) 32))).
    { eapply reads_bind; [apply reads_single; [lia|destruct hack; by apply is_u_mod]|cbv beta].
      eapply (reads_bind_ret _ _ (fun h => Z.lor _ (Z.shiftl h 32))).
      apply reads_single_mod. lia. }
    rewrite Hread by done. do 2 f_equal. rewrite u32_mod_le by lia.
    apply Z.bits_inj'. intros i Hi. unfold u32. rewrite Z.lor_spec, Z.shiftl_spec by done.
    destruct (Z.ltb_spec i 32).
    + rewrite !Z.mod_pow2_bits_low, (Z.testbit_neg_r _ (i - 32)), orb_false_r by lia. done.
    + rewrite (Z.mod_pow2_bits_high v 32) by lia. cbn [orb].
      destruct (Z.ltb_spec i (32 + m)).
      * rewrite !Z.mod_pow2_bits_low, Z.shiftr_spec by lia. f_equal; lia.
      * by rewrite !Z.mod_pow2_bits_high by lia.
Qed.

(** a 64-bit value written with [write_long] (low word first) is read back
    by [read_long], truncated to the field's width. *)
Theorem write_read_long b v n :
  wf_full b -> 1 <= n <= 64 -> cur_bit b + long_len (length_hack b) n <= max_bit b ->
  exists b', write_long v n b = (true, b') /\
    read_long n (set_current_bit b' (cur_bit b)) = (Some (v mod 2 ^ long_len (length_hack b) n), b').
Proof.
  intros Hb Hn Hr. exists (append b (long_bits (length_hack b) n v)).
  pose proof (length_long_bits (length_hack b) n v Hn).
  split; [|apply (read_back (length_hack b)); [done|done|lia|by apply reads_long]].
  apply (writes_long (length_hack b)); [done|done|done|lia|lia].
Qed.

Lemma write_read_long_witness : exists b',
  write_long 81985529216486895 57 (new 8) = (true, b') /\
  read_long 57 (set_current_bit b' 0) = (Some (81985529216486895 mod 2 ^ 57), b').
Proof.
  apply (write_read_long (new 8) 81985529216486895 57); [apply wf_full_new; lia|lia|].
  vm_compute; discriminate.
Defined.

(** the byte-wise fast path of [copy_bits] agrees with its bit-by-bit loop
    on every in-range copy. *)
Theorem copy_bits_fast_path dest src n db sb :
  bytes_ok dest -> bytes_ok src -> 0 <= db -> 0 <= sb -> 0 <= n ->
  db + n <= dlen dest -> sb + n <= dlen src ->
  copy_bits dest src n db sb
  = foldl (fun d i => set_bit d (db + i) (bit_of src (sb + i))) dest (seqZ 0 n).
Proof.
  intros. rewrite copy_bits_spec by done.
  rewrite (foldl_ext _ (fun d i => set_bit d (db + i) (Z.b2z (bit_at src (sb + i)))))
    by (intros; by rewrite bit_of_bit_at).
  rewrite (put_loop_spec (fun i => bit_at src (sb + i))), Z.add_0_r. f_equal.
  unfold get_bits. rewrite <- (Z.add_0_r sb) at 1. rewrite <- fmap_add_seqZ, <- list_fmap_compose.
  by apply list_fmap_ext.
Qed.

Lemma copy_bits_fast_path_witness :
  copy_bits [1; 2; 3; 4] [255; 170; 85] 16 8 8
  = foldl (fun d i => set_bit d (8 + i) (bit_of [255; 170; 85] (8 + i))) [1; 2; 3; 4] (seqZ 0 16).
Proof.
  apply (copy_bits_fast_path [1; 2; 3; 4] [255; 170; 85] 16 8 8); try (simpl; lia).
  all: repeat constructor; unfold is_u; lia.
Defined.
