(* ===== verification/Udp.v ===== *)
(** * Game-transport message framing
    (src/crates/baston-protocol/src/udp/{mod,route,time_sync,handshake}.rs)

    The one-at-a-time hash naming message types, and the byte-level messages
    that precede and surround the clone stream. *)

From S2P Require Import Prelude.
From stdpp Require Export strings.
From Stdlib Require Import DecimalString.
#[local] Open Scope Z_scope.

(** [s.as_bytes()]. *)
Definition as_bytes (s : string) : list Z :=
  (fun c => Z.of_N (Ascii.N_of_ascii c)) <$> String.list_ascii_of_string s.

(** ** [hash_rage_string]: Jenkins one-at-a-time on wrapping [u32]. *)

Definition hash_step (hash byte : Z) : Z :=
  let hash := u32 (hash + byte) in
  let hash := u32 (hash + u32 (Z.shiftl hash 10)) in
  Z.lxor hash (Z.shiftr hash 6).

Definition hash_rage_string (s : string) : Z :=
  let hash := foldl hash_step 0 (as_bytes s) in
  let hash := u32 (hash + u32 (Z.shiftl hash 3)) in
  let hash := Z.lxor hash (Z.shiftr hash 11) in
  u32 (hash + u32 (Z.shiftl hash 15)).

Definition MSG_CONNECT : Z := 1.
Definition MSG_TIME_SYNC_REQ : Z := hash_rage_string "msgTimeSyncReq"%string.
Definition MSG_TIME_SYNC : Z := hash_rage_string "msgTimeSync"%string.
Definition MSG_ROUTE : Z := hash_rage_string "msgRoute"%string.
Definition MSG_NET_EVENT : Z := hash_rage_string "msgNetEvent"%string.
Definition MSG_SERVER_EVENT : Z := hash_rage_string "msgServerEvent"%string.
Definition MSG_I_QUIT : Z := hash_rage_string "msgIQuit"%string.
Definition MSG_I_HOST : Z := hash_rage_string "msgIHost"%string.

(** ** [read_message_type]: the leading [u32] and the rest. *)

Definition read_message_type (d : list Z) : option (Z * list Z) :=
  if (length d <? 4)%nat then None
  else Some (from_le_bytes (take 4 d), drop 4 d).

(** ** [host]: session-host arbitration *)

Definition parse_i_host (payload : list Z) : option Z :=
  from_le_bytes <$> get_slice payload 0 4.

Definition build_server_i_host (net_id base_num : Z) : list Z :=
  to_le_bytes 4 MSG_I_HOST ++ to_le_bytes 2 net_id ++ to_le_bytes 4 base_num.

(** ** [route]: the peer-to-peer relay *)

Record ClientRoute := { target_net_id : Z; route_data : list Z }.

Definition parse_client_route (payload : list Z) : option ClientRoute :=
  if (length payload <? 4)%nat then None
  else Some {| target_net_id := from_le_bytes (take 2 payload); route_data := drop 4 payload |}.

Definition build_server_route (sender_net_id : Z) (d : list Z) : list Z :=
  to_le_bytes 4 MSG_ROUTE ++ to_le_bytes 2 sender_net_id
    ++ to_le_bytes 2 (u16 (Z.of_nat (length d))) ++ d.

(** ** [time_sync]: clock synchronisation *)

Record TimeSyncRequest := { request_time : Z; request_sequence : Z }.

Definition parse_time_sync_request (payload : list Z) : option TimeSyncRequest :=
  if (length payload <? 8)%nat then None
  else Some {| request_time := from_le_bytes (take 4 payload);
               request_sequence := from_le_bytes (take 4 (drop 4 payload)) |}.

Definition build_time_sync_response (request : TimeSyncRequest) (server_time_ms : Z) : list Z :=
  to_le_bytes 4 MSG_TIME_SYNC ++ to_le_bytes 4 (request_time request)
    ++ to_le_bytes 4 (request_sequence request)
    ++ to_le_bytes 4 (u32 (Z.land server_time_ms 4294967295)).

Definition build_time_sync_request (request : TimeSyncRequest) : list Z :=
  to_le_bytes 4 MSG_TIME_SYNC_REQ ++ to_le_bytes 4 (request_time request)
    ++ to_le_bytes 4 (request_sequence request).

(** ** [handshake]: the [connectOK] reply *)

(** [format!("{n}")] of an integer. *)
Definition display_Z (n : Z) : string := NilZero.string_of_int (Z.to_int n).

Definition build_connect_ok (net_id : Z) (session_host : option (Z * Z)) : list Z :=
  let '(host_id, host_base) :=
    match session_host with Some (id, base) => (id, base) | None => (-1, -1) end in
  to_le_bytes 4 MSG_CONNECT
    ++ as_bytes (" " +:+ display_Z net_id +:+ " " +:+ display_Z host_id +:+ " "
                 +:+ display_Z host_base +:+ " -1 -1").

Example connect_ok_format :
  drop 4 (build_connect_ok 2 (Some (1, 12345))) = as_bytes " 2 1 12345 -1 -1".
Proof. reflexivity. Qed.

(** The message types a server dispatches on are distinct. *)
Example message_types_distinct :
  NoDup [MSG_CONNECT; MSG_TIME_SYNC_REQ; MSG_TIME_SYNC; MSG_ROUTE; MSG_NET_EVENT; MSG_SERVER_EVENT; MSG_I_QUIT; MSG_I_HOST].
Proof. by apply (bool_decide_eq_true_1 (NoDup _)). Qed.

(** ** Byte framing lemmas *)

Lemma take_le_bytes n z rest : take n (to_le_bytes n z ++ rest) = to_le_bytes n z.
Proof. apply take_app_length'. by rewrite length_to_le_bytes. Qed.
Lemma drop_le_bytes n z rest : drop n (to_le_bytes n z ++ rest) = rest.
Proof. apply drop_app_length'. by rewrite length_to_le_bytes. Qed.
#[export] Hint Rewrite take_le_bytes drop_le_bytes length_to_le_bytes : le_bytes.

Lemma read_message_type_framed ty payload : is_u 32 ty ->
  read_message_type (to_le_bytes 4 ty ++ payload) = Some (ty, payload).
Proof.
  intros. unfold read_message_type. rewrite length_app, length_to_le_bytes.
  rewrite (proj2 (Nat.ltb_ge _ _)) by lia.
  by rewrite take_le_bytes, drop_le_bytes, from_to_le_bytes_id.
Qed.

Lemma hash_rage_string_u32 s : is_u 32 (hash_rage_string s).
Proof. by apply (is_u_mod 32). Qed.

(** ** What the message framing guarantees *)

(** the clock-sync request and the relay message round-trip through their
    framing: the dispatcher recovers the message type, the request parser its
    fields, and a relayed payload of at most 65535 bytes is preserved behind
    its sender id and length. *)
Theorem control_messages_round_trip :
  (forall r, is_u 32 (request_time r) -> is_u 32 (request_sequence r) ->
     (p ← read_message_type (build_time_sync_request r);
      req ← parse_time_sync_request p.2; Some (p.1, req)) = Some (MSG_TIME_SYNC_REQ, r)) /\
  (forall sender d, is_u 16 sender -> Z.of_nat (length d) <= 65535 ->
     (p ← read_message_type (build_server_route sender d);
      Some (p.1, from_le_bytes (take 2 p.2), from_le_bytes (take 2 (drop 2 p.2)), drop 4 p.2))
     = Some (MSG_ROUTE, sender, Z.of_nat (length d), d)).
Proof.
  split.
  - intros [t s] Ht Hs. cbn [request_time request_sequence] in *. unfold build_time_sync_request.
    rewrite read_message_type_framed by apply hash_rage_string_u32.
    cbn [mbind option_bind fst snd request_time request_sequence]. unfold parse_time_sync_request.
    rewrite length_app, !length_to_le_bytes, (proj2 (Nat.ltb_ge _ _)) by (simpl; lia).
    rewrite take_le_bytes, drop_le_bytes.
    rewrite <- (app_nil_r (to_le_bytes 4 s)), take_le_bytes, !from_to_le_bytes_id by done. done.
  - intros sender d Hs Hd. unfold build_server_route.
    rewrite read_message_type_framed by apply hash_rage_string_u32.
    cbn [mbind option_bind fst snd].
    rewrite take_le_bytes, drop_le_bytes, take_le_bytes.
    unfold u16. rewrite Z.mod_small by lia.
    rewrite !from_to_le_bytes_id by (done || (unfold is_u; lia)).
    rewrite (app_assoc (to_le_bytes 2 sender)).
    by rewrite (drop_app_length' _ d 4) by (by rewrite length_app, !length_to_le_bytes).
Qed.
