(* ===== verification/Reliability.v ===== *)
(** * Reliability packets: [gameStateNAck] and [gameStateAck]
    (src/crates/baston-protocol/src/rage/reliability.rs)

    The byte cursor, the two parsers and the builder, with the judgement
    [parses] for byte codecs: the decoder consumes exactly the encoding and
    rejects every strict prefix of it. *)

From S2P Require Import Prelude Udp.
#[local] Open Scope Z_scope.

Definition GAME_STATE_NACK : Z := hash_rage_string "gameStateNAck".
Definition GAME_STATE_ACK : Z := hash_rage_string "gameStateAck".

Module flags.
Definition IS_MISSING_FRAMES : Z := 1.
Definition HAS_IGNORE_LIST : Z := 2.
Definition HAS_RECREATE_LIST : Z := 4.
Definition HAS_IGNORE_LIST_ENTRY_RESEND_FRAME : Z := 8.
End flags.

Record IgnoreEntry := { object_id : Z; last_frame : Z }.

Record GameStateNAck := {
  nack_flags : Z;
  nack_frame_index : Z;
  missing_frames : option (Z * Z);
  nack_ignore_list : list IgnoreEntry;
  nack_recreate_list : list Z
}.

Record GameStateAck := {
  ack_frame_index : Z;
  ack_ignore_list : list IgnoreEntry;
  ack_recreate_list : list Z
}.

(** ** The byte cursor *)

Record Reader := { buf : list Z; off : nat }.

Definition reader_new (b : list Z) : Reader := {| buf := b; off := 0 |}.

Definition reader_advance (r : Reader) (n : nat) : Reader := {| buf := buf r; off := off r + n |}.

Definition r_u8 : SM Reader Z := fun r =>
  match buf r !! off r with
  | Some v => (Some v, reader_advance r 1)
  | None => (None, r)
  end.

Definition r_u16 : SM Reader Z := fun r =>
  match get_slice (buf r) (off r) 2 with
  | Some bs => (Some (from_le_bytes bs), reader_advance r 2)
  | None => (None, r)
  end.

Definition r_u64 : SM Reader Z := fun r =>
  match get_slice (buf r) (off r) 8 with
  | Some bs => (Some (from_le_bytes bs), reader_advance r 8)
  | None => (None, r)
  end.

Definition r_ignore_list : SM Reader (list IgnoreEntry) :=
  count ← r_u8;
  map_m (fun _ =>
    object_id ← r_u16;
    last_frame ← r_u64;
    mret {| object_id := object_id; last_frame := last_frame |})
    (seq 0 (Z.to_nat count)).

Definition r_recreate_list : SM Reader (list Z) :=
  count ← r_u8;
  map_m (fun _ => r_u16) (seq 0 (Z.to_nat count)).

(** ** Parsers and builder *)

Definition has_flag (fl f : Z) : bool := negb (Z.land fl f =? 0).

Definition parse_nack_m : SM Reader GameStateNAck :=
  fl ← r_u8;
  frame_index ← r_u64;
  missing ← when (has_flag fl flags.IS_MISSING_FRAMES)
    (first ← r_u64; last ← r_u64; mret (Some (first, last))) None;
  ignore_list ← when (has_flag fl flags.HAS_IGNORE_LIST) r_ignore_list [];
  recreate_list ← when (has_flag fl flags.HAS_RECREATE_LIST) r_recreate_list [];
  mret {| nack_flags := fl; nack_frame_index := frame_index; missing_frames := missing;
          nack_ignore_list := ignore_list; nack_recreate_list := recreate_list |}.

Definition parse_nack (payload : list Z) : option GameStateNAck :=
  fst (parse_nack_m (reader_new payload)).

Definition parse_ack_m : SM Reader GameStateAck :=
  frame_index ← r_u64;
  ignore_list ← r_ignore_list;
  recreate_list ← r_recreate_list;
  mret {| ack_frame_index := frame_index; ack_ignore_list := ignore_list;
          ack_recreate_list := recreate_list |}.

Definition parse_ack (payload : list Z) : option GameStateAck :=
  fst (parse_ack_m (reader_new payload)).

Definition ignore_entry_bytes (e : IgnoreEntry) : list Z :=
  to_le_bytes 2 (object_id e) ++ to_le_bytes 8 (last_frame e).

Definition ignore_list_bytes (l : list IgnoreEntry) : list Z :=
  [u8 (Z.of_nat (length l))] ++ (l ≫= ignore_entry_bytes).

Definition recreate_list_bytes (l : list Z) : list Z :=
  [u8 (Z.of_nat (length l))] ++ (l ≫= to_le_bytes 2).

Definition build_nack (nack : GameStateNAck) : list Z :=
  [nack_flags nack] ++ to_le_bytes 8 (nack_frame_index nack)
  ++ match missing_frames nack with
     | Some (first, last) => to_le_bytes 8 first ++ to_le_bytes 8 last
     | None => []
     end
  ++ (if has_flag (nack_flags nack) flags.HAS_IGNORE_LIST
      then ignore_list_bytes (nack_ignore_list nack) else [])
  ++ (if has_flag (nack_flags nack) flags.HAS_RECREATE_LIST
      then recreate_list_bytes (nack_recreate_list nack) else []).

(** ** Byte codecs *)

Definition parses {A} (m : SM Reader A) (bs : list Z) (a : A) : Prop :=
  (forall pre post,
     m {| buf := pre ++ bs ++ post; off := length pre |}
     = (Some a, {| buf := pre ++ bs ++ post; off := length pre + length bs |})) /\
  (forall pre p q, bs = p ++ q -> q <> [] ->
     fst (m {| buf := pre ++ p; off := length pre |}) = None).

Lemma parses_ret {A} (a : A) : parses (mret a) [] a.
Proof.
  split.
  - intros. simpl. by rewrite Nat.add_0_r.
  - intros pre p q E. by apply symmetry, app_nil in E as [_ ->].
Qed.

Lemma parses_bind {A B} (m : SM Reader A) (k : A -> SM Reader B) bs1 bs2 a c :
  parses m bs1 a -> parses (k a) bs2 c -> parses (m ≫= k) (bs1 ++ bs2) c.
Proof.
  intros [H1 H1p] [H2 H2p]. split.
  - intros pre post. rewrite <- app_assoc. erewrite bind_some by apply H1.
    rewrite app_assoc. rewrite <- (length_app pre). rewrite H2, <- !app_assoc.
    rewrite !length_app. do 2 f_equal. lia.
  - intros pre p q E Hq. apply app_eq_inv in E as [(k1 & -> & ->)|(k1 & -> & ->)].
    + destruct k1 as [|x k1]; [|].
      * rewrite app_nil_r in *. pose proof (H1 pre []) as H1'. rewrite app_nil_r in H1'.
        erewrite bind_some by done. rewrite <- length_app.
        specialize (H2p (pre ++ p) [] bs2 eq_refl Hq). by rewrite app_nil_r in H2p.
      * specialize (H1p pre p (x :: k1) eq_refl ltac:(done)). unfold mbind, SM_bind.
        destruct (m _) as [[] ?]; simpl in *; [done|done].
    + pose proof (H1 pre k1) as H1'. erewrite bind_some by done.
      rewrite <- length_app, app_assoc. by eapply H2p.
Qed.

Lemma parses_when {A} c (m : SM Reader A) bs a d :
  (c = true -> parses m bs a) -> (c = false -> bs = [] /\ a = d) -> parses (when c m d) bs a.
Proof.
  destruct c; simpl; [by auto|]. intros _ [-> ->]; [done|]. apply parses_ret.
Qed.

Lemma parses_u8 v : parses r_u8 [v] v.
Proof.
  split.
  - intros. unfold r_u8; cbn [buf off app]. by rewrite list_lookup_middle.
  - intros pre p q E Hq. destruct p as [|? p]; simpl in *.
    + unfold r_u8; cbn [buf off]. by rewrite app_nil_r, lookup_ge_None_2.
    + injection E as _ E. by apply symmetry, app_nil in E as [_ ->].
Qed.

Lemma parses_slice n (m : SM Reader Z) v :
  (forall r, m r = match get_slice (buf r) (off r) n with
                   | Some bs => (Some (from_le_bytes bs), reader_advance r n)
                   | None => (None, r) end) ->
  is_u (8 * Z.of_nat n) v -> parses m (to_le_bytes n v) v.
Proof.
  intros Hm Hv. split.
  - intros. rewrite Hm; cbn [buf off]. pose proof (length_to_le_bytes n v) as Hl.
    pose proof (get_slice_app pre (to_le_bytes n v) post) as Hs. rewrite Hl in *.
    by rewrite Hs, from_to_le_bytes_id.
  - intros pre p q E Hq. rewrite Hm; cbn [buf off]. unfold get_slice. rewrite decide_False; [done|].
    assert (length (to_le_bytes n v) = length p + length q)%nat as Hl by (by rewrite E, length_app).
    rewrite length_to_le_bytes in Hl. rewrite length_app. destruct q; simpl in *; [done|lia].
Qed.

Lemma parses_u16 v : is_u 16 v -> parses r_u16 (to_le_bytes 2 v) v.
Proof. by apply (parses_slice 2). Qed.
Lemma parses_u64 v : is_u 64 v -> parses r_u64 (to_le_bytes 8 v) v.
Proof. by apply (parses_slice 8). Qed.

(** A counted loop reads back the concatenation of its elements' encodings. *)
Lemma parses_map_m {A} (m : SM Reader A) (enc : A -> list Z) (l : list A) k :
  (forall x, x ∈ l -> parses m (enc x) x) ->
  parses (map_m (fun _ => m) (seq k (length l))) (l ≫= enc) l.
Proof.
  revert k; induction l as [|x l IH]; intros k Hl; [apply parses_ret|].
  cbn [length seq map_m mbind list_bind]. apply (parses_bind _ _ _ _ x).
  { apply Hl. by left. }
  rewrite <- (app_nil_r (l ≫= enc)). apply (parses_bind _ _ _ [] l); [|apply parses_ret].
  apply IH. intros. apply Hl. by right.
Qed.

Lemma parses_ignore_entry e : is_u 16 (object_id e) -> is_u 64 (last_frame e) ->
  parses (object_id ← r_u16; last_frame ← r_u64;
          mret {| object_id := object_id; last_frame := last_frame |})
         (ignore_entry_bytes e) e.
Proof.
  intros. destruct e as [oid fr]. unfold ignore_entry_bytes; cbn [object_id last_frame] in *.
  eapply parses_bind; [by apply parses_u16|]. rewrite <- (app_nil_r (to_le_bytes 8 fr)).
  eapply parses_bind; [by apply parses_u64|]. apply parses_ret.
Qed.

(** The lists both packets carry: at most 255 entries, fields in range. *)
Definition ignore_list_ok (l : list IgnoreEntry) : Prop :=
  (length l <= 255)%nat /\ Forall (fun e => is_u 16 (object_id e) /\ is_u 64 (last_frame e)) l.
Definition recreate_list_ok (l : list Z) : Prop := (length l <= 255)%nat /\ Forall (is_u 16) l.

Lemma u8_length (n : nat) : (n <= 255)%nat -> u8 (Z.of_nat n) = Z.of_nat n.
Proof. intros. apply (u_id 8). unfold is_u. lia. Qed.

Lemma parses_ignore_list l : ignore_list_ok l -> parses r_ignore_list (ignore_list_bytes l) l.
Proof.
  intros [Hn Hl]. unfold r_ignore_list, ignore_list_bytes.
  eapply parses_bind; [apply parses_u8|]. rewrite u8_length, Nat2Z.id by done.
  apply parses_map_m. intros e He. rewrite Forall_forall in Hl.
  destruct (Hl e He). by apply parses_ignore_entry.
Qed.

Lemma parses_recreate_list l : recreate_list_ok l -> parses r_recreate_list (recreate_list_bytes l) l.
Proof.
  intros [Hn Hl]. unfold r_recreate_list, recreate_list_bytes.
  eapply parses_bind; [apply parses_u8|]. rewrite u8_length, Nat2Z.id by done.
  apply parses_map_m. intros v Hv. apply parses_u16.
  rewrite Forall_forall in Hl. by apply Hl.
Qed.

(** The packets a client can mean: every section is present exactly when its
    flag is set. *)
Record nack_ok (n : GameStateNAck) : Prop := {
  nok_flags : is_u 8 (nack_flags n);
  nok_frame : is_u 64 (nack_frame_index n);
  nok_missing : match missing_frames n with
                | Some (f, l) => has_flag (nack_flags n) flags.IS_MISSING_FRAMES = true
                                 /\ is_u 64 f /\ is_u 64 l
                | None => has_flag (nack_flags n) flags.IS_MISSING_FRAMES = false
                end;
  nok_ignore : ignore_list_ok (nack_ignore_list n);
  nok_no_ignore : has_flag (nack_flags n) flags.HAS_IGNORE_LIST = false -> nack_ignore_list n = [];
  nok_recreate : recreate_list_ok (nack_recreate_list n);
  nok_no_recreate : has_flag (nack_flags n) flags.HAS_RECREATE_LIST = false ->
                    nack_recreate_list n = []
}.

Lemma parses_nack n : nack_ok n -> parses parse_nack_m (build_nack n) n.
Proof.
  intros []. unfold parse_nack_m, build_nack.
  eapply parses_bind; [apply parses_u8|]. eapply parses_bind; [by apply parses_u64|].
  apply (parses_bind _ _ _ _ (missing_frames n)).
  { destruct (missing_frames n) as [[f l]|] eqn:E.
    - destruct nok_missing0 as (Hf & ? & ?). rewrite Hf. cbn [when].
      eapply parses_bind; [by apply parses_u64|]. rewrite <- (app_nil_r (to_le_bytes 8 l)).
      eapply parses_bind; [by apply parses_u64|]. apply parses_ret.
    - rewrite nok_missing0. apply parses_ret. }
  apply (parses_bind _ _ _ _ (nack_ignore_list n)).
  { destruct (has_flag _ flags.HAS_IGNORE_LIST).
    - by apply parses_ignore_list.
    - rewrite nok_no_ignore0 by done. apply parses_ret. }
  rewrite <- (app_nil_r (if has_flag (nack_flags n) flags.HAS_RECREATE_LIST then _ else _)).
  apply (parses_bind _ _ _ _ (nack_recreate_list n)).
  { destruct (has_flag _ flags.HAS_RECREATE_LIST).
    - by apply parses_recreate_list.
    - rewrite nok_no_recreate0 by done. apply parses_ret. }
  destruct n. apply parses_ret.
Qed.

(** The wire form of an acknowledgement, as the client builds it. *)
Definition ack_bytes (a : GameStateAck) : list Z :=
  to_le_bytes 8 (ack_frame_index a) ++ ignore_list_bytes (ack_ignore_list a)
  ++ recreate_list_bytes (ack_recreate_list a).

Lemma parses_ack a : is_u 64 (ack_frame_index a) -> ignore_list_ok (ack_ignore_list a) ->
  recreate_list_ok (ack_recreate_list a) -> parses parse_ack_m (ack_bytes a) a.
Proof.
  intros. unfold parse_ack_m, ack_bytes.
  eapply parses_bind; [by apply parses_u64|]. eapply parses_bind; [by apply parses_ignore_list|].
  rewrite <- (app_nil_r (recreate_list_bytes _)).
  eapply parses_bind; [by apply parses_recreate_list|]. destruct a. apply parses_ret.
Qed.

(** What a byte codec gives its caller on a whole payload. *)
Lemma parses_payload {A} (m : SM Reader A) bs a : parses m bs a ->
  (forall post, fst (m (reader_new (bs ++ post))) = Some a) /\
  (forall p q, bs = p ++ q -> q <> [] -> fst (m (reader_new p)) = None).
Proof.
  intros [H Hp]. split.
  - intros post. specialize (H [] post). cbn [app length] in H. unfold reader_new. by rewrite H.
  - intros p q. apply (Hp []).
Qed.

(** ** What the reliability codec guarantees *)

(** every well-formed negative acknowledgement is parsed back to itself,
    whatever follows it in the payload, and every strict prefix of it is
    rejected. *)
Theorem nack_round_trip n : nack_ok n ->
  (forall post, parse_nack (build_nack n ++ post) = Some n) /\
  (forall p q, build_nack n = p ++ q -> q <> [] -> parse_nack p = None).
Proof. intros Hn. by apply parses_payload, parses_nack. Qed.

Definition sample_nack : GameStateNAck := {|
  nack_flags := 7; nack_frame_index := 81985529216486895;
  missing_frames := Some (10, 15);
  nack_ignore_list := [{| object_id := 42; last_frame := 900 |}];
  nack_recreate_list := [7; 65535] |}.

Lemma nack_round_trip_witness :
  (forall post, parse_nack (build_nack sample_nack ++ post) = Some sample_nack) /\
  (forall p q, build_nack sample_nack = p ++ q -> q <> [] -> parse_nack p = None).
Proof.
  apply (nack_round_trip sample_nack).
  assert (Hids : Forall (is_u 16) [7; 65535]) by (by apply (bool_decide_eq_true_1 (Forall _ _))).
  assert (Hent : Forall (fun e => is_u 16 (object_id e) /\ is_u 64 (last_frame e))
    [{| object_id := 42; last_frame := 900 |}])
    by (apply Forall_singleton; split; unfold is_u; simpl; lia).
  split; cbn [sample_nack nack_flags nack_frame_index missing_frames nack_ignore_list nack_recreate_list].
  - by compute.
  - by compute.
  - split; [reflexivity|split; by compute].
  - split; [simpl; lia|exact Hent].
  - discriminate.
  - split; [simpl; lia|exact Hids].
  - discriminate.
Defined.

(** a well-formed acknowledgement is parsed to its contents whatever
    follows it, and every strict prefix of it is rejected. *)
Theorem ack_decodes a :
  is_u 64 (ack_frame_index a) -> ignore_list_ok (ack_ignore_list a) ->
  recreate_list_ok (ack_recreate_list a) ->
  (forall post, parse_ack (ack_bytes a ++ post) = Some a) /\
  (forall p q, ack_bytes a = p ++ q -> q <> [] -> parse_ack p = None).
Proof. intros. by apply parses_payload, parses_ack. Qed.

Definition sample_ack : GameStateAck := {|
  ack_frame_index := 77; ack_ignore_list := [{| object_id := 3; last_frame := 5 |}];
  ack_recreate_list := [9] |}.

Lemma ack_decodes_witness :
  (forall post, parse_ack (ack_bytes sample_ack ++ post) = Some sample_ack) /\
  (forall p q, ack_bytes sample_ack = p ++ q -> q <> [] -> parse_ack p = None).
Proof.
  apply (ack_decodes sample_ack).
  - by compute.
  - split; [simpl; lia|]. apply Forall_singleton; split; by compute.
  - split; [simpl; lia|]. apply Forall_singleton; by compute.
Defined.
