(* ===== verification/ObjectIds.v ===== *)
(** * Object-id leases: the run-length wire format
    (src/crates/baston-protocol/src/rage/object_ids.rs)

    The server compresses a list of leased ids into (gap, size) runs; the
    client expands them.  The loops are modelled as written: [compress] walks
    the list with an inner loop over each consecutive run, [decompress] counts
    up with wrapping [u16] arithmetic. *)

From S2P Require Import Prelude Udp.
#[local] Open Scope Z_scope.

Definition MSG_OBJECT_IDS : Z := hash_rage_string "msgObjectIds".
Definition MSG_REQUEST_OBJECT_IDS : Z := hash_rage_string "msgRequestObjectIds".

Definition ids_per_request (big_mode : bool) : Z := if big_mode then 6 else 32.

(** The inner loop: consume ids while each is its predecessor plus one.
    Returns the run's [size], its last id and the rest of the list.  The
    comparison [ids[i] != ids[i - 1] + 1] is on [u16]: the addition wraps (in
    the release profile) on the last id of the space. *)
Fixpoint take_run (prev : Z) (size : Z) (ids : list Z) : Z * Z * list Z :=
  match ids with
  | [] => (size, prev, [])
  | id :: rest =>
    if id =? u16 (prev + 1) then take_run id (u16 (size + 1)) rest
    else (size, prev, ids)
  end.

(** The outer loop; [fuel] bounds the number of runs, and the list's length is
    enough since every run consumes an id. *)
Fixpoint compress_loop (fuel : nat) (last : Z) (ids : list Z) : list (Z * Z) :=
  match fuel, ids with
  | S fuel', id :: rest =>
    let gap := u16 (id - 2 - last) in
    let '(size, last', rest') := take_run id 0 rest in
    (gap, size) :: compress_loop fuel' last' rest'
  | _, _ => []
  end.

Definition compress (ids : list Z) : list (Z * Z) := compress_loop (length ids) (-1) ids.

(** [for _ in 0..=size { ids.push(last); last = last.wrapping_add(1) }]. *)
Fixpoint emit_run (n : nat) (last : Z) : list Z * Z :=
  match n with
  | O => ([], last)
  | S n' => let '(ids, last') := emit_run n' (u16 (last + 1)) in (last :: ids, last')
  end.

Fixpoint decompress_loop (last : Z) (entries : list (Z * Z)) : list Z :=
  match entries with
  | [] => []
  | (gap, size) :: rest =>
    let last := u16 (last + u16 (gap + 1)) in
    let '(ids, last') := emit_run (S (Z.to_nat size)) last in
    ids ++ decompress_loop last' rest
  end.

Definition decompress (entries : list (Z * Z)) : list Z := decompress_loop 0 entries.

Definition entry_bytes (e : Z * Z) : list Z := to_le_bytes 2 e.1 ++ to_le_bytes 2 e.2.

Definition build_object_ids (ids : list Z) : list Z :=
  let entries := compress ids in
  to_le_bytes 4 MSG_OBJECT_IDS ++ to_le_bytes 2 (u16 (Z.of_nat (length entries)))
    ++ (entries ≫= entry_bytes).

Fixpoint parse_entries (payload : list Z) (off count : nat) : option (list (Z * Z)) :=
  match count with
  | O => Some []
  | S count' =>
    gap ← (from_le_bytes <$> get_slice payload off 2);
    size ← (from_le_bytes <$> get_slice payload (off + 2) 2);
    rest ← parse_entries payload (off + 4) count';
    Some ((gap, size) :: rest)
  end.

Definition parse_object_ids (payload : list Z) : option (list Z) :=
  if (length payload <? 2)%nat then None
  else
    let count := Z.to_nat (from_le_bytes (take 2 payload)) in
    entries ← parse_entries payload 2 count;
    Some (decompress entries).

Example compress_sparse :
  compress [5; 6; 7; 20; 21; 100] = [(4, 2); (11, 1); (77, 0)] /\
  decompress [(4, 2); (11, 1); (77, 0)] = [5; 6; 7; 20; 21; 100].
Proof. split; reflexivity. Qed.

(** ** The run-length code is lossless *)

Lemma u16_id v : is_u 16 v -> u16 v = v.
Proof. apply (u_id 16). Qed.

Lemma take_run_spec ids prev size : 
  Forall (is_u 16) (prev :: ids) -> 0 <= size -> size + Z.of_nat (length ids) < 65536 ->
  let '(size', last, rest) := take_run prev size ids in
  exists run, ids = run ++ rest /\ size' = size + Z.of_nat (length run) /\
    is_u 16 last /\
    emit_run (S (length run)) prev = (prev :: run, u16 (last + 1)).
Proof.
  revert prev size; induction ids as [|id ids IH]; intros prev size Hall Hs Hl; simpl.
  { exists []. split_and!; [done|simpl; lia|by inversion Hall|]. done. }
  inversion_clear Hall as [|? ? Hp Hids]. cbn [length] in Hl.
  destruct (Z.eqb_spec id (u16 (prev + 1))) as [->|].
  - specialize (IH (u16 (prev + 1)) (u16 (size + 1)) Hids).
    rewrite (u16_id (size + 1)) in * by (unfold is_u; lia).
    destruct (take_run _ _ _) as [[size' last] rest].
    destruct IH as (run & -> & -> & Hlast & He); [lia..|].
    exists (u16 (prev + 1) :: run). split_and!; [done|simpl; lia|done|].
    cbn [length]. remember (S (length run)) as n. simpl. by rewrite He.
  - exists []. split_and!; [done|simpl; lia|done|done].
Qed.

Lemma u16_gap id last : is_u 16 id -> u16 (u16 (last + 1) + u16 (u16 (id - 2 - last) + 1)) = id.
Proof.
  intros. unfold u16 in *. rewrite <- (u_id 16 id) at 2 by done. zdm.
Qed.

Lemma decompress_compress_loop fuel ids last :
  Forall (is_u 16) ids -> (length ids <= fuel)%nat -> Z.of_nat (length ids) <= 65535 ->
  decompress_loop (u16 (last + 1)) (compress_loop fuel last ids) = ids.
Proof.
  revert ids last; induction fuel as [|fuel IH]; intros ids last Hids Hf Hl.
  { by destruct ids; [|simpl in Hf; lia]. }
  destruct ids as [|id ids]; [done|]. cbn [compress_loop length] in *.
  pose proof (take_run_spec ids id 0 Hids) as Hrun.
  destruct (take_run id 0 ids) as [[size last'] rest].
  destruct Hrun as (run & -> & -> & Hlast & He); [lia..|].
  cbn [decompress_loop]. inversion_clear Hids as [|? ? Hid Hrest].
  rewrite u16_gap by done. rewrite Z.add_0_l, Nat2Z.id, He, IH; [done|..].
  - by apply Forall_app in Hrest as [].
  - rewrite length_app in *. lia.
  - rewrite length_app in *. lia.
Qed.

Lemma compress_loop_ok fuel ids last : Z.of_nat (length ids) <= 65535 ->
  Forall (is_u 16) ids ->
  Forall (fun e => is_u 16 e.1 /\ is_u 16 e.2) (compress_loop fuel last ids) /\
  (length (compress_loop fuel last ids) <= length ids)%nat.
Proof.
  revert ids last; induction fuel as [|fuel IH]; intros ids last Hl Hids.
  { split; [constructor|simpl; lia]. }
  destruct ids as [|id ids]; [split; [constructor|simpl; lia]|]. cbn [compress_loop length] in *.
  pose proof (take_run_spec ids id 0 Hids) as Hrun.
  destruct (take_run id 0 ids) as [[size last'] rest].
  destruct Hrun as (run & -> & -> & Hlast & He); [lia..|].
  inversion_clear Hids as [|? ? Hid Hrest]. rewrite length_app in *.
  destruct (IH rest last') as [IH1 IH2]; [lia|by apply Forall_app in Hrest as []|].
  split; [constructor; [|done]|simpl; lia]. split; [by apply (is_u_mod 16)|].
  cbn. unfold is_u. lia.
Qed.

Lemma parse_entries_spec pre es post :
  Forall (fun e => is_u 16 e.1 /\ is_u 16 e.2) es ->
  parse_entries (pre ++ (es ≫= entry_bytes) ++ post) (length pre) (length es) = Some es.
Proof.
  revert pre; induction es as [|[g s] es IH]; intros pre Hes; [done|].
  inversion_clear Hes as [|? ? [Hg Hs] Hes']. cbn [fst snd] in *.
  rewrite bind_cons. cbn [length parse_entries].
  change (entry_bytes (g, s)) with (to_le_bytes 2 g ++ to_le_bytes 2 s). rewrite <- !app_assoc.
  pose proof (get_slice_app pre (to_le_bytes 2 g) (to_le_bytes 2 s ++ (es ≫= entry_bytes) ++ post)) as H1.
  pose proof (get_slice_app (pre ++ to_le_bytes 2 g) (to_le_bytes 2 s) ((es ≫= entry_bytes) ++ post)) as H2.
  rewrite length_app, <- !app_assoc in H2. rewrite !length_to_le_bytes in *.
  rewrite H1, H2. cbn [fmap option_fmap option_map mbind option_bind].
  rewrite !from_to_le_bytes_id by done.
  specialize (IH (pre ++ to_le_bytes 2 g ++ to_le_bytes 2 s) Hes').
  rewrite !length_app, !length_to_le_bytes, <- !app_assoc in IH.
  change (2 + 2)%nat with 4%nat in IH. by rewrite IH.
Qed.

Lemma decompress_compress ids : Forall (is_u 16) ids -> Z.of_nat (length ids) <= 65535 ->
  decompress (compress ids) = ids.
Proof.
  intros. unfold decompress, compress. change 0 with (u16 (-1 + 1)).
  by apply decompress_compress_loop.
Qed.

Lemma parse_build_object_ids ids post : Forall (is_u 16) ids -> Z.of_nat (length ids) <= 65535 ->
  parse_object_ids (drop 4 (build_object_ids ids) ++ post) = Some ids.
Proof.
  intros Hids Hl. destruct (compress_loop_ok (length ids) ids (-1) Hl Hids) as [Hes Hn].
  fold (compress ids) in *. unfold build_object_ids. rewrite drop_le_bytes.
  unfold parse_object_ids. rewrite !length_app, length_to_le_bytes.
  rewrite (proj2 (Nat.ltb_ge _ _)) by lia. rewrite <- app_assoc, take_le_bytes.
  rewrite u16_id by (unfold is_u; lia). rewrite from_to_le_bytes_id, Nat2Z.id by (unfold is_u; lia).
  pose proof (parse_entries_spec (to_le_bytes 2 (Z.of_nat (length (compress ids)))) _ post Hes) as Hp.
  rewrite length_to_le_bytes in Hp. rewrite Hp. cbn [mbind option_bind]. f_equal.
  by apply decompress_compress.
Qed.

(** ** What the lease codec guarantees *)

(** any list of at most 65535 object ids, sorted or not and including the
    wrap-around at the end of the id space, is recovered exactly by the client
    from the message the server builds. *)
Theorem object_ids_round_trip ids post :
  Forall (is_u 16) ids -> Z.of_nat (length ids) <= 65535 ->
  parse_object_ids (drop 4 (build_object_ids ids) ++ post) = Some ids.
Proof. apply parse_build_object_ids. Qed.

Lemma object_ids_round_trip_witness :
  parse_object_ids (drop 4 (build_object_ids [4; 5; 6; 65535; 0; 3]) ++ [99])
  = Some [4; 5; 6; 65535; 0; 3].
Proof.
  apply (object_ids_round_trip [4; 5; 6; 65535; 0; 3] [99]); [|by compute].
  by apply (bool_decide_eq_true_1 (Forall (is_u 16) _)).
Defined.
