(* ===== verification/Clone.v ===== *)
(** * Clone-stream records
    (src/crates/baston-protocol/src/rage/clone.rs)

    The entity types, the three record families (inbound, downlink, ack), the
    readers and the writers; then, for each record, its wire form as a bit
    string, to which the writers and readers are proved equal. *)

From S2P Require Import Prelude F32 MessageBuffer.

(** ** Record type tags *)
Module rec.
Definition CREATE : Z := 1.
Definition SYNC : Z := 2.
Definition REMOVE : Z := 3.
Definition TAKEOVER : Z := 4.
Definition TIMESTAMP : Z := 5.
Definition INDEX : Z := 6.
Definition END : Z := 7.
End rec.

(** ** Entity types *)

Inductive NetObjEntityType :=
  | Automobile | Bike | Boat | Door | Heli | Object | Ped | Pickup | PickupPlacement
  | Plane | Submarine | Player | Trailer | Train.

#[global] Instance NetObjEntityType_eq_dec : EqDecision NetObjEntityType.
Proof. solve_decision. Defined.

(** [self as u8]: the discriminant. *)
Definition entity_type_as_u8 (t : NetObjEntityType) : Z :=
  match t with
  | Automobile => 0 | Bike => 1 | Boat => 2 | Door => 3 | Heli => 4 | Object => 5
  | Ped => 6 | Pickup => 7 | PickupPlacement => 8 | Plane => 9 | Submarine => 10
  | Player => 11 | Trailer => 12 | Train => 13
  end.

Definition ENTITY_TYPE_BITS : Z := 4.

Definition ALL : list NetObjEntityType :=
  [Automobile; Bike; Boat; Door; Heli; Object; Ped; Pickup; PickupPlacement; Plane;
   Submarine; Player; Trailer; Train].

Definition from_u8 (v : Z) : option NetObjEntityType :=
  match v with
  | 0 => Some Automobile | 1 => Some Bike | 2 => Some Boat | 3 => Some Door
  | 4 => Some Heli | 5 => Some Object | 6 => Some Ped | 7 => Some Pickup
  | 8 => Some PickupPlacement | 9 => Some Plane | 10 => Some Submarine
  | 11 => Some Player | 12 => Some Trailer | 13 => Some Train
  | _ => None
  end.

Definition is_vehicle (t : NetObjEntityType) : bool :=
  match t with
  | Automobile | Bike | Boat | Heli | Plane | Submarine | Trailer | Train => true
  | _ => false
  end.

(** ** Inbound records (client to server) *)

Inductive InboundRecord :=
  | InClone (is_create : bool) (object_id uniqifier : Z)
      (entity_type : option NetObjEntityType) (creation_token : Z) (data : list Z)
  | InRemove (object_id uniqifier : Z)
  | InTakeover (target_client object_id : Z)
  | InTimestamp (ts : Z)
  | InIndex (idx : Z).

(** [vec![0u8; length]] filled by [read_bits] when [length > 0]. *)
Definition read_blob (length : Z) : SM MessageBuffer (list Z) := fun self =>
  let d := replicate (Z.to_nat length) 0 in
  if length >? 0 then
    let '((ok, d'), self') := read_bits d (length * 8) self in
    if ok then (Some d', self') else (None, self')
  else (Some d, self).

Definition read_inbound (ty : Z) : SM MessageBuffer InboundRecord :=
  if (ty =? rec.CREATE) || (ty =? rec.SYNC) then
    let is_create := ty =? rec.CREATE in
    uniqifier ← read_bits_single 16;
    object_id ← read_bits_single 13;
    '(entity_type, creation_token) ←
      (if is_create
       then token ← read_bits_single 32;
            ty_raw ← read_bits_single ENTITY_TYPE_BITS;
            mret (from_u8 (u8 ty_raw), token)
       else mret (None, 0));
    length ← read_bits_single 12;
    data ← read_blob length;
    mret (InClone is_create (u16 object_id) (u16 uniqifier) entity_type creation_token data)
  else if ty =? rec.REMOVE then
    object_id ← read_bits_single 13;
    uniqifier ← read_bits_single 16;
    mret (InRemove (u16 object_id) (u16 uniqifier))
  else if ty =? rec.TAKEOVER then
    target_client ← read_bits_single 16;
    object_id ← read_bits_single 13;
    mret (InTakeover (u16 target_client) (u16 object_id))
  else if ty =? rec.TIMESTAMP then ts ← read_bits_single 32; mret (InTimestamp ts)
  else if ty =? rec.INDEX then idx ← read_bits_single 32; mret (InIndex idx)
  else fail_with_none.

(** ** Outbound records (server to client) *)

Record OutboundClone := {
  sync_type : Z;
  oc_object_id : Z;
  owner_net_id : Z;
  oc_entity_type : option NetObjEntityType;
  oc_creation_token : Z;
  oc_uniqifier : Z;
  dependent_frame_index : Z;
  oc_timestamp : Z;
  first_frame_update : bool;
  oc_data : list Z
}.

(** The unit of [&&&]. *)
Definition write_nothing (b : MessageBuffer) : bool * MessageBuffer := (true, b).

Definition write_outbound_clone (c : OutboundClone) : MessageBuffer -> bool * MessageBuffer :=
  write_bits_single (sync_type c) 3
  &&& write_bits_single (oc_object_id c) 13
  &&& write_bits_single (owner_net_id c) 16
  &&& (if sync_type c =? rec.CREATE then
         let ety := default 0 (entity_type_as_u8 <$> oc_entity_type c) in
         write_bits_single ety ENTITY_TYPE_BITS
         &&& write_bits_single (oc_creation_token c) 32
       else write_nothing)
  &&& (let uniq := if first_frame_update c then not_u16 (oc_uniqifier c) else oc_uniqifier c in
       write_bits_single uniq 16)
  &&& write_bits_single (u32 (Z.shiftr (dependent_frame_index c) 32)) 32
  &&& write_bits_single (u32 (dependent_frame_index c)) 32
  &&& write_bits_single (oc_timestamp c) 32
  &&& write_bits_single (u32 (Z.of_nat (length (oc_data c)))) 12
  &&& (if (length (oc_data c) =? 0)%nat then write_nothing
       else write_bits (oc_data c) (Z.of_nat (length (oc_data c)) * 8)).

Inductive DownlinkRecord :=
  | DlClone (is_create : bool) (object_id owner_net_id : Z)
      (entity_type : option NetObjEntityType) (creation_token uniqifier : Z)
      (dependent_frame_index timestamp : Z) (data : list Z)
  | DlRemove (force_steal : bool) (object_id uniqifier : Z)
  | DlTimestamp (ts : Z).

Definition read_downlink (ty : Z) : SM MessageBuffer DownlinkRecord :=
  if (ty =? rec.CREATE) || (ty =? rec.SYNC) then
    let is_create := ty =? rec.CREATE in
    object_id ← read_bits_single 13;
    owner_net_id ← read_bits_single 16;
    '(entity_type, creation_token) ←
      (if is_create
       then ety ← read_bits_single ENTITY_TYPE_BITS;
            token ← read_bits_single 32;
            mret (from_u8 (u8 ety), token)
       else mret (None, 0));
    uniqifier ← read_bits_single 16;
    hi ← read_bits_single 32;
    lo ← read_bits_single 32;
    let dependent_frame_index := Z.lor (u64 (Z.shiftl hi 32)) lo in
    timestamp ← read_bits_single 32;
    length ← read_bits_single 12;
    data ← read_blob length;
    mret (DlClone is_create (u16 object_id) (u16 owner_net_id) entity_type creation_token
            (u16 uniqifier) dependent_frame_index timestamp data)
  else if ty =? rec.REMOVE then
    steal ← lift read_bit;
    object_id ← read_bits_single 13;
    uniqifier ← read_bits_single 16;
    mret (DlRemove (negb (steal =? 0)) (u16 object_id) (u16 uniqifier))
  else if ty =? rec.TIMESTAMP then
    lo ← read_bits_single 32;
    hi ← read_bits_single 32;
    mret (DlTimestamp (Z.lor (u64 (Z.shiftl hi 32)) lo))
  else fail_with_none.

Definition write_outbound_remove (force_steal : bool) (object_id uniqifier : Z)
    : MessageBuffer -> bool * MessageBuffer :=
  write_bits_single rec.REMOVE 3
  &&& write_bit force_steal
  &&& write_bits_single object_id 13
  &&& write_bits_single uniqifier 16.

Definition write_outbound_timestamp (timestamp : Z) : MessageBuffer -> bool * MessageBuffer :=
  write_bits_single rec.TIMESTAMP 3
  &&& write_bits_single (u32 timestamp) 32
  &&& write_bits_single (u32 (Z.shiftr timestamp 32)) 32.

Definition write_end : MessageBuffer -> bool * MessageBuffer := write_bits_single rec.END 3.

Definition write_ack_record (ty object_id uniqifier : Z) : MessageBuffer -> bool * MessageBuffer :=
  write_bits_single ty 3 &&& write_bits_single object_id 13 &&& write_bits_single uniqifier 16.

Record AckRecord := { ack_ty : Z; ack_object_id : Z; ack_uniqifier : Z }.

Definition read_ack_record (ty : Z) : SM MessageBuffer AckRecord :=
  if (ty =? rec.CREATE) || (ty =? rec.SYNC) || (ty =? rec.REMOVE) then
    object_id ← read_bits_single 13;
    uniqifier ← read_bits_single 16;
    mret {| ack_ty := ty; ack_object_id := u16 object_id; ack_uniqifier := u16 uniqifier |}
  else fail_with_none.

Example inbound_create_hand_written :
  let w := write_bits_single rec.CREATE 3 &&& write_bits_single 48879 16
           &&& write_bits_single 4660 13 &&& write_bits_single 3405648436 32
           &&& write_bits_single 6 4 &&& write_bits_single 3 12
           &&& write_bits [170; 187; 204] 24 in
  let b := from_bytes (data (wr w (new 64))) in
  fst ((ty ← read_bits_single 3; read_inbound ty) b)
  = Some (InClone true 4660 48879 (Some Ped) 3405648436 [170; 187; 204]).
Proof. reflexivity. Qed.

(** ** Wire forms

    The bits each record occupies after its three-bit tag, and the invariant
    under which its fields fit their widths ([object_id] in 13 bits, or 16
    under the length hack). *)

Definition oid_ok (hack : bool) (id : Z) : Prop := is_u (effective_len_of hack 13) id.

Definition tag_bits (hack : bool) (ty : Z) : list bool := field_bits hack 3 ty.

Definition blob_ok (d : list Z) : Prop := bytes_ok d /\ Z.of_nat (length d) < 4096.

Definition blob_bits (hack : bool) (d : list Z) : list bool :=
  field_bits hack 12 (Z.of_nat (length d)) ++ bits_of_bytes d.

Record clone_ok (hack : bool) (c : OutboundClone) : Prop := {
  clone_ok_type : sync_type c = rec.CREATE \/ sync_type c = rec.SYNC;
  clone_ok_id : oid_ok hack (oc_object_id c);
  clone_ok_id16 : is_u 16 (oc_object_id c);
  clone_ok_owner : is_u 16 (owner_net_id c);
  clone_ok_token : is_u 32 (oc_creation_token c);
  clone_ok_uniq : is_u 16 (oc_uniqifier c);
  clone_ok_dep : is_u 64 (dependent_frame_index c);
  clone_ok_ts : is_u 32 (oc_timestamp c);
  clone_ok_data : blob_ok (oc_data c)
}.

(** The uniqifier on the wire: inverted on the first update of a client. *)
Definition wire_uniqifier (c : OutboundClone) : Z :=
  if first_frame_update c then not_u16 (oc_uniqifier c) else oc_uniqifier c.

(** A create of unknown type goes out as discriminant 0. *)
Definition wire_type (c : OutboundClone) : Z :=
  default 0 (entity_type_as_u8 <$> oc_entity_type c).

Definition clone_bits (hack : bool) (c : OutboundClone) : list bool :=
  field_bits hack 13 (oc_object_id c) ++ field_bits hack 16 (owner_net_id c)
  ++ (if sync_type c =? rec.CREATE
      then field_bits hack ENTITY_TYPE_BITS (wire_type c)
           ++ field_bits hack 32 (oc_creation_token c)
      else [])
  ++ field_bits hack 16 (wire_uniqifier c)
  ++ field_bits hack 32 (u32 (Z.shiftr (dependent_frame_index c) 32))
  ++ field_bits hack 32 (u32 (dependent_frame_index c))
  ++ field_bits hack 32 (oc_timestamp c) ++ blob_bits hack (oc_data c).

(** What the client sees of a clone. *)
Definition clone_view (c : OutboundClone) : DownlinkRecord :=
  let is_create := sync_type c =? rec.CREATE in
  DlClone is_create (oc_object_id c) (owner_net_id c)
    (if is_create then from_u8 (wire_type c) else None)
    (if is_create then oc_creation_token c else 0)
    (wire_uniqifier c) (dependent_frame_index c) (oc_timestamp c) (oc_data c).

Definition remove_bits (hack steal : bool) (id uniq : Z) : list bool :=
  [steal] ++ field_bits hack 13 id ++ field_bits hack 16 uniq.

Definition timestamp_bits (hack : bool) (ts : Z) : list bool :=
  field_bits hack 32 (u32 ts) ++ field_bits hack 32 (u32 (Z.shiftr ts 32)).

Definition ack_bits (hack : bool) (id uniq : Z) : list bool :=
  field_bits hack 13 id ++ field_bits hack 16 uniq.

(** *** Composition tactics *)

Lemma writes_eq hack w bs bs' : writes hack w bs' -> bs' = bs -> writes hack w bs.
Proof. by intros ? <-. Qed.

Lemma writes_nothing hack : writes hack write_nothing [].
Proof.
  intros b _ _ ?. unfold write_nothing. rewrite append_nil. split; [done|simpl; lia].
Qed.

Lemma reads_eq {A} hack (m : SM MessageBuffer A) bs a a' :
  reads hack m bs a' -> a' = a -> reads hack m bs a.
Proof. by intros ? <-. Qed.

Ltac writes_tac := repeat first
  [ eapply writes_and | apply writes_single; (lia || by compute) | apply writes_bit | apply writes_nothing ].

Lemma effective_len_ne hack n : n <> 13 -> effective_len_of hack n = n.
Proof. intros Hn%Z.eqb_neq. unfold effective_len_of. rewrite Hn. by destruct hack. Qed.

(** A read of [n] bits, [n <> 13]: its value fits [n] bits. *)
Lemma reads_single_ne hack v n : 0 <= n <= 32 -> n <> 13 -> is_u n v ->
  reads hack (read_bits_single n) (field_bits hack n v) v.
Proof. intros. apply reads_single; [done|]. by rewrite effective_len_ne. Qed.

Lemma reads_oid hack v : oid_ok hack v ->
  reads hack (read_bits_single 13) (field_bits hack 13 v) v.
Proof. intros. by apply reads_single. Qed.

Lemma is_u32_u32 z : is_u 32 (u32 z).
Proof. by apply is_u_mod. Qed.

Lemma oid_ok_u16 hack v : oid_ok hack v -> is_u 16 v.
Proof. unfold oid_ok, effective_len_of. destruct hack; simpl; [done|]. apply is_u_le. lia. Qed.

#[export] Hint Resolve is_u32_u32 : core.

Ltac reads_field :=
  first [ apply reads_oid; done | apply reads_single_ne; [lia || by compute|lia || by compute|done] | apply reads_bit ].

Ltac reads_tac := repeat first
  [ eapply reads_bind; [by reads_field|cbv beta]
  | eapply reads_bind_ret; by reads_field | apply reads_ret ].

(** A 64-bit value sent as two 32-bit words. *)
Lemma u64_words z : is_u 64 z ->
  Z.lor (u64 (Z.shiftl (u32 (Z.shiftr z 32)) 32)) (u32 z) = z.
Proof.
  intros Hz. unfold u64, u32. apply Z.bits_inj'. intros i Hi. rewrite Z.lor_spec.
  destruct (Z.ltb_spec i 32).
  - rewrite !Z.mod_pow2_bits_low, Z.shiftl_spec_low by lia. done.
  - rewrite (Z.mod_pow2_bits_high z) by lia. rewrite orb_false_r.
    destruct (Z.ltb_spec i 64).
    + rewrite Z.mod_pow2_bits_low, Z.shiftl_spec, Z.mod_pow2_bits_low, Z.shiftr_spec by lia.
      f_equal; lia.
    + rewrite Z.mod_pow2_bits_high by lia. symmetry. by apply (testbit_above 64).
Qed.

Lemma from_u8_as_u8 t : from_u8 (entity_type_as_u8 t) = Some t.
Proof. by destruct t. Qed.

Lemma wire_type_ok c : is_u 4 (wire_type c).
Proof. unfold wire_type. destruct (oc_entity_type c) as [[]|]; by compute. Qed.

Lemma wire_uniqifier_ok c : is_u 16 (oc_uniqifier c) -> is_u 16 (wire_uniqifier c).
Proof.
  unfold wire_uniqifier, not_u16. destruct (first_frame_update c); [|done]. intros H.
  apply is_u_lxor; [lia|done|by compute].
Qed.

Lemma write_remove_writes hack steal id uniq :
  writes hack (write_outbound_remove steal id uniq)
    (tag_bits hack rec.REMOVE ++ remove_bits hack steal id uniq).
Proof. eapply writes_eq; [writes_tac|]. unfold tag_bits, remove_bits. by rewrite <- !app_assoc. Qed.

Lemma write_timestamp_writes hack ts :
  writes hack (write_outbound_timestamp ts)
    (tag_bits hack rec.TIMESTAMP ++ timestamp_bits hack ts).
Proof. eapply writes_eq; [writes_tac|]. unfold tag_bits, timestamp_bits. by rewrite <- !app_assoc. Qed.

Lemma write_ack_writes hack ty id uniq :
  writes hack (write_ack_record ty id uniq) (tag_bits hack ty ++ ack_bits hack id uniq).
Proof. eapply writes_eq; [writes_tac|]. unfold tag_bits, ack_bits. by rewrite <- !app_assoc. Qed.

Lemma write_end_writes hack : writes hack write_end (tag_bits hack rec.END).
Proof. apply writes_single; lia. Qed.

Lemma writes_data hack d : bytes_ok d ->
  writes hack (if (length d =? 0)%nat then write_nothing else write_bits d (dlen d))
    (bits_of_bytes d).
Proof.
  intros Hd. destruct d as [|x d]; [apply writes_nothing|]. cbn [length Nat.eqb].
  rewrite <- get_bits_of_bytes by done. apply writes_blob; [done|lia].
Qed.

Lemma writes_if hack (c : bool) w w' bs bs' : writes hack w bs -> writes hack w' bs' ->
  writes hack (if c then w else w') (if c then bs else bs').
Proof. by destruct c. Qed.

Lemma write_clone_writes hack c : clone_ok hack c ->
  writes hack (write_outbound_clone c) (tag_bits hack (sync_type c) ++ clone_bits hack c).
Proof.
  intros Hc. eapply writes_eq.
  - unfold write_outbound_clone. repeat first [eapply writes_and | apply writes_single; (lia || by compute)].
    + eapply writes_if; cbv zeta; writes_tac.
    + rewrite (Z.mul_comm _ 8). apply writes_data, Hc.
  - unfold clone_bits, blob_bits, tag_bits, wire_uniqifier, wire_type, u32.
    rewrite (Z.mod_small (Z.of_nat _)) by (destruct (clone_ok_data _ _ Hc); lia).
    destruct (_ =? _); by rewrite <- ?app_assoc.
Qed.

(** *** The reader of each record *)

Lemma reads_blob hack d : blob_ok d ->
  reads hack (read_blob (Z.of_nat (length d))) (bits_of_bytes d) d.
Proof.
  intros [Hd _] b Hb Hh Hu. unfold read_blob. rewrite Nat2Z.id.
  destruct (Z.gtb_spec (Z.of_nat (length d)) 0).
  - rewrite (read_bits_spec _ _ _ (bits_of_bytes d)); auto.
    + rewrite put_bits_of_bytes; auto; [|by rewrite length_replicate].
      rewrite length_bits_of_bytes. f_equal. by rewrite Z.mul_comm.
    + rewrite length_bits_of_bytes. lia.
    + rewrite length_replicate. lia.
  - destruct d; [|simpl in *; lia]. simpl. by rewrite advance_0.
Qed.

Lemma reads_blob_field {A} hack d (k : list Z -> SM MessageBuffer A) bs a : blob_ok d ->
  reads hack (k d) bs a ->
  reads hack (length ← read_bits_single 12; read_blob length ≫= k) (blob_bits hack d ++ bs) a.
Proof.
  intros Hd Hk. unfold blob_bits. rewrite <- app_assoc.
  eapply reads_bind; [apply reads_single_ne; [lia|lia|]|].
  - destruct Hd. unfold is_u. lia.
  - eapply reads_bind; [by apply reads_blob|done].
Qed.

Lemma reads_remove hack steal id uniq : oid_ok hack id -> is_u 16 uniq ->
  reads hack (read_downlink rec.REMOVE) (remove_bits hack steal id uniq)
    (DlRemove steal id uniq).
Proof.
  intros Hid Hu. eapply reads_eq.
  - unfold read_downlink, remove_bits. cbn [Z.eqb orb rec.REMOVE rec.CREATE rec.SYNC Pos.eqb].
    reads_tac.
  - unfold u16. rewrite !u_id by (done || by eapply oid_ok_u16). by destruct steal.
Qed.

Lemma reads_timestamp hack ts : is_u 64 ts ->
  reads hack (read_downlink rec.TIMESTAMP) (timestamp_bits hack ts) (DlTimestamp ts).
Proof.
  intros Hts. eapply reads_eq.
  - unfold read_downlink, timestamp_bits.
    cbn [Z.eqb orb rec.REMOVE rec.CREATE rec.SYNC rec.TIMESTAMP Pos.eqb]. reads_tac.
  - by rewrite u64_words.
Qed.

Lemma reads_ack hack ty id uniq : ty = rec.CREATE \/ ty = rec.SYNC \/ ty = rec.REMOVE ->
  oid_ok hack id -> is_u 16 uniq ->
  reads hack (read_ack_record ty) (ack_bits hack id uniq)
    {| ack_ty := ty; ack_object_id := id; ack_uniqifier := uniq |}.
Proof.
  intros Hty Hid Hu. eapply reads_eq.
  - unfold read_ack_record. replace (_ || _) with true by (by destruct Hty as [->|[-> | ->]]).
    unfold ack_bits. reads_tac.
  - unfold u16. by rewrite !u_id by (done || by eapply oid_ok_u16).
Qed.

Lemma reads_clone hack c : clone_ok hack c ->
  reads hack (read_downlink (sync_type c)) (clone_bits hack c) (clone_view c).
Proof.
  intros Hc. pose proof (wire_type_ok c). pose proof (wire_uniqifier_ok c (clone_ok_uniq _ _ Hc)).
  destruct Hc as [Hty Hid Hid16 Hown Htok Hu Hdep Hts Hdata].
  unfold read_downlink, clone_bits, clone_view.
  replace (_ || _) with true by (by destruct Hty as [-> | ->]). cbv zeta.
  eapply reads_eq.
  - do 2 (eapply reads_bind; [reads_field|cbv beta]).
    eapply reads_bind with (a := (if sync_type c =? rec.CREATE then from_u8 (wire_type c) else None,
      if sync_type c =? rec.CREATE then oc_creation_token c else 0)).
    + destruct (sync_type c =? rec.CREATE); [|apply reads_ret]. eapply reads_eq; [reads_tac|].
      f_equal. f_equal. apply u_id. by eapply is_u_le; [|done].
    + cbv beta iota. do 4 (eapply reads_bind; [reads_field|cbv beta]).
      rewrite <- (app_nil_r (blob_bits hack _)).
      apply reads_blob_field; [done|]. apply reads_ret.
  - simpl. unfold u16. rewrite u64_words, !u_id by done. done.
Qed.

(** *** Inbound records: the wire form the client sends *)

Definition inbound_ty (r : InboundRecord) : Z :=
  match r with
  | InClone is_create _ _ _ _ _ => if is_create then rec.CREATE else rec.SYNC
  | InRemove _ _ => rec.REMOVE
  | InTakeover _ _ => rec.TAKEOVER
  | InTimestamp _ => rec.TIMESTAMP
  | InIndex _ => rec.INDEX
  end.

Definition inbound_bits (hack : bool) (r : InboundRecord) : list bool :=
  match r with
  | InClone is_create id uniq ty token d =>
      field_bits hack 16 uniq ++ field_bits hack 13 id
      ++ (if is_create
          then field_bits hack 32 token
               ++ field_bits hack ENTITY_TYPE_BITS (default 14 (entity_type_as_u8 <$> ty))
          else [])
      ++ blob_bits hack d
  | InRemove id uniq => field_bits hack 13 id ++ field_bits hack 16 uniq
  | InTakeover target id => field_bits hack 16 target ++ field_bits hack 13 id
  | InTimestamp v | InIndex v => field_bits hack 32 v
  end.

(** What [read_inbound] can return: the client-controlled fields are in range,
    a sync carries no type and no token. *)
Definition inbound_fields_ok (r : InboundRecord) : Prop :=
  match r with
  | InClone is_create id uniq ty token d =>
      is_u 16 id /\ is_u 16 uniq /\ is_u 32 token /\ blob_ok d /\
      (is_create = false -> ty = None /\ token = 0)
  | InRemove id uniq => is_u 16 id /\ is_u 16 uniq
  | InTakeover target id => is_u 16 target /\ is_u 16 id
  | InTimestamp v | InIndex v => is_u 32 v
  end.

Definition inbound_object_id (r : InboundRecord) : option Z :=
  match r with
  | InClone _ id _ _ _ _ | InRemove id _ | InTakeover _ id => Some id
  | _ => None
  end.

Definition inbound_ok (hack : bool) (r : InboundRecord) : Prop :=
  inbound_fields_ok r /\ from_option (oid_ok hack) True (inbound_object_id r).

Lemma wire_inbound_type ty : let w := default 14 (entity_type_as_u8 <$> ty) in
  is_u 4 w /\ from_u8 (u8 w) = ty.
Proof. destruct ty as [[]|]; by compute. Qed.

Lemma reads_inbound hack r : inbound_ok hack r ->
  reads hack (read_inbound (inbound_ty r)) (inbound_bits hack r) r.
Proof.
  intros [Hf Hid]. destruct r as [c id uniq ty token d|id uniq|target id|v|v].
  all: unfold inbound_fields_ok in Hf; simpl in Hid.
  - destruct Hf as (? & ? & ? & Hd & Hs). destruct (wire_inbound_type ty) as [Hw Hty].
    unfold read_inbound, inbound_bits. replace (_ || _) with true by (by destruct c).
    replace (inbound_ty _ =? rec.CREATE) with c by (by destruct c). cbv zeta.
    eapply reads_eq.
    + do 2 (eapply reads_bind; [reads_field|cbv beta]).
      eapply reads_bind with (a := (ty, token)).
      * destruct c; [|destruct Hs as [-> ->]; [done|]; apply reads_ret].
        eapply reads_eq; [reads_tac|]. by rewrite Hty.
      * cbv beta iota. rewrite <- (app_nil_r (blob_bits hack _)).
        apply reads_blob_field; [done|]. apply reads_ret.
    + unfold u16. by rewrite !u_id by done.
  - destruct Hf. eapply reads_eq; [cbn; reads_tac|]. unfold u16. by rewrite !u_id.
  - destruct Hf. eapply reads_eq; [cbn; reads_tac|]. unfold u16. by rewrite !u_id.
  - cbn; reads_tac.
  - cbn; reads_tac.
Qed.

(** *** Arbitrary input *)

Lemma safe_blob hack length : is_u 12 length ->
  safe hack (read_blob length) (fun d => blob_ok d).
Proof.
  intros Hl. unfold is_u in Hl. unfold read_blob. intros b Hb Hh.
  set (z := replicate (Z.to_nat length) 0). assert (Hz : Datatypes.length z = Z.to_nat length)
    by apply length_replicate.
  assert (bytes_ok z) by apply zeros_ok.
  destruct (Z.gtb_spec length 0).
  - destruct (safe_read_bits hack z (length * 8) ltac:(done) ltac:(lia) b Hb Hh) as [Hf Hp].
    destruct (read_bits z (length * 8) b) as [[[] d'] b']; simpl in *.
    + split; [done|]. intros a [= <-]. destruct (Hp d' eq_refl) as [? Hl']. split; [done|lia].
    + split; [done|]. done.
  - split; [by apply frame_refl|]. simpl. intros ? [= <-]. split; [done|lia].
Qed.

Ltac safe_field :=
  match goal with
  | |- safe _ (read_bits_single _) _ => eapply safe_single; by compute
  | |- safe _ (lift read_bit) _ => apply safe_read_bit
  | |- safe _ (read_blob _) _ => apply safe_blob; assumption
  end.

Ltac safe_tac := repeat first
  [ apply safe_if | apply safe_fail
  | eapply safe_bind; [safe_field|intros; cbv beta] ].

Lemma oid_u16 hack v : is_u (effective_len_of hack 13) v -> is_u 16 (u16 v) /\ oid_ok hack (u16 v).
Proof.
  intros Hv. split; [by apply (is_u_mod 16)|]. unfold u16. rewrite u_id; [done|].
  eapply is_u_le; [|exact Hv]. destruct hack; by compute.
Qed.

(** Safe over its frame: whatever the bytes, the record's fields are in range
    and its object id is in the range of the mode. *)
Lemma safe_inbound hack ty : safe hack (read_inbound ty) (inbound_ok hack).
Proof.
  unfold read_inbound. safe_tac.
  - destruct (ty =? rec.CREATE).
    + eapply (safe_bind _ _ _ (fun p => is_u 32 p.2)).
      * do 2 (eapply safe_bind; [safe_field|intros; cbv beta]).
        by apply safe_ret.
      * intros [] ?. safe_tac. apply safe_ret. edestruct oid_u16; [eassumption|].
        split; [|done]. split_and!; first [by apply (is_u_mod 16)|done].
    + eapply (safe_bind _ _ _ (fun p => p = (None, 0))); [by apply safe_ret|].
      intros ? ->. safe_tac. apply safe_ret. edestruct oid_u16; [eassumption|].
      split; [|done]. split_and!; first [by apply (is_u_mod 16)|done].
  - apply safe_ret. edestruct oid_u16; [eassumption|]. split; [|done]. split; by apply (is_u_mod 16).
  - apply safe_ret. edestruct oid_u16; [eassumption|]. split; [|done]. split; by apply (is_u_mod 16).
  - apply safe_ret. by split.
  - apply safe_ret. by split.
Qed.

Lemma safe_downlink hack ty : safe hack (read_downlink ty) (fun _ => True).
Proof.
  unfold read_downlink. safe_tac; try by apply safe_ret.
  eapply (safe_bind _ _ _ (fun _ => True)).
  - destruct (ty =? rec.CREATE); safe_tac; by apply safe_ret.
  - intros [] ?. safe_tac. by apply safe_ret.
Qed.

(** ** The records the server emits, as one family *)

Inductive OutRecord :=
  | ORClone (c : OutboundClone)
  | ORRemove (force_steal : bool) (object_id uniqifier : Z)
  | ORTimestamp (ts : Z).

Definition write_record (r : OutRecord) : MessageBuffer -> bool * MessageBuffer :=
  match r with
  | ORClone c => write_outbound_clone c
  | ORRemove steal id uniq => write_outbound_remove steal id uniq
  | ORTimestamp ts => write_outbound_timestamp ts
  end.

Definition record_ty (r : OutRecord) : Z :=
  match r with
  | ORClone c => sync_type c
  | ORRemove _ _ _ => rec.REMOVE
  | ORTimestamp _ => rec.TIMESTAMP
  end.

Definition record_bits (hack : bool) (r : OutRecord) : list bool :=
  match r with
  | ORClone c => clone_bits hack c
  | ORRemove steal id uniq => remove_bits hack steal id uniq
  | ORTimestamp ts => timestamp_bits hack ts
  end.

Definition record_view (r : OutRecord) : DownlinkRecord :=
  match r with
  | ORClone c => clone_view c
  | ORRemove steal id uniq => DlRemove steal id uniq
  | ORTimestamp ts => DlTimestamp ts
  end.

Definition record_ok (hack : bool) (r : OutRecord) : Prop :=
  match r with
  | ORClone c => clone_ok hack c
  | ORRemove _ id uniq => oid_ok hack id /\ is_u 16 uniq
  | ORTimestamp ts => is_u 64 ts
  end.

Lemma write_record_writes hack r : record_ok hack r ->
  writes hack (write_record r) (tag_bits hack (record_ty r) ++ record_bits hack r).
Proof.
  destruct r; intros Hr.
  - by apply write_clone_writes.
  - by apply write_remove_writes.
  - by apply write_timestamp_writes.
Qed.

Lemma record_ty_ok hack r : record_ok hack r -> is_u 3 (record_ty r).
Proof.
  intros H. unfold is_u. destruct r as [c| |]; simpl; [|done..].
  by destruct (clone_ok_type _ _ H) as [-> | ->].
Qed.

Lemma reads_record hack r : record_ok hack r ->
  reads hack (read_downlink (record_ty r)) (record_bits hack r) (record_view r).
Proof.
  destruct r; simpl; intros Hr.
  - by apply reads_clone.
  - destruct Hr. by apply reads_remove.
  - by apply reads_timestamp.
Qed.

(** What a peer runs on each record: the tag, then the body. *)
Lemma reads_tagged_record hack r : record_ok hack r ->
  reads hack (ty ← read_bits_single 3; read_downlink ty)
    (tag_bits hack (record_ty r) ++ record_bits hack r) (record_view r).
Proof.
  intros Hr. eapply reads_bind; [|by apply reads_record].
  apply reads_single_ne; [lia|lia|by eapply record_ty_ok].
Qed.

(** Widths of the records: what the packer budgets for. *)
Lemma blen_field_ne hack n v : 0 <= n -> n <> 13 -> blen (field_bits hack n v) = n.
Proof. intros. rewrite length_field_bits by done. by apply effective_len_ne. Qed.

Lemma blen_oid hack v : 13 <= blen (field_bits hack 13 v) <= 16.
Proof. rewrite length_field_bits by lia. destruct hack; by compute. Qed.

Lemma blen_clone_bits hack c :
  blen (clone_bits hack c) <= 16 + 16 + 4 + 32 + 16 + 64 + 32 + 12 + dlen (oc_data c).
Proof.
  unfold clone_bits, blob_bits, ENTITY_TYPE_BITS. pose proof (blen_oid hack (oc_object_id c)).
  set (oid := field_bits hack 13 _) in *. clearbody oid.
  destruct (_ =? _); rewrite ?length_app, ?Nat2Z.inj_add, !blen_field_ne, length_bits_of_bytes by lia.
  - lia.
  - cbn [length]. lia.
Qed.

(** ** What the clone codec guarantees *)

(** every create, sync, remove and timestamp record the server can emit,
    written at the cursor of any buffer with room for it, is read back by the
    client decoder as exactly the record's contents (a first-frame clone with
    its uniqifier inverted, a sync without type and token), the reader ending
    where the writer ended. *)
Theorem downlink_record_round_trip hack r b :
  record_ok hack r -> wf_full b -> length_hack b = hack ->
  cur_bit b + 3 + blen (record_bits hack r) <= max_bit b ->
  exists b', write_record r b = (true, b') /\
    (ty ← read_bits_single 3; read_downlink ty) (set_current_bit b' (cur_bit b))
    = (Some (record_view r), b').
Proof.
  intros Hr Hb Hh Hroom. set (bs := tag_bits hack (record_ty r) ++ record_bits hack r).
  assert (blen bs = 3 + blen (record_bits hack r)).
  { subst bs. rewrite length_app, Nat2Z.inj_add. unfold tag_bits. by rewrite blen_field_ne. }
  pose proof (write_record_writes hack r Hr) as Hw. fold bs in Hw.
  exists (append b bs). split.
  - apply Hw; [done|done|lia|lia].
  - apply (read_back hack); [done|done|lia|by apply reads_tagged_record].
Qed.

Definition sample_clone : OutboundClone := {|
  sync_type := rec.CREATE; oc_object_id := 4660; owner_net_id := 7;
  oc_entity_type := Some Ped; oc_creation_token := 3405648436; oc_uniqifier := 48879;
  dependent_frame_index := 81985529216486895; oc_timestamp := 123456;
  first_frame_update := true; oc_data := [222; 173; 190; 239] |}.

Lemma sample_clone_ok : clone_ok false sample_clone.
Proof.
  split; try by compute.
  - by left.
  - split; [repeat constructor; by compute|by compute].
Qed.

Lemma downlink_record_round_trip_witness : exists b',
  write_record (ORClone sample_clone) (new 64) = (true, b') /\
  (ty ← read_bits_single 3; read_downlink ty) (set_current_bit b' 0)
  = (Some (DlClone true 4660 7 (Some Ped) 3405648436 16656 81985529216486895 123456
             [222; 173; 190; 239]), b').
Proof.
  apply (downlink_record_round_trip false (ORClone sample_clone) (new 64)).
  - exact sample_clone_ok.
  - apply wf_full_new; lia.
  - reflexivity.
  - vm_compute; discriminate.
Defined.

(** every well-formed record a client can send is decoded to itself: after
    its tag, [read_inbound] consumes exactly the record's wire form. *)
Theorem inbound_record_decodes hack r b :
  inbound_ok hack r -> wf b -> length_hack b = hack ->
  upcoming b (tag_bits hack (inbound_ty r) ++ inbound_bits hack r) ->
  (ty ← read_bits_single 3; read_inbound ty) b
  = (Some r, advance b (3 + blen (inbound_bits hack r))).
Proof.
  intros Hr Hb Hh Hu.
  assert (reads hack (ty ← read_bits_single 3; read_inbound ty)
    (tag_bits hack (inbound_ty r) ++ inbound_bits hack r) r) as H.
  { eapply reads_bind; [|by apply reads_inbound].
    apply reads_single_ne; [lia|lia|]. destruct r as [[]| | | |]; by compute. }
  rewrite H by done. rewrite length_app, Nat2Z.inj_add. unfold tag_bits.
  by rewrite blen_field_ne.
Qed.

Lemma inbound_record_decodes_witness :
  let r := InClone true 4660 48879 (Some Ped) 3405648436 [170; 187; 204] in
  inbound_ok false r /\
  (ty ← read_bits_single 3; read_inbound ty)
    (set_current_bit (append (new 64) (tag_bits false 1 ++ inbound_bits false r)) 0)
  = (Some r, advance (set_current_bit (append (new 64)
      (tag_bits false 1 ++ inbound_bits false r)) 0) (3 + 101)).
Proof.
  intros r. assert (Hr : inbound_ok false r).
  { split; [|by compute]. split_and!; [by compute..| |done].
    split; [repeat constructor; by compute|by compute]. }
  split; [exact Hr|].
  apply (inbound_record_decodes false r); [exact Hr| |reflexivity|].
  - apply wf_set_current; [lia|]. apply wf_full_wf, wf_full_append; [apply wf_full_new; lia|].
    vm_compute; discriminate.
  - apply (upcoming_append (new 64)); [apply wf_full_new; lia|vm_compute; discriminate].
Defined.

(** decoding is memory-safe on arbitrary input: on any buffer and any tag,
    [read_inbound] leaves the bytes and the mode alone, never moves the cursor
    back, and every field of a record it returns is in range: object ids in the
    13 or 16 bits of the mode, uniqifiers and targets in 16, tokens and
    timestamps in 32, at most 4095 bytes of blob, no type or token on a sync. *)
Theorem inbound_fields_in_range ty b :
  wf b -> frame b (snd (read_inbound ty b)) /\
  (forall r, fst (read_inbound ty b) = Some r -> inbound_ok (length_hack b) r).
Proof. intros Hb. by apply safe_inbound. Qed.

Lemma inbound_fields_in_range_witness :
  frame (from_bytes [255; 255; 255; 255; 255]) (snd (read_inbound 3 (from_bytes [255; 255; 255; 255; 255]))) /\
  (forall r, fst (read_inbound 3 (from_bytes [255; 255; 255; 255; 255])) = Some r -> inbound_ok false r).
Proof.
  apply (inbound_fields_in_range 3 (from_bytes [255; 255; 255; 255; 255])).
  apply wf_full_from_bytes. repeat constructor; by compute.
Defined.
