(* ===== verification/Packet.v ===== *)
(** * Packet framing of the clone streams
    (src/crates/baston-protocol/src/rage/{packet,lz4dict}.rs)

    LZ4 as an interface to the library, the frame index, the decoders of whole
    packets and the fragmenting writer.  The writer is proved to refine an
    abstract packer over batches of records, and decoding its fragments gives
    back the records written. *)

From S2P Require Import Prelude F32 MessageBuffer Clone Udp.
#[local] Open Scope Z_scope.

(** ** LZ4

    The functions of [lz4_sys] and the shipped dictionary.  A C function that
    fills an output buffer returns its result code with the new contents of the
    buffer. *)

Class Lz4 := {
  DICT_FIVE : list Z;
  LZ4_createStreamDecode_is_null : bool;
  LZ4_setStreamDecode (dict : list Z) : Z;
  LZ4_decompress_safe_continue (dict src dst : list Z) (capacity : Z) : Z * list Z;
  LZ4_decompress_safe (src dst : list Z) (capacity : Z) : Z * list Z;
  LZ4_compressBound (n : Z) : Z;
  LZ4_compress_default (src dst : list Z) (capacity : Z) : Z * list Z
}.

(** The library's documented behaviour, as far as the code relies on it:
    results lie in the output buffer, [LZ4_compressBound] is the macro of
    [lz4.h], compressing into a buffer of that size succeeds, and
    decompressing a compressed block into a large enough buffer returns it. *)
Class Lz4Laws `{Lz4} := {
  lz4_continue_ok src dst n : bytes_ok src -> bytes_ok dst -> Z.of_nat (length dst) = n ->
    let '(len, out) := LZ4_decompress_safe_continue DICT_FIVE src dst n in
    len <= n /\ length out = length dst /\ bytes_ok out;
  lz4_safe_ok src dst n : bytes_ok src -> bytes_ok dst -> Z.of_nat (length dst) = n ->
    let '(len, out) := LZ4_decompress_safe src dst n in
    len <= n /\ length out = length dst /\ bytes_ok out;
  lz4_bound n : 0 <= n -> LZ4_compressBound n = n + n / 255 + 16;
  lz4_compress_ok src dst n : bytes_ok src -> bytes_ok dst -> Z.of_nat (length dst) = n ->
    LZ4_compressBound (Z.of_nat (length src)) <= n ->
    let '(len, out) := LZ4_compress_default src dst n in
    0 < len <= LZ4_compressBound (Z.of_nat (length src)) /\ length out = length dst /\ bytes_ok out;
  lz4_round_trip src dst n dst' n' : bytes_ok src -> bytes_ok dst -> bytes_ok dst' ->
    src <> [] -> Z.of_nat (length dst) = n -> Z.of_nat (length dst') = n' ->
    LZ4_compressBound (Z.of_nat (length src)) <= n -> Z.of_nat (length src) <= n' ->
    let '(len, out) := LZ4_compress_default src dst n in
    let '(len', out') := LZ4_decompress_safe (take (Z.to_nat len) out) dst' n' in
    len' = Z.of_nat (length src) /\ take (length src) out' = src
}.

Section Lz4dict.
Context `{Lz4}.

Definition decompress_using_dict (input : list Z) (max_out : Z) : option (list Z) :=
  let out := replicate (Z.to_nat max_out) 0 in
  if LZ4_createStreamDecode_is_null then None
  else
    let set_ok := LZ4_setStreamDecode DICT_FIVE in
    let '(len, out) :=
      if set_ok =? 0 then (-1, out)
      else LZ4_decompress_safe_continue DICT_FIVE input out max_out in
    if len <=? 0 then None else Some (take (Z.to_nat len) out).

Definition decompress_plain (input : list Z) (max_out : Z) : option (list Z) :=
  let out := replicate (Z.to_nat max_out) 0 in
  let '(len, out) := LZ4_decompress_safe input out max_out in
  if len <=? 0 then None else Some (take (Z.to_nat len) out).

Definition compress_default (input : list Z) : list Z :=
  let bound := LZ4_compressBound (Z.of_nat (length input)) in
  let out := replicate (Z.to_nat (Z.max bound 1)) 0 in
  let '(len, out) := LZ4_compress_default input out (Z.of_nat (length out)) in
  take (Z.to_nat (Z.max len 0)) out.
End Lz4dict.

(** ** Constants *)

Definition NET_CLONES : Z := hash_rage_string "netClones"%string.
Definition NET_ACKS : Z := hash_rage_string "netAcks"%string.
Definition MSG_PACKED_CLONES : Z := hash_rage_string "msgPackedClones"%string.
Definition MSG_PACKED_ACKS : Z := hash_rage_string "msgPackedAcks"%string.
Definition INBOUND_SCRATCH : Z := 16384.
Definition FLUSH_BUDGET_BYTES : Z := 1100 - 12 - 12.
Definition WORK_BUF_BYTES : Z := 16384.

(** ** The frame index *)

Record FrameIndex := { last_fragment : bool; current_fragment : Z; frame_index : Z }.

Definition to_u64 (f : FrameIndex) : Z :=
  Z.lor (Z.lor (Z.b2z (last_fragment f)) (u64 (Z.shiftl (Z.land (current_fragment f) 127) 1)))
    (u64 (Z.shiftl (Z.land (frame_index f) (Z.shiftl 1 56 - 1)) 8)).

Definition from_u64 (v : Z) : FrameIndex := {|
  last_fragment := negb (Z.land v 1 =? 0);
  current_fragment := u8 (Z.land (Z.shiftr v 1) 127);
  frame_index := Z.land (Z.shiftr v 8) (Z.shiftl 1 56 - 1) |}.

(** ** Decoding a packet *)

(** The record loop shared by the two decoders; [None] is fuel exhaustion. *)
Fixpoint decode_records {R} (read : Z -> SM MessageBuffer R) (fuel : nat)
    (buf : MessageBuffer) : option (list R) :=
  match fuel with
  | O => None
  | S fuel =>
      if is_at_end buf then Some []
      else match read_bits_single 3 buf with
           | (None, _) => Some []
           | (Some ty, buf) =>
               match read ty buf with
               | (Some r, buf) => cons r <$> decode_records read fuel buf
               | (None, _) => Some []
               end
           end
  end.

(** Fuel for the loop: every iteration consumes at least a tag. *)
Definition decode_fuel (buf : MessageBuffer) : nat := S (Z.to_nat (max_bit buf - cur_bit buf)).

Record IncomingPacket := { in_msg_type : Z; in_records : list InboundRecord }.

Record DownlinkPacket := {
  dl_msg_type : Z; dl_frame : FrameIndex; dl_records : list DownlinkRecord }.

Section Packet.
Context `{Lz4}.

Definition decode_incoming (payload : list Z) (length_hack : bool) : option IncomingPacket :=
  if (length payload <? 4)%nat then None
  else
    let msg_type := from_le_bytes (take 4 payload) in
    if negb (msg_type =? NET_CLONES) && negb (msg_type =? NET_ACKS) then None
    else
      body ← decompress_using_dict (drop 4 payload) INBOUND_SCRATCH;
      let buf := with_length_hack (from_bytes body) length_hack in
      records ← decode_records read_inbound (decode_fuel buf) buf;
      Some {| in_msg_type := msg_type; in_records := records |}.

Definition decode_downlink (packet : list Z) : option DownlinkPacket :=
  if (length packet <? 12)%nat then None
  else
    let msg_type := from_le_bytes (take 4 packet) in
    let frame := from_u64 (from_le_bytes (take 8 (drop 4 packet))) in
    body ← decompress_plain (drop 12 packet) INBOUND_SCRATCH;
    let buf := from_bytes body in
    records ← decode_records read_downlink (decode_fuel buf) buf;
    Some {| dl_msg_type := msg_type; dl_frame := frame; dl_records := records |}.

Definition pack_frame (msg_type : Z) (frame : FrameIndex) (body : list Z) : list Z :=
  let compressed := compress_default body in
  to_le_bytes 4 msg_type ++ to_le_bytes 8 (to_u64 frame) ++ compressed.
End Packet.

(** ** The fragmenting writer *)

Record PackedWriter := {
  pw_msg_type : Z;
  pw_frame_index : Z;
  pw_buf : MessageBuffer;
  pw_fragment : Z;
  pw_packets : list (list Z);
  pw_had_time : bool;
  pw_length_hack : bool
}.

Definition pw_new (msg_type frame_index : Z) (length_hack : bool) : PackedWriter := {|
  pw_msg_type := msg_type; pw_frame_index := frame_index;
  pw_buf := with_length_hack (new WORK_BUF_BYTES) length_hack;
  pw_fragment := 0; pw_packets := []; pw_had_time := false; pw_length_hack := length_hack |}.

Definition pw_set_buf (w : PackedWriter) (b : MessageBuffer) : PackedWriter := {|
  pw_msg_type := pw_msg_type w; pw_frame_index := pw_frame_index w; pw_buf := b;
  pw_fragment := pw_fragment w; pw_packets := pw_packets w; pw_had_time := pw_had_time w;
  pw_length_hack := pw_length_hack w |}.

Definition pw_set_had_time (w : PackedWriter) (v : bool) : PackedWriter := {|
  pw_msg_type := pw_msg_type w; pw_frame_index := pw_frame_index w; pw_buf := pw_buf w;
  pw_fragment := pw_fragment w; pw_packets := pw_packets w; pw_had_time := v;
  pw_length_hack := pw_length_hack w |}.

Definition div_ceil (a b : Z) : Z := (a + b - 1) / b.

Section Writer.
Context `{Lz4}.

Definition flush_fragment (self : PackedWriter) : PackedWriter :=
  let used := data_length (pw_buf self) in
  if used =? 0 then self
  else
    let buf := wr write_end (pw_buf self) in
    let used := data_length buf in
    let raw := take (Z.to_nat used) (data buf) in
    let fragment := u8 (pw_fragment self + 1) in
    let frame := {| last_fragment := false; current_fragment := Z.land fragment 127;
                    frame_index := pw_frame_index self |} in
    {| pw_msg_type := pw_msg_type self; pw_frame_index := pw_frame_index self;
       pw_buf := with_length_hack (new WORK_BUF_BYTES) (pw_length_hack self);
       pw_fragment := fragment;
       pw_packets := pw_packets self ++ [pack_frame (pw_msg_type self) frame raw];
       pw_had_time := false; pw_length_hack := pw_length_hack self |}.

Definition maybe_flush (next_bits : Z) (self : PackedWriter) : PackedWriter :=
  let projected := data_length (pw_buf self) + div_ceil next_bits 8 in
  let bound := projected + projected / 255 + 16 in
  if bound >? FLUSH_BUDGET_BYTES then flush_fragment self else self.

Definition ensure_timestamp (timestamp : Z) (self : PackedWriter) : PackedWriter :=
  if negb (pw_had_time self) then
    let self := maybe_flush (3 + 32 + 32) self in
    let self := pw_set_buf self (wr (write_outbound_timestamp timestamp) (pw_buf self)) in
    pw_set_had_time self true
  else self.

Definition write_clone (timestamp : Z) (clone : OutboundClone) (self : PackedWriter)
    : PackedWriter :=
  let self := ensure_timestamp timestamp self in
  let bits := 3 + 16 + 16 + 4 + 32 + 16 + 64 + 32 + 12
              + Z.of_nat (length (oc_data clone)) * 8 in
  let self := maybe_flush bits self in
  pw_set_buf self (wr (write_outbound_clone clone) (pw_buf self)).

Definition write_remove (force_steal : bool) (object_id uniqifier : Z) (self : PackedWriter)
    : PackedWriter :=
  let self := maybe_flush (3 + 1 + 16 + 16) self in
  pw_set_buf self (wr (write_outbound_remove force_steal object_id uniqifier) (pw_buf self)).

Definition finish (self : PackedWriter) : list (list Z) :=
  let buf := wr write_end (pw_buf self) in
  let used := data_length buf in
  let raw := take (Z.to_nat used) (data buf) in
  let fragment := u8 (pw_fragment self + 1) in
  let frame := {| last_fragment := true; current_fragment := Z.land fragment 127;
                  frame_index := pw_frame_index self |} in
  pw_packets self ++ [pack_frame (pw_msg_type self) frame raw].
End Writer.

(** A store-only instance of the interface, for concrete runs: one header byte,
    then the input. *)
Definition lz4_store (src dst : list Z) (n : Z) : Z * list Z :=
  let out := 0 :: src in
  if Z.of_nat (length out) <=? n
  then (Z.of_nat (length out), out ++ drop (length out) dst) else (0, dst).

Definition lz4_unstore (src dst : list Z) (n : Z) : Z * list Z :=
  match src with
  | [] => (-1, dst)
  | _ :: out => if Z.of_nat (length out) <=? n
                then (Z.of_nat (length out), out ++ drop (length out) dst) else (-1, dst)
  end.

#[local] Instance lz4_stored : Lz4 := {|
  DICT_FIVE := [];
  LZ4_createStreamDecode_is_null := false;
  LZ4_setStreamDecode := fun _ => 1;
  LZ4_decompress_safe_continue := fun _ => lz4_unstore;
  LZ4_decompress_safe := lz4_unstore;
  LZ4_compressBound := fun n => n + n / 255 + 16;
  LZ4_compress_default := lz4_store |}.

#[local] Instance lz4_stored_laws : Lz4Laws.
Proof.
  assert (Hun : forall src dst n, bytes_ok src -> bytes_ok dst -> Z.of_nat (length dst) = n ->
    let '(len, out) := lz4_unstore src dst n in
    len <= n /\ length out = length dst /\ bytes_ok out).
  { intros src dst n Hs Hd Hn. destruct src as [|x out]; cbn [lz4_unstore]; [by split_and!; [lia|..]|].
    apply Forall_cons in Hs as [_ Hs].
    destruct (Z.leb_spec (Z.of_nat (length out)) n); [|by split_and!; [lia|..]].
    rewrite length_app, length_drop. split_and!; [lia|lia|].
    apply Forall_app; split; [done|by apply Forall_drop]. }
  split; [exact Hun|exact Hun|done|..]; cbn [LZ4_compress_default LZ4_compressBound LZ4_decompress_safe lz4_stored].
  - intros src dst n Hs Hd Hn Hb. unfold lz4_store.
    destruct (Z.leb_spec (Z.of_nat (length (0 :: src))) n); cbn [length] in *; [|zdm].
    rewrite length_app, length_drop. cbn [length]. split_and!; [zdm|zdm|lia|].
    apply Forall_app; split; [constructor; [by apply is_u_0|done]|by apply Forall_drop].
  - intros src dst n dst' n' Hs Hd Hd' Hne Hn Hn' Hb Hl. unfold lz4_store.
    destruct (Z.leb_spec (Z.of_nat (length (0 :: src))) n); cbn [length] in *; [|zdm].
    rewrite Nat2Z.id. cbn [app take]. rewrite take_app_length. cbn [lz4_unstore].
    rewrite (proj2 (Z.leb_le _ _)) by lia. split; [done|]. by rewrite take_app_length.
Qed.

(** ** The frame index is a bit field *)

Record frame_ok (f : FrameIndex) : Prop := {
  frame_ok_fragment : is_u 7 (current_fragment f);
  frame_ok_index : is_u 56 (frame_index f)
}.

Lemma land_127 z : Z.land z 127 = z mod 2 ^ 7.
Proof. apply (Z.land_ones z 7). lia. Qed.
Lemma land_56 z : Z.land z (Z.shiftl 1 56 - 1) = z mod 2 ^ 56.
Proof. apply (Z.land_ones z 56). lia. Qed.

(** The packed word, as arithmetic. *)
Lemma to_u64_arith f :
  to_u64 f = Z.b2z (last_fragment f) + 2 * (current_fragment f mod 2 ^ 7)
             + 2 ^ 8 * (frame_index f mod 2 ^ 56).
Proof.
  unfold to_u64, u64. rewrite land_127, land_56.
  pose proof (Z.mod_pos_bound (current_fragment f) (2 ^ 7)).
  pose proof (Z.mod_pos_bound (frame_index f) (2 ^ 56)).
  rewrite (Z.shiftl_mul_pow2 _ 1), (Z.shiftl_mul_pow2 _ 8), (Z.mod_small (_ * 2 ^ 1)),
    (Z.mod_small (_ * 2 ^ 8)) by lia.
  assert (is_u 1 (Z.b2z (last_fragment f))) by (unfold is_u; destruct (last_fragment f); simpl; lia).
  rewrite <- (Z.shiftl_mul_pow2 _ 1), (lor_shiftl_add 1) by (done || lia).
  rewrite <- (Z.shiftl_mul_pow2 _ 8), (lor_shiftl_add 8) by (unfold is_u in *; lia). lia.
Qed.

Lemma from_u64_arith v : from_u64 v =
  {| last_fragment := Z.odd v; current_fragment := (v / 2) mod 2 ^ 7;
     frame_index := (v / 2 ^ 8) mod 2 ^ 56 |}.
Proof.
  unfold from_u64. rewrite b2z_land1, land_127, land_56, !Z.shiftr_div_pow2, Z.bit0_odd by lia.
  f_equal.
  - by destruct (Z.odd v).
  - unfold u8. rewrite Z.mod_small; [done|]. pose proof (Z.mod_pos_bound (v / 2 ^ 1) (2 ^ 7)). lia.
Qed.

Lemma from_to_u64 f : frame_ok f -> from_u64 (to_u64 f) = f.
Proof.
  intros [Hc Hi]. unfold is_u in *. rewrite from_u64_arith, to_u64_arith, !Z.mod_small by lia.
  destruct f as [l c i]; simpl in *. f_equal.
  - rewrite <- Z.add_assoc. replace (2 * c + 2 ^ 8 * i) with (2 * (c + 2 ^ 7 * i)) by lia.
    rewrite Z.odd_add_mul_2. by destruct l.
  - destruct l; simpl; zdm.
  - destruct l; simpl; zdm.
Qed.

Lemma to_from_u64 v : is_u 64 v -> to_u64 (from_u64 v) = v.
Proof.
  intros Hv. unfold is_u in *. rewrite from_u64_arith, to_u64_arith. simpl.
  rewrite !Zmod_mod. pose proof (Zmod_odd v) as Ho. destruct (Z.odd v); simpl; zdm.
Qed.

(** ** The record loop *)

Section DecodeLoop.
Context {W R : Type} (read : Z -> SM MessageBuffer R) (hack : bool)
  (ty : W -> Z) (bits : W -> list bool) (view : W -> R) (ok : W -> Prop).
Hypothesis ty_ok : forall w, ok w -> is_u 3 (ty w).
Hypothesis reads_body : forall w, ok w -> reads hack (read (ty w)) (bits w) (view w).
Hypothesis read_end : forall b, fst (read rec.END b) = None.

Definition batch_bits (ws : list W) : list bool := ws ≫= fun w => tag_bits hack (ty w) ++ bits w.

Lemma decode_batch ws b fuel :
  Forall ok ws -> wf b -> length_hack b = hack ->
  upcoming b (batch_bits ws ++ tag_bits hack rec.END) ->
  max_bit b - cur_bit b < Z.of_nat fuel ->
  decode_records read fuel b = Some (view <$> ws).
Proof.
  intros Hws. revert b fuel. induction Hws as [|w ws Hw _ IH]; intros b fuel Hb Hh Hu Hf.
  - simpl in Hu. assert (blen (tag_bits hack rec.END) = 3) as Hl by (by apply blen_field_ne).
    pose proof Hu as [Hr _]. rewrite Hl in Hr. pose proof (wf_cur _ Hb).
    destruct fuel as [|fuel]; [lia|]. simpl. unfold is_at_end.
    destruct (Z.geb_spec (cur_bit b) (max_bit b)); [lia|].
    rewrite (reads_single_ne hack rec.END 3 ltac:(lia) ltac:(lia) ltac:(done) b Hb Hh Hu).
    pose proof (read_end (advance b (blen (field_bits hack 3 rec.END)))) as He.
    destruct (read rec.END _) as [o ?]. simpl in He. by rewrite He.
  - unfold batch_bits in Hu. rewrite bind_cons, <- !app_assoc in Hu.
    fold (batch_bits ws) in Hu. apply upcoming_app in Hu as [Ht Hu].
    apply upcoming_app in Hu as [Hx Hu].
    assert (blen (tag_bits hack (ty w)) = 3) as Hl by (by apply blen_field_ne).
    rewrite Hl in *. pose proof Ht as [Hr _]. rewrite Hl in Hr. pose proof (wf_cur _ Hb).
    destruct fuel as [|fuel]; [lia|]. cbn [decode_records]. unfold is_at_end.
    destruct (Z.geb_spec (cur_bit b) (max_bit b)); [lia|].
    assert (Hread : read_bits_single 3 b = (Some (ty w), advance b 3)).
    { rewrite <- Hl. apply (reads_single_ne hack (ty w) 3); auto; lia. }
    rewrite Hread. rewrite (reads_body w Hw (advance b 3)); [|by apply wf_advance; [lia|]|done|done].
    rewrite IH; [done|apply wf_advance, wf_advance; [lia|lia|done]|done|done|simpl; lia].
Qed.
End DecodeLoop.

(** Fuel is enough on any input: the loop of a safe reader always ends. *)
Lemma decode_records_total {R} (read : Z -> SM MessageBuffer R) (P : R -> Prop) fuel b :
  (forall ty, safe (length_hack b) (read ty) P) -> wf b -> max_bit b - cur_bit b < Z.of_nat fuel -> 0 < Z.of_nat fuel ->
  exists rs, decode_records read fuel b = Some rs /\ Forall P rs
    /\ 3 * Z.of_nat (length rs) <= Z.max 0 (max_bit b - cur_bit b).
Proof.
  revert b. induction fuel as [|fuel IH]; intros b Hread Hb Hf Hpos; [lia|].
  cbn [decode_records]. unfold is_at_end.
  destruct (Z.geb_spec (cur_bit b) (max_bit b)); [exists []; split_and!; [done|done|simpl; lia]|].
  pose proof (effective_len_ne (length_hack b) 3 ltac:(lia)) as He.
  rewrite read_bits_single_spec; unfold effective_len; rewrite He; [|lia].
  destruct (Z.gtb_spec (cur_bit b + 3) (max_bit b)); [exists []; split_and!; [done|done|simpl; lia]|].
  assert (Hwf : wf (advance b 3)) by (by apply wf_advance; [lia|]).
  destruct (Hread (of_bits (get_bits (data b) (cur_bit b) 3)) (advance b 3) Hwf eq_refl) as [Hfr Hp].
  destruct (read _ (advance b 3)) as [[r|] b']; [|exists []; split_and!; [done|done|simpl; lia]].
  destruct Hfr as [Hwf' Hcur _ Hmax Hhack]. simpl in *.
  destruct (IH b' ltac:(by rewrite Hhack) Hwf') as (rs & -> & Hrs & Hlen); [lia|lia|].
  exists (r :: rs). split_and!; [done|constructor; [by apply Hp|done]|simpl; lia].
Qed.

Lemma decode_incoming_loop buf : wf buf ->
  exists rs, decode_records read_inbound (decode_fuel buf) buf = Some rs /\
    Forall (inbound_ok (length_hack buf)) rs /\ 3 * Z.of_nat (length rs) <= Z.max 0 (max_bit buf - cur_bit buf).
Proof.
  intros Hb. apply decode_records_total; [intros; apply safe_inbound|exact Hb|..]; unfold decode_fuel; lia.
Qed.

(** ** The abstract packer

    What the fragmenting writer promises: records are grouped into batches; a
    batch closes when the next record would push the worst-case compressed size
    past the budget; the first clone after a batch opens asks for a timestamp. *)

Definition out_bits (hack : bool) (rs : list OutRecord) : list bool :=
  batch_bits hack record_ty (record_bits hack) rs.

Record Packer := { closed : list (list OutRecord); batch : list OutRecord; timed : bool }.

Definition packer_new : Packer := {| closed := []; batch := []; timed := false |}.

Definition bytes_used (hack : bool) (rs : list OutRecord) : Z := div_ceil (blen (out_bits hack rs)) 8.

Definition over_budget (projected : Z) : bool := projected + projected / 255 + 16 >? FLUSH_BUDGET_BYTES.

Definition packer_flush (hack : bool) (next_bits : Z) (p : Packer) : Packer :=
  if over_budget (bytes_used hack (batch p) + div_ceil next_bits 8) then
    match batch p with
    | [] => p
    | rs => {| closed := closed p ++ [rs]; batch := []; timed := false |}
    end
  else p.

Definition packer_add (r : OutRecord) (t : bool) (p : Packer) : Packer :=
  {| closed := closed p; batch := batch p ++ [r]; timed := t |}.

(** The operations a caller may issue. *)
Inductive PackOp :=
  | PClone (timestamp : Z) (c : OutboundClone)
  | PRemove (force_steal : bool) (object_id uniqifier : Z).

Definition op_record (o : PackOp) : OutRecord :=
  match o with PClone _ c => ORClone c | PRemove s i u => ORRemove s i u end.

(** The worst-case width the writer budgets for each operation. *)
Definition op_budget (o : PackOp) : Z :=
  match o with
  | PClone _ c => 3 + 16 + 16 + 4 + 32 + 16 + 64 + 32 + 12 + Z.of_nat (length (oc_data c)) * 8
  | PRemove _ _ _ => 3 + 1 + 16 + 16
  end.

Definition op_ok (hack : bool) (o : PackOp) : Prop :=
  record_ok hack (op_record o) /\ match o with PClone ts _ => is_u 64 ts | _ => True end.

Definition packer_time (hack : bool) (o : PackOp) (p : Packer) : Packer :=
  match o with
  | PClone ts _ => if timed p then p else packer_add (ORTimestamp ts) true (packer_flush hack 67 p)
  | PRemove _ _ _ => p
  end.

Definition packer_op (hack : bool) (p : Packer) (o : PackOp) : Packer :=
  let p := packer_flush hack (op_budget o) (packer_time hack o p) in
  packer_add (op_record o) (timed p) p.

Definition packer_batches (hack : bool) (ops : list PackOp) : list (list OutRecord) :=
  let p := foldl (packer_op hack) packer_new ops in closed p ++ [batch p].

(** *** Its invariant *)

Definition within_budget (hack : bool) (rs : list OutRecord) : Prop :=
  (length rs <= 1)%nat \/ over_budget (bytes_used hack rs) = false.

(** A batch is well formed, leaves ample room in the work buffer, and exceeds
    the budget only when a single record does. *)
Record batch_ok (hack : bool) (rs : list OutRecord) : Prop := {
  batch_ok_records : Forall (record_ok hack) rs;
  batch_ok_room : blen (out_bits hack rs) <= 33000;
  batch_ok_budget : within_budget hack rs
}.

Record packer_ok (hack : bool) (p : Packer) : Prop := {
  packer_ok_closed : Forall (fun rs => rs <> [] /\ batch_ok hack rs) (closed p);
  packer_ok_batch : batch_ok hack (batch p)
}.

Lemma div_ceil_8 n : 0 <= n -> n <= 8 * div_ceil n 8 < n + 8.
Proof. unfold div_ceil. intros. zdm. Qed.

Lemma div_ceil_add a b : 0 <= a -> 0 <= b -> div_ceil (a + b) 8 <= div_ceil a 8 + div_ceil b 8.
Proof. unfold div_ceil. intros. zdm. Qed.

Lemma div_ceil_le a b : a <= b -> div_ceil a 8 <= div_ceil b 8.
Proof. unfold div_ceil. intros. zdm. Qed.

Lemma over_budget_mono a b : 0 <= a <= b -> over_budget b = false -> over_budget a = false.
Proof.
  unfold over_budget. rewrite !Z.gtb_ltb, !Z.ltb_ge. intros. 
  assert (a / 255 <= b / 255) by (apply Z.div_le_mono; lia). lia.
Qed.

Lemma over_budget_small n : over_budget n = false -> n <= 1060.
Proof. unfold over_budget, FLUSH_BUDGET_BYTES. rewrite Z.gtb_ltb, Z.ltb_ge. intros. zdm. Qed.

Lemma out_bits_snoc hack rs r :
  out_bits hack (rs ++ [r]) = out_bits hack rs ++ tag_bits hack (record_ty r) ++ record_bits hack r.
Proof. unfold out_bits, batch_bits. rewrite bind_app, bind_cons. simpl. by rewrite app_nil_r. Qed.

Lemma blen_batch hack rs r :
  blen (out_bits hack (rs ++ [r])) = blen (out_bits hack rs) + (3 + blen (record_bits hack r)).
Proof.
  rewrite out_bits_snoc, !length_app, !Nat2Z.inj_add. unfold tag_bits.
  rewrite blen_field_ne by lia. lia.
Qed.

Lemma bytes_used_zero hack rs : bytes_used hack rs = 0 <-> rs = [].
Proof.
  unfold bytes_used. destruct rs as [|r rs] using rev_ind; [done|].
  rewrite blen_batch. unfold div_ceil. split; intros H; [zdm|by destruct rs].
Qed.

(** Budgeted widths bound the actual ones. *)
Lemma op_budget_enough hack o : op_ok hack o ->
  3 + blen (record_bits hack (op_record o)) <= op_budget o <= 32955.
Proof.
  intros [Hok _]. destruct o as [ts c|s i u]; cbn [op_record record_bits record_ok op_budget] in *.
  - pose proof (blen_clone_bits hack c). destruct (clone_ok_data _ _ Hok). lia.
  - unfold remove_bits. rewrite !length_app, !Nat2Z.inj_add, (blen_field_ne hack 16) by lia.
    pose proof (blen_oid hack i). cbn [length]. lia.
Qed.

Lemma timestamp_width hack ts : 3 + blen (record_bits hack (ORTimestamp ts)) = 67.
Proof.
  cbn [record_bits]. unfold timestamp_bits.
  by rewrite length_app, Nat2Z.inj_add, !blen_field_ne by lia.
Qed.

Lemma batch_ok_nil hack : batch_ok hack [].
Proof. split; [done|simpl; lia|left; simpl; lia]. Qed.

Lemma packer_flush_ok hack n p : packer_ok hack p -> packer_ok hack (packer_flush hack n p).
Proof.
  intros [Hc Hb]. unfold packer_flush. destruct (over_budget _); [|by split].
  destruct (batch p) as [|r rs] eqn:E; [by split; rewrite ?E|]. split; [|apply batch_ok_nil].
  simpl. apply Forall_app; split; [done|]. by apply Forall_singleton.
Qed.

(** Adding a record after a flush for at least its width keeps the invariant. *)
Lemma packer_add_ok hack n r t p :
  packer_ok hack p -> record_ok hack r -> 3 + blen (record_bits hack r) <= n <= 32955 ->
  packer_ok hack (packer_add r t (packer_flush hack n p)).
Proof.
  intros Hp Hr Hn. pose proof (packer_flush_ok hack n p Hp) as [Hc Hb].
  split; [done|]. simpl. revert Hb.
  assert (Hcase : batch (packer_flush hack n p) = [] \/
    over_budget (bytes_used hack (batch (packer_flush hack n p)) + div_ceil n 8) = false).
  { unfold packer_flush. destruct (over_budget _) eqn:E; [|by right].
    destruct (batch p) eqn:E'; [by left; rewrite E'|by left]. }
  generalize (batch (packer_flush hack n p)) as rs, Hcase. clear -Hr Hn.
  intros rs Hcase [Hrs Hroom Hbud]. pose proof (div_ceil_8 n ltac:(lia)).
  pose proof (div_ceil_8 (blen (out_bits hack rs)) ltac:(lia)).
  assert (Hsmall : over_budget (bytes_used hack rs + div_ceil n 8) = false ->
    over_budget (bytes_used hack (rs ++ [r])) = false).
  { intros. eapply over_budget_mono; [|done]. unfold bytes_used in *. rewrite blen_batch.
    split; [unfold div_ceil; zdm|].
    etransitivity; [apply div_ceil_add; lia|]. apply Z.add_le_mono_l, div_ceil_le. lia. }
  split; [apply Forall_app; split; [done|by apply Forall_singleton]|..].
  - rewrite blen_batch. destruct Hcase as [-> |Hs%over_budget_small]; [simpl; lia|].
    unfold bytes_used in *. lia.
  - destruct Hcase as [-> |Hs]; [left; simpl; lia|right; auto].
Qed.

Lemma packer_time_ok hack o p : op_ok hack o -> packer_ok hack p -> packer_ok hack (packer_time hack o p).
Proof.
  intros [_ Ho] Hp. destruct o as [ts c|]; simpl; [|done]. destruct (timed p); [done|].
  apply packer_add_ok; [done|done|]. pose proof (timestamp_width hack ts). lia.
Qed.

Lemma packer_op_ok hack o p : op_ok hack o -> packer_ok hack p -> packer_ok hack (packer_op hack p o).
Proof.
  intros Ho Hp. apply packer_add_ok; [by apply packer_time_ok|apply Ho|by apply op_budget_enough].
Qed.

Lemma packer_run_ok hack ops : Forall (op_ok hack) ops ->
  packer_ok hack (foldl (packer_op hack) packer_new ops).
Proof.
  intros H. assert (packer_ok hack packer_new) as Hp by (split; [done|apply batch_ok_nil]).
  revert Hp. generalize packer_new. induction H; intros p Hp; simpl; [done|].
  by apply IHForall, packer_op_ok.
Qed.

(** ** The writer refines the packer *)

(** A fragment's body: the batch's records and an [END], padded to a byte. *)
Definition fresh (hack : bool) : MessageBuffer := with_length_hack (new WORK_BUF_BYTES) hack.

Definition batch_bytes (hack : bool) (rs : list OutRecord) : list Z :=
  let buf := append (fresh hack) (out_bits hack rs ++ tag_bits hack rec.END) in
  take (Z.to_nat (data_length buf)) (data buf).

Definition fragment_header (n : nat) (last : bool) (fi : Z) : FrameIndex :=
  {| last_fragment := last; current_fragment := Z.of_nat n mod 128; frame_index := fi |}.

Lemma data_length_eq b : data_length b = div_ceil (cur_bit b) 8.
Proof. unfold data_length, div_ceil. destruct (Z.eqb_spec (cur_bit b mod 8) 0); zdm. Qed.

Lemma wf_fresh hack : wf_full (fresh hack).
Proof. destruct (wf_full_new WORK_BUF_BYTES) as [[] ?]; [by compute|]. split; [by split|done]. Qed.

Lemma fresh_room hack : max_bit (fresh hack) = 131072.
Proof. reflexivity. Qed.

Lemma fresh_cur hack : cur_bit (fresh hack) = 0.
Proof. reflexivity. Qed.

#[local] Opaque new WORK_BUF_BYTES.

Lemma wr_append hack w bs cs : writes hack w cs -> blen bs + blen cs <= 131072 ->
  wr w (append (fresh hack) bs) = append (fresh hack) (bs ++ cs).
Proof.
  intros Hw Hr. pose proof (fresh_room hack). pose proof (fresh_cur hack).
  unfold wr. destruct (Hw (append (fresh hack) bs)) as [Ht _].
  - apply wf_full_append; [apply wf_fresh|lia].
  - done.
  - cbn [append advance set_current_bit with_data cur_bit max_bit]. lia.
  - rewrite Ht; [by rewrite append_append|].
    cbn [append advance set_current_bit with_data cur_bit max_bit]. lia.
Qed.

Section Refinement.
Context `{Lz4} (mt fi : Z) (hack : bool).

Definition fragment_packet (n : nat) (last : bool) (rs : list OutRecord) : list Z :=
  pack_frame mt (fragment_header n last fi) (batch_bytes hack rs).

Definition closed_packets (bs : list (list OutRecord)) : list (list Z) :=
  imap (fun i rs => fragment_packet (S i) false rs) bs.

Record represents (w : PackedWriter) (p : Packer) : Prop := {
  rep_type : pw_msg_type w = mt;
  rep_index : pw_frame_index w = fi;
  rep_buf : pw_buf w = append (fresh hack) (out_bits hack (batch p));
  rep_fragment : pw_fragment w = u8 (Z.of_nat (length (closed p)));
  rep_packets : pw_packets w = closed_packets (closed p);
  rep_time : pw_had_time w = timed p;
  rep_hack : pw_length_hack w = hack
}.

Lemma represents_new : represents (pw_new mt fi hack) packer_new.
Proof. by split. Qed.

Lemma rep_used w p : represents w p -> data_length (pw_buf w) = bytes_used hack (batch p).
Proof. intros []. rewrite rep_buf0, data_length_eq. cbn [append advance set_current_bit with_data cur_bit]. by rewrite fresh_cur. Qed.

Lemma next_fragment k : Z.land (u8 (u8 (Z.of_nat k) + 1)) 127 = Z.of_nat (S k) mod 128.
Proof. rewrite land_127. unfold u8. zdm. Qed.

Lemma maybe_flush_represents w p n : packer_ok hack p -> represents w p ->
  represents (maybe_flush n w) (packer_flush hack n p).
Proof.
  intros Hp Hw. unfold maybe_flush, packer_flush. rewrite (rep_used w p Hw).
  fold (over_budget (bytes_used hack (batch p) + div_ceil n 8)).
  change (_ >? FLUSH_BUDGET_BYTES) with (over_budget (bytes_used hack (batch p) + div_ceil n 8)).
  destruct (over_budget _); [|done]. unfold flush_fragment. rewrite (rep_used w p Hw).
  destruct (Z.eqb_spec (bytes_used hack (batch p)) 0) as [E|E].
  { apply bytes_used_zero in E. by rewrite E. }
  rewrite bytes_used_zero in E. destruct (batch p) as [|r rs] eqn:Ep; [done|].
  destruct Hw as [Ht Hi Hbuf Hfrag Hpk Htime Hhack]. rewrite Ht, Hi, Hbuf, Hfrag, Hpk, Hhack, Ep.
  destruct Hp as [_ [_ Hroom _]]. rewrite Ep in Hroom.
  rewrite (wr_append hack write_end _ (tag_bits hack rec.END))
    by (apply write_end_writes || (unfold tag_bits; rewrite blen_field_ne by lia; lia)).
  split; cbn [pw_msg_type pw_frame_index pw_buf pw_fragment pw_packets pw_had_time pw_length_hack
              closed batch timed]; try done.
  - rewrite length_app. cbn [length]. unfold u8. zdm.
  - unfold closed_packets. rewrite imap_app. f_equal. cbn [imap]. f_equal.
    unfold fragment_packet, fragment_header. rewrite next_fragment. by rewrite Nat.add_0_r.
Qed.

Lemma add_represents w p r t : packer_ok hack (packer_add r t p) -> record_ok hack r ->
  represents w p ->
  represents (pw_set_had_time (pw_set_buf w (wr (write_record r) (pw_buf w))) t) (packer_add r t p).
Proof.
  intros [_ [_ Hroom _]] Hr []. cbn [packer_add batch] in Hroom.
  split; try done. cbn [pw_set_had_time pw_set_buf pw_buf packer_add batch].
  rewrite rep_buf0, out_bits_snoc. apply wr_append; [by apply write_record_writes|].
  rewrite out_bits_snoc, length_app in Hroom. lia.
Qed.

Lemma set_had_time_id w : pw_set_had_time w (pw_had_time w) = w.
Proof. by destruct w. Qed.

Lemma ensure_timestamp_represents w p ts c : op_ok hack (PClone ts c) ->
  packer_ok hack p -> represents w p ->
  represents (ensure_timestamp ts w) (packer_time hack (PClone ts c) p).
Proof.
  intros Ho Hp Hw. unfold ensure_timestamp, packer_time. rewrite (rep_time _ _ Hw).
  destruct (timed p) eqn:E; [done|]. cbn [negb].
  apply (add_represents _ _ (ORTimestamp ts)); [|apply Ho|by apply maybe_flush_represents].
  pose proof (packer_time_ok hack (PClone ts c) p Ho Hp) as Hok. unfold packer_time in Hok.
  by rewrite E in Hok.
Qed.

Definition run_op (w : PackedWriter) (o : PackOp) : PackedWriter :=
  match o with
  | PClone ts c => write_clone ts c w
  | PRemove s i u => write_remove s i u w
  end.

Lemma run_op_represents w p o : op_ok hack o -> packer_ok hack p -> represents w p ->
  represents (run_op w o) (packer_op hack p o).
Proof.
  intros Ho Hp Hw. pose proof (packer_time_ok hack o p Ho Hp) as Hpt.
  pose proof (packer_op_ok hack o p Ho Hp) as Hpo.
  assert (Hwt : exists w', represents w' (packer_time hack o p) /\
    run_op w o = let w' := maybe_flush (op_budget o) w' in
                 pw_set_buf w' (wr (write_record (op_record o)) (pw_buf w'))).
  { destruct o as [ts c|s i u]; [|by exists w]. exists (ensure_timestamp ts w).
    by split; [apply ensure_timestamp_represents|]. }
  destruct Hwt as (w' & Hw' & ->). cbv zeta. unfold packer_op in *.
  set (p' := packer_flush hack (op_budget o) (packer_time hack o p)) in *.
  assert (Hf : represents (maybe_flush (op_budget o) w') p') by (by apply maybe_flush_represents).
  rewrite <- (set_had_time_id (pw_set_buf _ _)). cbn [pw_set_buf pw_had_time].
  rewrite (rep_time _ _ Hf). apply add_represents; [done|apply Ho|done].
Qed.

Lemma run_represents ops : Forall (op_ok hack) ops ->
  represents (foldl run_op (pw_new mt fi hack) ops) (foldl (packer_op hack) packer_new ops).
Proof.
  intros Hops. assert (Hp : packer_ok hack packer_new) by (by apply (packer_run_ok hack [])).
  pose proof represents_new as Hw. revert Hp Hw. generalize packer_new, (pw_new mt fi hack).
  induction Hops as [|o ops Ho _ IH]; intros p w Hp Hw; simpl; [done|].
  apply IH; [by apply packer_op_ok|by apply run_op_represents].
Qed.

(** [finish] emits every batch, numbered from 1, only the last one flagged. *)
Lemma finish_represents w p : packer_ok hack p -> represents w p ->
  finish w = closed_packets (closed p) ++ [fragment_packet (S (length (closed p))) true (batch p)].
Proof.
  intros [_ [_ Hroom _]] [Ht Hi Hbuf Hfrag Hpk Htime Hhack]. unfold finish.
  rewrite Ht, Hi, Hbuf, Hfrag, Hpk.
  rewrite (wr_append hack write_end _ (tag_bits hack rec.END))
    by (apply write_end_writes || (unfold tag_bits; rewrite blen_field_ne by lia; lia)).
  unfold fragment_packet, fragment_header. by rewrite next_fragment.
Qed.
End Refinement.

(** ** Decoding what was packed *)

Section Bytes.
Variables (hack : bool) (rs : list OutRecord).
Hypothesis Hrs : batch_ok hack rs.

Let bits := out_bits hack rs ++ tag_bits hack rec.END.

Lemma blen_body : 3 <= blen bits <= 33003.
Proof.
  unfold bits. rewrite length_app, Nat2Z.inj_add. unfold tag_bits.
  rewrite blen_field_ne by lia. pose proof (batch_ok_room _ _ Hrs). lia.
Qed.

Lemma batch_bytes_written : let d := batch_bytes hack rs in
  bytes_ok d /\ Z.of_nat (length d) = div_ceil (blen bits) 8 /\ upcoming (from_bytes d) bits.
Proof.
  pose proof blen_body as Hb. pose proof (fresh_room hack).
  assert (div_ceil (blen bits) 8 = (blen bits + 7) / 8) as ->
    by (unfold div_ceil; by rewrite <- Z.add_sub_assoc).
  apply (written_append (fresh hack) bits (wf_fresh hack)); [done|fold bits in Hb; lia].
Qed.
End Bytes.

Section Decoding.
Context `{Lz4Laws}.

Lemma decompress_of_compress body : bytes_ok body -> body <> [] ->
  Z.of_nat (length body) <= INBOUND_SCRATCH ->
  decompress_plain (compress_default body) INBOUND_SCRATCH = Some body.
Proof.
  intros Hb Hne Hl. unfold compress_default, decompress_plain.
  set (dst := replicate _ 0). set (dst' := replicate (Z.to_nat INBOUND_SCRATCH) 0).
  pose proof (lz4_bound (Z.of_nat (length body)) ltac:(lia)) as Hbound.
  assert (Hdst : Z.of_nat (length dst) = LZ4_compressBound (Z.of_nat (length body)))
    by (subst dst; rewrite length_replicate; zdm).
  assert (Hdst' : Z.of_nat (length dst') = INBOUND_SCRATCH)
    by (subst dst'; by rewrite length_replicate).
  assert (bytes_ok dst) by apply zeros_ok. assert (bytes_ok dst') by apply zeros_ok.
  pose proof (lz4_compress_ok body dst _ Hb (zeros_ok _) eq_refl) as Hc.
  specialize (Hc ltac:(lia)).
  pose proof (lz4_round_trip body dst _ dst' _ Hb (zeros_ok _) (zeros_ok _) Hne eq_refl Hdst')
    as Hr.
  specialize (Hr ltac:(lia) Hl).
  destruct (LZ4_compress_default _ _ _) as [len out]. destruct Hc as (Hlen & _).
  rewrite Z.max_l by lia. destruct (LZ4_decompress_safe _ _ _) as [len' out'].
  destruct Hr as [-> Hout]. destruct (Z.leb_spec (Z.of_nat (length body)) 0).
  - exfalso. apply Hne, nil_length_inv. lia.
  - by rewrite Nat2Z.id, Hout.
Qed.

Lemma length_compress_default body : bytes_ok body ->
  Z.of_nat (length (compress_default body)) <= Z.of_nat (length body) + Z.of_nat (length body) / 255 + 16.
Proof.
  intros Hb. unfold compress_default. set (dst := replicate _ 0).
  pose proof (lz4_bound (Z.of_nat (length body)) ltac:(lia)) as Hbound.
  assert (Hdst : Z.of_nat (length dst) = LZ4_compressBound (Z.of_nat (length body)))
    by (subst dst; rewrite length_replicate; zdm).
  pose proof (lz4_compress_ok body dst _ Hb (zeros_ok _) eq_refl) as Hc.
  specialize (Hc ltac:(lia)).
  destruct (LZ4_compress_default _ _ _) as [len out]. destruct Hc as (Hlen & _).
  rewrite length_take. lia.
Qed.

(** What comes out of the dictionary decoder is bytes, at most [max_out]. *)
Lemma decompress_dict_ok input n out : 0 <= n -> bytes_ok input ->
  decompress_using_dict input n = Some out -> bytes_ok out /\ Z.of_nat (length out) <= n.
Proof.
  intros Hn Hi. unfold decompress_using_dict. destruct LZ4_createStreamDecode_is_null; [done|].
  destruct (_ =? 0); [done|].
  pose proof (lz4_continue_ok input (replicate (Z.to_nat n) 0) n Hi (zeros_ok _)) as Hc.
  rewrite length_replicate in Hc. specialize (Hc ltac:(lia)).
  destruct (LZ4_decompress_safe_continue _ _ _ _) as [len out']. destruct Hc as (? & ? & ?).
  destruct (Z.leb_spec len 0); [done|]. intros [= <-]. rewrite length_take.
  split; [by apply Forall_take|lia].
Qed.

Lemma to_u64_u64 f : frame_ok f -> is_u 64 (to_u64 f).
Proof.
  intros [Hc Hi]. unfold is_u in *. rewrite to_u64_arith, !Z.mod_small by lia.
  destruct (last_fragment f); simpl; lia.
Qed.

(** A client's reader, in either id mode: the layout of [decode_downlink] with
    the ids as long as the writer's mode makes them. *)
Definition client_decode (hack : bool) (packet : list Z) : option DownlinkPacket :=
  if (length packet <? 12)%nat then None
  else
    let msg_type := from_le_bytes (take 4 packet) in
    let frame := from_u64 (from_le_bytes (take 8 (drop 4 packet))) in
    body ← decompress_plain (drop 12 packet) INBOUND_SCRATCH;
    let buf := with_length_hack (from_bytes body) hack in
    records ← decode_records read_downlink (decode_fuel buf) buf;
    Some {| dl_msg_type := msg_type; dl_frame := frame; dl_records := records |}.

(** [decode_downlink] is the client of the 13-bit mode. *)
Lemma downlink_is_client packet : decode_downlink packet = client_decode false packet.
Proof. reflexivity. Qed.

Lemma decode_fragment mt fi hack n last rs :
  is_u 32 mt -> is_u 56 fi -> batch_ok hack rs ->
  client_decode hack (fragment_packet mt fi hack n last rs) =
  Some {| dl_msg_type := mt; dl_frame := fragment_header n last fi;
          dl_records := record_view <$> rs |}.
Proof.
  intros Hmt Hfi Hrs. assert (Hf : frame_ok (fragment_header n last fi)).
  { split; [apply (Z.mod_pos_bound _ 128); lia|done]. }
  pose proof (batch_bytes_written hack rs Hrs) as (Hok & Hl & Hup). pose proof (blen_body hack rs Hrs) as Hbl.
  pose proof (div_ceil_8 _ (Nat2Z.is_nonneg (length (out_bits hack rs ++ tag_bits hack rec.END)))).
  unfold client_decode, fragment_packet, pack_frame.
  rewrite !length_app, !length_to_le_bytes. cbn [Nat.add Nat.ltb Nat.leb].
  rewrite (app_assoc (to_le_bytes 4 _)), (drop_app_length' _ _ 12)
    by (by rewrite length_app, !length_to_le_bytes). rewrite <- app_assoc.
  rewrite take_le_bytes, drop_le_bytes, take_le_bytes, !from_to_le_bytes_id
    by (done || by apply to_u64_u64).
  rewrite decompress_of_compress; [| |by intros E; rewrite E in Hl; simpl in Hl; lia|unfold INBOUND_SCRATCH; lia].
  2: { exact Hok. }
  cbn [mbind option_bind]. rewrite from_to_u64 by done.
  rewrite (decode_batch read_downlink hack record_ty (record_bits hack) record_view
    (record_ok hack) (record_ty_ok hack) (reads_record hack)) with (ws := rs).
  - done.
  - intros b. done.
  - apply Hrs.
  - by destruct (wf_full_wf _ (wf_full_from_bytes _ Hok)) as [? ? ?].
  - done.
  - exact Hup.
  - unfold decode_fuel. lia.
Qed.
End Decoding.

(** *** The records survive in order *)

Definition is_timestamp (r : OutRecord) : bool := match r with ORTimestamp _ => true | _ => false end.
Definition op_timestamp (o : PackOp) : option Z := match o with PClone ts _ => Some ts | _ => None end.

Definition packer_content (p : Packer) : list OutRecord := concat (closed p) ++ batch p.

Lemma packer_flush_content hack n p : packer_content (packer_flush hack n p) = packer_content p.
Proof.
  unfold packer_flush, packer_content. destruct (over_budget _); [|done].
  destruct (batch p) as [|r rs] eqn:E; [by rewrite E|]. simpl.
  rewrite concat_app. simpl. by rewrite !app_nil_r.
Qed.

Lemma packer_add_content r t p : packer_content (packer_add r t p) = packer_content p ++ [r].
Proof. unfold packer_add, packer_content. cbn [closed batch]. by rewrite app_assoc. Qed.

Lemma packer_op_content hack p o :
  exists ts, packer_content (packer_op hack p o) = packer_content p ++ ts ++ [op_record o] /\
    Forall (fun r => exists t, r = ORTimestamp t /\ op_timestamp o = Some t) ts.
Proof.
  assert (Ht : exists ts, packer_content (packer_time hack o p) = packer_content p ++ ts /\
    Forall (fun r => exists t, r = ORTimestamp t /\ op_timestamp o = Some t) ts).
  { destruct o as [t c|]; simpl; [destruct (timed p)|].
    - exists []. by rewrite app_nil_r.
    - exists [ORTimestamp t]. split; [|repeat constructor; by exists t].
      by rewrite packer_add_content, packer_flush_content.
    - exists []. by rewrite app_nil_r. }
  destruct Ht as (ts & Hts & Hall). exists ts. split; [|done]. unfold packer_op.
  by rewrite packer_add_content, packer_flush_content, Hts, app_assoc.
Qed.

Lemma packer_run_content hack ops :
  filter (fun r => is_timestamp r = false) (concat (packer_batches hack ops)) = op_record <$> ops.
Proof.
  unfold packer_batches. rewrite concat_app. simpl. rewrite app_nil_r.
  fold (packer_content (foldl (packer_op hack) packer_new ops)).
  induction ops as [|o ops IH] using rev_ind; [done|].
  rewrite foldl_app. simpl. destruct (packer_op_content hack (foldl (packer_op hack) packer_new ops) o)
    as (ts & -> & Hts).
  rewrite filter_app, IH, fmap_app, filter_app. f_equal.
  assert (filter (fun r => is_timestamp r = false) ts = []) as ->.
  { induction Hts as [|r ts (t & -> & _) _ IHt]; [done|]. by rewrite filter_cons_False. }
  simpl. by rewrite filter_cons_True by (by destruct o).
Qed.

(** *** Every packet respects the budget, or carries a single record *)

Lemma batch_bytes_bound hack rs : batch_ok hack rs ->
  Z.of_nat (length (batch_bytes hack rs)) <= bytes_used hack rs + 1.
Proof.
  intros Hrs. destruct (batch_bytes_written hack rs Hrs) as (_ & -> & _). unfold bytes_used.
  rewrite length_app, Nat2Z.inj_add. unfold tag_bits. rewrite blen_field_ne by lia.
  unfold div_ceil. zdm.
Qed.

Lemma fragment_size `{Lz4Laws} mt fi hack n last rs : batch_ok hack rs ->
  Z.of_nat (length (fragment_packet mt fi hack n last rs)) <= 1090 \/ (length rs <= 1)%nat.
Proof.
  intros Hrs. destruct (batch_ok_budget _ _ Hrs) as [?|Hb]; [by right|left].
  unfold fragment_packet, pack_frame. rewrite !length_app, !length_to_le_bytes.
  destruct (batch_bytes_written hack rs Hrs) as (Hok & _).
  pose proof (length_compress_default (batch_bytes hack rs) Hok).
  pose proof (batch_bytes_bound hack rs Hrs).
  unfold over_budget, FLUSH_BUDGET_BYTES in Hb. rewrite Z.gtb_ltb, Z.ltb_ge in Hb. zdm.
Qed.

Lemma packer_batches_ok hack ops : Forall (op_ok hack) ops ->
  Forall (batch_ok hack) (packer_batches hack ops).
Proof.
  intros H. destruct (packer_run_ok hack ops H) as [Hc Hb]. apply Forall_app. split.
  - eapply Forall_impl; [exact Hc|]. by intros ? [].
  - by apply Forall_singleton.
Qed.

(** The whole outgoing stream: every batch as a fragment, the last flagged. *)
Definition stream_packets `{Lz4} (mt fi : Z) (hack : bool) (batches : list (list OutRecord))
    : list (list Z) :=
  imap (fun i rs => fragment_packet mt fi hack (S i) (S i =? length batches)%nat rs) batches.

Lemma finish_stream `{Lz4} mt fi hack ops : Forall (op_ok hack) ops ->
  finish (foldl run_op (pw_new mt fi hack) ops) = stream_packets mt fi hack (packer_batches hack ops).
Proof.
  intros Hops. rewrite (finish_represents mt fi hack _ _ (packer_run_ok hack ops Hops)
    (run_represents mt fi hack ops Hops)).
  unfold stream_packets, packer_batches, closed_packets.
  set (p := foldl (packer_op hack) packer_new ops).
  rewrite imap_app, length_app. f_equal.
  - apply imap_ext. intros i rs Hi. apply lookup_lt_Some in Hi.
    cbn beta. rewrite (proj2 (Nat.eqb_neq (S i) _)); [done|cbn [length]; lia].
  - cbn [imap length]. rewrite Nat.add_0_r. f_equal.
    by rewrite (proj2 (Nat.eqb_eq (S (length (closed p))) _)) by lia.
Qed.

(** ** What the packet layer guarantees *)

(** the frame index is a lossless bit field: every index with a 7-bit
    fragment and a 56-bit frame number survives [to_u64] then [from_u64], and
    every [u64] survives the converse. *)
Theorem frame_index_round_trip :
  (forall f, is_u 7 (current_fragment f) -> is_u 56 (frame_index f) -> from_u64 (to_u64 f) = f) /\
  (forall v, is_u 64 v -> to_u64 (from_u64 v) = v).
Proof. split; intros; [by apply from_to_u64|by apply to_from_u64]. Qed.

Definition downlink_of (mt fi : Z) (n total : nat) (rs : list OutRecord) : DownlinkPacket :=
  {| dl_msg_type := mt; dl_frame := fragment_header n (n =? total)%nat fi;
     dl_records := record_view <$> rs |}.

Lemma packed_stream_decodes `{Lz4Laws} mt fi hack ops :
  is_u 32 mt -> is_u 56 fi -> Forall (op_ok hack) ops ->
  exists batches,
    client_decode hack <$> finish (foldl run_op (pw_new mt fi hack) ops)
    = imap (fun i rs => Some (downlink_of mt fi (S i) (length batches) rs)) batches /\
    filter (fun r => is_timestamp r = false) (concat batches) = op_record <$> ops.
Proof.
  intros Hmt Hfi Hops. exists (packer_batches hack ops).
  split; [|apply packer_run_content]. rewrite finish_stream by done.
  pose proof (packer_batches_ok hack ops Hops) as Hok. unfold stream_packets.
  set (batches := packer_batches hack ops) in *. rewrite fmap_imap. apply imap_ext.
  intros i rs Hi. cbn. rewrite decode_fragment; [done|done|done|].
  by eapply Forall_lookup_1.
Qed.

(** C11: in either id mode, the fragments the writer produces for any sequence of
    clone and removal writes are read back one by one by a client of that mode
    ([client_decode]; in the 13-bit mode that is [decode_downlink]); they carry
    the message type and the frame index, are numbered from 1 (modulo 128) and
    only the last is flagged; concatenated, and timestamps aside, their records
    are exactly the writes, in order, none lost and none duplicated at a
    fragment boundary. *)
Theorem packed_stream_round_trip `{Lz4Laws} mt fi hack ops :
  is_u 32 mt -> is_u 56 fi -> Forall (op_ok hack) ops ->
  exists batches,
    client_decode hack <$> finish (foldl run_op (pw_new mt fi hack) ops)
    = imap (fun i rs => Some (downlink_of mt fi (S i) (length batches) rs)) batches /\
    (hack = false -> decode_downlink <$> finish (foldl run_op (pw_new mt fi hack) ops)
       = imap (fun i rs => Some (downlink_of mt fi (S i) (length batches) rs)) batches) /\
    filter (fun r => is_timestamp r = false) (concat batches) = op_record <$> ops.
Proof.
  intros Hmt Hfi Hops. destruct (packed_stream_decodes mt fi hack ops Hmt Hfi Hops) as (bs & H1 & H2).
  exists bs. split; [done|split; [|done]]. by intros ->.
Qed.

Definition two_ops : list PackOp := [PClone 123 sample_clone; PRemove true 5 9].

Lemma two_ops_ok : Forall (op_ok false) two_ops.
Proof.
  repeat apply Forall_cons_2; [split; [exact sample_clone_ok|by compute]| |done].
  split; [split; by compute|done].
Qed.

(** An entity whose id takes more than 13 bits. *)
Definition long_ops : list PackOp :=
  [PClone 123 {| sync_type := rec.CREATE; oc_object_id := 46600; owner_net_id := 7;
     oc_entity_type := Some Ped; oc_creation_token := 3405648436; oc_uniqifier := 48879;
     dependent_frame_index := 5; oc_timestamp := 123456; first_frame_update := true; oc_data := [222; 173] |};
   PRemove true 65000 9].

Lemma long_ops_ok : Forall (op_ok true) long_ops.
Proof.
  repeat apply Forall_cons_2; [split; [|by compute]| |done].
  - split; [by left|by compute..|]. split; [repeat constructor; by compute|by compute].
  - split; [split; by compute|done].
Qed.

Lemma packed_stream_round_trip_witness :
  (exists batches, decode_downlink <$> finish (foldl run_op (pw_new MSG_PACKED_CLONES 77 false) two_ops)
    = imap (fun i rs => Some (downlink_of MSG_PACKED_CLONES 77 (S i) (length batches) rs)) batches /\
    filter (fun r => is_timestamp r = false) (concat batches) = op_record <$> two_ops) /\
  (exists batches, client_decode true <$> finish (foldl run_op (pw_new MSG_PACKED_CLONES 77 true) long_ops)
    = imap (fun i rs => Some (downlink_of MSG_PACKED_CLONES 77 (S i) (length batches) rs)) batches /\
    filter (fun r => is_timestamp r = false) (concat batches) = op_record <$> long_ops).
Proof.
  split.
  - destruct (packed_stream_round_trip MSG_PACKED_CLONES 77 false two_ops) as (bs & _ & H1 & H2);
      [by compute|by compute|exact two_ops_ok|exists bs; split; [by apply H1|exact H2]].
  - destruct (packed_stream_round_trip MSG_PACKED_CLONES 77 true long_ops) as (bs & H1 & _ & H2);
      [by compute|by compute|exact long_ops_ok|exists bs; split; [exact H1|exact H2]].
Defined.

(** In the 16-bit mode [decode_downlink] does not read its writer: a removal of
    entity 5 under uniqifier 9 comes out as one of entity 0 under 40961. *)
Example downlink_misreads_long_ids :
  let ops := [PRemove false 5 9] in
  ((fun o => dl_records <$> o) <$> (@decode_downlink lz4_stored <$> finish (foldl run_op (pw_new MSG_PACKED_CLONES 77 true) ops)),
   (fun o => dl_records <$> o) <$> (@client_decode lz4_stored true <$> finish (foldl run_op (pw_new MSG_PACKED_CLONES 77 true) ops)))
  = ([Some [DlRemove false 0 40961]], [Some [DlRemove false 5 9]]).
Proof. vm_compute. reflexivity. Qed.

(** a fragment is at most 1090 bytes on the wire (so below the 1100-byte
    budget with its header), unless it holds a single record too large to
    split. *)
Theorem packed_fragment_size `{Lz4Laws} mt fi hack ops :
  Forall (op_ok hack) ops ->
  Forall (fun packet => Z.of_nat (length packet) <= 1090 \/
    exists n last rs, packet = fragment_packet mt fi hack n last rs /\ (length rs <= 1)%nat)
    (finish (foldl run_op (pw_new mt fi hack) ops)).
Proof.
  intros Hops. rewrite finish_stream by done. unfold stream_packets. apply Forall_forall.
  intros packet (i & rs & -> & Hi)%elem_of_lookup_imap_1.
  pose proof (packer_batches_ok hack ops Hops) as Hok.
  destruct (fragment_size mt fi hack (S i) (S i =? length (packer_batches hack ops))%nat rs);
    [by eapply Forall_lookup_1|by left|right; eauto].
Qed.

Lemma packed_fragment_size_witness :
  Forall (fun packet => Z.of_nat (length packet) <= 1090 \/
    exists n last rs, packet = fragment_packet 1 77 false n last rs /\ (length rs <= 1)%nat)
    (finish (foldl run_op (pw_new 1 77 false) two_ops)).
Proof. apply (packed_fragment_size 1 77 false two_ops two_ops_ok). Defined.

(** an uploaded packet whose body decompresses to well-formed records
    followed by [END] is decoded to exactly those records, in either
    length-hack mode. *)
Theorem decode_incoming_records `{Lz4} hack ty body bytes rs :
  ty = NET_CLONES \/ ty = NET_ACKS ->
  decompress_using_dict body INBOUND_SCRATCH = Some bytes -> bytes_ok bytes ->
  Forall (inbound_ok hack) rs ->
  upcoming (with_length_hack (from_bytes bytes) hack)
    (batch_bits hack inbound_ty (inbound_bits hack) rs ++ tag_bits hack rec.END) ->
  decode_incoming (to_le_bytes 4 ty ++ body) hack
  = Some {| in_msg_type := ty; in_records := rs |}.
Proof.
  intros Hty Hdec Hb Hrs Hu. unfold decode_incoming.
  rewrite length_app, length_to_le_bytes. cbn [Nat.add Nat.ltb Nat.leb].
  rewrite take_le_bytes, drop_le_bytes, from_to_le_bytes_id
    by (destruct Hty as [-> | ->]; apply hash_rage_string_u32).
  replace (negb _ && negb _) with false
    by (destruct Hty as [-> | ->]; by rewrite Z.eqb_refl, ?andb_false_r).
  rewrite Hdec. cbn [mbind option_bind]. pose proof (wf_full_wf _ (wf_full_from_bytes _ Hb)) as [].
  rewrite (decode_batch read_inbound hack inbound_ty (inbound_bits hack) id (inbound_ok hack))
    with (ws := rs); [by rewrite list_fmap_id|..]; try done.
  - intros r _. unfold is_u. by destruct r as [[]| | | |].
  - intros r Hr. by apply reads_inbound.
  - unfold decode_fuel. lia.
Qed.

Definition sample_inbound : list InboundRecord :=
  [InTimestamp 99; InClone false 12 34 None 0 [1; 2; 3]; InRemove 5 6; InTakeover 2 7; InIndex 4].

Lemma sample_inbound_ok : Forall (inbound_ok true) sample_inbound.
Proof.
  assert (blob_ok [1; 2; 3]).
  { split; [|by compute]. apply (bool_decide_eq_true_1 (bytes_ok [1; 2; 3])). by vm_compute. }
  repeat apply Forall_cons_2; [..|done]; (split; [|by compute]).
  all: cbn [inbound_fields_ok]; split_and?; done.
Qed.

Definition sample_body : list Z :=
  take 40 (data (append (fresh true)
    (batch_bits true inbound_ty (inbound_bits true) sample_inbound ++ tag_bits true rec.END))).

Lemma decode_incoming_records_witness :
  decode_incoming (to_le_bytes 4 NET_CLONES ++ (0 :: sample_body)) true
  = Some {| in_msg_type := NET_CLONES; in_records := sample_inbound |}.
Proof.
  apply (decode_incoming_records true NET_CLONES (0 :: sample_body) sample_body).
  - by left.
  - by vm_compute.
  - apply (bool_decide_eq_true_1 (bytes_ok sample_body)). by vm_compute.
  - exact sample_inbound_ok.
  - split; [vm_compute; discriminate|by vm_compute].
Defined.

Lemma decode_incoming_total `{Lz4Laws} payload hack :
  bytes_ok payload ->
  (forall p, decode_incoming payload hack = Some p ->
     (in_msg_type p = NET_CLONES \/ in_msg_type p = NET_ACKS) /\
     Forall (inbound_ok hack) (in_records p) /\
     3 * Z.of_nat (length (in_records p)) <= 8 * INBOUND_SCRATCH) /\
  (decode_incoming payload hack = None ->
     (length payload < 4)%nat \/
     (from_le_bytes (take 4 payload) <> NET_CLONES /\ from_le_bytes (take 4 payload) <> NET_ACKS) \/
     decompress_using_dict (drop 4 payload) INBOUND_SCRATCH = None).
Proof.
  intros Hp. unfold decode_incoming.
  destruct (Nat.ltb_spec (length payload) 4); [split; [done|by left]|].
  set (ty := from_le_bytes (take 4 payload)).
  generalize NET_CLONES, NET_ACKS. intros t1 t2.
  destruct (Z.eqb_spec ty t1) as [E|E]; destruct (Z.eqb_spec ty t2) as [E'|E']; cbn [negb andb].
  4: { split; [intros; discriminate|]. intros _. right; left. by split. }
  all: destruct (decompress_using_dict (drop 4 payload) INBOUND_SCRATCH) as [body|] eqn:Hd;
    cbn [mbind option_bind]; [|split; [done|by right; right]].
  all: destruct (decompress_dict_ok _ INBOUND_SCRATCH _ ltac:(by compute) (Forall_drop _ _ _ Hp) Hd) as [Hb Hl].
  all: set (buf := with_length_hack (from_bytes body) hack).
  all: assert (Hwf : wf buf) by (by destruct (wf_full_wf _ (wf_full_from_bytes _ Hb))).
  all: destruct (decode_incoming_loop buf Hwf) as (rs & -> & Hrs & Hn).
  all: cbn [mbind option_bind]; split; [|done].
  all: intros p [= <-]; cbn [in_msg_type in_records]; split_and!; [auto|done|].
  all: cbn [buf with_length_hack from_bytes max_bit cur_bit] in Hn; lia.
Qed.

(** C38: decoding an upload is total and safe: whatever the bytes, the record
    loop ends within its fuel, a packet is produced only for the two upload
    message types, every record's fields are in the range of the mode, and a packet yields at
    most one record per three bits of the 16 KiB scratch buffer. *)
Theorem decode_incoming_safe `{Lz4Laws} payload hack :
  bytes_ok payload ->
  (forall p, decode_incoming payload hack = Some p ->
     (in_msg_type p = NET_CLONES \/ in_msg_type p = NET_ACKS) /\
     Forall (inbound_ok hack) (in_records p) /\
     3 * Z.of_nat (length (in_records p)) <= 8 * INBOUND_SCRATCH) /\
  (decode_incoming payload hack = None ->
     (length payload < 4)%nat \/
     (from_le_bytes (take 4 payload) <> NET_CLONES /\ from_le_bytes (take 4 payload) <> NET_ACKS) \/
     decompress_using_dict (drop 4 payload) INBOUND_SCRATCH = None).
Proof. apply decode_incoming_total. Qed.

Lemma decode_incoming_safe_witness :
  let payload := to_le_bytes 4 NET_CLONES ++ (0 :: sample_body) in
  (forall p, decode_incoming payload true = Some p ->
     (in_msg_type p = NET_CLONES \/ in_msg_type p = NET_ACKS) /\
     Forall (inbound_ok true) (in_records p) /\
     3 * Z.of_nat (length (in_records p)) <= 8 * INBOUND_SCRATCH) /\
  (decode_incoming payload true = None ->
     (length payload < 4)%nat \/
     (from_le_bytes (take 4 payload) <> NET_CLONES /\ from_le_bytes (take 4 payload) <> NET_ACKS) \/
     decompress_using_dict (drop 4 payload) INBOUND_SCRATCH = None).
Proof.
  apply (decode_incoming_safe (to_le_bytes 4 NET_CLONES ++ (0 :: sample_body)) true).
  apply (bool_decide_eq_true_1 (bytes_ok _)). by vm_compute.
Defined.

(** ** Where the packer departs from its comment

    [ensure_timestamp] is documented to put a timestamp before the first clone
    of a fragment.  [write_clone] calls it before the flush that makes room for
    the clone, so a clone that overflows a fragment closes it and opens the next
    one without a timestamp. *)

Lemma overflowing_clone_is_untimed hack p ts c :
  timed p = true -> batch p <> [] ->
  over_budget (bytes_used hack (batch p) + div_ceil (op_budget (PClone ts c)) 8) = true ->
  batch (packer_op hack p (PClone ts c)) = [ORClone c].
Proof.
  intros Ht Hb Hover. unfold packer_op. cbn [packer_time]. rewrite Ht.
  unfold packer_flush. rewrite Hover. by destruct (batch p).
Qed.

Definition bulky_clone : OutboundClone := {|
  sync_type := rec.SYNC; oc_object_id := 8; owner_net_id := 1; oc_entity_type := None;
  oc_creation_token := 0; oc_uniqifier := 3; dependent_frame_index := 0; oc_timestamp := 5;
  first_frame_update := false; oc_data := replicate 300 0 |}.

Lemma bulky_clone_ok : clone_ok false bulky_clone.
Proof.
  split; try by compute.
  - by right.
  - split; [apply zeros_ok|by compute].
Qed.

(** four 300-byte syncs overflow one fragment, and the second fragment the client decodes opens with a
    clone, its timestamp left behind in the first. *)
Theorem fragment_opens_untimed `{Lz4Laws} mt fi :
  let ops := replicate 4 (PClone 123 bulky_clone) in
  is_u 32 mt -> is_u 56 fi ->
  Forall (op_ok false) ops /\
  (fun o => dl_records <$> o) <$>
    (decode_downlink <$> finish (foldl run_op (pw_new mt fi false) ops))
  = [Some [DlTimestamp 123; clone_view bulky_clone; clone_view bulky_clone; clone_view bulky_clone];
     Some [clone_view bulky_clone]].
Proof.
  intros ops Hmt Hfi. assert (Hops : Forall (op_ok false) ops).
  { apply Forall_replicate. split; [exact bulky_clone_ok|by compute]. }
  split; [done|]. rewrite finish_stream by done.
  pose proof (packer_batches_ok false ops Hops) as Hok. unfold stream_packets.
  assert (Hb : packer_batches false ops =
    [[ORTimestamp 123; ORClone bulky_clone; ORClone bulky_clone; ORClone bulky_clone];
     [ORClone bulky_clone]]) by (by vm_compute).
  rewrite Hb in *. apply Forall_cons in Hok as [Hok1 [Hok2 _]%Forall_cons].
  cbn [imap fmap list_fmap length Nat.eqb compose].
  rewrite !downlink_is_client, (decode_fragment mt fi false 1 _ _ Hmt Hfi Hok1), (decode_fragment mt fi false 2 _ _ Hmt Hfi Hok2).
  reflexivity.
Qed.

Lemma fragment_opens_untimed_witness :
  let ops := replicate 4 (PClone 123 bulky_clone) in
  Forall (op_ok false) ops /\
  (fun o => dl_records <$> o) <$>
    (decode_downlink <$> finish (foldl run_op (pw_new 7 77 false) ops))
  = [Some [DlTimestamp 123; clone_view bulky_clone; clone_view bulky_clone; clone_view bulky_clone];
     Some [clone_view bulky_clone]].
Proof. apply (fragment_opens_untimed 7 77); by compute. Defined.
