(* ===== verification/SyncTrees.v ===== *)
(** * Sync-tree tables
    (src/crates/baston-protocol/src/rage/sync_trees.rs)

    The thirteen preorder tables as data, the type-to-table map, and the proof
    that every table is the preorder traversal of a tree of parents and leaves,
    which is what makes walking it by depth meaningful. *)

From S2P Require Import Prelude F32 MessageBuffer Clone Udp.
#[local] Open Scope Z_scope.

(** ** The tables *)

Inductive NodeKind := Parent | Data (name : string) (max_bytes : Z).

Record FlatNode := { depth : Z; ids : Z * Z * Z; kind : NodeKind }.

Definition p (depth : Z) (ids : Z * Z * Z) : FlatNode :=
  {| depth := depth; ids := ids; kind := Parent |}.

Definition d (depth : Z) (ids : Z * Z * Z) (name : string) (max_bytes : Z) : FlatNode :=
  {| depth := depth; ids := ids; kind := Data name max_bytes |}.

Definition AUTOMOBILE_TREE : list FlatNode :=
  [p 0 (127, 0, 0);
   p 1 (1, 0, 0);
   d 2 (1, 0, 0) "CVehicleCreationDataNode" 14;
   d 2 (1, 0, 0) "CAutomobileCreationDataNode" 2;
   p 1 (127, 127, 0);
   p 2 (127, 127, 0);
   p 3 (127, 127, 0);
   d 4 (127, 127, 0) "CGlobalFlagsDataNode" 2;
   d 4 (127, 127, 0) "CDynamicEntityGameStateDataNode" 102;
   d 4 (127, 127, 0) "CPhysicalGameStateDataNode" 4;
   d 4 (127, 127, 0) "CVehicleGameStateDataNode" 57;
   p 3 (127, 127, 1);
   d 4 (127, 127, 1) "CEntityScriptGameStateDataNode" 1;
   d 4 (127, 127, 1) "CPhysicalScriptGameStateDataNode" 13;
   d 4 (127, 127, 1) "CVehicleScriptGameStateDataNode" 50;
   d 4 (127, 127, 1) "CEntityScriptInfoDataNode" 24;
   d 2 (127, 127, 0) "CPhysicalAttachDataNode" 28;
   d 2 (127, 127, 0) "CVehicleAppearanceDataNode" 179;
   d 2 (127, 127, 0) "CVehicleDamageStatusDataNode" 34;
   d 2 (127, 127, 0) "CVehicleComponentReservationDataNode" 65;
   d 2 (127, 127, 0) "CVehicleHealthDataNode" 57;
   d 2 (127, 127, 0) "CVehicleTaskDataNode" 34;
   p 1 (127, 86, 0);
   d 2 (87, 87, 0) "CSectorDataNode" 4;
   d 2 (87, 87, 0) "CSectorPositionDataNode" 5;
   d 2 (87, 87, 0) "CEntityOrientationDataNode" 5;
   d 2 (87, 87, 0) "CPhysicalVelocityDataNode" 5;
   d 2 (87, 87, 0) "CVehicleAngVelocityDataNode" 4;
   p 2 (127, 86, 0);
   d 3 (86, 86, 0) "CVehicleSteeringDataNode" 2;
   d 3 (87, 87, 0) "CVehicleControlDataNode" 28;
   d 3 (127, 127, 0) "CVehicleGadgetDataNode" 31;
   p 1 (4, 0, 0);
   d 2 (4, 0, 0) "CMigrationDataNode" 13;
   d 2 (4, 0, 0) "CPhysicalMigrationDataNode" 1;
   d 2 (4, 0, 1) "CPhysicalScriptMigrationDataNode" 1;
   d 2 (4, 0, 0) "CVehicleProximityMigrationDataNode" 36].

Definition BIKE_TREE : list FlatNode :=
  [p 0 (127, 0, 0);
   p 1 (1, 0, 0);
   d 2 (1, 0, 0) "CVehicleCreationDataNode" 14;
   p 1 (127, 127, 0);
   p 2 (127, 127, 0);
   p 3 (127, 127, 0);
   d 4 (127, 127, 0) "CGlobalFlagsDataNode" 2;
   d 4 (127, 127, 0) "CDynamicEntityGameStateDataNode" 102;
   d 4 (127, 127, 0) "CPhysicalGameStateDataNode" 4;
   d 4 (127, 127, 0) "CVehicleGameStateDataNode" 57;
   d 4 (127, 127, 0) "CBikeGameStateDataNode" 1;
   p 3 (127, 127, 1);
   d 4 (127, 127, 1) "CEntityScriptGameStateDataNode" 1;
   d 4 (127, 127, 1) "CPhysicalScriptGameStateDataNode" 13;
   d 4 (127, 127, 1) "CVehicleScriptGameStateDataNode" 50;
   d 4 (127, 127, 1) "CEntityScriptInfoDataNode" 24;
   d 2 (127, 127, 0) "CPhysicalAttachDataNode" 28;
   d 2 (127, 127, 0) "CVehicleAppearanceDataNode" 179;
   d 2 (127, 127, 0) "CVehicleDamageStatusDataNode" 34;
   d 2 (127, 127, 0) "CVehicleComponentReservationDataNode" 65;
   d 2 (127, 127, 0) "CVehicleHealthDataNode" 57;
   d 2 (127, 127, 0) "CVehicleTaskDataNode" 34;
   p 1 (127, 86, 0);
   d 2 (87, 87, 0) "CSectorDataNode" 4;
   d 2 (87, 87, 0) "CSectorPositionDataNode" 5;
   d 2 (87, 87, 0) "CEntityOrientationDataNode" 5;
   d 2 (87, 87, 0) "CPhysicalVelocityDataNode" 5;
   d 2 (87, 87, 0) "CVehicleAngVelocityDataNode" 4;
   p 2 (127, 86, 0);
   d 3 (86, 86, 0) "CVehicleSteeringDataNode" 2;
   d 3 (87, 87, 0) "CVehicleControlDataNode" 28;
   d 3 (127, 127, 0) "CVehicleGadgetDataNode" 31;
   p 1 (4, 0, 0);
   d 2 (4, 0, 0) "CMigrationDataNode" 13;
   d 2 (4, 0, 0) "CPhysicalMigrationDataNode" 1;
   d 2 (4, 0, 1) "CPhysicalScriptMigrationDataNode" 1;
   d 2 (4, 0, 0) "CVehicleProximityMigrationDataNode" 36].

Definition BOAT_TREE : list FlatNode :=
  [p 0 (127, 0, 0);
   p 1 (1, 0, 0);
   d 2 (1, 0, 0) "CVehicleCreationDataNode" 14;
   p 1 (127, 87, 0);
   p 2 (127, 87, 0);
   p 3 (127, 87, 0);
   d 4 (127, 127, 0) "CGlobalFlagsDataNode" 2;
   d 4 (127, 127, 0) "CDynamicEntityGameStateDataNode" 102;
   d 4 (127, 127, 0) "CPhysicalGameStateDataNode" 4;
   d 4 (127, 127, 0) "CVehicleGameStateDataNode" 57;
   d 4 (87, 87, 0) "CBoatGameStateDataNode" 5;
   p 3 (127, 127, 1);
   d 4 (127, 127, 1) "CEntityScriptGameStateDataNode" 1;
   d 4 (127, 127, 1) "CPhysicalScriptGameStateDataNode" 13;
   d 4 (127, 127, 1) "CVehicleScriptGameStateDataNode" 50;
   d 4 (127, 127, 1) "CEntityScriptInfoDataNode" 24;
   d 2 (127, 127, 0) "CPhysicalAttachDataNode" 28;
   d 2 (127, 127, 0) "CVehicleAppearanceDataNode" 179;
   d 2 (127, 127, 0) "CVehicleDamageStatusDataNode" 34;
   d 2 (127, 127, 0) "CVehicleComponentReservationDataNode" 65;
   d 2 (127, 127, 0) "CVehicleHealthDataNode" 57;
   d 2 (127, 127, 0) "CVehicleTaskDataNode" 34;
   p 1 (127, 86, 0);
   d 2 (87, 87, 0) "CSectorDataNode" 4;
   d 2 (87, 87, 0) "CSectorPositionDataNode" 5;
   d 2 (87, 87, 0) "CEntityOrientationDataNode" 5;
   d 2 (87, 87, 0) "CPhysicalVelocityDataNode" 5;
   d 2 (87, 87, 0) "CVehicleAngVelocityDataNode" 4;
   p 2 (127, 86, 0);
   d 3 (86, 86, 0) "CVehicleSteeringDataNode" 2;
   d 3 (87, 87, 0) "CVehicleControlDataNode" 28;
   d 3 (127, 127, 0) "CVehicleGadgetDataNode" 31;
   p 1 (4, 0, 0);
   d 2 (4, 0, 0) "CMigrationDataNode" 13;
   d 2 (4, 0, 0) "CPhysicalMigrationDataNode" 1;
   d 2 (4, 0, 1) "CPhysicalScriptMigrationDataNode" 1;
   d 2 (4, 0, 0) "CVehicleProximityMigrationDataNode" 36].

Definition DOOR_TREE : list FlatNode :=
  [p 0 (127, 0, 0);
   p 1 (1, 0, 0);
   d 2 (1, 0, 0) "CDoorCreationDataNode" 17;
   p 1 (127, 127, 0);
   d 2 (127, 127, 0) "CGlobalFlagsDataNode" 2;
   d 2 (127, 127, 1) "CDoorScriptInfoDataNode" 28;
   d 2 (127, 127, 1) "CDoorScriptGameStateDataNode" 8;
   d 1 (86, 86, 0) "CDoorMovementDataNode" 2;
   p 1 (4, 0, 0);
   d 2 (4, 0, 0) "CMigrationDataNode" 13;
   d 2 (4, 0, 1) "CPhysicalScriptMigrationDataNode" 1].

Definition HELI_TREE : list FlatNode :=
  [p 0 (127, 0, 0);
   p 1 (1, 0, 0);
   d 2 (1, 0, 0) "CVehicleCreationDataNode" 14;
   d 2 (1, 0, 0) "CAutomobileCreationDataNode" 2;
   p 1 (127, 87, 0);
   p 2 (127, 127, 0);
   p 3 (127, 127, 0);
   d 4 (127, 127, 0) "CGlobalFlagsDataNode" 2;
   d 4 (127, 127, 0) "CDynamicEntityGameStateDataNode" 102;
   d 4 (127, 127, 0) "CPhysicalGameStateDataNode" 4;
   d 4 (127, 127, 0) "CVehicleGameStateDataNode" 57;
   p 3 (127, 127, 1);
   d 4 (127, 127, 1) "CEntityScriptGameStateDataNode" 1;
   d 4 (127, 127, 1) "CPhysicalScriptGameStateDataNode" 13;
   d 4 (127, 127, 1) "CVehicleScriptGameStateDataNode" 50;
   d 4 (127, 127, 1) "CEntityScriptInfoDataNode" 24;
   d 2 (127, 127, 0) "CPhysicalAttachDataNode" 28;
   d 2 (127, 127, 0) "CVehicleAppearanceDataNode" 179;
   d 2 (127, 127, 0) "CVehicleDamageStatusDataNode" 34;
   d 2 (127, 127, 0) "CVehicleComponentReservationDataNode" 65;
   d 2 (127, 127, 0) "CVehicleHealthDataNode" 57;
   d 2 (127, 127, 0) "CVehicleTaskDataNode" 34;
   d 2 (87, 87, 0) "CHeliHealthDataNode" 16;
   p 1 (127, 86, 0);
   d 2 (87, 87, 0) "CSectorDataNode" 4;
   d 2 (87, 87, 0) "CSectorPositionDataNode" 5;
   d 2 (87, 87, 0) "CEntityOrientationDataNode" 5;
   d 2 (87, 87, 0) "CPhysicalVelocityDataNode" 5;
   d 2 (87, 87, 0) "CVehicleAngVelocityDataNode" 4;
   p 2 (127, 86, 0);
   d 3 (86, 86, 0) "CVehicleSteeringDataNode" 2;
   d 3 (87, 87, 0) "CVehicleControlDataNode" 28;
   d 3 (127, 127, 0) "CVehicleGadgetDataNode" 31;
   d 3 (86, 86, 0) "CHeliControlDataNode" 8;
   p 1 (4, 0, 0);
   d 2 (4, 0, 0) "CMigrationDataNode" 13;
   d 2 (4, 0, 0) "CPhysicalMigrationDataNode" 1;
   d 2 (4, 0, 1) "CPhysicalScriptMigrationDataNode" 1;
   d 2 (4, 0, 0) "CVehicleProximityMigrationDataNode" 36].

Definition OBJECT_TREE : list FlatNode :=
  [p 0 (127, 0, 0);
   p 1 (1, 0, 0);
   d 2 (1, 0, 0) "CObjectCreationDataNode" 30;
   p 1 (127, 127, 0);
   p 2 (127, 127, 0);
   p 3 (127, 127, 0);
   d 4 (127, 127, 0) "CGlobalFlagsDataNode" 2;
   d 4 (127, 127, 0) "CDynamicEntityGameStateDataNode" 102;
   d 4 (127, 127, 0) "CPhysicalGameStateDataNode" 4;
   d 4 (127, 127, 0) "CObjectGameStateDataNode" 44;
   p 3 (127, 127, 1);
   d 4 (127, 127, 1) "CEntityScriptGameStateDataNode" 1;
   d 4 (127, 127, 1) "CPhysicalScriptGameStateDataNode" 13;
   d 4 (127, 127, 1) "CObjectScriptGameStateDataNode" 14;
   d 4 (127, 127, 1) "CEntityScriptInfoDataNode" 24;
   d 2 (127, 127, 0) "CPhysicalAttachDataNode" 28;
   d 2 (127, 127, 0) "CPhysicalHealthDataNode" 19;
   p 1 (87, 87, 0);
   d 2 (87, 87, 0) "CSectorDataNode" 4;
   d 2 (87, 87, 0) "CObjectSectorPosNode" 8;
   d 2 (87, 87, 0) "CObjectOrientationDataNode" 8;
   d 2 (87, 87, 0) "CPhysicalVelocityDataNode" 5;
   d 2 (87, 87, 0) "CPhysicalAngVelocityDataNode" 4;
   p 1 (4, 0, 0);
   d 2 (4, 0, 0) "CMigrationDataNode" 13;
   d 2 (4, 0, 0) "CPhysicalMigrationDataNode" 1;
   d 2 (4, 0, 1) "CPhysicalScriptMigrationDataNode" 1].

Definition PED_TREE : list FlatNode :=
  [p 0 (127, 0, 0);
   p 1 (1, 0, 0);
   d 2 (1, 0, 0) "CPedCreationDataNode" 20;
   d 2 (1, 0, 1) "CPedScriptCreationDataNode" 1;
   p 1 (127, 87, 0);
   p 2 (127, 127, 0);
   p 3 (127, 127, 0);
   d 4 (127, 127, 0) "CGlobalFlagsDataNode" 2;
   d 4 (127, 127, 0) "CDynamicEntityGameStateDataNode" 102;
   d 4 (127, 127, 0) "CPhysicalGameStateDataNode" 4;
   d 4 (127, 127, 0) "CPedGameStateDataNode" 104;
   d 4 (127, 127, 0) "CPedComponentReservationDataNode" 65;
   p 3 (127, 127, 1);
   d 4 (127, 127, 1) "CEntityScriptGameStateDataNode" 1;
   d 4 (127, 127, 1) "CPhysicalScriptGameStateDataNode" 13;
   d 4 (127, 127, 1) "CPedScriptGameStateDataNode" 115;
   d 4 (127, 127, 1) "CEntityScriptInfoDataNode" 24;
   d 2 (127, 127, 1) "CPedAttachDataNode" 22;
   d 2 (127, 127, 0) "CPedHealthDataNode" 17;
   d 2 (87, 87, 0) "CPedMovementGroupDataNode" 26;
   d 2 (127, 127, 1) "CPedAIDataNode" 9;
   d 2 (87, 87, 0) "CPedAppearanceDataNode" 141;
   p 1 (127, 87, 0);
   d 2 (87, 87, 0) "CPedOrientationDataNode" 3;
   d 2 (87, 87, 0) "CPedMovementDataNode" 5;
   p 2 (127, 87, 0);
   d 3 (127, 127, 0) "CPedTaskTreeDataNode" 28;
   d 3 (87, 87, 0) "CPedTaskSpecificDataNode" 77;
   d 3 (87, 87, 0) "CPedTaskSpecificDataNode" 77;
   d 3 (87, 87, 0) "CPedTaskSpecificDataNode" 77;
   d 3 (87, 87, 0) "CPedTaskSpecificDataNode" 77;
   d 3 (87, 87, 0) "CPedTaskSpecificDataNode" 77;
   d 3 (87, 87, 0) "CPedTaskSpecificDataNode" 77;
   d 3 (87, 87, 0) "CPedTaskSpecificDataNode" 77;
   d 3 (87, 87, 0) "CPedTaskSpecificDataNode" 77;
   d 2 (87, 87, 0) "CSectorDataNode" 4;
   d 2 (87, 87, 0) "CPedSectorPosMapNode" 12;
   d 2 (87, 87, 0) "CPedSectorPosNavMeshNode" 4;
   p 1 (87, 0, 0);
   d 2 (4, 0, 0) "CMigrationDataNode" 13;
   d 2 (4, 0, 0) "CPhysicalMigrationDataNode" 1;
   d 2 (4, 0, 1) "CPhysicalScriptMigrationDataNode" 1;
   d 2 (87, 0, 0) "CPedInventoryDataNode" 321;
   d 2 (4, 4, 1) "CPedTaskSequenceDataNode" 1].

Definition PICKUP_TREE : list FlatNode :=
  [p 0 (127, 0, 0);
   p 1 (1, 0, 0);
   d 2 (1, 0, 0) "CPickupCreationDataNode" 66;
   p 1 (127, 127, 0);
   p 2 (127, 127, 0);
   d 3 (127, 127, 0) "CGlobalFlagsDataNode" 2;
   d 3 (127, 127, 0) "CDynamicEntityGameStateDataNode" 102;
   p 2 (127, 127, 1);
   d 3 (127, 127, 1) "CPickupScriptGameStateNode" 14;
   d 3 (127, 127, 1) "CPhysicalGameStateDataNode" 4;
   d 3 (127, 127, 1) "CEntityScriptGameStateDataNode" 1;
   d 3 (127, 127, 1) "CPhysicalScriptGameStateDataNode" 13;
   d 3 (127, 127, 1) "CEntityScriptInfoDataNode" 24;
   d 3 (127, 127, 1) "CPhysicalHealthDataNode" 19;
   d 2 (127, 127, 1) "CPhysicalAttachDataNode" 28;
   p 1 (87, 87, 0);
   d 2 (87, 87, 0) "CSectorDataNode" 4;
   d 2 (87, 87, 0) "CPickupSectorPosNode" 8;
   d 2 (87, 87, 0) "CEntityOrientationDataNode" 5;
   d 2 (87, 87, 0) "CPhysicalVelocityDataNode" 5;
   d 2 (87, 87, 0) "CPhysicalAngVelocityDataNode" 4;
   p 1 (4, 0, 0);
   d 2 (4, 0, 0) "CMigrationDataNode" 13;
   d 2 (4, 0, 1) "CPhysicalMigrationDataNode" 1;
   d 2 (4, 0, 1) "CPhysicalScriptMigrationDataNode" 1].

Definition PICKUP_PLACEMENT_TREE : list FlatNode :=
  [p 0 (127, 0, 0);
   d 1 (1, 0, 0) "CPickupPlacementCreationDataNode" 54;
   d 1 (4, 0, 0) "CMigrationDataNode" 13;
   d 1 (127, 127, 0) "CGlobalFlagsDataNode" 2;
   d 1 (127, 127, 0) "CPickupPlacementStateDataNode" 7].

Definition PLANE_TREE : list FlatNode :=
  [p 0 (127, 0, 0);
   p 1 (1, 0, 0);
   d 2 (1, 0, 0) "CVehicleCreationDataNode" 14;
   p 1 (127, 127, 0);
   p 2 (127, 127, 0);
   p 3 (127, 127, 0);
   d 4 (127, 127, 0) "CGlobalFlagsDataNode" 2;
   d 4 (127, 127, 0) "CDynamicEntityGameStateDataNode" 102;
   d 4 (127, 127, 0) "CPhysicalGameStateDataNode" 4;
   d 4 (127, 127, 0) "CVehicleGameStateDataNode" 57;
   p 3 (127, 127, 1);
   d 4 (127, 127, 1) "CEntityScriptGameStateDataNode" 1;
   d 4 (127, 127, 1) "CPhysicalScriptGameStateDataNode" 13;
   d 4 (127, 127, 1) "CVehicleScriptGameStateDataNode" 50;
   d 4 (127, 127, 1) "CEntityScriptInfoDataNode" 24;
   d 2 (127, 127, 0) "CPhysicalAttachDataNode" 28;
   d 2 (127, 127, 0) "CVehicleAppearanceDataNode" 179;
   d 2 (127, 127, 0) "CVehicleDamageStatusDataNode" 34;
   d 2 (127, 127, 0) "CVehicleComponentReservationDataNode" 65;
   d 2 (127, 127, 0) "CVehicleHealthDataNode" 57;
   d 2 (127, 127, 0) "CVehicleTaskDataNode" 34;
   d 2 (127, 127, 0) "CPlaneGameStateDataNode" 52;
   p 1 (127, 86, 0);
   d 2 (87, 87, 0) "CSectorDataNode" 4;
   d 2 (87, 87, 0) "CSectorPositionDataNode" 5;
   d 2 (87, 87, 0) "CEntityOrientationDataNode" 5;
   d 2 (87, 87, 0) "CPhysicalVelocityDataNode" 5;
   d 2 (87, 87, 0) "CVehicleAngVelocityDataNode" 4;
   p 2 (127, 86, 0);
   d 3 (86, 86, 0) "CVehicleSteeringDataNode" 2;
   d 3 (87, 87, 0) "CVehicleControlDataNode" 28;
   d 3 (127, 127, 0) "CVehicleGadgetDataNode" 31;
   d 3 (86, 86, 0) "CPlaneControlDataNode" 7;
   p 1 (4, 0, 0);
   d 2 (4, 0, 0) "CMigrationDataNode" 13;
   d 2 (4, 0, 0) "CPhysicalMigrationDataNode" 1;
   d 2 (4, 0, 1) "CPhysicalScriptMigrationDataNode" 1;
   d 2 (4, 0, 0) "CVehicleProximityMigrationDataNode" 36].

Definition SUBMARINE_TREE : list FlatNode :=
  [p 0 (127, 0, 0);
   p 1 (1, 0, 0);
   d 2 (1, 0, 0) "CVehicleCreationDataNode" 14;
   p 1 (127, 87, 0);
   p 2 (127, 87, 0);
   p 3 (127, 87, 0);
   d 4 (127, 127, 0) "CGlobalFlagsDataNode" 2;
   d 4 (127, 127, 0) "CDynamicEntityGameStateDataNode" 102;
   d 4 (127, 127, 0) "CPhysicalGameStateDataNode" 4;
   d 4 (127, 127, 0) "CVehicleGameStateDataNode" 57;
   d 4 (87, 87, 0) "CSubmarineGameStateDataNode" 1;
   p 3 (127, 127, 1);
   d 4 (127, 127, 1) "CEntityScriptGameStateDataNode" 1;
   d 4 (127, 127, 1) "CPhysicalScriptGameStateDataNode" 13;
   d 4 (127, 127, 1) "CVehicleScriptGameStateDataNode" 50;
   d 4 (127, 127, 1) "CEntityScriptInfoDataNode" 24;
   d 2 (127, 127, 0) "CPhysicalAttachDataNode" 28;
   d 2 (127, 127, 0) "CVehicleAppearanceDataNode" 179;
   d 2 (127, 127, 0) "CVehicleDamageStatusDataNode" 34;
   d 2 (127, 127, 0) "CVehicleComponentReservationDataNode" 65;
   d 2 (127, 127, 0) "CVehicleHealthDataNode" 57;
   d 2 (127, 127, 0) "CVehicleTaskDataNode" 34;
   p 1 (127, 86, 0);
   d 2 (87, 87, 0) "CSectorDataNode" 4;
   d 2 (87, 87, 0) "CSectorPositionDataNode" 5;
   d 2 (87, 87, 0) "CEntityOrientationDataNode" 5;
   d 2 (87, 87, 0) "CPhysicalVelocityDataNode" 5;
   d 2 (87, 87, 0) "CVehicleAngVelocityDataNode" 4;
   p 2 (127, 86, 0);
   d 3 (86, 86, 0) "CVehicleSteeringDataNode" 2;
   d 3 (87, 87, 0) "CVehicleControlDataNode" 28;
   d 3 (127, 127, 0) "CVehicleGadgetDataNode" 31;
   d 3 (86, 86, 0) "CSubmarineControlDataNode" 4;
   p 1 (4, 0, 0);
   d 2 (4, 0, 0) "CMigrationDataNode" 13;
   d 2 (4, 0, 0) "CPhysicalMigrationDataNode" 1;
   d 2 (4, 0, 1) "CPhysicalScriptMigrationDataNode" 1;
   d 2 (4, 0, 0) "CVehicleProximityMigrationDataNode" 36].

Definition PLAYER_TREE : list FlatNode :=
  [p 0 (127, 0, 0);
   p 1 (1, 0, 0);
   d 2 (1, 0, 0) "CPlayerCreationDataNode" 128;
   p 1 (127, 86, 0);
   p 2 (127, 87, 0);
   p 3 (127, 127, 0);
   d 4 (127, 127, 0) "CGlobalFlagsDataNode" 2;
   d 4 (127, 127, 0) "CDynamicEntityGameStateDataNode" 102;
   d 4 (127, 127, 0) "CPhysicalGameStateDataNode" 4;
   d 4 (127, 127, 0) "CPedGameStateDataNode" 104;
   d 4 (127, 127, 0) "CPedComponentReservationDataNode" 65;
   p 3 (127, 87, 0);
   d 4 (127, 127, 1) "CEntityScriptGameStateDataNode" 1;
   d 4 (87, 87, 0) "CPlayerGameStateDataNode" 104;
   d 2 (127, 127, 1) "CPedAttachDataNode" 22;
   d 2 (127, 127, 0) "CPedHealthDataNode" 17;
   d 2 (87, 87, 0) "CPedMovementGroupDataNode" 26;
   d 2 (127, 127, 1) "CPedAIDataNode" 9;
   d 2 (87, 87, 0) "CPlayerAppearanceDataNode" 560;
   d 2 (86, 86, 0) "CPlayerPedGroupDataNode" 19;
   d 2 (86, 86, 0) "CPlayerAmbientModelStreamingNode" 5;
   d 2 (86, 86, 0) "CPlayerGamerDataNode" 370;
   d 2 (86, 86, 0) "CPlayerExtendedGameStateNode" 20;
   p 1 (127, 86, 0);
   d 2 (87, 87, 0) "CPedOrientationDataNode" 3;
   d 2 (87, 87, 0) "CPedMovementDataNode" 5;
   p 2 (127, 87, 0);
   d 3 (127, 127, 0) "CPedTaskTreeDataNode" 28;
   d 3 (87, 87, 0) "CPedTaskSpecificDataNode" 77;
   d 3 (87, 87, 0) "CPedTaskSpecificDataNode" 77;
   d 3 (87, 87, 0) "CPedTaskSpecificDataNode" 77;
   d 3 (87, 87, 0) "CPedTaskSpecificDataNode" 77;
   d 3 (87, 87, 0) "CPedTaskSpecificDataNode" 77;
   d 3 (87, 87, 0) "CPedTaskSpecificDataNode" 77;
   d 3 (87, 87, 0) "CPedTaskSpecificDataNode" 77;
   d 3 (87, 87, 0) "CPedTaskSpecificDataNode" 77;
   d 2 (87, 87, 0) "CSectorDataNode" 4;
   d 2 (87, 87, 0) "CPlayerSectorPosNode" 13;
   d 2 (86, 86, 0) "CPlayerCameraDataNode" 24;
   d 2 (86, 86, 0) "CPlayerWantedAndLOSDataNode" 30;
   p 1 (4, 0, 0);
   d 2 (4, 0, 0) "CMigrationDataNode" 13;
   d 2 (4, 0, 0) "CPhysicalMigrationDataNode" 1;
   d 2 (4, 0, 1) "CPhysicalScriptMigrationDataNode" 1].

Definition TRAIN_TREE : list FlatNode :=
  [p 0 (127, 0, 0);
   p 1 (1, 0, 0);
   d 2 (1, 0, 0) "CVehicleCreationDataNode" 14;
   p 1 (127, 127, 0);
   p 2 (127, 127, 0);
   p 3 (127, 127, 0);
   d 4 (127, 127, 0) "CGlobalFlagsDataNode" 2;
   d 4 (127, 127, 0) "CDynamicEntityGameStateDataNode" 102;
   d 4 (127, 127, 0) "CPhysicalGameStateDataNode" 4;
   d 4 (127, 127, 0) "CVehicleGameStateDataNode" 57;
   d 4 (127, 127, 0) "CTrainGameStateDataNode" 17;
   p 3 (127, 127, 1);
   d 4 (127, 127, 1) "CEntityScriptGameStateDataNode" 1;
   d 4 (127, 127, 1) "CPhysicalScriptGameStateDataNode" 13;
   d 4 (127, 127, 1) "CVehicleScriptGameStateDataNode" 50;
   d 4 (127, 127, 1) "CEntityScriptInfoDataNode" 24;
   d 2 (127, 127, 0) "CPhysicalAttachDataNode" 28;
   d 2 (127, 127, 0) "CVehicleAppearanceDataNode" 179;
   d 2 (127, 127, 0) "CVehicleDamageStatusDataNode" 34;
   d 2 (127, 127, 0) "CVehicleComponentReservationDataNode" 65;
   d 2 (127, 127, 0) "CVehicleHealthDataNode" 57;
   d 2 (127, 127, 0) "CVehicleTaskDataNode" 34;
   p 1 (127, 86, 0);
   d 2 (87, 87, 0) "CSectorDataNode" 4;
   d 2 (87, 87, 0) "CSectorPositionDataNode" 5;
   d 2 (87, 87, 0) "CEntityOrientationDataNode" 5;
   d 2 (87, 87, 0) "CPhysicalVelocityDataNode" 5;
   d 2 (87, 87, 0) "CVehicleAngVelocityDataNode" 4;
   p 2 (127, 86, 0);
   d 3 (86, 86, 0) "CVehicleSteeringDataNode" 2;
   d 3 (87, 87, 0) "CVehicleControlDataNode" 28;
   d 3 (127, 127, 0) "CVehicleGadgetDataNode" 31;
   p 1 (4, 0, 0);
   d 2 (4, 0, 0) "CMigrationDataNode" 13;
   d 2 (4, 0, 0) "CPhysicalMigrationDataNode" 1;
   d 2 (4, 0, 1) "CPhysicalScriptMigrationDataNode" 1;
   d 2 (4, 0, 0) "CVehicleProximityMigrationDataNode" 36].

Definition tree_for (ty : NetObjEntityType) : list FlatNode :=
  match ty with
  | Automobile => AUTOMOBILE_TREE
  | Bike => BIKE_TREE
  | Boat => BOAT_TREE
  | Door => DOOR_TREE
  | Heli => HELI_TREE
  | Object => OBJECT_TREE
  | Ped => PED_TREE
  | Pickup => PICKUP_TREE
  | PickupPlacement => PICKUP_PLACEMENT_TREE
  | Plane => PLANE_TREE
  | Submarine => SUBMARINE_TREE
  | Player => PLAYER_TREE
  | Trailer => AUTOMOBILE_TREE
  | Train => TRAIN_TREE
  end.

(** ** The trees behind the tables *)

#[local] Set Warnings "-register-all".

Inductive SyncNode :=
  | SLeaf (ids : Z * Z * Z) (name : string) (max_bytes : Z)
  | SParent (ids : Z * Z * Z) (children : list SyncNode).

(** Induction under the list of children. *)
Fixpoint SyncNode_rect' (P : SyncNode -> Prop)
    (Hleaf : forall ids name max, P (SLeaf ids name max))
    (Hparent : forall ids ts, Forall P ts -> P (SParent ids ts)) (t : SyncNode) : P t :=
  match t with
  | SLeaf ids name max => Hleaf ids name max
  | SParent ids ts => Hparent ids ts
      ((fix go ts : Forall P ts :=
          match ts with
          | [] => Forall_nil_2 P
          | t :: ts => Forall_cons_2 P t ts (SyncNode_rect' P Hleaf Hparent t) (go ts)
          end) ts)
  end.

(** Preorder traversal, as the tables list it. *)
Fixpoint flatten (dep : Z) (t : SyncNode) : list FlatNode :=
  match t with
  | SLeaf ids name max => [d dep ids name max]
  | SParent ids ts => p dep ids :: concat (flatten (dep + 1) <$> ts)
  end.

Definition flatten_forest (dep : Z) (ts : list SyncNode) : list FlatNode :=
  concat (flatten dep <$> ts).

Lemma flatten_forest_cons dep t ts :
  flatten_forest dep (t :: ts) = flatten dep t ++ flatten_forest dep ts.
Proof. done. Qed.

Lemma flatten_parent dep ids ts : flatten dep (SParent ids ts) = p dep ids :: flatten_forest (dep + 1) ts.
Proof. done. Qed.

(** Its inverse, a recursive-descent reading of the table. *)
Fixpoint read_forest (fuel : nat) (dep : Z) (l : list FlatNode) : list SyncNode * list FlatNode :=
  match fuel, l with
  | S fuel, n :: l' =>
      if depth n =? dep then
        match kind n with
        | Data name max =>
            let '(ts, r) := read_forest fuel dep l' in (SLeaf (ids n) name max :: ts, r)
        | Parent =>
            let '(cs, r) := read_forest fuel (dep + 1) l' in
            let '(ts, r') := read_forest fuel dep r in (SParent (ids n) cs :: ts, r')
        end
      else ([], l)
  | _, _ => ([], l)
  end.

Definition tree_of (ty : NetObjEntityType) : SyncNode :=
  match fst (read_forest (length (tree_for ty)) 0 (tree_for ty)) with
  | t :: _ => t
  | [] => SParent (0, 0, 0) []
  end.

Lemma tree_for_flatten ty : tree_for ty = flatten 0 (tree_of ty).
Proof. by destruct ty; vm_compute. Qed.

(** The leaves of a tree, in order. *)
Fixpoint leaf_names (t : SyncNode) : list string :=
  match t with SLeaf _ name _ => [name] | SParent _ ts => concat (leaf_names <$> ts) end.

(** A flattened subtree starts at its depth and stays strictly below after. *)
Lemma flatten_cons dep t : exists n l, flatten dep t = n :: l /\ depth n = dep /\
  Forall (fun m => dep < depth m) l.
Proof.
  revert dep; induction t as [i n m|i ts IH] using SyncNode_rect'; intros dep; simpl; [by eauto|].
  exists (p dep i), (flatten_forest (dep + 1) ts). split_and!; [done|done|].
  induction IH as [|t ts Ht _ IHts]; simpl; [done|].
  unfold flatten_forest. simpl. destruct (Ht (dep + 1)) as (n & l & -> & Hn & Hl). simpl.
  constructor; [lia|]. apply Forall_app; split; [|done].
  eapply Forall_impl; [exact Hl|]. simpl. lia.
Qed.

Lemma flatten_forest_below dep ts : Forall (fun m => dep < depth m) (flatten_forest (dep + 1) ts).
Proof.
  destruct (flatten_cons dep (SParent (0, 0, 0) ts)) as (n & l & H & _ & Hl).
  simpl in H. by injection H as _ <-.
Qed.

(** every sync-tree table is the preorder traversal of a tree whose nodes'
    depths are their nesting levels, so a walk by depth visits exactly the
    subtrees of the node it is at. *)
Theorem tables_are_preorder ty : exists ids ts,
  tree_for ty = flatten 0 (SParent ids ts) /\
  tree_for ty = p 0 ids :: flatten_forest 1 ts /\
  Forall (fun m => 0 < depth m) (flatten_forest 1 ts).
Proof.
  rewrite tree_for_flatten. destruct (tree_of ty) as [i n m|i ts] eqn:E.
  - by destruct ty.
  - exists i, ts. split_and!; [done|done|apply (flatten_forest_below 0)].
Qed.
