(* ===== verification/Quaternion.v ===== *)
(** * Smallest-three quaternion compression
    (src/crates/baston-protocol/src/rage/quaternion.rs)

    The two directions of the codec in binary32, the heading conversions over
    the platform's trigonometry, and two exhaustive facts about the 2048 codes
    of a component that the round-trip theorem rests on. *)

From S2P Require Import Prelude F32.

(** [1.414_214]: the quotient of two exactly represented integers, rounded. *)
Definition SQRT_2 : f32 := f32_div (f32_of_Z 1414214) (f32_of_Z 1000000).
Definition MINIMUM : f32 := f32_div (f32_of_Z (-1)) SQRT_2.
Definition MAXIMUM : f32 := f32_div f32_one SQRT_2.

Definition BITS : Z := 11.

(** [6.283_185_5], the binary32 nearest to a full turn. *)
Definition TAU_RADIANS : f32 := S754_finite false 13176795 (-21).

Definition vec4 : Type := f32 * f32 * f32 * f32.

Record CompressedQuaternion := { largest : Z; qa : Z; qb : Z; qc : Z }.

(** [((1_u32 << bits) - 1) as f32]. *)
Definition scale_of (bits : Z) : f32 := f32_of_Z (u32 (Z.shiftl 1 bits) - 1).

Definition quantise (bits : Z) (sign value : f32) : Z :=
  let normal := f32_div (f32_sub (f32_mul value sign) MINIMUM) (f32_sub MAXIMUM MINIMUM) in
  f32_as_u32 (f32_floor (f32_add (f32_mul normal (scale_of bits)) f32_half)).

Definition compress (quaternion : vec4) (bits : Z) : CompressedQuaternion :=
  let '(x, y, z, w) := quaternion in
  let step (acc : Z * f32) (iv : Z * f32) :=
    if f32_gt iv.2 acc.2 then (iv.1 + 1, iv.2) else acc in
  let '(largest, _) :=
    foldl step (0, f32_abs x) [(0, f32_abs y); (1, f32_abs z); (2, f32_abs w)] in
  let '(largest_component, (o0, o1, o2)) :=
    if largest =? 0 then (x, (y, z, w))
    else if largest =? 1 then (y, (x, z, w))
    else if largest =? 2 then (z, (x, y, w))
    else (w, (x, y, z)) in
  let sign := if f32_ge largest_component f32_zero then f32_one else f32_neg f32_one in
  {| largest := largest; qa := quantise bits sign o0; qb := quantise bits sign o1;
     qc := quantise bits sign o2 |}.

Definition dequantise (bits value : Z) : f32 :=
  f32_add (f32_mul (f32_div (f32_of_Z value) (scale_of bits)) (f32_sub MAXIMUM MINIMUM)) MINIMUM.

Definition rebuild (a b c : f32) : f32 :=
  f32_sqrt (f32_max (f32_sub (f32_sub (f32_sub f32_one (f32_mul a a)) (f32_mul b b)) (f32_mul c c))
    f32_zero).

Definition decompress (q : CompressedQuaternion) (bits : Z) : vec4 :=
  let a := dequantise bits (qa q) in
  let b := dequantise bits (qb q) in
  let c := dequantise bits (qc q) in
  let l := rebuild a b c in
  if largest q =? 0 then (l, a, b, c)
  else if largest q =? 1 then (a, l, b, c)
  else if largest q =? 2 then (a, b, l, c)
  else (a, b, c, l).

Section Heading.
Context `{Libm}.

Definition from_heading_degrees (heading : f32) : vec4 :=
  let half := f32_mul (to_radians heading) f32_half in
  (f32_zero, f32_zero, f32_sin half, f32_cos half).

Definition to_heading_degrees (quaternion : vec4) : f32 :=
  let '(x, y, z, w) := quaternion in
  let two := f32_of_Z 2 in
  let yaw := f32_atan2 (f32_mul two (f32_add (f32_mul w z) (f32_mul x y)))
    (f32_sub f32_one (f32_mul two (f32_add (f32_mul y y) (f32_mul z z)))) in
  let degrees := to_degrees yaw in
  if f32_lt degrees f32_zero then f32_add degrees (f32_of_Z 360) else degrees.
End Heading.

(** ** The 2048 codes *)

(** A code decodes to a number of magnitude below one, and re-encodes to itself. *)
Definition code_ok (v : Z) : bool :=
  f32_lt (f32_abs (dequantise BITS v)) f32_one && (quantise BITS f32_one (dequantise BITS v) =? v).

Lemma codes_ok : forallb code_ok (seqZ 0 2048) = true.
Proof. by vm_compute. Qed.

Lemma code_ok_of v : 0 <= v < 2048 ->
  f32_lt (f32_abs (dequantise BITS v)) f32_one = true /\ quantise BITS f32_one (dequantise BITS v) = v.
Proof.
  intros Hv. pose proof codes_ok as H. rewrite forallb_forall in H.
  specialize (H v). rewrite <- list_elem_of_In, elem_of_seqZ in H.
  specialize (H Hv). apply andb_prop in H as [H1 H2%Z.eqb_eq]. done.
Qed.

(** ** The rebuilt component *)

Definition code (v : Z) : Prop := 0 <= v < 2048.

Record quat_ok (q : CompressedQuaternion) : Prop := {
  quat_ok_largest : 0 <= largest q <= 3;
  quat_ok_a : code (qa q);
  quat_ok_b : code (qb q);
  quat_ok_c : code (qc q)
}.

(** The rebuilt component is the strictly largest one. *)
Definition dominates (q : CompressedQuaternion) : Prop :=
  let a := dequantise BITS (qa q) in
  let b := dequantise BITS (qb q) in
  let c := dequantise BITS (qc q) in
  f32_lt (f32_abs a) (rebuild a b c) = true /\ f32_lt (f32_abs b) (rebuild a b c) = true /\
  f32_lt (f32_abs c) (rebuild a b c) = true.

Lemma rebuild_nonneg q : dominates q ->
  let r := rebuild (dequantise BITS (qa q)) (dequantise BITS (qb q)) (dequantise BITS (qc q)) in
  f32_abs r = r /\ f32_ge r f32_zero = true.
Proof.
  intros (Ha & _). cbv zeta. unfold rebuild in *.
  destruct (f32_sqrt_clamped (f32_sub (f32_sub (f32_sub f32_one
    (f32_mul (dequantise BITS (qa q)) (dequantise BITS (qa q))))
    (f32_mul (dequantise BITS (qb q)) (dequantise BITS (qb q))))
    (f32_mul (dequantise BITS (qc q)) (dequantise BITS (qc q))))) as [Hn|Hz].
  - by apply nonneg_num_spec in Hn as (_ & ? & ?).
  - rewrite Hz in Ha. by destruct (dequantise BITS (qa q)) as [[]|[]| |[] m e].
Qed.

(** ** What the quaternion codec guarantees *)

(** decoding never yields NaN: for every 11-bit payload, however corrupt,
    the three transmitted components have magnitude below one and the rebuilt
    one is a number, the clamp under the square root absorbing sums of squares
    past one. *)
Theorem decompress_is_finite q : quat_ok q ->
  let '(x, y, z, w) := decompress q BITS in
  Forall (fun v => is_nan v = false) [x; y; z; w].
Proof.
  intros [_ Ha Hb Hc].
  assert (Hcode : forall v, code v -> is_nan (dequantise BITS v) = false).
  { intros v Hv. destruct (code_ok_of v Hv) as [H _]. by destruct (dequantise BITS v). }
  assert (Hr : forall a b c, is_nan (rebuild a b c) = false).
  { intros a b c. unfold rebuild.
    destruct (f32_sqrt_clamped (f32_sub (f32_sub (f32_sub f32_one (f32_mul a a)) (f32_mul b b))
      (f32_mul c c))) as [H%nonneg_num_spec| ->]; [by destruct H|done]. }
  unfold decompress. destruct (largest q =? 0), (largest q =? 1), (largest q =? 2).
  all: repeat constructor; auto.
Qed.

Lemma decompress_is_finite_witness :
  let '(x, y, z, w) := decompress {| largest := 2; qa := 2047; qb := 2047; qc := 2047 |} BITS in
  Forall (fun v => is_nan v = false) [x; y; z; w].
Proof.
  apply (decompress_is_finite {| largest := 2; qa := 2047; qb := 2047; qc := 2047 |}).
  split; simpl; unfold code; lia.
Defined.

Lemma compress_largest fa fb fc r :
  f32_abs r = r -> f32_ge r f32_zero = true ->
  f32_gt r (f32_abs fa) = true -> f32_gt r (f32_abs fb) = true -> f32_gt r (f32_abs fc) = true ->
  let q l := {| largest := l; qa := quantise BITS f32_one fa; qb := quantise BITS f32_one fb;
                qc := quantise BITS f32_one fc |} in
  compress (r, fa, fb, fc) BITS = q 0 /\ compress (fa, r, fb, fc) BITS = q 1 /\
  compress (fa, fb, r, fc) BITS = q 2 /\ compress (fa, fb, fc, r) BITS = q 3.
Proof.
  intros Habs Hge Ta Tb Tc. pose proof (f32_lt_asym _ _ Ta) as Ga.
  pose proof (f32_lt_asym _ _ Tb) as Gb. pose proof (f32_lt_asym _ _ Tc) as Gc.
  unfold compress. cbn [foldl fst snd]. rewrite Habs.
  split_and!.
  all: repeat (first [rewrite Ga|rewrite Gb|rewrite Gc|rewrite Ta|rewrite Tb|rewrite Tc
    |match goal with |- context [f32_gt (f32_abs ?u) (f32_abs ?v)] =>
       destruct (f32_gt (f32_abs u) (f32_abs v)) end]; cbn [fst snd]).
  all: change (0 + 1) with 1; change (1 + 1) with 2; change (2 + 1) with 3.
  all: cbn [Z.eqb Pos.eqb]; by rewrite Hge.
Qed.

(** a decoded quaternion whose dropped component dominates re-encodes to
    exactly the wire value it came from: the two directions agree on every code
    and on the choice of the largest component. *)
Theorem compress_decompress q : quat_ok q -> dominates q -> compress (decompress q BITS) BITS = q.
Proof.
  intros [Hl Ha Hb Hc] Hdom. destruct (rebuild_nonneg q Hdom) as [Habs Hge].
  destruct Hdom as (Hda & Hdb & Hdc). destruct q as [l a b c]. cbn [largest qa qb qc] in *.
  destruct (compress_largest _ _ _ _ Habs Hge Hda Hdb Hdc) as (H0 & H1 & H2 & H3).
  destruct (code_ok_of a Ha) as [_ Ea]. destruct (code_ok_of b Hb) as [_ Eb].
  destruct (code_ok_of c Hc) as [_ Ec]. rewrite Ea, Eb, Ec in *.
  unfold decompress. cbn [largest qa qb qc].
  assert (l = 0 \/ l = 1 \/ l = 2 \/ l = 3) as [-> |[-> |[-> | ->]]] by lia;
    cbn [Z.eqb Pos.eqb]; assumption.
Qed.

Lemma compress_decompress_witness :
  let q := {| largest := 3; qa := 1023; qb := 1024; qc := 1500 |} in
  compress (decompress q BITS) BITS = q.
Proof.
  apply (compress_decompress {| largest := 3; qa := 1023; qb := 1024; qc := 1500 |}).
  - split; simpl; unfold code; lia.
  - split_and!; by vm_compute.
Defined.
