(* ===== verification/SyncParse.v ===== *)
(** * Decoding sync trees
    (src/crates/baston-protocol/src/rage/sync_parse.rs)

    The world state carried by a clone blob: the record a parse produces, its
    merge into the last-known state, the leaf decoders, and the preorder walk
    over a sync-tree table. *)

From S2P Require Import Prelude F32 MessageBuffer Clone Udp SyncTrees Quaternion.
#[local] Open Scope Z_scope.

(** ** Constants and builds *)

Definition NODE_LENGTH_BITS : Z := 13.
Definition DEFAULT_SECTOR : Z * Z * Z := (512, 512, 0).
Definition SECTOR_SIZE_XY : f32 := f32_of_Z 54.
Definition SECTOR_SIZE_Z : f32 := f32_of_Z 69.
Definition SECTOR_ORIGIN_XY : f32 := f32_of_Z 512.
Definition SECTOR_ORIGIN_Z : f32 := f32_of_Z 1700.

(** [GameBuild] is its number. *)
Definition GameBuild : Type := Z.
Definition is_winter_update_25 (b : GameBuild) : bool := b >=? 3717.
Definition is_2060 (b : GameBuild) : bool := b >=? 2060.
Definition is_2189 (b : GameBuild) : bool := b >=? 2189.
Definition is_2372 (b : GameBuild) : bool := b >=? 2372.
Definition is_2545 (b : GameBuild) : bool := b >=? 2545.
Definition is_2699 (b : GameBuild) : bool := b >=? 2699.
Definition is_3258 (b : GameBuild) : bool := b >=? 3258.
Definition is_3407 (b : GameBuild) : bool := b >=? 3407.
Definition default_build : GameBuild := 3258.

Definition NO_SCRIPT_TASK : Z := 2166240316.
Definition IDLE_TASK_TYPE : Z := 530.

(** [x as i16]. *)
Definition i16 (z : Z) : Z := (z + 2 ^ 15) mod 2 ^ 16 - 2 ^ 15.

(** ** Decoded records *)

Record PedMovement := {
  is_stealthy : bool;
  is_strafing : bool;
  is_ragdolling : bool
}.

#[export] Instance PedMovement_rebuild : Rebuild PedMovement := fun r => {|
  is_stealthy := is_stealthy r; is_strafing := is_strafing r; is_ragdolling := is_ragdolling r |}.

Definition PedMovement_default : PedMovement :=
  {| is_stealthy := false; is_strafing := false; is_ragdolling := false |}.

Record PedTasks := {
  script_command : Z;
  script_task_stage : Z;
  task_types : list Z
}.

#[export] Instance PedTasks_rebuild : Rebuild PedTasks := fun r => {|
  script_command := script_command r; script_task_stage := script_task_stage r;
  task_types := task_types r |}.

Definition PedTasks_default : PedTasks := {|
  script_command := NO_SCRIPT_TASK; script_task_stage := 3;
  task_types := replicate 8 IDLE_TASK_TYPE |}.

Record VehicleGameState := {
  radio_station : Z;
  engine_on : bool;
  engine_starting : bool;
  handbrake : bool;
  default_headlights : bool;
  headlights_colour : Z;
  siren_on : bool;
  lock_status : Z;
  doors_open : Z;
  door_positions : list Z;
  is_stationary : bool;
  lights_on : bool;
  highbeams_on : bool;
  light_state : Z;
  has_been_owned_by_player : bool;
  has_lock : bool;
  locked_players : Z
}.

#[export] Instance VehicleGameState_rebuild : Rebuild VehicleGameState := fun r => {|
  radio_station := radio_station r; engine_on := engine_on r;
  engine_starting := engine_starting r; handbrake := handbrake r;
  default_headlights := default_headlights r; headlights_colour := headlights_colour r;
  siren_on := siren_on r; lock_status := lock_status r; doors_open := doors_open r;
  door_positions := door_positions r; is_stationary := is_stationary r;
  lights_on := lights_on r; highbeams_on := highbeams_on r; light_state := light_state r;
  has_been_owned_by_player := has_been_owned_by_player r; has_lock := has_lock r;
  locked_players := locked_players r |}.

Definition VehicleGameState_default : VehicleGameState := {|
  radio_station := 0; engine_on := false; engine_starting := false; handbrake := false;
  default_headlights := false; headlights_colour := 0; siren_on := false; lock_status := 0;
  doors_open := 0; door_positions := replicate 7 0; is_stationary := false; lights_on := false;
  highbeams_on := false; light_state := 0; has_been_owned_by_player := false;
  has_lock := false; locked_players := 0 |}.

Record VehicleHealth := {
  engine_health : Z;
  petrol_tank_health : Z;
  vh_health : Z;
  body_health : Z;
  tyres_fine : bool;
  tyre_status : list Z;
  total_repairs : Z
}.

#[export] Instance VehicleHealth_rebuild : Rebuild VehicleHealth := fun r => {|
  engine_health := engine_health r; petrol_tank_health := petrol_tank_health r;
  vh_health := vh_health r; body_health := body_health r; tyres_fine := tyres_fine r;
  tyre_status := tyre_status r; total_repairs := total_repairs r |}.

Definition VehicleHealth_default : VehicleHealth := {|
  engine_health := 1000; petrol_tank_health := 1000; vh_health := 1000; body_health := 1000;
  tyres_fine := true; tyre_status := replicate 16 0; total_repairs := 0 |}.

Record VehicleAppearance := {
  primary_colour : Z;
  secondary_colour : Z;
  pearl_colour : Z;
  wheel_colour : Z;
  interior_colour : Z;
  dashboard_colour : Z;
  is_primary_colour_rgb : bool;
  primary_rgb : list Z;
  is_secondary_colour_rgb : bool;
  secondary_rgb : list Z;
  dirt_level : Z;
  extras : Z;
  livery_index : Z;
  roof_livery_index : Z;
  kit_index : Z;
  wheel_choice : Z;
  wheel_type : Z;
  window_tint_index : Z;
  tyre_smoke_colour : list Z;
  plate : list Z;
  number_plate_text_index : Z;
  horn_type_hash : Z;
  has_neon_lights : bool;
  neon_colour : list Z;
  neon_sides : list bool
}.

#[export] Instance VehicleAppearance_rebuild : Rebuild VehicleAppearance := fun r => {|
  primary_colour := primary_colour r; secondary_colour := secondary_colour r;
  pearl_colour := pearl_colour r; wheel_colour := wheel_colour r;
  interior_colour := interior_colour r; dashboard_colour := dashboard_colour r;
  is_primary_colour_rgb := is_primary_colour_rgb r; primary_rgb := primary_rgb r;
  is_secondary_colour_rgb := is_secondary_colour_rgb r; secondary_rgb := secondary_rgb r;
  dirt_level := dirt_level r; extras := extras r; livery_index := livery_index r;
  roof_livery_index := roof_livery_index r; kit_index := kit_index r;
  wheel_choice := wheel_choice r; wheel_type := wheel_type r;
  window_tint_index := window_tint_index r; tyre_smoke_colour := tyre_smoke_colour r;
  plate := plate r; number_plate_text_index := number_plate_text_index r;
  horn_type_hash := horn_type_hash r; has_neon_lights := has_neon_lights r;
  neon_colour := neon_colour r; neon_sides := neon_sides r |}.

Definition VehicleAppearance_default : VehicleAppearance := {|
  primary_colour := 0; secondary_colour := 0; pearl_colour := 0; wheel_colour := 0;
  interior_colour := 0; dashboard_colour := 0; is_primary_colour_rgb := false;
  primary_rgb := [0; 0; 0]; is_secondary_colour_rgb := false; secondary_rgb := [0; 0; 0];
  dirt_level := 1; extras := 0; livery_index := -1; roof_livery_index := -1; kit_index := 0;
  wheel_choice := 0; wheel_type := 255; window_tint_index := 0;
  tyre_smoke_colour := [255; 255; 255]; plate := replicate 8 32; number_plate_text_index := 0;
  horn_type_hash := 0; has_neon_lights := false; neon_colour := [0; 0; 0];
  neon_sides := replicate 4 false |}.

Record VehicleDamage := {
  damaged_by_bullets : bool;
  any_window_broken : bool;
  windows_broken : list bool
}.

#[export] Instance VehicleDamage_rebuild : Rebuild VehicleDamage := fun r => {|
  damaged_by_bullets := damaged_by_bullets r; any_window_broken := any_window_broken r;
  windows_broken := windows_broken r |}.

Definition VehicleDamage_default : VehicleDamage := {|
  damaged_by_bullets := false; any_window_broken := false; windows_broken := replicate 8 false |}.

Record PedGameState := {
  cur_weapon : Z;
  cur_vehicle : Z;
  cur_vehicle_seat : Z;
  is_handcuffed : bool;
  is_flashlight_on : bool;
  action_mode_enabled : bool;
  stealth_mode_enabled : bool;
  arrest_state : Z;
  death_state : Z
}.

#[export] Instance PedGameState_rebuild : Rebuild PedGameState := fun r => {|
  cur_weapon := cur_weapon r; cur_vehicle := cur_vehicle r;
  cur_vehicle_seat := cur_vehicle_seat r; is_handcuffed := is_handcuffed r;
  is_flashlight_on := is_flashlight_on r; action_mode_enabled := action_mode_enabled r;
  stealth_mode_enabled := stealth_mode_enabled r; arrest_state := arrest_state r;
  death_state := death_state r |}.

Definition PedGameState_default : PedGameState := {|
  cur_weapon := 0; cur_vehicle := -1; cur_vehicle_seat := -1; is_handcuffed := false;
  is_flashlight_on := false; action_mode_enabled := false; stealth_mode_enabled := false;
  arrest_state := 0; death_state := 0 |}.

(** What one clone record carries: every field optional. *)
Record SyncNodeData := {
  sector : option (Z * Z * Z);
  sector_position : option vec3;
  velocity : option vec3;
  health : option f32;
  max_health : option f32;
  armour : option f32;
  model : option Z;
  vehicle_seat : option (Z * Z);
  heading : option f32;
  vehicle_game_state : option VehicleGameState;
  vehicle_health : option VehicleHealth;
  vehicle_appearance : option VehicleAppearance;
  vehicle_damage : option VehicleDamage;
  ped_game_state : option PedGameState;
  source_of_damage : option Z;
  cause_of_death : option Z;
  desired_heading : option f32;
  ped_movement : option PedMovement;
  relationship_group : option Z;
  ped_tasks : option PedTasks;
  population_type : option Z;
  is_visible : option bool;
  script_hash : option Z;
  attached_to : option Z
}.

#[export] Instance SyncNodeData_rebuild : Rebuild SyncNodeData := fun r => {|
  sector := sector r; sector_position := sector_position r; velocity := velocity r;
  health := health r; max_health := max_health r; armour := armour r; model := model r;
  vehicle_seat := vehicle_seat r; heading := heading r;
  vehicle_game_state := vehicle_game_state r; vehicle_health := vehicle_health r;
  vehicle_appearance := vehicle_appearance r; vehicle_damage := vehicle_damage r;
  ped_game_state := ped_game_state r; source_of_damage := source_of_damage r;
  cause_of_death := cause_of_death r; desired_heading := desired_heading r;
  ped_movement := ped_movement r; relationship_group := relationship_group r;
  ped_tasks := ped_tasks r; population_type := population_type r; is_visible := is_visible r;
  script_hash := script_hash r; attached_to := attached_to r |}.

Definition SyncNodeData_default : SyncNodeData := {|
  sector := None; sector_position := None; velocity := None; health := None;
  max_health := None; armour := None; model := None; vehicle_seat := None; heading := None;
  vehicle_game_state := None; vehicle_health := None; vehicle_appearance := None;
  vehicle_damage := None; ped_game_state := None; source_of_damage := None;
  cause_of_death := None; desired_heading := None; ped_movement := None;
  relationship_group := None; ped_tasks := None; population_type := None; is_visible := None;
  script_hash := None; attached_to := None |}.

(** The merged, last-known value of every decoded node. *)
Record EntityNodeState := {
  ns_vehicle_game_state : option VehicleGameState;
  ns_vehicle_health : option VehicleHealth;
  ns_vehicle_appearance : option VehicleAppearance;
  ns_vehicle_damage : option VehicleDamage;
  ns_ped_game_state : option PedGameState;
  ns_ped_movement : option PedMovement;
  ns_ped_tasks : option PedTasks;
  ns_relationship_group : option Z;
  ns_source_of_damage : option Z;
  ns_cause_of_death : option Z;
  ns_population_type : option Z;
  ns_is_visible : option bool;
  ns_script_hash : option Z;
  ns_attached_to : option Z;
  last_vehicle : option Z;
  last_vehicle_seat : option Z
}.

#[export] Instance EntityNodeState_rebuild : Rebuild EntityNodeState := fun r => {|
  ns_vehicle_game_state := ns_vehicle_game_state r; ns_vehicle_health := ns_vehicle_health r;
  ns_vehicle_appearance := ns_vehicle_appearance r; ns_vehicle_damage := ns_vehicle_damage r;
  ns_ped_game_state := ns_ped_game_state r; ns_ped_movement := ns_ped_movement r;
  ns_ped_tasks := ns_ped_tasks r; ns_relationship_group := ns_relationship_group r;
  ns_source_of_damage := ns_source_of_damage r; ns_cause_of_death := ns_cause_of_death r;
  ns_population_type := ns_population_type r; ns_is_visible := ns_is_visible r;
  ns_script_hash := ns_script_hash r; ns_attached_to := ns_attached_to r;
  last_vehicle := last_vehicle r; last_vehicle_seat := last_vehicle_seat r |}.

Definition EntityNodeState_default : EntityNodeState := {|
  ns_vehicle_game_state := None; ns_vehicle_health := None; ns_vehicle_appearance := None;
  ns_vehicle_damage := None; ns_ped_game_state := None; ns_ped_movement := None;
  ns_ped_tasks := None; ns_relationship_group := None; ns_source_of_damage := None;
  ns_cause_of_death := None; ns_population_type := None; ns_is_visible := None;
  ns_script_hash := None; ns_attached_to := None; last_vehicle := None;
  last_vehicle_seat := None |}.

(** [*self == Self::default()]. *)
Definition is_empty (d : SyncNodeData) : bool :=
  is_none (sector d) && is_none (sector_position d) && is_none (velocity d)
  && is_none (health d) && is_none (max_health d) && is_none (armour d)
  && is_none (model d) && is_none (vehicle_seat d) && is_none (heading d)
  && is_none (vehicle_game_state d) && is_none (vehicle_health d) && is_none (vehicle_appearance d)
  && is_none (vehicle_damage d) && is_none (ped_game_state d) && is_none (source_of_damage d)
  && is_none (cause_of_death d) && is_none (desired_heading d) && is_none (ped_movement d)
  && is_none (relationship_group d) && is_none (ped_tasks d) && is_none (population_type d)
  && is_none (is_visible d) && is_none (script_hash d) && is_none (attached_to d).

Definition merge_field {T} (slot incoming : option T) : option T :=
  match incoming with Some value => Some value | None => slot end.

(** The occupancy a ped has just left, when the record says it is in nothing. *)
Definition left_vehicle (self : EntityNodeState) (decoded : SyncNodeData) : option (Z * Z) :=
  match ped_game_state decoded with
  | Some state =>
      if cur_vehicle state <? 0 then
        match ns_ped_game_state self with
        | Some previous =>
            if cur_vehicle previous >=? 0 then
              if cur_vehicle previous <=? 65535
              then Some (cur_vehicle previous, cur_vehicle_seat previous) else None
            else None
        | None => None
        end
      else None
  | None => None
  end.

Definition merge (self : EntityNodeState) (decoded : SyncNodeData) : EntityNodeState :=
  let self :=
    match left_vehicle self decoded with
    | Some (vehicle, seat) =>
        self <| last_vehicle := Some vehicle |> <| last_vehicle_seat := Some seat |>
    | None => self
    end in
  self
    <| ns_vehicle_game_state := merge_field (ns_vehicle_game_state self) (vehicle_game_state decoded) |>
    <| ns_vehicle_health := merge_field (ns_vehicle_health self) (vehicle_health decoded) |>
    <| ns_vehicle_appearance := merge_field (ns_vehicle_appearance self) (vehicle_appearance decoded) |>
    <| ns_vehicle_damage := merge_field (ns_vehicle_damage self) (vehicle_damage decoded) |>
    <| ns_ped_game_state := merge_field (ns_ped_game_state self) (ped_game_state decoded) |>
    <| ns_ped_movement := merge_field (ns_ped_movement self) (ped_movement decoded) |>
    <| ns_ped_tasks := merge_field (ns_ped_tasks self) (ped_tasks decoded) |>
    <| ns_relationship_group := merge_field (ns_relationship_group self) (relationship_group decoded) |>
    <| ns_source_of_damage := merge_field (ns_source_of_damage self) (source_of_damage decoded) |>
    <| ns_cause_of_death := merge_field (ns_cause_of_death self) (cause_of_death decoded) |>
    <| ns_population_type := merge_field (ns_population_type self) (population_type decoded) |>
    <| ns_is_visible := merge_field (ns_is_visible self) (is_visible decoded) |>
    <| ns_script_hash := merge_field (ns_script_hash self) (script_hash decoded) |>
    <| ns_attached_to := merge_field (ns_attached_to self) (attached_to decoded) |>.

Definition world_position (sector : Z * Z * Z) (sector_position : vec3) : vec3 :=
  let '(s0, s1, s2) := sector in
  let '(p0, p1, p2) := sector_position in
  (f32_add (f32_mul (f32_sub (f32_of_Z s0) SECTOR_ORIGIN_XY) SECTOR_SIZE_XY) p0,
   f32_add (f32_mul (f32_sub (f32_of_Z s1) SECTOR_ORIGIN_XY) SECTOR_SIZE_XY) p1,
   f32_sub (f32_add (f32_mul (f32_of_Z s2) SECTOR_SIZE_Z) p2) SECTOR_ORIGIN_Z).

(** ** Leaf decoders *)

(** [buf.read_bit() != 0], and the same with its value dropped. *)
Definition flag : SM MessageBuffer bool := v ← lift read_bit; mret (negb (v =? 0)).
Definition skip_bit : SM MessageBuffer unit := _ ← lift read_bit; mret tt.
Definition skip_bits (n : nat) : SM MessageBuffer unit := repeat_m n skip_bit.

(** [buf.read_bits_single(n)?], its value dropped. *)
Definition skip_field (n : Z) : SM MessageBuffer unit := _ ← read_bits_single n; mret tt.

(** [buf.read_bits_single(n)? as u8]. *)
Definition read_u8 (n : Z) : SM MessageBuffer Z := v ← read_bits_single n; mret (u8 v).

Definition mask_bit (mask slot : Z) : bool := negb (Z.land mask (Z.shiftl 1 slot) =? 0).

Section Decoders.
Context `{Libm}.

Definition read_sector_offset (bits : Z) : SM MessageBuffer vec3 :=
  x ← read_float bits SECTOR_SIZE_XY;
  y ← read_float bits SECTOR_SIZE_XY;
  z ← read_float bits SECTOR_SIZE_Z;
  mret (x, y, z).

Definition normalise_degrees (degrees : f32) : f32 := f32_rem_euclid degrees (f32_of_Z 360).

Definition read_quaternion_heading : SM MessageBuffer f32 :=
  largest ← read_bits_single 2;
  a ← read_bits_single BITS;
  b ← read_bits_single BITS;
  c ← read_bits_single BITS;
  mret (to_heading_degrees
    (decompress {| largest := largest; qa := a; qb := b; qc := c |} BITS)).

(** The damage tail of [decode_ped_health]; each stage keeps what precedes it. *)
Definition decode_damage_source (out : SyncNodeData) (build : GameBuild)
    : SM MessageBuffer SyncNodeData :=
  gate ← attempt
    (when (is_2060 build)
       (has_first ← flag;
        has_second ← flag;
        _ ← when has_second (skip_field 13) tt;
        when (negb has_first) (skip_field 13) tt) tt);
  match gate with
  | None => mret out
  | Some _ =>
      damaged ← flag;
      source ← attempt (if (damaged : bool) then v ← read_bits_single 13; mret (u16 v) else mret 0);
      match source with
      | None => mret out
      | Some v =>
          let out := out <| source_of_damage := Some v |> in
          cause ← attempt (read_bits_single 32);
          match cause with
          | None => mret out
          | Some c => mret (out <| cause_of_death := Some c |>)
          end
      end
  end.

Definition decode_ped_health (build : GameBuild) (out : SyncNodeData)
    : SM MessageBuffer SyncNodeData :=
  let health_bits := if is_winter_update_25 build then 14 else 13 in
  is_fine ← flag;
  max_health_changed ← flag;
  max ← (if (max_health_changed : bool) then attempt (read_bits_single health_bits) else mret None);
  h ← (if (is_fine : bool) then mret max
       else value ← attempt (read_bits_single health_bits);
            _ ← skip_bits 2;
            mret value);
  no_armour ← flag;
  ar ← (if (no_armour : bool) then mret (Some 0) else attempt (read_bits_single 13));
  let out := out <| health := f32_of_Z <$> h |> <| max_health := f32_of_Z <$> max |>
                 <| armour := f32_of_Z <$> ar |> in
  decode_damage_source out build.

Definition decode_ped_movement : SM MessageBuffer PedMovement :=
  _ ← skip_field 32;
  action_mode ← flag;
  if (action_mode : bool) then mret PedMovement_default
  else
    _ ← skip_field 3;
    _ ← skip_field 5;
    _ ← skip_field 32;
    _ ← skip_bit;
    stealthy ← flag;
    strafing ← flag;
    ragdolling ← flag;
    mret {| is_stealthy := stealthy; is_strafing := strafing; is_ragdolling := ragdolling |}.

Definition decode_ped_tasks (build : GameBuild) : SM MessageBuffer PedTasks :=
  let idle := if is_2060 build then IDLE_TASK_TYPE + 1 else IDLE_TASK_TYPE in
  scripted ← flag;
  '(command, stage) ←
    when scripted
      (command ← read_bits_single 32; stage ← read_bits_single 3; mret (command, stage))
      (script_command PedTasks_default, script_task_stage PedTasks_default);
  occupied ← read_bits_single 8;
  tasks ← map_m (fun slot =>
      when (mask_bit occupied slot)
        (task ← read_bits_single 10;
         _ ← skip_bit;
         _ ← skip_field 3;
         _ ← skip_field 3;
         _ ← skip_field 5;
         mret (u16 task)) idle)
    (seqZ 0 8);
  mret {| script_command := command; script_task_stage := stage; task_types := tasks |}.

(** The middle of the vehicle node, present unless [state_absent]. *)
Definition decode_vehicle_detail (build : GameBuild) (out : VehicleGameState)
    : SM MessageBuffer VehicleGameState :=
  default ← flag;
  colour ← when (negb default) (read_u8 8) (headlights_colour out);
  siren ← flag;
  _ ← when (is_3407 build) skip_bit tt;
  b ← flag;
  _ ← when b skip_bit tt;
  _ ← skip_bit;
  doors ← flag;
  out ← when doors
    (lock ← read_u8 5;
     _ ← skip_field 7;
     _ ← skip_field 7;
     doors_open_mask ← read_u8 7;
     positions ← map_m (fun door => when (mask_bit doors_open_mask door) (read_u8 4) 0) (seqZ 0 7);
     extra_mask ← read_bits_single 8;
     _ ← map_m (fun slot => when (mask_bit extra_mask slot) (skip_field 5) tt) (seqZ 0 7);
     mret (out <| lock_status := lock |> <| doors_open := doors_open_mask |>
               <| door_positions := positions |>)) out;
  windows ← flag;
  _ ← when windows (skip_field 6) tt;
  _ ← skip_bits 2;
  stationary ← flag;
  _ ← skip_bits 3;
  f ← flag;
  _ ← when f (_ ← read_float 10 (f32_of_Z 3000); mret tt) tt;
  mret (out <| default_headlights := default |> <| headlights_colour := colour |>
            <| siren_on := siren |> <| is_stationary := stationary |>).

Definition decode_vehicle_game_state (build : GameBuild) : SM MessageBuffer VehicleGameState :=
  let out := VehicleGameState_default in
  radio ← read_u8 (if is_2545 build then 7 else 6);
  _ ← skip_bit;
  engine ← flag;
  starting ← flag;
  _ ← skip_bit;
  brake ← flag;
  _ ← skip_bits 2;
  let out := out <| radio_station := radio |> <| engine_on := engine |>
                 <| engine_starting := starting |> <| handbrake := brake |> in
  state_absent ← flag;
  out ← (if (state_absent : bool) then mret (out <| default_headlights := true |>)
         else decode_vehicle_detail build out);
  b1 ← flag;
  _ ← when b1 (_ ← skip_field 32; skip_field 13) tt;
  b2 ← flag;
  _ ← when b2 (_ ← skip_field 13; skip_field 13) tt;
  b3 ← flag;
  _ ← when b3 (skip_field 13) tt;
  lights ← flag;
  beams ← flag;
  light ← read_u8 3;
  _ ← skip_bits 6;
  _ ← skip_field 32;
  _ ← skip_field 3;
  _ ← skip_bit;
  owned ← flag;
  _ ← skip_bits 6;
  _ ← when (is_2699 build) (skip_bits 2) tt;
  lock ← flag;
  players ← when lock (v ← read_bits_single 32; mret (i32 v)) (locked_players out);
  mret (out <| lights_on := lights |> <| highbeams_on := beams |> <| light_state := light |>
            <| has_been_owned_by_player := owned |> <| has_lock := lock |>
            <| locked_players := players |>).

(** One wheel's status bits. *)
Definition decode_wheel (build : GameBuild) : SM MessageBuffer Z :=
  _ ← when (is_2060 build) (b ← flag; when b (skip_field 8) tt) tt;
  burst ← flag;
  on_rim ← flag;
  _ ← skip_bits 2;
  mret (if (on_rim : bool) then 2 else if (burst : bool) then 1 else 0).

Definition decode_wheels (build : GameBuild) (fine extra_fine : bool) (status : list Z)
    : SM MessageBuffer (list Z) :=
  total_wheels ← read_bits_single 4;
  status ← when (negb fine)
    (fold_m (fun status wheel =>
        v ← decode_wheel build; mret (<[Z.to_nat wheel := v]> status))
      status (seqZ 0 total_wheels)) status;
  _ ← when (negb extra_fine)
    (_ ← map_m (fun _ => b ← flag; when b (skip_field 10) tt) (seqZ 0 total_wheels); mret tt) tt;
  mret status.

Definition decode_vehicle_health (build : GameBuild) : SM MessageBuffer VehicleHealth :=
  let out := VehicleHealth_default in
  _ ← skip_bits 2;
  engine_damaged ← flag;
  tank_damaged ← flag;
  engine ← when engine_damaged (read_signed 19) (engine_health out);
  tank ← when tank_damaged (read_signed 19) (petrol_tank_health out);
  fine ← flag;
  extra_fine ← flag;
  tyres ← when (negb fine || negb extra_fine)
    (decode_wheels build fine extra_fine (tyre_status out)) (tyre_status out);
  h_full ← flag;
  h ← when (negb h_full) (read_signed 19) (vh_health out);
  b_full ← flag;
  bh ← when (negb b_full) (read_signed 19) (body_health out);
  damaged ← flag;
  _ ← when damaged (_ ← skip_field 13; skip_field 32) tt;
  _ ← skip_field 4;
  repairs ← read_u8 4;
  mret {| engine_health := engine; petrol_tank_health := tank; vh_health := h;
          body_health := bh; tyres_fine := fine; tyre_status := tyres; total_repairs := repairs |}.

Definition read_rgb : SM MessageBuffer (list Z) := map_m (fun _ => read_u8 8) (seqZ 0 3).

(** The five optional badge and emblem blocks of the appearance node. *)
Definition skip_emblems : SM MessageBuffer unit :=
  texture ← flag;
  _ ← (if (texture : bool) then _ ← skip_field 32; skip_field 32
       else _ ← skip_field 1; _ ← skip_field 32; _ ← skip_bit; skip_field 3);
  repeat_m 4
    (badge ← flag;
     when badge
       (_ ← skip_field 10;
        _ ← skip_field 8;
        _ ← repeat_m 3 (_ ← skip_field 14; _ ← skip_field 14; skip_field 10);
        skip_field 16) tt).

(** The mod kit block, present when the kit index is not zero. *)
Definition decode_mod_kit (out : VehicleAppearance) : SM MessageBuffer VehicleAppearance :=
  _ ← repeat_m 13 (b ← flag; when b (skip_field 32) tt);
  toggles ← flag;
  _ ← when toggles (skip_field 6) tt;
  choice ← read_u8 8;
  wtype ← read_u8 4;
  rear ← flag;
  _ ← when rear (skip_field 8) tt;
  _ ← skip_bits 2;
  mret (out <| wheel_choice := choice |> <| wheel_type := wtype |>).

Definition decode_vehicle_appearance (build : GameBuild) : SM MessageBuffer VehicleAppearance :=
  let out := VehicleAppearance_default in
  c1 ← read_u8 8; c2 ← read_u8 8; c3 ← read_u8 8;
  c4 ← read_u8 8; c5 ← read_u8 8; c6 ← read_u8 8;
  let out := out <| primary_colour := c1 |> <| secondary_colour := c2 |> <| pearl_colour := c3 |>
    <| wheel_colour := c4 |> <| interior_colour := c5 |> <| dashboard_colour := c6 |> in
  primary ← flag;
  prgb ← when primary read_rgb (primary_rgb out);
  secondary ← flag;
  srgb ← when secondary read_rgb (secondary_rgb out);
  let out := out <| is_primary_colour_rgb := primary |> <| primary_rgb := prgb |>
    <| is_secondary_colour_rgb := secondary |> <| secondary_rgb := srgb |> in
  _ ← skip_field 8;
  details ← flag;
  out ← when details
    (dirt ← read_u8 5;
     ex ← read_bits_single 16;
     l ← flag;
     livery ← when l (v ← read_bits_single 5; mret (i16 v)) 0;
     r ← flag;
     roof ← when r (v ← read_bits_single 5; mret (i16 v)) 0;
     mret (out <| dirt_level := dirt |> <| extras := u16 ex |> <| livery_index := livery |>
               <| roof_livery_index := roof |>)) out;
  kit ← read_u8 2;
  let out := out <| kit_index := kit |> in
  out ← when (negb (kit =? 0)) (decode_mod_kit out) out;
  tint ← flag;
  tint_index ← when tint (read_u8 8) (window_tint_index out);
  smoke ← flag;
  smoke_colour ← when smoke read_rgb (tyre_smoke_colour out);
  has_plate ← flag;
  plate_chars ← map_m (fun c => when has_plate (read_u8 7) c) (plate out);
  text_index ← read_bits_single 32;
  horn ← read_bits_single 32;
  emblems ← flag;
  _ ← when emblems skip_emblems tt;
  neon ← flag;
  '(ncolour, nsides) ← when neon
    (colour ← read_rgb;
     sides ← map_m (fun _ => flag) (seqZ 0 4);
     _ ← when (is_2372 build) skip_bit tt;
     mret (colour, sides)) (neon_colour out, neon_sides out);
  mret (out <| window_tint_index := tint_index |> <| tyre_smoke_colour := smoke_colour |>
    <| plate := plate_chars |> <| number_plate_text_index := text_index |>
    <| horn_type_hash := horn |> <| has_neon_lights := neon |> <| neon_colour := ncolour |>
    <| neon_sides := nsides |>).

Definition decode_vehicle_damage : SM MessageBuffer VehicleDamage :=
  panels ← flag;
  _ ← when panels (repeat_m 6 (skip_field 2)) tt;
  bullets ← flag;
  _ ← when bullets (repeat_m 6 (skip_field 8)) tt;
  bumpers ← flag;
  _ ← when bumpers (_ ← skip_field 2; skip_field 2) tt;
  b ← flag;
  _ ← when b (skip_bits 22) tt;
  any ← flag;
  windows ← map_m (fun _ => when any flag false) (seqZ 0 8);
  mret {| damaged_by_bullets := bullets; any_window_broken := any; windows_broken := windows |}.

Definition decode_ped_game_state (build : GameBuild) : SM MessageBuffer PedGameState :=
  _ ← skip_bits 6;
  _ ← when (is_2060 build)
    (_ ← skip_bits 2;
     _ ← when (is_2189 build) skip_bit tt;
     _ ← when (is_2372 build) skip_bit tt;
     when (is_3407 build) (skip_bits 2) tt) tt;
  arrest ← read_u8 1;
  death ← read_u8 2;
  armed ← flag;
  weapon ← when armed
    (w ← read_bits_single 32; _ ← when (is_3258 build) (skip_field 3) tt; mret w) 0;
  _ ← when (is_2060 build) skip_bit tt;
  _ ← skip_bits 5;
  tint ← flag;
  _ ← when tint (skip_field 5) tt;
  components ← read_bits_single 4;
  _ ← repeat_m (Z.to_nat components)
    (_ ← skip_field 32;
     when (is_2372 build) (b ← flag; when b (skip_field 5) tt) tt);
  gadgets ← read_bits_single 2;
  _ ← repeat_m (Z.to_nat gadgets) (skip_field 32);
  in_vehicle ← flag;
  '(vehicle, seat) ← when in_vehicle
    (v ← read_bits_single 13;
     seated ← flag;
     if (seated : bool) then s ← read_bits_single 5; mret (i32 v, i32 s) else mret (-1, -1))
    (-1, -1);
  b ← flag;
  _ ← when b skip_bit tt;
  custody ← flag;
  cuffed ← when custody (_ ← skip_field 13; c ← flag; _ ← skip_bits 4; mret c) false;
  flashlight ← flag;
  action ← flag;
  stealth ← flag;
  mret {| cur_weapon := weapon; cur_vehicle := vehicle; cur_vehicle_seat := seat;
          is_handcuffed := cuffed; is_flashlight_on := flashlight; action_mode_enabled := action;
          stealth_mode_enabled := stealth; arrest_state := arrest; death_state := death |}.
End Decoders.

(** ** Leaf dispatch *)

Definition decoded_names : list string := [
  "CSectorDataNode"; "CSectorPositionDataNode"; "CPlayerSectorPosNode"; "CObjectSectorPosNode";
  "CPedSectorPosMapNode"; "CPedHealthDataNode"; "CVehicleCreationDataNode";
  "CPedCreationDataNode"; "CEntityOrientationDataNode"; "CObjectOrientationDataNode";
  "CPedOrientationDataNode"; "CPhysicalVelocityDataNode"; "CVehicleGameStateDataNode";
  "CVehicleHealthDataNode"; "CVehicleAppearanceDataNode"; "CVehicleDamageStatusDataNode";
  "CPedGameStateDataNode"; "CPedMovementGroupDataNode"; "CPedAIDataNode";
  "CPedTaskTreeDataNode"; "CPedScriptGameStateDataNode"; "CPhysicalGameStateDataNode";
  "CEntityScriptInfoDataNode"; "CPhysicalAttachDataNode"; "CPedAttachDataNode"]%string.

Definition decodes (name : string) : bool := existsb (String.eqb name) decoded_names.

(** [0.0625] *)
Definition QUANTUM : f32 := f32_div f32_one (f32_of_Z 16).

Section Walk.
Context `{Libm}.

(** Every branch is total: a failed read inside is a value. *)
Definition decode_leaf (name : string) (build : GameBuild) (out : SyncNodeData)
    : SM MessageBuffer SyncNodeData :=
  let named s := String.eqb name s in
  if named "CSectorDataNode"%string then
    x ← attempt (read_bits_single 10);
    y ← attempt (read_bits_single 10);
    z ← attempt (read_bits_single 6);
    mret (match x, y, z with
          | Some x, Some y, Some z => out <| sector := Some (i32 x, i32 y, i32 z) |>
          | _, _, _ => out
          end)
  else if named "CSectorPositionDataNode"%string then
    o ← attempt (read_sector_offset 12); mret (out <| sector_position := o |>)
  else if named "CPlayerSectorPosNode"%string then
    standing ← flag;
    _ ← when standing
      (_ ← skip_bits 2;
       on ← flag;
       when on
         (_ ← attempt (read_bits_single 13);
          _ ← attempt (read_signed_float 14 (f32_of_Z 40));
          _ ← attempt (read_signed_float 14 (f32_of_Z 40));
          _ ← attempt (read_signed_float 10 (f32_of_Z 20));
          mret tt) tt) tt;
    o ← attempt (read_sector_offset 12); mret (out <| sector_position := o |>)
  else if named "CObjectSectorPosNode"%string then
    high ← flag;
    o ← attempt (read_sector_offset (if (high : bool) then 20 else 12));
    mret (out <| sector_position := o |>)
  else if named "CPedSectorPosMapNode"%string then
    o ← attempt (read_sector_offset 12); mret (out <| sector_position := o |>)
  else if named "CPedHealthDataNode"%string then decode_ped_health build out
  else if named "CVehicleCreationDataNode"%string then
    m ← attempt (read_bits_single 32);
    pop ← attempt (read_u8 4);
    mret (out <| model := m |> <| population_type := pop |>)
  else if named "CPedCreationDataNode"%string then
    _ ← skip_bits 2;
    pop ← attempt (read_u8 4);
    m ← attempt (read_bits_single 32);
    _ ← attempt (read_bits_single 16);
    in_vehicle ← flag;
    _ ← attempt (read_bits_single 32);
    let out := out <| population_type := pop |> <| model := m |> in
    if (in_vehicle : bool) then
      vehicle ← attempt (read_bits_single 13);
      seat ← attempt (read_bits_single 5);
      mret (match vehicle, seat with
            | Some v, Some s => out <| vehicle_seat := Some (u16 v, u8 s) |>
            | _, _ => out
            end)
    else mret out
  else if named "CEntityOrientationDataNode"%string then
    h ← attempt read_quaternion_heading; mret (out <| heading := h |>)
  else if named "CObjectOrientationDataNode"%string then
    raw ← flag;
    if (raw : bool) then
      let divisor := f32_mul f32_PI (f32_of_Z 4) in
      _ ← attempt (read_signed_float 20 divisor);
      _ ← attempt (read_signed_float 20 divisor);
      h ← attempt (z ← read_signed_float 20 divisor; mret (normalise_degrees (to_degrees z)));
      mret (out <| heading := h |>)
    else h ← attempt read_quaternion_heading; mret (out <| heading := h |>)
  else if named "CPedOrientationDataNode"%string then
    h ← attempt (r ← read_signed_float 8 TAU_RADIANS; mret (normalise_degrees (to_degrees r)));
    dh ← attempt (r ← read_signed_float 8 TAU_RADIANS; mret (normalise_degrees (to_degrees r)));
    mret (out <| heading := h |> <| desired_heading := dh |>)
  else if named "CPhysicalVelocityDataNode"%string then
    x ← attempt (read_signed 12);
    y ← attempt (read_signed 12);
    z ← attempt (read_signed 12);
    mret (match x, y, z with
          | Some x, Some y, Some z =>
              out <| velocity := Some (f32_mul (f32_of_Z x) QUANTUM, f32_mul (f32_of_Z y) QUANTUM,
                                       f32_mul (f32_of_Z z) QUANTUM) |>
          | _, _, _ => out
          end)
  else if named "CVehicleGameStateDataNode"%string then
    v ← attempt (decode_vehicle_game_state build); mret (out <| vehicle_game_state := v |>)
  else if named "CVehicleHealthDataNode"%string then
    v ← attempt (decode_vehicle_health build); mret (out <| vehicle_health := v |>)
  else if named "CVehicleAppearanceDataNode"%string then
    v ← attempt (decode_vehicle_appearance build); mret (out <| vehicle_appearance := v |>)
  else if named "CVehicleDamageStatusDataNode"%string then
    v ← attempt decode_vehicle_damage; mret (out <| vehicle_damage := v |>)
  else if named "CPedGameStateDataNode"%string then
    v ← attempt (decode_ped_game_state build); mret (out <| ped_game_state := v |>)
  else if named "CPedMovementGroupDataNode"%string then
    v ← attempt decode_ped_movement; mret (out <| ped_movement := v |>)
  else if named "CPedAIDataNode"%string then
    v ← attempt (read_bits_single 32); mret (out <| relationship_group := v |>)
  else if named "CPedTaskTreeDataNode"%string then
    v ← attempt (decode_ped_tasks build); mret (out <| ped_tasks := v |>)
  else if named "CPedScriptGameStateDataNode"%string then
    v ← attempt (read_u8 4); mret (out <| population_type := v |>)
  else if named "CPhysicalGameStateDataNode"%string then
    v ← flag; mret (out <| is_visible := Some v |>)
  else if named "CEntityScriptInfoDataNode"%string then
    b ← flag;
    if (b : bool) then v ← attempt (read_bits_single 32); mret (out <| script_hash := v |>)
    else mret out
  else if named "CPhysicalAttachDataNode"%string || named "CPedAttachDataNode"%string then
    b ← flag;
    if (b : bool)
    then v ← attempt (v ← read_bits_single 13; mret (u16 v)); mret (out <| attached_to := v |>)
    else mret (out <| attached_to := Some 0 |>)
  else mret out.

(** [decode_leaf name &mut view build out], keeping only [out]. *)
Definition run_leaf (name : string) (view : MessageBuffer) (build : GameBuild)
    (out : SyncNodeData) : SyncNodeData :=
  default out (fst (decode_leaf name build out view)).

(** ** The walk *)

Record WalkContext := {
  tree : list FlatNode; ctx_sync_type : Z; ctx_obj_type : Z; ctx_build : GameBuild }.

(** The state the recursion threads: cursor, buffer, output. *)
Definition WalkState : Type := nat * MessageBuffer * SyncNodeData.

Definition should_read (ids : Z * Z * Z) (sync_type obj_type : Z) (buf : MessageBuffer)
    : bool * MessageBuffer :=
  let '(id1, id2, id3) := ids in
  if Z.land id1 sync_type =? 0 then (false, buf)
  else if negb (id3 =? 0) && (Z.land obj_type id3 =? 0) then (false, buf)
  else if negb (Z.land id2 sync_type =? 0) then
    let '(bit, buf) := read_bit buf in (negb (bit =? 0), buf)
  else (true, buf).

Fixpoint skip_run (l : list FlatNode) (dep : Z) (cursor : nat) : nat :=
  match l with
  | n :: l' => if depth n >? dep then skip_run l' dep (S cursor) else cursor
  | [] => cursor
  end.

Definition skip_subtree (tree : list FlatNode) (cursor : nat) (dep : Z) : nat :=
  skip_run (drop cursor tree) dep cursor.

(** A leaf that is read: its framed body, and the unconditional resync. *)
Definition walk_leaf (ctx : WalkContext) (name : string) (cursor : nat) (buf : MessageBuffer)
    (out : SyncNodeData) : bool * WalkState :=
  match read_bits_single NODE_LENGTH_BITS buf with
  | (None, buf) => (false, (cursor, buf, out))
  | (Some length, buf) =>
      let start := cur_bit buf in
      let end_ := start + length in
      if end_ >? Z.of_nat (Datatypes.length (data buf)) * 8 then (false, (cursor, buf, out))
      else
        let '(buf, out) :=
          if decodes name then
            let body := replicate (Z.to_nat ((length + 7) / 8)) 0 in
            let '((ok, body), buf) := read_bits body length buf in
            if ok then (buf, run_leaf name (from_bits body length) (ctx_build ctx) out)
            else (buf, out)
          else (buf, out) in
        (true, (cursor, set_current_bit buf end_, out))
  end.

(** The loop over a parent's children: [None] is fuel exhaustion. *)
Fixpoint walk_children (walk : nat -> MessageBuffer -> SyncNodeData -> option (bool * WalkState))
    (fuel : nat) (tree : list FlatNode) (dep : Z) (st : WalkState) : option (bool * WalkState) :=
  match fuel with
  | O => None
  | S fuel =>
      let '(cursor, buf, out) := st in
      match tree !! cursor with
      | Some child =>
          if depth child >? dep then
            match walk cursor buf out with
            | Some (true, st) => walk_children walk fuel tree dep st
            | r => r
            end
          else Some (true, st)
      | None => Some (true, st)
      end
  end.

Fixpoint walk (fuel : nat) (ctx : WalkContext) (cursor : nat) (buf : MessageBuffer)
    (out : SyncNodeData) : option (bool * WalkState) :=
  match fuel with
  | O => None
  | S fuel =>
      match tree ctx !! cursor with
      | None => Some (false, (cursor, buf, out))
      | Some node =>
          let dep := depth node in
          let cursor := S cursor in
          let '(read, buf) := should_read (ids node) (ctx_sync_type ctx) (ctx_obj_type ctx) buf in
          match kind node with
          | Parent =>
              if read
              then walk_children (walk fuel ctx) fuel (tree ctx) dep (cursor, buf, out)
              else Some (true, (skip_subtree (tree ctx) cursor dep, buf, out))
          | Data name _ =>
              if read then Some (walk_leaf ctx name cursor buf out)
              else Some (true, (cursor, buf, out))
          end
      end
  end.

(** One level of recursion and one loop iteration per node at most. *)
Definition walk_fuel (ctx : WalkContext) : nat := S (length (tree ctx)).

Definition parse_sync_tree (entity_type : NetObjEntityType) (is_create : bool) (d : list Z)
    (length_hack : bool) (build : GameBuild) : SyncNodeData :=
  let buf := with_length_hack (from_bytes d) length_hack in
  let '(sync_type, obj_type, buf) :=
    if is_create then (1, 0, buf)
    else let '(bit, buf) := read_bit buf in (2, bit, buf) in
  let ctx := {| tree := tree_for entity_type; ctx_sync_type := sync_type;
                ctx_obj_type := obj_type; ctx_build := build |} in
  match walk (walk_fuel ctx) ctx 0 buf SyncNodeData_default with
  | Some (_, (_, _, out)) => out
  | None => SyncNodeData_default
  end.
End Walk.

(** ** The walk is a structural parse of the tree

    [parse_node] recurses over the tree itself; the walk over the flattened
    table, with its cursor, its depth comparisons and its fuel, is proved to
    compute the same thing on every input. *)

Section Reference.
Context `{Libm}.
Variable ctx : WalkContext.

Definition ParseState : Type := MessageBuffer * SyncNodeData.

Section RunAll.
Context (f : SyncNode -> ParseState -> bool * ParseState).

Fixpoint run_all (ts : list SyncNode) (st : ParseState) : bool * ParseState :=
  match ts with
  | [] => (true, st)
  | t :: ts => let '(ok, st) := f t st in if ok then run_all ts st else (false, st)
  end.
End RunAll.

Definition forget_cursor (r : bool * WalkState) : bool * ParseState :=
  let '(ok, (_, buf, out)) := r in (ok, (buf, out)).

Fixpoint parse_node (t : SyncNode) (st : ParseState) : bool * ParseState :=
  let gate ids := should_read ids (ctx_sync_type ctx) (ctx_obj_type ctx) st.1 in
  match t with
  | SLeaf ids name _ =>
      let '(read, buf) := gate ids in
      if read then forget_cursor (walk_leaf ctx name 0 buf st.2) else (true, (buf, st.2))
  | SParent ids ts =>
      let '(read, buf) := gate ids in
      if read then run_all parse_node ts (buf, st.2) else (true, (buf, st.2))
  end.

(** What follows a subtree is not deeper than its root. *)
Definition closes (dep : Z) (post : list FlatNode) : Prop :=
  match post with [] => True | n :: _ => depth n <= dep end.

Lemma skip_run_below dep l post c : Forall (fun m => dep < depth m) l -> closes dep post ->
  skip_run (l ++ post) dep c = (c + length l)%nat.
Proof.
  intros Hl Hpost. revert c. induction Hl as [|n l Hn _ IH]; intros c; simpl.
  - destruct post as [|n post]; simpl in *; [lia|]. destruct (Z.gtb_spec (depth n) dep); lia.
  - destruct (Z.gtb_spec (depth n) dep); [|lia]. rewrite IH. lia.
Qed.

Lemma closes_forest dep ts post : closes dep post ->
  closes (dep + 1) (flatten_forest (dep + 1) ts ++ post).
Proof.
  intros Hp. destruct ts as [|t ts].
  - destruct post; simpl in *; [done|lia].
  - unfold flatten_forest. simpl.
    destruct (flatten_cons (dep + 1) t) as (n & l & -> & Hn & _). simpl. lia.
Qed.

(** The outcome of a walk against that of the structural parse. *)
Definition agrees (r : option (bool * WalkState)) (q : bool * ParseState) (cursor : nat) : Prop :=
  exists ok c buf out, r = Some (ok, (c, buf, out)) /\ q = (ok, (buf, out)) /\ (ok = true -> c = cursor).

Lemma walk_leaf_cursor name c buf out :
  exists ok b o, walk_leaf ctx name c buf out = (ok, (c, b, o)) /\
    forget_cursor (walk_leaf ctx name 0 buf out) = (ok, (b, o)).
Proof.
  unfold walk_leaf. destruct (read_bits_single _ _) as [[l|] b]; [|by repeat eexists].
  cbv zeta. destruct (_ >? _); [by repeat eexists|].
  destruct (if decodes name then _ else _) as [b' o']. by repeat eexists.
Qed.

Lemma walk_children_spec walk fuel dep ts pre post buf out :
  (forall t pre post buf out, t ∈ ts -> closes (dep + 1) post ->
     tree ctx = pre ++ flatten (dep + 1) t ++ post ->
     agrees (walk (length pre) buf out) (parse_node t (buf, out))
       (length pre + length (flatten (dep + 1) t))) ->
  closes dep post -> tree ctx = pre ++ flatten_forest (dep + 1) ts ++ post ->
  (length ts < fuel)%nat ->
  agrees (walk_children walk fuel (tree ctx) dep (length pre, buf, out))
    (run_all parse_node ts (buf, out)) (length pre + length (flatten_forest (dep + 1) ts)).
Proof.
  revert fuel pre buf out. induction ts as [|t ts IH]; intros fuel pre buf out Hw Hp Ht Hf.
  - destruct fuel; [simpl in *; lia|]. simpl. rewrite Ht. simpl.
    rewrite lookup_app_r, Nat.sub_diag by lia.
    destruct post as [|n post]; simpl; [by repeat eexists; simpl; lia|].
    simpl in Hp. destruct (Z.gtb_spec (depth n) dep); [lia|]. repeat eexists. simpl; lia.
  - destruct fuel as [|fuel]; [lia|].
    assert (Ht' : tree ctx = pre ++ flatten (dep + 1) t ++ flatten_forest (dep + 1) ts ++ post).
    { rewrite Ht. unfold flatten_forest. simpl. by rewrite <- app_assoc. }
    destruct (Hw t pre (flatten_forest (dep + 1) ts ++ post) buf out)
      as (ok & c & b & o & Hr & Hq & Hc); [set_solver|by apply closes_forest|done|].
    cbn [walk_children run_all].
    destruct (flatten_cons (dep + 1) t) as (n & l & Hfl & Hn & _).
    assert (tree ctx !! length pre = Some n) as ->.
    { rewrite Ht', Hfl. by apply list_lookup_middle. }
    destruct (Z.gtb_spec (depth n) dep); [|lia]. rewrite Hr, Hq.
    destruct ok; [|by repeat eexists]. rewrite (Hc eq_refl), <- length_app.
    rewrite flatten_forest_cons, (length_app (flatten (dep + 1) t)), Nat.add_assoc, <- length_app. apply IH.
    + intros; eapply Hw; [set_solver|done|done].
    + done.
    + by rewrite Ht', <- app_assoc.
    + simpl in Hf. lia.
Qed.

Lemma length_forest dep ts : (length ts <= length (flatten_forest dep ts))%nat.
Proof.
  induction ts as [|t ts IH]; [simpl; lia|]. rewrite flatten_forest_cons, length_app.
  destruct (flatten_cons dep t) as (n & l & -> & _). cbn [length]. lia.
Qed.

Lemma length_forest_elem dep t ts : t ∈ ts ->
  (length (flatten dep t) <= length (flatten_forest dep ts))%nat.
Proof.
  induction 1 as [|t t' ts _ IH]; rewrite flatten_forest_cons, length_app; lia.
Qed.

Lemma walk_spec t : forall dep fuel pre post buf out,
  closes dep post -> tree ctx = pre ++ flatten dep t ++ post ->
  (length (flatten dep t) < fuel)%nat ->
  agrees (walk fuel ctx (length pre) buf out) (parse_node t (buf, out))
    (length pre + length (flatten dep t)).
Proof.
  induction t as [i name m|i ts IH] using SyncNode_rect'; intros dep fuel pre post buf out Hp Ht Hf;
    (destruct fuel as [|fuel]; [lia|]); cbn [walk].
  - cbn [flatten app] in Ht. assert (tree ctx !! length pre = Some (d dep i name m)) as ->
      by (rewrite Ht; by apply list_lookup_middle).
    cbn [d ids kind parse_node fst snd].
    destruct (should_read i _ _ buf) as [[] b].
    + destruct (walk_leaf_cursor name (S (length pre)) b out) as (ok & b' & o' & -> & ->).
      repeat eexists. simpl. lia.
    + repeat eexists. simpl. lia.
  - cbn [flatten app] in Ht. fold (flatten_forest (dep + 1) ts) in Ht.
    assert (tree ctx !! length pre = Some (p dep i)) as ->
      by (rewrite Ht; by apply list_lookup_middle).
    cbn [p ids kind depth parse_node fst snd].
    destruct (should_read i _ _ buf) as [[] b].
    + replace (length pre + length (flatten dep (SParent i ts)))%nat
        with (length (pre ++ [p dep i]) + length (flatten_forest (dep + 1) ts))%nat
        by (rewrite length_app; simpl; unfold flatten_forest; lia).
      replace (S (length pre)) with (length (pre ++ [p dep i])) by (rewrite length_app; simpl; lia).
      assert (Hl : (length (flatten dep (SParent i ts)) = S (length (flatten_forest (dep + 1) ts)))%nat)
        by done.
      apply walk_children_spec with (post := post); [|done|by rewrite Ht, <- app_assoc|].
      * intros t' pre' post' buf' out' Hin Hp' Ht'. rewrite Forall_forall in IH.
        eapply (IH t' Hin); [exact Hp'|exact Ht'|].
        pose proof (length_forest_elem (dep + 1) t' ts Hin). lia.
      * pose proof (length_forest (dep + 1) ts). lia.
    + repeat eexists. intros _. unfold skip_subtree. rewrite Ht.
      replace (drop (S (length pre)) _) with (flatten_forest (dep + 1) ts ++ post).
      * rewrite skip_run_below; [|apply flatten_forest_below|done]. simpl.
        unfold flatten_forest. lia.
      * simpl. rewrite (cons_middle (p dep i)), app_assoc, drop_app_length'; [done|].
        rewrite length_app. simpl. lia.
Qed.
End Reference.

(** The parse as the reference defines it: the tree's own recursion. *)
Definition parse_reference `{Libm} (entity_type : NetObjEntityType) (is_create : bool)
    (d : list Z) (length_hack : bool) (build : GameBuild) : SyncNodeData :=
  let buf := with_length_hack (from_bytes d) length_hack in
  let '(sync_type, obj_type, buf) :=
    if is_create then (1, 0, buf)
    else let '(bit, buf) := read_bit buf in (2, bit, buf) in
  let ctx := {| tree := tree_for entity_type; ctx_sync_type := sync_type;
                ctx_obj_type := obj_type; ctx_build := build |} in
  (parse_node ctx (tree_of entity_type) (buf, SyncNodeData_default)).2.2.

Lemma parse_sync_tree_reference `{Libm} ty c d hack build :
  parse_sync_tree ty c d hack build = parse_reference ty c d hack build.
Proof.
  unfold parse_sync_tree, parse_reference.
  destruct (if c then _ else _) as [[st ot] buf]. set (ctx := {| tree := _ |}).
  destruct (walk_spec ctx (tree_of ty) 0 (walk_fuel ctx) [] [] buf SyncNodeData_default)
    as (ok & cur & b & o & Hw & Hq & _); [done|..].
  - cbn [app]. rewrite app_nil_r. subst ctx. apply tree_for_flatten.
  - unfold walk_fuel. subst ctx. cbn [tree]. rewrite <- tree_for_flatten. lia.
  - cbn [length] in Hw. by rewrite Hw, Hq.
Qed.

(** ** What the decoder guarantees *)

(** C13: on every input the table-driven walk terminates and computes the
    structural parse of the entity type's tree: its cursor arithmetic visits
    each node once, a skipped parent skips exactly its own subtree, and the
    fuel never runs out. *)
Theorem parse_sync_tree_structural `{Libm} ty c d hack build :
  parse_sync_tree ty c d hack build = parse_reference ty c d hack build /\
  forall st ot buf out,
    let ctx := {| tree := tree_for ty; ctx_sync_type := st; ctx_obj_type := ot; ctx_build := build |} in
    is_some (walk (walk_fuel ctx) ctx 0 buf out) = true.
Proof.
  split; [apply parse_sync_tree_reference|]. intros st ot buf out ctx.
  assert (Ht : tree ctx = tree_for ty) by done.
  destruct (walk_spec ctx (tree_of ty) 0 (walk_fuel ctx) [] [] buf out)
    as (ok & cur & b & o & Hw & _); [done|..].
  - cbn [app]. rewrite app_nil_r, Ht. apply tree_for_flatten.
  - unfold walk_fuel. rewrite Ht, <- tree_for_flatten. lia.
  - cbn [length] in Hw. by rewrite Hw.
Qed.

(** *** Merging *)

Definition carries_occupancy (d : SyncNodeData) : bool := is_some (ped_game_state d).

Lemma merge_ped_game_state s d :
  ns_ped_game_state (merge s d) = merge_field (ns_ped_game_state s) (ped_game_state d).
Proof. unfold merge. by destruct (left_vehicle s d) as [[]|]. Qed.

Lemma merge_last_vehicle s d :
  (last_vehicle (merge s d), last_vehicle_seat (merge s d)) =
  match left_vehicle s d with
  | Some (v, seat) => (Some v, Some seat)
  | None => (last_vehicle s, last_vehicle_seat s)
  end.
Proof. unfold merge. by destruct (left_vehicle s d) as [[]|]. Qed.

Lemma merge_fold_unoccupied s ds : Forall (fun d => carries_occupancy d = false) ds ->
  ns_ped_game_state (foldl merge s ds) = ns_ped_game_state s.
Proof.
  intros H. revert s. induction H as [|d ds Hd _ IH]; intros s; [done|]. simpl.
  rewrite IH, merge_ped_game_state. unfold carries_occupancy in Hd. by destruct (ped_game_state d).
Qed.

(** the vehicle a ped just left is remembered: after a record that puts it
    in vehicle [v] at seat [i], any number of records that say nothing about
    occupancy, and a record that puts it in none, the merged state names [v] and
    [i] as its last vehicle and seat, and the ped as in none. *)
Theorem merge_remembers_exit s d_in ds d_out inside outside v :
  ped_game_state d_in = Some inside -> cur_vehicle inside = v -> 0 <= v <= 65535 ->
  Forall (fun d => carries_occupancy d = false) ds ->
  ped_game_state d_out = Some outside -> cur_vehicle outside < 0 ->
  let s' := foldl merge s (d_in :: ds ++ [d_out]) in
  last_vehicle s' = Some v /\ last_vehicle_seat s' = Some (cur_vehicle_seat inside) /\
  ns_ped_game_state s' = Some outside.
Proof.
  intros Hin Hv Hr Hds Hout Hneg. cbn [foldl]. rewrite foldl_app. cbn [foldl].
  set (s1 := foldl merge (merge s d_in) ds).
  assert (Hs1 : ns_ped_game_state s1 = Some inside).
  { subst s1. rewrite merge_fold_unoccupied by done. by rewrite merge_ped_game_state, Hin. }
  pose proof (merge_last_vehicle s1 d_out) as Hl. unfold left_vehicle in Hl.
  rewrite Hout, Hs1, Hv in Hl. rewrite (proj2 (Z.ltb_lt _ _)) in Hl by done.
  rewrite (proj2 (Z.geb_le _ _)), (proj2 (Z.leb_le _ _)) in Hl by lia.
  apply pair_equal_spec in Hl as [-> ->]. by rewrite merge_ped_game_state, Hout.
Qed.

Lemma merge_remembers_exit_witness :
  let inside := PedGameState_default <| cur_vehicle := 42 |> <| cur_vehicle_seat := 3 |> in
  let d_in := SyncNodeData_default <| ped_game_state := Some inside |> in
  let d_out := SyncNodeData_default <| ped_game_state := Some PedGameState_default |> in
  let s' := foldl merge EntityNodeState_default (d_in :: [SyncNodeData_default] ++ [d_out]) in
  last_vehicle s' = Some 42 /\ last_vehicle_seat s' = Some 3 /\
  ns_ped_game_state s' = Some PedGameState_default.
Proof.
  intros inside d_in d_out.
  apply (merge_remembers_exit EntityNodeState_default d_in [SyncNodeData_default] d_out inside
    PedGameState_default 42); try reflexivity; try lia.
  by apply Forall_singleton.
Defined.
