(* ===== verification/SyncWrite.v ===== *)
(** * Authoring sync trees
    (src/crates/baston-protocol/src/rage/sync_write.rs)

    The payload table, the writer over a sync-tree table, the entity factories,
    and the theorem that what is authored is what the decoder reads back. *)

From S2P Require Import Prelude F32 MessageBuffer Clone Udp SyncTrees Quaternion SyncParse.
#[local] Open Scope Z_scope.

Definition NODE_SCRATCH_BYTES : Z := 1024.
Definition TREE_SCRATCH_BYTES : Z := 4096.
Definition POPTYPE_MISSION : Z := 7.
Definition ENTITY_OWNEDBY_SCRIPT : Z := 4.
Definition NO_VOICE : Z := 2277503130.

(** ** Node payloads *)

Definition Writer : Type := MessageBuffer -> bool * MessageBuffer.

(** Statements in sequence: the success flags are ignored. *)
Definition and_also (w1 w2 : MessageBuffer -> MessageBuffer) (b : MessageBuffer) : MessageBuffer :=
  w2 (w1 b).
Infix ">>>" := and_also (at level 42, left associativity).

(** [(node name, payload bytes, payload bit length)]. *)
Definition AuthoredNodes : Type := list (string * list Z * Z).

(** [nodes.set name write]. *)
Definition set (nodes : AuthoredNodes) (name : string) (write : MessageBuffer -> MessageBuffer)
    : AuthoredNodes :=
  let scratch := write (new NODE_SCRATCH_BYTES) in
  nodes ++ [(name, data scratch, cur_bit scratch)].

Fixpoint payload (nodes : AuthoredNodes) (name : string) : option (list Z * Z) :=
  match nodes with
  | [] => None
  | (node, bytes, bits) :: nodes =>
      if String.eqb node name then Some (bytes, bits) else payload nodes name
  end.

Definition contains (nodes : AuthoredNodes) (name : string) : bool :=
  existsb (fun n => String.eqb n.1.1 name) nodes.

(** ** The tree writer *)

Fixpoint subtree_has_payload (l : list FlatNode) (dep sync_type obj_type : Z)
    (nodes : AuthoredNodes) : bool :=
  match l with
  | [] => false
  | node :: l =>
      if depth node <=? dep then false
      else
        let '(id1, _, id3) := ids node in
        if (Z.land id1 sync_type =? 0) || (negb (id3 =? 0) && (Z.land obj_type id3 =? 0))
        then subtree_has_payload l dep sync_type obj_type nodes
        else
          match kind node with
          | Data name _ =>
              if contains nodes name then true
              else subtree_has_payload l dep sync_type obj_type nodes
          | Parent => subtree_has_payload l dep sync_type obj_type nodes
          end
  end.

Record WriteContext := {
  wtree : list FlatNode; w_sync_type : Z; w_obj_type : Z; w_nodes : AuthoredNodes }.

(** A leaf's frame: its payload, or an explicit empty body. *)
Definition write_leaf (nodes : AuthoredNodes) (name : string) : Writer :=
  match payload nodes name with
  | Some (bytes, bits) => write_bits_single (u32 bits) NODE_LENGTH_BITS &&& write_bits bytes bits
  | None => write_bits_single 0 NODE_LENGTH_BITS
  end.

Definition WState : Type := nat * MessageBuffer.

Fixpoint write_children (write : nat -> MessageBuffer -> option (bool * WState)) (fuel : nat)
    (tree : list FlatNode) (dep : Z) (st : WState) : option (bool * WState) :=
  match fuel with
  | O => None
  | S fuel =>
      let '(cursor, buf) := st in
      match tree !! cursor with
      | Some child =>
          if depth child >? dep then
            match write cursor buf with
            | Some (true, st) => write_children write fuel tree dep st
            | r => r
            end
          else Some (true, st)
      | None => Some (true, st)
      end
  end.

(** [None] is fuel exhaustion. *)
Fixpoint write_node (fuel : nat) (ctx : WriteContext) (cursor : nat) (buf : MessageBuffer)
    : option (bool * WState) :=
  match fuel with
  | O => None
  | S fuel =>
      match wtree ctx !! cursor with
      | None => Some (true, (cursor, buf))
      | Some node =>
          let dep := depth node in
          let '(id1, id2, id3) := ids node in
          let cursor := S cursor in
          let skipped := skip_subtree (wtree ctx) cursor dep in
          if (Z.land id1 (w_sync_type ctx) =? 0)
             || (negb (id3 =? 0) && (Z.land (w_obj_type ctx) id3 =? 0))
          then Some (true, (skipped, buf))
          else
            let body buf :=
              match kind node with
              | Parent => write_children (write_node fuel ctx) fuel (wtree ctx) dep (cursor, buf)
              | Data name _ =>
                  let '(ok, buf) := write_leaf (w_nodes ctx) name buf in Some (ok, (cursor, buf))
              end in
            if negb (Z.land id2 (w_sync_type ctx) =? 0) then
              let present :=
                match kind node with
                | Parent => subtree_has_payload (drop cursor (wtree ctx)) dep (w_sync_type ctx)
                              (w_obj_type ctx) (w_nodes ctx)
                | Data name _ => contains (w_nodes ctx) name
                end in
              let '(ok, buf) := write_bit present buf in
              if negb ok then Some (false, (cursor, buf))
              else if negb present then Some (true, (skipped, buf))
              else body buf
            else body buf
      end
  end.

(** The outer loop: write nodes until the table is exhausted. *)
Fixpoint write_all (fuel : nat) (ctx : WriteContext) (st : WState) : option (bool * MessageBuffer) :=
  match fuel with
  | O => None
  | S fuel' =>
      let '(cursor, buf) := st in
      if (cursor <? length (wtree ctx))%nat then
        match write_node fuel ctx cursor buf with
        | Some (true, st) => write_all fuel' ctx st
        | Some (false, (_, buf)) => Some (false, buf)
        | None => None
        end
      else Some (true, buf)
  end.

Definition write_sync_tree (entity_type : NetObjEntityType) (is_create length_hack : bool)
    (_build : GameBuild) (nodes : AuthoredNodes) : option (list Z) :=
  let buf := with_length_hack (new TREE_SCRATCH_BYTES) length_hack in
  let '(sync_type, obj_type, buf) :=
    if is_create then (1, 0, buf) else (2, 1, snd (write_bit true buf)) in
  let ctx := {| wtree := tree_for entity_type; w_sync_type := sync_type; w_obj_type := obj_type;
                w_nodes := nodes |} in
  match write_all (S (S (length (wtree ctx)))) ctx (0%nat, buf) with
  | Some (true, buf) => Some (take (Z.to_nat (data_length buf)) (data buf))
  | _ => None
  end.

(** ** Factories *)

Definition sector_of (position : vec3) : (Z * Z * Z) * vec3 :=
  let '(p0, p1, p2) := position in
  let s0 := f32_as_i32 (f32_add (f32_div p0 (f32_of_Z 54)) (f32_of_Z 512)) in
  let s1 := f32_as_i32 (f32_add (f32_div p1 (f32_of_Z 54)) (f32_of_Z 512)) in
  let s2 := f32_as_i32 (f32_div (f32_add p2 (f32_of_Z 1700)) (f32_of_Z 69)) in
  let off p s := f32_sub p (f32_mul (f32_sub (f32_of_Z s) (f32_of_Z 512)) (f32_of_Z 54)) in
  ((s0, s1, s2),
   (off p0 s0, off p1 s1,
    f32_sub p2 (f32_sub (f32_mul (f32_of_Z s2) (f32_of_Z 69)) (f32_of_Z 1700)))).

Inductive OffsetNode := Sector | ONObject | PedMap.

Definition field (v n : Z) : MessageBuffer -> MessageBuffer := wr (write_bits_single v n).
Definition bit (v : bool) : MessageBuffer -> MessageBuffer := wr (write_bit v).

Definition write_offset (offset : vec3) (bits : Z) : MessageBuffer -> MessageBuffer :=
  let '(o0, o1, o2) := offset in
  wr (write_float bits (f32_of_Z 54) o0) >>> wr (write_float bits (f32_of_Z 54) o1)
  >>> wr (write_float bits (f32_of_Z 69) o2).

Definition author_position (nodes : AuthoredNodes) (position : vec3) (offset_node : OffsetNode)
    : AuthoredNodes :=
  let '((s0, s1, s2), offset) := sector_of position in
  let nodes := set nodes "CSectorDataNode"%string
    (field (u32 s0) 10 >>> field (u32 s1) 10 >>> field (u32 s2) 6) in
  match offset_node with
  | Sector => set nodes "CSectorPositionDataNode"%string (write_offset offset 12)
  | ONObject => set nodes "CObjectSectorPosNode"%string (bit true >>> write_offset offset 20)
  | PedMap => set nodes "CPedSectorPosMapNode"%string (write_offset offset 12 >>> bit false)
  end.

Section Factories.
Context `{Libm}.

Definition write_quaternion (heading : f32) : MessageBuffer -> MessageBuffer :=
  let c := compress (from_heading_degrees heading) BITS in
  field (largest c) 2 >>> field (qa c) BITS >>> field (qb c) BITS >>> field (qc c) BITS.

Definition author_vehicle (model : Z) (position : vec3) (heading : f32) (creation_token : Z)
    : AuthoredNodes :=
  let nodes := set [] "CVehicleCreationDataNode"%string
    (field model 32 >>> field POPTYPE_MISSION 4 >>> field 0 16 >>> bit false >>> field 1000 19
     >>> field 2 3 >>> field creation_token 32 >>> bit false >>> bit false >>> bit false) in
  let nodes := set nodes "CAutomobileCreationDataNode"%string (bit true) in
  let nodes := author_position nodes position Sector in
  set nodes "CEntityOrientationDataNode"%string (write_quaternion heading).

Definition author_ped (model : Z) (position : vec3) (heading : f32) : AuthoredNodes :=
  let nodes := set [] "CPedCreationDataNode"%string
    (bit false >>> bit false >>> field POPTYPE_MISSION 4 >>> field model 32 >>> field 0 16
     >>> bit false >>> field NO_VOICE 32 >>> bit false >>> bit true >>> bit false
     >>> field 200 13 >>> bit false) in
  let nodes := author_position nodes position PedMap in
  let radians := to_radians heading in
  set nodes "CPedOrientationDataNode"%string
    (wr (write_signed_float 8 TAU_RADIANS radians) >>> wr (write_signed_float 8 TAU_RADIANS radians)).

Definition author_object (model : Z) (position : vec3) (heading : f32) (dynamic : bool)
    : AuthoredNodes :=
  let nodes := set [] "CObjectCreationDataNode"%string
    (field ENTITY_OWNEDBY_SCRIPT 5 >>> field model 32 >>> bit dynamic
     >>> bit false >>> bit false >>> bit false >>> bit false >>> bit false) in
  let nodes := author_position nodes position ONObject in
  set nodes "CObjectOrientationDataNode"%string (bit false >>> write_quaternion heading).
End Factories.

(** ** The writer, structurally

    As for the decoder, the cursor-driven writer over the table is proved equal
    to a recursion over the tree, whose output is then specified as bits. *)

Section Structural.
Variables (sync_type obj_type : Z) (nodes : AuthoredNodes) (hack : bool).

Definition gated (i : Z * Z * Z) : bool :=
  let '(id1, _, id3) := i in
  (Z.land id1 sync_type =? 0) || (negb (id3 =? 0) && (Z.land obj_type id3 =? 0)).

Definition has_presence (i : Z * Z * Z) : bool :=
  let '(_, id2, _) := i in negb (Z.land id2 sync_type =? 0).

(** Some leaf below was authored and passes its own gate. *)
Fixpoint any_payload (t : SyncNode) : bool :=
  match t with
  | SLeaf i name _ => negb (gated i) && contains nodes name
  | SParent _ ts => existsb any_payload ts
  end.

(** The presence bit and the body it guards. *)
Definition framed (i : Z * Z * Z) (present : bool) (body : Writer) : Writer :=
  if gated i then write_nothing
  else if has_presence i then write_bit present &&& (if present then body else write_nothing)
  else body.

Section WriteAll.
Context (f : SyncNode -> Writer).
Fixpoint write_each (ts : list SyncNode) : Writer :=
  match ts with [] => write_nothing | t :: ts => f t &&& write_each ts end.
End WriteAll.

Definition present_node (t : SyncNode) : bool :=
  match t with
  | SLeaf _ name _ => contains nodes name
  | SParent _ ts => existsb any_payload ts
  end.

Fixpoint write_tree (t : SyncNode) : Writer :=
  match t with
  | SLeaf i name _ => framed i (contains nodes name) (write_leaf nodes name)
  | SParent i ts => framed i (existsb any_payload ts) (write_each write_tree ts)
  end.

Let ctx (tree : list FlatNode) : WriteContext :=
  {| wtree := tree; w_sync_type := sync_type; w_obj_type := obj_type; w_nodes := nodes |}.

Lemma subtree_has_payload_spec dep l post :
  Forall (fun m => dep < depth m) l -> closes dep post ->
  subtree_has_payload (l ++ post) dep sync_type obj_type nodes
  = existsb (fun n => negb (gated (ids n)) &&
               match kind n with Data name _ => contains nodes name | Parent => false end) l.
Proof.
  intros Hl Hp. induction Hl as [|n l Hn _ IH]; simpl.
  - destruct post as [|n post]; simpl in *; [done|]. by rewrite (proj2 (Z.leb_le _ _)).
  - rewrite (proj2 (Z.leb_gt _ _)) by done. unfold gated. destruct (ids n) as [[id1 id2] id3].
    destruct (_ || _); simpl; [done|]. destruct (kind n) as [|name m]; [done|].
    by destruct (contains nodes name).
Qed.

Lemma any_payload_flat t dep :
  existsb (fun n => negb (gated (ids n)) &&
    match kind n with Data name _ => contains nodes name | Parent => false end) (flatten dep t)
  = any_payload t.
Proof.
  revert dep; induction t as [i name m|i ts IH] using SyncNode_rect'; intros dep.
  - simpl. by rewrite orb_false_r.
  - rewrite flatten_parent. simpl. rewrite andb_false_r. simpl.
    induction IH as [|t ts Ht _ IHts]; [done|].
    rewrite flatten_forest_cons, existsb_app, Ht, IHts. done.
Qed.

Lemma forest_has_payload dep ts post : closes dep post ->
  subtree_has_payload (flatten_forest (dep + 1) ts ++ post) dep sync_type obj_type nodes
  = existsb any_payload ts.
Proof.
  intros Hp. rewrite subtree_has_payload_spec by (done || apply flatten_forest_below).
  induction ts as [|t ts IH]; [done|]. rewrite flatten_forest_cons, existsb_app, IH.
  by rewrite any_payload_flat.
Qed.

(** A cursor run against a structural writer. *)
Definition writes_as (r : option (bool * WState)) (q : bool * MessageBuffer) (cursor : nat) : Prop :=
  exists ok c b, r = Some (ok, (c, b)) /\ q = (ok, b) /\ (ok = true -> c = cursor).

Lemma write_children_spec write fuel dep ts pre post tree buf :
  (forall t pre post buf, t ∈ ts -> closes (dep + 1) post ->
     tree = pre ++ flatten (dep + 1) t ++ post ->
     writes_as (write (length pre) buf) (write_tree t buf)
       (length pre + length (flatten (dep + 1) t))) ->
  closes dep post -> tree = pre ++ flatten_forest (dep + 1) ts ++ post ->
  (length ts < fuel)%nat ->
  writes_as (write_children write fuel tree dep (length pre, buf))
    (write_each write_tree ts buf) (length pre + length (flatten_forest (dep + 1) ts)).
Proof.
  revert fuel pre buf. induction ts as [|t ts IH]; intros fuel pre buf Hw Hp Ht Hf.
  - destruct fuel; [simpl in *; lia|]. simpl. rewrite Ht. simpl.
    rewrite lookup_app_r, Nat.sub_diag by lia.
    destruct post as [|n post]; simpl; [by repeat eexists; simpl; lia|].
    simpl in Hp. destruct (Z.gtb_spec (depth n) dep); [lia|]. repeat eexists. simpl; lia.
  - destruct fuel as [|fuel]; [lia|].
    rewrite flatten_forest_cons, <- app_assoc in Ht.
    destruct (Hw t pre (flatten_forest (dep + 1) ts ++ post) buf)
      as (ok & c & b & Hr & Hq & Hc); [set_solver|by apply closes_forest|done|].
    cbn [write_children write_each]. unfold and_then.
    destruct (flatten_cons (dep + 1) t) as (n & l & Hfl & Hn & _).
    assert (tree !! length pre = Some n) as ->
      by (rewrite Ht, Hfl; by apply list_lookup_middle).
    destruct (Z.gtb_spec (depth n) dep); [|lia]. rewrite Hr, Hq.
    destruct ok; [|by repeat eexists]. rewrite (Hc eq_refl), <- length_app.
    rewrite flatten_forest_cons, (length_app (flatten (dep + 1) t)), Nat.add_assoc, <- length_app.
    apply IH; [|done|by rewrite Ht, <- app_assoc|simpl in Hf; lia].
    intros; eapply Hw; [set_solver|done|done].
Qed.

Lemma write_node_spec t : forall dep fuel pre post tree buf,
  closes dep post -> tree = pre ++ flatten dep t ++ post ->
  (length (flatten dep t) < fuel)%nat ->
  writes_as (write_node fuel (ctx tree) (length pre) buf) (write_tree t buf)
    (length pre + length (flatten dep t)).
Proof.
  induction t as [i name m|i ts IH] using SyncNode_rect'; intros dep fuel pre post tree buf Hp Ht Hf;
    (destruct fuel as [|fuel]; [lia|]); cbn [write_node ctx wtree w_sync_type w_obj_type w_nodes].
  - cbn [flatten app] in Ht. assert (tree !! length pre = Some (d dep i name m)) as ->
      by (rewrite Ht; by apply list_lookup_middle).
    assert (Hskip : skip_subtree tree (S (length pre)) dep = (length pre + 1)%nat).
    { unfold skip_subtree. rewrite Ht, (cons_middle (d dep i name m)), app_assoc, drop_app_length'
        by (rewrite length_app; simpl; lia).
      rewrite (skip_run_below dep [] post) by done. simpl. lia. }
    cbn [d ids kind depth flatten length write_tree]. rewrite Hskip.
    unfold framed, gated, has_presence. destruct i as [[id1 id2] id3].
    destruct (_ || _); [by repeat eexists|].
    assert (Hbody : forall b, writes_as
      (let '(ok, b) := write_leaf nodes name b in Some (ok, (S (length pre), b)))
      (write_leaf nodes name b) (length pre + 1)).
    { intros b. destruct (write_leaf nodes name b) as [ok b']. repeat eexists. lia. }
    destruct (negb (Z.land id2 sync_type =? 0)); [|apply Hbody]. unfold and_then.
    destruct (write_bit (contains nodes name) buf) as [[] b]; simpl; [|by repeat eexists].
    destruct (contains nodes name); simpl; [apply Hbody|by repeat eexists].
  - rewrite flatten_parent in Ht. cbn [app] in Ht. assert (tree !! length pre = Some (p dep i)) as ->
      by (rewrite Ht; by apply list_lookup_middle).
    assert (Hdrop : drop (S (length pre)) tree = flatten_forest (dep + 1) ts ++ post).
    { rewrite Ht, (cons_middle (p dep i)), app_assoc, drop_app_length'; [done|].
      rewrite length_app; simpl; lia. }
    rewrite flatten_parent in *. cbn [length] in *.
    assert (Hskip : skip_subtree tree (S (length pre)) dep
      = (length pre + S (length (flatten_forest (dep + 1) ts)))%nat).
    { unfold skip_subtree. rewrite Hdrop, skip_run_below; [lia|apply flatten_forest_below|done]. }
    cbn [p ids kind depth write_tree]. rewrite Hskip, Hdrop, forest_has_payload by done.
    assert (Hbody : forall b, writes_as
      (write_children (write_node fuel (ctx tree)) fuel tree dep (S (length pre), b))
      (write_each write_tree ts b) (length pre + S (length (flatten_forest (dep + 1) ts)))).
    { intros b. replace (S (length pre)) with (length (pre ++ [p dep i]))
        by (rewrite length_app; simpl; lia).
      replace (length pre + S (length (flatten_forest (dep + 1) ts)))%nat
        with (length (pre ++ [p dep i]) + length (flatten_forest (dep + 1) ts))%nat
        by (rewrite length_app; simpl; lia).
      apply write_children_spec with (post := post); [|done|by rewrite Ht, <- app_assoc|].
      - intros t' pre' post' b' Hin Hp' Ht'. rewrite Forall_forall in IH.
        eapply (IH t' Hin); [exact Hp'|exact Ht'|].
        pose proof (length_forest_elem (dep + 1) t' ts Hin). lia.
      - pose proof (length_forest (dep + 1) ts). lia. }
    unfold framed, gated, has_presence. destruct i as [[id1 id2] id3].
    destruct (_ || _); [by repeat eexists|].
    destruct (negb (Z.land id2 sync_type =? 0)); [|apply Hbody]. unfold and_then.
    destruct (write_bit (existsb any_payload ts) buf) as [[] b]; simpl; [|by repeat eexists].
    destruct (existsb any_payload ts); simpl; [apply Hbody|by repeat eexists].
Qed.

(** *** The bits written *)

Definition payload_bits (name : string) : list bool :=
  match payload nodes name with
  | Some (bytes, bits) => get_bits bytes 0 bits
  | None => []
  end.

Definition leaf_bits (name : string) : list bool :=
  field_bits hack NODE_LENGTH_BITS (blen (payload_bits name)) ++ payload_bits name.

Definition framed_bits (i : Z * Z * Z) (present : bool) (body : list bool) : list bool :=
  if gated i then []
  else if has_presence i then present :: (if present then body else []) else body.

Fixpoint tree_bits (t : SyncNode) : list bool :=
  match t with
  | SLeaf i name _ => framed_bits i (contains nodes name) (leaf_bits name)
  | SParent i ts => framed_bits i (existsb any_payload ts) (concat (tree_bits <$> ts))
  end.

(** Payloads a leaf frame can carry: real bytes, a length that fits 13 bits. *)
Definition payload_ok (n : string * list Z * Z) : Prop :=
  bytes_ok n.1.2 /\ 0 <= n.2 < 8192 /\ n.2 <= dlen n.1.2.

Hypothesis nodes_ok : Forall payload_ok nodes.

Lemma payload_ok_of name bytes bits : payload nodes name = Some (bytes, bits) ->
  bytes_ok bytes /\ 0 <= bits < 8192 /\ bits <= dlen bytes.
Proof.
  revert nodes_ok. clear. induction 1 as [|[[n by_] bi] l Hn _ IH]; simpl; [done|].
  destruct (String.eqb n name); [|done]. intros [= <- <-]. exact Hn.
Qed.

Lemma blen_payload_bits name : 0 <= blen (payload_bits name) < 8192.
Proof.
  unfold payload_bits. destruct (payload nodes name) as [[bytes bits]|] eqn:E; [|simpl; lia].
  destruct (payload_ok_of _ _ _ E) as (_ & ? & _). rewrite length_get_bits; lia.
Qed.

Lemma write_leaf_writes name : writes hack (write_leaf nodes name) (leaf_bits name).
Proof.
  unfold write_leaf, leaf_bits, payload_bits.
  destruct (payload nodes name) as [[bytes bits]|] eqn:E.
  - destruct (payload_ok_of _ _ _ E) as (Hb & Hr & Hd). rewrite length_get_bits by lia.
    apply writes_and; [|by apply writes_blob; [|lia]].
    unfold u32. rewrite Z.mod_small by lia. apply writes_single. by compute.
  - rewrite app_nil_r. apply writes_single. by compute.
Qed.

Lemma framed_writes i present body bs : writes hack body bs ->
  writes hack (framed i present body) (framed_bits i present bs).
Proof.
  intros Hb. unfold framed, framed_bits. destruct (gated i); [apply writes_nothing|].
  destruct (has_presence i); [|done]. apply (writes_and _ _ _ [present]); [apply writes_bit|]. destruct present; [done|apply writes_nothing].
Qed.

Lemma write_tree_writes t : writes hack (write_tree t) (tree_bits t).
Proof.
  induction t as [i name m|i ts IH] using SyncNode_rect'.
  - apply framed_writes, write_leaf_writes.
  - apply framed_writes. induction IH as [|t ts Ht _ IHts]; [apply writes_nothing|].
    by apply writes_and.
Qed.

(** *** Reading the bits back *)

(** The leaves a reader meets, in order, with their payload bits. *)
Definition framed_leaves (i : Z * Z * Z) (present : bool) (l : list (string * list bool)) :=
  if gated i then [] else if has_presence i then if present then l else [] else l.

Fixpoint emitted (t : SyncNode) : list (string * list bool) :=
  match t with
  | SLeaf i name _ => framed_leaves i (contains nodes name) [(name, payload_bits name)]
  | SParent i ts => framed_leaves i (existsb any_payload ts) (concat (emitted <$> ts))
  end.

(** A bit string as the zero-padded view a leaf decoder is given. *)
Definition view_of (bs : list bool) : MessageBuffer :=
  from_bits (put_bits (replicate (Z.to_nat ((blen bs + 7) / 8)) 0) 0 bs) (blen bs).

Context `{Libm} (build : GameBuild).

Definition apply_leaf (out : SyncNodeData) (l : string * list bool) : SyncNodeData :=
  if decodes l.1 then run_leaf l.1 (view_of l.2) build out else out.

Lemma should_read_framed i present b bs : wf b -> length_hack b = hack ->
  upcoming b (framed_bits i present bs) ->
  should_read i sync_type obj_type b =
    (negb (gated i) && (negb (has_presence i) || present),
     advance b (if negb (gated i) && has_presence i then 1 else 0)) /\
  (negb (gated i) && (negb (has_presence i) || present) = true ->
   upcoming (advance b (if has_presence i then 1 else 0)) bs /\
   blen (framed_bits i present bs) = (if has_presence i then 1 else 0) + blen bs) /\
  (negb (gated i) && (negb (has_presence i) || present) = false ->
   blen (framed_bits i present bs) = if negb (gated i) && has_presence i then 1 else 0).
Proof.
  intros Hb Hh Hu. unfold should_read, framed_bits, gated, has_presence in *.
  destruct i as [[id1 id2] id3].
  destruct (Z.land id1 sync_type =? 0); simpl; [by rewrite advance_0|].
  destruct (negb (id3 =? 0) && (Z.land obj_type id3 =? 0)); simpl; [by rewrite advance_0|].
  simpl in Hu. destruct (negb (Z.land id2 sync_type =? 0)); simpl in *.
  - destruct (proj1 (upcoming_app b [present] (if present then bs else [])) Hu) as [Hp Hu'].
    clear Hu; rename Hu' into Hu.
    pose proof (reads_bit hack present b Hb Hh Hp) as Hr. unfold lift in Hr.
    destruct (read_bit b) as [v b']. injection Hr as -> ->. split.
    { by destruct present. }
    split; intros Hc.
    + subst present. split; [exact Hu|]. simpl. lia.
    + subst present. simpl. lia.
  - rewrite advance_0. split; [done|]. split; [|done]. intros _. split; [done|lia].
Qed.

Let rctx : WalkContext :=
  {| tree := []; ctx_sync_type := sync_type; ctx_obj_type := obj_type; ctx_build := build |}.

Lemma walk_leaf_reads name b out : wf b -> length_hack b = hack ->
  upcoming b (leaf_bits name) ->
  walk_leaf rctx name 0 b out
  = (true, (0%nat, advance b (blen (leaf_bits name)), apply_leaf out (name, payload_bits name))).
Proof.
  intros Hb Hh Hu. unfold walk_leaf, leaf_bits, NODE_LENGTH_BITS in *.
  pose proof (blen_payload_bits name) as Hp. set (bs := payload_bits name) in *.
  apply upcoming_app in Hu as [Hl Hu].
  assert (Hlen : is_u (effective_len_of hack 13) (blen bs)).
  { unfold is_u. destruct hack; cbn; lia. }
  rewrite (reads_single hack (blen bs) 13 ltac:(lia) Hlen b Hb Hh Hl).
  set (b1 := advance b (blen (field_bits hack 13 (blen bs)))) in *.
  assert (Hb1 : wf b1) by (apply wf_advance; [lia|done]). cbv zeta.
  assert (Hend : set_current_bit (advance b1 (blen bs)) (cur_bit b1 + blen bs)
    = advance b (blen (field_bits hack 13 (blen bs) ++ bs))).
  { subst b1. rewrite length_app, Nat2Z.inj_add. unfold advance, set_current_bit. simpl. f_equal.
    lia. }
  pose proof Hu as [Hroom _]. pose proof (wf_max _ Hb1).
  destruct (Z.gtb_spec (cur_bit b1 + blen bs) (Z.of_nat (length (data b1)) * 8)); [lia|].
  unfold apply_leaf. cbn [fst snd]. destruct (decodes name).
  - rewrite (read_bits_spec _ _ _ bs Hb1 (zeros_ok _) eq_refl); [|rewrite length_replicate; zdm|done].
    by rewrite <- Hend.
  - rewrite <- Hend. unfold set_current_bit, advance. by simpl.
Qed.

Lemma parse_node_reads t : forall b out, wf b -> length_hack b = hack ->
  upcoming b (tree_bits t) ->
  parse_node rctx t (b, out)
  = (true, (advance b (blen (tree_bits t)), foldl apply_leaf out (emitted t))).
Proof.
  induction t as [i name m|i ts IH] using SyncNode_rect'; intros b out Hb Hh Hu;
    cbn [parse_node tree_bits emitted rctx ctx_sync_type ctx_obj_type fst snd] in *.
  - destruct (should_read_framed i (contains nodes name) b (leaf_bits name) Hb Hh Hu)
      as (-> & Ht & Hf). unfold framed_leaves.
    destruct (gated i) eqn:Hg; simpl; [rewrite (Hf eq_refl); done|].
    destruct (has_presence i) eqn:Hi, (contains nodes name) eqn:Hc; simpl in *.
    2: { rewrite (Hf eq_refl). done. }
    all: destruct (Ht eq_refl) as [Hu' ->]; rewrite walk_leaf_reads by (done || by apply wf_advance; [lia|]).
    all: simpl; by rewrite advance_advance.
  - destruct (should_read_framed i (existsb any_payload ts) b (concat (tree_bits <$> ts)) Hb Hh Hu)
      as (-> & Ht & Hf). unfold framed_leaves.
    assert (Hforest : forall b out, wf b -> length_hack b = hack ->
      upcoming b (concat (tree_bits <$> ts)) ->
      run_all (parse_node rctx) ts (b, out)
      = (true, (advance b (blen (concat (tree_bits <$> ts))),
                foldl apply_leaf out (concat (emitted <$> ts))))).
    { clear -IH Hh. induction IH as [|t ts Ht _ IHts]; intros b' out' Hb' Hh' Hu'; simpl.
      { by rewrite advance_0. }
      simpl in Hu'. apply upcoming_app in Hu' as [Hu1 Hu2].
      rewrite (Ht b' out' Hb' Hh' Hu1), IHts; [|by apply wf_advance; [lia|]|done|done].
      by rewrite advance_advance, length_app, Nat2Z.inj_add, foldl_app. }
    destruct (gated i) eqn:Hg; simpl; [rewrite (Hf eq_refl); done|].
    destruct (has_presence i) eqn:Hi, (existsb any_payload ts) eqn:Hc; simpl in *.
    2: { rewrite (Hf eq_refl). done. }
    all: destruct (Ht eq_refl) as [Hu' ->]; rewrite Hforest by (done || by apply wf_advance; [lia|]).
    all: by rewrite advance_advance.
Qed.
End Structural.

(** ** Whole trees *)

Definition sync_params (is_create : bool) : Z * Z := if is_create then (1, 0) else (2, 1).

(** A sync record opens with its object-type bit. *)
Definition record_prefix (is_create : bool) : list bool := if is_create then [] else [true].

Definition authored_bits (hack : bool) (nodes : AuthoredNodes) (is_create : bool) (t : SyncNode) :=
  let '(st, ot) := sync_params is_create in
  record_prefix is_create ++ tree_bits st ot nodes hack t.

Definition authored_leaves (nodes : AuthoredNodes) (is_create : bool) (t : SyncNode) :=
  let '(st, ot) := sync_params is_create in emitted st ot nodes t.

Lemma write_all_spec st ot nodes ty b :
  let ctx := {| wtree := tree_for ty; w_sync_type := st; w_obj_type := ot; w_nodes := nodes |} in
  write_all (S (S (length (wtree ctx)))) ctx (0%nat, b) = Some (write_tree st ot nodes (tree_of ty) b).
Proof.
  intros ctx. pose proof (tree_for_flatten ty) as Hfl.
  destruct (write_node_spec st ot nodes (tree_of ty) 0 (S (S (length (tree_for ty)))) []
    [] (tree_for ty) b) as (ok & c & b' & Hw & -> & Hc);
    [done|by rewrite app_nil_r|rewrite <- Hfl; lia|].
  cbn [length Nat.add] in *.
  assert (Hpos : (0 <? length (tree_for ty))%nat = true) by (by destruct ty).
  cbn [wtree ctx]. remember (S (length (tree_for ty))) as f eqn:Ef.
  cbn [write_all]. cbn [wtree ctx]. rewrite Hpos.
  change (write_node (S f) ctx 0 b) with (write_node (S f) ctx (length (@nil FlatNode)) b).
  cbn [length]. fold ctx in Hw. rewrite Hw. destruct ok; [|done].
  rewrite (Hc eq_refl), Ef. cbn [write_all wtree ctx]. rewrite <- Hfl.
  by rewrite (proj2 (Nat.ltb_ge _ _)) by lia.
Qed.

Definition tree_scratch (hack : bool) : MessageBuffer := with_length_hack (new TREE_SCRATCH_BYTES) hack.

Lemma wf_tree_scratch hack : wf_full (tree_scratch hack) /\ max_bit (tree_scratch hack) = 32768
  /\ cur_bit (tree_scratch hack) = 0.
Proof.
  destruct (wf_full_new TREE_SCRATCH_BYTES) as [[] ?]; [by compute|].
  split; [split; [by split|done]|done].
Qed.

(** [write_sync_tree] emits the authored bits when they fit, and refuses otherwise. *)
Lemma write_sync_tree_spec ty is_create hack build nodes : Forall payload_ok nodes ->
  let bs := authored_bits hack nodes is_create (tree_of ty) in
  (blen bs <= 32768 -> write_sync_tree ty is_create hack build nodes
     = Some (written (append (tree_scratch hack) bs))) /\
  (32768 < blen bs -> write_sync_tree ty is_create hack build nodes = None).
Proof.
  intros Hn bs. destruct (wf_tree_scratch hack) as (Hwf & Hmax & Hcur).
  unfold write_sync_tree. fold (tree_scratch hack).
  set (buf := append (tree_scratch hack) (record_prefix is_create)).
  assert (Hbuf : (if is_create then (1, 0, tree_scratch hack)
                  else (2, 1, snd (write_bit true (tree_scratch hack))))
    = ((sync_params is_create).1, (sync_params is_create).2, buf)).
  { subst buf. destruct is_create; [by rewrite append_nil|].
    destruct (writes_bit hack true (tree_scratch hack) Hwf eq_refl) as [Hb _]; [lia|].
    rewrite Hb by (rewrite Hcur, Hmax; simpl; lia). done. }
  rewrite Hbuf, write_all_spec. unfold authored_bits in bs.
  destruct (sync_params is_create) as [st ot]. cbn [fst snd].
  assert (Hpre : blen (record_prefix is_create) <= 1) by (by destruct is_create).
  assert (Hwfb : wf_full buf) by (apply wf_full_append; [done|lia]).
  assert (Hcb : cur_bit buf = blen (record_prefix is_create))
    by (subst buf; cbn [append advance set_current_bit with_data cur_bit]; lia).
  assert (Hmb : max_bit buf = 32768) by done.
  destruct (write_tree_writes st ot nodes hack Hn (tree_of ty) buf Hwfb eq_refl) as [Ht Hf]; [lia|].
  subst bs. rewrite length_app, Nat2Z.inj_add. split; intros Hl.
  - rewrite Ht by lia. subst buf. rewrite append_append. done.
  - specialize (Hf ltac:(lia)). by destruct (write_tree _ _ _ _ buf) as [[] ?].
Qed.

Lemma parse_node_ctx `{Libm} ctx tr t st :
  parse_node ctx t st = parse_node {| tree := tr; ctx_sync_type := ctx_sync_type ctx;
    ctx_obj_type := ctx_obj_type ctx; ctx_build := ctx_build ctx |} t st.
Proof.
  revert st. induction t as [i n m|i ts IH] using SyncNode_rect'; intros st; cbn; [done|].
  destruct (should_read _ _ _ _) as [[] b]; [|done].
  generalize (b, st.2). induction IH as [|t ts Ht _ IHts]; intros st'; cbn; [done|].
  rewrite <- Ht. destruct (parse_node ctx t st') as [[] st'']; auto.
Qed.

(** Reading authored bits back, for any buffer they are upcoming in. *)
Lemma parse_authored `{Libm} ty is_create hack build nodes bytes :
  Forall payload_ok nodes -> bytes_ok bytes ->
  upcoming (from_bytes bytes) (authored_bits hack nodes is_create (tree_of ty)) ->
  parse_sync_tree ty is_create bytes hack build
  = foldl (apply_leaf build) SyncNodeData_default (authored_leaves nodes is_create (tree_of ty)).
Proof.
  intros Hn Hb Hu. rewrite parse_sync_tree_reference. unfold parse_reference.
  assert (Hwf : wf (with_length_hack (from_bytes bytes) hack))
    by (by destruct (wf_full_wf _ (wf_full_from_bytes _ Hb))).
  set (b0 := with_length_hack (from_bytes bytes) hack) in *.
  assert (Hu0 : upcoming b0 (authored_bits hack nodes is_create (tree_of ty))) by exact Hu.
  unfold authored_bits, authored_leaves in *. destruct is_create; cbn [sync_params record_prefix] in *.
  - rewrite parse_node_ctx with (tr := []). cbn [ctx_sync_type ctx_obj_type ctx_build].
    by rewrite (parse_node_reads 1 0 nodes hack Hn build (tree_of ty) b0 SyncNodeData_default Hwf).
  - apply upcoming_app in Hu0 as [Hp Hu0].
    pose proof (reads_bit hack true b0 Hwf eq_refl Hp) as Hr. unfold lift in Hr.
    destruct (read_bit b0) as [v b1]. injection Hr as -> ->.
    rewrite parse_node_ctx with (tr := []). cbn [ctx_sync_type ctx_obj_type ctx_build].
    rewrite (parse_node_reads 2 1 nodes hack Hn build (tree_of ty) (advance b0 1)
      SyncNodeData_default); [done|by apply wf_advance; [lia|]|done|exact Hu0].
Qed.

Lemma authored_round_trip_lemma `{Libm} ty is_create hack build nodes bytes :
  Forall payload_ok nodes -> write_sync_tree ty is_create hack build nodes = Some bytes ->
  bytes_ok bytes /\ parse_sync_tree ty is_create bytes hack build
  = foldl (apply_leaf build) SyncNodeData_default (authored_leaves nodes is_create (tree_of ty)).
Proof.
  intros Hn Hw. destruct (write_sync_tree_spec ty is_create hack build nodes Hn) as [Hs Hf].
  set (bs := authored_bits hack nodes is_create (tree_of ty)) in *.
  destruct (Z.le_gt_cases (blen bs) 32768) as [Hl|Hl]; [|by rewrite Hf in Hw by lia].
  rewrite Hs in Hw by done. injection Hw as <-.
  destruct (wf_tree_scratch hack) as (Hwf & Hmax & Hcur).
  destruct (written_append (tree_scratch hack) bs Hwf Hcur ltac:(lia)) as (Hb & _ & Hu).
  split; [exact Hb|]. by apply parse_authored.
Qed.

(** ** Payload tables written by closures *)

(** [puts w bs]: into an empty scratch buffer with room, the statements [w]
    append exactly [bs]. *)
Definition puts (w : MessageBuffer -> MessageBuffer) (bs : list bool) : Prop :=
  forall b, wf_full b -> length_hack b = false -> cur_bit b + blen bs <= max_bit b ->
  w b = append b bs.

Lemma puts_wr w bs : writes false w bs -> puts (wr w) bs.
Proof.
  intros Hw b Hb Hh Hr. unfold wr. destruct (Hw b Hb Hh) as [Ht _]; [lia|].
  by rewrite Ht.
Qed.

Lemma puts_seq w1 w2 bs1 bs2 : puts w1 bs1 -> puts w2 bs2 -> puts (w1 >>> w2) (bs1 ++ bs2).
Proof.
  intros H1 H2 b Hb Hh Hr. rewrite length_app in Hr. unfold and_also.
  rewrite H1 by (done || lia). rewrite H2, append_append; [done|..].
  - apply wf_full_append; [done|lia].
  - done.
  - cbn [append advance set_current_bit with_data cur_bit max_bit]. lia.
Qed.

Lemma puts_field v n : 0 <= n -> n <> 13 -> puts (field v n) (bits_of n v).
Proof.
  intros Hn Hne. apply puts_wr. pose proof (writes_single false v n Hn) as H.
  unfold field_bits in H. by rewrite effective_len_ne in H.
Qed.

Lemma puts_bit v : puts (bit v) [v].
Proof. apply puts_wr, writes_bit. Qed.

(** The table built by successive [set] calls. *)
Definition entry_of (e : string * list bool) : string * list Z * Z :=
  (e.1, data (append (new NODE_SCRATCH_BYTES) e.2), blen e.2).
Definition table_of (al : list (string * list bool)) : AuthoredNodes := entry_of <$> al.

Lemma set_table al name w bs : puts w bs -> blen bs <= 8192 ->
  set (table_of al) name w = table_of (al ++ [(name, bs)]).
Proof.
  intros Hw Hl. unfold set, table_of. rewrite fmap_app. f_equal. cbn [fmap list_fmap entry_of fst snd].
  rewrite Hw; [|by apply wf_full_new|done|done].
  unfold entry_of. cbn [fst snd append advance set_current_bit with_data cur_bit data].
  done.
Qed.

Definition small (al : list (string * list bool)) : Prop := Forall (fun e => blen e.2 < 8192) al.

Lemma table_ok al : small al -> Forall payload_ok (table_of al).
Proof.
  intros Hs. unfold table_of. apply Forall_fmap. eapply Forall_impl; [exact Hs|].
  intros [n bs] Hl. cbn [fst snd] in Hl. unfold payload_ok, compose, entry_of. cbn [fst snd].
  assert (Hwf : wf_full (append (new NODE_SCRATCH_BYTES) bs)).
  { apply wf_full_append; [by apply wf_full_new|]. cbn [new cur_bit max_bit].
    unfold NODE_SCRATCH_BYTES. lia. }
  destruct Hwf as [[Hd _ _] Hm]. split; [exact Hd|]. rewrite <- Hm.
  cbn [append advance set_current_bit with_data max_bit new]. unfold NODE_SCRATCH_BYTES. lia.
Qed.

Fixpoint find_bits (al : list (string * list bool)) (name : string) : list bool :=
  match al with
  | [] => []
  | (n, bs) :: al => if String.eqb n name then bs else find_bits al name
  end.

Lemma payload_bits_table al name : small al -> payload_bits (table_of al) name = find_bits al name.
Proof.
  intros Hs. unfold payload_bits. induction Hs as [|[n bs] al Hl _ IH]; [done|].
  cbn [table_of fmap list_fmap entry_of fst snd payload find_bits].
  destruct (String.eqb n name); [|exact IH].
  cbn [append advance set_current_bit with_data data]. apply get_put_bits; [done|].
  cbn [fst snd] in Hl. cbn [new data cur_bit]. rewrite length_replicate.
  unfold NODE_SCRATCH_BYTES. lia.
Qed.

Lemma contains_table al name : contains (table_of al) name = existsb (fun n => String.eqb n name) al.*1.
Proof. induction al as [|[n bs] al IH]; [done|]. simpl. f_equal. exact IH. Qed.

(** Which leaves are emitted depends on the authored names only. *)
Section Names.
Variables (st ot : Z) (names : list string).

Let named (n : string) : bool := existsb (fun m => String.eqb m n) names.

Fixpoint any_named (t : SyncNode) : bool :=
  match t with
  | SLeaf i name _ => negb (gated st ot i) && named name
  | SParent _ ts => existsb any_named ts
  end.

Definition framed_names (i : Z * Z * Z) (present : bool) (l : list string) : list string :=
  if gated st ot i then [] else if has_presence st i then if present then l else [] else l.

Fixpoint emitted_names (t : SyncNode) : list string :=
  match t with
  | SLeaf i name _ => framed_names i (named name) [name]
  | SParent i ts => framed_names i (existsb any_named ts) (concat (emitted_names <$> ts))
  end.
End Names.

Lemma any_named_table st ot al t : any_payload st ot (table_of al) t = any_named st ot al.*1 t.
Proof.
  induction t as [i n m|i ts IH] using SyncNode_rect'; simpl; [by rewrite contains_table|].
  induction IH as [|t ts Ht _ IHts]; [done|]. simpl. by rewrite Ht, IHts.
Qed.

Lemma emitted_table st ot al t : small al ->
  emitted st ot (table_of al) t = (fun n => (n, find_bits al n)) <$> emitted_names st ot al.*1 t.
Proof.
  intros Hs. induction t as [i n m|i ts IH] using SyncNode_rect'; cbn [emitted emitted_names].
  - rewrite contains_table, payload_bits_table by done. unfold framed_leaves, framed_names.
    by repeat case_match.
  - assert (existsb (any_payload st ot (table_of al)) ts = existsb (any_named st ot al.*1) ts) as ->.
    { clear. induction ts as [|t ts IHts]; [done|]. simpl. by rewrite any_named_table, IHts. }
    assert (concat (emitted st ot (table_of al) <$> ts)
      = (fun n => (n, find_bits al n)) <$> concat (emitted_names st ot al.*1 <$> ts)) as ->.
    { induction IH as [|t ts Ht _ IHts]; [done|]. rewrite !fmap_cons. cbn [concat].
      by rewrite Ht, IHts, fmap_app. }
    unfold framed_leaves, framed_names.
    by repeat case_match.
Qed.

(** ** What the writer guarantees *)

(** C12: authoring and decoding agree on every entity type, in creates and in
    syncs, under both length-hack modes: when a tree is written at all, the
    decoder reads back exactly the authored leaves of that record, in tree
    order, each from a view holding its payload's bits, and nothing else. *)
Theorem authored_round_trip `{Libm} ty is_create hack build nodes bytes :
  Forall payload_ok nodes -> write_sync_tree ty is_create hack build nodes = Some bytes ->
  bytes_ok bytes /\
  parse_sync_tree ty is_create bytes hack build
  = foldl (apply_leaf build) SyncNodeData_default (authored_leaves nodes is_create (tree_of ty)).
Proof. apply authored_round_trip_lemma. Qed.

(** a tree is written exactly when its bits fit the 4096-byte scratch
    buffer; otherwise the writer refuses it whole, and the written bytes are
    those bits padded to a byte boundary. *)
Theorem write_sync_tree_total ty is_create hack build nodes :
  Forall payload_ok nodes ->
  let bs := authored_bits hack nodes is_create (tree_of ty) in
  match write_sync_tree ty is_create hack build nodes with
  | Some bytes => blen bs <= 32768 /\ Z.of_nat (length bytes) = (blen bs + 7) / 8 /\
                  upcoming (from_bytes bytes) bs
  | None => 32768 < blen bs
  end.
Proof.
  intros Hn bs. destruct (write_sync_tree_spec ty is_create hack build nodes Hn) as [Hs Hf].
  fold bs in Hs, Hf. destruct (Z.le_gt_cases (blen bs) 32768) as [Hl|Hl]; [|by rewrite Hf by lia].
  rewrite Hs by done. split; [done|]. destruct (wf_tree_scratch hack) as (Hwf & Hmax & Hcur).
  by destruct (written_append (tree_scratch hack) bs Hwf Hcur ltac:(lia)) as (_ & ? & ?).
Qed.

#[local] Instance libm_flat : Libm :=
  {| f32_sin := fun _ => f32_zero; f32_cos := fun _ => f32_one; f32_atan2 := fun _ _ => f32_zero |}.

Definition sample_table : AuthoredNodes :=
  table_of [("CSectorDataNode"%string, bits_of 10 500 ++ bits_of 10 510 ++ bits_of 6 12);
            ("CPhysicalGameStateDataNode"%string, [true])].

Lemma sample_table_ok : Forall payload_ok sample_table.
Proof. apply table_ok. repeat constructor. Qed.

Lemma authored_round_trip_witness : exists bytes,
  write_sync_tree Automobile false true default_build sample_table = Some bytes /\
  bytes_ok bytes /\
  parse_sync_tree Automobile false bytes true default_build
  = foldl (apply_leaf default_build) SyncNodeData_default
      (authored_leaves sample_table false (tree_of Automobile)).
Proof.
  destruct (write_sync_tree Automobile false true default_build sample_table) as [bytes|] eqn:E.
  - exists bytes. split; [reflexivity|].
    exact (authored_round_trip Automobile false true default_build sample_table bytes sample_table_ok E).
  - exfalso. revert E. vm_compute. discriminate.
Defined.

Lemma write_sync_tree_total_witness :
  let bs := authored_bits true sample_table false (tree_of Automobile) in
  match write_sync_tree Automobile false true default_build sample_table with
  | Some bytes => blen bs <= 32768 /\ Z.of_nat (length bytes) = (blen bs + 7) / 8 /\
                  upcoming (from_bytes bytes) bs
  | None => 32768 < blen bs
  end.
Proof.
  exact (write_sync_tree_total Automobile false true default_build sample_table sample_table_ok).
Defined.

(** ** The vehicle factory *)

Lemma view_upcoming bs : wf (view_of bs) /\ length_hack (view_of bs) = false /\ upcoming (view_of bs) bs.
Proof.
  unfold view_of. set (d := put_bits _ 0 bs).
  assert (Hlen : dlen d >= blen bs).
  { subst d. rewrite length_put_bits, length_replicate. zdm. }
  split; [apply wf_from_bits; [by apply put_bits_ok|lia]|]. split; [done|].
  split; cbn [from_bits cur_bit max_bit data]; [lia|]. apply get_put_bits; [lia|].
  rewrite length_replicate. zdm.
Qed.

Lemma reads_attempt {A} hack (m : SM MessageBuffer A) bs a :
  reads hack m bs a -> reads hack (attempt m) bs (Some a).
Proof. intros Hm b Hb Hh Hu. unfold attempt. by rewrite Hm. Qed.

Lemma run_leaf_reads `{Libm} name build out bs1 bs2 out' :
  reads false (decode_leaf name build out) bs1 out' ->
  run_leaf name (view_of (bs1 ++ bs2)) build out = out'.
Proof.
  intros Hr. destruct (view_upcoming (bs1 ++ bs2)) as (Hwf & Hh & Hu).
  apply upcoming_app in Hu as [Hu _]. unfold run_leaf. by rewrite (Hr _ Hwf Hh Hu).
Qed.

(** A quantised coordinate as the wire carries it, and as it decodes. *)
Definition quantum_code (bits : Z) (divisor v : f32) : Z :=
  u32 (f32_as_i32 (f32_mul (f32_div v divisor) (quantum_max bits))) mod 2 ^ bits.
Definition requantised (bits : Z) (divisor v : f32) : f32 :=
  f32_mul (f32_div (f32_of_Z (i32 (quantum_code bits divisor v))) (quantum_max bits)) divisor.

Definition float_bits (bits : Z) (divisor v : f32) : list bool :=
  bits_of bits (u32 (f32_as_i32 (f32_mul (f32_div v divisor) (quantum_max bits)))).

Lemma puts_float bits divisor v : 0 <= bits -> bits <> 13 ->
  puts (wr (write_float bits divisor v)) (float_bits bits divisor v).
Proof. intros. unfold write_float. by apply puts_field. Qed.

Lemma reads_float bits divisor v : 1 <= bits <= 32 -> bits <> 13 ->
  reads false (read_float bits divisor) (float_bits bits divisor v) (requantised bits divisor v).
Proof.
  intros Hb Hne b Hwf Hh Hu. unfold read_float.
  destruct (Z.eqb_spec bits 0); [lia|]. destruct (Z.gtb_spec bits 32); [lia|]. cbn [orb].
  assert (Hr : reads false (integer ← read_bits_single bits;
      mret (f32_mul (f32_div (f32_of_Z (i32 integer)) (quantum_max bits)) divisor))
    (float_bits bits divisor v) (requantised bits divisor v)).
  { unfold requantised, quantum_code. set (w := u32 _).
    apply (reads_bind_ret _ _ (fun i => f32_mul (f32_div (f32_of_Z (i32 i)) _) _)).
    pose proof (reads_single_mod false w bits ltac:(lia)) as Hmod. unfold field_bits in Hmod.
    by rewrite effective_len_ne in Hmod. }
  by rewrite Hr.
Qed.

Definition offset_bits (bits : Z) (o : vec3) : list bool :=
  let '(o0, o1, o2) := o in
  (float_bits bits (f32_of_Z 54) o0 ++ float_bits bits (f32_of_Z 54) o1)
  ++ float_bits bits (f32_of_Z 69) o2.

Definition requantised_offset (bits : Z) (o : vec3) : vec3 :=
  let '(o0, o1, o2) := o in
  (requantised bits (f32_of_Z 54) o0, requantised bits (f32_of_Z 54) o1,
   requantised bits (f32_of_Z 69) o2).

Lemma puts_offset bits o : 0 <= bits -> bits <> 13 -> puts (write_offset o bits) (offset_bits bits o).
Proof.
  intros. destruct o as [[o0 o1] o2]. repeat apply puts_seq; by apply puts_float.
Qed.

Lemma reads_offset bits o : 1 <= bits <= 32 -> bits <> 13 ->
  reads false (read_sector_offset bits) (offset_bits bits o) (requantised_offset bits o).
Proof.
  intros. destruct o as [[o0 o1] o2]. unfold read_sector_offset, offset_bits.
  rewrite <- app_assoc. do 2 (eapply reads_bind; [by apply reads_float|cbv beta]).
  eapply (reads_bind_ret _ _ (fun z => (_, _, z))). by apply reads_float.
Qed.

Lemma length_float_bits bits divisor v : 0 <= bits -> blen (float_bits bits divisor v) = bits.
Proof. apply length_bits_of. Qed.

Lemma puts_eq w bs bs' : puts w bs' -> bs' = bs -> puts w bs.
Proof. by intros ? <-. Qed.

Ltac puts_tac := repeat first
  [ apply puts_seq | apply puts_field; [lia || by compute|lia || by compute] | apply puts_bit ].

Definition sector_bits (s0 s1 s2 : Z) : list bool :=
  (bits_of 10 (u32 s0) ++ bits_of 10 (u32 s1)) ++ bits_of 6 (u32 s2).

Definition creation_tail (token : Z) : list bool :=
  bits_of 16 0 ++ [false] ++ bits_of 19 1000 ++ bits_of 3 2 ++ bits_of 32 token
  ++ [false; false; false].

Definition creation_bits (model token : Z) : list bool :=
  (bits_of 32 model ++ bits_of 4 POPTYPE_MISSION) ++ creation_tail token.

Section Vehicle.
Context `{Libm} (model : Z) (position : vec3) (hdg : f32) (token : Z).

Definition quaternion_of : CompressedQuaternion := compress (from_heading_degrees hdg) BITS.
Definition quaternion_bits : list bool :=
  ((bits_of 2 (largest quaternion_of) ++ bits_of BITS (qa quaternion_of))
   ++ bits_of BITS (qb quaternion_of)) ++ bits_of BITS (qc quaternion_of).

(** The heading as the wire keeps it. *)
Definition requantised_heading : f32 :=
  to_heading_degrees (decompress {| largest := largest quaternion_of mod 2 ^ 2;
    qa := qa quaternion_of mod 2 ^ BITS; qb := qb quaternion_of mod 2 ^ BITS;
    qc := qc quaternion_of mod 2 ^ BITS |} BITS).

Definition vehicle_entries : list (string * list bool) :=
  let '((s0, s1, s2), offset) := sector_of position in
  [("CVehicleCreationDataNode"%string, creation_bits model token);
   ("CAutomobileCreationDataNode"%string, [true]);
   ("CSectorDataNode"%string, sector_bits s0 s1 s2);
   ("CSectorPositionDataNode"%string, offset_bits 12 offset);
   ("CEntityOrientationDataNode"%string, quaternion_bits)].

Lemma vehicle_entries_small : Forall (fun e => blen e.2 <= 128) vehicle_entries.
Proof.
  unfold vehicle_entries. destruct (sector_of position) as [[[s0 s1] s2] [[o0 o1] o2]].
  repeat apply Forall_cons_2; [..|done]; cbn [snd].
  all: unfold creation_bits, creation_tail, sector_bits, offset_bits, quaternion_bits, BITS.
  all: rewrite ?length_app, ?Nat2Z.inj_add, ?length_bits_of, ?length_float_bits by lia; simpl; lia.
Qed.

Lemma author_vehicle_table : author_vehicle model position hdg token = table_of vehicle_entries.
Proof.
  pose proof vehicle_entries_small as Hs. unfold author_vehicle, author_position, vehicle_entries in *.
  destruct (sector_of position) as [[[s0 s1] s2] offset].
  apply Forall_cons in Hs as [Hs0 Hs]. apply Forall_cons in Hs as [Hs1 Hs].
  apply Forall_cons in Hs as [Hs2 Hs]. apply Forall_cons in Hs as [Hs3 Hs].
  apply Forall_cons in Hs as [Hs4 _]. cbn [snd] in *.
  change (@nil (string * list Z * Z)) with (table_of []).
  rewrite (set_table [] _ _ (creation_bits model token)); [| |lia].
  2: { eapply puts_eq; [puts_tac|]. unfold creation_bits, creation_tail. by rewrite <- !app_assoc. }
  rewrite (set_table _ _ _ [true]); [|apply puts_bit|lia].
  rewrite (set_table _ _ _ (sector_bits s0 s1 s2)); [|unfold sector_bits; puts_tac|lia].
  rewrite (set_table _ _ _ (offset_bits 12 offset)); [|apply puts_offset; lia|lia].
  rewrite (set_table _ _ _ quaternion_bits); [done| |lia].
  unfold write_quaternion, quaternion_bits, quaternion_of, BITS. puts_tac.
Qed.
End Vehicle.

Section VehicleRead.
Context `{Libm} (build : GameBuild).

Lemma leaf_creation out mdl token : is_u 32 mdl ->
  apply_leaf build out ("CVehicleCreationDataNode"%string, creation_bits mdl token)
  = out <| model := Some mdl |> <| population_type := Some POPTYPE_MISSION |>.
Proof.
  intros Hm. apply run_leaf_reads.
  change (reads false (m ← attempt (read_bits_single 32); pop ← attempt (read_u8 4);
      mret (out <| model := m |> <| population_type := pop |>))
    (bits_of 32 mdl ++ bits_of 4 POPTYPE_MISSION)
    (out <| model := Some mdl |> <| population_type := Some POPTYPE_MISSION |>)).
  eapply reads_bind; [apply reads_attempt; by apply (reads_single_ne false mdl 32)|cbv beta].
  apply (reads_bind_ret _ _ (fun pop => out <| model := Some mdl |> <| population_type := pop |>)
    _ (Some POPTYPE_MISSION)).
  apply reads_attempt. change POPTYPE_MISSION with (u8 7) at 2. apply (reads_bind_ret _ _ u8).
  by apply (reads_single_ne false 7 4).
Qed.

Lemma i32_u32_small n s : 0 <= n <= 31 -> is_u n s -> u32 s = s /\ i32 s = s.
Proof.
  unfold is_u, u32, i32. intros Hn Hs. assert (2 ^ n <= 2 ^ 31) by (apply Z.pow_le_mono_r; lia).
  split; [apply Z.mod_small; lia|]. rewrite Z.mod_small; lia.
Qed.

Lemma leaf_sector out s0 s1 s2 : is_u 10 s0 -> is_u 10 s1 -> is_u 6 s2 ->
  apply_leaf build out ("CSectorDataNode"%string, sector_bits s0 s1 s2)
  = out <| sector := Some (s0, s1, s2) |>.
Proof.
  intros H0 H1 H2. destruct (i32_u32_small 10 s0 ltac:(lia) H0) as [U0 I0].
  destruct (i32_u32_small 10 s1 ltac:(lia) H1) as [U1 I1].
  destruct (i32_u32_small 6 s2 ltac:(lia) H2) as [U2 I2].
  unfold apply_leaf. cbn [fst snd]. rewrite <- (app_nil_r (sector_bits s0 s1 s2)).
  change (decodes "CSectorDataNode"%string) with true. cbv iota. apply run_leaf_reads.
  change (reads false (x ← attempt (read_bits_single 10); y ← attempt (read_bits_single 10);
      z ← attempt (read_bits_single 6);
      mret (match x, y, z with
            | Some x, Some y, Some z => out <| sector := Some (i32 x, i32 y, i32 z) |>
            | _, _, _ => out
            end)) (sector_bits s0 s1 s2) (out <| sector := Some (s0, s1, s2) |>)).
  unfold sector_bits. rewrite U0, U1, U2, <- app_assoc.
  eapply reads_bind; [apply reads_attempt; by apply (reads_single_ne false s0 10)|cbv beta].
  eapply reads_bind; [apply reads_attempt; by apply (reads_single_ne false s1 10)|cbv beta].
  eapply reads_eq.
  - eapply (reads_bind_ret _ _ (fun z => match z with
      | Some z => out <| sector := Some (i32 s0, i32 s1, i32 z) |> | None => out end)).
    apply reads_attempt; by apply (reads_single_ne false s2 6).
  - cbv beta iota. by rewrite I0, I1, I2.
Qed.

Lemma leaf_offset out o :
  apply_leaf build out ("CSectorPositionDataNode"%string, offset_bits 12 o)
  = out <| sector_position := Some (requantised_offset 12 o) |>.
Proof.
  unfold apply_leaf. cbn [fst snd]. rewrite <- (app_nil_r (offset_bits 12 o)).
  change (decodes "CSectorPositionDataNode"%string) with true. cbv iota. apply run_leaf_reads.
  change (reads false (o ← attempt (read_sector_offset 12); mret (out <| sector_position := o |>))
    (offset_bits 12 o) (out <| sector_position := Some (requantised_offset 12 o) |>)).
  apply (reads_bind_ret _ _ (fun o => out <| sector_position := o |>)
    _ (Some (requantised_offset 12 o))).
  apply reads_attempt. by apply reads_offset.
Qed.

Lemma reads_mod n v : 0 <= n <= 32 -> n <> 13 ->
  reads false (read_bits_single n) (bits_of n v) (v mod 2 ^ n).
Proof.
  intros Hn Hne. pose proof (reads_single_mod false v n Hn) as Hm. unfold field_bits in Hm.
  by rewrite effective_len_ne in Hm.
Qed.

Lemma leaf_orientation out hdg :
  apply_leaf build out ("CEntityOrientationDataNode"%string, quaternion_bits hdg)
  = out <| heading := Some (requantised_heading hdg) |>.
Proof.
  unfold apply_leaf. cbn [fst snd]. rewrite <- (app_nil_r (quaternion_bits hdg)).
  change (decodes "CEntityOrientationDataNode"%string) with true. cbv iota. apply run_leaf_reads.
  change (reads false (h ← attempt read_quaternion_heading; mret (out <| heading := h |>))
    (quaternion_bits hdg) (out <| heading := Some (requantised_heading hdg) |>)).
  apply (reads_bind_ret _ _ (fun h => out <| heading := h |>) _ (Some (requantised_heading hdg))).
  apply reads_attempt. unfold read_quaternion_heading, quaternion_bits, requantised_heading, BITS.
  rewrite <- !app_assoc.
  do 3 (eapply reads_bind; [apply reads_mod; lia|cbv beta]).
  apply (reads_bind_ret _ _ (fun c => to_heading_degrees (decompress
    {| largest := _; qa := _; qb := _; qc := c |} 11))). apply reads_mod; lia.
Qed.
End VehicleRead.

(** *** Size of an authored tree *)

Lemma tree_bits_bound st ot nodes hack k t dep :
  (forall name, blen (payload_bits nodes name) <= k) ->
  blen (tree_bits st ot nodes hack t) <= (17 + k) * Z.of_nat (length (flatten dep t)).
Proof.
  intros Hk. assert (0 <= k) by (specialize (Hk ""%string); lia).
  assert (Hfr : forall i present body n, blen body + 1 <= n -> 1 <= n ->
    blen (framed_bits st ot i present body) <= n).
  { intros i present body n Hb Hn. unfold framed_bits.
    destruct (gated st ot i); [simpl; lia|]. destruct (has_presence st i); [|lia].
    destruct present; cbn [length]; lia. }
  revert dep. induction t as [i n m|i ts IH] using SyncNode_rect'; intros dep.
  - cbn [tree_bits flatten length]. apply Hfr; [|lia]. unfold leaf_bits. specialize (Hk n).
    rewrite length_app, Nat2Z.inj_add, length_field_bits by (by compute).
    assert (effective_len_of hack NODE_LENGTH_BITS <= 16) by (by destruct hack). lia.
  - rewrite flatten_parent. cbn [tree_bits length].
    assert (blen (concat (tree_bits st ot nodes hack <$> ts))
      <= (17 + k) * Z.of_nat (length (flatten_forest (dep + 1) ts))) as Hc.
    { induction IH as [|t ts Ht _ IHts]; [simpl; lia|].
      rewrite fmap_cons, flatten_forest_cons. cbn [concat]. rewrite !length_app, !Nat2Z.inj_add.
      specialize (Ht (dep + 1)). lia. }
    apply Hfr; lia.
Qed.

Lemma find_bits_bound al k name : 0 <= k -> Forall (fun e => blen e.2 <= k) al ->
  blen (find_bits al name) <= k.
Proof.
  intros Hk Hal. induction Hal as [|[n bs] al Hb _ IH]; simpl; [lia|].
  by destruct (String.eqb n name).
Qed.

Lemma trees_are_small ty : (length (tree_for ty) <= 44)%nat.
Proof. destruct ty; vm_compute; lia. Qed.

Lemma authored_bits_fit al hack is_create ty : Forall (fun e => blen e.2 <= 128) al ->
  blen (authored_bits hack (table_of al) is_create (tree_of ty)) <= 32768.
Proof.
  intros Hal. assert (Hs : small al) by (eapply Forall_impl; [exact Hal|]; cbn; lia).
  unfold authored_bits. destruct (sync_params is_create) as [st ot].
  rewrite length_app, Nat2Z.inj_add.
  assert (blen (record_prefix is_create) <= 1) by (by destruct is_create).
  pose proof (tree_bits_bound st ot (table_of al) hack 128 (tree_of ty) 0) as Hb.
  rewrite <- tree_for_flatten in Hb. pose proof (trees_are_small ty).
  enough (forall name, blen (payload_bits (table_of al) name) <= 128) as Hp
    by (specialize (Hb Hp); lia).
  intros name. rewrite payload_bits_table by done. by apply find_bits_bound.
Qed.

(** *** Size of a create, whatever the factory *)

(** [yields w n]: [w] appends at most [n] bits. *)
Definition yields (w : MessageBuffer -> MessageBuffer) (n : Z) : Prop :=
  exists bs, puts w bs /\ blen bs <= n.

Lemma yields_seq w1 w2 n1 n2 : yields w1 n1 -> yields w2 n2 -> yields (w1 >>> w2) (n1 + n2).
Proof.
  intros (b1 & H1 & L1) (b2 & H2 & L2). exists (b1 ++ b2). split; [by apply puts_seq|].
  rewrite length_app. lia.
Qed.

Lemma yields_bit v : yields (bit v) 1.
Proof. exists [v]. split; [apply puts_bit|done]. Qed.

Lemma yields_field v n : 0 <= n -> yields (field v n) n.
Proof.
  intros Hn. exists (field_bits false n v). split; [by apply puts_wr, writes_single|].
  rewrite length_field_bits by done. unfold effective_len_of. by rewrite andb_false_r.
Qed.

Lemma yields_float bits divisor v : 0 <= bits -> yields (wr (write_float bits divisor v)) bits.
Proof. intros. by apply yields_field. Qed.

Lemma yields_signed bits divisor v : 1 <= bits -> yields (wr (write_signed_float bits divisor v)) bits.
Proof.
  intros Hb. unfold write_signed_float, write_signed. eexists.
  split; [apply puts_wr, writes_and; apply writes_single; lia|].
  rewrite length_app, Nat2Z.inj_add, !length_field_bits by lia.
  unfold effective_len_of. rewrite !andb_false_r. lia.
Qed.

Lemma yields_offset o bits : 0 <= bits -> yields (write_offset o bits) (bits + bits + bits).
Proof. intros. destruct o as [[o0 o1] o2]. by repeat apply yields_seq; apply yields_float. Qed.

Lemma yields_quaternion `{Libm} heading : yields (write_quaternion heading) (2 + BITS + BITS + BITS).
Proof. by repeat apply yields_seq; apply yields_field. Qed.

(** Every payload is of at most 128 bits. *)
Definition light (nodes : AuthoredNodes) : Prop := Forall (fun n => payload_ok n /\ n.2 <= 128) nodes.

Lemma light_set nodes name w n : light nodes -> yields w n -> n <= 128 -> light (set nodes name w).
Proof.
  intros Hl (bs & Hw & Hn) Hle. assert (Hs : small [(name, bs)]) by (constructor; [cbn; lia|done]).
  assert (He : set nodes name w = nodes ++ table_of [(name, bs)]).
  { pose proof (set_table [] name w bs Hw ltac:(lia)) as H. unfold set in *. cbn in H. by rewrite H. }
  rewrite He. apply Forall_app. split; [done|]. pose proof (table_ok _ Hs) as Hp.
  apply Forall_cons in Hp as [Hp _]. constructor; [|done]. split; [exact Hp|cbn; lia].
Qed.

Ltac yields_tac :=
  lazymatch goal with
  | |- yields (_ >>> _) _ => apply yields_seq; yields_tac
  | |- yields (bit _) _ => apply yields_bit
  | |- yields (field _ _) _ => apply yields_field; lia
  | |- yields (write_offset _ _) _ => apply yields_offset; lia
  | |- yields (write_quaternion _) _ => apply yields_quaternion
  | |- yields (wr (write_signed_float _ _ _)) _ => apply yields_signed; lia
  end.

Lemma light_position nodes p o : light nodes -> light (author_position nodes p o).
Proof.
  intros Hl. unfold author_position. destruct (sector_of p) as [[[s0 s1] s2] offset].
  assert (Hn : light (set nodes "CSectorDataNode"%string (field (u32 s0) 10 >>> field (u32 s1) 10 >>> field (u32 s2) 6)))
    by (eapply light_set; [exact Hl|yields_tac|done]).
  destruct o; (eapply light_set; [exact Hn|yields_tac|done]).
Qed.

Lemma light_first name w n : yields w n -> n <= 128 -> light (set [] name w).
Proof. intros Hw Hn. by eapply light_set; [constructor|exact Hw|]. Qed.

Lemma author_light `{Libm} mdl p hd token dynamic :
  light (author_vehicle mdl p hd token) /\ light (author_ped mdl p hd) /\ light (author_object mdl p hd dynamic).
Proof.
  unfold author_vehicle, author_ped, author_object. cbv zeta. split_and!.
  - eapply light_set; [apply light_position|apply yields_quaternion|done].
    eapply light_set; [eapply light_first; [yields_tac|done]|apply yields_bit|done].
  - eapply light_set; [apply light_position|yields_tac|done]. eapply light_first; [yields_tac|done].
  - eapply light_set; [apply light_position|yields_tac|done]. eapply light_first; [yields_tac|done].
Qed.

Lemma light_payload nodes name : light nodes -> blen (payload_bits nodes name) <= 128.
Proof.
  intros Hl. unfold payload_bits. induction Hl as [|[[n bytes] bits] nodes [(Hb & Hr & Hd) Hle] _ IH]; [done|].
  cbn [payload]. destruct (String.eqb n name); [|exact IH]. cbn [fst snd] in *. rewrite length_get_bits; lia.
Qed.

(** The blob of a create of such a table fits a record's. *)
Lemma light_create_blob ty is_create hack build nodes blob :
  light nodes -> write_sync_tree ty is_create hack build nodes = Some blob -> blob_ok blob.
Proof.
  intros Hl Hw. assert (Hn : Forall payload_ok nodes) by (eapply Forall_impl; [exact Hl|]; by intros ? []).
  destruct (write_sync_tree_spec ty is_create hack build nodes Hn) as [Hs _].
  set (bs := authored_bits hack nodes is_create (tree_of ty)) in *.
  assert (Hb : blen bs <= 6381).
  { unfold bs, authored_bits. destruct (sync_params is_create) as [st ot].
    rewrite length_app, Nat2Z.inj_add.
    assert (blen (record_prefix is_create) <= 1) by (by destruct is_create).
    pose proof (tree_bits_bound st ot nodes hack 128 (tree_of ty) 0 (fun name => light_payload nodes name Hl)) as Ht.
    rewrite <- tree_for_flatten in Ht. pose proof (trees_are_small ty). lia. }
  rewrite Hs in Hw by lia. injection Hw as <-. destruct (wf_tree_scratch hack) as (Hwf & Hmax & Hcur).
  destruct (written_append (tree_scratch hack) bs Hwf Hcur ltac:(lia)) as (Hok & Hlen & _).
  split; [exact Hok|]. rewrite Hlen. zdm.
Qed.

(** What any factory's tree decodes to: its entries' leaves, in tree order. *)
Lemma factory_reads_back `{Libm} ty is_create hack build al :
  Forall (fun e => blen e.2 <= 128) al ->
  let '(st, ot) := sync_params is_create in
  exists bytes, write_sync_tree ty is_create hack build (table_of al) = Some bytes /\
    parse_sync_tree ty is_create bytes hack build
    = foldl (apply_leaf build) SyncNodeData_default
        ((fun n => (n, find_bits al n)) <$> emitted_names st ot al.*1 (tree_of ty)).
Proof.
  intros Hal. assert (Hs : small al) by (eapply Forall_impl; [exact Hal|]; cbn; lia).
  pose proof (write_sync_tree_spec ty is_create hack build _ (table_ok _ Hs)) as [Hw _].
  pose proof (authored_bits_fit al hack is_create ty Hal) as Hfit. specialize (Hw Hfit).
  destruct (authored_round_trip_lemma ty is_create hack build _ _ (table_ok _ Hs) Hw) as [_ Hp].
  unfold authored_leaves in Hp. destruct (sync_params is_create) as [st ot].
  rewrite emitted_table in Hp by done. eauto.
Qed.

(** *** The vehicle *)

Definition vehicle_names : list string :=
  ["CVehicleCreationDataNode"; "CAutomobileCreationDataNode"; "CSectorDataNode";
   "CSectorPositionDataNode"; "CEntityOrientationDataNode"]%string.

Definition automobile_family (ty : NetObjEntityType) : bool :=
  match ty with Automobile | Heli | Trailer => true | _ => false end.

(** The leaves a vehicle create emits: the automobile-family node only where
    the tree has it. *)
Lemma vehicle_leaves ty : is_vehicle ty = true ->
  emitted_names 1 0 vehicle_names (tree_of ty)
  = "CVehicleCreationDataNode"%string
    :: (if automobile_family ty then ["CAutomobileCreationDataNode"%string] else [])
    ++ ["CSectorDataNode"; "CSectorPositionDataNode"; "CEntityOrientationDataNode"]%string.
Proof. destruct ty; intros Hty; try discriminate Hty; by vm_compute. Qed.

(** a server-created vehicle reads back as authored: for every vehicle
    type, build and length-hack mode the create is written, and decoding it
    gives exactly the model, the mission population type, the sector of the
    position, the offset and heading as quantised on the wire, and no other
    field. *)
Theorem vehicle_create_reads_back `{Libm} ty hack build mdl position hdg token s0 s1 s2 offset :
  is_vehicle ty = true -> is_u 32 mdl -> sector_of position = ((s0, s1, s2), offset) ->
  is_u 10 s0 -> is_u 10 s1 -> is_u 6 s2 ->
  exists bytes, write_sync_tree ty true hack build (author_vehicle mdl position hdg token) = Some bytes /\
    parse_sync_tree ty true bytes hack build
    = SyncNodeData_default
        <| model := Some mdl |> <| population_type := Some POPTYPE_MISSION |>
        <| sector := Some (s0, s1, s2) |>
        <| sector_position := Some (requantised_offset 12 offset) |>
        <| heading := Some (requantised_heading hdg) |>.
Proof.
  intros Hty Hm Hsec H0 H1 H2. rewrite author_vehicle_table.
  pose proof (vehicle_entries_small mdl position hdg token) as Hs.
  destruct (factory_reads_back ty true hack build _ Hs) as (bytes & Hw & Hp).
  exists bytes. split; [exact Hw|]. rewrite Hp. unfold vehicle_entries. rewrite Hsec.
  change (_.*1) with vehicle_names. rewrite vehicle_leaves by done.
  assert (Hfold : forall out,
    foldl (apply_leaf build) out ((fun n => (n, find_bits
        [("CVehicleCreationDataNode"%string, creation_bits mdl token);
         ("CAutomobileCreationDataNode"%string, [true]);
         ("CSectorDataNode"%string, sector_bits s0 s1 s2);
         ("CSectorPositionDataNode"%string, offset_bits 12 offset);
         ("CEntityOrientationDataNode"%string, quaternion_bits hdg)] n)) <$>
      (if automobile_family ty then ["CAutomobileCreationDataNode"%string] else [])) = out).
  { intros out. by destruct (automobile_family ty). }
  rewrite fmap_cons, fmap_app. cbn [foldl]. rewrite foldl_app, Hfold.
  cbn [fmap list_fmap foldl].
  change (find_bits _ "CVehicleCreationDataNode") with (creation_bits mdl token).
  change (find_bits _ "CSectorDataNode") with (sector_bits s0 s1 s2).
  change (find_bits _ "CSectorPositionDataNode") with (offset_bits 12 offset).
  change (find_bits _ "CEntityOrientationDataNode") with (quaternion_bits hdg).
  by rewrite leaf_creation, leaf_sector, leaf_offset, leaf_orientation.
Qed.

Lemma vehicle_create_reads_back_witness : exists bytes,
  write_sync_tree Heli true true default_build
    (author_vehicle 3078201489 (f32_of_Z 100, f32_of_Z (-200), f32_of_Z 30) f32_zero 77) = Some bytes /\
  parse_sync_tree Heli true bytes true default_build
  = SyncNodeData_default
      <| model := Some 3078201489 |> <| population_type := Some POPTYPE_MISSION |>
      <| sector := Some (513, 508, 25) |>
      <| sector_position := Some (requantised_offset 12
           (f32_of_Z 46, f32_of_Z 16, f32_of_Z 5)) |>
      <| heading := Some (requantised_heading f32_zero) |>.
Proof.
  apply (vehicle_create_reads_back Heli true default_build 3078201489
    (f32_of_Z 100, f32_of_Z (-200), f32_of_Z 30) f32_zero 77 513 508 25);
    [reflexivity|by compute|by vm_compute|by compute|by compute|by compute].
Defined.

(** ** Thirteen-bit fields inside a leaf

    [decode_leaf] runs on a view built by [from_bits], which does not inherit
    the length hack of the stream it was cut from. *)

Lemma bits_of_split n m v : 0 <= n -> 0 <= m ->
  bits_of (n + m) v = bits_of n (Z.shiftr v m) ++ bits_of m v.
Proof.
  intros Hn Hm. revert v. pattern m. apply natlike_ind; [..|done]; clear m Hm.
  - intros v. rewrite Z.add_0_r, Z.shiftr_0_r. by rewrite app_nil_r.
  - intros m Hm IH v. unfold Z.succ. rewrite Z.add_assoc, !bits_of_snoc by lia.
    rewrite IH, <- app_assoc, Z.shiftr_shiftr by lia. by rewrite (Z.add_comm 1 m).
Qed.

Lemma leaf_attach_wide `{Libm} build out id : is_u 16 id ->
  apply_leaf build out ("CPhysicalAttachDataNode"%string, true :: field_bits true 13 id)
  = out <| attached_to := Some (id / 8) |>.
Proof.
  intros Hid. assert (His : Z.shiftr id 3 = id / 8) by (by rewrite Z.shiftr_div_pow2).
  assert (Hbits : true :: field_bits true 13 id = ([true] ++ bits_of 13 (id / 8)) ++ bits_of 3 id).
  { rewrite <- His, <- app_assoc, <- bits_of_split by lia. done. }
  rewrite Hbits. unfold apply_leaf. cbn [fst snd].
  change (decodes "CPhysicalAttachDataNode"%string) with true. cbv iota. apply run_leaf_reads.
  change (reads false (b ← flag;
    if (b : bool)
    then v ← attempt (v ← read_bits_single 13; mret (u16 v)); mret (out <| attached_to := v |>)
    else mret (out <| attached_to := Some 0 |>))
    ([true] ++ bits_of 13 (id / 8)) (out <| attached_to := Some (id / 8) |>)).
  eapply reads_bind.
  - apply (reads_bind_ret _ _ (fun v => negb (v =? 0))). apply reads_bit.
  - cbv beta iota. change (negb (Z.b2z true =? 0)) with true. cbv iota.
    apply (reads_bind_ret _ _ (fun v => out <| attached_to := v |>) _ (Some (id / 8))).
    apply reads_attempt. assert (is_u 13 (id / 8)) by (unfold is_u in *; zdm).
    eapply reads_eq; [apply (reads_bind_ret _ _ u16); by apply (reads_single false (id / 8) 13)|].
    apply u_id. by eapply is_u_le; [|done].
Qed.

(** under the length hack a peer writes an attached entity's id in 16 bits
    like every other 13-bit field, but the leaf decoder takes 13: whatever the
    entity, the decoded attachment is the id divided by eight. *)
Theorem attach_leaf_ignores_length_hack `{Libm} id build : is_u 16 id ->
  let al := [("CPhysicalAttachDataNode"%string, true :: field_bits true 13 id)] in
  exists bytes, write_sync_tree Automobile false true build (table_of al) = Some bytes /\
    attached_to (parse_sync_tree Automobile false bytes true build) = Some (id / 8).
Proof.
  intros Hid al. assert (Hlen : blen (field_bits true 13 id) = 16) by (by apply length_bits_of).
  assert (Hal : Forall (fun e => blen e.2 <= 128) al).
  { apply Forall_singleton. cbn [snd length]. lia. }
  destruct (factory_reads_back Automobile false true build al Hal) as (bytes & Hw & Hp).
  exists bytes. split; [exact Hw|]. rewrite Hp.
  assert (emitted_names 2 1 al.*1 (tree_of Automobile) = ["CPhysicalAttachDataNode"%string]) as ->
    by (by vm_compute).
  cbn [fmap list_fmap foldl].
  change (find_bits al _) with (true :: field_bits true 13 id). by rewrite leaf_attach_wide.
Qed.

Lemma attach_leaf_ignores_length_hack_witness : exists bytes,
  write_sync_tree Automobile false true default_build
    (table_of [("CPhysicalAttachDataNode"%string, true :: field_bits true 13 40000)]) = Some bytes /\
  attached_to (parse_sync_tree Automobile false bytes true default_build) = Some 5000.
Proof. apply (attach_leaf_ignores_length_hack 40000 default_build). by compute. Defined.
