(* ===== verification/Session.v ===== *)
(** * Virtual slot allocator
    (src/crates/baston-protocol/src/rage/session.rs)

    The two maps of the allocator, the invariant they keep between them, and
    its preservation along every sequence of calls. *)

From S2P Require Import Prelude.

(** ** Slot allocator *)

Definition GAME_PLAYER_CAP : Z := 128.
Definition RESERVED_LOCAL_SLOT : Z := 31.

Record SlotAllocator := { slots : gmap Z Z; by_net : gmap Z Z }.

Definition slots_new : SlotAllocator := {| slots := ∅; by_net := ∅ |}.

Definition slot_of (a : SlotAllocator) (net_id : Z) : option Z := by_net a !! net_id.
Definition is_assigned (a : SlotAllocator) (net_id : Z) : bool := is_some (by_net a !! net_id).
Definition assigned_count (a : SlotAllocator) : nat := size (by_net a).

(** The scan: the first slot of the list that is neither reserved nor taken. *)
Fixpoint first_vacant (taken : gmap Z Z) (candidates : list Z) : option Z :=
  match candidates with
  | [] => None
  | slot :: rest =>
      if slot =? RESERVED_LOCAL_SLOT then first_vacant taken rest
      else match taken !! slot with
           | None => Some slot
           | Some _ => first_vacant taken rest
           end
  end.

Definition assign (net_id : Z) (a : SlotAllocator) : option Z * SlotAllocator :=
  match by_net a !! net_id with
  | Some existing => (Some existing, a)
  | None =>
      match first_vacant (slots a) (seqZ 0 GAME_PLAYER_CAP) with
      | Some slot =>
          (Some slot, {| slots := <[slot := net_id]> (slots a);
                         by_net := <[net_id := slot]> (by_net a) |})
      | None => (None, a)
      end
  end.

Definition release (net_id : Z) (a : SlotAllocator) : option Z * SlotAllocator :=
  match by_net a !! net_id with
  | None => (None, a)
  | Some slot =>
      (Some slot, {| slots := delete slot (slots a); by_net := delete net_id (by_net a) |})
  end.

(** *** Invariant: the two maps are inverse bijections onto usable slots. *)

Definition usable (slot : Z) : Prop := 0 <= slot < GAME_PLAYER_CAP /\ slot <> RESERVED_LOCAL_SLOT.

Record alloc_ok (a : SlotAllocator) : Prop := {
  alloc_inverse : forall s n, slots a !! s = Some n <-> by_net a !! n = Some s;
  alloc_usable : forall s n, slots a !! s = Some n -> usable s
}.

Lemma seqZ_split m n k : m <= k < m + n ->
  seqZ m n = seqZ m (k - m) ++ k :: seqZ (k + 1) (m + n - k - 1).
Proof.
  intros H. replace n with ((k - m) + (n - (k - m))) at 1 by lia.
  rewrite seqZ_app by lia. f_equal. rewrite seqZ_cons by lia.
  replace (m + (k - m)) with k by lia. do 2 f_equal; lia.
Qed.

Lemma first_vacant_some taken l s : first_vacant taken l = Some s ->
  s ∈ l /\ s <> RESERVED_LOCAL_SLOT /\ taken !! s = None /\
  forall l1 l2, l = l1 ++ s :: l2 -> NoDup l ->
    Forall (fun s' => s' = RESERVED_LOCAL_SLOT \/ is_Some (taken !! s')) l1.
Proof.
  induction l as [|x l IH]; simpl; [done|].
  assert (Hskip : (x = RESERVED_LOCAL_SLOT \/ is_Some (taken !! x)) -> first_vacant taken l = Some s ->
    s ∈ x :: l /\ s <> RESERVED_LOCAL_SLOT /\ taken !! s = None /\
    forall l1 l2, x :: l = l1 ++ s :: l2 -> NoDup (x :: l) ->
      Forall (fun s' => s' = RESERVED_LOCAL_SLOT \/ is_Some (taken !! s')) l1).
  { intros Hx Hs. destruct (IH Hs) as (Hin & Hr & Hv & Hl). split_and!; [by right|done|done|].
    intros [|y l1] l2 Heq Hnd; [by constructor|]. injection Heq as -> ->.
    apply NoDup_cons in Hnd as [_ Hnd]. constructor; [done|]. by eapply Hl. }
  destruct (Z.eqb_spec x RESERVED_LOCAL_SLOT); [by apply Hskip; left|].
  destruct (taken !! x) eqn:E; [by apply Hskip; right|].
  intros [= ->]. split_and!; [left|done|done|].
  intros [|y l1] l2 Heq Hnd; [by constructor|]. injection Heq as -> Heq.
  apply NoDup_cons in Hnd as [Hnd _]. exfalso. apply Hnd. rewrite Heq. apply elem_of_app. right. left.
Qed.

Lemma first_vacant_none taken l : first_vacant taken l = None ->
  forall s, s ∈ l -> s <> RESERVED_LOCAL_SLOT -> is_Some (taken !! s).
Proof.
  induction l as [|x l IH]; simpl; intros H s Hs Hr; [by apply elem_of_nil in Hs|].
  destruct (Z.eqb_spec x RESERVED_LOCAL_SLOT); [apply IH; [done|apply elem_of_cons in Hs as [->|]; done|done]|].
  destruct (taken !! x) eqn:E; [|done].
  apply elem_of_cons in Hs as [->|Hs]; [by eexists|by apply IH].
Qed.

Lemma alloc_new_ok : alloc_ok slots_new.
Proof. split; intros s n; cbn; rewrite ?lookup_empty; done. Qed.

Lemma assign_ok net a : alloc_ok a -> alloc_ok (assign net a).2.
Proof.
  intros Ha. unfold assign. destruct (by_net a !! net) as [e|] eqn:En; [done|].
  destruct (first_vacant _ _) as [slot|] eqn:Ev; [|done].
  destruct (first_vacant_some _ _ _ Ev) as (Hin & Hr & Hv & _). apply elem_of_seqZ in Hin.
  destruct Ha as [Hinv Hus]. split; cbn [snd slots by_net].
  - intros s n. destruct (decide (slot = s)) as [->|Hs], (decide (net = n)) as [->|Hn];
      rewrite ?lookup_insert_eq, ?lookup_insert_ne by done; [done|..].
    + split; intros Hx; [congruence|]. apply Hinv in Hx. congruence.
    + split; intros Hx; [|congruence]. apply Hinv in Hx. congruence.
    + apply Hinv.
  - intros s n. destruct (decide (slot = s)) as [->|Hs].
    + intros _. unfold usable. split; [lia|done].
    + rewrite lookup_insert_ne by done. apply Hus.
Qed.

Lemma release_ok net a : alloc_ok a -> alloc_ok (release net a).2.
Proof.
  intros Ha. unfold release. destruct (by_net a !! net) as [slot|] eqn:En; [|done].
  destruct Ha as [Hinv Hus]. split; cbn [snd slots by_net].
  - intros s n. rewrite !lookup_delete_Some. split.
    + intros [Hs Hx]. apply Hinv in Hx. split; [congruence|done].
    + intros [Hn Hx]. split; [|by apply Hinv]. intros ->. apply Hinv in Hx, En. congruence.
  - intros s n [_ Hx]%lookup_delete_Some. by eapply Hus.
Qed.

(** The calls a session may make, and the states they reach. *)
Inductive SlotCall := CAssign (net_id : Z) | CRelease (net_id : Z).

Definition slot_call (a : SlotAllocator) (c : SlotCall) : SlotAllocator :=
  match c with CAssign n => (assign n a).2 | CRelease n => (release n a).2 end.

Lemma slot_calls_ok cs : alloc_ok (foldl slot_call slots_new cs).
Proof.
  pose proof alloc_new_ok as H. revert H. generalize slots_new.
  induction cs as [|[n|n] cs IH]; intros a Ha; simpl; [done|..]; apply IH.
  - by apply assign_ok.
  - by apply release_ok.
Qed.

(** after any sequence of assignments and releases no two players share a
    slot, the reverse index agrees with the table, and no player holds slot 31
    or a slot outside the 128. *)
Theorem slots_stay_exclusive cs :
  let a := foldl slot_call slots_new cs in
  (forall n n' s, slot_of a n = Some s -> slot_of a n' = Some s -> n = n') /\
  (forall n s, slot_of a n = Some s -> 0 <= s < 128 /\ s <> 31 /\ slots a !! s = Some n).
Proof.
  intros a. pose proof (slot_calls_ok cs) as [Hinv Hus]. fold a in Hinv, Hus. unfold slot_of. split.
  - intros n n' s Hn Hn'. apply Hinv in Hn, Hn'. congruence.
  - intros n s Hn. apply Hinv in Hn. destruct (Hus s n Hn). auto.
Qed.

(** assignment in any reachable state is idempotent, hands out the lowest
    free usable slot, and fails only when every usable slot is taken; a release
    undoes it. *)
Theorem assign_lowest_free cs n :
  let a := foldl slot_call slots_new cs in
  match assign n a with
  | (Some s, a') =>
      slot_of a' n = Some s /\ assign n a' = (Some s, a') /\
      (slot_of a n = None ->
         usable s /\ slots a !! s = None /\
         (forall s', usable s' -> s' < s -> is_Some (slots a !! s')) /\
         release n a' = (Some s, a))
  | (None, a') => a' = a /\ slot_of a n = None /\ forall s, usable s -> is_Some (slots a !! s)
  end.
Proof.
  intros a. pose proof (slot_calls_ok cs) as Ha. fold a in Ha. clearbody a. clear cs.
  pose proof (assign_ok n a Ha) as Ha'. unfold assign, slot_of in *.
  destruct (by_net a !! n) as [e|] eqn:En; [rewrite En; split_and!; [done|done|done]|].
  destruct (first_vacant _ _) as [s|] eqn:Ev.
  - cbn [snd slots by_net] in *. rewrite lookup_insert_eq. split_and!; [done|done|]. intros _.
    destruct (first_vacant_some _ _ _ Ev) as (Hin & Hr & Hv & Hlow).
    apply elem_of_seqZ in Hin as Hin'. split_and!; [split; [lia|done]|done| |].
    + intros s' [Hs' Hr'] Hlt. assert (Hsplit : seqZ 0 GAME_PLAYER_CAP
        = seqZ 0 s ++ s :: seqZ (s + 1) (GAME_PLAYER_CAP - s - 1)).
      { rewrite (seqZ_split 0 GAME_PLAYER_CAP s) by lia. do 2 f_equal; lia. }
      specialize (Hlow _ _ Hsplit (NoDup_seqZ _ _)). rewrite Forall_forall in Hlow.
      destruct (Hlow s'); [apply elem_of_seqZ; lia|done|done].
    + unfold release. cbn [by_net slots]. rewrite lookup_insert_eq.
      rewrite !delete_insert_id by done. by destruct a.
  - split_and!; [done|done|]. intros s [Hs Hr]. eapply first_vacant_none; [exact Ev| |done].
    apply elem_of_seqZ. lia.
Qed.
