(* ===== verification/WorldGrid.v ===== *)
(** * World grid
    (src/crates/baston-protocol/src/rage/session.rs)

    One routing bucket's grid of 256 x 256 sectors: the acceleration table maps
    a sector to its owner, each client's slice lists the sectors it owns.  The
    invariant says the two describe the same ownership; updates and removals
    keep it along every sequence of calls. *)

From S2P Require Import Prelude F32.

Definition WORLD_OFFSET : f32 := f32_of_Z 8192.
Definition WORLD_GRID_CELL : f32 := f32_of_Z 150.
Definition WORLD_GRID_DIM : Z := 256.
Definition WORLD_GRID_CLAIM_RADIUS : f32 := f32_of_Z 299.
Definition WORLD_GRID_ENTRIES : nat := 32.

Definition sector_index (coord : f32) : Z :=
  Z.min (f32_as_usize (f32_div (f32_max (f32_add coord WORLD_OFFSET) f32_zero) WORLD_GRID_CELL))
        (WORLD_GRID_DIM - 1).

Definition claim_range (coord : f32) : Z * Z :=
  (sector_index (f32_sub coord WORLD_GRID_CLAIM_RADIUS),
   sector_index (f32_add coord WORLD_GRID_CLAIM_RADIUS)).

Record WorldGridEntry := { sector_x : Z; sector_y : Z; net_id : Z }.

#[export] Instance WorldGridEntry_eq_dec : EqDecision WorldGridEntry.
Proof. solve_decision. Defined.

Record WorldGrid := { accel : list Z; slices : gmap Z (list WorldGridEntry) }.

Definition grid_new : WorldGrid :=
  {| accel := replicate (Z.to_nat (WORLD_GRID_DIM * WORLD_GRID_DIM)) U16_MAX; slices := ∅ |}.

Definition cell_idx (x y : Z) : nat := Z.to_nat (x * WORLD_GRID_DIM + y).
Definition entry_idx (e : WorldGridEntry) : nat := cell_idx (sector_x e) (sector_y e).

(** [accel[i]].  Every index the code forms is within the table
    ([cell_idx_lt]), so the default is never used. *)
Definition cell (a : list Z) (i : nat) : Z := default U16_MAX (a !! i).

Definition owner_of (g : WorldGrid) (x y : Z) : option Z :=
  let n := cell (accel g) (cell_idx x y) in
  if n =? U16_MAX then None else Some n.

Definition owned_cells (g : WorldGrid) (net : Z) : list WorldGridEntry :=
  default [] (slices g !! net).

(** The claim window: the ranges of the two axes. *)
Record Window := { min_x : Z; max_x : Z; min_y : Z; max_y : Z }.

Definition window_of (focus_x focus_y : f32) : Window :=
  let '(min_x, max_x) := claim_range focus_x in
  let '(min_y, max_y) := claim_range focus_y in
  {| min_x := min_x; max_x := max_x; min_y := min_y; max_y := max_y |}.

Definition inside (w : Window) (e : WorldGridEntry) : bool :=
  (min_x w <=? sector_x e) && (sector_x e <=? max_x w) &&
  (min_y w <=? sector_y e) && (sector_y e <=? max_y w).

(** [if self.accel[i] == net_id { self.accel[i] = u16::MAX }] *)
Definition disown (net : Z) (a : list Z) (e : WorldGridEntry) : list Z :=
  if cell a (entry_idx e) =? net then <[entry_idx e := U16_MAX]> a else a.

Definition release_uncovered (net : Z) (w : Window) (a : list Z) (previous : list WorldGridEntry) : list Z :=
  foldl (fun a e => if inside w e then a else disown net a e) a previous.

(** The body of the claim loops at sector [(x, y)]. *)
Definition claim_cell (net x y : Z) (st : list Z * list WorldGridEntry) : list Z * list WorldGridEntry :=
  let '(a, kept) := st in
  let i := cell_idx x y in
  let e := {| sector_x := u8 x; sector_y := u8 y; net_id := net |} in
  if cell a i =? U16_MAX then (<[i := net]> a, kept ++ [e])
  else if (cell a i =? net) &&
          negb (existsb (fun k => (sector_x k =? x) && (sector_y k =? y)) kept)
  then (a, kept ++ [e])
  else (a, kept).

(** The inner loop, which breaks when the budget is spent. *)
Fixpoint claim_row (net x : Z) (ys : list Z) (st : list Z * list WorldGridEntry) : list Z * list WorldGridEntry :=
  match ys with
  | [] => st
  | y :: rest =>
      if (WORLD_GRID_ENTRIES <=? length st.2)%nat then st
      else claim_row net x rest (claim_cell net x y st)
  end.

Definition range_incl (lo hi : Z) : list Z := seqZ lo (hi - lo + 1).

Definition claim_window (net : Z) (w : Window) (st : list Z * list WorldGridEntry) : list Z * list WorldGridEntry :=
  foldl (fun st x => claim_row net x (range_incl (min_y w) (max_y w)) st) st
        (range_incl (min_x w) (max_x w)).

Definition update_focus (net : Z) (focus_x focus_y : f32) (g : WorldGrid) : bool * WorldGrid :=
  let w := window_of focus_x focus_y in
  let previous := owned_cells g net in
  let released := release_uncovered net w (accel g) previous in
  let '(a, kept) := claim_window net w (released, List.filter (inside w) previous) in
  (bool_decide (kept <> previous), {| accel := a; slices := <[net := kept]> (slices g) |}).

Definition remove_client (net : Z) (g : WorldGrid) : WorldGrid :=
  match slices g !! net with
  | None => g
  | Some cells => {| accel := foldl (disown net) (accel g) cells; slices := delete net (slices g) |}
  end.

Example sector_origin : sector_index f32_zero = 54.
Proof. reflexivity. Qed.
Example sector_far : sector_index (f32_of_Z 40000) = 255.
Proof. reflexivity. Qed.
Example sector_neg : sector_index (f32_of_Z (-9000)) = 0.
Proof. reflexivity. Qed.

Example focus_window : (update_focus 1 f32_zero f32_zero grid_new).1 = true /\
  length (owned_cells (update_focus 1 f32_zero f32_zero grid_new).2 1) = 25%nat.
Proof. split; vm_compute; reflexivity. Qed.

(** ** The table and its cells *)

Definition on_grid (x : Z) : Prop := 0 <= x <= 255.

Lemma sector_index_on_grid c : on_grid (sector_index c).
Proof.
  unfold sector_index, on_grid, WORLD_GRID_DIM, f32_as_usize.
  pose proof (f32_to_Z_bounds 0 (2 ^ 64 - 1)
    (f32_div (f32_max (f32_add c WORLD_OFFSET) f32_zero) WORLD_GRID_CELL) ltac:(lia)) as H.
  revert H. generalize (f32_to_Z 0 (2 ^ 64 - 1)
    (f32_div (f32_max (f32_add c WORLD_OFFSET) f32_zero) WORLD_GRID_CELL)). intros z. lia.
Qed.

Definition GRID_CELLS : nat := Z.to_nat (WORLD_GRID_DIM * WORLD_GRID_DIM).

Lemma cell_idx_lt x y : on_grid x -> on_grid y -> (cell_idx x y < GRID_CELLS)%nat.
Proof. unfold on_grid, cell_idx, GRID_CELLS, WORLD_GRID_DIM. lia. Qed.

Lemma cell_idx_inj x y x' y' : on_grid x -> on_grid y -> on_grid x' -> on_grid y' ->
  cell_idx x y = cell_idx x' y' -> x = x' /\ y = y'.
Proof. unfold on_grid, cell_idx, WORLD_GRID_DIM. lia. Qed.

Lemma cell_insert a i v j : (i < length a)%nat ->
  cell (<[i := v]> a) j = if decide (i = j) then v else cell a j.
Proof.
  intros H. unfold cell. destruct (decide (i = j)) as [->|Hne].
  - by rewrite list_lookup_insert_eq.
  - by rewrite list_lookup_insert_ne.
Qed.

Lemma cell_owned_lt a i : cell a i <> U16_MAX -> (i < length a)%nat.
Proof. unfold cell. intros H. destruct (a !! i) eqn:E; [by eapply lookup_lt_Some|done]. Qed.

(** ** Ownership: one client's slice describes exactly its cells *)

Record owns (net : Z) (a : list Z) (es : list WorldGridEntry) : Prop := {
  owns_entry : Forall (fun e => net_id e = net /\ on_grid (sector_x e) /\ on_grid (sector_y e) /\
                                cell a (entry_idx e) = net) es;
  owns_distinct : NoDup (entry_idx <$> es);
  owns_complete : forall i, cell a i = net -> i ∈ entry_idx <$> es
}.

Record grid_ok (g : WorldGrid) : Prop := {
  grid_size : length (accel g) = GRID_CELLS;
  grid_owns : forall net, net <> U16_MAX -> owns net (accel g) (owned_cells g net);
  grid_budget : forall net, net <> U16_MAX -> (length (owned_cells g net) <= WORLD_GRID_ENTRIES)%nat
}.

(** Ownership by one client survives changes that leave its cells alone. *)
Lemma owns_frame net a a' es : owns net a es ->
  (forall i, cell a' i = net <-> cell a i = net) -> owns net a' es.
Proof.
  intros [He Hd Hc] Hi. split; [|done|].
  - eapply Forall_impl; [exact He|]. intros e (?&?&?&?). split_and!; auto. by apply Hi.
  - intros i Hx. by apply Hc, Hi.
Qed.

Lemma owns_same_idx net a es e e' : owns net a es -> e ∈ es -> e' ∈ es ->
  entry_idx e = entry_idx e' -> e = e'.
Proof.
  intros [Hf _ _] He He' Hi. rewrite Forall_forall in Hf.
  destruct (Hf e He) as (Hn & Hx & Hy & _), (Hf e' He') as (Hn' & Hx' & Hy' & _).
  destruct (cell_idx_inj _ _ _ _ Hx Hy Hx' Hy' Hi). destruct e, e'; cbn in *; congruence.
Qed.

(** ** Releasing *)

Lemma disown_cell net a e i : net <> U16_MAX ->
  cell (disown net a e) i =
    if bool_decide (cell a i = net /\ entry_idx e = i) then U16_MAX else cell a i.
Proof.
  intros Hn. unfold disown. case_bool_decide as Hc.
  - destruct Hc as [Hc <-]. rewrite (proj2 (Z.eqb_eq _ _) Hc), cell_insert, decide_True; [done|done|].
    apply cell_owned_lt. congruence.
  - destruct (Z.eqb_spec (cell a (entry_idx e)) net) as [He|He]; [|done].
    rewrite cell_insert by (apply cell_owned_lt; congruence).
    destruct (decide (entry_idx e = i)) as [<-|]; [|done]. tauto.
Qed.

Lemma disown_length net a e : length (disown net a e) = length a.
Proof. unfold disown. destruct (_ =? _); [apply length_insert|done]. Qed.

Definition released_by (keep : WorldGridEntry -> bool) (es : list WorldGridEntry) (i : nat) : bool :=
  existsb (fun e => negb (keep e) && bool_decide (entry_idx e = i)) es.

Lemma release_cell net (keep : WorldGridEntry -> bool) es a i : net <> U16_MAX ->
  cell (foldl (fun a e => if keep e then a else disown net a e) a es) i =
    if bool_decide (cell a i = net) && released_by keep es i then U16_MAX else cell a i.
Proof.
  intros Hn. revert a. induction es as [|e es IH]; intros a; cbn [foldl].
  { cbn. by rewrite andb_false_r. }
  rewrite IH. change (released_by keep (e :: es) i) with
    (negb (keep e) && bool_decide (entry_idx e = i) || released_by keep es i).
  destruct (keep e); cbn [negb andb orb]; [done|].
  rewrite disown_cell by done. repeat case_bool_decide; cbn [andb orb]; try done; try tauto.
Qed.

Lemma release_length net (keep : WorldGridEntry -> bool) es a :
  length (foldl (fun a e => if keep e then a else disown net a e) a es) = length a.
Proof.
  revert a. induction es as [|e es IH]; intros a; cbn [foldl]; [done|].
  rewrite IH. destruct (keep e); [done|apply disown_length].
Qed.

Lemma released_by_spec keep es i : released_by keep es i = true <->
  exists e, e ∈ es /\ keep e = false /\ entry_idx e = i.
Proof.
  unfold released_by. rewrite existsb_exists. split.
  - intros (e & He & Hx). apply andb_true_iff in Hx as [Hk Hi].
    apply negb_true_iff in Hk. apply bool_decide_eq_true in Hi. exists e. by rewrite list_elem_of_In.
  - intros (e & He & Hk & Hi). exists e. rewrite <- list_elem_of_In, Hk. by rewrite bool_decide_eq_true_2.
Qed.

(** Releasing the entries that are not kept leaves a slice of the kept ones
    and touches no other client's cells. *)
Lemma release_owns net (keep : WorldGridEntry -> bool) es a :
  net <> U16_MAX -> owns net a es ->
  owns net (foldl (fun a e => if keep e then a else disown net a e) a es) (List.filter keep es).
Proof.
  intros Hn Ho. destruct (Ho) as [He Hd Hc]. rewrite Forall_forall in He. split.
  - rewrite Forall_forall. intros e Hx. apply list_elem_of_In, filter_In in Hx as [Hx Hk].
    apply list_elem_of_In in Hx. destruct (He e Hx) as (?&?&?&Hcell). split_and!; auto.
    rewrite release_cell, Hcell, bool_decide_eq_true_2 by done. cbn [andb].
    destruct (released_by keep es (entry_idx e)) eqn:Hr; [|done]. exfalso.
    apply released_by_spec in Hr as (e' & Hx' & Hk' & Hi).
    rewrite (owns_same_idx net a es e' e) in Hk' by done. congruence.
  - clear -Hd. induction es as [|e es IH]; cbn in *; [done|].
    apply NoDup_cons in Hd as [Hx Hd]. destruct (keep e); [|by apply IH].
    cbn. constructor; [|by apply IH]. intros Hin. apply Hx.
    apply list_elem_of_fmap in Hin as (e' & -> & Hin). apply list_elem_of_fmap. exists e'. split; [done|].
    apply list_elem_of_In in Hin. apply list_elem_of_In. by eapply filter_In.
  - intros i. rewrite release_cell by done. case_bool_decide as Hi; cbn [andb]; [|done].
    destruct (released_by keep es i) eqn:Hr; [done|]. intros _.
    destruct (proj1 (list_elem_of_fmap _ _ _) (Hc i Hi)) as (e & -> & Hx).
    apply list_elem_of_fmap. exists e. split; [done|]. apply list_elem_of_In, filter_In.
    split; [by apply list_elem_of_In|]. destruct (keep e) eqn:Hk; [done|].
    rewrite (proj2 (released_by_spec _ _ _)) in Hr; [done|]. by exists e.
Qed.

Lemma release_others net (keep : WorldGridEntry -> bool) es a n i : net <> U16_MAX -> n <> U16_MAX -> n <> net ->
  cell (foldl (fun a e => if keep e then a else disown net a e) a es) i = n <-> cell a i = n.
Proof.
  intros Hn Hm Hne. rewrite release_cell by done.
  case_bool_decide as Hi; cbn [andb]; [|done]. destruct (released_by keep es i); [|done].
  split; intros; congruence.
Qed.

(** ** Claiming *)

(** What the claim loops may do from one state to a later one. *)
Record claims (net : Z) (st st' : list Z * list WorldGridEntry) : Prop := {
  claims_extends : st.2 `prefix_of` st'.2;
  claims_cells : forall i, cell st'.1 i = cell st.1 i \/ (cell st.1 i = U16_MAX /\ cell st'.1 i = net)
}.

#[export] Instance claims_preorder net : PreOrder (claims net).
Proof.
  split; [intros st; split; [done|auto]|].
  intros st1 st2 st3 [Hp Hc] [Hp' Hc']. split; [by etrans|].
  intros i. destruct (Hc i) as [H1|[H1 H1']], (Hc' i) as [H2|[H2 H2']];
    rewrite ?H2; rewrite ?H1; auto. right. split; congruence.
Qed.

Record claiming (net : Z) (w : Window) (st : list Z * list WorldGridEntry) : Prop := {
  claiming_owns : owns net st.1 st.2;
  claiming_size : length st.1 = GRID_CELLS;
  claiming_budget : (length st.2 <= WORLD_GRID_ENTRIES)%nat;
  claiming_inside : Forall (fun e => inside w e = true) st.2
}.

Record window_ok (w : Window) : Prop := {
  window_x : forall x, min_x w <= x <= max_x w -> on_grid x;
  window_y : forall y, min_y w <= y <= max_y w -> on_grid y
}.

Lemma owns_snoc net w a kept x y : net <> U16_MAX -> claiming net w (a, kept) ->
  on_grid x -> on_grid y -> cell a (cell_idx x y) = U16_MAX ->
  owns net (<[cell_idx x y := net]> a) (kept ++ [{| sector_x := x; sector_y := y; net_id := net |}]).
Proof.
  intros Hn [[He Hd Hc] Hl _ _] Hx Hy Hfree. cbn [fst snd] in *.
  assert (Hlt : (cell_idx x y < length a)%nat) by (rewrite Hl; by apply cell_idx_lt).
  assert (Hnew : cell_idx x y ∉ entry_idx <$> kept).
  { intros (e & Hi & Hin)%list_elem_of_fmap. rewrite Forall_forall in He.
    destruct (He e Hin) as (_&_&_&Hce). congruence. }
  split.
  - apply Forall_app. split.
    + rewrite Forall_forall in He |- *. intros e Hin. destruct (He e Hin) as (?&?&?&?).
      split_and!; auto. rewrite cell_insert by done. by case_decide.
    + constructor; [|done]. cbn [net_id sector_x sector_y]. split_and!; auto.
      unfold entry_idx. cbn [sector_x sector_y]. by rewrite cell_insert, decide_True.
  - rewrite fmap_app. apply NoDup_app. split_and!; [done| |apply NoDup_singleton].
    intros i Hi Hj. apply list_elem_of_singleton in Hj. by subst.
  - intros i. rewrite cell_insert by done. rewrite fmap_app, elem_of_app. case_decide as Hi; [|auto].
    intros _. right. subst. by left.
Qed.

Lemma claim_cell_ok net w x y st : net <> U16_MAX -> window_ok w ->
  min_x w <= x <= max_x w -> min_y w <= y <= max_y w ->
  claiming net w st -> (length st.2 < WORLD_GRID_ENTRIES)%nat ->
  let st' := claim_cell net x y st in
  claiming net w st' /\ claims net st st' /\ cell st'.1 (cell_idx x y) <> U16_MAX.
Proof.
  intros Hn [Hwx Hwy] Hx Hy Hst Hlen. destruct st as [a kept]. cbn [fst snd] in Hlen.
  pose proof (Hwx x Hx) as Hgx. pose proof (Hwy y Hy) as Hgy.
  assert (Hux : u8 x = x) by (apply Z.mod_small; unfold on_grid in Hgx; lia).
  assert (Huy : u8 y = y) by (apply Z.mod_small; unfold on_grid in Hgy; lia).
  unfold claim_cell. rewrite Hux, Huy. destruct (Z.eqb_spec (cell a (cell_idx x y)) U16_MAX) as [Hf|Hf].
  - pose proof (owns_snoc net w a kept x y Hn Hst Hgx Hgy Hf) as Ho.
    destruct Hst as [_ Hl _ Hin]. cbn [fst snd] in *.
    assert (Hlt : (cell_idx x y < length a)%nat) by (rewrite Hl; by apply cell_idx_lt).
    split_and!; [split; cbn [fst snd]|split; cbn [fst snd]|cbn [fst]].
    + done.
    + by rewrite length_insert.
    + rewrite length_app. cbn [length]. lia.
    + apply Forall_app. split; [done|]. constructor; [|done].
      unfold inside. cbn [sector_x sector_y]. lia.
    + by eexists.
    + intros i. rewrite cell_insert by done. case_decide; [|auto]. subst. auto.
    + by rewrite cell_insert, decide_True.
  - destruct (_ && _) eqn:E; [|split_and!; [done|reflexivity|done]]. exfalso.
    apply andb_true_iff in E as [He Hno]. apply Z.eqb_eq in He. apply negb_true_iff in Hno.
    destruct Hst as [[Hfa _ Hc] _ _ _]. cbn [fst snd] in *. rewrite Forall_forall in Hfa.
    destruct (proj1 (list_elem_of_fmap _ _ _) (Hc _ He)) as (e & Hi & Hin).
    destruct (Hfa e Hin) as (_ & Hex & Hey & _).
    destruct (cell_idx_inj _ _ _ _ Hgx Hgy Hex Hey Hi) as [-> ->].
    apply not_true_iff_false in Hno. apply Hno, existsb_exists. exists e.
    split; [by apply list_elem_of_In|]. by rewrite !Z.eqb_refl.
Qed.

Lemma claims_keeps net st st' i : claims net st st' -> cell st.1 i <> U16_MAX -> cell st'.1 i = cell st.1 i.
Proof. intros [_ Hc] H. destruct (Hc i) as [|[]]; [done|congruence]. Qed.

Lemma claims_length net st st' : claims net st st' -> (length st.2 <= length st'.2)%nat.
Proof. intros [Hp _]. by apply prefix_length. Qed.

(** What a loop over some sectors achieves: it either spends the budget or
    leaves every one of them owned. *)
Definition settled (sectors : list (Z * Z)) (st : list Z * list WorldGridEntry) : Prop :=
  (WORLD_GRID_ENTRIES <= length st.2)%nat \/
  Forall (fun '(x, y) => cell st.1 (cell_idx x y) <> U16_MAX) sectors.

Lemma settled_mono net sectors st st' : net <> U16_MAX -> claims net st st' ->
  settled sectors st -> settled sectors st'.
Proof.
  intros Hn Hcl [Hb|Hs].
  - left. etrans; [exact Hb|]. by eapply claims_length.
  - right. eapply Forall_impl; [exact Hs|]. intros [x y] Hx. by rewrite (claims_keeps net st st').
Qed.

Lemma settled_app s1 s2 st : settled s1 st -> settled s2 st -> settled (s1 ++ s2) st.
Proof.
  unfold settled. rewrite Forall_app. intros [|H1] [|H2]; auto.
Qed.

Lemma claim_row_ok net w x ys st : net <> U16_MAX -> window_ok w -> min_x w <= x <= max_x w ->
  Forall (fun y => min_y w <= y <= max_y w) ys -> claiming net w st ->
  let st' := claim_row net x ys st in
  claiming net w st' /\ claims net st st' /\ settled ((fun y => (x, y)) <$> ys) st'.
Proof.
  intros Hn Hw Hx. revert st. induction ys as [|y ys IH]; intros st Hys Hst; cbn [claim_row fmap list_fmap].
  { split_and!; [done|reflexivity|by right]. }
  apply Forall_cons in Hys as [Hy Hys].
  destruct (Nat.leb_spec WORLD_GRID_ENTRIES (length st.2)) as [Hb|Hb].
  { split_and!; [done|reflexivity|by left]. }
  destruct (claim_cell_ok net w x y st Hn Hw Hx Hy Hst Hb) as (Hst1 & Hcl1 & Hcell).
  destruct (IH _ Hys Hst1) as (Hst2 & Hcl2 & Hset). split_and!; [done|by etrans|].
  apply (settled_app [(x, y)]); [|done]. apply (settled_mono net _ _ _ Hn Hcl2).
  right. constructor; [done|by constructor].
Qed.

Lemma range_incl_elem lo hi z : z ∈ range_incl lo hi <-> lo <= z <= hi.
Proof. unfold range_incl. rewrite elem_of_seqZ. lia. Qed.

Definition sectors_of (w : Window) (xs : list Z) : list (Z * Z) :=
  xs ≫= (fun x => (fun y => (x, y)) <$> range_incl (min_y w) (max_y w)).

Lemma claim_columns_ok net w xs st : net <> U16_MAX -> window_ok w ->
  Forall (fun x => min_x w <= x <= max_x w) xs -> claiming net w st ->
  let st' := foldl (fun st x => claim_row net x (range_incl (min_y w) (max_y w)) st) st xs in
  claiming net w st' /\ claims net st st' /\ settled (sectors_of w xs) st'.
Proof.
  intros Hn Hw. revert st. induction xs as [|x xs IH]; intros st Hxs Hst; cbn [foldl].
  { split_and!; [done|reflexivity|by right]. }
  apply Forall_cons in Hxs as [Hx Hxs].
  assert (Hys : Forall (fun y => min_y w <= y <= max_y w) (range_incl (min_y w) (max_y w)))
    by (apply Forall_forall; intros y; apply range_incl_elem).
  destruct (claim_row_ok net w x _ st Hn Hw Hx Hys Hst) as (Hst1 & Hcl1 & Hs1).
  destruct (IH _ Hxs Hst1) as (Hst2 & Hcl2 & Hs2). split_and!; [done|by etrans|].
  apply settled_app; [|done]. by apply (settled_mono net _ _ _ Hn Hcl2).
Qed.

Lemma claim_window_ok net w st : net <> U16_MAX -> window_ok w -> claiming net w st ->
  let st' := claim_window net w st in
  claiming net w st' /\ claims net st st' /\
  ((length st'.2 < WORLD_GRID_ENTRIES)%nat -> forall x y, min_x w <= x <= max_x w -> min_y w <= y <= max_y w ->
     cell st'.1 (cell_idx x y) <> U16_MAX).
Proof.
  intros Hn Hw Hst. unfold claim_window.
  destruct (claim_columns_ok net w (range_incl (min_x w) (max_x w)) st Hn Hw) as (H1 & H2 & H3); [|done|].
  { apply Forall_forall. intros x. apply range_incl_elem. }
  split_and!; [done|done|]. intros Hb x y Hx Hy. destruct H3 as [Hc|Hc]; [lia|].
  rewrite Forall_forall in Hc. apply (Hc (x, y)). apply list_elem_of_bind. exists x.
  rewrite list_elem_of_fmap, range_incl_elem. split; [|done]. exists y. by rewrite range_incl_elem.
Qed.

Lemma window_of_ok fx fy : window_ok (window_of fx fy).
Proof.
  pose proof (sector_index_on_grid (f32_sub fx WORLD_GRID_CLAIM_RADIUS)) as H1.
  pose proof (sector_index_on_grid (f32_add fx WORLD_GRID_CLAIM_RADIUS)) as H2.
  pose proof (sector_index_on_grid (f32_sub fy WORLD_GRID_CLAIM_RADIUS)) as H3.
  pose proof (sector_index_on_grid (f32_add fy WORLD_GRID_CLAIM_RADIUS)) as H4.
  unfold window_of, claim_range. unfold on_grid in *. split; cbn [min_x max_x min_y max_y]; unfold on_grid; lia.
Qed.

(** ** Updates *)

(** The state the claim loops start from. *)
Definition released (net : Z) (w : Window) (g : WorldGrid) : list Z * list WorldGridEntry :=
  (release_uncovered net w (accel g) (owned_cells g net), List.filter (inside w) (owned_cells g net)).

Lemma released_claiming net w g : net <> U16_MAX -> grid_ok g -> claiming net w (released net w g).
Proof.
  intros Hn [Hs Ho Hb]. unfold released, release_uncovered. split; cbn [fst snd].
  - by apply release_owns, Ho.
  - by rewrite release_length.
  - etrans; [|by apply (Hb net)]. apply List.filter_length_le.
  - apply Forall_forall. intros e He. apply list_elem_of_In, filter_In in He. tauto.
Qed.

Lemma update_focus_eq net fx fy g : update_focus net fx fy g =
  let st := claim_window net (window_of fx fy) (released net (window_of fx fy) g) in
  (bool_decide (st.2 <> owned_cells g net), {| accel := st.1; slices := <[net := st.2]> (slices g) |}).
Proof. unfold update_focus, released. by destruct (claim_window _ _ _). Qed.

Lemma owned_cells_insert a s net es n :
  owned_cells {| accel := a; slices := <[net := es]> s |} n = if decide (net = n) then es else default [] (s !! n).
Proof. unfold owned_cells. cbn [slices]. rewrite lookup_insert. by case_decide. Qed.

(** Cells of other clients are untouched by a release followed by claims. *)
Lemma update_others net w g st' n i : net <> U16_MAX -> n <> U16_MAX -> n <> net ->
  claims net (released net w g) st' -> cell st'.1 i = n <-> cell (accel g) i = n.
Proof.
  intros Hn Hm Hne [_ Hc]. pose proof (release_others net (inside w) (owned_cells g net) (accel g) n i Hn Hm Hne) as Hr.
  destruct (Hc i) as [->|[H1 H2]]; [exact Hr|]. rewrite H2. split; [congruence|].
  intros Hx. apply Hr in Hx. cbn [released fst] in H1. unfold release_uncovered in H1. congruence.
Qed.

Lemma update_focus_ok net fx fy g : net <> U16_MAX -> grid_ok g -> grid_ok (update_focus net fx fy g).2.
Proof.
  intros Hn Hg. rewrite update_focus_eq. cbn [snd]. set (w := window_of fx fy).
  destruct (claim_window_ok net w _ Hn (window_of_ok fx fy) (released_claiming net w g Hn Hg))
    as ([Ho Hs Hb _] & Hcl & _).
  destruct Hg as [_ Hgo Hgb]. split; cbn [accel]; [done|..]; intros n Hm; rewrite owned_cells_insert; case_decide as Hd.
  - by subst.
  - apply owns_frame with (a := accel g); [by apply Hgo|]. intros i. by apply (update_others net w).
  - by subst.
  - by apply Hgb.
Qed.

Definition keep_none (_ : WorldGridEntry) : bool := false.

Lemma disown_all net a es :
  foldl (disown net) a es = foldl (fun a e => if keep_none e then a else disown net a e) a es.
Proof. reflexivity. Qed.

Lemma remove_client_ok net g : net <> U16_MAX -> grid_ok g -> grid_ok (remove_client net g).
Proof.
  intros Hn Hg. unfold remove_client. destruct (slices g !! net) as [es|] eqn:Es; [|done].
  destruct Hg as [Hs Ho Hb].
  assert (Hes : owned_cells g net = es) by (unfold owned_cells; by rewrite Es).
  rewrite disown_all.
  split; cbn [accel]; [by rewrite release_length|..]; intros n Hm; unfold owned_cells; cbn [slices];
    (destruct (decide (net = n)) as [<-|Hne]; [rewrite lookup_delete_eq|rewrite lookup_delete_ne by done]); cbn [default].
  - destruct (release_owns net keep_none es (accel g) Hn) as [H1 H2 H3].
    { rewrite <- Hes. by apply Ho. }
    assert (Hf : List.filter keep_none es = []) by (clear; by induction es).
    rewrite Hf in *. by split.
  - apply owns_frame with (a := accel g); [by apply Ho|]. intros i. by apply release_others.
  - cbn. lia.
  - by apply Hb.
Qed.

Lemma grid_new_ok : grid_ok grid_new.
Proof.
  assert (Hc : forall i, cell (accel grid_new) i = U16_MAX).
  { intros i. unfold cell, grid_new. cbn [accel].
    destruct (replicate _ _ !! i) eqn:E; [|done]. by apply lookup_replicate in E as [-> _]. }
  split; [apply length_replicate|..]; intros net Hn; unfold owned_cells, grid_new; cbn [slices];
    rewrite lookup_empty; cbn [default]; [|cbn; lia].
  split; [done|apply NoDup_nil_2|]. intros i Hi. rewrite Hc in Hi. congruence.
Qed.

(** *** The calls of a session and the states they reach *)

Inductive GridCall := CUpdate (net : Z) (focus_x focus_y : f32) | CRemove (net : Z).

Definition grid_call (g : WorldGrid) (c : GridCall) : WorldGrid :=
  match c with CUpdate n x y => (update_focus n x y g).2 | CRemove n => remove_client n g end.

(** Calls are made for client ids, never for the unowned marker. *)
Definition client_call (c : GridCall) : Prop :=
  match c with CUpdate n _ _ | CRemove n => n <> U16_MAX end.

Lemma grid_calls_ok cs : Forall client_call cs -> grid_ok (foldl grid_call grid_new cs).
Proof.
  pose proof grid_new_ok as H. revert H. generalize grid_new.
  induction cs as [|[n x y|n] cs IH]; intros g Hg Hcs; cbn [foldl grid_call]; [done|..];
    apply Forall_cons in Hcs as [Hc Hcs]; apply IH; [|done| |done].
  - by apply update_focus_ok.
  - by apply remove_client_ok.
Qed.

(** ** What the grid promises *)

Lemma cell_owner g n x y : n <> U16_MAX ->
  owner_of g x y = Some n <-> cell (accel g) (cell_idx x y) = n.
Proof.
  intros Hn. unfold owner_of. destruct (Z.eqb_spec (cell (accel g) (cell_idx x y)) U16_MAX) as [->|].
  - split; congruence.
  - split; [by intros [= ->]|by intros ->].
Qed.

Lemma owner_of_slice g n x y : grid_ok g -> n <> U16_MAX -> on_grid x -> on_grid y ->
  owner_of g x y = Some n <-> {| sector_x := x; sector_y := y; net_id := n |} ∈ owned_cells g n.
Proof.
  intros [_ Ho _] Hn Hx Hy. rewrite cell_owner by done. destruct (Ho n Hn) as [He _ Hc].
  rewrite Forall_forall in He. split.
  - intros Hi. destruct (proj1 (list_elem_of_fmap _ _ _) (Hc _ Hi)) as ([ex ey en] & Hidx & Hin).
    destruct (He _ Hin) as (He1 & He2 & He3 & _). cbn in He1, He2, He3.
    destruct (cell_idx_inj x y ex ey) as [-> ->]; try done. by rewrite <- He1 in Hin |- *.
  - intros Hin. by destruct (He _ Hin) as (_&_&_&?).
Qed.

(** in every state the calls of a session reach, the acceleration table and
    the clients' slices describe the same ownership: a sector is in exactly its
    owner's slice, listed once, and no slice exceeds its 32-entry budget. *)
Theorem grid_tables_agree cs n x y :
  Forall client_call cs -> n <> U16_MAX -> on_grid x -> on_grid y ->
  let g := foldl grid_call grid_new cs in
  (owner_of g x y = Some n <-> {| sector_x := x; sector_y := y; net_id := n |} ∈ owned_cells g n) /\
  NoDup (owned_cells g n) /\
  (length (owned_cells g n) <= 32)%nat /\
  Forall (fun e => net_id e = n /\ on_grid (sector_x e) /\ on_grid (sector_y e)) (owned_cells g n).
Proof.
  intros Hcs Hn Hx Hy g. pose proof (grid_calls_ok cs Hcs) as Hg. fold g in Hg. clearbody g.
  split; [by apply owner_of_slice|]. destruct Hg as [_ Ho Hb]. destruct (Ho n Hn) as [He Hd _].
  split_and!; [by eapply NoDup_fmap_1|by apply Hb|].
  eapply Forall_impl; [exact He|]. intros e (?&?&?&?). auto.
Qed.

Lemma grid_tables_agree_witness :
  let g := foldl grid_call grid_new [CUpdate 7 f32_zero f32_zero; CRemove 3] in
  (owner_of g 54 54 = Some 7 <-> {| sector_x := 54; sector_y := 54; net_id := 7 |} ∈ owned_cells g 7) /\
  NoDup (owned_cells g 7).
Proof.
  destruct (grid_tables_agree [CUpdate 7 f32_zero f32_zero; CRemove 3] 7 54 54) as (H1 & H2 & _).
  - repeat constructor; discriminate.
  - discriminate.
  - split; discriminate.
  - split; discriminate.
  - split; [exact H1|exact H2].
Defined.

(** Claiming again where every sector is settled changes nothing. *)
Lemma claim_row_idle net w x ys st : net <> U16_MAX -> window_ok w -> min_x w <= x <= max_x w ->
  Forall (fun y => min_y w <= y <= max_y w) ys -> claiming net w st ->
  settled ((fun y => (x, y)) <$> ys) st -> claim_row net x ys st = st.
Proof.
  intros Hn Hw Hx Hys Hst Hset. destruct (decide (WORLD_GRID_ENTRIES <= length st.2)%nat) as [Hb|Hb].
  { destruct ys; cbn [claim_row]; [done|]. by rewrite (proj2 (Nat.leb_le _ _) Hb). }
  destruct Hset as [|Hset]; [done|]. induction ys as [|y ys IH]; cbn [claim_row]; [done|].
  rewrite (proj2 (Nat.leb_gt _ _)) by lia. cbn [fmap list_fmap] in Hset.
  apply Forall_cons in Hys as [Hy Hys]. apply Forall_cons in Hset as [Hcell Hset].
  assert (Hc : claim_cell net x y st = st); [|by rewrite Hc; apply IH].
  destruct (claim_cell_ok net w x y st Hn Hw Hx Hy Hst ltac:(lia)) as (Hst' & Hcl & _).
  pose proof (claims_keeps _ _ _ _ Hcl Hcell) as Hk. revert Hst' Hk Hcell. destruct st as [a kept]. unfold claim_cell.
  destruct (Z.eqb_spec (cell a (cell_idx x y)) U16_MAX) as [Hf|Hf]; [intros _ _ []; exact Hf|].
  intros [[_ Hd _] _ _ _] _ _. destruct (_ && _) eqn:E; [|done]. exfalso. cbn [fst snd] in Hd.
  apply andb_true_iff in E as [He _]. apply Z.eqb_eq in He.
  rewrite fmap_app in Hd. apply NoDup_app in Hd as (_ & Hd & _). destruct Hst as [[_ _ Hcomp] _ _ _].
  apply (Hd _ (Hcomp _ He)). destruct Hw as [Hwx Hwy]. specialize (Hwx x Hx). specialize (Hwy y Hy).
  unfold on_grid in *. apply list_elem_of_singleton. unfold entry_idx. cbn [sector_x sector_y].
  f_equal; symmetry; apply Z.mod_small; lia.
Qed.

Lemma claim_window_idle net w st : net <> U16_MAX -> window_ok w -> claiming net w st ->
  settled (sectors_of w (range_incl (min_x w) (max_x w))) st -> claim_window net w st = st.
Proof.
  intros Hn Hw Hst. unfold claim_window.
  assert (Hxs : Forall (fun x => min_x w <= x <= max_x w) (range_incl (min_x w) (max_x w)))
    by (apply Forall_forall; intros x; apply range_incl_elem).
  revert Hxs. generalize (range_incl (min_x w) (max_x w)) as xs. induction xs as [|x xs IH]; intros Hxs Hset; [done|].
  cbn [foldl]. apply Forall_cons in Hxs as [Hx Hxs].
  assert (Hsplit : settled ((fun y => (x, y)) <$> range_incl (min_y w) (max_y w)) st /\ settled (sectors_of w xs) st).
  { unfold settled in *. unfold sectors_of in *. rewrite bind_cons, Forall_app in Hset. tauto. }
  rewrite claim_row_idle with (w := w); [|done|done|done| |done|apply Hsplit].
  - apply IH; [done|apply Hsplit].
  - apply Forall_forall. intros y. apply range_incl_elem.
Qed.

Lemma released_inside net w g : Forall (fun e => inside w e = true) (owned_cells g net) ->
  released net w g = (accel g, owned_cells g net).
Proof.
  unfold released, release_uncovered. generalize (accel g). induction (owned_cells g net) as [|e es IH];
    intros a He; cbn; [done|].
  apply Forall_cons in He as [-> He]. specialize (IH a He). injection IH as -> ->. done.
Qed.

(** updating a client's focus leaves every other client's sectors alone,
    keeps the client's sectors inside its window, keeps those it held there,
    and leaves no sector of the window unowned while it has budget; repeating
    the update changes nothing and reports no delta. *)
Theorem update_focus_claims cs net fx fy :
  Forall client_call cs -> net <> U16_MAX ->
  let g := foldl grid_call grid_new cs in
  let w := window_of fx fy in
  let g' := (update_focus net fx fy g).2 in
  (forall n x y, n <> U16_MAX -> n <> net -> on_grid x -> on_grid y ->
     owner_of g' x y = Some n <-> owner_of g x y = Some n) /\
  Forall (fun e => inside w e = true) (owned_cells g' net) /\
  (List.filter (inside w) (owned_cells g net) `prefix_of` owned_cells g' net) /\
  ((length (owned_cells g' net) < 32)%nat -> forall x y,
     min_x w <= x <= max_x w -> min_y w <= y <= max_y w -> owner_of g' x y <> None) /\
  update_focus net fx fy g' = (false, g').
Proof.
  intros Hcs Hn g w g'. pose proof (grid_calls_ok cs Hcs) as Hg. fold g in Hg. clearbody g.
  pose proof (update_focus_ok net fx fy g Hn Hg) as Hg'. fold g' in Hg'.
  assert (Hst : claiming net w (released net w g)) by by apply released_claiming.
  assert (Hcols : Forall (fun x => min_x w <= x <= max_x w) (range_incl (min_x w) (max_x w)))
    by (apply Forall_forall; intros x; apply range_incl_elem).
  pose proof (claim_columns_ok net w _ _ Hn (window_of_ok fx fy) Hcols Hst) as (Hst' & Hcl & Hset).
  fold (claim_window net w (released net w g)) in *.
  pose proof (claim_window_ok net w _ Hn (window_of_ok fx fy) Hst) as (_ & _ & Hcov).
  assert (Hacc : accel g' = (claim_window net w (released net w g)).1)
    by (unfold g'; by rewrite update_focus_eq).
  assert (Hcells : owned_cells g' net = (claim_window net w (released net w g)).2)
    by (unfold g'; rewrite update_focus_eq; cbn [snd]; by rewrite owned_cells_insert, decide_True).
  revert Hst' Hcl Hset Hcov Hacc Hcells. generalize (claim_window net w (released net w g)).
  intros st Hst' Hcl Hset Hcov Hacc Hcells. split_and!.
  - intros n x y Hm Hne _ _. rewrite !cell_owner, Hacc by done. by apply (update_others net w).
  - rewrite Hcells. apply Hst'.
  - rewrite Hcells. apply Hcl.
  - rewrite Hcells. intros Hb x y Hx Hy. specialize (Hcov Hb x y Hx Hy).
    unfold owner_of. rewrite Hacc. by destruct (Z.eqb_spec (cell st.1 (cell_idx x y)) U16_MAX).
  - rewrite update_focus_eq. fold w.
    rewrite released_inside by (rewrite Hcells; apply Hst').
    rewrite Hacc, Hcells, <- surjective_pairing, (claim_window_idle net w st Hn (window_of_ok fx fy) Hst' Hset).
    cbn zeta. rewrite bool_decide_eq_false_2 by tauto. f_equal.
    assert (Hsl : slices g' !! net = Some st.2).
    { rewrite <- Hcells. unfold g'. rewrite update_focus_eq. cbn [snd slices].
      by rewrite lookup_insert_eq, owned_cells_insert, decide_True. }
    rewrite insert_id by done. rewrite <- Hacc. by destruct g'.
Qed.

Lemma update_focus_claims_witness :
  let g := foldl grid_call grid_new [CUpdate 7 f32_zero f32_zero] in
  let w := window_of (f32_of_Z 120) f32_zero in
  let g' := (update_focus 9 (f32_of_Z 120) f32_zero g).2 in
  Forall (fun e => inside w e = true) (owned_cells g' 9) /\
  update_focus 9 (f32_of_Z 120) f32_zero g' = (false, g').
Proof.
  destruct (update_focus_claims [CUpdate 7 f32_zero f32_zero] 9 (f32_of_Z 120) f32_zero)
    as (_ & H1 & _ & _ & H2).
  - repeat constructor; discriminate.
  - discriminate.
  - split; [exact H1|exact H2].
Defined.

(** removing a client frees exactly its sectors. *)
Theorem remove_client_frees cs net :
  Forall client_call cs -> net <> U16_MAX ->
  let g := foldl grid_call grid_new cs in
  let g' := remove_client net g in
  owned_cells g' net = [] /\
  forall x y, on_grid x -> on_grid y ->
    owner_of g' x y = if decide (owner_of g x y = Some net) then None else owner_of g x y.
Proof.
  intros Hcs Hn g g'. pose proof (grid_calls_ok cs Hcs) as Hg. fold g in Hg. clearbody g.
  pose proof (remove_client_ok net g Hn Hg) as Hg'. fold g' in Hg'.
  assert (He : owned_cells g' net = []).
  { unfold g', remove_client, owned_cells. destruct (slices g !! net) eqn:E; cbn [slices].
    - by rewrite lookup_delete_eq.
    - by rewrite E. }
  split; [done|]. intros x y Hx Hy.
  assert (Hoth : forall n, n <> U16_MAX -> n <> net ->
    owner_of g' x y = Some n <-> owner_of g x y = Some n).
  { intros n Hm Hne. rewrite !cell_owner by done. unfold g', remove_client.
    destruct (slices g !! net); [|done]. cbn [accel]. rewrite disown_all. by apply release_others. }
  assert (Hmax : forall h n, owner_of h x y = Some n -> n <> U16_MAX).
  { intros h n. unfold owner_of. destruct (Z.eqb_spec (cell (accel h) (cell_idx x y)) U16_MAX) as [|Hne]; [done|].
    by intros [= <-]. }
  assert (Hnone : owner_of g' x y <> Some net).
  { intros Ho. apply (owner_of_slice g' net x y Hg' Hn Hx Hy) in Ho. rewrite He in Ho. by apply elem_of_nil in Ho. }
  destruct (owner_of g' x y) as [n'|] eqn:E'.
  - assert (Hne : n' <> net) by congruence.
    rewrite (proj1 (Hoth n' (Hmax g' n' E') Hne) eq_refl). case_decide; congruence.
  - case_decide as Hd; [done|]. destruct (owner_of g x y) as [n|] eqn:E; [|done].
    assert (Hne : n <> net) by congruence. by apply (Hoth n (Hmax g n E) Hne).
Qed.

Lemma remove_client_frees_witness :
  let g := foldl grid_call grid_new [CUpdate 7 f32_zero f32_zero] in
  owned_cells (remove_client 7 g) 7 = [] /\ owner_of (remove_client 7 g) 54 54 = None.
Proof.
  destruct (remove_client_frees [CUpdate 7 f32_zero f32_zero] 7) as [H1 H2].
  - repeat constructor; discriminate.
  - discriminate.
  - split; [exact H1|]. rewrite (H2 54 54) by (split; discriminate). vm_compute. reflexivity.
Defined.
