(* ===== verification/RoutingBucket.v ===== *)
(** * Routing buckets (src/crates/baston-zone/src/routing_bucket.rs)

    Which bucket each player and entity is in, and the policy of each bucket.
    Bucket 0 is the default and is never stored, so a registry is its lookup
    functions; two registries that look alike are interchangeable for every
    query, and the operations respect that equivalence.

    Every method takes the registry's lock for its whole body, so each is one
    atomic step; a poisoned lock panics and is not modelled. *)

From S2P Require Import Prelude.

Inductive LockdownMode := Inactive | Relaxed | Strict.

#[export] Instance LockdownMode_eq_dec : EqDecision LockdownMode.
Proof. solve_decision. Defined.

Record BucketPolicy := { lockdown : LockdownMode; population_enabled : bool }.

Definition default_policy : BucketPolicy :=
  {| lockdown := Inactive; population_enabled := true |}.

Record RegistryState := {
  players : gmap Z Z;
  bucket_entities : gmap Z Z;
  policies : gmap Z BucketPolicy
}.

Definition registry_default : RegistryState :=
  {| players := ∅; bucket_entities := ∅; policies := ∅ |}.

Definition player_bucket (r : RegistryState) (source : Z) : Z := default 0 (players r !! source).
Definition entity_bucket (r : RegistryState) (object_id : Z) : Z := default 0 (bucket_entities r !! object_id).

Definition set_player_bucket (source bucket : Z) (r : RegistryState) : RegistryState :=
  {| players := if bucket =? 0 then delete source (players r) else <[source := bucket]> (players r);
     bucket_entities := bucket_entities r; policies := policies r |}.

Definition set_entity_bucket (object_id bucket : Z) (r : RegistryState) : RegistryState :=
  {| players := players r;
     bucket_entities := if bucket =? 0 then delete object_id (bucket_entities r)
                        else <[object_id := bucket]> (bucket_entities r);
     policies := policies r |}.

Definition remove_player (source : Z) (r : RegistryState) : RegistryState :=
  {| players := delete source (players r); bucket_entities := bucket_entities r; policies := policies r |}.

Definition remove_entity (object_id : Z) (r : RegistryState) : RegistryState :=
  {| players := players r; bucket_entities := delete object_id (bucket_entities r); policies := policies r |}.

Definition policy (r : RegistryState) (bucket : Z) : BucketPolicy := default default_policy (policies r !! bucket).

Definition set_lockdown (bucket : Z) (mode : LockdownMode) (r : RegistryState) : RegistryState :=
  {| players := players r; bucket_entities := bucket_entities r;
     policies := <[bucket := {| lockdown := mode;
                                population_enabled := population_enabled (policy r bucket) |}]> (policies r) |}.

Definition set_population_enabled (bucket : Z) (enabled : bool) (r : RegistryState) : RegistryState :=
  {| players := players r; bucket_entities := bucket_entities r;
     policies := <[bucket := {| lockdown := lockdown (policy r bucket);
                                population_enabled := enabled |}]> (policies r) |}.

Definition visible (r : RegistryState) (source object_id : Z) : bool :=
  player_bucket r source =? entity_bucket r object_id.

Definition allows_client_create (r : RegistryState) (source : Z) : bool :=
  match lockdown (policy r (player_bucket r source)) with Strict => false | _ => true end.

Definition allows_takeover (r : RegistryState) (sender target object_id : Z) : bool :=
  let bucket := entity_bucket r object_id in
  (player_bucket r sender =? bucket) && (player_bucket r target =? bucket).

(** ** What the maps answer after each change *)

Lemma player_bucket_set s b r s' :
  player_bucket (set_player_bucket s b r) s' = if decide (s = s') then b else player_bucket r s'.
Proof.
  unfold player_bucket, set_player_bucket. cbn [players].
  destruct (Z.eqb_spec b 0) as [->|Hb]; destruct (decide (s = s')) as [<-|Hs];
    rewrite ?lookup_delete_eq, ?lookup_insert_eq, ?lookup_delete_ne, ?lookup_insert_ne by done; done.
Qed.

Lemma entity_bucket_set o b r o' :
  entity_bucket (set_entity_bucket o b r) o' = if decide (o = o') then b else entity_bucket r o'.
Proof.
  unfold entity_bucket, set_entity_bucket. cbn [bucket_entities].
  destruct (Z.eqb_spec b 0) as [->|Hb]; destruct (decide (o = o')) as [<-|Ho];
    rewrite ?lookup_delete_eq, ?lookup_insert_eq, ?lookup_delete_ne, ?lookup_insert_ne by done; done.
Qed.

Lemma entity_bucket_remove o r o' :
  entity_bucket (remove_entity o r) o' = if decide (o = o') then 0 else entity_bucket r o'.
Proof.
  unfold entity_bucket, remove_entity. cbn [bucket_entities].
  destruct (decide (o = o')) as [<-|Ho]; [by rewrite lookup_delete_eq|by rewrite lookup_delete_ne].
Qed.

Lemma player_bucket_remove s r s' :
  player_bucket (remove_player s r) s' = if decide (s = s') then 0 else player_bucket r s'.
Proof.
  unfold player_bucket, remove_player. cbn [players].
  destruct (decide (s = s')) as [<-|Hs]; [by rewrite lookup_delete_eq|by rewrite lookup_delete_ne].
Qed.

Lemma policy_set_lockdown b m r b' :
  policy (set_lockdown b m r) b' =
    if decide (b = b') then {| lockdown := m; population_enabled := population_enabled (policy r b) |}
    else policy r b'.
Proof.
  unfold policy at 1. cbn [set_lockdown policies].
  destruct (decide (b = b')) as [<-|Hb]; [by rewrite lookup_insert_eq|by rewrite lookup_insert_ne].
Qed.

Lemma policy_set_population b e r b' :
  policy (set_population_enabled b e r) b' =
    if decide (b = b') then {| lockdown := lockdown (policy r b); population_enabled := e |}
    else policy r b'.
Proof.
  unfold policy at 1. cbn [set_population_enabled policies].
  destruct (decide (b = b')) as [<-|Hb]; [by rewrite lookup_insert_eq|by rewrite lookup_insert_ne].
Qed.

(** ** Registries that answer alike *)

Record registry_equiv (r r' : RegistryState) : Prop := {
  equiv_players : forall s, player_bucket r s = player_bucket r' s;
  equiv_entities : forall o, entity_bucket r o = entity_bucket r' o;
  equiv_policies : forall b, policy r b = policy r' b
}.

#[export] Instance registry_Equiv : Equiv RegistryState := registry_equiv.

#[export] Instance registry_equivalence : Equivalence (≡@{RegistryState}).
Proof.
  split.
  - intros r. by split.
  - intros r r' []. split; congruence.
  - intros r1 r2 r3 [] []. split; congruence.
Qed.

#[export] Instance set_player_bucket_proper s b : Proper ((≡) ==> (≡)) (set_player_bucket s b).
Proof. intros r r' [Hp He Ho]. split; [|exact He|exact Ho]. intros s'. by rewrite !player_bucket_set, Hp. Qed.

#[export] Instance set_entity_bucket_proper o b : Proper ((≡) ==> (≡)) (set_entity_bucket o b).
Proof. intros r r' [Hp He Ho]. split; [exact Hp| |exact Ho]. intros o'. by rewrite !entity_bucket_set, He. Qed.

#[export] Instance allows_takeover_proper : Proper ((≡) ==> eq ==> eq ==> eq ==> eq) allows_takeover.
Proof. intros r r' [Hp He Ho] s _ <- t _ <- o _ <-. unfold allows_takeover. by rewrite !Hp, !He. Qed.

#[export] Instance allows_client_create_proper : Proper ((≡) ==> eq ==> eq) allows_client_create.
Proof. intros r r' [Hp He Ho] s _ <-. unfold allows_client_create. by rewrite Hp, Ho. Qed.

(** Forgetting an entity or a player is moving it to the default bucket. *)
Lemma remove_entity_default o r : remove_entity o r ≡ set_entity_bucket o 0 r.
Proof. split; [done| |done]. intros o'. by rewrite entity_bucket_remove, entity_bucket_set. Qed.

Lemma remove_player_default s r : remove_player s r ≡ set_player_bucket s 0 r.
Proof. split; [|done|done]. intros s'. by rewrite player_bucket_remove, player_bucket_set. Qed.

(** a takeover is allowed exactly when sender and target see the entity,
    so once a player or the entity moves to another bucket no takeover of it
    by that player is allowed until one of them moves back; lockdown of a
    bucket denies creates of exactly the players in it. *)
Theorem bucket_isolation r sender target o :
  allows_takeover r sender target o = visible r sender o && visible r target o /\
  (forall b, b <> entity_bucket r o -> allows_takeover (set_player_bucket sender b r) sender target o = false) /\
  (forall b, b <> entity_bucket r o -> allows_takeover (set_player_bucket target b r) sender target o = false) /\
  (forall b, b <> player_bucket r sender -> allows_takeover (set_entity_bucket o b r) sender target o = false) /\
  (forall b s, allows_client_create (set_lockdown b Strict r) s =
     negb (player_bucket r s =? b) && allows_client_create r s).
Proof.
  unfold allows_takeover, visible. split_and!; [done|intros b Hb..|].
  - rewrite player_bucket_set, decide_True by done. change (entity_bucket (set_player_bucket sender b r) o)
      with (entity_bucket r o). by rewrite (proj2 (Z.eqb_neq _ _) Hb).
  - rewrite (player_bucket_set target b r target), decide_True by done.
    change (entity_bucket (set_player_bucket target b r) o) with (entity_bucket r o).
    rewrite (proj2 (Z.eqb_neq _ _) Hb). apply andb_false_r.
  - rewrite entity_bucket_set, decide_True by done.
    change (player_bucket (set_entity_bucket o b r) sender) with (player_bucket r sender).
    by rewrite (proj2 (Z.eqb_neq (player_bucket r sender) b)) by done.
  - intros b s. unfold allows_client_create. change (player_bucket (set_lockdown b Strict r) s) with (player_bucket r s).
    rewrite policy_set_lockdown. destruct (decide (b = player_bucket r s)) as [->|Hb].
    + by rewrite Z.eqb_refl.
    + by rewrite (proj2 (Z.eqb_neq (player_bucket r s) b)) by done.
Qed.
