(* ===== verification/InterestNg.v ===== *)
(** * Interest management (src/crates/baston-zone/src/interest_ng.rs)

    A client's sparse view over the world and the tick that decides what to
    send it.  The source's panics (an index out of range, the [expect] of the
    send loop) are the [None] of [tick_with_context]; a theorem shows they are
    never reached.  Iteration over the hash map of views only feeds a sort by
    object id, its keys, so its order is immaterial.  Sums of sizes are
    unbounded: a [usize] cannot overflow on a world of 65535 entities. *)

From S2P Require Import Prelude F32 Clone.

(** [1.0e6], [12.5 * 80000] being exact. *)
Definition PRIORITY_CAP : f32 := f32_of_Z 1000000.

Record EntitySnapshot := {
  object_id : Z; uniqifier : Z; owner : Z; position : vec3; velocity : vec3;
  entity_type : NetObjEntityType; routing_bucket : Z; frame_index : Z; data_len : Z
}.

Record InterestConfig := {
  aoi_radius : f32; budget_bytes : Z; distance_weight : f32; closing_weight : f32;
  staleness_weight : f32; hysteresis_m : f32; remove_budget_bytes : Z
}.

Definition query_radius (cfg : InterestConfig) : f32 := f32_add (aoi_radius cfg) (hysteresis_m cfg).

Definition default_config : InterestConfig := {|
  aoi_radius := f32_of_Z 424; budget_bytes := 24 * 1024; distance_weight := f32_of_Z 10;
  closing_weight := f32_half; staleness_weight := f32_one; hysteresis_m := f32_of_Z 20;
  remove_budget_bytes := 4 * 1024 |}.

Record EntityView := {
  priority : f32; base_frame_of : Z; created : bool; seen_this_tick : bool; view_uniqifier : Z
}.

#[export] Instance rebuild_EntityView : Rebuild EntityView := fun v =>
  Build_EntityView (priority v) (base_frame_of v) (created v) (seen_this_tick v) (view_uniqifier v).

(** ** Spatial index *)

Definition px (p : vec3) : f32 := p.1.1.
Definition py (p : vec3) : f32 := p.1.2.

Record SpatialIndex := { cell_size : f32; cells : gmap (Z * Z) (list Z) }.

Definition cell_of (position : vec3) (cell_size : f32) : Z * Z :=
  (f32_as_i32 (f32_floor (f32_div (px position) cell_size)),
   f32_as_i32 (f32_floor (f32_div (py position) cell_size))).

Definition push_at {K} `{Countable K} (k : K) (i : Z) (m : gmap K (list Z)) : gmap K (list Z) :=
  <[k := default [] (m !! k) ++ [i]]> m.

Fixpoint index_from (i : Z) (world : list EntitySnapshot) (size : f32) (m : gmap (Z * Z) (list Z)) : gmap (Z * Z) (list Z) :=
  match world with
  | [] => m
  | e :: rest => index_from (i + 1) rest size (push_at (cell_of (position e) size) (u32 i) m)
  end.

Definition build (world : list EntitySnapshot) (radius : f32) : SpatialIndex :=
  let size := f32_max radius f32_one in
  let count := Z.to_nat (Z.min (Z.of_nat (length world)) (2 ^ 32 - 1)) in
  {| cell_size := size; cells := index_from 0 (take count world) size ∅ |}.

(** The cells [for_each_near] visits, in order.  The additions are on [i32]
    and wrap, as the release profile compiles them. *)
Definition block (c : Z * Z) : list (Z * Z) :=
  [-1; 0; 1] ≫= (fun dx => (fun dy => (i32 (c.1 + dx), i32 (c.2 + dy))) <$> [-1; 0; 1]).

(** The indices [for_each_near] passes to its callback. *)
Definition near (index : SpatialIndex) (focus : vec3) : list Z :=
  block (cell_of focus (cell_size index)) ≫= (fun c => default [] (cells index !! c)).

(** ** The client view *)

Record TickPlan := { creates : list Z; syncs : list Z; removes : list (Z * Z) }.
Definition empty_plan : TickPlan := {| creates := []; syncs := []; removes := [] |}.

Record ClientView := { net_id : Z; views : gmap Z EntityView }.

Definition view_new (net_id : Z) : ClientView := {| net_id := net_id; views := ∅ |}.
Definition scope_len (v : ClientView) : nat := size (views v).

Record Candidate := { cand_id : Z; cand_priority : f32; cand_index : Z }.

(** Horizontal squared distance from the focus. *)
Definition planar_d2 (e : EntitySnapshot) (focus : vec3) : f32 :=
  let dx := f32_sub (px (position e)) (px focus) in
  let dy := f32_sub (py (position e)) (py focus) in
  f32_add (f32_mul dx dx) (f32_mul dy dy).

(** The radius test: an entity already in scope is retained a little further. *)
Definition relevant_radius (cfg : InterestConfig) (already_scoped : bool) : f32 :=
  f32_add (aoi_radius cfg) (if already_scoped then hysteresis_m cfg else f32_zero).

Definition outside_aoi (cfg : InterestConfig) (already_scoped : bool) (e : EntitySnapshot) (focus : vec3) : bool :=
  let radius := relevant_radius cfg already_scoped in
  f32_gt (planar_d2 e focus) (f32_mul radius radius).

(** The three priority terms of one entity. *)
Definition priority_gain (cfg : InterestConfig) (e : EntitySnapshot) (focus focus_velocity : vec3) : f32 * f32 :=
  let dx := f32_sub (px (position e)) (px focus) in
  let dy := f32_sub (py (position e)) (py focus) in
  let dist := f32_sqrt (planar_d2 e focus) in
  let dist_term := f32_mul (distance_weight cfg)
                     (f32_max (f32_sub f32_one (f32_div dist (aoi_radius cfg))) f32_zero) in
  let closing_speed :=
    if f32_gt dist f32_EPSILON then
      let rx := f32_sub (px (velocity e)) (px focus_velocity) in
      let ry := f32_sub (py (velocity e)) (py focus_velocity) in
      let radial_velocity := f32_div (f32_add (f32_mul rx dx) (f32_mul ry dy)) dist in
      f32_max (f32_neg radial_velocity) f32_zero
    else f32_zero in
  (dist_term, f32_mul (closing_weight cfg) closing_speed).

Definition fresh_view (uniqifier : Z) : EntityView :=
  {| priority := f32_zero; base_frame_of := 0; created := false; seen_this_tick := false;
     view_uniqifier := uniqifier |}.

Section tick.
Context (self_id : Z) (focus focus_velocity : vec3) (bucket : Z) (world : list EntitySnapshot)
        (cfg : InterestConfig).

(** The callback of the neighbourhood query. *)
Definition visit (st : gmap Z EntityView * list Candidate) (i : Z) : gmap Z EntityView * list Candidate :=
  let '(vs, candidates) := st in
  match world !! Z.to_nat i with
  | None => st
  | Some e =>
      if (self_id =? owner e) || negb (routing_bucket e =? bucket) then st
      else if outside_aoi cfg (is_some (vs !! object_id e)) e focus then st
      else
        let '(dist_term, closing_term) := priority_gain cfg e focus focus_velocity in
        let view := default (fresh_view (uniqifier e)) (vs !! object_id e) in
        let p := f32_min (f32_add (f32_add (f32_add (priority view) dist_term) closing_term)
                                  (staleness_weight cfg)) PRIORITY_CAP in
        let view' := view <| seen_this_tick := true |> <| view_uniqifier := uniqifier e |> <| priority := p |> in
        (<[object_id e := view']> vs,
         candidates ++ [{| cand_id := object_id e; cand_priority := p; cand_index := i |}])
  end.

(** The scope exits of the tick, by object id. *)
Definition exits (vs : gmap Z EntityView) : list (Z * Z) :=
  sort_by (fun a b => a.1 <=? b.1)
    ((fun kv => (kv.1, view_uniqifier kv.2)) <$>
       List.filter (fun kv => negb (seen_this_tick kv.2)) (map_to_list vs)).

Definition max_removes : nat := Z.to_nat (Z.max (remove_budget_bytes cfg / 8) 1).

(** Highest priority first, then lowest object id. *)
Definition cand_leb (a b : Candidate) : bool :=
  match f32_total_cmp (cand_priority b) (cand_priority a) with
  | Lt => true
  | Eq => cand_id a <=? cand_id b
  | Gt => false
  end.

Definition record_cost (e : EntitySnapshot) : Z := 22 + data_len e.

Record SendState := { spent : Z; send_views : gmap Z EntityView; plan : TickPlan }.

(** One turn of the send loop. *)
Definition send (st : SendState) (c : Candidate) : option SendState :=
  match world !! Z.to_nat (cand_index c) with
  | None => None
  | Some e =>
      let cost := record_cost e in
      if (0 <? spent st) && (budget_bytes cfg <? spent st + cost) then Some st
      else
        match send_views st !! cand_id c with
        | None => None
        | Some view =>
            if negb (created view) then
              Some {| spent := spent st + cost;
                      send_views := <[cand_id c := view <| created := true |>
                                        <| base_frame_of := frame_index e |> <| priority := f32_zero |>]> (send_views st);
                      plan := {| creates := creates (plan st) ++ [cand_id c];
                                 syncs := syncs (plan st); removes := removes (plan st) |} |}
            else if base_frame_of view <? frame_index e then
              Some {| spent := spent st + cost;
                      send_views := <[cand_id c := view <| base_frame_of := frame_index e |>
                                        <| priority := f32_zero |>]> (send_views st);
                      plan := {| creates := creates (plan st);
                                 syncs := syncs (plan st) ++ [cand_id c]; removes := removes (plan st) |} |}
            else Some st
        end
  end.

Fixpoint send_all (cs : list Candidate) (st : SendState) : option SendState :=
  match cs with
  | [] => Some st
  | c :: rest => match send st c with None => None | Some st' => send_all rest st' end
  end.

End tick.

Definition reset_seen (vs : gmap Z EntityView) : gmap Z EntityView :=
  (fun v => v <| seen_this_tick := false |>) <$> vs.

Definition drop_exits (removed : list (Z * Z)) (vs : gmap Z EntityView) : gmap Z EntityView :=
  foldl (fun vs kv => delete kv.1 vs) vs removed.

Definition tick_with_context (focus focus_velocity : vec3) (bucket : Z) (world : list EntitySnapshot)
    (index : SpatialIndex) (cfg : InterestConfig) (v : ClientView) : option (TickPlan * ClientView) :=
  let '(vs, candidates) := foldl (visit (net_id v) focus focus_velocity bucket world cfg)
                                 (reset_seen (views v), []) (near index focus) in
  let removed := take (max_removes cfg) (exits vs) in
  match send_all world cfg (sort_by cand_leb candidates)
          {| spent := 0; send_views := drop_exits removed vs;
             plan := {| creates := []; syncs := []; removes := removed |} |} with
  | None => None
  | Some st => Some (plan st, {| net_id := net_id v; views := send_views st |})
  end.

Definition zero_vec : vec3 := (f32_zero, f32_zero, f32_zero).

Definition tick (focus : vec3) (world : list EntitySnapshot) (cfg : InterestConfig) (v : ClientView) : option (TickPlan * ClientView) :=
  tick_with_context focus zero_vec 0 world (build world (query_radius cfg)) cfg v.

(** ** Feedback from the client *)

Definition base_frame (id : Z) (v : ClientView) : option Z := base_frame_of <$> views v !! id.

Definition alter_view (f : EntityView -> EntityView) (id : Z) (v : ClientView) : ClientView :=
  {| net_id := net_id v; views := alter f id (views v) |}.

Definition rollback (id frame : Z) (recreate : bool) (v : ClientView) : ClientView :=
  alter_view (fun w =>
    let w' := w <| base_frame_of := Z.min (base_frame_of w) frame |> in
    if recreate then w' <| created := false |> else w') id v.

Definition rollback_all (frame : Z) (v : ClientView) : ClientView :=
  {| net_id := net_id v;
     views := (fun w => w <| base_frame_of := Z.min (base_frame_of w) frame |>) <$> views v |}.

Definition force_recreate (id : Z) (v : ClientView) : ClientView :=
  alter_view (fun w => w <| created := false |> <| base_frame_of := 0 |>) id v.

Definition ack_frame (frame : Z) (v : ClientView) : ClientView := v.

(** ** The neighbourhood pass *)

Section visit_facts.
Context (self_id : Z) (focus fvel : vec3) (bucket : Z) (world : list EntitySnapshot) (cfg : InterestConfig).

(** What makes an entity of the snapshot a candidate. *)
Definition eligible (e : EntitySnapshot) : Prop :=
  owner e <> self_id /\ routing_bucket e = bucket /\
  exists scoped, outside_aoi cfg scoped e focus = false.

Definition candidate_ok (vs : gmap Z EntityView) (c : Candidate) : Prop :=
  (exists e, world !! Z.to_nat (cand_index c) = Some e /\ object_id e = cand_id c /\ eligible e) /\
  (exists w, vs !! cand_id c = Some w /\ seen_this_tick w = true).

(** The pass only adds views, keeps what was sent, and marks exactly the
    candidates as seen. *)
Record visited (vs0 : gmap Z EntityView) (st : gmap Z EntityView * list Candidate) : Prop := {
  visited_candidates : Forall (candidate_ok st.1) st.2;
  visited_seen : forall id w, st.1 !! id = Some w -> seen_this_tick w = true ->
                   exists c, c ∈ st.2 /\ cand_id c = id;
  visited_kept : forall id w0, vs0 !! id = Some w0 ->
                   exists w, st.1 !! id = Some w /\ created w = created w0 /\ base_frame_of w = base_frame_of w0;
  visited_new : forall id w, st.1 !! id = Some w -> vs0 !! id = None ->
                  created w = false /\ seen_this_tick w = true
}.

Lemma visit_cases st i :
  visit self_id focus fvel bucket world cfg st i = st \/
  exists e p, world !! Z.to_nat i = Some e /\ eligible e /\
    visit self_id focus fvel bucket world cfg st i =
      (<[object_id e := (default (fresh_view (uniqifier e)) (st.1 !! object_id e))
            <| seen_this_tick := true |> <| view_uniqifier := uniqifier e |> <| priority := p |>]> st.1,
       st.2 ++ [{| cand_id := object_id e; cand_priority := p; cand_index := i |}]).
Proof.
  destruct st as [vs cs]. unfold visit. destruct (world !! Z.to_nat i) as [e|] eqn:Ee; [|by left].
  destruct ((self_id =? owner e) || negb (routing_bucket e =? bucket)) eqn:Eo; [by left|].
  destruct (outside_aoi cfg (is_some (vs !! object_id e)) e focus) eqn:Ea; [by left|].
  destruct (priority_gain cfg e focus fvel) as [d c]. right. eexists e, _. cbn [fst snd]. split_and!; [done| |done].
  apply orb_false_iff in Eo as [Eo Eb]. apply Z.eqb_neq in Eo. apply negb_false_iff, Z.eqb_eq in Eb.
  split_and!; [congruence|done|by eexists].
Qed.

Lemma visit_visited vs0 st i : visited vs0 st -> visited vs0 (visit self_id focus fvel bucket world cfg st i).
Proof.
  intros Hv. destruct (visit_cases st i) as [->|(e & p & He & Hel & ->)]; [done|].
  destruct Hv as [Hc Hs Hk Hn]. set (w1 := _ <| priority := p |>).
  assert (Hcr : created w1 = created (default (fresh_view (uniqifier e)) (st.1 !! object_id e))) by done.
  assert (Hba : base_frame_of w1 = base_frame_of (default (fresh_view (uniqifier e)) (st.1 !! object_id e))) by done.
  assert (Hse : seen_this_tick w1 = true) by done.
  clearbody w1. split; cbn [fst snd].
  - apply Forall_app. split.
    + eapply Forall_impl; [exact Hc|]. intros c [Hw (w & Hl & Hsw)]. split; [done|].
      destruct (decide (object_id e = cand_id c)) as [->|Hne].
      * exists w1. by rewrite lookup_insert_eq.
      * exists w. by rewrite lookup_insert_ne.
    + constructor; [|done]. split; cbn [cand_id cand_index]; [by exists e|]. exists w1. by rewrite lookup_insert_eq.
  - intros id w Hl Hsw. destruct (decide (object_id e = id)) as [<-|Hne].
    + eexists. split; [apply elem_of_app; right; by left|done].
    + rewrite lookup_insert_ne in Hl by done. destruct (Hs id w Hl Hsw) as (c & Hin & Hid).
      exists c. split; [apply elem_of_app; by left|done].
  - intros id w0 Hl. destruct (Hk id w0 Hl) as (w & Hw & Hw1 & Hw2).
    destruct (decide (object_id e = id)) as [<-|Hne].
    + exists w1. rewrite lookup_insert_eq, Hcr, Hba, Hw. done.
    + exists w. by rewrite lookup_insert_ne.
  - intros id w Hl Hnone. destruct (decide (object_id e = id)) as [<-|Hne].
    + rewrite lookup_insert_eq in Hl. injection Hl as <-. split; [|done]. rewrite Hcr.
      destruct (st.1 !! object_id e) as [w|] eqn:E; [by apply (Hn (object_id e))|done].
    + rewrite lookup_insert_ne in Hl by done. by apply (Hn id).
Qed.

Lemma visits_visited vs0 st is_ : visited vs0 st ->
  visited vs0 (foldl (visit self_id focus fvel bucket world cfg) st is_).
Proof.
  revert st. induction is_ as [|i is_ IH]; intros st Hv; cbn [foldl]; [done|].
  by apply IH, visit_visited.
Qed.

End visit_facts.

Lemma reset_seen_lookup vs id : reset_seen vs !! id =
  (fun w => w <| seen_this_tick := false |>) <$> vs !! id.
Proof. apply lookup_fmap. Qed.

Lemma visited_start self_id focus bucket world cfg vs :
  visited self_id focus bucket world cfg (reset_seen vs) (reset_seen vs, []).
Proof.
  split; cbn [fst snd].
  - constructor.
  - intros id w. rewrite reset_seen_lookup. destruct (vs !! id); [|done]. by intros [= <-].
  - intros id w0 Hl. by exists w0.
  - intros id w Hl Hn. congruence.
Qed.

(** ** Scope exits *)

Lemma exits_spec vs id u : (id, u) ∈ exits vs <->
  exists w, vs !! id = Some w /\ seen_this_tick w = false /\ u = view_uniqifier w.
Proof.
  unfold exits. rewrite sort_by_perm, list_elem_of_fmap. split.
  - intros ([k w] & [= -> ->] & Hin). apply list_elem_of_In, filter_In in Hin as [Hin Hs].
    apply list_elem_of_In, elem_of_map_to_list in Hin. exists w. cbn in *. split_and!; [done| |done].
    by destruct (seen_this_tick w).
  - intros (w & Hl & Hs & ->). exists (id, w). split; [done|].
    apply list_elem_of_In, filter_In. rewrite <- list_elem_of_In, elem_of_map_to_list. cbn. by rewrite Hs.
Qed.

Lemma filter_keys_nodup (f : Z * EntityView -> bool) vs :
  NoDup ((List.filter f (map_to_list vs)).*1).
Proof.
  pose proof (NoDup_fst_map_to_list vs) as H. induction (map_to_list vs) as [|kv l IH]; cbn in *; [constructor|].
  apply NoDup_cons in H as [Hk H]. destruct (f kv); [|by apply IH]. cbn. constructor; [|by apply IH].
  intros Hin. apply Hk. apply list_elem_of_fmap in Hin as (kv' & -> & Hin). apply list_elem_of_fmap.
  exists kv'. split; [done|]. apply list_elem_of_In in Hin. apply list_elem_of_In. by eapply filter_In.
Qed.

Lemma exits_nodup vs : NoDup ((exits vs).*1).
Proof.
  unfold exits. rewrite sort_by_perm.
  rewrite <- list_fmap_compose. apply (filter_keys_nodup _ vs).
Qed.

Lemma exits_length vs : (length (exits vs) <= size vs)%nat.
Proof.
  unfold exits. rewrite (Permutation_length (sort_by_perm _ _)), length_fmap, <- length_map_to_list.
  apply List.filter_length_le.
Qed.

Lemma drop_exits_lookup removed vs id :
  drop_exits removed vs !! id = if decide (id ∈ removed.*1) then None else vs !! id.
Proof.
  unfold drop_exits. revert vs. induction removed as [|[k u] removed IH]; intros vs; cbn [foldl fmap list_fmap].
  { rewrite decide_False; [done|]. apply not_elem_of_nil. }
  rewrite IH. cbn [fst]. destruct (decide (id ∈ removed.*1)) as [Hi|Hi].
  - rewrite decide_True; [done|]. by right.
  - destruct (decide (k = id)) as [->|Hk].
    + rewrite lookup_delete_eq, decide_True; [done|]. by left.
    + rewrite lookup_delete_ne, decide_False; [done| |done]. rewrite elem_of_cons. intros [->|?]; done.
Qed.

(** ** The send loop *)

Definition sent (p : TickPlan) : list Z := creates p ++ syncs p.

Definition was_created (vs : gmap Z EntityView) (id : Z) : Prop :=
  exists w, vs !! id = Some w /\ created w = true.

Section send_facts.
Context (world : list EntitySnapshot) (cfg : InterestConfig).

Definition over_budget (st : SendState) (e : EntitySnapshot) : bool :=
  (0 <? spent st) && (budget_bytes cfg <? spent st + record_cost e).

(** The four outcomes of a turn on a valid candidate. *)
Inductive turn (c : Candidate) (e : EntitySnapshot) (st : SendState) : SendState -> Prop :=
| turn_idle : turn c e st st
| turn_create w w' : send_views st !! cand_id c = Some w -> created w = false -> created w' = true ->
    over_budget st e = false -> base_frame_of w' = frame_index e -> view_uniqifier w' = view_uniqifier w ->
    turn c e st {| spent := spent st + record_cost e;
                   send_views := <[cand_id c := w']> (send_views st);
                   plan := {| creates := creates (plan st) ++ [cand_id c];
                              syncs := syncs (plan st); removes := removes (plan st) |} |}
| turn_sync w w' : send_views st !! cand_id c = Some w -> created w = true -> created w' = true ->
    over_budget st e = false -> base_frame_of w' = frame_index e -> base_frame_of w < frame_index e ->
    view_uniqifier w' = view_uniqifier w -> turn c e st {| spent := spent st + record_cost e;
                   send_views := <[cand_id c := w']> (send_views st);
                   plan := {| creates := creates (plan st);
                              syncs := syncs (plan st) ++ [cand_id c]; removes := removes (plan st) |} |}.

Lemma send_turn c e st : world !! Z.to_nat (cand_index c) = Some e ->
  is_Some (send_views st !! cand_id c) ->
  exists st', send world cfg st c = Some st' /\ turn c e st st'.
Proof.
  intros He [w Hw]. unfold send. rewrite He. fold (over_budget st e).
  destruct (over_budget st e) eqn:Eo; [eexists; split; [done|constructor]|].
  rewrite Hw. destruct (created w) eqn:Ec; cbn [negb].
  - destruct (Z.ltb_spec (base_frame_of w) (frame_index e)) as [Hf|Hf]; eexists; (split; [done|]); [|constructor].
    by eapply turn_sync.
  - eexists. split; [done|]. by eapply turn_create.
Qed.

(** The state of the loop against the views [vs] it started from. *)
Record sending (vs : gmap Z EntityView) (removed : list (Z * Z)) (ids : list Z) (st : SendState) : Prop := {
  sending_domain : forall id, is_Some (send_views st !! id) <-> is_Some (vs !! id);
  sending_from : forall id, id ∈ sent (plan st) -> id ∈ ids;
  sending_created : forall id, was_created (send_views st) id <-> id ∈ creates (plan st) \/ was_created vs id;
  sending_creates : forall id, id ∈ creates (plan st) -> ~ was_created vs id;
  sending_syncs : forall id, id ∈ syncs (plan st) -> id ∈ creates (plan st) \/ was_created vs id;
  sending_removes : removes (plan st) = removed
}.

Lemma was_created_insert vs id w' id' : created w' = true ->
  was_created (<[id := w']> vs) id' <-> id' = id \/ was_created vs id'.
Proof.
  intros Hc. unfold was_created. destruct (decide (id = id')) as [<-|Hne].
  - rewrite lookup_insert_eq. split; [by left|]. intros _. by exists w'.
  - rewrite lookup_insert_ne by done. split; [by right|]. by intros [->|].
Qed.

Lemma turn_sending vs removed ids c e st st' : cand_id c ∈ ids ->
  sending vs removed ids st -> turn c e st st' -> sending vs removed ids st'.
Proof.
  intros Hin [Hd Hf Hc Hcr Hs Hr] Ht. destruct Ht as [|w w' Hw Hno Hyes _ _ _|w w' Hw Hold Hyes _ _ _ _]; [by split|..];
    (split; cbn [send_views plan creates syncs removes]; [| | | | |done]).
  - intros id. rewrite <- Hd. destruct (decide (cand_id c = id)) as [<-|Hne].
    + rewrite lookup_insert_eq, Hw. split; by eexists.
    + by rewrite lookup_insert_ne.
  - intros id. unfold sent in *. cbn [creates syncs]. rewrite !elem_of_app, list_elem_of_singleton.
    intros [[?| ->]|?]; [|done|]; apply Hf, elem_of_app; auto.
  - intros id. rewrite was_created_insert, Hc, elem_of_app, list_elem_of_singleton by done. tauto.
  - intros id. rewrite elem_of_app, list_elem_of_singleton. intros [?| ->]; [by apply Hcr|].
    intros Hw0. assert (Hx : was_created (send_views st) (cand_id c)) by (apply Hc; by right).
    destruct Hx as (w1 & Hl & Hcw). congruence.
  - intros id Hi. rewrite elem_of_app. destruct (Hs id Hi); auto.
  - intros id. rewrite <- Hd. destruct (decide (cand_id c = id)) as [<-|Hne].
    + rewrite lookup_insert_eq, Hw. split; by eexists.
    + by rewrite lookup_insert_ne.
  - intros id. unfold sent in *. cbn [creates syncs]. rewrite !elem_of_app, list_elem_of_singleton.
    intros [?|[?| ->]]; [| |done]; apply Hf, elem_of_app; auto.
  - intros id. rewrite was_created_insert, Hc by done. split; [|tauto].
    intros [->|]; [|done]. apply Hc. by exists w.
  - exact Hcr.
  - intros id. rewrite elem_of_app, list_elem_of_singleton. intros [?| ->]; [by apply Hs|].
    apply Hc. by exists w.
Qed.

(** The candidates the loop is given. *)
Definition sendable (vs : gmap Z EntityView) (c : Candidate) : Prop :=
  (exists e, world !! Z.to_nat (cand_index c) = Some e /\ object_id e = cand_id c) /\ is_Some (vs !! cand_id c).

(** Every invariant of the turns holds of the loop, which never panics. *)
Lemma send_all_rule vs removed ids (P : SendState -> Prop) cs st :
  Forall (fun c => sendable vs c /\ cand_id c ∈ ids) cs ->
  (forall c e st st', c ∈ cs -> world !! Z.to_nat (cand_index c) = Some e -> object_id e = cand_id c ->
     P st -> turn c e st st' -> P st') ->
  sending vs removed ids st -> P st ->
  exists st', send_all world cfg cs st = Some st' /\ sending vs removed ids st' /\ P st'.
Proof.
  intros Hcs Hstep. revert st. induction cs as [|c cs IH]; intros st Hst HP; cbn [send_all]; [by exists st|].
  apply Forall_cons in Hcs as [[[(e & He & Hid) Hv] Hin] Hcs].
  apply (sending_domain _ _ _ _ Hst) in Hv.
  destruct (send_turn c e st He Hv) as (st1 & -> & Ht).
  apply IH; [done| |by eapply turn_sending|].
  - intros c' e' s s' Hc'. apply Hstep. by right.
  - eapply (Hstep c e); [by left|done..].
Qed.

End send_facts.

(** ** The tick, assembled *)

Section tick_facts.
Context (focus fvel : vec3) (bucket : Z) (world : list EntitySnapshot) (index : SpatialIndex) (cfg : InterestConfig).

Definition pass (v : ClientView) : gmap Z EntityView * list Candidate :=
  foldl (visit (net_id v) focus fvel bucket world cfg) (reset_seen (views v), []) (near index focus).

Definition removed_of (v : ClientView) : list (Z * Z) := take (max_removes cfg) (exits (pass v).1).

Lemma pass_visited v : visited (net_id v) focus bucket world cfg (reset_seen (views v)) (pass v).
Proof. apply visits_visited, visited_start. Qed.

Lemma removed_unseen v id : id ∈ (removed_of v).*1 ->
  exists w, (pass v).1 !! id = Some w /\ seen_this_tick w = false.
Proof.
  intros ([k u] & -> & Hin)%list_elem_of_fmap. apply elem_of_take in Hin as (n & Hin & _).
  apply list_elem_of_lookup_2, exits_spec in Hin as (w & ? & ? & _). by exists w.
Qed.

Lemma candidate_not_removed v c : c ∈ (pass v).2 -> cand_id c ∉ (removed_of v).*1.
Proof.
  intros Hc Hr. destruct (removed_unseen v _ Hr) as (w & Hw & Hs).
  destruct (pass_visited v) as [Hcs _ _ _]. rewrite Forall_forall in Hcs.
  destruct (Hcs c Hc) as [_ (w' & Hw' & Hs')]. congruence.
Qed.

Definition start_of (v : ClientView) : SendState :=
  {| spent := 0; send_views := drop_exits (removed_of v) (pass v).1;
     plan := {| creates := []; syncs := []; removes := removed_of v |} |}.

Lemma candidates_sendable v :
  Forall (fun c => sendable world (send_views (start_of v)) c /\ cand_id c ∈ cand_id <$> (pass v).2)
         (sort_by cand_leb (pass v).2).
Proof.
  apply Forall_forall. intros c Hc. rewrite sort_by_perm in Hc.
  pose proof (pass_visited v) as [Hcs _ _ _]. rewrite Forall_forall in Hcs.
  destruct (Hcs c Hc) as [(e & He & Hid & _) (w & Hw & _)]. split; [|apply list_elem_of_fmap; by exists c].
  split; [by exists e|]. cbn [start_of send_views]. rewrite drop_exits_lookup, decide_False by by apply candidate_not_removed.
  by exists w.
Qed.

Lemma start_sending v : sending (send_views (start_of v)) (removed_of v) (cand_id <$> (pass v).2) (start_of v).
Proof.
  split; cbn [start_of plan creates syncs removes sent]; try done.
  - intros id Hi. by apply elem_of_nil in Hi.
  - intros id. rewrite elem_of_nil. tauto.
  - intros id Hi. by apply elem_of_nil in Hi.
  - intros id Hi. by apply elem_of_nil in Hi.
Qed.

(** The tick returns, and any invariant of the turns holds at its end. *)
Lemma tick_rule v (P : SendState -> Prop) :
  (forall c e st st', c ∈ (pass v).2 -> world !! Z.to_nat (cand_index c) = Some e -> object_id e = cand_id c ->
     P st -> turn cfg c e st st' -> P st') ->
  P (start_of v) ->
  exists st, tick_with_context focus fvel bucket world index cfg v = Some (plan st, {| net_id := net_id v; views := send_views st |}) /\
    sending (send_views (start_of v)) (removed_of v) (cand_id <$> (pass v).2) st /\ P st.
Proof.
  intros Hstep HP. destruct (send_all_rule world cfg (send_views (start_of v)) (removed_of v)
    (cand_id <$> (pass v).2) P (sort_by cand_leb (pass v).2) (start_of v)) as (st & Hst & Hs & HP').
  - apply candidates_sendable.
  - intros c e s s' Hc. apply Hstep. by rewrite sort_by_perm in Hc.
  - apply start_sending.
  - done.
  - exists st. split; [|done]. unfold tick_with_context. fold (pass v).
    revert Hst. unfold start_of, removed_of. destruct (pass v) as [vs cs]. cbn [fst snd]. by intros ->.
Qed.

End tick_facts.

(** a tick never panics, and sends records only for entities of its
    snapshot that another client simulates, that are in the client's routing
    bucket and that pass the radius test: whatever the index holds, nothing
    leaks across buckets or echoes to the owner. *)
Theorem tick_isolated focus fvel bucket world index cfg v :
  exists p v', tick_with_context focus fvel bucket world index cfg v = Some (p, v') /\
    forall id, id ∈ creates p ++ syncs p ->
      exists e, e ∈ world /\ object_id e = id /\ owner e <> net_id v /\ routing_bucket e = bucket /\
        exists scoped, outside_aoi cfg scoped e focus = false.
Proof.
  destruct (tick_rule focus fvel bucket world index cfg v (fun _ => True)) as (st & Ht & Hs & _); [done|done|].
  eexists _, _. split; [exact Ht|]. intros id Hid.
  apply (sending_from _ _ _ _ Hs), list_elem_of_fmap in Hid as (c & -> & Hc).
  pose proof (visited_candidates _ _ _ _ _ _ _ (pass_visited focus fvel bucket world index cfg v)) as Hcs.
  rewrite Forall_forall in Hcs. destruct (Hcs c Hc) as [(e & He & Hi & Ho & Hb & Ha) _].
  exists e. split_and!; try done. by eapply list_elem_of_lookup_2.
Qed.

(** ** The client's side: which entities it has been told exist *)

Definition apply_plan (p : TickPlan) (known : gset Z) : gset Z :=
  (known ∪ list_to_set (creates p)) ∖ list_to_set ((removes p).*1).

(** A view and the client it drives: ticks whose packets arrive, in any world
    and configuration, interleaved with any feedback. *)
Inductive view_step : ClientView * gset Z -> ClientView * gset Z -> Prop :=
| step_tick focus fvel bucket world index cfg v known p v' :
    tick_with_context focus fvel bucket world index cfg v = Some (p, v') ->
    view_step (v, known) (v', apply_plan p known)
| step_rollback id frame recreate v known : view_step (v, known) (rollback id frame recreate v, known)
| step_rollback_all frame v known : view_step (v, known) (rollback_all frame v, known)
| step_recreate id v known : view_step (v, known) (force_recreate id v, known).

(** What the server believes it sent, the client has; what the client has, the
    server still tracks. *)
Definition mirrors (s : ClientView * gset Z) : Prop :=
  (forall id, was_created (views s.1) id -> id ∈ s.2) /\
  (forall id, id ∈ s.2 -> is_Some (views s.1 !! id)).

Lemma pass_created focus fvel bucket world index cfg v id :
  was_created (pass focus fvel bucket world index cfg v).1 id <-> was_created (views v) id.
Proof.
  destruct (pass_visited focus fvel bucket world index cfg v) as [_ _ Hk Hn]. unfold was_created. split.
  - intros (w & Hw & Hc). destruct (views v !! id) as [w0|] eqn:E.
    + destruct (Hk id (w0 <| seen_this_tick := false |>)) as (w1 & Hw1 & Hc1 & _); [by rewrite reset_seen_lookup, E|].
      exists w0. split; [done|]. transitivity (created w1); [by rewrite Hc1|congruence].
    + destruct (Hn id w Hw) as [Hno _]; [by rewrite reset_seen_lookup, E|congruence].
  - intros (w & Hw & Hc). destruct (Hk id (w <| seen_this_tick := false |>)) as (w1 & Hw1 & Hc1 & _);
      [by rewrite reset_seen_lookup, Hw|]. exists w1. split; [done|]. by rewrite Hc1.
Qed.

Lemma pass_tracks focus fvel bucket world index cfg v id :
  is_Some (views v !! id) -> is_Some ((pass focus fvel bucket world index cfg v).1 !! id).
Proof.
  destruct (pass_visited focus fvel bucket world index cfg v) as [_ _ Hk _].
  intros [w Hw]. destruct (Hk id (w <| seen_this_tick := false |>)) as (w1 & Hw1 & _);
    [by rewrite reset_seen_lookup, Hw|]. by exists w1.
Qed.

(** What a tick sends, in terms of the views it started from. *)
Lemma tick_facts_of focus fvel bucket world index cfg v p v' :
  tick_with_context focus fvel bucket world index cfg v = Some (p, v') ->
  let gone := (removes p).*1 in
  (forall id, id ∈ creates p ++ syncs p -> id ∉ gone) /\
  (forall id, id ∈ syncs p -> id ∈ creates p \/ was_created (views v) id) /\
  (forall id, was_created (views v') id <-> id ∈ creates p \/ ((id ∉ gone) /\ was_created (views v) id)) /\
  (forall id, is_Some (views v' !! id) <-> (id ∉ gone) /\ is_Some ((pass focus fvel bucket world index cfg v).1 !! id)) /\
  removes p = removed_of focus fvel bucket world index cfg v.
Proof.
  intros H gone. destruct (tick_rule focus fvel bucket world index cfg v (fun _ => True)) as (st & Ht & Hs & _); [done|done|].
  rewrite Ht in H. injection H as <- <-. destruct Hs as [Hd Hf Hc Hcr Hsy Hr]. cbn [views].
  unfold gone in *. rewrite Hr. cbn [start_of send_views] in *.
  set (removed := removed_of focus fvel bucket world index cfg v) in *.
  assert (Hstart : forall id, was_created (drop_exits removed (pass focus fvel bucket world index cfg v).1) id <->
    (id ∉ removed.*1) /\ was_created (views v) id).
  { intros id. rewrite <- (pass_created focus fvel bucket world index cfg). unfold was_created.
    rewrite drop_exits_lookup. case_decide; [|tauto]. split; [intros (? & ? & ?); done|tauto]. }
  split_and!; [| | | |done].
  - intros id Hid. apply Hf, list_elem_of_fmap in Hid as (c & -> & Hin). by apply candidate_not_removed.
  - intros id Hid. destruct (Hsy id Hid) as [|Hx]; [by left|]. right. by apply Hstart in Hx as [_ Hx].
  - intros id. by rewrite Hc, Hstart.
  - intros id. rewrite Hd, drop_exits_lookup. case_decide; [|tauto]. split; [by intros []|tauto].
Qed.

Lemma alter_view_mirrors f id v known : (forall w, created (f w) = true -> created w = true) ->
  mirrors (v, known) -> mirrors (alter_view f id v, known).
Proof.
  intros Hf [H1 H2]. unfold mirrors, alter_view in *. cbn [fst snd views] in *. split.
  - intros id' (w & Hw & Hc). apply H1. destruct (decide (id = id')) as [<-|Hne].
    + rewrite lookup_alter_eq in Hw. destruct (views v !! id) as [w0|] eqn:E; [|done].
      injection Hw as <-. exists w0. auto.
    + rewrite lookup_alter_ne in Hw by done. by exists w.
  - intros id' Hid. destruct (H2 id' Hid) as [w Hw]. destruct (decide (id = id')) as [<-|Hne].
    + rewrite lookup_alter_eq, Hw. by eexists.
    + rewrite lookup_alter_ne by done. by exists w.
Qed.

Lemma view_step_mirrors s s' : view_step s s' -> mirrors s -> mirrors s'.
Proof.
  intros [focus fvel bucket world index cfg v known p v' Ht|id frame rc v known|frame v known|id v known] Hm.
  - destruct Hm as [H1 H2]. cbn [fst snd] in *.
    destruct (tick_facts_of _ _ _ _ _ _ _ _ _ Ht) as (Hgone & Hsy & Hc & Hd & _).
    unfold mirrors, apply_plan. cbn [fst snd]. split.
    + intros id Hid. rewrite elem_of_difference, elem_of_union, !elem_of_list_to_set. apply Hc in Hid as [Hid|[Hg Hid]].
      * split; [by right|]. apply Hgone, elem_of_app. by left.
      * split; [left; by apply H1|done].
    + intros id. rewrite elem_of_difference, elem_of_union, !elem_of_list_to_set. intros [[Hk|Hk] Hg].
      * apply Hd. split; [done|]. by apply pass_tracks, H2.
      * destruct (proj2 (Hc id) (or_introl Hk)) as (w & Hw & _). by exists w.
  - apply alter_view_mirrors; [|done]. intros w. by destruct rc.
  - destruct Hm as [H1 H2]. unfold mirrors, rollback_all in *. cbn [fst snd views] in *. split.
    + intros id (w & Hw & Hc). apply H1. rewrite lookup_fmap in Hw.
      destruct (views v !! id) as [w0|] eqn:E; [|done]. injection Hw as <-. by exists w0.
    + intros id Hid. destruct (H2 id Hid) as [w Hw]. rewrite lookup_fmap, Hw. by eexists.
  - by apply alter_view_mirrors.
Qed.

Lemma view_steps_mirror n s : rtc view_step (view_new n, ∅) s -> mirrors s.
Proof.
  intros Hr. assert (Hm : mirrors (view_new n, ∅)).
  { split; cbn [fst snd view_new views]; [|set_solver]. intros id (w & Hw & _). by rewrite lookup_empty in Hw. }
  by apply (rtc_invariant _ _ _ _ view_step_mirrors Hr).
Qed.

(** C10: along every run of ticks and NACK feedback, a sync is only ever sent
    for an entity the client has been told of, no entity is both sent and
    removed in one tick, and every entity the client holds is still tracked by
    its view, so none is forgotten without a remove. *)
Theorem sync_only_after_create n focus fvel bucket world index cfg v known p v' :
  rtc view_step (view_new n, ∅) (v, known) ->
  tick_with_context focus fvel bucket world index cfg v = Some (p, v') ->
  (forall id, id ∈ syncs p -> id ∈ known \/ id ∈ creates p) /\
  (forall id, id ∈ creates p ++ syncs p -> id ∉ (removes p).*1) /\
  (forall id, id ∈ apply_plan p known -> is_Some (views v' !! id)).
Proof.
  intros Hr Ht. pose proof (view_steps_mirror n _ Hr) as Hm.
  destruct (tick_facts_of _ _ _ _ _ _ _ _ _ Ht) as (Hgone & Hsy & _).
  split_and!; [|done|].
  - intros id Hid. destruct (Hsy id Hid); [by right|left]. by apply (proj1 Hm).
  - apply (view_step_mirrors (v, known) (v', apply_plan p known)); [|done]. by econstructor.
Qed.

Definition sample_car (frame owner_id : Z) (x : Z) : EntitySnapshot := {|
  object_id := 5; uniqifier := 9; owner := owner_id; position := (f32_of_Z x, f32_zero, f32_zero);
  velocity := zero_vec; entity_type := Automobile; routing_bucket := 0; frame_index := frame; data_len := 40 |}.

Definition after_ticks (worlds : list (list EntitySnapshot)) (v : ClientView) : option (TickPlan * ClientView) :=
  foldl (fun acc w => match acc with None => None | Some (_, v) => tick zero_vec w default_config v end)
        (Some (empty_plan, v)) worlds.

Example created_then_synced :
  after_ticks [[sample_car 3 1 10]] (view_new 2) ≫= (fun r => Some r.1) = Some {| creates := [5]; syncs := []; removes := [] |} /\
  after_ticks [[sample_car 3 1 10]; [sample_car 4 1 12]] (view_new 2) ≫= (fun r => Some r.1) = Some {| creates := []; syncs := [5]; removes := [] |} /\
  after_ticks [[sample_car 3 1 10]; [sample_car 4 1 900]] (view_new 2) ≫= (fun r => Some r.1) = Some {| creates := []; syncs := []; removes := [(5, 9)] |}.
Proof. vm_compute. auto. Qed.

(** The view of the client after its first tick. *)
Definition first_view : ClientView := default (view_new 2) (snd <$> after_ticks [[sample_car 3 1 10]] (view_new 2)).

Lemma sync_only_after_create_witness :
  exists p v', tick zero_vec [sample_car 4 1 12] default_config first_view = Some (p, v') /\
    (5 ∈ apply_plan {| creates := [5]; syncs := []; removes := [] |} ∅ \/ 5 ∈ creates p).
Proof.
  eexists _, _. split; [vm_compute; reflexivity|].
  edestruct (sync_only_after_create 2 zero_vec zero_vec 0 [sample_car 4 1 12]
    (build [sample_car 4 1 12] (query_radius default_config)) default_config first_view) as [H _].
  - eapply rtc_once, (step_tick zero_vec zero_vec 0 [sample_car 3 1 10]
      (build [sample_car 3 1 10] (query_radius default_config)) default_config). vm_compute. reflexivity.
  - vm_compute. reflexivity.
  - apply (H 5). left.
Defined.

(** an entity of the view that no longer qualifies (it is gone, out of
    range, in another bucket, or simulated by this very client) is sent a
    remove and forgotten in the same tick when the view is within the removal
    budget; a tick never sends more removes than that budget. *)
Theorem departed_removed focus fvel bucket world index cfg v p v' id :
  tick_with_context focus fvel bucket world index cfg v = Some (p, v') ->
  is_Some (views v !! id) ->
  (forall e, e ∈ world -> object_id e = id -> ~ eligible (net_id v) focus bucket cfg e) ->
  (length (removes p) <= max_removes cfg)%nat /\
  ((size (views v) <= max_removes cfg)%nat -> id ∈ (removes p).*1 /\ views v' !! id = None).
Proof.
  intros Ht Hid Hno. destruct (tick_facts_of _ _ _ _ _ _ _ _ _ Ht) as (_ & _ & _ & Hd & Hr).
  rewrite Hr. unfold removed_of. split; [rewrite length_take; lia|]. intros Hsize.
  pose proof (pass_visited focus fvel bucket world index cfg v) as [Hc Hs _ Hn].
  assert (Htake : take (max_removes cfg) (exits (pass focus fvel bucket world index cfg v).1)
    = exits (pass focus fvel bucket world index cfg v).1).
  { apply take_ge. etrans; [|exact Hsize]. rewrite <- (length_fmap fst), <- size_dom, <- (size_list_to_set (C := gset Z)) by apply exits_nodup.
    apply subseteq_size. intros k Hk. rewrite elem_of_list_to_set in Hk.
    apply list_elem_of_fmap in Hk as ([k' u] & -> & Hin). apply exits_spec in Hin as (w & Hw & Hseen & _).
    apply elem_of_dom. destruct (views v !! k') as [w0|] eqn:E; [by eexists|]. cbn [fst] in *.
    destruct (Hn k' w Hw) as [_ Hx]; [by rewrite reset_seen_lookup, E|congruence]. }
  assert (Hin : id ∈ (exits (pass focus fvel bucket world index cfg v).1).*1).
  { destruct (pass_tracks focus fvel bucket world index cfg v id Hid) as [w Hw].
    apply list_elem_of_fmap. exists (id, view_uniqifier w). split; [done|]. apply exits_spec. exists w. split_and!; [done| |done].
    apply not_true_iff_false. intros Hseen. destruct (Hs id w Hw Hseen) as (c & Hin & Hcid).
    rewrite Forall_forall in Hc. destruct (Hc c Hin) as [(e & He & Heid & Hel) _].
    apply (Hno e); [by eapply list_elem_of_lookup_2|congruence|exact Hel]. }
  split; [by rewrite Htake|]. rewrite Hr in Hd. unfold removed_of in Hd. rewrite Htake in Hd.
  destruct (views v' !! id) eqn:E; [|done]. exfalso. destruct (proj1 (Hd id)) as [Hg _]; [by eexists|done].
Qed.

(** A client that is handed the simulation of a car it already sees. *)
Lemma departed_removed_witness :
  exists p v', tick zero_vec [sample_car 4 2 12] default_config first_view = Some (p, v') /\
    5 ∈ (removes p).*1 /\ views v' !! 5 = None.
Proof.
  eexists _, _. split; [vm_compute; reflexivity|].
  eapply (departed_removed zero_vec zero_vec 0 [sample_car 4 2 12]
    (build [sample_car 4 2 12] (query_radius default_config)) default_config first_view _ _ 5).
  - vm_compute. reflexivity.
  - vm_compute. by eexists.
  - intros e He _ [Ho _]. apply list_elem_of_singleton in He as ->. apply Ho. vm_compute. reflexivity.
  - vm_compute. lia.
Defined.

(** ** The byte budget *)

Definition cost_of (world : list EntitySnapshot) (id : Z) : Z :=
  match list_find (fun e => object_id e = id) world with Some (_, e) => record_cost e | None => 0 end.

Definition total_cost (world : list EntitySnapshot) (ids : list Z) : Z :=
  foldr (fun id n => cost_of world id + n) 0 ids.

Lemma total_cost_perm world l l' : l ≡ₚ l' -> total_cost world l = total_cost world l'.
Proof. unfold total_cost. induction 1; cbn [foldr]; lia. Qed.

Lemma total_cost_app world l l' : total_cost world (l ++ l') = total_cost world l + total_cost world l'.
Proof. unfold total_cost. induction l as [|x l IH]; cbn [app foldr]; lia. Qed.

Lemma cost_of_lookup world i e : NoDup (object_id <$> world) -> world !! i = Some e ->
  cost_of world (object_id e) = record_cost e.
Proof.
  intros Hnd He. unfold cost_of. destruct (list_find _ world) as [[j e']|] eqn:E.
  - apply list_find_Some in E as (Hj & Hid & _). f_equal.
    assert (Hij : j = i).
    { eapply (NoDup_lookup (object_id <$> world)); [exact Hnd| |by rewrite list_lookup_fmap, He].
      rewrite list_lookup_fmap, Hj. cbn. by rewrite Hid. }
    congruence.
  - apply list_find_None in E. rewrite Forall_forall in E. exfalso.
    eapply E; [by eapply list_elem_of_lookup_2|done].
Qed.

(** a tick stays within its byte budget unless it sends a single record,
    which is always let through. *)
Theorem tick_within_budget focus fvel bucket world index cfg v p v' :
  NoDup (object_id <$> world) -> Forall (fun e => 0 <= data_len e) world ->
  tick_with_context focus fvel bucket world index cfg v = Some (p, v') ->
  total_cost world (creates p ++ syncs p) <= budget_bytes cfg \/ (length (creates p ++ syncs p) <= 1)%nat.
Proof.
  intros Hnd Hlen Ht.
  destruct (tick_rule focus fvel bucket world index cfg v (fun st =>
    spent st = total_cost world (sent (plan st)) /\
    ((0 < spent st /\ spent st <= budget_bytes cfg) \/ (length (sent (plan st)) = 0)%nat \/
     (0 < spent st /\ length (sent (plan st)) = 1%nat)))) as (st & Ht' & _ & Hb).
  - intros c e st st' _ He Hid [Hsp Hb] Hturn.
    assert (Hpos : 0 < record_cost e).
    { unfold record_cost. rewrite Forall_forall in Hlen. specialize (Hlen e (list_elem_of_lookup_2 _ _ _ He)). lia. }
    pose proof (cost_of_lookup _ _ _ Hnd He) as Hcost. rewrite Hid in Hcost.
    assert (Hgo : forall pl, sent pl ≡ₚ sent (plan st) ++ [cand_id c] -> over_budget cfg st e = false ->
      spent st + record_cost e = total_cost world (sent pl) /\
      ((0 < spent st + record_cost e /\ spent st + record_cost e <= budget_bytes cfg) \/
       length (sent pl) = 0%nat \/ (0 < spent st + record_cost e /\ length (sent pl) = 1%nat))).
    { intros pl Hpl Ho. rewrite (total_cost_perm _ _ _ Hpl), total_cost_app. cbn [total_cost foldr].
      rewrite Hcost. split; [lia|]. rewrite (Permutation_length Hpl), length_app. cbn [length].
      apply andb_false_iff in Ho. rewrite Z.ltb_ge, Z.ltb_ge in Ho.
      destruct (sent (plan st)) as [|x l] eqn:Es; cbn [length] in *; [|lia].
      cbn [total_cost foldr] in Hsp. right; right. lia. }
    destruct Hturn; [done| |]; apply Hgo; try done; unfold sent; cbn [creates syncs plan spent].
    + rewrite <- !app_assoc. apply Permutation_app_head, Permutation_app_comm.
    + by rewrite app_assoc.
  - cbn. lia.
  - rewrite Ht' in Ht. injection Ht as <- <-. unfold sent in Hb. destruct Hb as [<- Hb].
    destruct Hb as [[_ Hb]|[Hb|[_ Hb]]]; [by left|right; lia..].
Qed.

Lemma tick_within_budget_witness :
  exists p v', tick zero_vec [sample_car 3 1 10] default_config (view_new 2) = Some (p, v') /\
    (total_cost [sample_car 3 1 10] (creates p ++ syncs p) <= budget_bytes default_config \/
     (length (creates p ++ syncs p) <= 1)%nat).
Proof.
  eexists _, _. split; [vm_compute; reflexivity|].
  eapply (tick_within_budget zero_vec zero_vec 0 [sample_car 3 1 10]
    (build [sample_car 3 1 10] (query_radius default_config)) default_config (view_new 2)).
  - cbn. apply NoDup_singleton.
  - constructor; [discriminate|constructor].
  - vm_compute. reflexivity.
Defined.

(** ** The spatial index *)

Lemma push_at_lookup {K} `{Countable K} (k k' : K) i m :
  default [] (push_at k i m !! k') = default [] (m !! k') ++ if decide (k = k') then [i] else [].
Proof.
  unfold push_at. destruct (decide (k = k')) as [<-|Hk].
  - by rewrite lookup_insert_eq.
  - by rewrite lookup_insert_ne, app_nil_r.
Qed.

(** The indices, from [i] on, of the entities in cell [c]. *)
Fixpoint indices_in (c : Z * Z) (size : f32) (i : Z) (world : list EntitySnapshot) : list Z :=
  match world with
  | [] => []
  | e :: rest => (if decide (cell_of (position e) size = c) then [i] else []) ++ indices_in c size (i + 1) rest
  end.

(** Each bucket lists, in order, the entities of its cell. *)
Lemma index_from_lookup c world size : forall i m, 0 <= i -> i + Z.of_nat (length world) <= 2 ^ 32 ->
  default [] (index_from i world size m !! c) = default [] (m !! c) ++ indices_in c size i world.
Proof.
  induction world as [|e world IH]; intros i m Hi Hlen; cbn [index_from indices_in length] in *; [by rewrite app_nil_r|].
  rewrite IH by lia. rewrite push_at_lookup, <- app_assoc. do 2 f_equal. case_decide; [|done].
  f_equal. apply Z.mod_small. lia.
Qed.

Lemma indices_in_spec c size world : forall i j, j ∈ indices_in c size i world <->
  exists k e, world !! k = Some e /\ j = i + Z.of_nat k /\ cell_of (position e) size = c.
Proof.
  induction world as [|e world IH]; intros i j; cbn [indices_in].
  - rewrite elem_of_nil. split; [done|]. by intros (k & e & Hk & _).
  - rewrite elem_of_app, IH. split.
    + intros [Hj|(k & e' & Hk & -> & Hc)].
      * destruct (decide (cell_of (position e) size = c)) as [Hc|_]; [|by apply elem_of_nil in Hj].
        apply list_elem_of_singleton in Hj as ->. exists 0%nat, e. split_and!; [done|lia|done].
      * exists (S k), e'. split_and!; [done|lia|done].
    + intros ([|k] & e' & Hk & -> & Hc); cbn in Hk.
      * injection Hk as ->. left. rewrite decide_True by done. apply list_elem_of_singleton. lia.
      * right. exists k, e'. split_and!; [done|lia|done].
Qed.

Lemma elem_of_block c c' : c' ∈ block c <-> exists dx dy, -1 <= dx <= 1 /\ -1 <= dy <= 1 /\
  c' = (i32 (c.1 + dx), i32 (c.2 + dy)).
Proof.
  unfold block. rewrite list_elem_of_bind. split.
  - intros (dx & (dy & -> & Hy)%list_elem_of_fmap & Hx). exists dx, dy.
    rewrite !elem_of_cons, elem_of_nil in Hx, Hy. split_and!; [lia..|done].
  - intros (dx & dy & Hx & Hy & ->). exists dx. rewrite list_elem_of_fmap, !elem_of_cons, elem_of_nil.
    split; [|lia]. exists dy. rewrite !elem_of_cons, elem_of_nil. split; [done|lia].
Qed.

(** the neighbourhood query visits exactly the entities of the nine cells
    around the focus. *)
Theorem near_exact world radius focus i :
  Z.of_nat (length world) < 2 ^ 32 ->
  let size := f32_max radius f32_one in
  i ∈ near (build world radius) focus <->
  exists k e, world !! k = Some e /\ i = Z.of_nat k /\
    cell_of (position e) size ∈ block (cell_of focus size).
Proof.
  intros Hlen size. unfold near, build. cbn [cells cell_size]. fold size. rewrite list_elem_of_bind.
  rewrite firstn_all2 by lia.
  assert (Hidx : forall c j, j ∈ default [] (index_from 0 world size ∅ !! c) <-> j ∈ indices_in c size 0 world)
    by (intros c j; by rewrite index_from_lookup, lookup_empty by lia).
  setoid_rewrite Hidx. setoid_rewrite indices_in_spec. split.
  - intros (c & (k & e & Hk & -> & <-) & Hc). exists k, e. split_and!; [done|lia|done].
  - intros (k & e & Hk & -> & Hc). exists (cell_of (position e) size). split; [|done].
    exists k, e. split_and!; [done|lia|done].
Qed.

Lemma near_exact_witness :
  0 ∈ near (build [sample_car 3 1 10] (query_radius default_config)) zero_vec.
Proof.
  apply (near_exact [sample_car 3 1 10] (query_radius default_config) zero_vec 0); [reflexivity|].
  exists 0%nat, (sample_car 3 1 10). split_and!; [reflexivity|reflexivity|].
  apply elem_of_block. exists 0, 0. split_and!; [lia..|]. vm_compute. reflexivity.
Defined.

(** A point a hair west of the origin, and a focus one query radius east of
    it: their distance rounds to the radius, their cells are two apart. *)
Definition hair_west : EntitySnapshot := {|
  object_id := 5; uniqifier := 9; owner := 1; position := (S754_finite true 8388608 (-53), f32_zero, f32_zero);
  velocity := zero_vec; entity_type := Automobile; routing_bucket := 0; frame_index := 1; data_len := 40 |}.

(** the index can miss an entity that passes the tick's own radius test:
    with the default configuration, an entity in scope at [x = -2^-30] is
    within the retained radius of a focus at [x = 444], where the query
    returns nothing. *)
Theorem index_misses_relevant :
  let focus := (f32_of_Z 444, f32_zero, f32_zero) in
  outside_aoi default_config true hair_west focus = false /\
  near (build [hair_west] (query_radius default_config)) focus = [].
Proof. vm_compute. auto. Qed.
