(* ===== verification/GameState.v ===== *)
(** * Server-authoritative game state (src/crates/baston-zone/src/onesync/mod.rs)

    The entity registry, the object-id allocator, the clients and their views.
    An operation whose Rust body indexes the id table is [None] where that
    index would panic; the invariant of the registry shows it never does.

    Where the source iterates a hash map and the order can be seen, the
    operation takes the iteration as an argument and the theorems hold for
    every permutation of the map's entries.  Tracing is left out. *)

From S2P Require Import Prelude F32 ObjectIds Reliability Clone SyncTrees SyncParse SyncWrite RoutingBucket InterestNg Packet.

Definition MAX_OBJECT_ID_NATIVE : Z := 8191.
Definition MAX_OBJECT_ID_BEYOND : Z := 65534.

Definition squared_distance (a b : vec3) : f32 :=
  let '(a0, a1, a2) := a in
  let '(b0, b1, b2) := b in
  let dx := f32_sub a0 b0 in let dy := f32_sub a1 b1 in let dz := f32_sub a2 b2 in
  f32_add (f32_add (f32_mul dx dx) (f32_mul dy dy)) (f32_mul dz dz).

Record ServerEntity := {
  object_id : Z; uniqifier : Z; owner : Z; entity_type : NetObjEntityType; creation_token : Z;
  data : list Z; create_data : list Z; frame_index : Z;
  position : vec3; position_known : bool; sector : Z * Z * Z; sector_position : vec3; velocity : vec3;
  routing_bucket : Z; health : option f32; max_health : option f32; armour : option f32;
  model : option Z; vehicle_seat : option (Z * Z); first_owner : Z; nodes : EntityNodeState;
  heading : option f32; desired_heading : option f32; server_owned : bool
}.

#[export] Instance rebuild_ServerEntity : Rebuild ServerEntity := fun e => {|
  object_id := object_id e; uniqifier := uniqifier e; owner := owner e; entity_type := entity_type e;
  creation_token := creation_token e; data := data e; create_data := create_data e;
  frame_index := frame_index e; position := position e; position_known := position_known e;
  sector := sector e; sector_position := sector_position e; velocity := velocity e;
  routing_bucket := routing_bucket e; health := health e; max_health := max_health e;
  armour := armour e; model := model e; vehicle_seat := vehicle_seat e; first_owner := first_owner e;
  nodes := nodes e; heading := heading e; desired_heading := desired_heading e;
  server_owned := server_owned e |}.

(** [if let Some(v) = incoming { f(self, v) }] *)
Definition if_some {A B} (incoming : option A) (f : B -> A -> B) (self : B) : B :=
  match incoming with Some v => f self v | None => self end.

Definition apply_sync_data (decoded : SyncNodeData) (self : ServerEntity) : ServerEntity :=
  let position_changed := is_some (SyncParse.sector decoded) || is_some (SyncParse.sector_position decoded) in
  let self := if_some (SyncParse.sector decoded) (fun e v => e <| sector := v |>) self in
  let self := if_some (SyncParse.sector_position decoded) (fun e v => e <| sector_position := v |>) self in
  let self := if position_changed
    then self <| position := world_position (sector self) (sector_position self) |> <| position_known := true |>
    else self in
  let self := if_some (SyncParse.velocity decoded) (fun e v => e <| velocity := v |>) self in
  let self := if_some (SyncParse.health decoded) (fun e v => e <| health := Some v |>) self in
  let self := if_some (SyncParse.max_health decoded) (fun e v => e <| max_health := Some v |>) self in
  let self := if_some (SyncParse.armour decoded) (fun e v => e <| armour := Some v |>) self in
  let self := if_some (SyncParse.model decoded) (fun e v => e <| model := Some v |>) self in
  let self := if_some (SyncParse.vehicle_seat decoded) (fun e v => e <| vehicle_seat := Some v |>) self in
  let self := if_some (SyncParse.heading decoded) (fun e v => e <| heading := Some v |>) self in
  let self := if_some (SyncParse.desired_heading decoded) (fun e v => e <| desired_heading := Some v |>) self in
  self <| nodes := merge (nodes self) decoded |>.

Record ClientState := { leased : list Z; cl_frame_index : Z; ack_ts : Z; view : ClientView }.

#[export] Instance rebuild_ClientState : Rebuild ClientState := fun c => {|
  leased := leased c; cl_frame_index := cl_frame_index c; ack_ts := ack_ts c; view := view c |}.

Definition client_new (net_id : Z) : ClientState :=
  {| leased := []; cl_frame_index := 0; ack_ts := 0; view := view_new net_id |}.

Inductive IdState := Free | Leased | Used.

#[export] Instance IdState_eq_dec : EqDecision IdState.
Proof. solve_decision. Defined.

Record ServerGameState := {
  entities : gmap Z ServerEntity; clients : gmap Z ClientState; ids : list IdState;
  max_object_id : Z; big_mode : bool; gs_length_hack : bool; build : GameBuild;
  gs_frame_index : Z; gs_creation_token : Z; routing_buckets : RegistryState
}.

#[export] Instance rebuild_ServerGameState : Rebuild ServerGameState := fun g => {|
  entities := entities g; clients := clients g; ids := ids g; max_object_id := max_object_id g;
  big_mode := big_mode g; gs_length_hack := gs_length_hack g; build := build g;
  gs_frame_index := gs_frame_index g; gs_creation_token := gs_creation_token g;
  routing_buckets := routing_buckets g |}.

Definition with_build (big_mode length_hack : bool) (build : GameBuild) : ServerGameState :=
  let max_object_id := if length_hack then MAX_OBJECT_ID_BEYOND else MAX_OBJECT_ID_NATIVE in
  {| entities := ∅; clients := ∅; ids := replicate (Z.to_nat (max_object_id + 1)) Free;
     max_object_id := max_object_id; big_mode := big_mode; gs_length_hack := length_hack; build := build;
     gs_frame_index := 1; gs_creation_token := 0; routing_buckets := registry_default |}.

Definition game_new (big_mode length_hack : bool) : ServerGameState :=
  with_build big_mode length_hack default_build.

(** [self.ids[id]] and its assignment: [None] is the index panic. *)
Definition id_state (g : ServerGameState) (id : Z) : option IdState := ids g !! Z.to_nat id.

Definition set_id (id : Z) (s : IdState) (g : ServerGameState) : option ServerGameState :=
  match id_state g id with
  | None => None
  | Some _ => Some (g <| ids := <[Z.to_nat id := s]> (ids g) |>)
  end.

(** ** Queries *)

Definition entity (g : ServerGameState) (id : Z) : option ServerEntity := entities g !! id.
Definition entity_count (g : ServerGameState) : nat := size (entities g).
Definition entity_values (g : ServerGameState) : list ServerEntity := (map_to_list (entities g)).*2.
Definition server_owned_count (g : ServerGameState) : nat := length (List.filter server_owned (entity_values g)).
Definition owned_by (source : Z) (g : ServerGameState) : nat :=
  length (List.filter (fun e => owner e =? source) (entity_values g)).
Definition client_scope_len (source : Z) (g : ServerGameState) : option nat :=
  (fun c => scope_len (view c)) <$> clients g !! source.
Definition client_frame_index (source : Z) (g : ServerGameState) : option Z :=
  cl_frame_index <$> clients g !! source.

Record ObjectIdUsage := { usage_used : Z; usage_leased : Z; usage_free : Z; usage_max : Z }.

Definition count_state (s : IdState) (l : list IdState) : Z :=
  Z.of_nat (length (List.filter (fun x => bool_decide (x = s)) l)).

(** The counters are [u32]: the subtraction wraps if they exceed [max]. *)
Definition object_id_usage (g : ServerGameState) : ObjectIdUsage :=
  let slots := drop 1 (take (Z.to_nat (max_object_id g + 1)) (ids g)) in
  let used := count_state Used slots in
  let leased := count_state Leased slots in
  {| usage_used := used; usage_leased := leased; usage_free := u32 (max_object_id g - used - leased);
     usage_max := max_object_id g |}.

Definition client_sources (g : ServerGameState) : list Z := (map_to_list (clients g)).*1.
Definition entity_ids (g : ServerGameState) : list Z := sort_by Z.leb ((map_to_list (entities g)).*1).
Definition ids_per_request (g : ServerGameState) : Z := ObjectIds.ids_per_request (big_mode g).

Definition snapshot_of (e : ServerEntity) : EntitySnapshot := {|
  InterestNg.object_id := object_id e; InterestNg.uniqifier := uniqifier e; InterestNg.owner := owner e;
  InterestNg.position := position e; InterestNg.velocity := velocity e; InterestNg.entity_type := entity_type e;
  InterestNg.routing_bucket := routing_bucket e; InterestNg.frame_index := frame_index e;
  InterestNg.data_len := Z.of_nat (length (data e)) |}.

Definition world_snapshot (g : ServerGameState) : list EntitySnapshot :=
  sort_by (fun a b => InterestNg.object_id a <=? InterestNg.object_id b)
    (snapshot_of <$> List.filter (fun e => position_known e && negb (owner e =? 0)) (entity_values g)).

(** ** Simple updates *)

Definition alter_entity (id : Z) (f : ServerEntity -> ServerEntity) (g : ServerGameState) : ServerGameState :=
  g <| entities := alter f id (entities g) |>.

Definition set_player_routing_bucket (source bucket : Z) (g : ServerGameState) : ServerGameState :=
  g <| routing_buckets := set_player_bucket source bucket (routing_buckets g) |>.

Definition set_entity_routing_bucket (id bucket : Z) (g : ServerGameState) : ServerGameState :=
  alter_entity id (fun e => e <| routing_bucket := bucket |>)
    (g <| routing_buckets := set_entity_bucket id bucket (routing_buckets g) |>).

Definition set_routing_bucket_lockdown (bucket : Z) (mode : LockdownMode) (g : ServerGameState) : ServerGameState :=
  g <| routing_buckets := set_lockdown bucket mode (routing_buckets g) |>.

Definition set_routing_bucket_population_enabled (bucket : Z) (enabled : bool) (g : ServerGameState) : ServerGameState :=
  g <| routing_buckets := set_population_enabled bucket enabled (routing_buckets g) |>.

Definition game_tick (g : ServerGameState) : ServerGameState :=
  g <| gs_frame_index := u64 (gs_frame_index g + 1) |>.

Definition set_entity_position (id : Z) (p : vec3) (g : ServerGameState) : ServerGameState :=
  alter_entity id (fun e => e <| position := p |> <| position_known := true |>) g.

Definition set_entity_velocity (id : Z) (v : vec3) (g : ServerGameState) : ServerGameState :=
  alter_entity id (fun e => e <| velocity := v |>) g.

Definition is_player (e : ServerEntity) : bool := bool_decide (entity_type e = Player).

Definition seed_unknown_player_positions (focus : gmap Z vec3) (g : ServerGameState) : ServerGameState :=
  g <| entities := (fun e =>
    if is_player e && negb (position_known e) then
      match focus !! owner e with
      | Some pos => e <| position := pos |> <| position_known := true |>
      | None => e
      end
    else e) <$> entities g |>.

(** [self.clients.entry(source).or_insert_with(..)] then a change of it. *)
Definition with_client (source : Z) (f : ClientState -> ClientState) (g : ServerGameState) : ServerGameState :=
  g <| clients := <[source := f (default (client_new (u16 source)) (clients g !! source))]> (clients g) |>.

Definition add_client (source : Z) (g : ServerGameState) : ServerGameState := with_client source id g.

(** ** Object ids *)

(** The scan of [lease_object_ids] over the candidate ids. *)
Fixpoint lease_scan (n : nat) (candidates : list Z) (g : ServerGameState) : option (list Z * ServerGameState) :=
  match n, candidates with
  | O, _ | _, [] => Some ([], g)
  | S n', id :: rest =>
      match id_state g id with
      | None => None
      | Some Free =>
          match set_id id Leased g with
          | None => None
          | Some g' =>
              match lease_scan n' rest g' with
              | None => None
              | Some (ids, g'') => Some (id :: ids, g'')
              end
          end
      | Some _ => lease_scan n rest g
      end
  end.

Definition lease_object_ids (source : Z) (n : nat) (g : ServerGameState) : option ((list Z * list Z) * ServerGameState) :=
  match lease_scan n (seqZ 1 (max_object_id g - 1)) g with
  | None => None
  | Some (ids, g') =>
      Some ((ids, build_object_ids ids), with_client source (fun c => c <| leased := leased c ++ ids |>) g')
  end.

(** The downward scan: [id], [id - 1], ... until 0. *)
Fixpoint allocate_from (fuel : nat) (id : Z) (g : ServerGameState) : option (option Z) :=
  match fuel with
  | O => Some None
  | S fuel' =>
      match id_state g id with
      | None => None
      | Some Free => Some (Some id)
      | Some _ => allocate_from fuel' (id - 1) g
      end
  end.

Definition allocate_server_object_id (g : ServerGameState) : option (option Z) :=
  allocate_from (Z.to_nat (max_object_id g)) (max_object_id g) g.

(** ** Server-authored entities *)

Section spawn.
Context `{Libm}.

Definition authored_nodes (ty : NetObjEntityType) (mdl : Z) (p : vec3) (hd : f32) (dynamic : bool) (token : Z) : AuthoredNodes :=
  match ty with
  | Ped | Player => author_ped mdl p hd
  | _ => if is_vehicle ty then author_vehicle mdl p hd token else author_object mdl p hd dynamic
  end.

(** [None] panics; [Some (created, g')] otherwise. *)
Definition spawn_server_entity_with_id (id : Z) (ty : NetObjEntityType) (mdl : Z) (p : vec3) (hd : f32)
    (dynamic : bool) (g : ServerGameState) : option (bool * ServerGameState) :=
  if (id =? 0) || (max_object_id g <? id) then Some (false, g)
  else
    match id_state g id with
    | None => None
    | Some Free =>
        let g := g <| gs_creation_token := u32 (gs_creation_token g + 1) |> in
        let token := gs_creation_token g in
        match write_sync_tree ty true (gs_length_hack g) (build g) (authored_nodes ty mdl p hd dynamic token) with
        | None => Some (false, g)
        | Some payload =>
            let '(sec, offset) := sector_of p in
            match set_id id Used g with
            | None => None
            | Some g =>
                Some (true, g <| entities := <[id := {|
                  object_id := id; uniqifier := u16 token; owner := 0; entity_type := ty;
                  creation_token := token; create_data := payload; data := [];
                  frame_index := gs_frame_index g; position := p; position_known := true;
                  sector := sec; sector_position := offset; velocity := zero_vec; routing_bucket := 0;
                  health := None; max_health := None; armour := None; model := Some mdl;
                  vehicle_seat := None; first_owner := 0; nodes := EntityNodeState_default;
                  heading := Some hd; desired_heading := None; server_owned := true |}]> (entities g) |>)
            end
        end
    | Some _ => Some (false, g)
    end.

Definition spawn_server_entity (ty : NetObjEntityType) (mdl : Z) (p : vec3) (hd : f32) (dynamic : bool)
    (g : ServerGameState) : option (option Z * ServerGameState) :=
  match allocate_server_object_id g with
  | None => None
  | Some None => Some (None, g)
  | Some (Some id) =>
      match spawn_server_entity_with_id id ty mdl p hd dynamic g with
      | None => None
      | Some (created, g') => Some (if created then Some id else None, g')
      end
  end.
End spawn.

Definition forget_entity (id : Z) (g : ServerGameState) : option ServerGameState :=
  match set_id id Free (g <| entities := delete id (entities g) |>) with
  | None => None
  | Some g' => Some (g' <| routing_buckets := remove_entity id (routing_buckets g') |>)
  end.

Definition despawn_entity (id : Z) (g : ServerGameState) : option (bool * ServerGameState) :=
  match entities g !! id with
  | None => Some (false, g)
  | Some _ => match forget_entity id g with None => None | Some g' => Some (true, g') end
  end.

(** ** Ownership *)

Definition nearest_cmp (p : vec3) (a b : Z * vec3) : comparison :=
  f32_total_cmp (squared_distance a.2 p) (squared_distance b.2 p).

(** [values] is the iteration of [self.entities.values()]. *)
Definition players_of (values : list ServerEntity) : list (Z * vec3) :=
  (fun e => (owner e, position e)) <$> List.filter (fun e => is_player e && position_known e) values.

Definition adopt (players : list (Z * vec3)) (e : ServerEntity) : ServerEntity :=
  if negb (server_owned e) || negb (owner e =? 0) then e
  else match min_by (nearest_cmp (position e)) players with
       | Some (source, _) => e <| owner := source |>
       | None => e
       end.

Definition reassign_ownerless_server_entities (values : list ServerEntity) (g : ServerGameState) : ServerGameState :=
  match players_of values with
  | [] => g
  | players => g <| entities := adopt players <$> entities g |>
  end.

(** The release of one leased id of a leaving client. *)
Definition release_lease (acc : option ServerGameState) (id : Z) : option ServerGameState :=
  match acc with
  | None => None
  | Some g =>
      match id_state g id with
      | None => None
      | Some Leased => set_id id Free g
      | Some _ => Some g
      end
  end.

(** One orphan of the leaving client. *)
Definition drop_orphan (acc : option ServerGameState) (id : Z) : option ServerGameState :=
  match acc with
  | None => None
  | Some g =>
      match entities g !! id with
      | Some e =>
          if server_owned e then Some (alter_entity id (fun e => e <| owner := 0 |>) g)
          else forget_entity id g
      | None => forget_entity id g
      end
  end.

(** [entries] is the iteration of [&self.entities]. *)
Definition remove_client (source : Z) (entries : list (Z * ServerEntity)) (g : ServerGameState) : option (list Z * ServerGameState) :=
  let g0 :=
    match clients g !! source with
    | None => Some g
    | Some state => foldl release_lease (Some (g <| clients := delete source (clients g) |>)) (leased state)
    end in
  let orphaned := (List.filter (fun kv => owner kv.2 =? source) entries).*1 in
  match foldl drop_orphan g0 orphaned with
  | None => None
  | Some g' => Some (orphaned, g' <| routing_buckets := remove_player source (routing_buckets g') |>)
  end.

(** The viewpoint of each client; a client owning several placed player
    entities gets the one iterated last. *)
Definition client_focus_map (values : list ServerEntity) : gmap Z (vec3 * vec3) :=
  foldl (fun focus e => if is_player e && position_known e
                        then <[owner e := (position e, velocity e)]> focus else focus) ∅ values.

(** ** The outbound tick *)

Section outbound.
Context `{Lz4}.

(** The body of the record loops: the clone to write for one id, if any. *)
Definition plan_clone (g : ServerGameState) (v : ClientView) (ty : Z) (id : Z) : option OutboundClone :=
  match entities g !! id with
  | None => None
  | Some e =>
      let base := default 0 (base_frame id v) in
      let clone blob := {|
        sync_type := ty; oc_object_id := object_id e; owner_net_id := u16 (owner e);
        oc_entity_type := if ty =? rec.CREATE then Some (entity_type e) else None;
        oc_creation_token := creation_token e; oc_uniqifier := uniqifier e;
        dependent_frame_index := base; oc_timestamp := u32 (gs_frame_index g);
        first_frame_update := false; oc_data := blob |} in
      if ty =? rec.CREATE then Some (clone (create_data e))
      else if (length (data e) =? 0)%nat then None
      else Some (clone (data e))
  end.

Definition encode_ids (g : ServerGameState) (v : ClientView) (ty : Z) (ids : list Z) (w : PackedWriter) : PackedWriter :=
  foldl (fun w id =>
    match plan_clone g v ty id with
    | None => w
    | Some clone => write_clone (gs_frame_index g) clone w
    end) w ids.

Definition encode_plan (g : ServerGameState) (v : ClientView) (p : TickPlan) : list (list Z) :=
  match creates p, syncs p, removes p with
  | [], [], [] => []
  | _, _, _ =>
      let w := pw_new MSG_PACKED_CLONES (gs_frame_index g) (gs_length_hack g) in
      let w := encode_ids g v rec.CREATE (creates p) w in
      let w := encode_ids g v rec.SYNC (syncs p) w in
      let w := foldl (fun w '(id, uniq) => write_remove false id uniq w) w (removes p) in
      finish w
  end.

Definition tick_client (source : Z) (focus : vec3) (cfg : InterestConfig) (g : ServerGameState)
    : option (list (list Z) * ServerGameState) :=
  let world := world_snapshot g in
  let index := InterestNg.build world (query_radius cfg) in
  match clients g !! source with
  | None => Some ([], g)
  | Some state =>
      match tick_with_context focus zero_vec (player_bucket (routing_buckets g) source) world index cfg (view state) with
      | None => None
      | Some (p, v') =>
          Some (encode_plan g v' p, g <| clients := <[source := state <| view := v' |>]> (clients g) |>)
      end
  end.

(** One client's share of the batch tick: what the parallel map computes for
    it.  The closures share only the immutable snapshot. *)
Definition plan_for (g : ServerGameState) (focus : gmap Z (vec3 * vec3)) (fallback : gmap Z vec3)
    (cfg : InterestConfig) (world : list EntitySnapshot) (index : SpatialIndex) (client : Z * ClientState)
    : option (Z * TickPlan * ClientState) :=
  let '(source, state) := client in
  let '(client_focus, client_velocity) :=
    default (default zero_vec (fallback !! source), zero_vec) (focus !! source) in
  match tick_with_context client_focus client_velocity (player_bucket (routing_buckets g) source)
          world index cfg (view state) with
  | None => None
  | Some (p, v') => Some (source, p, state <| view := v' |>)
  end.

(** [values] is the iteration of the entities, [cs] that of the clients. *)
Definition tick_clients (values : list ServerEntity) (cs : list (Z * ClientState)) (fallback : gmap Z vec3)
    (cfg : InterestConfig) (g : ServerGameState) : option (list (Z * list (list Z)) * ServerGameState) :=
  let world := world_snapshot g in
  let index := InterestNg.build world (query_radius cfg) in
  let focus := client_focus_map values in
  match mapM (plan_for g focus fallback cfg world index) cs with
  | None => None
  | Some plans =>
      let plans := sort_by (fun a b => a.1.1 <=? b.1.1) plans in
      let g' := g <| clients := list_to_map ((fun t => (t.1.1, t.2)) <$> plans) |> in
      Some (List.filter (fun t => negb (length t.2 =? 0)%nat)
              ((fun t => (t.1.1, encode_plan g (view t.2) t.1.2)) <$> plans), g')
  end.

End outbound.

(** ** Client feedback *)

Definition with_view (source : Z) (f : ClientView -> ClientView) (g : ServerGameState) : ServerGameState :=
  match clients g !! source with
  | None => g
  | Some state => g <| clients := <[source := state <| view := f (view state) |>]> (clients g) |>
  end.

Definition honour_lists (ignore_list : list IgnoreEntry) (recreate_list : list Z) (v : ClientView) : ClientView :=
  let v := foldl (fun v e => rollback (Reliability.object_id e) (last_frame e) false v) v ignore_list in
  foldl (fun v id => force_recreate id v) v recreate_list.

Definition apply_nack (source : Z) (nack : GameStateNAck) : ServerGameState -> ServerGameState :=
  with_view source (fun v =>
    let v := match missing_frames nack with
             | Some (first, _) => rollback_all (Z.max (first - 1) 0) v
             | None => v
             end in
    honour_lists (nack_ignore_list nack) (nack_recreate_list nack) v).

Definition apply_ack (source : Z) (ack : GameStateAck) : ServerGameState -> ServerGameState :=
  with_view source (fun v =>
    honour_lists (ack_ignore_list ack) (ack_recreate_list ack) (ack_frame (ack_frame_index ack) v)).

(** ** The invariant of the registry *)

Definition in_range (g : ServerGameState) (id : Z) : Prop := 0 <= id <= max_object_id g.

(** An object id is used exactly when an entity lives under it; every index
    the code can form is inside the id table. *)
Record game_ok (g : ServerGameState) : Prop := {
  ok_mode : max_object_id g = if gs_length_hack g then MAX_OBJECT_ID_BEYOND else MAX_OBJECT_ID_NATIVE;
  ok_size : length (ids g) = Z.to_nat (max_object_id g + 1);
  ok_entity : forall id e, entities g !! id = Some e -> object_id e = id /\ in_range g id;
  ok_used : forall id, in_range g id -> id_state g id = Some Used <-> is_Some (entities g !! id);
  ok_leased : forall s c, clients g !! s = Some c -> Forall (in_range g) (leased c)
}.

Lemma max_positive g : game_ok g -> 0 < max_object_id g < 65535.
Proof. intros [-> _ _ _ _]. by destruct (gs_length_hack g). Qed.

Lemma id_state_in_range g id : game_ok g -> in_range g id -> is_Some (id_state g id).
Proof. intros [_ Hs _ _ _] Hi. apply lookup_lt_is_Some. rewrite Hs. unfold in_range in Hi. lia. Qed.

(** Writing the table and reading it back. *)
Lemma set_id_some g id s : game_ok g -> in_range g id ->
  set_id id s g = Some (g <| ids := <[Z.to_nat id := s]> (ids g) |>).
Proof. intros Hg Hi. unfold set_id. by destruct (id_state_in_range g id Hg Hi) as [? ->]. Qed.

Lemma table_lookup (l : list IdState) n s m : is_Some (l !! n) ->
  (<[n := s]> l) !! m = if decide (n = m) then Some s else l !! m.
Proof.
  intros [x Hx]. case_decide as Hd.
  - subst. apply list_lookup_insert_eq. by eapply lookup_lt_Some.
  - by apply list_lookup_insert_ne.
Qed.

Lemma id_state_write g id s id' : game_ok g -> in_range g id -> in_range g id' ->
  (<[Z.to_nat id := s]> (ids g)) !! Z.to_nat id' = if decide (id = id') then Some s else id_state g id'.
Proof.
  intros Hg Hi Hi'. rewrite table_lookup by by apply id_state_in_range.
  unfold in_range in *. repeat case_decide; (done || lia).
Qed.

(** Changes that keep the identity of every entity and every id. *)
Record reshaped (g g' : ServerGameState) : Prop := {
  re_max : max_object_id g' = max_object_id g;
  re_hack : gs_length_hack g' = gs_length_hack g;
  re_ids : ids g' = ids g;
  re_domain : forall id, is_Some (entities g' !! id) <-> is_Some (entities g !! id);
  re_entity : forall id e', entities g' !! id = Some e' ->
                exists e, entities g !! id = Some e /\ object_id e' = object_id e;
  re_leased : forall s c', clients g' !! s = Some c' ->
                leased c' = [] \/ exists c, clients g !! s = Some c /\ leased c' = leased c
}.

Lemma reshaped_ok g g' : reshaped g g' -> game_ok g -> game_ok g'.
Proof.
  intros [Hm Hh Hi Hd He Hl] [H1 H2 H3 H4 H5]. unfold in_range, id_state in *. split; unfold in_range, id_state; rewrite ?Hm, ?Hh, ?Hi; try done.
  - intros id e' Hx. destruct (He id e' Hx) as (e & Hy & ->). by apply H3.
  - intros id Hr. rewrite Hd. by apply H4.
  - intros s c' Hc. destruct (Hl s c' Hc) as [->|(c & Hx & ->)]; [done|].
    by eapply H5.
Qed.

(** Rewriting entities in place. *)
Lemma reshaped_entities g g' : max_object_id g' = max_object_id g -> gs_length_hack g' = gs_length_hack g ->
  ids g' = ids g -> clients g' = clients g ->
  (forall id, entities g' !! id = None /\ entities g !! id = None \/
     exists e e', entities g !! id = Some e /\ entities g' !! id = Some e' /\ object_id e' = object_id e) ->
  reshaped g g'.
Proof.
  intros Hm Hh Hi Hc He. split; try done.
  - intros id. destruct (He id) as [[-> ->]|(e & e' & -> & -> & _)]; [done|]. split; by eexists.
  - intros id e' Hx. destruct (He id) as [[Hn _]|(e & e'' & -> & Hy & Ho)]; [congruence|].
    exists e. split; [done|]. congruence.
  - intros s c Hx. right. exists c. by rewrite Hc in Hx.
Qed.

Lemma alter_entity_reshaped id f g : (forall e, object_id (f e) = object_id e) -> reshaped g (alter_entity id f g).
Proof.
  intros Hf. apply reshaped_entities; [done..|]. intros id'.
  change (entities (alter_entity id f g)) with (alter f id (entities g)).
  destruct (decide (id = id')) as [<-|Hne]; rewrite ?lookup_alter_eq, ?lookup_alter_ne by done;
    destruct (entities g !! _) as [e|]; cbn; [right; exists e, (f e)|left|right; exists e, e|left]; done || auto.
Qed.

Lemma fmap_entities_reshaped f g : (forall e, object_id (f e) = object_id e) ->
  reshaped g (g <| entities := f <$> entities g |>).
Proof.
  intros Hf. apply reshaped_entities; [done..|]. intros id.
  change (entities (g <| entities := f <$> entities g |>)) with (f <$> entities g).
  rewrite lookup_fmap. destruct (entities g !! id) as [e|]; cbn; [right; by exists e, (f e)|by left].
Qed.

Lemma with_client_reshaped source f g : (forall c, leased (f c) = leased c) -> reshaped g (with_client source f g).
Proof.
  intros Hf. split; try done.
  - intros id e' Hx. by exists e'.
  - intros s c' Hx. 
    change (clients (with_client source f g)) with (<[source := f (default (client_new (u16 source)) (clients g !! source))]> (clients g)) in Hx.
    destruct (decide (source = s)) as [->|Hne].
    + rewrite lookup_insert_eq in Hx. injection Hx as <-. rewrite Hf.
      destruct (clients g !! s) as [c|]; cbn; [right; by exists c|by left].
    + rewrite lookup_insert_ne in Hx by done. right. by exists c'.
Qed.

Lemma registry_reshaped r g : reshaped g (g <| routing_buckets := r |>).
Proof. by apply reshaped_entities; try done; intros id; destruct (entities g !! id) as [e|] eqn:E; [right; exists e, e|left]. Qed.

(** One id changes state together with the entity under it. *)
Record rewritten (id : Z) (s : IdState) (oe : option ServerEntity) (g g' : ServerGameState) : Prop := {
  rw_max : max_object_id g' = max_object_id g;
  rw_hack : gs_length_hack g' = gs_length_hack g;
  rw_clients : clients g' = clients g;
  rw_ids : ids g' = <[Z.to_nat id := s]> (ids g);
  rw_entities : forall id', entities g' !! id' = if decide (id = id') then oe else entities g !! id'
}.

Lemma rewritten_ok id s oe g g' : rewritten id s oe g g' -> game_ok g -> in_range g id ->
  (s = Used <-> is_Some oe) -> (forall e, oe = Some e -> object_id e = id) -> game_ok g'.
Proof.
  intros [Hm Hh Hc Hi He] Hg Hid Hs Hoe. pose proof Hg as [H1 H2 H3 H4 H5].
  split; unfold in_range; rewrite ?Hm, ?Hh, ?Hi, ?Hc; try done.
  - by rewrite length_insert.
  - intros id' e. rewrite He. case_decide as Hd; [|apply H3]. subst. intros Hx. auto.
  - intros id' Hr. unfold id_state. rewrite Hi, He, id_state_write by done. case_decide; [|by apply H4].
    rewrite <- Hs. split; congruence.
Qed.

Lemma rewritten_state id s oe g g' id' : rewritten id s oe g g' -> game_ok g -> in_range g id -> in_range g id' ->
  id_state g' id' = if decide (id = id') then Some s else id_state g id'.
Proof. intros [_ _ _ Hi _] Hg Hid Hid'. unfold id_state at 1. rewrite Hi. by apply id_state_write. Qed.

Lemma set_id_rewritten g id s : game_ok g -> in_range g id -> s <> Used -> id_state g id <> Some Used ->
  exists g', set_id id s g = Some g' /\ rewritten id s None g g'.
Proof.
  intros Hg Hid Hs Hn. eexists. split; [by apply set_id_some|]. split; try done.
  intros id'. case_decide as Hd; [|done]. subst.
  change (entities g !! id' = None). rewrite (ok_used g Hg id' Hid) in Hn.
  destruct (entities g !! id'); [|done]. destruct Hn. by eexists.
Qed.

Lemma forget_rewritten g id : game_ok g -> in_range g id ->
  exists g', forget_entity id g = Some g' /\ rewritten id Free None g g'.
Proof.
  intros Hg Hid. unfold forget_entity, set_id.
  change (id_state (g <| entities := delete id (entities g) |>) id) with (id_state g id).
  destruct (id_state_in_range g id Hg Hid) as [x ->]. eexists. split; [done|]. split; try done.
  intros id'. change (delete id (entities g) !! id' = if decide (id = id') then None else entities g !! id').
  case_decide; [subst; apply lookup_delete_eq|by apply lookup_delete_ne].
Qed.

Lemma rewritten_empty_ok id s g g' : rewritten id s None g g' -> game_ok g -> in_range g id -> s <> Used -> game_ok g'.
Proof. intros Hr Hg Hid Hs. eapply rewritten_ok; [done..| |done]. split; [done|by intros []]. Qed.

(** *** Leases *)

Definition is_free (g : ServerGameState) (id : Z) : bool := bool_decide (id_state g id = Some Free).

Lemma not_elem_nil_state (id : Z) (x : IdState) (y : option IdState) :
  (if decide (id ∈ []) then Some x else y) = y.
Proof. rewrite decide_False; [done|apply not_elem_of_nil]. Qed.

(** The scan takes the first free candidates, and changes nothing else. *)
Lemma lease_scan_spec cands : forall n g, game_ok g -> NoDup cands -> Forall (in_range g) cands ->
  exists l g', lease_scan n cands g = Some (l, g') /\ game_ok g' /\
    clients g' = clients g /\ entities g' = entities g /\ max_object_id g' = max_object_id g /\
    gs_length_hack g' = gs_length_hack g /\
    l = take n (List.filter (is_free g) cands) /\
    (forall id, in_range g id -> id_state g' id = if decide (id ∈ l) then Some Leased else id_state g id).
Proof.
  induction cands as [|id cands IH]; intros n g Hg Hnd Hr.
  { exists [], g. destruct n; (split_and!; try done; intros; by rewrite not_elem_nil_state). }
  destruct n as [|n]; cbn [lease_scan].
  { exists [], g. split_and!; done. }
  apply NoDup_cons in Hnd as [Hx Hnd]. apply Forall_cons in Hr as [Hid Hr].
  destruct (id_state_in_range g id Hg Hid) as [x Ex]. rewrite Ex. cbn [List.filter].
  unfold is_free at 1. rewrite Ex.
  destruct x; [|rewrite bool_decide_eq_false_2 by done; by apply (IH (S n) g Hg Hnd Hr)..].
  rewrite bool_decide_eq_true_2 by done.
  destruct (set_id_rewritten g id Leased Hg Hid) as (g1 & -> & Hw); [done|congruence|].
  pose proof (rewritten_empty_ok _ _ _ _ Hw Hg Hid ltac:(done)) as Hg1.
  assert (Hr1 : Forall (in_range g1) cands).
  { eapply Forall_impl; [exact Hr|]. intros i. unfold in_range. by rewrite (rw_max _ _ _ _ _ Hw). }
  destruct (IH n g1 Hg1 Hnd Hr1) as (l & g' & -> & Hg' & Hc & He & Hm & Hh & Hl & Hst).
  exists (id :: l), g'. split_and!; [done|done| | | | | |].
  - by rewrite Hc, (rw_clients _ _ _ _ _ Hw).
  - rewrite He. apply map_eq. intros i. rewrite (rw_entities _ _ _ _ _ Hw). case_decide as Hd; [|done]. subst.
    destruct (entities g !! i) eqn:E; [|done]. exfalso.
    assert (Hu : id_state g i = Some Used) by (apply (ok_used g Hg i Hid); by eexists). congruence.
  - by rewrite Hm, (rw_max _ _ _ _ _ Hw).
  - by rewrite Hh, (rw_hack _ _ _ _ _ Hw).
  - cbn [take]. f_equal. rewrite Hl. f_equal. apply List.filter_ext_in. intros i Hi. apply list_elem_of_In in Hi.
    unfold is_free. rewrite Forall_forall in Hr.
    rewrite (rewritten_state _ _ _ _ _ i Hw Hg Hid (Hr i Hi)), decide_False; [done|]. by intros ->.
  - intros i Hi. assert (Hi1 : in_range g1 i) by (unfold in_range; by rewrite (rw_max _ _ _ _ _ Hw)).
    rewrite (Hst i Hi1), (rewritten_state _ _ _ _ _ i Hw Hg Hid Hi).
    destruct (decide (i ∈ l)) as [Hl1|Hl1]; [by rewrite decide_True by by right|].
    destruct (decide (id = i)) as [->|Hne]; [by rewrite decide_True by by left|].
    rewrite decide_False; [done|]. by intros [->|?]%elem_of_cons.
Qed.

Lemma lease_candidates g : game_ok g ->
  NoDup (seqZ 1 (max_object_id g - 1)) /\ Forall (fun id => 0 < id < max_object_id g) (seqZ 1 (max_object_id g - 1)).
Proof.
  intros Hg. split; [apply NoDup_seqZ|]. apply Forall_forall. intros id Hid%elem_of_seqZ. lia.
Qed.

Lemma lease_ok source n g : game_ok g ->
  exists l g1, lease_scan n (seqZ 1 (max_object_id g - 1)) g = Some (l, g1) /\
    lease_object_ids source n g = Some ((l, build_object_ids l), with_client source (fun c => c <| leased := leased c ++ l |>) g1) /\
    game_ok (with_client source (fun c => c <| leased := leased c ++ l |>) g1) /\
    Forall (fun id => 0 < id < max_object_id g) l.
Proof.
  intros Hg. destruct (lease_candidates g Hg) as [Hnd Hr].
  assert (Hin : Forall (in_range g) (seqZ 1 (max_object_id g - 1)))
    by (eapply Forall_impl; [exact Hr|]; intros id; unfold in_range; lia).
  destruct (lease_scan_spec _ n g Hg Hnd Hin) as (l & g1 & Hs & Hg1 & Hc & He & Hm & Hh & Hl & Hst).
  assert (Hlr : Forall (fun id => 0 < id < max_object_id g) l).
  { rewrite Hl. apply Forall_take, Forall_forall. intros id Hi. apply list_elem_of_In, filter_In in Hi as [Hi _].
    apply list_elem_of_In in Hi. rewrite Forall_forall in Hr. by apply Hr. }
  exists l, g1. split_and!; [done| | |done].
  { unfold lease_object_ids. by rewrite Hs. }
  pose proof Hg1 as [K1 K2 K3 K4 K5]. split; try done.
  intros s c. change (clients (with_client source (fun c => c <| leased := leased c ++ l |>) g1)) with
    (<[source := (fun c => c <| leased := leased c ++ l |>) (default (client_new (u16 source)) (clients g1 !! source))]> (clients g1)).
  destruct (decide (source = s)) as [->|Hne]; [rewrite lookup_insert_eq|rewrite lookup_insert_ne by done; apply K5].
  intros [= <-]. change (Forall (in_range g1) (leased (default (client_new (u16 s)) (clients g1 !! s)) ++ l)).
  apply Forall_app. split.
  - destruct (clients g1 !! s) as [c|] eqn:E; [by eapply K5|done].
  - eapply Forall_impl; [exact Hlr|]. intros id. unfold in_range. lia.
Qed.

(** *** Server ids and spawning *)

Lemma allocate_from_spec fuel : forall id g, game_ok g -> 0 <= id - Z.of_nat fuel -> id <= max_object_id g ->
  exists r, allocate_from fuel id g = Some r /\
    match r with
    | Some i => id - Z.of_nat fuel < i <= id /\ id_state g i = Some Free /\
                forall j, i < j <= id -> id_state g j <> Some Free
    | None => forall j, id - Z.of_nat fuel < j <= id -> id_state g j <> Some Free
    end.
Proof.
  induction fuel as [|fuel IH]; intros id g Hg Hlo Hhi; cbn [allocate_from].
  { exists None. split; [done|]. intros. lia. }
  destruct (id_state_in_range g id Hg) as [x Ex]; [unfold in_range; lia|]. rewrite Ex.
  destruct (decide (x = Free)) as [->|Hx].
  { exists (Some id). split_and!; [done|lia..|done|]. intros. lia. }
  destruct (IH (id - 1) g Hg) as (r & Hr & Hspec); [lia..|].
  exists r. split; [by destruct x|]. destruct r as [i|].
  - destruct Hspec as (Hi & Hf & Hj). split_and!; [lia..|done|]. intros j Hjr.
    destruct (decide (j = id)) as [->|]; [congruence|]. apply Hj. lia.
  - intros j Hj. destruct (decide (j = id)) as [->|]; [congruence|]. apply Hspec. lia.
Qed.

Section spawning.
Context `{Libm}.

(** What a spawn leaves at its id. *)
Definition spawned (id : Z) (ty : NetObjEntityType) (mdl : Z) (p : vec3) (hd : f32) (payload : list Z) (token frame : Z) : ServerEntity := {|
  object_id := id; uniqifier := u16 token; owner := 0; entity_type := ty; creation_token := token;
  create_data := payload; data := []; frame_index := frame; position := p; position_known := true;
  sector := (sector_of p).1; sector_position := (sector_of p).2; velocity := zero_vec; routing_bucket := 0;
  health := None; max_health := None; armour := None; model := Some mdl; vehicle_seat := None; first_owner := 0;
  nodes := EntityNodeState_default; heading := Some hd; desired_heading := None; server_owned := true |}.

Lemma spawn_cases id ty mdl p hd dyn g : game_ok g -> 0 <= id ->
  exists b g', spawn_server_entity_with_id id ty mdl p hd dyn g = Some (b, g') /\ game_ok g' /\
    let token := u32 (gs_creation_token g + 1) in
    if b then
      (0 < id <= max_object_id g) /\ id_state g id = Some Free /\
      exists payload, write_sync_tree ty true (gs_length_hack g) (build g)
          (authored_nodes ty mdl p hd dyn token) = Some payload /\
        rewritten id Used (Some (spawned id ty mdl p hd payload token (gs_frame_index g))) g g'
    else
      entities g' = entities g /\ ids g' = ids g /\ clients g' = clients g /\
      (0 < id <= max_object_id g -> id_state g id = Some Free ->
         write_sync_tree ty true (gs_length_hack g) (build g) (authored_nodes ty mdl p hd dyn token) = None).
Proof.
  intros Hg Hid0. unfold spawn_server_entity_with_id.
  destruct ((id =? 0) || (max_object_id g <? id)) eqn:Er; [exists false, g; split_and!; try done; lia|].
  assert (Hid : in_range g id) by (unfold in_range; lia).
  destruct (id_state_in_range g id Hg Hid) as [x Ex]. rewrite Ex.
  destruct (decide (x = Free)) as [->|Hx];
    [|exists false, g; split_and!; [by destruct x|done..|]; intros; congruence].
  set (g1 := g <| gs_creation_token := u32 (gs_creation_token g + 1) |>).
  assert (Hg1 : game_ok g1) by by destruct Hg.
  change (gs_length_hack g1) with (gs_length_hack g). change (build g1) with (build g).
  change (gs_creation_token g1) with (u32 (gs_creation_token g + 1)).
  destruct (write_sync_tree _ _ _ _ _) as [payload|] eqn:Ew; [|by exists false, g1].
  destruct (sector_of p) as [sec off] eqn:Esec. rewrite set_id_some by done.
  eexists true, _. split; [done|].
  set (g2 := g1 <| ids := <[Z.to_nat id := Used]> (ids g1) |>).
  assert (Hw : rewritten id Used (Some (spawned id ty mdl p hd payload (u32 (gs_creation_token g + 1)) (gs_frame_index g)))
    g (g2 <| entities := <[id := spawned id ty mdl p hd payload (u32 (gs_creation_token g + 1)) (gs_frame_index g)]> (entities g2) |>)).
  { split; try done. intros id'.
    change (<[id := spawned id ty mdl p hd payload (u32 (gs_creation_token g + 1)) (gs_frame_index g)]> (entities g) !! id' =
      if decide (id = id') then Some (spawned id ty mdl p hd payload (u32 (gs_creation_token g + 1)) (gs_frame_index g)) else entities g !! id').
    case_decide; [subst; apply lookup_insert_eq|by apply lookup_insert_ne]. }
  unfold spawned in Hw. rewrite Esec in Hw. split.
  - eapply rewritten_ok; [exact Hw|done..| |]; [split; by eexists|by intros e [= <-]].
  - split_and!; [lia..|done|]. exists payload. split; [done|]. unfold spawned. rewrite Esec. exact Hw.
Qed.
End spawning.

(** *** Clients leaving *)

Lemma foldl_release_spec l : forall g, game_ok g -> Forall (in_range g) l ->
  exists g', foldl release_lease (Some g) l = Some g' /\ game_ok g' /\ entities g' = entities g /\ clients g' = clients g /\
    max_object_id g' = max_object_id g /\ routing_buckets g' = routing_buckets g /\
    (forall id, in_range g id -> id_state g' id =
       if decide (id ∈ l /\ id_state g id = Some Leased) then Some Free else id_state g id).
Proof.
  induction l as [|id l IH]; intros g Hg Hr; cbn [foldl].
  { exists g. split_and!; done. }
  apply Forall_cons in Hr as [Hid Hr]. cbn [release_lease].
  destruct (id_state_in_range g id Hg Hid) as [x Ex]. rewrite Ex. destruct (decide (x = Leased)) as [->|Hx].
  - destruct (set_id_rewritten g id Free Hg Hid) as (g1 & Hset & Hw); [done|congruence|]. rewrite Hset.
    pose proof (rewritten_empty_ok _ _ _ _ Hw Hg Hid ltac:(done)) as Hg1.
    destruct (IH g1 Hg1) as (g' & Hf & Hg' & He & Hc & Hm & Hb & Hst).
    { eapply Forall_impl; [exact Hr|]. intros i. unfold in_range. by rewrite (rw_max _ _ _ _ _ Hw). }
    rewrite set_id_some in Hset by done. injection Hset as <-.
    exists g'. split_and!; [done|done| |done|done|done|]; [done|].
    intros i Hi. rewrite (Hst i) by done. rewrite (rewritten_state _ _ _ _ _ i Hw Hg Hid Hi).
    destruct (decide (id = i)) as [->|Hne].
    + rewrite decide_False by (by intros [_ ?]). rewrite decide_True; [done|]. split; [by left|done].
    + apply decide_ext. rewrite elem_of_cons. split; [intros []; auto|intros [[->|] ?]; auto; done].
  - assert (Hskip : (match x with Leased => set_id id Free g | _ => Some g end) = Some g) by by destruct x.
    rewrite Hskip. destruct (IH g Hg Hr) as (g' & -> & Hg' & He & Hc & Hm & Hb & Hst).
    exists g'. split_and!; try done. intros i Hi. rewrite (Hst i Hi). apply decide_ext. rewrite elem_of_cons.
    split; [intros []; auto|intros [[->|] ?]; auto]. congruence.
Qed.

(** What becomes of an entity when [source] leaves. *)
Definition after_leave (source : Z) (e : ServerEntity) : option ServerEntity :=
  if owner e =? source then if server_owned e then Some (e <| owner := 0 |>) else None else Some e.

Lemma drop_orphan_spec id e g : game_ok g -> entities g !! id = Some e ->
  exists g', drop_orphan (Some g) id = Some g' /\ game_ok g' /\ clients g' = clients g /\ max_object_id g' = max_object_id g /\
    (forall id', entities g' !! id' = if decide (id = id')
       then if server_owned e then Some (e <| owner := 0 |>) else None else entities g !! id') /\
    (forall id', in_range g id' -> id_state g' id' =
       if decide (id = id') then if server_owned e then Some Used else Some Free else id_state g id').
Proof.
  intros Hg He. destruct (ok_entity g Hg id e He) as [_ Hid]. cbn [drop_orphan]. rewrite He.
  assert (Hu : id_state g id = Some Used) by (apply (ok_used g Hg id Hid); by eexists).
  destruct (server_owned e).
  - eexists. split; [done|]. split_and!; [|done|done| |].
    + by eapply reshaped_ok; [apply alter_entity_reshaped|].
    + intros id'. change (alter (fun e => e <| owner := 0 |>) id (entities g) !! id' =
        if decide (id = id') then Some (e <| owner := 0 |>) else entities g !! id').
      case_decide; [subst; rewrite lookup_alter_eq, He; done|by rewrite lookup_alter_ne].
    + intros id' _. change (id_state g id' = if decide (id = id') then Some Used else id_state g id').
      case_decide; [by subst|done].
  - destruct (forget_rewritten g id Hg Hid) as (g' & -> & Hw). exists g'. split; [done|].
    split_and!; [by eapply rewritten_empty_ok|apply Hw|apply Hw|apply Hw|].
    intros id' Hi. by apply (rewritten_state _ _ _ _ _ id' Hw).
Qed.

Definition orphaned_entity (e : ServerEntity) : option ServerEntity :=
  if server_owned e then Some (e <| owner := 0 |>) else None.

Lemma foldl_orphans_spec l : forall g, game_ok g -> NoDup l -> Forall (fun id => is_Some (entities g !! id)) l ->
  exists g', foldl drop_orphan (Some g) l = Some g' /\ game_ok g' /\ clients g' = clients g /\
    max_object_id g' = max_object_id g /\
    (forall id, entities g' !! id = if decide (id ∈ l) then entities g !! id ≫= orphaned_entity else entities g !! id) /\
    (forall id, in_range g id -> id ∉ l -> id_state g' id = id_state g id) /\
    (forall id e, in_range g id -> id ∈ l -> entities g !! id = Some e -> server_owned e = false -> id_state g' id = Some Free).
Proof.
  induction l as [|id l IH]; intros g Hg Hnd Hl; cbn [foldl].
  { exists g. split_and!; try done. by intros id e _ Hx%elem_of_nil. }
  apply NoDup_cons in Hnd as [Hx Hnd]. apply Forall_cons in Hl as [[e He] Hl].
  destruct (drop_orphan_spec id e g Hg He) as (g1 & -> & Hg1 & Hc1 & Hm1 & He1 & Hs1).
  destruct (IH g1 Hg1 Hnd) as (g' & Hf & Hg' & Hc & Hm & He' & Hs' & Hf').
  { rewrite Forall_forall in Hl |- *. intros i Hi. rewrite He1, decide_False; [by apply Hl|]. by intros ->. }
  exists g'. split_and!; [done|done|by rewrite Hc|by rewrite Hm| | |].
  - intros i. rewrite He', He1. destruct (decide (i ∈ l)) as [Hil|Hil].
    + rewrite (decide_True (P := i ∈ id :: l)) by by right. rewrite decide_False; [done|]. by intros ->.
    + destruct (decide (id = i)) as [->|Hne].
      * rewrite decide_True by by left. by rewrite He.
      * rewrite decide_False; [done|]. by intros [->|?]%elem_of_cons.
  - intros i Hi Hnot. apply not_elem_of_cons in Hnot as [Hne Hnot].
    rewrite Hs', Hs1; [by rewrite decide_False by done|done| |done]. unfold in_range in *. lia.
  - intros i e' Hi Hil Hei Hno. assert (Hi1 : in_range g1 i) by (unfold in_range in *; lia).
    destruct (decide (id = i)) as [->|Hne].
    + rewrite Hs' by done. rewrite Hs1 by done. rewrite decide_True by done.
      rewrite He in Hei. injection Hei as ->. by rewrite Hno.
    + apply elem_of_cons in Hil as [->|Hil]; [done|]. eapply Hf'; [done|done| |exact Hno].
      by rewrite He1, decide_False.
Qed.

(** The entries a client orphans, in the order of any iteration. *)
Lemma orphans_facts source g entries : entries ≡ₚ map_to_list (entities g) ->
  let l := (List.filter (fun kv => owner kv.2 =? source) entries).*1 in
  NoDup l /\ forall id, id ∈ l <-> exists e, entities g !! id = Some e /\ owner e = source.
Proof.
  intros Hp l. split.
  - assert (Hn : NoDup (entries.*1)) by (rewrite Hp; apply NoDup_fst_map_to_list). subst l. clear Hp.
    induction entries as [|kv entries IH]; cbn in *; [constructor|].
    apply NoDup_cons in Hn as [Hk Hn]. destruct (owner kv.2 =? source); [|by apply IH].
    cbn. constructor; [|by apply IH]. intros Hin. apply Hk.
    apply list_elem_of_fmap in Hin as (kv' & -> & Hin). apply list_elem_of_fmap. exists kv'. split; [done|].
    apply list_elem_of_In in Hin. apply list_elem_of_In. by eapply filter_In.
  - intros id. subst l. rewrite list_elem_of_fmap. split.
    + intros ([k e] & -> & Hin). apply list_elem_of_In, filter_In in Hin as [Hin Ho].
      apply list_elem_of_In in Hin. rewrite Hp, elem_of_map_to_list in Hin. exists e. split; [done|]. by apply Z.eqb_eq.
    + intros (e & He & Ho). exists (id, e). split; [done|]. apply list_elem_of_In, filter_In.
      rewrite <- list_elem_of_In, Hp, elem_of_map_to_list. split; [done|]. by apply Z.eqb_eq.
Qed.

Definition leases_of (g : ServerGameState) (source : Z) : list Z := default [] (leased <$> clients g !! source).

Lemma remove_client_spec source entries g : game_ok g -> entries ≡ₚ map_to_list (entities g) ->
  exists l g', remove_client source entries g = Some (l, g') /\ game_ok g' /\
    clients g' = delete source (clients g) /\
    (forall id, id ∈ l <-> exists e, entities g !! id = Some e /\ owner e = source) /\
    (forall id, entities g' !! id = entities g !! id ≫= after_leave source) /\
    (forall id, in_range g id -> id_state g id <> Some Used -> id_state g' id =
       if decide (id ∈ leases_of g source /\ id_state g id = Some Leased) then Some Free else id_state g id) /\
    max_object_id g' = max_object_id g /\
    (forall id e, entities g !! id = Some e -> after_leave source e = None -> id_state g' id = Some Free).
Proof.
  intros Hg Hp. unfold remove_client. destruct (orphans_facts source g entries Hp) as [Hnd Hor].
  set (l := (List.filter _ entries).*1) in *.
  set (g1 := g <| clients := delete source (clients g) |>).
  assert (Hstart : exists g2, (match clients g !! source with None => Some g
      | Some state => foldl release_lease (Some g1) (leased state) end) = Some g2 /\ game_ok g2 /\
    entities g2 = entities g /\ clients g2 = delete source (clients g) /\ max_object_id g2 = max_object_id g /\
    (forall id, in_range g id -> id_state g2 id =
       if decide (id ∈ leases_of g source /\ id_state g id = Some Leased) then Some Free else id_state g id)).
  { unfold leases_of. destruct (clients g !! source) as [c|] eqn:Ec; cbn [default fmap option_fmap option_map].
    - assert (Hg1 : game_ok g1).
      { apply (reshaped_ok g); [|done]. split; try done; [by intros id e Hx; exists e|].
        intros s c'. change (delete source (clients g) !! s = Some c' -> leased c' = [] \/ exists c0, clients g !! s = Some c0 /\ leased c' = leased c0).
        intros [_ Hx]%lookup_delete_Some. right. by exists c'. }
      destruct (foldl_release_spec (leased c) g1 Hg1) as (g2 & H1 & H2 & H3 & H4 & H5 & _ & H6).
      { exact (ok_leased g Hg source c Ec). }
      exists g2. by split_and!.
    - exists g. split_and!; try done. by rewrite delete_id. }
  destruct Hstart as (g2 & Heq & Hg2 & He2 & Hc2 & Hm2 & Hs2). rewrite Heq. clear Heq.
  destruct (foldl_orphans_spec l g2 Hg2 Hnd) as (g3 & -> & Hg3 & Hc3 & Hm3 & He3 & Hs3 & Hf3).
  { rewrite Forall_forall. intros id Hi. apply Hor in Hi as (e & He & _). rewrite He2, He. by eexists. }
  eexists l, _. split; [done|]. split_and!; [|exact (eq_trans Hc3 Hc2)|exact Hor| | |exact (eq_trans Hm3 Hm2)|].
  - by apply (reshaped_ok g3); [apply registry_reshaped|].
  - intros id. change (entities g3 !! id = entities g !! id ≫= after_leave source). rewrite He3, He2.
    destruct (entities g !! id) as [e|] eqn:E; cbn [mbind option_bind]; [|by destruct (decide (id ∈ l))].
    unfold after_leave. destruct (Z.eqb_spec (owner e) source) as [Ho|Ho].
    + rewrite decide_True; [done|]. apply Hor. by exists e.
    + rewrite decide_False; [done|]. intros (e' & He' & Ho')%Hor. congruence.
  - intros id Hi Hu. change (id_state g3 id = if decide (id ∈ leases_of g source /\ id_state g id = Some Leased) then Some Free else id_state g id).
    rewrite <- Hs2 by done. apply Hs3; [unfold in_range in *; lia|].
    intros (e & He & _)%Hor. apply Hu, (ok_used g Hg id Hi). by eexists.
  - intros id e He Hgone. change (id_state g3 id = Some Free). destruct (ok_entity g Hg id e He) as [_ Hi].
    unfold after_leave in Hgone. destruct (Z.eqb_spec (owner e) source) as [Ho|]; [|done].
    apply (Hf3 id e); [unfold in_range in *; lia|apply Hor; by exists e|by rewrite He2|].
    by destruct (server_owned e).
Qed.

(** *** Ownerless server entities *)

Lemma players_of_empty values g : reassign_ownerless_server_entities values g =
  g <| entities := adopt (players_of values) <$> entities g |>.
Proof.
  unfold reassign_ownerless_server_entities. destruct (players_of values) eqn:E; [|done].
  assert (Ha : forall e, adopt [] e = e) by (intros e; unfold adopt; by destruct (_ || _)).
  destruct g. unfold update_field. cbn. f_equal. apply map_eq. intros id. rewrite lookup_fmap.
  destruct (_ !! id); cbn; [by rewrite Ha|done].
Qed.

Lemma adopt_object_id ps e : object_id (adopt ps e) = object_id e.
Proof. unfold adopt. destruct (_ || _); [done|]. by destruct (min_by _ _) as [[]|]. Qed.

Lemma nearest_least p l x : min_by (nearest_cmp p) l = Some x -> forall y, y ∈ l -> nearest_cmp p x y <> Gt.
Proof.
  apply min_by_least; unfold nearest_cmp.
  - intros a. by rewrite total_cmp_refl.
  - intros a b H. apply total_cmp_gt in H. congruence.
  - intros a b c. apply total_cmp_trans.
Qed.

Definition placed_player (e : ServerEntity) : Prop := entity_type e = Player /\ position_known e = true.

Lemma players_of_spec values x : x ∈ players_of values <->
  exists e, e ∈ values /\ placed_player e /\ x = (owner e, position e).
Proof.
  unfold players_of, placed_player, is_player. rewrite list_elem_of_fmap. split.
  - intros (e & -> & Hin). apply list_elem_of_In, filter_In in Hin as [Hin Hp]. apply list_elem_of_In in Hin.
    apply andb_true_iff in Hp as [Hp Hk]. apply bool_decide_eq_true in Hp. by exists e.
  - intros (e & Hin & [Hp Hk] & ->). exists e. split; [done|]. apply list_elem_of_In, filter_In.
    rewrite <- list_elem_of_In, Hk, bool_decide_eq_true_2 by done. done.
Qed.

Definition in_world (g : ServerGameState) (e : ServerEntity) : Prop := exists id, entities g !! id = Some e.

Lemma in_world_values g values e : values ≡ₚ entity_values g -> e ∈ values <-> in_world g e.
Proof.
  intros ->. unfold entity_values, in_world. rewrite list_elem_of_fmap. split.
  - intros ([id e'] & -> & Hin). exists id. by apply elem_of_map_to_list.
  - intros [id He]. exists (id, e). by rewrite elem_of_map_to_list.
Qed.

(** reassignment, for any iteration order: with a placed player in the
    world every ownerless server entity is given to a player nearest to it, and
    no other entity changes; without one nothing changes. *)
Theorem reassign_gives_nearest values g id :
  values ≡ₚ entity_values g ->
  match entities (reassign_ownerless_server_entities values g) !! id, entities g !! id with
  | Some e', Some e =>
      if server_owned e && (owner e =? 0) then
        ((exists p, in_world g p /\ placed_player p) ->
           exists p, in_world g p /\ placed_player p /\ e' = e <| owner := owner p |> /\
             forall q, in_world g q -> placed_player q ->
               f32_total_cmp (squared_distance (position p) (position e)) (squared_distance (position q) (position e)) <> Gt) /\
        ((forall p, in_world g p -> ~ placed_player p) -> e' = e)
      else e' = e
  | None, None => True
  | _, _ => False
  end.
Proof.
  intros Hv. assert (Hw : forall e, e ∈ values <-> in_world g e) by (intros; by apply in_world_values).
  rewrite players_of_empty.
  change (entities (g <| entities := adopt (players_of values) <$> entities g |>)) with (adopt (players_of values) <$> entities g).
  rewrite lookup_fmap. destruct (entities g !! id) as [e|]; cbn [fmap option_fmap option_map]; [|done].
  unfold adopt. destruct (server_owned e), (owner e =? 0); cbn [negb orb andb]; try done.
  split.
  - intros (p & Hp & Hpl). destruct (min_by (nearest_cmp (position e)) (players_of values)) as [[s q]|] eqn:E.
    + apply min_by_elem in E as Hin. apply players_of_spec in Hin as (r & Hr & Hrp & [= -> ->]).
      exists r. split_and!; [by apply Hw|done|done|]. intros q' Hq' Hqp.
      apply (nearest_least _ _ _ E (owner q', position q')). apply players_of_spec. exists q'. by rewrite Hw.
    + assert (Hin : (owner p, position p) ∈ players_of values) by (apply players_of_spec; exists p; by rewrite Hw).
      destruct (players_of values); [by apply elem_of_nil in Hin|done].
  - intros Hno. destruct (players_of values) as [|x l] eqn:E; [done|].
    assert (Hin : x ∈ players_of values) by (rewrite E; by left).
    apply players_of_spec in Hin as (p & Hp & Hpl & _). by destruct (Hno p (proj1 (Hw p) Hp)).
Qed.

(** a lease hands out the lowest free ids, at most as many as asked, all
    distinct and never 0 or the topmost id; each becomes leased, nothing else
    changes, and the packet sent decodes to exactly those ids. *)
Theorem lease_lowest_free source n g :
  game_ok g ->
  exists l packet g', lease_object_ids source n g = Some ((l, packet), g') /\ game_ok g' /\
    l = take n (List.filter (is_free g) (seqZ 1 (max_object_id g - 1))) /\ NoDup l /\
    (forall id, in_range g id -> id_state g' id = if decide (id ∈ l) then Some Leased else id_state g id) /\
    entities g' = entities g /\ leases_of g' source = leases_of g source ++ l /\
    parse_object_ids (drop 4 packet) = Some l.
Proof.
  intros Hg. destruct (lease_candidates g Hg) as [Hnd Hr].
  assert (Hin : Forall (in_range g) (seqZ 1 (max_object_id g - 1)))
    by (eapply Forall_impl; [exact Hr|]; intros id; unfold in_range; lia).
  destruct (lease_scan_spec _ n g Hg Hnd Hin) as (l & g1 & Hs & Hg1 & Hc & He & Hm & Hh & Hl & Hst).
  destruct (lease_ok source n g Hg) as (l' & g1' & Hs' & Hlease & Hg' & Hlr).
  rewrite Hs in Hs'. injection Hs' as <- <-.
  eexists l, _, _. split; [exact Hlease|]. split; [done|]. split; [done|]. split_and!.
  - rewrite Hl. eapply sublist_NoDup; [|apply sublist_take].
    apply NoDup_ListNoDup, List.NoDup_filter, NoDup_ListNoDup. exact Hnd.
  - intros id Hi. exact (Hst id Hi).
  - exact He.
  - unfold leases_of at 1. change (clients (with_client source (fun c => c <| leased := leased c ++ l |>) g1)) with
      (<[source := (fun c => c <| leased := leased c ++ l |>) (default (client_new (u16 source)) (clients g1 !! source))]> (clients g1)).
    rewrite lookup_insert_eq, Hc. unfold leases_of. by destruct (clients g !! source).
  - rewrite <- (app_nil_r (drop 4 _)). pose proof (max_positive g Hg) as Hmax. apply parse_build_object_ids.
    + eapply Forall_impl; [exact Hlr|]. intros id Hid. unfold is_u. change (2 ^ 16) with 65536. cbn beta in Hid. lia.
    + rewrite Hl, length_take. pose proof (List.filter_length_le (is_free g) (seqZ 1 (max_object_id g - 1))) as Hf.
      rewrite length_seqZ in Hf. lia.
Qed.

Lemma with_build_ok big hack b : game_ok (with_build big hack b).
Proof.
  split; cbn [with_build max_object_id gs_length_hack ids entities clients]; try done.
  - apply length_replicate.
  - intros id _. unfold id_state. cbn [with_build ids entities]. rewrite lookup_empty. split; [|by intros []].
    intros Hx. apply lookup_replicate in Hx as [Hx _]. discriminate.
Qed.

Definition sample_entity : ServerEntity := {|
  object_id := 5; uniqifier := 9; owner := 1; entity_type := Automobile; creation_token := 77;
  data := [1; 2]; create_data := [170; 187; 204]; frame_index := 3; position := zero_vec; position_known := true;
  sector := DEFAULT_SECTOR; sector_position := zero_vec; velocity := zero_vec; routing_bucket := 0;
  health := None; max_health := None; armour := None; model := Some 42; vehicle_seat := None; first_owner := 1;
  nodes := EntityNodeState_default; heading := None; desired_heading := None; server_owned := false |}.

Definition sample_game : ServerGameState :=
  (game_new true false) <| ids := <[5%nat := Used]> (ids (game_new true false)) |>
                        <| entities := {[5 := sample_entity]} |>.

Lemma sample_game_ok : game_ok sample_game.
Proof.
  eapply (rewritten_ok 5 Used (Some sample_entity) (game_new true false)); [|apply with_build_ok| | |].
  - split; try done. intros id'. change ((<[5 := sample_entity]> ∅ : gmap Z ServerEntity) !! id' =
      if decide (5 = id') then Some sample_entity else (∅ : gmap Z ServerEntity) !! id').
    case_decide; [subst; apply lookup_insert_eq|by apply lookup_insert_ne].
  - split; by compute.
  - split; by eexists.
  - by intros e [= <-].
Qed.

Lemma sample_in_world e : in_world sample_game e -> e = sample_entity.
Proof. intros [id Hid]. change (({[5 := sample_entity]} : gmap Z ServerEntity) !! id = Some e) in Hid. by apply lookup_singleton_Some in Hid as [_ <-]. Qed.

Lemma lease_lowest_free_witness :
  exists l packet g', lease_object_ids 7 3 sample_game = Some ((l, packet), g') /\ game_ok g' /\
    NoDup l /\ leases_of g' 7 = leases_of sample_game 7 ++ l.
Proof.
  destruct (lease_lowest_free 7 3 sample_game) as (l & pk & g' & H1 & H2 & _ & H3 & _ & _ & H4 & _).
  - apply sample_game_ok.
  - exists l, pk, g'. split_and!; done.
Defined.

(** when a client leaves, for any iteration order: its untouched leases are
    free again, its server-authored entities become ownerless, its own entities
    are gone and their ids free, and nobody else's entity or id changes. *)
Theorem remove_client_effect source entries g :
  game_ok g -> entries ≡ₚ map_to_list (entities g) ->
  exists l g', remove_client source entries g = Some (l, g') /\ game_ok g' /\
    clients g' = delete source (clients g) /\
    (forall id, id ∈ l <-> exists e, entities g !! id = Some e /\ owner e = source) /\
    (forall id, entities g' !! id = entities g !! id ≫= after_leave source) /\
    (forall id, in_range g id -> id_state g' id =
       match entities g !! id with
       | Some e => match after_leave source e with Some _ => Some Used | None => Some Free end
       | None => if decide (id ∈ leases_of g source) then Some Free else id_state g id
       end).
Proof.
  intros Hg Hp.
  destruct (remove_client_spec source entries g Hg Hp) as (l & g' & H1 & H2 & H3 & H4 & H5 & H6 & H7 & H8).
  exists l, g'. split_and!; try done. intros id Hid.
  assert (Hid' : in_range g' id) by (unfold in_range in *; lia).
  destruct (entities g !! id) as [e|] eqn:Ee.
  - specialize (H5 id). rewrite Ee in H5. cbn [mbind option_bind] in H5.
    destruct (after_leave source e) eqn:El; [|by apply (H8 id e)].
    apply (ok_used g' H2 id Hid'). rewrite H5. by eexists.
  - assert (Hn : id_state g id <> Some Used).
    { intros Hu. apply (ok_used g Hg id Hid) in Hu. rewrite Ee in Hu. by destruct Hu. }
    rewrite (H6 id Hid Hn). destruct (id_state_in_range g id Hg Hid) as [x Hx]. rewrite Hx in *.
    destruct (decide (id ∈ leases_of g source)) as [Hl|Hl].
    + destruct x; [by rewrite decide_False by (by intros [])|by rewrite decide_True|done].
    + by rewrite decide_False by (by intros []).
Qed.

Lemma remove_client_effect_witness :
  exists l g', remove_client 1 (map_to_list (entities sample_game)) sample_game = Some (l, g') /\ game_ok g' /\
    (5 ∈ l <-> exists e, entities sample_game !! 5 = Some e /\ owner e = 1) /\
    entities g' !! 5 = entities sample_game !! 5 ≫= after_leave 1.
Proof.
  destruct (remove_client_effect 1 (map_to_list (entities sample_game)) sample_game) as (l & g' & H1 & H2 & _ & H3 & H4 & _).
  - apply sample_game_ok.
  - reflexivity.
  - exists l, g'. split_and!; [done|done|apply H3|apply H4].
Defined.

(** ** What a plan puts on the wire *)

(** The fields of an entity fit the record that will carry them. *)
Record wire_ok (g : ServerGameState) (e : ServerEntity) : Prop := {
  wire_id : oid_ok (gs_length_hack g) (object_id e);
  wire_id16 : is_u 16 (object_id e);
  wire_uniq : is_u 16 (uniqifier e);
  wire_token : is_u 32 (creation_token e);
  wire_data : blob_ok (data e);
  wire_create : blob_ok (create_data e)
}.

(** The base frames of the planned ids fit. *)
Definition bases_ok (v : ClientView) (ids : list Z) : Prop :=
  Forall (fun id => is_u 64 (default 0 (base_frame id v))) ids.

(** The writes a plan stands for: one clone for each planned id that still has
    something to carry, then the removals. *)
Definition plan_ops (g : ServerGameState) (v : ClientView) (p : TickPlan) : list PackOp :=
  (PClone (gs_frame_index g) <$> omap (plan_clone g v rec.CREATE) (creates p)) ++
  (PClone (gs_frame_index g) <$> omap (plan_clone g v rec.SYNC) (syncs p)) ++
  ((fun '(id, uniq) => PRemove false id uniq) <$> removes p).

Lemma encode_ids_ops `{Lz4} g v ty l w :
  encode_ids g v ty l w = foldl run_op w (PClone (gs_frame_index g) <$> omap (plan_clone g v ty) l).
Proof.
  unfold encode_ids. revert w. induction l as [|id l IH]; intros w; [done|]. cbn [foldl omap list_omap].
  rewrite IH. by destruct (plan_clone g v ty id).
Qed.

Lemma remove_ops `{Lz4} w (l : list (Z * Z)) :
  foldl (fun w '(id, uniq) => write_remove false id uniq w) w l =
  foldl run_op w ((fun '(id, uniq) => PRemove false id uniq) <$> l).
Proof. revert w. induction l as [|[id u] l IH]; intros w; [done|]. apply IH. Qed.

Lemma encode_plan_ops `{Lz4} g v p : creates p ++ syncs p ++ (removes p).*1 <> [] ->
  encode_plan g v p = finish (foldl run_op (pw_new MSG_PACKED_CLONES (gs_frame_index g) (gs_length_hack g)) (plan_ops g v p)).
Proof.
  intros Hne. unfold encode_plan, plan_ops. rewrite !foldl_app, <- !encode_ids_ops, <- remove_ops.
  by destruct (creates p), (syncs p), (removes p).
Qed.

Lemma plan_clone_ok g v ty id c : (ty = rec.CREATE \/ ty = rec.SYNC) -> (forall e, in_world g e -> wire_ok g e) ->
  is_u 64 (default 0 (base_frame id v)) ->
  plan_clone g v ty id = Some c -> clone_ok (gs_length_hack g) c.
Proof.
  intros Hty Hw Hb. unfold plan_clone. destruct (entities g !! id) as [e|] eqn:E; [|done].
  destruct (Hw e) as [? ? ? ? ? ?]; [by exists id|].
  destruct (ty =? rec.CREATE); [|destruct (length (data e) =? 0)%nat; [done|]];
    intros [= <-]; split; cbn [sync_type oc_object_id owner_net_id oc_creation_token oc_uniqifier
      dependent_frame_index oc_timestamp oc_data]; try done;
    first [by apply (is_u_mod 16)|by apply (is_u_mod 32)].
Qed.

Lemma omap_ops_ok g v ty l : (ty = rec.CREATE \/ ty = rec.SYNC) -> (forall e, in_world g e -> wire_ok g e) -> bases_ok v l ->
  is_u 64 (gs_frame_index g) ->
  Forall (op_ok (gs_length_hack g)) (PClone (gs_frame_index g) <$> omap (plan_clone g v ty) l).
Proof.
  intros Hty Hw Hv Hf. apply Forall_fmap, Forall_forall. intros c Hc.
  apply list_elem_of_omap in Hc as (id & Hin & Hc). split; [|done]. unfold bases_ok in Hv. rewrite Forall_forall in Hv.
  by eapply plan_clone_ok; [..|apply Hv|].
Qed.

(** The packets of a plan whose fields fit decode, in a client of the state's
    mode, to the plan. *)
Lemma plan_packets_decode `{Lz4Laws} g v p :
  is_u 56 (gs_frame_index g) -> (forall e, in_world g e -> wire_ok g e) -> bases_ok v (creates p ++ syncs p) ->
  Forall (fun r => oid_ok (gs_length_hack g) r.1 /\ is_u 16 r.1 /\ is_u 16 r.2) (removes p) ->
  exists batches,
    client_decode (gs_length_hack g) <$> encode_plan g v p
    = imap (fun i rs => Some (downlink_of MSG_PACKED_CLONES (gs_frame_index g) (S i) (length batches) rs)) batches /\
    filter (fun r => is_timestamp r = false) (concat batches) =
      (ORClone <$> omap (plan_clone g v rec.CREATE) (creates p)) ++
      (ORClone <$> omap (plan_clone g v rec.SYNC) (syncs p)) ++
      ((fun r => ORRemove false r.1 r.2) <$> removes p).
Proof.
  intros Hf Hw Hv Hr. destruct (decide (creates p ++ syncs p ++ (removes p).*1 = [])) as [He|Hne].
  { exists []. unfold encode_plan. by destruct (creates p), (syncs p), (removes p). }
  rewrite encode_plan_ops by done. apply Forall_app in Hv as [Hvc Hvs].
  destruct (packed_stream_decodes MSG_PACKED_CLONES (gs_frame_index g) (gs_length_hack g) (plan_ops g v p)) as (bs & H1 & H2).
  - by compute.
  - done.
  - assert (Hf64 : is_u 64 (gs_frame_index g)) by (eapply is_u_le; [|exact Hf]; lia).
    unfold plan_ops. rewrite !Forall_app. split_and!.
    + apply omap_ops_ok; auto.
    + apply omap_ops_ok; auto.
    + apply Forall_fmap. eapply Forall_impl; [exact Hr|]. intros [id u] (? & ? & ?). by split.
  - exists bs. split; [done|]. rewrite H2. unfold plan_ops. rewrite !fmap_app, <- !list_fmap_compose.
    do 2 f_equal. apply list_fmap_ext. by intros i [id u] _.
Qed.

(** A placed player and a parked server car nobody simulates. *)
Definition parked_game : ServerGameState :=
  sample_game <| entities :=
    <[6 := sample_entity <| object_id := 6 |> <| owner := 4 |> <| entity_type := Player |>]>
    {[5 := sample_entity <| server_owned := true |> <| owner := 0 |>]} |>.

Lemma reassign_gives_nearest_witness :
  exists p e', in_world parked_game p /\ placed_player p /\
    entities (reassign_ownerless_server_entities (entity_values parked_game) parked_game) !! 5 = Some e' /\
    owner e' = owner p.
Proof.
  pose proof (reassign_gives_nearest (entity_values parked_game) parked_game 5 (reflexivity _)) as H.
  destruct (entities (reassign_ownerless_server_entities _ _) !! 5) as [e'|] eqn:E'; [|exfalso; revert H; vm_compute; tauto].
  assert (He : entities parked_game !! 5 = Some (sample_entity <| server_owned := true |> <| owner := 0 |>)) by reflexivity.
  rewrite He in H. destruct H as [H _].
  destruct H as (p & Hp & Hpl & He' & _).
  - exists (sample_entity <| object_id := 6 |> <| owner := 4 |> <| entity_type := Player |>).
    split; [by exists 6|by split].
  - exists p, e'. split_and!; [done|done|done|by rewrite He'].
Defined.
