(* ===== verification/Ingest.v ===== *)
(** * Inbound clone ingestion (src/crates/baston-zone/src/onesync/ingest.rs)

    Decoding a client's upload, applying each record under the arbitration
    rules, and acknowledging them.  Operations that index the id table are
    [None] where the index would panic. *)

From S2P Require Import Prelude F32 MessageBuffer Reliability Clone SyncTrees SyncParse SyncWrite RoutingBucket InterestNg Packet GameState.

Record IngestOutcome := {
  ack_packets : list (list Z); outcome_creates : Z; outcome_syncs : Z; outcome_removes : Z;
  takeovers : list (Z * Z); rejected_mutations : Z
}.

#[export] Instance rebuild_IngestOutcome : Rebuild IngestOutcome := fun o => {|
  ack_packets := ack_packets o; outcome_creates := outcome_creates o; outcome_syncs := outcome_syncs o;
  outcome_removes := outcome_removes o; takeovers := takeovers o; rejected_mutations := rejected_mutations o |}.

Definition outcome_default : IngestOutcome := {|
  ack_packets := []; outcome_creates := 0; outcome_syncs := 0; outcome_removes := 0;
  takeovers := []; rejected_mutations := 0 |}.

Section ingest.
Context `{Libm}.

(** The entity a create starts from: what is known of the object id is kept. *)
Definition created_entity (source id uniq : Z) (ty : NetObjEntityType) (token frame bucket : Z)
    (blob : list Z) (previous : option ServerEntity) : ServerEntity := {|
  object_id := id; uniqifier := uniq; owner := source; entity_type := ty; creation_token := token;
  frame_index := frame;
  position := default zero_vec (position <$> previous);
  position_known := default false (position_known <$> previous);
  sector := default DEFAULT_SECTOR (sector <$> previous);
  sector_position := default zero_vec (sector_position <$> previous);
  velocity := default zero_vec (velocity <$> previous);
  routing_bucket := bucket;
  health := previous ≫= health; max_health := previous ≫= max_health; armour := previous ≫= armour;
  model := previous ≫= model; vehicle_seat := previous ≫= vehicle_seat;
  first_owner := default source (first_owner <$> previous);
  nodes := default EntityNodeState_default (nodes <$> previous);
  heading := previous ≫= heading; desired_heading := previous ≫= desired_heading;
  server_owned := false; create_data := blob; data := [] |}.

Definition create_conflicts (source uniq : Z) (existing : option ServerEntity) : bool :=
  match existing with
  | Some e => negb (owner e =? source) || negb (uniqifier e =? uniq)
  | None => false
  end.

(** The bytes parsed are those of [entity.data], empty at this point. *)
Definition apply_create (source id uniq : Z) (ty : option NetObjEntityType) (token : Z) (blob : list Z)
    (g : ServerGameState) : bool * ServerGameState :=
  if negb (allows_client_create (routing_buckets g) source) then (false, g)
  else if create_conflicts source uniq (entities g !! id) then (false, g)
  else
    match ty with
    | None => (false, g)
    | Some ty =>
        let bucket := player_bucket (routing_buckets g) source in
        let e := created_entity source id uniq ty token (gs_frame_index g) bucket blob (entities g !! id) in
        let decoded := parse_sync_tree ty true (data e) (gs_length_hack g) (build g) in
        let e := apply_sync_data decoded e in
        (true, g <| entities := <[id := e]> (entities g) |>
                 <| routing_buckets := set_entity_bucket id bucket (routing_buckets g) |>)
    end.

Definition apply_sync (source id uniq : Z) (blob : list Z) (g : ServerGameState) : bool * ServerGameState :=
  match entities g !! id with
  | None => (false, g)
  | Some e =>
      if negb (uniqifier e =? uniq) || negb (owner e =? source)
         || negb (player_bucket (routing_buckets g) source =? routing_bucket e) then (false, g)
      else
        match blob with
        | [] => (true, g)
        | _ =>
            let decoded := parse_sync_tree (entity_type e) false blob (gs_length_hack g) (build g) in
            let e := apply_sync_data decoded (e <| data := blob |> <| frame_index := gs_frame_index g |>) in
            (true, g <| entities := <[id := e]> (entities g) |>)
        end
  end.

Definition apply_remove (source id uniq : Z) (g : ServerGameState) : option (bool * ServerGameState) :=
  match entities g !! id with
  | Some e =>
      if (owner e =? source) && (uniqifier e =? uniq)
         && (player_bucket (routing_buckets g) source =? routing_bucket e)
      then match forget_entity id g with None => None | Some g' => Some (true, g') end
      else Some (false, g)
  | None => Some (false, g)
  end.

Definition apply_takeover (sender id target : Z) (g : ServerGameState) : bool * ServerGameState :=
  if negb (allows_takeover (routing_buckets g) sender target id) then (false, g)
  else
    match entities g !! id with
    | Some e =>
        if owner e =? sender
        then (true, g <| entities := <[id := e <| owner := target |>]> (entities g) |>)
        else (false, g)
    | None => (false, g)
    end.

(** The state the record loop threads. *)
Record IngestState := { game : ServerGameState; ack : MessageBuffer; outcome : IngestOutcome }.

Definition reject_unless (accepted : bool) (o : IngestOutcome) : IngestOutcome :=
  if accepted then o else o <| rejected_mutations := rejected_mutations o + 1 |>.

Definition ingest_record (source : Z) (st : IngestState) (r : InboundRecord) : option IngestState :=
  let g := game st in
  let o := outcome st in
  match r with
  | InClone is_create id uniq ty token blob =>
      if id =? 65535 then Some st
      else if is_create then
        let '(accepted, g) := apply_create source id uniq ty token blob g in
        match (if accepted then set_id id Used g else Some g) with
        | None => None
        | Some g =>
            let o := reject_unless accepted o in
            Some {| game := g; ack := wr (write_ack_record 1 id uniq) (ack st);
                    outcome := o <| outcome_creates := outcome_creates o + 1 |> |}
        end
      else
        let '(accepted, g) := apply_sync source id uniq blob g in
        let o := reject_unless accepted o in
        Some {| game := g; ack := wr (write_ack_record 2 id uniq) (ack st);
                outcome := o <| outcome_syncs := outcome_syncs o + 1 |> |}
  | InRemove id uniq =>
      let b := wr (write_ack_record 3 id uniq) (ack st) in
      match apply_remove source id uniq g with
      | None => None
      | Some (accepted, g) =>
          let o := reject_unless accepted o in
          Some {| game := g; ack := b; outcome := o <| outcome_removes := outcome_removes o + 1 |> |}
      end
  | InTakeover target_client id =>
      let target := if target_client =? 0 then u16 source else target_client in
      let o := o <| takeovers := takeovers o ++ [(id, target)] |> in
      let '(accepted, g) := apply_takeover source id target g in
      Some {| game := g; ack := ack st; outcome := reject_unless accepted o |}
  | InTimestamp ts =>
      let g := with_client source (fun c =>
        if (ack_ts c =? 0) || (ack_ts c <? ts) then c <| ack_ts := ts |> else c) g in
      Some {| game := g; ack := wr (write_bits_single ts 32) (wr (write_bits_single 5 3) (ack st)); outcome := o |}
  | InIndex idx =>
      Some {| game := with_client source (fun c => c <| cl_frame_index := idx |>) g; ack := ack st; outcome := o |}
  end.

Fixpoint ingest_records (source : Z) (rs : list InboundRecord) (st : IngestState) : option IngestState :=
  match rs with
  | [] => Some st
  | r :: rest => match ingest_record source st r with None => None | Some st' => ingest_records source rest st' end
  end.

Context `{Lz4}.

Definition ACK_BUF_BYTES : Z := 4096.

Definition ingest_clone_payload (source : Z) (payload : list Z) (g : ServerGameState) : option (IngestOutcome * ServerGameState) :=
  match decode_incoming payload (gs_length_hack g) with
  | None => Some (outcome_default, g)
  | Some incoming =>
      let g := add_client source g in
      let start := {| game := g; ack := with_length_hack (new ACK_BUF_BYTES) (gs_length_hack g);
                      outcome := outcome_default |} in
      match ingest_records source (in_records incoming) start with
      | None => None
      | Some st =>
          let b := wr write_end (ack st) in
          let used := data_length b in
          let o := outcome st in
          let o :=
            if 0 <? used then
              let frame := {| last_fragment := true; current_fragment := 0;
                              Packet.frame_index := default 0 (cl_frame_index <$> clients (game st) !! source) |} in
              o <| ack_packets := ack_packets o ++
                     [pack_frame MSG_PACKED_ACKS frame (take (Z.to_nat used) (MessageBuffer.data b))] |>
            else o in
          Some (o, game st)
      end
  end.

End ingest.

(** ** Every record keeps the registry's invariant and never panics *)

Section proofs.
Context `{Libm}.

Lemma if_some_id {A} (o : option A) f e : (forall e v, object_id (f e v) = object_id e) ->
  object_id (if_some o f e) = object_id e.
Proof. intros Hf. destruct o; [apply Hf|done]. Qed.

Lemma apply_sync_data_id d e : object_id (apply_sync_data d e) = object_id e.
Proof.
  unfold apply_sync_data. cbv zeta.
  match goal with |- object_id (?x <| nodes := _ |>) = _ => change (object_id x = object_id e) end.
  rewrite !if_some_id by done. destruct (_ || _); [|by rewrite !if_some_id by done].
  match goal with |- object_id (?x <| position := _ |> <| position_known := _ |>) = _ => change (object_id x = object_id e) end.
  by rewrite !if_some_id by done.
Qed.

(** What one record, sent by [source], may do to the registry. *)
Record record_effect (source : Z) (g g' : ServerGameState) : Prop := {
  eff_ok : game_ok g';
  eff_hack : gs_length_hack g' = gs_length_hack g;
  eff_foreign : forall id e, entities g !! id = Some e -> owner e <> source -> entities g' !! id = Some e;
  eff_clients : forall s, s <> source -> clients g' !! s = clients g !! s
}.

Lemma record_effect_refl source g : game_ok g -> record_effect source g g.
Proof. by split. Qed.

Lemma record_effect_trans source g1 g2 g3 : record_effect source g1 g2 -> record_effect source g2 g3 -> record_effect source g1 g3.
Proof.
  intros [? ? Hf Hc] [? ? Hf' Hc']. split; [done|congruence|auto|].
  intros s Hs. by rewrite Hc', Hc.
Qed.

(** Rewriting one entity the sender owns. *)
Lemma update_effect source g id e e' : game_ok g -> entities g !! id = Some e -> owner e = source -> object_id e' = id ->
  record_effect source g (g <| entities := <[id := e']> (entities g) |>).
Proof.
  intros Hg He Ho Hid.
  assert (Hlk : forall id', entities (g <| entities := <[id := e']> (entities g) |>) !! id' =
    if decide (id = id') then Some e' else entities g !! id').
  { intros id'. change (<[id := e']> (entities g) !! id' = if decide (id = id') then Some e' else entities g !! id').
    case_decide; [subst; apply lookup_insert_eq|by apply lookup_insert_ne]. }
  split; [|done| |done].
  - eapply reshaped_ok; [|exact Hg]. apply reshaped_entities; try done. intros id'. rewrite Hlk. case_decide as Hd.
    + right. subst id'. exists e, e'. split_and!; [done|done|]. destruct (ok_entity g Hg id e He). congruence.
    + destruct (entities g !! id') as [e0|]; [right; by exists e0, e0|by left].
  - intros id' e0 He0 Hne. rewrite Hlk. case_decide; [congruence|done].
Qed.

Lemma effect_registry source g g' r : record_effect source g g' -> record_effect source g (g' <| routing_buckets := r |>).
Proof. intros [? ? ? ?]. split; try done. by eapply reshaped_ok; [apply registry_reshaped|]. Qed.

Lemma rewritten_effect source g g' id s oe : game_ok g -> game_ok g' -> rewritten id s oe g g' ->
  (forall e, entities g !! id = Some e -> owner e = source) -> record_effect source g g'.
Proof.
  intros Hg Hg' Hw Ho. split; [done|apply Hw| |].
  - intros id' e He Hne. rewrite (rw_entities _ _ _ _ _ Hw). case_decide; [|done]. subst. by destruct Hne; apply Ho.
  - intros s' _. by rewrite (rw_clients _ _ _ _ _ Hw).
Qed.

Lemma oid_in_range g id : game_ok g -> oid_ok (gs_length_hack g) id -> id <> 65535 -> in_range g id.
Proof.
  intros Hg Hid Hne. unfold in_range. rewrite (ok_mode g Hg). unfold oid_ok, is_u in Hid.
  destruct (gs_length_hack g); cbn in Hid; unfold MAX_OBJECT_ID_BEYOND, MAX_OBJECT_ID_NATIVE; lia.
Qed.

(** The entity an accepted create leaves. *)
Definition create_result (source id uniq : Z) (ty : NetObjEntityType) (token : Z) (blob : list Z) (g : ServerGameState) : ServerEntity :=
  apply_sync_data (parse_sync_tree ty true [] (gs_length_hack g) (build g))
    (created_entity source id uniq ty token (gs_frame_index g) (player_bucket (routing_buckets g) source) blob (entities g !! id)).

Lemma apply_create_cases source id uniq ty token blob g :
  apply_create source id uniq ty token blob g = (false, g) \/
  exists t, ty = Some t /\ create_conflicts source uniq (entities g !! id) = false /\
    allows_client_create (routing_buckets g) source = true /\
    apply_create source id uniq ty token blob g =
      (true, g <| entities := <[id := create_result source id uniq t token blob g]> (entities g) |>
               <| routing_buckets := set_entity_bucket id (player_bucket (routing_buckets g) source) (routing_buckets g) |>).
Proof.
  unfold apply_create. destruct (allows_client_create _ _) eqn:Ea; [|by left].
  destruct (create_conflicts _ _ _) eqn:Ec; [by left|]. destruct ty as [t|]; [|by left].
  right. exists t. split_and!; done.
Qed.

Lemma conflict_owner source uniq g id e : create_conflicts source uniq (entities g !! id) = false ->
  entities g !! id = Some e -> owner e = source /\ uniqifier e = uniq.
Proof. intros Hc He. rewrite He in Hc. cbn in Hc. lia. Qed.

(** An accepted create followed by the claim of its id. *)
Lemma create_effect source id uniq ty token blob g : game_ok g -> in_range g id ->
  let '(accepted, g1) := apply_create source id uniq ty token blob g in
  exists g2, (if accepted then set_id id Used g1 else Some g1) = Some g2 /\ record_effect source g g2.
Proof.
  intros Hg Hid. destruct (apply_create_cases source id uniq ty token blob g) as [->|(t & -> & Hc & _ & ->)].
  { exists g. split; [done|]. by apply record_effect_refl. }
  set (e := create_result _ _ _ _ _ _ _).
  set (g1 := g <| entities := <[id := e]> (entities g) |> <| routing_buckets := _ |>).
  unfold set_id. change (id_state g1 id) with (id_state g id).
  destruct (id_state_in_range g id Hg Hid) as [x ->]. eexists. split; [done|].
  assert (Hw : rewritten id Used (Some e) g (g1 <| ids := <[Z.to_nat id := Used]> (ids g1) |>)).
  { split; try done. intros id'. change (<[id := e]> (entities g) !! id' = if decide (id = id') then Some e else entities g !! id').
    case_decide; [subst; apply lookup_insert_eq|by apply lookup_insert_ne]. }
  eapply rewritten_effect; [done| |exact Hw|].
  - eapply rewritten_ok; [exact Hw|done..| |]; [split; by eexists|].
    intros e' [= <-]. unfold e, create_result. by rewrite apply_sync_data_id.
  - intros e' He'. by apply (conflict_owner source uniq g id e').
Qed.

Lemma sync_effect source id uniq blob g : game_ok g ->
  record_effect source g (apply_sync source id uniq blob g).2.
Proof.
  intros Hg. unfold apply_sync. destruct (entities g !! id) as [e|] eqn:Ee; [|by apply record_effect_refl].
  destruct (_ || _) eqn:Ec; [by apply record_effect_refl|].
  destruct blob as [|b blob]; [by apply record_effect_refl|]. cbn [snd].
  apply (update_effect source g id e); [done|done|lia|]. rewrite apply_sync_data_id. by destruct (ok_entity g Hg id e Ee).
Qed.

Lemma remove_effect source id uniq g : game_ok g ->
  exists b g', apply_remove source id uniq g = Some (b, g') /\ record_effect source g g'.
Proof.
  intros Hg. unfold apply_remove. destruct (entities g !! id) as [e|] eqn:Ee;
    [|exists false, g; split; [done|by apply record_effect_refl]].
  destruct (_ && _) eqn:Ec; [|exists false, g; split; [done|by apply record_effect_refl]].
  destruct (ok_entity g Hg id e Ee) as [_ Hid]. destruct (forget_rewritten g id Hg Hid) as (g' & -> & Hw).
  exists true, g'. split; [done|]. eapply rewritten_effect; [done| |exact Hw|].
  - by eapply rewritten_empty_ok.
  - intros e' He'. rewrite Ee in He'. injection He' as <-. lia.
Qed.

Lemma takeover_effect source id target g : game_ok g ->
  record_effect source g (apply_takeover source id target g).2.
Proof.
  intros Hg. unfold apply_takeover. destruct (negb _); [by apply record_effect_refl|].
  destruct (entities g !! id) as [e|] eqn:Ee; [|by apply record_effect_refl].
  destruct (Z.eqb_spec (owner e) source) as [Ho|]; [|by apply record_effect_refl]. cbn [snd].
  apply (update_effect source g id e); [done..|]. by destruct (ok_entity g Hg id e Ee).
Qed.

Lemma client_effect source f g : game_ok g -> (forall c, leased (f c) = leased c) ->
  record_effect source g (with_client source f g).
Proof.
  intros Hg Hf. split; [|done|done|].
  - by eapply reshaped_ok; [apply with_client_reshaped|].
  - intros s Hs. unfold with_client.
    change (<[source := f (default (client_new (u16 source)) (clients g !! source))]> (clients g) !! s = clients g !! s).
    by apply lookup_insert_ne.
Qed.

Lemma ingest_record_effect source st r : game_ok (game st) -> inbound_ok (gs_length_hack (game st)) r ->
  exists st', ingest_record source st r = Some st' /\ record_effect source (game st) (game st').
Proof.
  intros Hg [_ Hid]. destruct r as [c id uniq ty token blob|id uniq|tc id|ts|idx]; cbn [ingest_record inbound_object_id from_option] in *.
  - destruct (Z.eqb_spec id 65535) as [|Hne]; [exists st; split; [done|by apply record_effect_refl]|]. destruct c.
    + pose proof (create_effect source id uniq ty token blob (game st) Hg (oid_in_range _ _ Hg Hid Hne)) as Hc.
      destruct (apply_create _ _ _ _ _ _ _) as [acc g1]. destruct Hc as (g2 & -> & Heff). eexists. split; [done|exact Heff].
    + pose proof (sync_effect source id uniq blob (game st) Hg) as Hs.
      destruct (apply_sync _ _ _ _ _) as [acc g1]. eexists. split; [done|exact Hs].
  - destruct (remove_effect source id uniq (game st) Hg) as (b & g' & -> & Heff). eexists. split; [done|exact Heff].
  - pose proof (takeover_effect source id (if tc =? 0 then u16 source else tc) (game st) Hg) as Ht.
    destruct (apply_takeover _ _ _ _) as [acc g1]. eexists. split; [done|exact Ht].
  - eexists. split; [done|]. cbn [game]. apply client_effect; [done|]. intros c. by destruct (_ || _).
  - eexists. split; [done|]. cbn [game]. by apply client_effect.
Qed.

Lemma ingest_records_effect source rs : forall st, game_ok (game st) ->
  Forall (inbound_ok (gs_length_hack (game st))) rs ->
  exists st', ingest_records source rs st = Some st' /\ record_effect source (game st) (game st').
Proof.
  induction rs as [|r rs IH]; intros st Hg Hrs; cbn [ingest_records].
  { exists st. split; [done|by apply record_effect_refl]. }
  apply Forall_cons in Hrs as [Hr Hrs]. destruct (ingest_record_effect source st r Hg Hr) as (st1 & -> & Heff).
  destruct (IH st1) as (st' & -> & Heff'); [apply Heff|by rewrite (eff_hack _ _ _ Heff)|].
  exists st'. split; [done|]. by eapply record_effect_trans.
Qed.
End proofs.

Lemma ingest_payload_effect `{Libm} `{Lz4Laws} source payload g :
  game_ok g -> bytes_ok payload ->
  exists o g', ingest_clone_payload source payload g = Some (o, g') /\ record_effect source g g'.
Proof.
  intros Hg Hp. unfold ingest_clone_payload.
  destruct (decode_incoming payload (gs_length_hack g)) as [inc|] eqn:Ed;
    [|exists outcome_default, g; split; [done|by apply record_effect_refl]].
  destruct (proj1 (decode_incoming_total payload (gs_length_hack g) Hp) inc Ed) as (_ & Hrs & _).
  assert (Hadd : record_effect source g (add_client source g)) by by apply client_effect.
  set (st0 := {| game := add_client source g; ack := _; outcome := _ |}).
  destruct (ingest_records_effect source (in_records inc) st0) as (st' & -> & Heff); [apply Hadd|exact Hrs|].
  eexists _, _. split; [done|]. by eapply record_effect_trans.
Qed.

(** C29: whatever bytes a client uploads, in any well-formed state of the
    registry, ingestion returns: no index of the id table panics, and an
    object id is still used exactly when an entity lives under it. *)
Theorem ingest_never_panics `{Libm} `{Lz4Laws} source payload g :
  game_ok g -> bytes_ok payload ->
  exists o g', ingest_clone_payload source payload g = Some (o, g') /\ game_ok g'.
Proof.
  intros Hg Hp. destruct (ingest_payload_effect source payload g Hg Hp) as (o & g' & Hi & Heff).
  exists o, g'. split; [done|apply Heff].
Qed.

(** C1: a client's upload leaves every entity another client (or the server)
    owns exactly as it was, and every other client's leases, acknowledged frame
    and view. *)
Theorem ingest_spares_others `{Libm} `{Lz4Laws} source payload g o g' :
  game_ok g -> bytes_ok payload -> ingest_clone_payload source payload g = Some (o, g') ->
  (forall id e, entities g !! id = Some e -> owner e <> source -> entities g' !! id = Some e) /\
  (forall s, s <> source -> clients g' !! s = clients g !! s).
Proof.
  intros Hg Hp Hi. destruct (ingest_payload_effect source payload g Hg Hp) as (o' & g2 & Hi' & Heff).
  rewrite Hi in Hi'. injection Hi' as <- <-. split; apply Heff.
Qed.

(** Platform functions for the closed examples: none of them is called there. *)
Definition null_libm : Libm := {|
  f32_sin := fun _ => f32_zero; f32_cos := fun _ => f32_zero; f32_atan2 := fun _ _ => f32_zero |}.

Definition sample_upload : list Z := to_le_bytes 4 NET_CLONES ++ (0 :: sample_body).

Lemma sample_upload_ok : bytes_ok sample_upload.
Proof. apply (bool_decide_eq_true_1 (bytes_ok _)). by vm_compute. Qed.

Lemma ingest_never_panics_witness :
  exists o g', @ingest_clone_payload null_libm lz4_stored 2 sample_upload sample_game = Some (o, g') /\ game_ok g'.
Proof.
  exact (@ingest_never_panics null_libm lz4_stored lz4_stored_laws 2 sample_upload sample_game sample_game_ok sample_upload_ok).
Defined.

Lemma ingest_spares_others_witness : exists o g',
  @ingest_clone_payload null_libm lz4_stored 2 sample_upload sample_game = Some (o, g') /\
  entities g' !! 5 = Some sample_entity.
Proof.
  destruct (@ingest_payload_effect null_libm lz4_stored lz4_stored_laws 2 sample_upload sample_game sample_game_ok sample_upload_ok)
    as (o & g' & Hi & _).
  exists o, g'. split; [exact Hi|].
  apply (@ingest_spares_others null_libm lz4_stored lz4_stored_laws 2 sample_upload sample_game o g' sample_game_ok sample_upload_ok Hi);
    [reflexivity|discriminate].
Defined.

(** ** Every operation of the game state, as a step relation *)

Section steps.
Context `{Libm}.

(** The records of one upload, as the record loop applies them. *)
Definition ingest_all (source : Z) (rs : list InboundRecord) (g : ServerGameState) : option ServerGameState :=
  let start := {| game := add_client source g; ack := with_length_hack (new ACK_BUF_BYTES) (gs_length_hack g);
                  outcome := outcome_default |} in
  game <$> ingest_records source rs start.

Inductive game_step : ServerGameState -> ServerGameState -> Prop :=
| step_ingest source rs g g' : Forall (inbound_ok (gs_length_hack g)) rs -> ingest_all source rs g = Some g' -> game_step g g'
| step_lease source n g l pk g' : lease_object_ids source n g = Some ((l, pk), g') -> game_step g g'
| step_add source g : game_step g (add_client source g)
| step_leave source entries g l g' : entries ≡ₚ map_to_list (entities g) ->
    remove_client source entries g = Some (l, g') -> game_step g g'
| step_spawn id ty mdl p hd dyn g b g' : 0 <= id ->
    spawn_server_entity_with_id id ty mdl p hd dyn g = Some (b, g') -> game_step g g'
| step_despawn id g b g' : despawn_entity id g = Some (b, g') -> game_step g g'
| step_reassign values g : values ≡ₚ entity_values g -> game_step g (reassign_ownerless_server_entities values g)
| step_bucket id b g : game_step g (set_entity_routing_bucket id b g)
| step_registry r g : game_step g (g <| routing_buckets := r |>)
| step_place id p g : game_step g (set_entity_position id p g)
| step_push id v g : game_step g (set_entity_velocity id v g)
| step_seed focus g : game_step g (seed_unknown_player_positions focus g)
| step_frame g : game_step g (game_tick g)
| step_nack source n g : game_step g (apply_nack source n g)
| step_ack source a g : game_step g (apply_ack source a g)
| step_tick_client `{Lz4} source focus cfg g pk g' : tick_client source focus cfg g = Some (pk, g') -> game_step g g'
| step_tick_all `{Lz4} values cs fallback cfg g pk g' : cs ≡ₚ map_to_list (clients g) ->
    tick_clients values cs fallback cfg g = Some (pk, g') -> game_step g g'.

Lemma with_view_reshaped source f g : reshaped g (with_view source f g).
Proof.
  unfold with_view. destruct (clients g !! source) as [c|] eqn:Ec.
  - split; try done; [by intros id e Hx; exists e|]. intros s c'.
    change (<[source := c <| view := f (view c) |>]> (clients g) !! s = Some c' ->
      leased c' = [] \/ exists c0, clients g !! s = Some c0 /\ leased c' = leased c0).
    intros [[<- <-]|[_ Hx]]%lookup_insert_Some; right; [by exists c|by exists c'].
  - apply reshaped_entities; try done. intros id. destruct (entities g !! id) as [e|]; [right; by exists e, e|by left].
Qed.

Lemma tick_clients_leased `{Lz4} g focus fallback cfg world index cs plans :
  mapM (plan_for g focus fallback cfg world index) cs = Some plans ->
  Forall (fun t => exists c, (t.1.1, c) ∈ cs /\ leased t.2 = leased c) plans.
Proof.
  intros Hm. apply mapM_Some in Hm. apply Forall_forall. intros t Ht.
  apply list_elem_of_lookup in Ht as [i Hi].
  destruct (Forall2_lookup_r _ _ _ _ _ Hm Hi) as ([s c] & Hc & Hp). exists c.
  apply list_elem_of_lookup_2 in Hc.
  unfold plan_for in Hp. destruct (default _ _) as [f v] in Hp.
  destruct (tick_with_context _ _ _ _ _ _ _) as [[p v']|]; [|done]. injection Hp as <-. by split.
Qed.

Lemma reachable_step g g' : game_step g g' -> game_ok g -> game_ok g'.
Proof.
  intros Hs Hg.
  destruct Hs as [source rs g g' Hrs Hi|source n g l pk g' Hl|source g|source entries g l g' Hp Hl
    |id ty mdl p hd dyn g b g' Hid Hsp|id g b g' Hd|values g _|id b g|r g|id p g|id v g|focus g|g|source n g|source a g
    |Hlz source focus cfg g pk g' Ht|Hlz values cs fallback cfg g pk g' Hp Ht].
  - unfold ingest_all in Hi. set (st := {| game := _; ack := _; outcome := _ |}) in Hi.
    assert (Hadd : record_effect source g (add_client source g)) by by apply client_effect.
    destruct (ingest_records_effect source rs st) as (st' & Hr & Heff); [apply Hadd|exact Hrs|].
    rewrite Hr in Hi. injection Hi as <-. apply Heff.
  - destruct (lease_ok source n g Hg) as (l' & g1 & _ & Hl' & Hok & _). rewrite Hl in Hl'. by injection Hl' as _ _ ->.
  - by eapply reshaped_ok; [apply with_client_reshaped|].
  - destruct (remove_client_spec source entries g Hg Hp) as (l' & g1 & Hl' & Hok & _). rewrite Hl in Hl'. by injection Hl' as _ ->.
  - destruct (spawn_cases id ty mdl p hd dyn g Hg Hid) as (b' & g1 & Hsp' & Hok & _). rewrite Hsp in Hsp'. by injection Hsp' as _ ->.
  - unfold despawn_entity in Hd. destruct (entities g !! id) as [e|] eqn:Ee; [|by injection Hd as _ <-].
    destruct (ok_entity g Hg id e Ee) as [_ Hr]. destruct (forget_rewritten g id Hg Hr) as (g1 & Hf & Hw).
    rewrite Hf in Hd. injection Hd as _ <-. by eapply rewritten_empty_ok.
  - rewrite players_of_empty. eapply reshaped_ok; [apply fmap_entities_reshaped, adopt_object_id|done].
  - eapply reshaped_ok; [by apply alter_entity_reshaped|]. by eapply reshaped_ok; [apply registry_reshaped|].
  - by eapply reshaped_ok; [apply registry_reshaped|].
  - by eapply reshaped_ok; [by apply alter_entity_reshaped|].
  - by eapply reshaped_ok; [by apply alter_entity_reshaped|].
  - eapply reshaped_ok; [|exact Hg]. apply fmap_entities_reshaped. intros e.
    destruct (_ && _); [by destruct (focus !! owner e)|done].
  - by destruct Hg.
  - by eapply reshaped_ok; [apply with_view_reshaped|].
  - by eapply reshaped_ok; [apply with_view_reshaped|].
  - unfold tick_client in Ht. destruct (clients g !! source) as [c|] eqn:Ec; [|by injection Ht as _ <-].
    destruct (tick_with_context _ _ _ _ _ _ _) as [[p v']|]; [|done]. injection Ht as _ <-.
    eapply reshaped_ok; [|exact Hg]. split; try done; [by intros id e Hx; exists e|]. intros s c'.
    change (<[source := c <| view := v' |>]> (clients g) !! s = Some c' ->
      leased c' = [] \/ exists c0, clients g !! s = Some c0 /\ leased c' = leased c0).
    intros [[<- <-]|[_ Hx]]%lookup_insert_Some; right; [by exists c|by exists c'].
  - unfold tick_clients in Ht. destruct (mapM _ cs) as [plans|] eqn:Em; [|done]. injection Ht as _ <-.
    apply tick_clients_leased in Em. rewrite Forall_forall in Em.
    eapply reshaped_ok; [|exact Hg]. split; try done; [by intros id e Hx; exists e|]. intros s c' Hx.
    match type of Hx with clients (_ <| clients := ?m |>) !! _ = _ => change (m !! s = Some c') in Hx end.
    apply elem_of_list_to_map_2, list_elem_of_fmap in Hx as (t & [= -> ->] & Hin). rewrite sort_by_perm in Hin.
    destruct (Em t Hin) as (c & Hc & ->). right. exists c. split; [|done].
    by rewrite Hp, elem_of_map_to_list in Hc.
Qed.

End steps.

(** C8: along every run of the game state's operations from a fresh state, in
    either id mode, an object id is used exactly when an entity lives under
    it, every entity is filed under its own id, and every id a client holds is
    inside the table, so no operation of the run can panic on it. *)
Theorem registry_invariant `{Libm} big hack b g :
  rtc game_step (with_build big hack b) g ->
  (forall id, 0 <= id <= max_object_id g -> id_state g id = Some Used <-> is_Some (entities g !! id)) /\
  (forall id e, entities g !! id = Some e -> object_id e = id /\ 0 <= id <= max_object_id g) /\
  (forall s id, id ∈ leases_of g s -> is_Some (id_state g id)).
Proof.
  intros Hr. assert (Hg : game_ok g).
  { apply (rtc_invariant _ _ _ _ reachable_step Hr). apply with_build_ok. }
  split_and!; [apply Hg|apply Hg|]. intros s id Hid. unfold leases_of in Hid.
  destruct (clients g !! s) as [c|] eqn:Ec; [|by apply elem_of_nil in Hid].
  pose proof (ok_leased g Hg s c Ec) as Hl. rewrite Forall_forall in Hl. by apply id_state_in_range, Hl.
Qed.

(** ** What the code does beside its comments *)

(** A decoded record that carries nothing changes nothing. *)
Lemma apply_default e : apply_sync_data SyncNodeData_default e = e.
Proof. destruct e as [? ? ? ? ? ? ? ? ? ? ? ? ? ? ? ? ? ? ? ? [] ? ? ?]. reflexivity. Qed.

Lemma parse_nothing `{Libm} ty hack b : parse_sync_tree ty true [] hack b = SyncNodeData_default.
Proof. destruct ty, hack; vm_compute; reflexivity. Qed.

(** an accepted create decodes nothing of its payload: the entity it leaves
    has the payload stored, the identity of the record, and every decoded field
    (position, model, seat, heading, health) exactly as before the create, so a
    new entity is unplaced and without model whatever the client sent. *)
Theorem create_payload_unparsed `{Libm} source id uniq ty token blob g g' :
  apply_create source id uniq ty token blob g = (true, g') ->
  exists t e', ty = Some t /\ entities g' !! id = Some e' /\ create_data e' = blob /\
    e' = created_entity source id uniq t token (gs_frame_index g) (player_bucket (routing_buckets g) source) blob (entities g !! id) /\
    (entities g !! id = None -> position_known e' = false /\ model e' = None /\ vehicle_seat e' = None).
Proof.
  intros Ha. destruct (apply_create_cases source id uniq ty token blob g) as [E|(t & -> & _ & _ & E)];
    rewrite E in Ha; [by injection Ha|]. injection Ha as <-.
  exists t, (create_result source id uniq t token blob g). split; [done|]. split.
  { change (<[id := create_result source id uniq t token blob g]> (entities g) !! id = Some (create_result source id uniq t token blob g)).
    apply lookup_insert_eq. }
  unfold create_result. rewrite parse_nothing, apply_default. split_and!; [done|done|].
  by intros ->.
Qed.

Lemma create_payload_unparsed_witness :
  let r := @apply_create null_libm 7 6 1 (Some Automobile) 3 [1; 2; 3] sample_game in
  r.1 = true /\ exists e', entities r.2 !! 6 = Some e' /\ position_known e' = false /\ model e' = None.
Proof.
  intros r. assert (Hr : r = (true, r.2)) by (vm_compute; reflexivity). split; [by rewrite Hr|].
  destruct (@create_payload_unparsed null_libm 7 6 1 (Some Automobile) 3 [1; 2; 3] sample_game r.2 Hr)
    as (t & e' & _ & He & _ & _ & Hn).
  exists e'. split; [done|]. destruct Hn as (Hp & Hm & _); [vm_compute; reflexivity|]. by split.
Defined.

(** the client simulating a server-authored entity can re-create it under
    its own uniqifier; the entity stops being the server's, and is destroyed
    instead of reassigned when that client leaves. *)
Theorem recreate_takes_server_entity `{Libm} source id uniq t token blob g e entries :
  game_ok g -> entities g !! id = Some e -> server_owned e = true -> owner e = source -> uniqifier e = uniq ->
  allows_client_create (routing_buckets g) source = true ->
  exists g', apply_create source id uniq (Some t) token blob g = (true, g') /\
    (exists e', entities g' !! id = Some e' /\ server_owned e' = false /\ owner e' = source) /\
    (entries ≡ₚ map_to_list (entities g') -> exists l g'', remove_client source entries g' = Some (l, g'') /\ entities g'' !! id = None).
Proof.
  intros Hg He Hs Ho Hu Ha.
  assert (Hc : create_conflicts source uniq (entities g !! id) = false) by (rewrite He; cbn; lia).
  eexists. unfold apply_create. rewrite Ha, Hc. cbn [negb]. split; [done|].
  set (e' := apply_sync_data _ _). set (g1 := g <| entities := _ |> <| routing_buckets := _ |>).
  assert (He' : e' = created_entity source id uniq t token (gs_frame_index g) (player_bucket (routing_buckets g) source) blob (entities g !! id))
    by (unfold e'; cbn [data created_entity]; by rewrite parse_nothing, apply_default).
  assert (Hlk : entities g1 !! id = Some e') by (change (<[id := e']> (entities g) !! id = Some e'); apply lookup_insert_eq).
  split; [exists e'; rewrite He'; split_and!; [by rewrite <- He'|done|done]|]. intros Hp.
  assert (Hg1 : game_ok g1).
  { pose proof (update_effect source g id e e' Hg He Ho) as Hup. apply (reshaped_ok (g <| entities := <[id := e']> (entities g) |>)); [apply registry_reshaped|].
    apply Hup. by rewrite He'. }
  destruct (remove_client_spec source entries g1 Hg1 Hp) as (l & g2 & Hl & _ & _ & _ & Hent & _).
  exists l, g2. split; [done|]. rewrite Hent, Hlk, He'. cbn [mbind option_bind]. unfold after_leave. cbn [owner server_owned created_entity].
  by rewrite Z.eqb_refl.
Qed.

Definition server_game : ServerGameState := alter_entity 5 (fun e => e <| server_owned := true |>) sample_game.

Lemma server_game_ok : game_ok server_game.
Proof. eapply reshaped_ok; [by apply alter_entity_reshaped|apply sample_game_ok]. Qed.

Lemma recreate_takes_server_entity_witness :
  exists g', @apply_create null_libm 1 5 9 (Some Automobile) 3 [] server_game = (true, g') /\
    (exists e', entities g' !! 5 = Some e' /\ server_owned e' = false /\ owner e' = 1).
Proof.
  destruct (@recreate_takes_server_entity null_libm 1 5 9 Automobile 3 [] server_game
    (sample_entity <| server_owned := true |>) []) as (g' & H1 & H2 & _); try reflexivity.
  - apply server_game_ok.
  - exists g'. split; [exact H1|exact H2].
Defined.

(** *** A lease that outlives its id *)

Section stale.
#[local] Existing Instance null_libm.

Definition after_lease (source : Z) (g : ServerGameState) : ServerGameState :=
  default g (snd <$> lease_object_ids source 1 g).
Definition after_upload (source : Z) (rs : list InboundRecord) (g : ServerGameState) : ServerGameState :=
  default g (ingest_all source rs g).
Definition after_remove (source : Z) (g : ServerGameState) : ServerGameState :=
  default g (snd <$> remove_client source [] g).

Definition stale_upload : list InboundRecord := [InClone true 1 9 (Some Automobile) 3 [7]; InRemove 1 9].
Definition stale_0 : ServerGameState := game_new true false.
Definition stale_1 : ServerGameState := after_lease 1 stale_0.
Definition stale_2 : ServerGameState := after_upload 1 stale_upload stale_1.
Definition stale_3 : ServerGameState := after_lease 2 stale_2.
Definition stale_4 : ServerGameState := after_remove 1 stale_3.
Definition stale_5 : ServerGameState := after_lease 3 stale_4.

Lemma after_lease_step source g : game_ok g -> game_step g (after_lease source g).
Proof.
  intros Hg. destruct (lease_ok source 1 g Hg) as (l & g1 & _ & Hl & _). unfold after_lease. rewrite Hl.
  by eapply step_lease.
Qed.

Lemma stale_run : rtc game_step stale_0 stale_5.
Proof.
  assert (H0 : game_ok stale_0) by apply with_build_ok.
  assert (S1 : game_step stale_0 stale_1) by by apply after_lease_step.
  pose proof (reachable_step _ _ S1 H0) as H1.
  assert (S2 : game_step stale_1 stale_2).
  { assert (Hh : gs_length_hack stale_1 = false) by (vm_compute; reflexivity).
    apply (step_ingest 1 stale_upload); [rewrite Hh; clear Hh|].
    - repeat apply Forall_cons_2; [| |done].
      + split; [|by compute]. split_and!; try by compute. split; [|by compute].
        apply (bool_decide_eq_true_1 (bytes_ok [7])). by vm_compute.
      + split; by compute.
    - vm_compute. reflexivity. }
  pose proof (reachable_step _ _ S2 H1) as H2.
  assert (S3 : game_step stale_2 stale_3) by by apply after_lease_step.
  pose proof (reachable_step _ _ S3 H2) as H3.
  assert (S4 : game_step stale_3 stale_4).
  { apply (step_leave 1 [] _ []); [vm_compute; reflexivity|vm_compute; reflexivity]. }
  pose proof (reachable_step _ _ S4 H3) as H4.
  assert (S5 : game_step stale_4 stale_5) by by apply after_lease_step.
  eapply rtc_l; [exact S1|]. eapply rtc_l; [exact S2|]. eapply rtc_l; [exact S3|].
  eapply rtc_l; [exact S4|]. by eapply rtc_l; [exact S5|].
Qed.
End stale.

(** two clients can hold the same leased id.  A client that spends a lease
    and removes the entity keeps the id in its list; when the id has been leased
    to another client and the first one leaves, the second one's lease is
    freed and the id is handed out again. *)
Theorem stale_lease_shared :
  exists (Hm : Libm) g, rtc (@game_step Hm) (game_new true false) g /\ 1 ∈ leases_of g 2 /\ 1 ∈ leases_of g 3.
Proof.
  exists null_libm, stale_5. split; [apply stale_run|]. split.
  - assert (H : leases_of stale_5 2 = [1]) by (vm_compute; reflexivity). rewrite H. by left.
  - assert (H : leases_of stale_5 3 = [1]) by (vm_compute; reflexivity). rewrite H. by left.
Qed.

Lemma registry_invariant_witness :
  (id_state stale_5 1 = Some Used <-> is_Some (entities stale_5 !! 1)) /\ is_Some (id_state stale_5 1).
Proof.
  destruct (@registry_invariant null_libm true false default_build stale_5 stale_run) as (H1 & _ & H3).
  split.
  - apply H1. assert (Hm : max_object_id stale_5 = 8191) by (vm_compute; reflexivity). rewrite Hm. lia.
  - apply (H3 3). assert (Hl : leases_of stale_5 3 = [1]) by (vm_compute; reflexivity). rewrite Hl. by left.
Defined.
