(* ===== verification/Outbound.v ===== *)
(** * What the ticks put on the wire (src/crates/baston-zone/src/onesync/mod.rs)

    Every run of the game state keeps the fields of its entities and of the
    clients' views within the widths of the records that carry them, so the
    packets of a planned tick always decode to the plan. No definitions of the
    code: the operations are those of GameState.v, Ingest.v and InterestNg.v. *)

From S2P Require Import Prelude F32 MessageBuffer Reliability Clone SyncTrees SyncParse SyncWrite RoutingBucket InterestNg Packet GameState Ingest.

(** ** The fields a record carries *)

Definition carried_of (e : ServerEntity) : Z * Z * list Z * list Z * Z :=
  (uniqifier e, creation_token e, data e, create_data e, frame_index e).

Definition fits (f : Z * Z * list Z * list Z * Z) : Prop :=
  let '(uniq, token, d, cd, frame) := f in
  is_u 16 uniq /\ is_u 32 token /\ blob_ok d /\ blob_ok cd /\ is_u 64 frame.

(** A view's key and uniqifier, as a removal carries them. *)
Definition removable (hack : bool) (id uniq : Z) : Prop := oid_ok hack id /\ is_u 16 id /\ is_u 16 uniq.

Definition views_fit (hack : bool) (vs : gmap Z EntityView) : Prop :=
  forall id w, vs !! id = Some w -> removable hack id (view_uniqifier w).

Record carried (g : ServerGameState) : Prop := {
  carried_frame : is_u 64 (gs_frame_index g);
  carried_entity : forall id e, entities g !! id = Some e -> fits (carried_of e);
  carried_views : forall s c, clients g !! s = Some c -> views_fit (gs_length_hack g) (views (view c))
}.

Lemma carried_wire g e : game_ok g -> carried g -> in_world g e -> wire_ok g e.
Proof.
  intros Hg [_ He _] [id Hid]. destruct (He id e Hid) as (? & ? & ? & ? & _).
  destruct (ok_entity g Hg id e Hid) as [Ho Hr]. subst id. unfold in_range in Hr. rewrite (ok_mode g Hg) in Hr.
  split; try done; unfold oid_ok, is_u; destruct (gs_length_hack g); cbn; unfold MAX_OBJECT_ID_BEYOND, MAX_OBJECT_ID_NATIVE in Hr; lia.
Qed.

(** An entity of the tick's snapshot. *)
Lemma snapshot_entity g s : s ∈ world_snapshot g ->
  exists e, in_world g e /\ s = snapshot_of e.
Proof.
  unfold world_snapshot. rewrite sort_by_perm. intros (e & -> & He)%list_elem_of_fmap.
  exists e. split; [|done]. apply list_elem_of_In, filter_In in He as [He _].
  apply list_elem_of_In in He. by apply (in_world_values g (entity_values g)).
Qed.

(** ** A tick of a client keeps its views within the widths *)

Section tick.
Context (focus fvel : vec3) (bucket : Z) (world : list EntitySnapshot) (index : SpatialIndex) (cfg : InterestConfig) (hack : bool).
Hypothesis world_fits : forall e, e ∈ world -> removable hack (InterestNg.object_id e) (InterestNg.uniqifier e) /\ is_u 64 (InterestNg.frame_index e).

Lemma insert_fits vs id w : views_fit hack vs -> removable hack id (view_uniqifier w) -> views_fit hack (<[id := w]> vs).
Proof. intros Hv Hw id' w' [[<- <-]|[_ H]]%lookup_insert_Some; [done|by apply Hv]. Qed.

Lemma visits_fit self is_ st : views_fit hack st.1 ->
  views_fit hack (foldl (visit self focus fvel bucket world cfg) st is_).1.
Proof.
  revert st. induction is_ as [|i is_ IH]; intros st Hv; cbn [foldl]; [done|]. apply IH.
  destruct (visit_cases self focus fvel bucket world cfg st i) as [->|(e & p & He & _ & ->)]; [done|].
  apply insert_fits; [done|]. apply list_elem_of_lookup_2 in He. by apply world_fits.
Qed.

Lemma pass_fits v : views_fit hack (views v) -> views_fit hack (pass focus fvel bucket world index cfg v).1.
Proof.
  intros Hv. apply visits_fit. cbn [fst]. intros id w. rewrite reset_seen_lookup.
  destruct (views v !! id) as [w0|] eqn:E; [|done]. intros [= <-]. by apply (Hv id w0).
Qed.

(** A planned id is an entity of the snapshot, whose frame is its base frame. *)
Definition planned (vs : gmap Z EntityView) (id : Z) : Prop :=
  exists e, e ∈ world /\ InterestNg.object_id e = id /\ base_frame_of <$> vs !! id = Some (InterestNg.frame_index e).

(** What the send loop keeps. *)
Definition sending_fits (st : SendState) : Prop :=
  views_fit hack (send_views st) /\ Forall (planned (send_views st)) (creates (plan st) ++ syncs (plan st)).

Lemma turn_fits c e st st' : world !! Z.to_nat (cand_index c) = Some e -> InterestNg.object_id e = cand_id c ->
  sending_fits st -> turn cfg c e st st' -> sending_fits st'.
Proof.
  intros He Hid [Hv Hb] Ht. apply list_elem_of_lookup_2 in He.
  assert (Hnew : forall w w', send_views st !! cand_id c = Some w -> base_frame_of w' = InterestNg.frame_index e ->
    view_uniqifier w' = view_uniqifier w -> views_fit hack (<[cand_id c := w']> (send_views st)) /\
    (forall id, id = cand_id c \/ id ∈ creates (plan st) ++ syncs (plan st) -> planned (<[cand_id c := w']> (send_views st)) id)).
  { intros w w' Hw Hbase Hu. split; [apply insert_fits; [done|rewrite Hu; by apply (Hv (cand_id c) w)]|].
    intros id Hin. unfold planned. destruct (decide (cand_id c = id)) as [<-|Hne].
    - exists e. rewrite lookup_insert_eq. cbn. by rewrite Hbase.
    - rewrite lookup_insert_ne by done. destruct Hin as [->|Hin]; [done|]. rewrite Forall_forall in Hb. by apply Hb. }
  destruct Ht as [|w w' Hw _ _ _ Hbase Hu|w w' Hw _ _ _ Hbase _ Hu]; [by split|..];
    destruct (Hnew w w' Hw Hbase Hu) as [H1 H2]; (split; [exact H1|]);
    apply Forall_forall; intros id Hin; apply H2; cbn [plan creates syncs] in Hin;
    rewrite !elem_of_app, list_elem_of_singleton in *; tauto.
Qed.

Lemma planned_bases v ids : Forall (planned (views v)) ids -> bases_ok v ids.
Proof.
  intros H. eapply Forall_impl; [exact H|]. intros id (e & He & _ & Hb). unfold base_frame. rewrite Hb. by apply world_fits.
Qed.

(** The plan of a tick fits its records, and so do the views it leaves. *)
Lemma tick_fits v p v' : views_fit hack (views v) ->
  tick_with_context focus fvel bucket world index cfg v = Some (p, v') ->
  views_fit hack (views v') /\ Forall (fun r => removable hack r.1 r.2) (removes p) /\
  Forall (planned (views v')) (creates p ++ syncs p).
Proof.
  intros Hv Ht. pose proof (pass_fits v Hv) as Hp.
  destruct (tick_rule focus fvel bucket world index cfg v sending_fits) as (st & Ht' & Hs & [Hf Hb]).
  - intros c e st st' _. apply turn_fits.
  - split; [|constructor]. cbn [start_of send_views]. intros id w. rewrite drop_exits_lookup.
    case_decide; [done|apply Hp].
  - rewrite Ht in Ht'. injection Ht' as -> ->. split_and!; [exact Hf| |exact Hb].
    rewrite (sending_removes _ _ _ _ Hs). apply Forall_take, Forall_forall. intros [id u] Hin.
    apply exits_spec in Hin as (w & Hw & _ & ->). by apply (Hp id w).
Qed.
End tick.

Lemma world_removable g : game_ok g -> carried g -> forall e, e ∈ world_snapshot g ->
  removable (gs_length_hack g) (InterestNg.object_id e) (InterestNg.uniqifier e) /\ is_u 64 (InterestNg.frame_index e).
Proof.
  intros Hg Hc s (e & Hin & ->)%snapshot_entity. pose proof (carried_wire g e Hg Hc Hin) as [? ? ? ? ? ?].
  destruct Hin as [id Hid]. destruct (carried_entity g Hc id e Hid) as (_ & _ & _ & _ & Hf). by split.
Qed.

(** ** Every operation keeps the fields *)

(** What is not new is as it was. *)
Record keeps (g g' : ServerGameState) : Prop := {
  keeps_hack : gs_length_hack g' = gs_length_hack g;
  keeps_frame : is_u 64 (gs_frame_index g) -> is_u 64 (gs_frame_index g');
  keeps_entity : forall id e', entities g' !! id = Some e' ->
    fits (carried_of e') \/ exists e, entities g !! id = Some e /\ carried_of e' = carried_of e;
  keeps_views : forall s c', clients g' !! s = Some c' -> views_fit (gs_length_hack g) (views (view c')) \/
    exists c, clients g !! s = Some c /\
      (views_fit (gs_length_hack g) (views (view c)) -> views_fit (gs_length_hack g) (views (view c')))
}.

Lemma keeps_carried g g' : keeps g g' -> carried g -> carried g'.
Proof.
  intros [Hh Hf He Hv] [Cf Ce Cv]. split; [by apply Hf| |].
  - intros id e' Hl. destruct (He id e' Hl) as [|(e & Hl0 & ->)]; [done|by eapply Ce].
  - intros s c' Hl. rewrite Hh. destruct (Hv s c' Hl) as [|(c & Hl0 & H)]; [done|]. by eapply H, Cv.
Qed.

Lemma keeps_refl g : keeps g g.
Proof. split; [done|done|by intros id e' H; right; exists e'|by intros s c' H; right; exists c']. Qed.

Lemma keeps_trans g1 g2 g3 : keeps g1 g2 -> keeps g2 g3 -> keeps g1 g3.
Proof.
  intros [Hh Hf He Hv] [Hh' Hf' He' Hv']. split; [by rewrite Hh'|auto| |].
  - intros id e3 H3. destruct (He' id e3 H3) as [|(e2 & H2 & ->)]; [by left|apply (He id e2 H2)].
  - intros s c3 H3. rewrite Hh in Hv'. destruct (Hv' s c3 H3) as [|(c2 & H2 & H23)]; [by left|].
    destruct (Hv s c2 H2) as [|(c1 & H1 & H12)]; [left; by apply H23|right; exists c1; auto].
Qed.

(** Only entities change, each keeping its carried fields unless they fit. *)
Lemma keeps_entities g g' : gs_length_hack g' = gs_length_hack g -> gs_frame_index g' = gs_frame_index g -> clients g' = clients g ->
  (forall id e', entities g' !! id = Some e' ->
     fits (carried_of e') \/ exists e, entities g !! id = Some e /\ carried_of e' = carried_of e) -> keeps g g'.
Proof. intros Hh Hf Hc He. split; [done|by rewrite Hf|done|]. rewrite Hc. intros s c' H. right. by exists c'. Qed.

(** Only clients change. *)
Lemma keeps_clients g g' : gs_length_hack g' = gs_length_hack g -> gs_frame_index g' = gs_frame_index g -> entities g' = entities g ->
  (forall s c', clients g' !! s = Some c' -> views_fit (gs_length_hack g) (views (view c')) \/
    exists c, clients g !! s = Some c /\
      (views_fit (gs_length_hack g) (views (view c)) -> views_fit (gs_length_hack g) (views (view c')))) -> keeps g g'.
Proof. intros Hh Hf He Hv. split; [done|by rewrite Hf| |done]. rewrite He. intros id e' H. right. by exists e'. Qed.

Lemma keeps_alter id f g : (forall e, carried_of (f e) = carried_of e) -> keeps g (alter_entity id f g).
Proof.
  intros Hf. apply keeps_entities; try done. intros id' e'.
  change (alter f id (entities g) !! id' = Some e' -> fits (carried_of e') \/ exists e, entities g !! id' = Some e /\ carried_of e' = carried_of e).
  intros [(-> & e & He & ->)|[_ He]]%lookup_alter_Some; right; [exists e; by rewrite Hf|by exists e'].
Qed.

Lemma keeps_fmap f g : (forall e, carried_of (f e) = carried_of e) -> keeps g (g <| entities := f <$> entities g |>).
Proof.
  intros Hf. apply keeps_entities; try done. intros id e'.
  change ((f <$> entities g) !! id = Some e' -> fits (carried_of e') \/ exists e, entities g !! id = Some e /\ carried_of e' = carried_of e).
  rewrite lookup_fmap. destruct (entities g !! id) as [e|]; [|done]. intros [= <-]. right. by exists e.
Qed.

Lemma keeps_with_client source f g : (forall c, view (f c) = view c) -> keeps g (with_client source f g).
Proof.
  intros Hf. apply keeps_clients; try done. intros s c'.
  change (<[source := f (default (client_new (u16 source)) (clients g !! source))]> (clients g) !! s = Some c' ->
    views_fit (gs_length_hack g) (views (view c')) \/ exists c, clients g !! s = Some c /\
      (views_fit (gs_length_hack g) (views (view c)) -> views_fit (gs_length_hack g) (views (view c')))).
  intros [[<- <-]|[_ H]]%lookup_insert_Some; [|right; by exists c'].
  destruct (clients g !! source) as [c|] eqn:E; cbn [default]; rewrite Hf; [right; by exists c|].
  left. intros id w Hw. change ((∅ : gmap Z EntityView) !! id = Some w) in Hw. by rewrite lookup_empty in Hw.
Qed.

Lemma keeps_with_view source f g : (forall hack v, views_fit hack (views v) -> views_fit hack (views (f v))) ->
  keeps g (with_view source f g).
Proof.
  intros Hf. unfold with_view. destruct (clients g !! source) as [c|] eqn:E; [|apply keeps_refl].
  apply keeps_clients; try done. intros s c'.
  change (<[source := c <| view := f (view c) |>]> (clients g) !! s = Some c' ->
    views_fit (gs_length_hack g) (views (view c')) \/ exists c, clients g !! s = Some c /\
      (views_fit (gs_length_hack g) (views (view c)) -> views_fit (gs_length_hack g) (views (view c')))).
  intros [[<- <-]|[_ H]]%lookup_insert_Some; right; [exists c; split; [done|]; apply Hf|by exists c'].
Qed.

Lemma keeps_rewritten id s oe g g' : rewritten id s oe g g' -> gs_frame_index g' = gs_frame_index g ->
  (forall e, oe = Some e -> fits (carried_of e)) -> keeps g g'.
Proof.
  intros [_ Hh Hc _ He] Hf Hoe. apply keeps_entities; try done. intros id' e'. rewrite He.
  case_decide; [intros ->; left; by apply Hoe|intros Hx; right; by exists e'].
Qed.

(** *** Feedback of a client *)

Lemma alter_view_fits hack f id v : (forall w, view_uniqifier (f w) = view_uniqifier w) ->
  views_fit hack (views v) -> views_fit hack (views (alter_view f id v)).
Proof.
  intros Hf Hv id' w'. cbn [alter_view views].
  intros [(-> & w & Hw & ->)|[_ Hw]]%lookup_alter_Some; [rewrite Hf|]; by eapply Hv.
Qed.

Lemma rollback_all_fits hack n v : views_fit hack (views v) -> views_fit hack (views (rollback_all n v)).
Proof.
  intros Hv id w. cbn [rollback_all views]. rewrite lookup_fmap. destruct (views v !! id) as [w0|] eqn:E; [|done].
  intros [= <-]. by apply (Hv id w0).
Qed.

Lemma honour_fits hack ign rec v : views_fit hack (views v) -> views_fit hack (views (honour_lists ign rec v)).
Proof.
  intros Hv. unfold honour_lists.
  assert (H1 : forall v, views_fit hack (views v) ->
    views_fit hack (views (foldl (fun v e => rollback (Reliability.object_id e) (last_frame e) false v) v ign))).
  { clear. induction ign as [|e ign IH]; intros v Hv; cbn [foldl]; [done|]. apply IH. by apply alter_view_fits. }
  specialize (H1 v Hv). revert H1. generalize (foldl (fun v e => rollback (Reliability.object_id e) (last_frame e) false v) v ign).
  clear. induction rec as [|id rec IH]; intros v Hv; cbn [foldl]; [done|]. apply IH. by apply alter_view_fits.
Qed.

(** *** Ids, leases, departures *)

Lemma keeps_same g g' : gs_length_hack g' = gs_length_hack g -> gs_frame_index g' = gs_frame_index g ->
  clients g' = clients g -> entities g' = entities g -> keeps g g'.
Proof. intros Hh Hf Hc He. apply keeps_entities; try done. rewrite He. intros id e' H. right. by exists e'. Qed.

Lemma keeps_set_id id s g g' : set_id id s g = Some g' -> keeps g g'.
Proof. unfold set_id. destruct (id_state g id); [|done]. intros [= <-]. by apply keeps_same. Qed.

Lemma keeps_forget id g g' : forget_entity id g = Some g' -> keeps g g'.
Proof.
  unfold forget_entity. destruct (set_id _ _ _) as [g1|] eqn:E; [|done]. intros [= <-].
  eapply keeps_trans; [eapply keeps_trans; [|by eapply keeps_set_id]|by apply keeps_same].
  apply keeps_entities; try done. intros id' e'.
  change (delete id (entities g) !! id' = Some e' -> fits (carried_of e') \/ exists e, entities g !! id' = Some e /\ carried_of e' = carried_of e).
  intros [_ H]%lookup_delete_Some. right. by exists e'.
Qed.

Lemma keeps_lease_scan n cands : forall g l g', lease_scan n cands g = Some (l, g') -> keeps g g'.
Proof.
  revert n. induction cands as [|id cands IH]; intros n g l g'.
  { destruct n; intros [= _ <-]; apply keeps_refl. }
  destruct n as [|n]; [intros [= _ <-]; apply keeps_refl|]. cbn [lease_scan].
  destruct (id_state g id) as [[]|]; [|apply IH..|done].
  destruct (set_id id Leased g) as [g1|] eqn:E; [|done]. destruct (lease_scan n cands g1) as [[l1 g2]|] eqn:El; [|done].
  intros [= _ <-]. eapply keeps_trans; [by eapply keeps_set_id|by eapply IH].
Qed.

(** A loop that panics or keeps. *)
Lemma keeps_loop {A} (f : option ServerGameState -> A -> option ServerGameState) :
  (forall x, f None x = None) -> (forall x g g', f (Some g) x = Some g' -> keeps g g') ->
  forall l g g', foldl f (Some g) l = Some g' -> keeps g g'.
Proof.
  intros Hn Hs. induction l as [|x l IH]; intros g g'; cbn [foldl]; [intros [= <-]; apply keeps_refl|].
  destruct (f (Some g) x) as [g1|] eqn:E; [intros H; eapply keeps_trans; [by eapply Hs|by apply IH]|].
  assert (Hl : foldl f None l = None) by (clear IH; induction l as [|y l IHl]; cbn [foldl]; [done|by rewrite Hn]).
  by rewrite Hl.
Qed.

Lemma keeps_leave source entries g l g' : remove_client source entries g = Some (l, g') -> keeps g g'.
Proof.
  unfold remove_client. set (g0 := match clients g !! source with None => _ | Some _ => _ end).
  destruct g0 as [g1|] eqn:E0; subst g0.
  2:{ set (orphaned := (List.filter _ entries).*1). clearbody orphaned.
      assert (H : foldl drop_orphan None orphaned = None) by (induction orphaned as [|y o IHo]; cbn [foldl]; [done|exact IHo]).
      by rewrite H. }
  destruct (foldl drop_orphan (Some g1) _) as [g2|] eqn:E2; [|done]. intros [= _ <-].
  apply (keeps_trans g g1).
  - destruct (clients g !! source) as [c|]; [|injection E0 as <-; apply keeps_refl].
    eapply keeps_trans; [|refine (keeps_loop release_lease _ _ _ _ _ E0); [done|]].
    + apply keeps_clients; try done. intros s c'.
      change (delete source (clients g) !! s = Some c' -> views_fit (gs_length_hack g) (views (view c')) \/
        exists c, clients g !! s = Some c /\ (views_fit (gs_length_hack g) (views (view c)) -> views_fit (gs_length_hack g) (views (view c')))).
      intros [_ H]%lookup_delete_Some. right. by exists c'.
    + intros id h h'. unfold release_lease. destruct (id_state h id) as [[]|]; try (intros [= <-]; apply keeps_refl).
      by apply keeps_set_id.
  - eapply keeps_trans; [refine (keeps_loop drop_orphan _ _ _ _ _ E2); [done|]|by apply keeps_same].
    intros id h h'. unfold drop_orphan. destruct (entities h !! id) as [e|]; [|apply keeps_forget].
    destruct (server_owned e); [|apply keeps_forget]. intros [= <-]. by apply keeps_alter.
Qed.

Section fields.
Context `{Libm}.

Lemma keeps_spawn id ty mdl p hd dyn g b g' : is_u 64 (gs_frame_index g) ->
  spawn_server_entity_with_id id ty mdl p hd dyn g = Some (b, g') -> keeps g g'.
Proof.
  intros Hf. unfold spawn_server_entity_with_id. destruct (_ || _); [intros [= _ <-]; apply keeps_refl|].
  destruct (id_state g id) as [[]|]; try (intros [= _ <-]; apply keeps_refl).
  set (g1 := g <| gs_creation_token := _ |>). set (token := gs_creation_token g1).
  assert (H1 : keeps g g1) by by apply keeps_same.
  destruct (write_sync_tree _ _ _ _ _) as [payload|] eqn:Ew; [|by intros [= _ <-]].
  destruct (sector_of p) as [sec off]. destruct (set_id id Used g1) as [g2|] eqn:E2; [|done]. intros [= _ <-].
  eapply keeps_trans; [exact H1|]. eapply keeps_trans; [by eapply keeps_set_id|].
  apply keeps_entities; try done. intros id' e'.
  match goal with |- entities (_ <| entities := ?m |>) !! _ = _ -> _ => change (m !! id' = Some e' -> fits (carried_of e') \/
    exists e, entities g2 !! id' = Some e /\ carried_of e' = carried_of e) end.
  intros [[<- <-]|[_ Hl]]%lookup_insert_Some; [left|right; by exists e'].
  assert (Hp : blob_ok payload).
  { eapply light_create_blob; [|exact Ew]. destruct (author_light mdl p hd token dyn) as (H3 & H4 & H5).
    unfold authored_nodes. destruct ty; cbn [is_vehicle]; assumption. }
  assert (Hfr : gs_frame_index g2 = gs_frame_index g).
  { unfold set_id in E2. destruct (id_state g1 id); [|done]. by injection E2 as <-. }
  cbn [fits carried_of uniqifier creation_token data create_data frame_index]. rewrite Hfr. split_and!; try done.
  - by apply (is_u_mod 16).
  - by apply (is_u_mod 32).
Qed.

(** *** Uploads *)

Lemma if_some_carried {A} (o : option A) f e : (forall e v, carried_of (f e v) = carried_of e) ->
  carried_of (if_some o f e) = carried_of e.
Proof. intros Hf. destruct o; [apply Hf|done]. Qed.

Lemma apply_sync_data_carried d e : carried_of (apply_sync_data d e) = carried_of e.
Proof.
  unfold apply_sync_data. cbv zeta.
  match goal with |- carried_of (?x <| nodes := _ |>) = _ => change (carried_of x = carried_of e) end.
  rewrite !if_some_carried by done. destruct (_ || _); [|by rewrite !if_some_carried by done].
  match goal with |- carried_of (?x <| position := _ |> <| position_known := _ |>) = _ => change (carried_of x = carried_of e) end.
  by rewrite !if_some_carried by done.
Qed.

Lemma keeps_create source id uniq ty token blob g : is_u 64 (gs_frame_index g) -> is_u 16 uniq -> is_u 32 token -> blob_ok blob ->
  keeps g (apply_create source id uniq ty token blob g).2.
Proof.
  intros Hf Hu Ht Hb. destruct (apply_create_cases source id uniq ty token blob g) as [->|(t & _ & _ & _ & ->)];
    [apply keeps_refl|]. cbn [snd]. eapply keeps_trans; [|by apply keeps_same]. apply keeps_entities; try done. intros id' e'.
  change (<[id := create_result source id uniq t token blob g]> (entities g) !! id' = Some e' -> fits (carried_of e') \/
    exists e, entities g !! id' = Some e /\ carried_of e' = carried_of e).
  intros [[<- <-]|[_ Hl]]%lookup_insert_Some; [left|right; by exists e'].
  unfold create_result. rewrite apply_sync_data_carried. cbn [fits carried_of created_entity uniqifier creation_token data create_data frame_index].
  split_and!; try done.
Qed.

Lemma keeps_sync source id uniq blob g : carried g -> blob_ok blob -> keeps g (apply_sync source id uniq blob g).2.
Proof.
  intros [Cf Ce _] Hb. unfold apply_sync. destruct (entities g !! id) as [e|] eqn:Ee; [|apply keeps_refl].
  destruct (_ || _); [apply keeps_refl|]. destruct blob as [|b blob]; [apply keeps_refl|]. cbn [snd].
  apply keeps_entities; try done. intros id' e'.
  match goal with |- entities (_ <| entities := ?m |>) !! _ = _ -> _ => change (m !! id' = Some e' -> fits (carried_of e') \/
    exists e, entities g !! id' = Some e /\ carried_of e' = carried_of e) end.
  intros [[<- <-]|[_ Hl]]%lookup_insert_Some; [left|right; by exists e'].
  rewrite apply_sync_data_carried. destruct (Ce id e Ee) as (? & ? & _ & ? & _). by split_and!.
Qed.

Lemma keeps_takeover source id target g : keeps g (apply_takeover source id target g).2.
Proof.
  unfold apply_takeover. destruct (negb _); [apply keeps_refl|]. destruct (entities g !! id) as [e|] eqn:Ee; [|apply keeps_refl].
  destruct (owner e =? source); [|apply keeps_refl]. cbn [snd]. apply keeps_entities; try done. intros id' e'.
  match goal with |- entities (_ <| entities := ?m |>) !! _ = _ -> _ => change (m !! id' = Some e' -> fits (carried_of e') \/
    exists e, entities g !! id' = Some e /\ carried_of e' = carried_of e) end.
  intros [[<- <-]|[_ Hl]]%lookup_insert_Some; right; [by exists e|by exists e'].
Qed.

Lemma keeps_record source st r st' : carried (game st) -> inbound_ok (gs_length_hack (game st)) r ->
  ingest_record source st r = Some st' -> keeps (game st) (game st').
Proof.
  intros Hc [Hr _]. destruct r as [c id uniq ty token blob|id uniq|tc id|ts|idx]; cbn [ingest_record inbound_fields_ok] in *.
  - destruct Hr as (_ & Hu & Ht & Hb & _). destruct (id =? 65535); [intros [= <-]; apply keeps_refl|]. destruct c.
    + pose proof (keeps_create source id uniq ty token blob (game st) (carried_frame _ Hc) Hu Ht Hb) as Hk.
      destruct (apply_create _ _ _ _ _ _ _) as [[] g1]; cbn [snd] in Hk; [|by intros [= <-]].
      destruct (set_id id Used g1) as [g2|] eqn:E; [|done]. intros [= <-]. eapply keeps_trans; [done|by eapply keeps_set_id].
    + pose proof (keeps_sync source id uniq blob (game st) Hc Hb) as Hk.
      destruct (apply_sync _ _ _ _ _) as [acc g1]. by intros [= <-].
  - unfold apply_remove. destruct (entities (game st) !! id) as [e|]; [|intros [= <-]; apply keeps_refl].
    destruct (_ && _); [|intros [= <-]; apply keeps_refl].
    destruct (forget_entity id (game st)) as [g1|] eqn:E; [|done]. intros [= <-]. by eapply keeps_forget.
  - pose proof (keeps_takeover source id (if tc =? 0 then u16 source else tc) (game st)) as Hk.
    destruct (apply_takeover _ _ _ _) as [acc g1]. by intros [= <-].
  - intros [= <-]. apply keeps_with_client. intros c. by destruct (_ || _).
  - intros [= <-]. by apply keeps_with_client.
Qed.

Lemma keeps_records source rs : forall st st', carried (game st) -> Forall (inbound_ok (gs_length_hack (game st))) rs ->
  ingest_records source rs st = Some st' -> keeps (game st) (game st').
Proof.
  induction rs as [|r rs IH]; intros st st' Hc Hrs; cbn [ingest_records]; [intros [= <-]; apply keeps_refl|].
  apply Forall_cons in Hrs as [Hr Hrs]. destruct (ingest_record source st r) as [st1|] eqn:E; [|done]. intros Hi.
  pose proof (keeps_record source st r st1 Hc Hr E) as Hk. eapply keeps_trans; [exact Hk|].
  apply IH; [by eapply keeps_carried|by rewrite (keeps_hack _ _ Hk)|done].
Qed.
End fields.

(** *** Every step *)

Section run.
Context `{Libm}.

Lemma keeps_tick_client `{Lz4} source focus cfg g pk g' : game_ok g -> carried g ->
  tick_client source focus cfg g = Some (pk, g') -> keeps g g'.
Proof.
  intros Hg Hc. unfold tick_client. destruct (clients g !! source) as [c|] eqn:Ec; [|intros [= _ <-]; apply keeps_refl].
  destruct (tick_with_context _ _ _ _ _ _ _) as [[p v']|] eqn:Et; [|done]. intros [= _ <-].
  eapply (tick_fits _ _ _ _ _ _ (gs_length_hack g) (world_removable g Hg Hc)) in Et as (Hv & _); [|by eapply carried_views].
  apply keeps_clients; try done. intros s c'.
  match goal with |- clients (_ <| clients := ?m |>) !! _ = _ -> _ => change (m !! s = Some c' -> views_fit (gs_length_hack g) (views (view c')) \/
    exists c0, clients g !! s = Some c0 /\ (views_fit (gs_length_hack g) (views (view c0)) -> views_fit (gs_length_hack g) (views (view c')))) end.
  intros [[<- <-]|[_ Hl]]%lookup_insert_Some; [left; exact Hv|right; by exists c'].
Qed.

Lemma keeps_tick_all `{Lz4} values cs fallback cfg g pk g' : game_ok g -> carried g -> cs ≡ₚ map_to_list (clients g) ->
  tick_clients values cs fallback cfg g = Some (pk, g') -> keeps g g'.
Proof.
  intros Hg Hc Hp. unfold tick_clients. destruct (mapM _ cs) as [plans|] eqn:Em; [|done]. intros [= _ <-].
  assert (Hall : Forall (fun t => views_fit (gs_length_hack g) (views (view t.2))) plans).
  { apply mapM_Some in Em. apply Forall_forall. intros t Ht. apply list_elem_of_lookup in Ht as [i Hi].
    destruct (Forall2_lookup_r _ _ _ _ _ Em Hi) as ([s c] & Hs & Ht). apply list_elem_of_lookup_2 in Hs.
    rewrite Hp, elem_of_map_to_list in Hs. unfold plan_for in Ht. destruct (default _ _) as [f vel] in Ht.
    destruct (tick_with_context _ _ _ _ _ _ _) as [[p v']|] eqn:Et; [|done]. injection Ht as <-.
    eapply (tick_fits _ _ _ _ _ _ (gs_length_hack g) (world_removable g Hg Hc)) in Et as (Hv & _); [exact Hv|by eapply carried_views]. }
  rewrite Forall_forall in Hall. apply keeps_clients; try done. intros s c' Hx. left.
  match type of Hx with clients (_ <| clients := ?m |>) !! _ = _ => change (m !! s = Some c') in Hx end.
  apply elem_of_list_to_map_2, list_elem_of_fmap in Hx as (t & [= -> ->] & Hin). rewrite sort_by_perm in Hin. by apply Hall.
Qed.

Lemma carried_step g g' : game_step g g' -> game_ok g -> carried g -> carried g'.
Proof.
  intros Hs Hg Hc. apply (fun Hk => keeps_carried g g' Hk Hc).
  destruct Hs as [source rs g g' Hrs Hi|source n g l pk g' Hl|source g|source entries g l g' Hp Hl
    |id ty mdl p hd dyn g b g' Hid Hsp|id g b g' Hd|values g _|id b g|r g|id p g|id v g|focus g|g|source n g|source a g
    |Hlz source focus cfg g pk g' Ht|Hlz values cs fallback cfg g pk g' Hp Ht].
  - unfold ingest_all in Hi. set (st := {| game := _; ack := _; outcome := _ |}) in Hi.
    assert (Hk : keeps g (game st)) by by apply keeps_with_client.
    destruct (ingest_records source rs st) as [st'|] eqn:E; [|done]. injection Hi as <-.
    eapply keeps_trans; [exact Hk|]. eapply keeps_records; [by eapply keeps_carried|exact Hrs|exact E].
  - unfold lease_object_ids in Hl. destruct (lease_scan _ _ g) as [[ids g1]|] eqn:E; [|done]. injection Hl as _ _ <-.
    eapply keeps_trans; [by eapply keeps_lease_scan|by apply keeps_with_client].
  - by apply keeps_with_client.
  - by eapply keeps_leave.
  - eapply keeps_spawn; [by apply carried_frame|exact Hsp].
  - unfold despawn_entity in Hd. destruct (entities g !! id) as [e|]; [|injection Hd as _ <-; apply keeps_refl].
    destruct (forget_entity id g) as [g1|] eqn:E; [|done]. injection Hd as _ <-. by eapply keeps_forget.
  - unfold reassign_ownerless_server_entities. destruct (players_of values) as [|pl pls]; [apply keeps_refl|].
    apply keeps_fmap. intros e. unfold adopt. destruct (_ || _); [done|]. by destruct (min_by _ _) as [[o ?]|].
  - eapply keeps_trans; [|by apply keeps_alter]. by apply keeps_same.
  - by apply keeps_same.
  - by apply keeps_alter.
  - by apply keeps_alter.
  - apply keeps_fmap. intros e. destruct (_ && _); [by destruct (focus !! owner e)|done].
  - split; [done|intros _; by apply (is_u_mod 64)|by intros id e' Hx; right; exists e'|by intros s c' Hx; right; exists c'].
  - apply keeps_with_view. intros hack v Hv. apply honour_fits. destruct (missing_frames n) as [[f0 ?]|]; [by apply rollback_all_fits|done].
  - apply keeps_with_view. intros hack v Hv. by apply honour_fits.
  - by eapply keeps_tick_client.
  - by eapply keeps_tick_all.
Qed.

Lemma carried_new big hack b : carried (with_build big hack b).
Proof.
  split; [by compute|..].
  - intros id e Hx. change ((∅ : gmap Z ServerEntity) !! id = Some e) in Hx. by rewrite lookup_empty in Hx.
  - intros s c Hx. change ((∅ : gmap Z ClientState) !! s = Some c) in Hx. by rewrite lookup_empty in Hx.
Qed.

Lemma carried_reachable big hack b g : rtc game_step (with_build big hack b) g -> game_ok g /\ carried g.
Proof.
  intros Hr. assert (H0 : game_ok (with_build big hack b) /\ carried (with_build big hack b))
    by (split; [apply with_build_ok|apply carried_new]).
  revert H0. apply (rtc_invariant game_step (fun g => game_ok g /\ carried g)); [|done].
  intros g1 g2 Hs [Hg Hc]. split; [by eapply reachable_step|by eapply carried_step].
Qed.
End run.

(** ** What reaches the client *)

(** The records a client is due for a planned id: who owns the entity, its
    type, token, uniqifier and frame, and the blob stored for it; a sync only
    when there is one. *)
Definition due_record (g : ServerGameState) (ty : Z) (announced : option NetObjEntityType) (e : ServerEntity) (id : Z) (blob : list Z)
    : OutboundClone := {|
  sync_type := ty; oc_object_id := id; owner_net_id := u16 (owner e); oc_entity_type := announced;
  oc_creation_token := creation_token e; oc_uniqifier := uniqifier e; dependent_frame_index := frame_index e;
  oc_timestamp := u32 (gs_frame_index g); first_frame_update := false; oc_data := blob |}.

Definition due_create (g : ServerGameState) (id : Z) : option OutboundClone :=
  (fun e => due_record g rec.CREATE (Some (entity_type e)) e id (create_data e)) <$> entities g !! id.

Definition due_sync (g : ServerGameState) (id : Z) : option OutboundClone :=
  e ← entities g !! id; if decide (data e = []) then None else Some (due_record g rec.SYNC None e id (data e)).

Lemma planned_due g v ids : game_ok g -> Forall (planned (world_snapshot g) (views v)) ids ->
  omap (plan_clone g v rec.CREATE) ids = omap (due_create g) ids /\ omap (plan_clone g v rec.SYNC) ids = omap (due_sync g) ids /\
  oc_object_id <$> omap (due_create g) ids = ids.
Proof.
  intros Hg Hp. induction Hp as [|id ids (s & Hs & Hid & Hb) _ (IH1 & IH2 & IH3)]; [done|].
  apply snapshot_entity in Hs as (e & [id' He] & ->). destruct (ok_entity g Hg id' e He) as [Hi _].
  change (object_id e = id) in Hid. change (InterestNg.frame_index (snapshot_of e)) with (frame_index e) in Hb.
  assert (He' : entities g !! id = Some e) by (by rewrite <- Hid, Hi). clear id' He Hi.
  assert (Hc : plan_clone g v rec.CREATE id = due_create g id).
  { unfold plan_clone, due_create, base_frame, due_record. rewrite He', Hb, Hid. reflexivity. }
  assert (Hy : plan_clone g v rec.SYNC id = due_sync g id).
  { unfold plan_clone, due_sync, base_frame, due_record. rewrite He', Hb, Hid. cbn [mbind option_bind].
    change (rec.SYNC =? rec.CREATE) with false. cbv iota. destruct (data e) as [|b d]; reflexivity. }
  cbn [omap list_omap]. rewrite Hc, Hy, IH1, IH2. split_and!; [done|done|].
  unfold due_create at 1. rewrite He'. cbn [fmap option_fmap option_map list_fmap]. f_equal. exact IH3.
Qed.

(** C9: the packets of a client's tick reach it. In any state the operations of
    the game state lead to, in either id mode, as long as the frame index is
    below 2^56: whatever a tick plans for a client, from whatever focus and
    neighbourhood, the packets made of the plan are read by a client of that
    mode ([client_decode]; in the 13-bit mode that is [decode_downlink]) as
    exactly the plan: timestamps aside, a create for every planned one, in
    order, carrying the create blob stored for the entity, then a sync for each
    planned one with data, carrying that, then the removals; the fragments are
    numbered and only the last is flagged. *)
Theorem plan_reaches_client `{Lz4Laws} `{Libm} big hack b g source c focus fvel bucket index cfg p v :
  rtc game_step (with_build big hack b) g -> is_u 56 (gs_frame_index g) -> clients g !! source = Some c ->
  tick_with_context focus fvel bucket (world_snapshot g) index cfg (view c) = Some (p, v) ->
  (exists batches,
    client_decode (gs_length_hack g) <$> encode_plan g v p
    = imap (fun i rs => Some (downlink_of MSG_PACKED_CLONES (gs_frame_index g) (S i) (length batches) rs)) batches /\
    filter (fun r => is_timestamp r = false) (concat batches) =
      (ORClone <$> omap (due_create g) (creates p)) ++ (ORClone <$> omap (due_sync g) (syncs p)) ++
      ((fun r => ORRemove false r.1 r.2) <$> removes p)) /\
  oc_object_id <$> omap (due_create g) (creates p) = creates p.
Proof.
  intros Hr Hf Hc Ht. destruct (carried_reachable big hack b g Hr) as [Hg Hca].
  pose proof (world_removable g Hg Hca) as Hworld.
  eapply (tick_fits _ _ _ _ _ _ (gs_length_hack g) Hworld) in Ht as (_ & Hrm & Hp); [|by eapply carried_views].
  pose proof (planned_bases _ _ Hworld v _ Hp) as Hb. apply Forall_app in Hp as [Hpc Hps].
  destruct (planned_due g v _ Hg Hpc) as (Hcr & _ & Hids). destruct (planned_due g v _ Hg Hps) as (_ & Hsy & _).
  split; [|exact Hids]. rewrite <- Hcr, <- Hsy. apply plan_packets_decode; [done| |done|done].
  intros e He. by apply carried_wire.
Qed.

(** Client 1 uploads a car, which is placed; client 2 joins. *)
Definition upload : list InboundRecord := [InClone true 5 77 (Some Automobile) 9 [1; 2]].

Definition game_uploaded : ServerGameState :=
  default (game_new true false) (@ingest_all null_libm 1 upload (game_new true false)).

Definition game_joined : ServerGameState := add_client 2 (set_entity_position 5 zero_vec game_uploaded).

Lemma game_joined_reachable : rtc (@game_step null_libm) (with_build true false default_build) game_joined.
Proof.
  assert (Hi : @ingest_all null_libm 1 upload (game_new true false) = Some game_uploaded) by (vm_compute; reflexivity).
  eapply rtc_l; [eapply step_ingest; [|exact Hi]|].
  { constructor; [|constructor]. split; [|by compute].
    split_and!; try by compute. split; [repeat constructor; by compute|by compute]. }
  eapply rtc_l; [apply (step_place 5 zero_vec)|]. eapply rtc_l; [apply (step_add 2)|]. apply rtc_refl.
Qed.

Lemma game_joined_frame : gs_frame_index game_joined = 1.
Proof. vm_compute. reflexivity. Qed.

Lemma game_joined_mode : gs_length_hack game_joined = false.
Proof. vm_compute. reflexivity. Qed.

Lemma game_joined_client : clients game_joined !! 2 = Some (client_new 2).
Proof. vm_compute. reflexivity. Qed.

Definition sample_index : SpatialIndex := InterestNg.build (world_snapshot game_joined) (query_radius default_config).

Lemma plan_reaches_client_witness : exists p v batches,
  tick_with_context zero_vec zero_vec 0 (world_snapshot game_joined) sample_index default_config (view (client_new 2)) = Some (p, v) /\
  creates p = [5] /\
  @client_decode lz4_stored false <$> @encode_plan lz4_stored game_joined v p
    = imap (fun i rs => Some (downlink_of MSG_PACKED_CLONES 1 (S i) (length batches) rs)) batches.
Proof.
  assert (Hp : exists p v, tick_with_context zero_vec zero_vec 0 (world_snapshot game_joined) sample_index default_config (view (client_new 2))
    = Some (p, v) /\ creates p = [5]) by (vm_compute; by eexists _, _).
  destruct Hp as (p & v & Ht & Hp). exists p, v.
  assert (Hf : is_u 56 (gs_frame_index game_joined)) by (rewrite game_joined_frame; by compute).
  destruct (@plan_reaches_client lz4_stored lz4_stored_laws null_libm true false default_build game_joined 2 (client_new 2)
    zero_vec zero_vec 0 sample_index default_config p v game_joined_reachable Hf game_joined_client Ht) as [(bs & Hb & _) _].
  exists bs. rewrite game_joined_frame, game_joined_mode in Hb. split_and!; [exact Ht|exact Hp|exact Hb].
Defined.
