(* ===== verification/EntityStore.v ===== *)
(** * The zone's entity store and its replica at the gateway

    - src/crates/baston-protocol/src/entity.rs: the entity model and the
      dirty flags;
    - src/crates/baston-zone/src/entity_manager.rs: the store, one operation
      per method. Every mutating method works in two atomic halves: first on
      the entity under its map shard's lock, then, that lock released, on the
      dirty queue under the queue's mutex. The halves are definitions of their
      own ([EntityManager.spawn_half], ...), so that both an uninterrupted call and the
      interleavings of several threads are compositions of the same code;
    - src/crates/baston-zone/src/state_sync.rs: one tick of the emitter;
    - src/crates/baston-gateway/src/state_aggregator.rs: the merge of a batch
      into the aggregated world.

    An entity id (a UUID) is the number its 128 bits spell; allocating one is
    third-party code, so a new id is an argument. bincode and NATS carry a
    batch unchanged or lose it: an emission either reaches the aggregator or
    does not. *)

From S2P Require Import Prelude F32.

(** ** Entities (entity.rs) *)

Definition EntityId : Type := Z.

Inductive EntityType := Player | Vehicle | Ped | Object.

#[export] Instance EntityType_eq_dec : EqDecision EntityType.
Proof. solve_decision. Defined.

Inductive EntityExtra :=
| ExtraPlayer (is_in_vehicle : bool) (vehicle_id : option EntityId)
| ExtraVehicle (speed engine_health : f32) (doors_open : Z)
| ExtraPed (is_fleeing : bool) (current_weapon : Z)
| ExtraObject (is_static : bool).

Record EntityState := {
  entity_id : EntityId;
  entity_type : EntityType;
  network_owner : option Z;
  model_hash : Z;
  coords : vec3;
  heading : f32;
  velocity : vec3;
  health : f32;
  armour : f32;
  extra : EntityExtra
}.

#[export] Instance EntityState_rebuild : Rebuild EntityState := fun r =>
  {| entity_id := entity_id r; entity_type := entity_type r; network_owner := network_owner r;
     model_hash := model_hash r; coords := coords r; heading := heading r;
     velocity := velocity r; health := health r; armour := armour r; extra := extra r |}.

(** The derived comparisons: floats compare as IEEE numbers, so a NaN differs
    from itself and the two zeros are equal. *)
Definition vec3_eqb (a b : vec3) : bool :=
  let '(a0, a1, a2) := a in let '(b0, b1, b2) := b in
  f32_eq a0 b0 && f32_eq a1 b1 && f32_eq a2 b2.

Definition extra_eqb (a b : EntityExtra) : bool :=
  match a, b with
  | ExtraPlayer i v, ExtraPlayer i' v' => Bool.eqb i i' && bool_decide (v = v')
  | ExtraVehicle s e d, ExtraVehicle s' e' d' => f32_eq s s' && f32_eq e e' && (d =? d')
  | ExtraPed f w, ExtraPed f' w' => Bool.eqb f f' && (w =? w')
  | ExtraObject s, ExtraObject s' => Bool.eqb s s'
  | _, _ => false
  end.

Definition COORDS : Z := 1.
Definition HEADING : Z := 2.
Definition VELOCITY : Z := 4.
Definition HEALTH : Z := 8.
Definition ARMOUR : Z := 16.
Definition EXTRA : Z := 32.
Definition CREATED : Z := 64.
Definition DELETED : Z := 128.
Definition all_flags : Z :=
  foldr Z.lor 0 [COORDS; HEADING; VELOCITY; HEALTH; ARMOUR; EXTRA; CREATED; DELETED].

(** [flags.contains(f)] and [a - b] of the generated flag type. *)
Definition contains_flag (flags f : Z) : bool := Z.land flags f =? f.
Definition flags_without (a b : Z) : Z := Z.ldiff a b.

Record DirtyEntity := { dirty_id : EntityId; dirty_fields : Z; dirty_state : EntityState }.

Record EntityStateUpdate := {
  u_coords : option vec3; u_heading : option f32; u_velocity : option vec3;
  u_health : option f32; u_armour : option f32; u_extra : option EntityExtra
}.

Definition no_update : EntityStateUpdate :=
  {| u_coords := None; u_heading := None; u_velocity := None; u_health := None;
     u_armour := None; u_extra := None |}.

Definition distance3d (a b : vec3) : f32 :=
  let '(a0, a1, a2) := a in let '(b0, b1, b2) := b in
  let dx := f32_sub a0 b0 in let dy := f32_sub a1 b1 in let dz := f32_sub a2 b2 in
  f32_sqrt (f32_add (f32_add (f32_mul dx dx) (f32_mul dy dy)) (f32_mul dz dz)).

(** ** The store (entity_manager.rs) *)

Module EntityManager.

Record EntityManager := {
  entities : gmap EntityId EntityState;
  dirty_queue : gmap EntityId DirtyEntity
}.

Definition new : EntityManager := {| entities := ∅; dirty_queue := ∅ |}.

(** The queue half of an operation. *)
Inductive QueueWork :=
| MarkDirty (id : EntityId) (flags : Z) (state : EntityState)
| MarkDeleted (id : EntityId) (state : EntityState).

Definition mark_dirty (id : EntityId) (flags : Z) (state : EntityState)
    (queue : gmap EntityId DirtyEntity) : gmap EntityId DirtyEntity :=
  match queue !! id with
  | Some pending =>
      if contains_flag (dirty_fields pending) DELETED then queue
      else <[id := {| dirty_id := dirty_id pending;
                      dirty_fields := Z.lor (dirty_fields pending) flags;
                      dirty_state := state |}]> queue
  | None => <[id := {| dirty_id := id; dirty_fields := flags; dirty_state := state |}]> queue
  end.

Definition queue_half (w : QueueWork) (queue : gmap EntityId DirtyEntity) : gmap EntityId DirtyEntity :=
  match w with
  | MarkDirty id flags state => mark_dirty id flags state queue
  | MarkDeleted id state =>
      <[id := {| dirty_id := id; dirty_fields := DELETED; dirty_state := state |}]> queue
  end.

(** The entity halves: the new map and the queue work left to do. *)
Definition spawn_half (state : EntityState) (es : gmap EntityId EntityState)
    : gmap EntityId EntityState * option QueueWork :=
  (<[entity_id state := state]> es,
   Some (MarkDirty (entity_id state) (flags_without all_flags DELETED) state)).

Definition remove_half (id : EntityId) (es : gmap EntityId EntityState)
    : gmap EntityId EntityState * option QueueWork :=
  (delete id es, MarkDeleted id <$> es !! id).

(** One [if let Some(v) = update.f { if state.f != v { ... } }] block. *)
Definition set_field {A} (eqb : A -> A -> bool) (provided : option A) (current : A)
    (store : A -> EntityState -> EntityState) (flag : Z) (acc : EntityState * Z) : EntityState * Z :=
  match provided with
  | Some v => if eqb current v then acc else (store v acc.1, Z.lor acc.2 flag)
  | None => acc
  end.

Definition apply_update (update : EntityStateUpdate) (state : EntityState) : EntityState * Z :=
  set_field extra_eqb (u_extra update) (extra state) (fun v s => s <| extra := v |>) EXTRA
  (set_field f32_eq (u_armour update) (armour state) (fun v s => s <| armour := v |>) ARMOUR
  (set_field f32_eq (u_health update) (health state) (fun v s => s <| health := v |>) HEALTH
  (set_field vec3_eqb (u_velocity update) (velocity state) (fun v s => s <| velocity := v |>) VELOCITY
  (set_field f32_eq (u_heading update) (heading state) (fun v s => s <| heading := v |>) HEADING
  (set_field vec3_eqb (u_coords update) (coords state) (fun v s => s <| coords := v |>) COORDS
    (state, 0)))))).

Definition update_half (id : EntityId) (update : EntityStateUpdate) (es : gmap EntityId EntityState)
    : gmap EntityId EntityState * option QueueWork :=
  match es !! id with
  | None => (es, None)
  | Some state =>
      let '(state', flags) := apply_update update state in
      (<[id := state']> es, if flags =? 0 then None else Some (MarkDirty id flags state'))
  end.

Definition set_network_owner_half (id : EntityId) (owner : option Z) (es : gmap EntityId EntityState)
    : gmap EntityId EntityState * option QueueWork :=
  match es !! id with
  | None => (es, None)
  | Some state =>
      if bool_decide (network_owner state = owner) then (es, None)
      else let state' := state <| network_owner := owner |> in
           (<[id := state']> es, Some (MarkDirty id EXTRA state'))
  end.

(** A call that is not interrupted: both halves. *)
Definition whole (half : gmap EntityId EntityState -> gmap EntityId EntityState * option QueueWork)
    (m : EntityManager) : EntityManager :=
  let '(es, work) := half (entities m) in
  {| entities := es;
     dirty_queue := match work with Some w => queue_half w (dirty_queue m) | None => dirty_queue m end |}.

Definition spawn_entity (state : EntityState) : EntityManager -> EntityManager :=
  whole (spawn_half state).

Definition remove_entity (id : EntityId) (m : EntityManager) : option EntityState * EntityManager :=
  (entities m !! id, whole (remove_half id) m).

Definition update_entity (id : EntityId) (update : EntityStateUpdate) (m : EntityManager)
    : Z * EntityManager :=
  (match entities m !! id with
   | Some state => (apply_update update state).2
   | None => 0
   end, whole (update_half id update) m).

Definition set_network_owner (id : EntityId) (owner : option Z) (m : EntityManager)
    : bool * EntityManager :=
  (is_some (entities m !! id), whole (set_network_owner_half id owner) m).

(** [flush_dirty]: the queue's values, in the map's iteration order. The order
    is the hash map's, so a caller sees some permutation of this list. *)
Definition flush_dirty (m : EntityManager) : list DirtyEntity * EntityManager :=
  ((map_to_list (dirty_queue m)).*2, {| entities := entities m; dirty_queue := ∅ |}).

Definition get (m : EntityManager) (id : EntityId) : option EntityState := entities m !! id.

Definition snapshot_filtered (m : EntityManager) (predicate : EntityState -> bool) : list EntityState :=
  filter (fun e => predicate e = true) (map_to_list (entities m)).*2.

Definition snapshot (m : EntityManager) : list EntityState := (map_to_list (entities m)).*2.

Definition entities_owned_by (m : EntityManager) (source : Z) : list EntityState :=
  filter (fun e => network_owner e = Some source) (map_to_list (entities m)).*2.

Definition count (m : EntityManager) : nat := size (entities m).

End EntityManager.
Import EntityManager.

(** ** The aggregator's merge (state_aggregator.rs) *)

Definition merge_one (world : gmap EntityId EntityState) (dirty : DirtyEntity) : gmap EntityId EntityState :=
  if contains_flag (dirty_fields dirty) DELETED then delete (dirty_id dirty) world
  else <[dirty_id dirty := dirty_state dirty]> world.

Definition merge_batch (batch : list DirtyEntity) (world : gmap EntityId EntityState)
    : gmap EntityId EntityState := foldl merge_one world batch.

(** ** Runs

    A system is a zone's store and the aggregated world. Its events are the
    store's operations, each running to its end, and the emitter's ticks. A
    tick drains the queue; the batch, in whatever order the queue's hash map
    yields it, is merged when the publication reaches the aggregator. *)

Inductive StoreOp :=
| Spawn (state : EntityState)
| Remove (id : EntityId)
| Update (id : EntityId) (update : EntityStateUpdate)
| SetOwner (id : EntityId) (owner : option Z).

Definition half_of (op : StoreOp) : gmap EntityId EntityState -> gmap EntityId EntityState * option QueueWork :=
  match op with
  | Spawn state => spawn_half state
  | Remove id => remove_half id
  | Update id update => update_half id update
  | SetOwner id owner => set_network_owner_half id owner
  end.

Definition run_op (op : StoreOp) : EntityManager -> EntityManager := whole (half_of op).

Inductive Event := Call (op : StoreOp) | Emit (arrives : bool).

Definition System : Type := EntityManager * gmap EntityId EntityState.

Inductive event_step : Event -> System -> System -> Prop :=
| step_call op z w : event_step (Call op) (z, w) (run_op op z, w)
| step_emit (arrives : bool) batch z w :
    batch ≡ₚ (flush_dirty z).1 ->
    event_step (Emit arrives) (z, w) ((flush_dirty z).2, if arrives then merge_batch batch w else w).

Inductive runs : list Event -> System -> System -> Prop :=
| runs_nil s : runs [] s s
| runs_cons e es s1 s2 s3 : event_step e s1 s2 -> runs es s2 s3 -> runs (e :: es) s1 s3.

(** The contract: the live entities, and what the gateway last saw of them. *)
Definition spec_op (op : StoreOp) (es : gmap EntityId EntityState) : gmap EntityId EntityState :=
  match op with
  | Spawn state => <[entity_id state := state]> es
  | Remove id => delete id es
  | Update id update => alter (fun s => (apply_update update s).1) id es
  | SetOwner id owner => alter (fun s => s <| network_owner := owner |>) id es
  end.

Definition spec_event (s : gmap EntityId EntityState * gmap EntityId EntityState) (e : Event)
    : gmap EntityId EntityState * gmap EntityId EntityState :=
  match e with
  | Call op => (spec_op op s.1, s.2)
  | Emit _ => (s.1, s.1)
  end.

(** The contract with nothing assumed: beside the live entities and the
    replica, the ids removed and the ids touched since the last tick. *)
Record Ledger := {
  live : gmap EntityId EntityState; replica : gmap EntityId EntityState;
  gone : gset EntityId; touched : gset EntityId }.

Definition ledger_new : Ledger := {| live := ∅; replica := ∅; gone := ∅; touched := ∅ |}.

(** The ids a call removes, and those it changes. *)
Definition removes (op : StoreOp) (es : gmap EntityId EntityState) : gset EntityId :=
  match op with Remove id => if is_some (es !! id) then {[id]} else ∅ | _ => ∅ end.

Definition touches (op : StoreOp) (es : gmap EntityId EntityState) : gset EntityId :=
  match op with
  | Spawn state => {[entity_id state]}
  | Remove _ => ∅
  | Update id update =>
      match es !! id with Some s => if (apply_update update s).2 =? 0 then ∅ else {[id]} | None => ∅ end
  | SetOwner id owner =>
      match es !! id with Some s => if bool_decide (network_owner s = owner) then ∅ else {[id]} | None => ∅ end
  end.

(** What a batch that arrives makes of the replica. *)
Definition refreshed (l : Ledger) : gmap EntityId EntityState :=
  (filter (fun p => p.1 ∈ touched l ∖ gone l) (live l)) ∪
  (filter (fun p => p.1 ∉ touched l ∪ gone l) (replica l)).

Definition ledger_event (l : Ledger) (e : Event) : Ledger :=
  match e with
  | Call op =>
      {| live := spec_op op (live l); replica := replica l;
         gone := gone l ∪ removes op (live l); touched := touched l ∪ touches op (live l) |}
  | Emit arrives =>
      {| live := live l; replica := if arrives then refreshed l else replica l; gone := ∅; touched := ∅ |}
  end.

(** No id is spawned again between its removal and the next tick; [gone] is
    the set of ids removed since the last one. *)
Fixpoint respawn_free (es : gmap EntityId EntityState) (gone : gset EntityId) (evs : list Event) : bool :=
  match evs with
  | [] => true
  | Emit _ :: rest => respawn_free es ∅ rest
  | Call op :: rest =>
      match op with Spawn state => negb (bool_decide (entity_id state ∈ gone)) | _ => true end &&
      respawn_free (spec_op op es)
        match op with
        | Remove id => if is_some (es !! id) then gone ∪ {[id]} else gone
        | _ => gone
        end rest
  end.

Definition all_arrive (evs : list Event) : bool :=
  forallb (fun e => match e with Emit arrives => arrives | Call _ => true end) evs.

(** ** Flags and updates *)

Lemma contains_deleted f : contains_flag f DELETED = Z.testbit f 7.
Proof.
  unfold contains_flag, DELETED. change 128 with (2 ^ 7).
  destruct (Z.testbit f 7) eqn:E.
  - apply Z.eqb_eq, Z.bits_inj'. intros n Hn. rewrite Z.land_spec, Z.pow2_bits_eqb by lia.
    destruct (Z.eqb_spec 7 n) as [<-|]; [by rewrite E|by rewrite andb_false_r].
  - apply Z.eqb_neq. intros H. apply (f_equal (fun z => Z.testbit z 7)) in H.
    by rewrite Z.land_spec, E, Z.pow2_bits_true in H by lia.
Qed.

Lemma set_field_flag {A} eqb (provided : option A) current store flag acc :
  Z.testbit flag 7 = false -> Z.testbit acc.2 7 = false ->
  Z.testbit (set_field eqb provided current store flag acc).2 7 = false.
Proof.
  intros Hf Ha. unfold set_field. destruct provided as [v|]; [|done].
  destruct (eqb _ _); [done|]. cbn [snd]. by rewrite Z.lor_spec, Ha, Hf.
Qed.

Lemma update_not_deleted u s : contains_flag (apply_update u s).2 DELETED = false.
Proof. rewrite contains_deleted. unfold apply_update. by repeat apply set_field_flag. Qed.

(** A field is stored only when it is marked. *)
Definition unmarked_same (s : EntityState) (acc : EntityState * Z) : Prop :=
  0 <= acc.2 /\ (acc.2 = 0 -> acc.1 = s).

Lemma set_field_unmarked {A} eqb (provided : option A) current store flag acc s :
  0 < flag -> unmarked_same s acc -> unmarked_same s (set_field eqb provided current store flag acc).
Proof.
  intros Hf [Ha Hs]. unfold set_field. destruct provided as [v|]; [|done].
  destruct (eqb _ _); [done|]. split; cbn [fst snd]; [apply Z.lor_nonneg; lia|].
  intros H. apply Z.lor_eq_0_iff in H. lia.
Qed.

Lemma update_unmarked u s : (apply_update u s).2 = 0 -> (apply_update u s).1 = s.
Proof.
  assert (H : unmarked_same s (apply_update u s)); [|apply H].
  unfold apply_update. repeat (apply set_field_unmarked; [done|]). done.
Qed.

(** ** The merge, looked up *)

(** What the world answers once the queue has been merged into it. *)
Definition overlay (queue : gmap EntityId DirtyEntity) (world : gmap EntityId EntityState) (id : EntityId)
    : option EntityState :=
  match queue !! id with
  | Some d => if contains_flag (dirty_fields d) DELETED then None else Some (dirty_state d)
  | None => world !! id
  end.

Definition keyed (queue : gmap EntityId DirtyEntity) : Prop :=
  forall id d, queue !! id = Some d -> dirty_id d = id.

Lemma merge_one_same w d :
  merge_one w d !! dirty_id d =
    if contains_flag (dirty_fields d) DELETED then None else Some (dirty_state d).
Proof.
  unfold merge_one. destruct (contains_flag _ _); [apply lookup_delete_eq|apply lookup_insert_eq].
Qed.

Lemma merge_one_other w d id : dirty_id d <> id -> merge_one w d !! id = w !! id.
Proof.
  intros H. unfold merge_one.
  destruct (contains_flag _ _); [by apply lookup_delete_ne|by apply lookup_insert_ne].
Qed.

Lemma merge_batch_other batch w id :
  id ∉ dirty_id <$> batch -> merge_batch batch w !! id = w !! id.
Proof.
  revert w. induction batch as [|d batch IH]; intros w H; [done|].
  rewrite fmap_cons, not_elem_of_cons in H. cbn. unfold merge_batch in IH.
  rewrite IH by apply H. apply merge_one_other. by destruct H as [? _].
Qed.

Lemma merge_batch_member batch w d :
  NoDup (dirty_id <$> batch) -> d ∈ batch ->
  merge_batch batch w !! dirty_id d =
    if contains_flag (dirty_fields d) DELETED then None else Some (dirty_state d).
Proof.
  revert w. induction batch as [|d' batch IH]; intros w Hnd Hd; [by apply elem_of_nil in Hd|].
  rewrite fmap_cons in Hnd. apply NoDup_cons in Hnd as [Hd' Hnd].
  apply elem_of_cons in Hd as [->|Hd]; [|by apply IH].
  change (merge_batch (d' :: batch) w) with (merge_batch batch (merge_one w d')).
  rewrite merge_batch_other by done. apply merge_one_same.
Qed.

Lemma keyed_ids queue : keyed queue -> dirty_id <$> (map_to_list queue).*2 = (map_to_list queue).*1.
Proof.
  intros Hk. rewrite <- list_fmap_compose. apply list_fmap_ext. intros i [id d] Hi.
  apply (Hk id), elem_of_map_to_list. by apply list_elem_of_lookup_2 with i.
Qed.

Lemma merge_overlay queue batch w id :
  keyed queue -> batch ≡ₚ (map_to_list queue).*2 -> merge_batch batch w !! id = overlay queue w id.
Proof.
  intros Hk Hb. assert (Hids : dirty_id <$> batch ≡ₚ (map_to_list queue).*1)
    by (rewrite Hb; by rewrite keyed_ids).
  assert (Hnd : NoDup (dirty_id <$> batch)) by (rewrite Hids; apply NoDup_fst_map_to_list).
  unfold overlay. destruct (queue !! id) as [d|] eqn:E.
  - pose proof (Hk _ _ E) as <-. apply merge_batch_member; [done|]. rewrite Hb.
    apply list_elem_of_fmap. exists (dirty_id d, d). split; [done|]. by apply elem_of_map_to_list.
  - apply merge_batch_other. rewrite Hids. intros Hin.
    apply list_elem_of_fmap in Hin as ([id' d] & -> & Hin). apply elem_of_map_to_list in Hin.
    cbn in E. congruence.
Qed.

(** ** The store and its queue *)

Definition pending_delete (queue : gmap EntityId DirtyEntity) (id : EntityId) : bool :=
  match queue !! id with Some d => contains_flag (dirty_fields d) DELETED | None => false end.

Lemma mark_dirty_keyed id flags s q : keyed q -> keyed (mark_dirty id flags s q).
Proof.
  intros Hk id' d. unfold mark_dirty. destruct (q !! id) as [p|] eqn:E.
  - destruct (contains_flag _ _); [apply Hk|].
    intros [[<- <-]|[_ Hd]]%lookup_insert_Some; [|by apply Hk]. exact (Hk _ _ E).
  - intros [[<- <-]|[_ Hd]]%lookup_insert_Some; [done|by apply Hk].
Qed.

Lemma queue_half_keyed w q : keyed q -> keyed (queue_half w q).
Proof.
  destruct w as [id flags s|id s]; intros Hk; [by apply mark_dirty_keyed|].
  cbn [queue_half]. intros id' d [[<- <-]|[_ Hd]]%lookup_insert_Some; [done|by apply Hk].
Qed.

Lemma mark_dirty_other id flags s q id' : id <> id' -> mark_dirty id flags s q !! id' = q !! id'.
Proof.
  intros H. unfold mark_dirty. destruct (q !! id); [destruct (contains_flag _ _); [done|]|];
    by apply lookup_insert_ne.
Qed.

Lemma overlay_mark id flags s q w :
  pending_delete q id = false -> contains_flag flags DELETED = false ->
  overlay (mark_dirty id flags s q) w id = Some s.
Proof.
  unfold pending_delete, overlay, mark_dirty. intros Hp Hf.
  destruct (q !! id) as [p|] eqn:E.
  - rewrite Hp, lookup_insert_eq. cbn [dirty_fields dirty_state].
    rewrite contains_deleted, Z.lor_spec, <- !contains_deleted, Hp, Hf. done.
  - rewrite lookup_insert_eq. cbn. by rewrite Hf.
Qed.

(** The queue explains the difference between the store and the world. *)
Record synced (z : EntityManager) (w : gmap EntityId EntityState) : Prop := {
  synced_keyed : keyed (dirty_queue z);
  synced_overlay : forall id, overlay (dirty_queue z) w id = entities z !! id
}.

Lemma synced_live z w id s : synced z w -> entities z !! id = Some s -> pending_delete (dirty_queue z) id = false.
Proof.
  intros [_ Ho] Hs. rewrite <- Ho in Hs. unfold overlay in Hs. unfold pending_delete.
  destruct (dirty_queue z !! id); [|done]. by destruct (contains_flag _ _).
Qed.

(** Storing [s] under [id] and marking it keeps the two in step. *)
Lemma synced_store z w id flags s :
  synced z w -> pending_delete (dirty_queue z) id = false -> contains_flag flags DELETED = false ->
  synced {| entities := <[id := s]> (entities z);
            dirty_queue := mark_dirty id flags s (dirty_queue z) |} w.
Proof.
  intros [Hk Ho] Hp Hf. split; cbn [entities dirty_queue]; [by apply mark_dirty_keyed|].
  intros id'. destruct (decide (id = id')) as [<-|Hid].
  - rewrite lookup_insert_eq. by apply overlay_mark.
  - rewrite lookup_insert_ne by done. rewrite <- Ho. unfold overlay.
    by rewrite mark_dirty_other.
Qed.

Lemma whole_remove z id :
  whole (remove_half id) z =
    {| entities := delete id (entities z);
       dirty_queue := match entities z !! id with
                      | Some s => <[id := {| dirty_id := id; dirty_fields := DELETED; dirty_state := s |}]> (dirty_queue z)
                      | None => dirty_queue z
                      end |}.
Proof. unfold whole, remove_half. by destruct (entities z !! id). Qed.

Lemma synced_remove z w id : synced z w -> synced (whole (remove_half id) z) w.
Proof.
  intros [Hk Ho]. rewrite whole_remove. split; cbn [entities dirty_queue].
  - destruct (entities z !! id) as [s|]; [|done].
    by apply (queue_half_keyed (MarkDeleted id s)).
  - intros id'. destruct (decide (id = id')) as [<-|Hid].
    + rewrite lookup_delete_eq. destruct (entities z !! id) as [s|] eqn:E.
      * unfold overlay. by rewrite lookup_insert_eq.
      * by rewrite Ho, E.
    + rewrite lookup_delete_ne, <- (Ho id') by done. unfold overlay.
      destruct (entities z !! id); [by rewrite lookup_insert_ne|done].
Qed.

Lemma whole_update z id u :
  whole (update_half id u) z =
    match entities z !! id with
    | None => z
    | Some s =>
        {| entities := <[id := (apply_update u s).1]> (entities z);
           dirty_queue := if (apply_update u s).2 =? 0 then dirty_queue z
                          else mark_dirty id (apply_update u s).2 (apply_update u s).1 (dirty_queue z) |}
    end.
Proof.
  unfold whole, update_half. destruct (entities z !! id) as [s|]; [|by destruct z].
  destruct (apply_update u s) as [s' f]. cbn [fst snd]. by destruct (f =? 0).
Qed.

Lemma synced_update z w id u : synced z w -> synced (whole (update_half id u) z) w.
Proof.
  intros Hz. rewrite whole_update. destruct (entities z !! id) as [s|] eqn:E; [|done].
  destruct (Z.eqb_spec (apply_update u s).2 0) as [Hf|Hf].
  - rewrite update_unmarked, insert_id by done. by destruct z.
  - apply synced_store; [done|by eapply synced_live|apply update_not_deleted].
Qed.

Lemma whole_set_owner z id o :
  whole (set_network_owner_half id o) z =
    match entities z !! id with
    | None => z
    | Some s =>
        if bool_decide (network_owner s = o) then z
        else {| entities := <[id := s <| network_owner := o |>]> (entities z);
                dirty_queue := mark_dirty id EXTRA (s <| network_owner := o |>) (dirty_queue z) |}
    end.
Proof.
  unfold whole, set_network_owner_half. destruct (entities z !! id) as [s|]; [|by destruct z].
  destruct z. by case_bool_decide.
Qed.

Lemma synced_set_owner z w id o : synced z w -> synced (whole (set_network_owner_half id o) z) w.
Proof.
  intros Hz. rewrite whole_set_owner. destruct (entities z !! id) as [s|] eqn:E; [|done].
  case_bool_decide; [done|]. apply synced_store; [done|by eapply synced_live|done].
Qed.

Lemma synced_spawn z w s :
  synced z w -> pending_delete (dirty_queue z) (entity_id s) = false -> synced (whole (spawn_half s) z) w.
Proof. intros Hz Hp. by apply synced_store. Qed.

(** ** The replica follows the store *)

Lemma pending_mark id flags s q id' :
  contains_flag flags DELETED = false ->
  pending_delete (mark_dirty id flags s q) id' = true -> pending_delete q id' = true.
Proof.
  intros Hf. destruct (decide (id = id')) as [<-|Hid].
  - unfold pending_delete, mark_dirty. destruct (q !! id) as [p|] eqn:E.
    + destruct (contains_flag (dirty_fields p) DELETED) eqn:D; [done|].
      rewrite lookup_insert_eq. cbn. rewrite contains_deleted, Z.lor_spec, <- !contains_deleted, D, Hf. done.
    + rewrite lookup_insert_eq. cbn. by rewrite Hf.
  - unfold pending_delete. by rewrite mark_dirty_other.
Qed.

(** Only a removal of a live entity leaves a delete pending. *)
Lemma pending_run op z id :
  pending_delete (dirty_queue (run_op op z)) id = true ->
  pending_delete (dirty_queue z) id = true \/ (op = Remove id /\ is_some (entities z !! id) = true).
Proof.
  destruct op as [s|id'|id' u|id' o]; unfold run_op, half_of.
  - intros H. left. exact (pending_mark (entity_id s) (flags_without all_flags DELETED) s _ id eq_refl H).
  - rewrite whole_remove. cbn [dirty_queue]. destruct (entities z !! id') as [s|] eqn:E; [|by left].
    destruct (decide (id' = id)) as [->|Hid]; [intros _; right; by rewrite E|].
    intros H. left. unfold pending_delete in *. by rewrite lookup_insert_ne in H.
  - rewrite whole_update. destruct (entities z !! id') as [s|]; [|by left]. cbn [dirty_queue].
    destruct (_ =? 0); [by left|]. intros H. left. eapply pending_mark; [|done].
    apply update_not_deleted.
  - rewrite whole_set_owner. destruct (entities z !! id') as [s|]; [|by left].
    case_bool_decide; [by left|]. intros H'. left.
    exact (pending_mark id' EXTRA _ _ id eq_refl H').
Qed.

Lemma entities_run op z : entities (run_op op z) = spec_op op (entities z).
Proof.
  destruct op as [s|id|id u|id o]; unfold run_op, half_of, spec_op; [done|by rewrite whole_remove| |].
  - rewrite whole_update. destruct (entities z !! id) as [s|] eqn:E.
    + cbn [entities]. by rewrite (alter_alt_Some _ _ _ s).
    + by rewrite alter_id'.
  - rewrite whole_set_owner. destruct (entities z !! id) as [s|] eqn:E; [|by rewrite alter_id'].
    rewrite (alter_alt_Some _ _ _ s) by done. case_bool_decide as H; [|done].
    rewrite insert_id; [done|]. rewrite E. by destruct s; cbn in H |- *; subst.
Qed.

Lemma synced_run op z w :
  synced z w ->
  match op with Spawn s => pending_delete (dirty_queue z) (entity_id s) = false | _ => True end ->
  synced (run_op op z) w.
Proof.
  destruct op; intros Hz Hp; [by apply synced_spawn|by apply synced_remove|by apply synced_update
    |by apply synced_set_owner].
Qed.

Lemma synced_new : synced EntityManager.new ∅.
Proof. by split; [intros id d H|intros id]. Qed.

Lemma synced_emit z w batch :
  synced z w -> batch ≡ₚ (flush_dirty z).1 -> merge_batch batch w = entities z.
Proof.
  intros [Hk Ho] Hb. apply map_eq. intros id. rewrite <- Ho. by apply merge_overlay.
Qed.

Lemma synced_flushed z : synced (flush_dirty z).2 (entities z).
Proof. by split; [intros id d H|intros id]. Qed.

(** From a system in step, the events leave the live entities and the world
    the contract says. *)
Lemma runs_refine evs s s' gone :
  runs evs s s' -> synced s.1 s.2 ->
  (forall id, pending_delete (dirty_queue s.1) id = true -> id ∈ gone) ->
  all_arrive evs = true -> respawn_free (entities s.1) gone evs = true ->
  synced s'.1 s'.2 /\ foldl spec_event (entities s.1, s.2) evs = (entities s'.1, s'.2).
Proof.
  intros Hr. revert gone. induction Hr as [s|e evs s1 s2 s3 Hs Hr IH]; intros gone Hz Hg Ha Hf; [done|].
  destruct Hs as [op z w|arrives batch z w Hb]; cbn [fst snd] in *.
  - cbn in Ha, Hf. apply andb_true_iff in Hf as [Hop Hf].
    cbn [foldl spec_event fst snd]. rewrite <- entities_run.
    eapply IH; [|intros id Hp|done|by rewrite entities_run].
    + apply synced_run; [done|]. destruct op as [st| | |]; try done.
      apply negb_true_iff, bool_decide_eq_false in Hop.
      destruct (pending_delete _ _) eqn:E; [|done]. by apply Hg in E.
    + apply pending_run in Hp as [Hp|[-> Hp]].
      * apply Hg in Hp. destruct op; try done. destruct (is_some _); [by apply elem_of_union_l|done].
      * rewrite Hp. by apply elem_of_union_r, elem_of_singleton.
  - cbn in Ha. apply andb_true_iff in Ha as [-> Ha]. cbn in Hf.
    cbn [foldl spec_event fst snd]. cbv iota in IH. cbn [fst snd] in IH.
    rewrite (synced_emit z w batch) in IH by done.
    eapply IH; [apply synced_flushed|by intros|done|done].
Qed.

(** ** The ledger explains the queue *)

Record ledgered (z : EntityManager) (l : Ledger) : Prop := {
  ledgered_keyed : keyed (dirty_queue z);
  ledgered_live : live l = entities z;
  ledgered_queue : forall id,
    match dirty_queue z !! id with
    | None => id ∉ gone l /\ id ∉ touched l
    | Some d =>
        if contains_flag (dirty_fields d) DELETED then id ∈ gone l
        else id ∉ gone l /\ id ∈ touched l /\ live l !! id = Some (dirty_state d)
    end
}.

Lemma refreshed_overlay z l id : ledgered z l -> refreshed l !! id = overlay (dirty_queue z) (replica l) id.
Proof.
  intros [_ _ Hq]. specialize (Hq id). unfold refreshed, overlay. rewrite lookup_union.
  destruct (dirty_queue z !! id) as [d|]; [destruct (contains_flag _ _)|].
  - rewrite !map_lookup_filter_None_2; [done|right; intros ? _; cbn; set_solver..].
  - destruct Hq as (Hg & Ht & Hl).
    rewrite (map_lookup_filter_Some_2 _ (live l) id (dirty_state d)) by (done || cbn; set_solver).
    by rewrite union_Some_l.
  - rewrite map_lookup_filter_None_2 by (right; intros ? _; cbn; set_solver).
    rewrite (left_id None union). destruct (replica l !! id) as [s|] eqn:E.
    + apply map_lookup_filter_Some_2; [done|cbn; set_solver].
    + by apply map_lookup_filter_None_2; left.
Qed.

(** Storing [s] under [id] and marking it is a touch. *)
Lemma ledgered_store z l id flags s :
  ledgered z l -> contains_flag flags DELETED = false ->
  ledgered {| entities := <[id := s]> (entities z); dirty_queue := mark_dirty id flags s (dirty_queue z) |}
    {| live := <[id := s]> (live l); replica := replica l; gone := gone l ∪ ∅; touched := touched l ∪ {[id]} |}.
Proof.
  intros [Hk Hl Hq] Hf. split; cbn [entities dirty_queue live gone touched]; [by apply mark_dirty_keyed|by rewrite Hl|].
  intros id'. specialize (Hq id'). destruct (decide (id = id')) as [<-|Hid].
  - unfold mark_dirty. destruct (dirty_queue z !! id) as [p|] eqn:E.
    + destruct (contains_flag (dirty_fields p) DELETED) eqn:D; [rewrite E, D; set_solver|].
      rewrite !lookup_insert_eq. cbn [dirty_fields dirty_state].
      rewrite contains_deleted, Z.lor_spec, <- !contains_deleted, D, Hf. cbn [orb].
      destruct Hq as (? & ? & ?). split_and!; [set_solver..|done].
    + rewrite !lookup_insert_eq. cbn [dirty_fields dirty_state]. rewrite Hf. split_and!; [set_solver..|done].
  - rewrite mark_dirty_other, lookup_insert_ne by done.
    destruct (dirty_queue z !! id') as [d|]; [destruct (contains_flag _ _)|]; set_solver.
Qed.

(** A call that marks nothing. *)
Lemma ledgered_idle z l op :
  ledgered z l -> run_op op z = z -> removes op (live l) = ∅ -> touches op (live l) = ∅ ->
  ledgered (run_op op z) (ledger_event l (Call op)).
Proof.
  intros [Hk Hl Hq] Hz Hr Ht. pose proof (entities_run op z) as He. rewrite Hz in *.
  assert (Hs : spec_op op (live l) = live l) by (rewrite Hl; by symmetry).
  split; cbn [ledger_event live gone touched]; [done|by rewrite Hs|]. rewrite Hr, Ht, Hs. intros id.
  specialize (Hq id). destruct (dirty_queue z !! id) as [d|]; [destruct (contains_flag _ _)|]; set_solver.
Qed.

Lemma ledgered_remove z l id : ledgered z l ->
  ledgered (run_op (Remove id) z) (ledger_event l (Call (Remove id))).
Proof.
  intros Hz. pose proof Hz as [Hk Hl Hq]. destruct (entities z !! id) as [s|] eqn:E.
  - unfold run_op, half_of. rewrite whole_remove, E.
    split; cbn [entities dirty_queue ledger_event live gone touched spec_op removes touches]; [|by rewrite Hl|].
    + by apply (queue_half_keyed (MarkDeleted id s)).
    + rewrite Hl, E. cbn [is_some]. intros id'. specialize (Hq id'). rewrite Hl in Hq.
      destruct (decide (id = id')) as [<-|Hid].
      * rewrite lookup_insert_eq. change (contains_flag _ _) with true. set_solver.
      * rewrite !lookup_insert_ne, lookup_delete_ne by done.
        destruct (dirty_queue z !! id') as [d|]; [destruct (contains_flag _ _)|]; set_solver.
  - apply ledgered_idle; [done| |by cbn; rewrite Hl, E|done].
    unfold run_op, half_of. rewrite whole_remove, E, delete_id by done. by destruct z.
Qed.

Lemma ledgered_run z l op : ledgered z l -> ledgered (run_op op z) (ledger_event l (Call op)).
Proof.
  intros Hz. pose proof (ledgered_live _ _ Hz) as Hl. pose proof (entities_run op z) as He.
  destruct op as [s|id|id u|id o]; [exact (ledgered_store z l (entity_id s) (flags_without all_flags DELETED) s Hz eq_refl)|by apply ledgered_remove| |].
  - destruct (entities z !! id) as [s|] eqn:E.
    2:{ apply ledgered_idle; [done| |done|by cbn; rewrite Hl, E].
        unfold run_op, half_of. by rewrite whole_update, E. }
    destruct (Z.eqb_spec (apply_update u s).2 0) as [Hf|Hf].
    + apply ledgered_idle; [done| |done|cbn; by rewrite Hl, E, Hf].
      unfold run_op, half_of. rewrite whole_update, E, Hf, update_unmarked, insert_id by done. by destruct z.
    + pose proof (ledgered_store z l id _ (apply_update u s).1 Hz (update_not_deleted u s)) as H.
      unfold ledger_event, removes, touches, spec_op, run_op, half_of. rewrite whole_update, Hl, E.
      rewrite (proj2 (Z.eqb_neq _ _) Hf), (alter_alt_Some _ _ _ s) by done. by rewrite Hl in H.
  - destruct (entities z !! id) as [s|] eqn:E.
    2:{ apply ledgered_idle; [done| |done|by cbn; rewrite Hl, E].
        unfold run_op, half_of. by rewrite whole_set_owner, E. }
    destruct (bool_decide (network_owner s = o)) eqn:Ho.
    + apply ledgered_idle; [done| |done|cbn; by rewrite Hl, E, Ho].
      unfold run_op, half_of. by rewrite whole_set_owner, E, Ho.
    + pose proof (ledgered_store z l id EXTRA (s <| network_owner := o |>) Hz eq_refl) as H.
      unfold ledger_event, removes, touches, spec_op, run_op, half_of.
      rewrite whole_set_owner, Hl, E, Ho, (alter_alt_Some _ _ _ s) by done. by rewrite Hl in H.
Qed.

Lemma ledgered_runs evs s s' l :
  runs evs s s' -> ledgered s.1 l -> s.2 = replica l ->
  ledgered s'.1 (foldl ledger_event l evs) /\ s'.2 = replica (foldl ledger_event l evs).
Proof.
  intros Hr. revert l. induction Hr as [s|e evs s1 s2 s3 Hs Hr IH]; intros l Hz Hw; [done|].
  cbn [foldl]. destruct Hs as [op z w|arrives batch z w Hb]; cbn [fst snd] in *.
  - apply IH; [by apply ledgered_run|done].
  - apply IH; [split; [by intros id d H|cbn; by eapply ledgered_live|intros id; cbn; split; apply not_elem_of_empty]|].
    cbn [ledger_event replica]. destruct arrives; [|done]. apply map_eq. intros id.
    rewrite (refreshed_overlay z) by done. subst w. apply merge_overlay; [by eapply ledgered_keyed|done].
Qed.

(** C2: the gateway's replica refines the zone's entities. Over any sequence of
    whole store calls (one at a time) and emitter ticks, lost or not, whatever
    order the dirty queue is drained in: the live entities are what the calls
    say, last write winning, and the aggregated world is exactly the ledger's
    replica: a batch that arrives deletes the ids removed since the tick
    before (respawned or not), copies those touched, and leaves the rest; a
    lost batch changes nothing. So when every batch arrives and no id is
    spawned again between its removal and the next tick, the world is the live
    entities as of the last tick. *)
Theorem replica_refines_store evs z w :
  runs evs (EntityManager.new, ∅) (z, w) ->
  let l := foldl ledger_event ledger_new evs in
  entities z = live l /\ w = replica l /\
  (all_arrive evs = true -> respawn_free ∅ ∅ evs = true -> foldl spec_event (∅, ∅) evs = (entities z, w)).
Proof.
  intros Hr l. destruct (ledgered_runs _ _ _ ledger_new Hr) as [Hz Hw];
    [split; [by intros id d H|done|intros id; cbn; split; apply not_elem_of_empty]|done|].
  split_and!; [symmetry; by eapply ledgered_live|done|].
  intros Ha Hf. eapply (runs_refine _ _ _ ∅ Hr); [apply synced_new|by intros|done|done].
Qed.

Definition sample_entity (id : Z) (owner : option Z) : EntityState :=
  {| entity_id := id; entity_type := Vehicle; network_owner := owner; model_hash := 1;
     coords := (f32_zero, f32_zero, f32_zero); heading := f32_zero;
     velocity := (f32_zero, f32_zero, f32_zero); health := f32_of_Z 1000; armour := f32_zero;
     extra := ExtraVehicle f32_zero f32_one 0 |}.

Definition move_to (x : Z) : EntityStateUpdate :=
  {| u_coords := Some (f32_of_Z x, f32_zero, f32_zero); u_heading := None; u_velocity := None;
     u_health := None; u_armour := None; u_extra := None |}.

(** Running the events with the queue drained in its own order. *)
Definition exec_event (s : System) (e : Event) : System :=
  match e with
  | Call op => (run_op op s.1, s.2)
  | Emit arrives => ((flush_dirty s.1).2, if arrives then merge_batch (flush_dirty s.1).1 s.2 else s.2)
  end.

Lemma exec_runs evs s : runs evs s (foldl exec_event s evs).
Proof.
  revert s. induction evs as [|e evs IH]; intros [z w]; [constructor|].
  econstructor; [|apply IH]. by destruct e; constructor.
Qed.

(** Entity 2 is removed and spawned again before a tick, whose batch arrives;
    a later batch is lost. *)
Definition sample_events : list Event :=
  [Call (Spawn (sample_entity 1 (Some 7))); Call (Spawn (sample_entity 2 None)); Call (Update 1 (move_to 5));
   Emit true; Call (Remove 2); Call (Spawn (sample_entity 2 (Some 3))); Call (SetOwner 1 None); Emit true;
   Call (Update 1 (move_to 9)); Emit false].

Definition calm_events : list Event :=
  [Call (Spawn (sample_entity 1 (Some 7))); Call (Spawn (sample_entity 2 None)); Call (Update 1 (move_to 5));
   Emit true; Call (Remove 2); Emit true; Call (Update 1 (move_to 9))].

Lemma replica_refines_store_witness :
  (exists z w, entities z = live (foldl ledger_event ledger_new sample_events) /\
     w = replica (foldl ledger_event ledger_new sample_events) /\
     is_some (entities z !! 2) = true /\ w !! 2 = None /\ (coords <$> w !! 1) = Some (f32_of_Z 5, f32_zero, f32_zero)) /\
  (exists z w, foldl spec_event (∅, ∅) calm_events = (entities z, w) /\
     (coords <$> w !! 1) = Some (f32_of_Z 5, f32_zero, f32_zero) /\ w !! 2 = None).
Proof.
  split.
  - exists (foldl exec_event (EntityManager.new, ∅) sample_events).1,
      (foldl exec_event (EntityManager.new, ∅) sample_events).2.
    destruct (replica_refines_store sample_events _ _ (exec_runs sample_events (EntityManager.new, ∅))) as (H1 & H2 & _).
    split_and!; [exact H1|exact H2|vm_compute; reflexivity..].
  - exists (foldl exec_event (EntityManager.new, ∅) calm_events).1,
      (foldl exec_event (EntityManager.new, ∅) calm_events).2.
    destruct (replica_refines_store calm_events _ _ (exec_runs calm_events (EntityManager.new, ∅))) as (_ & _ & H).
    split_and!; [apply H|..]; vm_compute; reflexivity.
Defined.

(** ** An update, field by field *)

Definition changed {A} (eqb : A -> A -> bool) (provided : option A) (current : A) : bool :=
  match provided with Some v => negb (eqb current v) | None => false end.

Definition chosen {A} (eqb : A -> A -> bool) (provided : option A) (current : A) : A :=
  if changed eqb provided current then default current provided else current.

Lemma set_field_changed {A} eqb (provided : option A) current store flag acc :
  set_field eqb provided current store flag acc =
    if changed eqb provided current then (store (default current provided) acc.1, Z.lor acc.2 flag) else acc.
Proof. unfold set_field, changed. destruct provided as [v|]; [|done]. by destruct (eqb current v). Qed.

(** an update stores every provided field that differs from the current one,
    leaves the others, the identity, the type, the model and the owner alone,
    and sets exactly the dirty bits of the fields it stored; when none
    differs, the store and its queue do not change. *)
Theorem update_entity_effect id u z s :
  entities z !! id = Some s ->
  let '(flags, z') := update_entity id u z in
  entities z' !! id =
    Some {| entity_id := entity_id s; entity_type := entity_type s; network_owner := network_owner s;
            model_hash := model_hash s;
            coords := chosen vec3_eqb (u_coords u) (coords s);
            heading := chosen f32_eq (u_heading u) (heading s);
            velocity := chosen vec3_eqb (u_velocity u) (velocity s);
            health := chosen f32_eq (u_health u) (health s);
            armour := chosen f32_eq (u_armour u) (armour s);
            extra := chosen extra_eqb (u_extra u) (extra s) |} /\
  (Z.testbit flags <$> [0; 1; 2; 3; 4; 5; 6; 7]) =
    [changed vec3_eqb (u_coords u) (coords s); changed f32_eq (u_heading u) (heading s);
     changed vec3_eqb (u_velocity u) (velocity s); changed f32_eq (u_health u) (health s);
     changed f32_eq (u_armour u) (armour s); changed extra_eqb (u_extra u) (extra s); false; false] /\
  (forall id', id <> id' -> entities z' !! id' = entities z !! id' /\ dirty_queue z' !! id' = dirty_queue z !! id') /\
  (flags = 0 -> z' = z).
Proof.
  intros Hs. unfold update_entity. rewrite Hs, whole_update, Hs. cbn [entities dirty_queue].
  split; [|split; [|split]].
  - rewrite lookup_insert_eq. f_equal. unfold apply_update, chosen. rewrite !set_field_changed.
    destruct s; cbn [coords heading velocity health armour extra].
    by repeat (destruct (changed _ _ _); cbn [fst snd]).
  - unfold apply_update. rewrite !set_field_changed.
    by repeat (destruct (changed _ _ _); cbn [fst snd]).
  - intros id' Hid. rewrite lookup_insert_ne by done. split; [done|].
    destruct (_ =? 0); [done|by apply mark_dirty_other].
  - intros Hf. rewrite Hf. cbn [Z.eqb]. rewrite (update_unmarked _ _ Hf), insert_id by done. by destruct z.
Qed.

Lemma update_entity_effect_witness :
  let z := spawn_entity (sample_entity 1 (Some 7)) EntityManager.new in
  entities z !! 1 = Some (sample_entity 1 (Some 7)) /\
  let '(flags, z') := update_entity 1 (move_to 5) z in flags = 1 -> (flags = 0 -> z' = z).
Proof.
  split; [reflexivity|].
  pose proof (update_entity_effect 1 (move_to 5) (spawn_entity (sample_entity 1 (Some 7)) EntityManager.new)
                (sample_entity 1 (Some 7)) eq_refl) as H.
  destruct (update_entity _ _ _) as [flags z']. intros _. apply H.
Defined.

(** ** What the replica does not survive *)

Definition spawns (id : EntityId) (e : Event) : bool :=
  match e with Call (Spawn s) => entity_id s =? id | _ => false end.

(** Neither live nor queued: nothing will ever tell the world about [id]. *)
Definition forgotten (id : EntityId) (z : EntityManager) : Prop :=
  entities z !! id = None /\ dirty_queue z !! id = None.

Lemma forgotten_run op id z :
  forgotten id z -> spawns id (Call op) = false -> forgotten id (run_op op z).
Proof.
  intros [He Hq] Hs. split.
  - rewrite entities_run. destruct op as [s|id'|id' u|id' o]; cbn [spec_op].
    + cbn in Hs. rewrite lookup_insert_ne by (by apply Z.eqb_neq). done.
    + apply lookup_delete_None. by right.
    + by apply lookup_alter_None.
    + by apply lookup_alter_None.
  - assert (Hne : forall id', is_some (entities z !! id') = true -> id' <> id)
      by (intros id' H ->; by rewrite He in H).
    destruct op as [s|id'|id' u|id' o]; unfold run_op, half_of.
    + cbn in Hs |- *. rewrite mark_dirty_other by (by apply Z.eqb_neq). done.
    + rewrite whole_remove. cbn [dirty_queue]. specialize (Hne id').
      destruct (entities z !! id'); [|done]. by rewrite lookup_insert_ne by auto.
    + rewrite whole_update. specialize (Hne id'). destruct (entities z !! id'); [|done].
      cbn [dirty_queue]. destruct (_ =? 0); [done|]. by rewrite mark_dirty_other by auto.
    + rewrite whole_set_owner. specialize (Hne id'). destruct (entities z !! id'); [|done].
      case_bool_decide; [done|]. cbn [dirty_queue]. by rewrite mark_dirty_other by auto.
Qed.

Lemma keyed_run op z : keyed (dirty_queue z) -> keyed (dirty_queue (run_op op z)).
Proof.
  intros Hk. unfold run_op, whole. destruct (half_of op _) as [es [w|]]; [|done].
  by apply queue_half_keyed.
Qed.

(** A ghost in the world stays there until its id is spawned again. *)
Lemma ghost_stays evs s s' id :
  runs evs s s' -> keyed (dirty_queue s.1) -> forgotten id s.1 ->
  existsb (spawns id) evs = false ->
  forgotten id s'.1 /\ s'.2 !! id = s.2 !! id.
Proof.
  intros Hr. induction Hr as [s|e evs s1 s2 s3 Hs Hr IH]; intros Hk Hf Hn; [done|].
  cbn in Hn. apply orb_false_iff in Hn as [He Hn].
  destruct Hs as [op z w|arrives batch z w Hb]; cbn [fst snd] in *.
  - apply IH; [by apply keyed_run|by apply forgotten_run|done].
  - destruct IH as [Hf' Hw]; [by intros id' d H|by split; [apply Hf|]|done|].
    split; [done|]. rewrite Hw. destruct arrives; [|done].
    rewrite (merge_overlay (dirty_queue z)) by done. unfold overlay. destruct Hf as [_ ->]. done.
Qed.

(** a batch that is lost (the publication fails, or its encoding does) takes
    the removals in it with it: no later tick mentions the entity again, so
    the aggregated world keeps it for as long as its id is not reused. *)
Theorem lost_batch_leaves_ghost id z w s0 g evs z' w' :
  keyed (dirty_queue z) -> entities z !! id = Some s0 -> w !! id = Some g ->
  existsb (spawns id) evs = false ->
  runs (Call (Remove id) :: Emit false :: evs) (z, w) (z', w') ->
  entities z' !! id = None /\ w' !! id = Some g.
Proof.
  intros Hk Hs Hw Hn Hr. inversion Hr as [|? ? ? ? ? Hc Hr1]; subst. inversion Hc; subst.
  inversion Hr1 as [|? ? ? ? ? He Hr2]; subst. inversion He; subst.
  destruct (ghost_stays _ _ _ id Hr2) as [[Hf _] Hg]; [by intros id' d H| |done|].
  - split; [|done]. cbn [fst flush_dirty snd entities]. rewrite entities_run. apply lookup_delete_eq.
  - split; [done|]. cbn [fst snd] in Hg. by rewrite Hg.
Qed.

Lemma lost_batch_leaves_ghost_witness :
  exists z' (w' : gmap EntityId EntityState), entities z' !! 1 = None /\ w' !! 1 = Some (sample_entity 1 None).
Proof.
  set (z := (flush_dirty (spawn_entity (sample_entity 1 None) EntityManager.new)).2).
  set (w := {[1 := sample_entity 1 None]} : gmap Z EntityState).
  set (evs := [Call (Update 1 (move_to 3)); Emit true]).
  exists (foldl exec_event (z, w) (Call (Remove 1) :: Emit false :: evs)).1,
         (foldl exec_event (z, w) (Call (Remove 1) :: Emit false :: evs)).2.
  apply (lost_batch_leaves_ghost 1 z w (sample_entity 1 None) _ evs);
    [by intros id' d H|reflexivity|reflexivity|reflexivity|].
  rewrite <- surjective_pairing. apply exec_runs.
Defined.

(** an entity spawned again under an id removed since the last tick is
    dropped from the batch: it lives in the zone, and the tick deletes it from
    the world. *)
Theorem respawn_before_tick_lost id z w s0 s :
  keyed (dirty_queue z) -> entities z !! id = Some s0 -> entity_id s = id ->
  let z1 := spawn_entity s (remove_entity id z).2 in
  entities z1 !! id = Some s /\
  forall batch, batch ≡ₚ (flush_dirty z1).1 -> merge_batch batch w !! id = None.
Proof.
  intros Hk Hs <-. unfold spawn_entity, remove_entity. cbn [snd]. rewrite whole_remove, Hs.
  split; [apply lookup_insert_eq|]. intros batch Hb.
  set (q := queue_half (MarkDeleted (entity_id s) s0) (dirty_queue z)).
  assert (Hq : mark_dirty (entity_id s) (flags_without all_flags DELETED) s q = q)
    by (unfold mark_dirty, q; cbn [queue_half]; by rewrite lookup_insert_eq).
  rewrite (merge_overlay q) by (by apply queue_half_keyed || by rewrite <- Hq).
  unfold overlay, q. cbn [queue_half]. by rewrite lookup_insert_eq.
Qed.

Lemma respawn_before_tick_lost_witness :
  let z := spawn_entity (sample_entity 1 None) EntityManager.new in
  let z1 := spawn_entity (sample_entity 1 (Some 3)) (remove_entity 1 z).2 in
  entities z1 !! 1 = Some (sample_entity 1 (Some 3)) /\
  merge_batch (flush_dirty z1).1 ∅ !! 1 = None.
Proof.
  destruct (respawn_before_tick_lost 1 (spawn_entity (sample_entity 1 None) EntityManager.new) ∅
              (sample_entity 1 None) (sample_entity 1 (Some 3))) as [H1 H2];
    [by apply (queue_half_keyed (MarkDirty 1 127 (sample_entity 1 None)))|reflexivity|reflexivity|].
  split; [exact H1|by apply H2].
Defined.

(** ** Several threads

    A thread holds the queue work of its operation between the operation's two
    halves; every half is one atomic step, and so are the drain of the queue
    and the merge. *)

Record Threads := { store : EntityManager; held : list QueueWork; seen : gmap EntityId EntityState }.

Inductive micro : Threads -> Threads -> Prop :=
| micro_entity op t es work :
    half_of op (entities (store t)) = (es, work) ->
    micro t {| store := {| entities := es; dirty_queue := dirty_queue (store t) |};
               held := held t ++ option_list work; seen := seen t |}
| micro_queue w before after t :
    held t = before ++ w :: after ->
    micro t {| store := {| entities := entities (store t);
                           dirty_queue := queue_half w (dirty_queue (store t)) |};
               held := before ++ after; seen := seen t |}
| micro_emit batch t :
    batch ≡ₚ (flush_dirty (store t)).1 ->
    micro t {| store := (flush_dirty (store t)).2; held := held t; seen := merge_batch batch (seen t) |}.

(** A whole call is its two halves with nothing in between. *)
Lemma whole_micro op z hs w :
  rtc micro {| store := z; held := hs; seen := w |} {| store := run_op op z; held := hs; seen := w |}.
Proof.
  unfold run_op, whole. destruct (half_of op (entities z)) as [es work] eqn:E.
  eapply rtc_l; [by apply (micro_entity op)|]. cbn [store held seen].
  destruct work as [q|]; cbn [option_list].
  - eapply rtc_l; [by apply (micro_queue q hs [])|]. cbn. by rewrite app_nil_r.
  - rewrite app_nil_r. done.
Qed.

Lemma flush_keyed_nil (z : EntityManager) : keyed (dirty_queue (flush_dirty z).2).
Proof. by intros id d H. Qed.

(** the two halves of an update are not one step. A removal and a tick that run between
    them leave the world with an entity that no longer exists: the update's
    mark arrives after the removal has been drained, and the next tick
    publishes it. From then on the ghost stays until its id is reused. *)
Theorem late_mark_leaves_ghost id u z w s :
  entities z !! id = Some s -> (apply_update u s).2 <> 0 ->
  exists t, rtc micro {| store := z; held := []; seen := w |} t /\
    held t = [] /\ forgotten id (store t) /\ seen t !! id = Some (apply_update u s).1 /\
    forall evs z' w', existsb (spawns id) evs = false -> runs evs (store t, seen t) (z', w') ->
      entities z' !! id = None /\ w' !! id = Some (apply_update u s).1.
Proof.
  intros Hs Hu. set (s' := (apply_update u s).1). set (f := (apply_update u s).2) in *.
  set (z1 := {| entities := <[id := s']> (entities z); dirty_queue := dirty_queue z |}).
  set (z2 := (flush_dirty (run_op (Remove id) z1)).2).
  set (w2 := merge_batch (flush_dirty (run_op (Remove id) z1)).1 w).
  set (z3 := {| entities := entities z2; dirty_queue := mark_dirty id f s' ∅ |}).
  exists {| store := (flush_dirty z3).2; held := []; seen := merge_batch (flush_dirty z3).1 w2 |}.
  assert (Hgone : entities z2 !! id = None).
  { unfold z2. cbn [flush_dirty snd entities]. rewrite entities_run. apply lookup_delete_eq. }
  assert (Hseen : merge_batch (flush_dirty z3).1 w2 !! id = Some s').
  { rewrite (merge_overlay (dirty_queue z3)) by (done || by apply mark_dirty_keyed).
    apply overlay_mark; [done|apply update_not_deleted]. }
  split; [|split; [done|split; [done|split; [done|]]]].
  - eapply rtc_l.
    { eapply (micro_entity (Update id u)). cbn [store half_of]. unfold update_half. rewrite Hs.
      rewrite (surjective_pairing (apply_update u s)). fold f s'.
      apply Z.eqb_neq in Hu as ->. done. }
    cbn [held seen store app option_list]. fold z1.
    etransitivity; [apply (whole_micro (Remove id))|].
    eapply rtc_l; [by apply (micro_emit (flush_dirty (run_op (Remove id) z1)).1)|].
    cbn [store held seen]. fold z2 w2.
    eapply rtc_l; [by apply (micro_queue (MarkDirty id f s') [] [])|].
    cbn [store held seen app]. fold z3. by apply rtc_once, micro_emit.
  - intros evs z' w' Hn Hr. cbn [store seen] in Hr.
    destruct (ghost_stays _ _ _ id Hr) as [[Hf _] Hg]; [apply flush_keyed_nil|by split|done|].
    split; [done|]. cbn [snd] in Hg. by rewrite Hg.
Qed.

Lemma late_mark_leaves_ghost_witness :
  exists t, held t = [] /\ forgotten 1 (store t) /\
    seen t !! 1 = Some (apply_update (move_to 5) (sample_entity 1 None)).1.
Proof.
  destruct (late_mark_leaves_ghost 1 (move_to 5) (spawn_entity (sample_entity 1 None) EntityManager.new) ∅
              (sample_entity 1 None)) as (t & _ & H1 & H2 & H3 & _); [reflexivity|done|].
  exists t. split; [exact H1|split; [exact H2|exact H3]].
Defined.

(** Two updates of one entity can reach the queue in the other order, and the
    world then shows the earlier state while the zone has the later one. *)
Lemma updates_cross id u1 u2 z w s :
  keyed (dirty_queue z) -> pending_delete (dirty_queue z) id = false ->
  entities z !! id = Some s -> (apply_update u1 s).2 <> 0 ->
  let s1 := (apply_update u1 s).1 in
  exists t, rtc micro {| store := z; held := []; seen := w |} t /\ held t = [] /\
    entities (store t) !! id = Some (apply_update u2 s1).1 /\
    dirty_queue (store t) = ∅ /\ seen t !! id = Some s1.
Proof.
  intros Hk Hp Hs Hu s1. set (f := (apply_update u1 s).2) in *.
  set (z1 := {| entities := <[id := s1]> (entities z); dirty_queue := dirty_queue z |}).
  set (z2 := run_op (Update id u2) z1).
  set (z3 := {| entities := entities z2; dirty_queue := mark_dirty id f s1 (dirty_queue z2) |}).
  exists {| store := (flush_dirty z3).2; held := []; seen := merge_batch (flush_dirty z3).1 w |}.
  split; [|split; [done|split; [|split; [done|]]]].
  - eapply rtc_l.
    { eapply (micro_entity (Update id u1)). cbn [store half_of]. unfold update_half. rewrite Hs.
      rewrite (surjective_pairing (apply_update u1 s)). fold f s1.
      apply Z.eqb_neq in Hu as ->. done. }
    cbn [held seen store app option_list]. fold z1.
    etransitivity; [apply (whole_micro (Update id u2))|]. fold z2.
    eapply rtc_l; [by apply (micro_queue (MarkDirty id f s1) [] [])|].
    cbn [store held seen app]. fold z3. by apply rtc_once, micro_emit.
  - cbn [store flush_dirty snd entities]. unfold z3, z2. cbn [entities]. rewrite entities_run. cbn.
    by rewrite lookup_alter_eq, lookup_insert_eq.
  - cbn [seen]. rewrite (merge_overlay (dirty_queue z3)) by
      (done || by apply mark_dirty_keyed, (keyed_run (Update id u2))).
    apply overlay_mark; [|apply update_not_deleted].
    destruct (pending_delete (dirty_queue z2) id) eqn:E; [|done].
    apply (pending_run (Update id u2)) in E as [E|[E _]]; [|done]. cbn in E. congruence.
Qed.
