(* ===== verification/ZoneIngest.v ===== *)
(** * State ingestion, ownership and player snapshots of a zone

    - src/crates/baston-zone/src/state_ingest.rs: the validated entry of
      client state updates into the entity store;
    - src/crates/baston-zone/src/ownership.rs: the periodic reassignment of
      network owners;
    - src/crates/baston-protocol/src/player_snapshot.rs and [build_snapshot]
      of src/crates/baston-zone/src/boundary_loop.rs: what a player takes along
      to another zone.

    Instants and durations are counts of nanoseconds. The clock readings of a
    call and the freshly allocated entity id are arguments. *)

From S2P Require Import Prelude F32 EntityStore.
Import EntityManager.

(** ** State ingestion (state_ingest.rs) *)

Inductive RejectReason := Teleport | NotOwner | UnknownEntity.

Record ClientStateUpdate := {
  c_entity_id : option EntityId; c_entity_type : EntityType; c_model_hash : Z;
  c_coords : vec3; c_heading : f32; c_velocity : vec3; c_health : f32; c_armour : f32;
  c_extra : option EntityExtra
}.

Record StateIngest := {
  manager : EntityManager;
  player_entities : gmap Z EntityId;
  last_accepted : gmap EntityId (Z * vec3);
  snapshot_subscribers : gset Z;
  max_speed_mps : f32
}.

#[export] Instance StateIngest_rebuild : Rebuild StateIngest := fun r =>
  {| manager := manager r; player_entities := player_entities r; last_accepted := last_accepted r;
     snapshot_subscribers := snapshot_subscribers r; max_speed_mps := max_speed_mps r |}.

Definition ingest_new (em : EntityManager) (max_speed : f32) : StateIngest :=
  {| manager := em; player_entities := ∅; last_accepted := ∅; snapshot_subscribers := ∅;
     max_speed_mps := max_speed |}.

Definition player_entity (st : StateIngest) (source : Z) : option EntityId := player_entities st !! source.

(** Connected players with a live ped, in the iteration order of the map. *)
Definition player_kinematics (st : StateIngest) : list (Z * vec3 * vec3) :=
  omap (fun kv => (fun s => (kv.1, coords s, velocity s)) <$> get (manager st) kv.2)
       (map_to_list (player_entities st)).

Definition player_positions (st : StateIngest) : list (Z * vec3) :=
  omap (fun kv => (fun s => (kv.1, coords s)) <$> get (manager st) kv.2)
       (map_to_list (player_entities st)).

(** [Duration::as_secs_f32]. *)
Definition NANOS_PER_SEC : Z := 10 ^ 9.
Definition as_secs_f32 (d : Z) : f32 :=
  f32_add (f32_of_Z (d / NANOS_PER_SEC)) (f32_div (f32_of_Z (d mod NANOS_PER_SEC)) (f32_of_Z NANOS_PER_SEC)).

(** The literal [0.05]. *)
Definition MIN_DT : f32 := S754_finite false 13421773 (-28).

(** The displacement speed of an update. *)
Definition implied_speed (from to : vec3) (elapsed : Z) : f32 :=
  f32_div (distance3d from to) (f32_max (as_secs_f32 elapsed) MIN_DT).

Definition owned_state (id : EntityId) (type : EntityType) (source : Z) (update : ClientStateUpdate)
    (default_extra : EntityExtra) : EntityState :=
  {| entity_id := id; entity_type := type; network_owner := Some source;
     model_hash := c_model_hash update; coords := c_coords update; heading := c_heading update;
     velocity := c_velocity update; health := c_health update; armour := c_armour update;
     extra := default default_extra (c_extra update) |}.

Definition spawn_owned_entity (now source : Z) (id : EntityId) (update : ClientStateUpdate)
    (st : StateIngest) : StateIngest :=
  let em := spawn_entity (owned_state id (c_entity_type update) source update (ExtraObject false)) (manager st) in
  (st <| manager := em |>) <| last_accepted := <[id := (now, c_coords update)]> (last_accepted st) |>.

Definition spawn_player_entity (now fresh source : Z) (update : ClientStateUpdate) (st : StateIngest)
    : StateIngest :=
  let em := spawn_entity (owned_state fresh Player source update (ExtraPlayer false None)) (manager st) in
  (st <| manager := em |>) <| player_entities := <[source := fresh]> (player_entities st) |>
     <| last_accepted := <[fresh := (now, c_coords update)]> (last_accepted st) |>.

(** Mounting a vehicle transfers its ownership to the driver. *)
Definition mount (source : Z) (update : ClientStateUpdate) (em : EntityManager) : EntityManager :=
  match c_extra update with
  | Some (ExtraPlayer true (Some vehicle)) =>
      match get em vehicle with
      | Some v => if bool_decide (network_owner v = Some source) then em
                  else (set_network_owner vehicle (Some source) em).2
      | None => em
      end
  | _ => em
  end.

Definition update_of (update : ClientStateUpdate) : EntityStateUpdate :=
  {| u_coords := Some (c_coords update); u_heading := Some (c_heading update);
     u_velocity := Some (c_velocity update); u_health := Some (c_health update);
     u_armour := Some (c_armour update); u_extra := c_extra update |}.

(** The test against the last accepted position: [checked] is when the
    elapsed time is read ([Instant::elapsed] saturates at zero). *)
Definition too_fast (checked : Z) (id : EntityId) (update : ClientStateUpdate) (st : StateIngest) : bool :=
  match last_accepted st !! id with
  | Some (at_, from) => f32_gt (implied_speed from (c_coords update) (Z.max 0 (checked - at_))) (max_speed_mps st)
  | None => false
  end.

(** The part of [apply] behind the resolution of the entity. *)
Definition accept (checked now source : Z) (id : EntityId) (update : ClientStateUpdate) (st : StateIngest)
    : (EntityId + RejectReason) * StateIngest :=
  if too_fast checked id update st then (inr Teleport, st)
  else
    let em := (update_entity id (update_of update) (mount source update (manager st))).2 in
    (inl id, (st <| last_accepted := <[id := (now, c_coords update)]> (last_accepted st) |>) <| manager := em |>).

Definition apply (checked now fresh source : Z) (update : ClientStateUpdate) (st : StateIngest)
    : (EntityId + RejectReason) * StateIngest :=
  match c_entity_id update with
  | None =>
      match player_entities st !! source with
      | Some id => accept checked now source id update st
      | None => (inl fresh, spawn_player_entity now fresh source update st)
      end
  | Some id =>
      match get (manager st) id with
      | None =>
          if negb (bool_decide (c_entity_type update = Player))
          then (inl id, spawn_owned_entity now source id update st)
          else (inr UnknownEntity, st)
      | Some state =>
          if negb (bool_decide (network_owner state = Some source)) then (inr NotOwner, st)
          else accept checked now source id update st
      end
  end.

Definition mark_snapshot_subscriber (source : Z) (st : StateIngest) : StateIngest :=
  st <| snapshot_subscribers := {[source]} ∪ snapshot_subscribers st |>.

Definition is_snapshot_subscriber (st : StateIngest) (source : Z) : bool :=
  bool_decide (source ∈ snapshot_subscribers st).

Definition on_player_dropped (source : Z) (st : StateIngest) : StateIngest :=
  let st1 := match player_entities st !! source with
             | Some id => ((st <| player_entities := delete source (player_entities st) |>)
                             <| manager := (remove_entity id (manager st)).2 |>)
                             <| last_accepted := delete id (last_accepted st) |>
             | None => st
             end in
  st1 <| snapshot_subscribers := snapshot_subscribers st1 ∖ {[source]} |>.

(** ** Ownership (ownership.rs) *)

(** [a.partial_cmp(&b).unwrap_or(Equal)]. *)
Definition partial_cmp_or_equal (a b : f32) : comparison := default Eq (SFcompare a b).

Definition assign_network_owner (e : EntityState) (players : list (Z * vec3)) : option Z :=
  fst <$> min_by (fun a b => partial_cmp_or_equal (distance3d a.2 (coords e)) (distance3d b.2 (coords e))) players.

(** One entity of the scan: the owner it gets, if it changes. *)
Definition reassignment (players : list (Z * vec3)) (e : EntityState) : option (option Z) :=
  let owner_connected :=
    match network_owner e with Some o => bool_decide (o ∈ players.*1) | None => false end in
  let best := assign_network_owner e players in
  if negb owner_connected || negb (bool_decide (best = network_owner e)) then
    if bool_decide (best = network_owner e) then None else Some best
  else None.

Definition is_player_type (e : EntityState) : bool := bool_decide (entity_type e = Player).

(** The scan over a snapshot: the changes reported to the callback, in order. *)
Definition scan_one (players : list (Z * vec3)) (acc : list (EntityId * option Z) * EntityManager)
    (e : EntityState) : list (EntityId * option Z) * EntityManager :=
  match reassignment players e with
  | Some best =>
      let '(found, em) := set_network_owner (entity_id e) best acc.2 in
      (if found then acc.1 ++ [(entity_id e, best)] else acc.1, em)
  | None => acc
  end.

Definition scan (st : StateIngest) : list (EntityId * option Z) * StateIngest :=
  let players := player_positions st in
  let r := foldl (scan_one players) ([], manager st)
             (snapshot_filtered (manager st) (fun e => negb (is_player_type e))) in
  (r.1, st <| manager := r.2 |>).

(** ** Player snapshots *)

Record PlayerStateSnapshot := {
  source_id : Z; s_name : list Z; s_identifiers : list (list Z);
  s_coords : vec3; s_heading : f32; s_velocity : vec3; s_health : f32; s_armour : f32;
  s_current_weapon : Z;
  s_player_entity : option EntityState;
  s_owned_entities : list EntityState;
  s_script_state : gmap (list Z) (list Z)
}.

(** The directory entry of the player and the script state collected from the
    resources are arguments. *)
Definition build_snapshot (info : option (list Z * list (list Z))) (script_state : gmap (list Z) (list Z))
    (source : Z) (at_ vel : vec3) (st : StateIngest) : PlayerStateSnapshot :=
  let player_entity_id := player_entity st source in
  let ped := player_entity_id ≫= get (manager st) in
  {| source_id := source;
     s_name := from_option fst [] info;
     s_identifiers := from_option snd [] info;
     s_coords := at_;
     s_heading := from_option heading f32_zero ped;
     s_velocity := vel;
     s_health := from_option health (f32_of_Z 200) ped;
     s_armour := from_option armour f32_zero ped;
     s_current_weapon := 0;
     s_player_entity := ped;
     s_owned_entities := filter (fun e => Some (entity_id e) <> player_entity_id)
                           (entities_owned_by (manager st) source);
     s_script_state := script_state |}.

Definition restore_player_state (now : Z) (snapshot : PlayerStateSnapshot) (st : StateIngest)
    : option EntityId * StateIngest :=
  let em := foldl (fun em e => spawn_entity e em) (manager st) (s_owned_entities snapshot) in
  match s_player_entity snapshot with
  | None => (None, st <| manager := em |>)
  | Some ped =>
      let id := entity_id ped in
      (Some id,
       (st <| manager := spawn_entity ped em |>)
         <| player_entities := <[source_id snapshot := id]> (player_entities st) |>
         <| last_accepted := <[id := (now, s_coords snapshot)]> (last_accepted st) |>)
  end.

(** What a zone drops when a player goes: the closures [on_release_player] and
    [post_handoff_cleanup] of src/crates/baston-zone/src/bin/baston-zone.rs,
    without the script event and the player directory. *)
Definition release_player_state (source : Z) (st : StateIngest) : StateIngest :=
  let em := foldl (fun em e => (remove_entity (entity_id e) em).2) (manager st)
              (entities_owned_by (manager st) source) in
  on_player_dropped source (st <| manager := em |>).

(** ** The store under each call *)

Lemma entities_spawn s em : entities (spawn_entity s em) = <[entity_id s := s]> (entities em).
Proof. exact (entities_run (Spawn s) em). Qed.

Lemma entities_update id u em :
  entities (update_entity id u em).2 = alter (fun s => (apply_update u s).1) id (entities em).
Proof. exact (entities_run (Update id u) em). Qed.

Lemma entities_set_owner id o em :
  entities (set_network_owner id o em).2 = alter (fun s => s <| network_owner := o |>) id (entities em).
Proof. exact (entities_run (SetOwner id o) em). Qed.

Lemma entities_remove id em : entities (remove_entity id em).2 = delete id (entities em).
Proof. exact (entities_run (Remove id) em). Qed.

(** The store of the state on the left is [em]. *)
Ltac store_is em :=
  match goal with |- entities (manager ?x) !! _ = _ => change (manager x) with em end.

(** The vehicle an update says its sender drives. *)
Definition mounted (update : ClientStateUpdate) : option EntityId :=
  match c_extra update with Some (ExtraPlayer true v) => v | _ => None end.

Lemma owner_already s source :
  network_owner s = Some source -> s <| network_owner := Some source |> = s.
Proof. by destruct s; cbn; intros ->. Qed.

Lemma mount_entities source update em id :
  entities (mount source update em) !! id =
    (if bool_decide (mounted update = Some id)
     then fun s => s <| network_owner := Some source |> else fun s => s) <$> entities em !! id.
Proof.
  unfold mount, mounted.
  destruct (c_extra update) as [[i v| | |]|]; try by destruct (entities em !! id).
  destruct i, v as [v|]; try by destruct (entities em !! id).
  unfold get. case_bool_decide as H.
  - injection H as ->. destruct (entities em !! id) as [s|] eqn:E; [|by rewrite E].
    case_bool_decide as Ho.
    + rewrite E. cbn. by rewrite owner_already.
    + rewrite entities_set_owner, lookup_alter_eq, E. done.
  - assert (Hv : v <> id) by congruence.
    destruct (entities em !! v) as [s|]; [case_bool_decide|].
    + by destruct (entities em !! id).
    + rewrite entities_set_owner, lookup_alter_ne by done. by destruct (entities em !! id).
    + by destruct (entities em !! id).
Qed.

Lemma entities_id_fmap {A} (o : option A) : (fun s => s) <$> o = o.
Proof. by destruct o. Qed.

(** What an accepted update changes. *)
Lemma accept_spec checked now source id update st r st' :
  accept checked now source id update st = (r, st') ->
  (r = inr Teleport /\ st' = st /\ too_fast checked id update st = true) \/
  (r = inl id /\ too_fast checked id update st = false /\
   player_entities st' = player_entities st /\
   last_accepted st' = <[id := (now, c_coords update)]> (last_accepted st) /\
   forall other, entities (manager st') !! other =
     (fun s => if decide (other = id) then (apply_update (update_of update) s).1 else s) <$>
       entities (mount source update (manager st)) !! other).
Proof.
  unfold accept. destruct (too_fast _ _ _ _); intros [= <- <-]; [by left|right].
  repeat split. intros other. 
  store_is (update_entity id (update_of update) (mount source update (manager st))).2.
  rewrite entities_update. destruct (decide (other = id)) as [->|Hne].
  - by rewrite lookup_alter_eq.
  - rewrite lookup_alter_ne by done. by rewrite entities_id_fmap.
Qed.

(** The update names an entity, or a ped, that does not exist yet. *)
Definition spawning (source : Z) (update : ClientStateUpdate) (st : StateIngest) : bool :=
  match c_entity_id update with
  | Some id => negb (is_some (entities (manager st) !! id))
  | None => negb (is_some (player_entities st !! source))
  end.

Definition driven (source : Z) (s : EntityState) : EntityState := s <| network_owner := Some source |>.

(** What a call touched, by its outcome, and that nothing else is. *)
Definition spared (now source : Z) (update : ClientStateUpdate) (st : StateIngest)
    (r : EntityId + RejectReason) (st' : StateIngest) : Prop :=
  match r with
  | inr _ => st' = st
  | inl id =>
      (entities (manager st) !! id = None \/ player_entities st !! source = Some id \/
       exists s, entities (manager st) !! id = Some s /\ network_owner s = Some source) /\
      (if spawning source update st
       then entities (manager st) !! id = None /\ exists s, entities (manager st') !! id = Some s /\
              entity_id s = id /\ network_owner s = Some source /\ coords s = c_coords update
       else entities (manager st') !! id =
              (fun s => (apply_update (update_of update) (if bool_decide (mounted update = Some id) then driven source s else s)).1)
                <$> entities (manager st) !! id) /\
      (forall other, other <> id -> entities (manager st') !! other =
         (if negb (spawning source update st) && bool_decide (mounted update = Some other) then driven source else (fun s => s))
           <$> entities (manager st) !! other) /\
      (forall other, other <> id -> spawning source update st = true \/ mounted update <> Some other ->
         dirty_queue (manager st') !! other = dirty_queue (manager st) !! other) /\
      last_accepted st' = <[id := (now, c_coords update)]> (last_accepted st) /\
      player_entities st' = match c_entity_id update with None => <[source := id]> (player_entities st) | Some _ => player_entities st end /\
      snapshot_subscribers st' = snapshot_subscribers st /\ max_speed_mps st' = max_speed_mps st
  end.

(** The queue of the emitter, where a call does not mark. *)
Lemma mount_queue source update em other : mounted update <> Some other ->
  dirty_queue (mount source update em) !! other = dirty_queue em !! other.
Proof.
  unfold mount, mounted. destruct (c_extra update) as [[[] [v|]| | |]|]; try done. intros Hne.
  unfold get. destruct (entities em !! v) as [s|] eqn:E; [|done]. case_bool_decide as Ho; [done|].
  change (set_network_owner v (Some source) em).2 with (whole (set_network_owner_half v (Some source)) em).
  rewrite whole_set_owner, E, bool_decide_eq_false_2 by done. cbn [dirty_queue]. apply mark_dirty_other. congruence.
Qed.

Lemma update_queue id u em other : other <> id ->
  dirty_queue (update_entity id u em).2 !! other = dirty_queue em !! other.
Proof.
  intros Hne. change (update_entity id u em).2 with (whole (update_half id u) em). rewrite whole_update.
  destruct (entities em !! id); [|done]. cbn [dirty_queue]. destruct (_ =? 0); [done|]. by apply mark_dirty_other.
Qed.

Lemma accept_spares checked now source id update st r st' :
  accept checked now source id update st = (r, st') -> spawning source update st = false ->
  c_entity_id update = None /\ player_entities st !! source = Some id \/
    c_entity_id update = Some id /\ (exists s, entities (manager st) !! id = Some s /\ network_owner s = Some source) ->
  spared now source update st r st'.
Proof.
  intros Ha Hn Hid. pose proof (accept_spec _ _ _ _ _ _ _ _ Ha) as [(-> & -> & _)|(-> & Ht & Hp & Hl & He)]; [done|].
  unfold spared. rewrite Hn. split_and!.
  - destruct Hid as [[_ ?]|[_ ?]]; [by right; left|by right; right].
  - rewrite He, mount_entities. destruct (entities (manager st) !! id); case_bool_decide; cbn; by rewrite ?decide_True by done.
  - intros other Hne. rewrite He, mount_entities. cbn [negb andb].
    destruct (entities (manager st) !! other); case_bool_decide; cbn; by rewrite ?decide_False by done.
  - intros other Hne [Hs|Hm]; [done|]. unfold accept in Ha. rewrite Ht in Ha. injection Ha as <-.
    match goal with |- dirty_queue (manager ?x) !! _ = _ =>
      change (manager x) with (update_entity id (update_of update) (mount source update (manager st))).2 end.
    by rewrite update_queue, mount_queue.
  - done.
  - rewrite Hp. destruct Hid as [[-> Hs]|[-> _]]; [|done]. by rewrite insert_id.
  - unfold accept in Ha. rewrite Ht in Ha. by injection Ha as <-.
  - unfold accept in Ha. rewrite Ht in Ha. by injection Ha as <-.
Qed.

Lemma spawned_spares (em : gmap EntityId EntityState) (e : EntityState) id :
  entity_id e = id -> em !! id = None ->
  <[entity_id e := e]> em !! id = Some e /\
  forall other, other <> id -> <[entity_id e := e]> em !! other = (fun s => s) <$> em !! other.
Proof.
  intros <- _. split; [apply lookup_insert_eq|]. intros other Hne.
  by rewrite lookup_insert_ne, entities_id_fmap by done.
Qed.

(** C23: an update from a client changes only the entity it is aimed at, which is
    the client's own ped, an entity it owned, or one that did not exist. A
    refused update changes nothing at all. A spawn adds the entity, owned by
    the client and where the update says, and leaves every other one alone, the
    vehicle the update names included. An accepted update of a live entity
    writes that entity's reported fields, and the owner, nothing else, of the
    vehicle it says it drives. Nothing else is queued for the emitter, and beside
    that only the speed baseline of the entity is renewed, and the client's ped
    recorded. *)
Theorem apply_spares_others checked now fresh source update st r st' :
  entities (manager st) !! fresh = None ->
  apply checked now fresh source update st = (r, st') -> spared now source update st r st'.
Proof.
  intros Hfresh. unfold apply, get. destruct (c_entity_id update) as [id|] eqn:Ec.
  - destruct (entities (manager st) !! id) as [s|] eqn:E.
    + case_bool_decide as Ho; cbn [negb]; [|by intros [= <- <-]].
      intros H. apply (accept_spares _ _ _ _ _ _ _ _ H); [unfold spawning; by rewrite Ec, E|]. right. split; [done|]. by exists s.
    + case_bool_decide; cbn [negb]; intros [= <- <-]; [done|].
      unfold spared, spawning. rewrite Ec, E. cbn [is_some negb andb].
      destruct (spawned_spares (entities (manager st)) (owned_state id (c_entity_type update) source update (ExtraObject false)) id
        eq_refl E) as [H1 H2].
      split; [by left|]. split; [by split; [|eexists; split; [exact H1|]]|]. split; [exact H2|].
      split; [by intros other Hne _; apply mark_dirty_other|done].
  - destruct (player_entities st !! source) as [id|] eqn:E.
    + intros H. apply (accept_spares _ _ _ _ _ _ _ _ H); [unfold spawning; by rewrite Ec, E|]. by left.
    + intros [= <- <-]. unfold spared, spawning. rewrite Ec, E. cbn [is_some negb andb].
      destruct (spawned_spares (entities (manager st)) (owned_state fresh Player source update (ExtraPlayer false None)) fresh
        eq_refl Hfresh) as [H1 H2].
      split; [by left|]. split; [by split; [|eexists; split; [exact H1|]]|]. split; [exact H2|].
      split; [by intros other Hne _; apply mark_dirty_other|done].
Qed.

Definition report (id : option EntityId) (at_ : vec3) (mount_of : option EntityId) : ClientStateUpdate :=
  {| c_entity_id := id; c_entity_type := Player; c_model_hash := 1; c_coords := at_;
     c_heading := f32_zero; c_velocity := (f32_zero, f32_zero, f32_zero); c_health := f32_of_Z 100;
     c_armour := f32_zero; c_extra := (fun v => ExtraPlayer true (Some v)) <$> mount_of |}.

Definition origin : vec3 := (f32_zero, f32_zero, f32_zero).

(** Players 1 and 2, with peds 10 and 20. *)
Definition two_players : StateIngest :=
  (apply 0 0 20 2 (report None origin None)
    (apply 0 0 10 1 (report None origin None) (ingest_new EntityManager.new (f32_of_Z 200))).2).2.

Lemma apply_spares_others_witness :
  entities (manager two_players) !! 30 = None /\
  spared 5 1 (report None origin (Some 20)) two_players (inl 10)
    (apply 5 5 30 1 (report None origin (Some 20)) two_players).2.
Proof.
  split; [vm_compute; reflexivity|].
  apply (apply_spares_others 5 5 30); [vm_compute; reflexivity|].
  rewrite (surjective_pairing (apply 5 5 30 1 (report None origin (Some 20)) two_players)) at 1.
  apply injective_projections; [vm_compute; reflexivity|reflexivity].
Defined.

(** ** Holes in the validation *)

Lemma mount_owner source update em v s :
  entities em !! v = Some s -> mounted update = Some v ->
  exists s', entities (mount source update em) !! v = Some s' /\ network_owner s' = Some source.
Proof.
  intros Hs Hm. rewrite mount_entities, bool_decide_eq_true_2, Hs by done. by eexists.
Qed.

(** a player takes any entity of the zone by reporting that it drives it:
    the entity need not be a vehicle, nor near, nor free. After an accepted
    report the entity is the reporter's; its former owner is refused, and the
    reporter's updates of it are not. *)
Theorem mount_takes_any_entity checked now fresh source update st st' id v s :
  entities (manager st) !! v = Some s -> mounted update = Some v ->
  player_entities st !! source = Some id -> id <> v -> c_entity_id update = None ->
  apply checked now fresh source update st = (inl id, st') ->
  (exists s', entities (manager st') !! v = Some s' /\ network_owner s' = Some source) /\
  forall checked' now' fresh' update', c_entity_id update' = Some v ->
    (apply checked' now' fresh' source update' st').1 <> inr NotOwner /\
    (forall other, other <> source -> (apply checked' now' fresh' other update' st').1 = inr NotOwner).
Proof.
  intros Hs Hm Hp Hid Hn. unfold apply at 1. rewrite Hn, Hp. intros Ha.
  apply accept_spec in Ha as [(H & _)|(_ & _ & _ & _ & He)]; [done|].
  destruct (mount_owner source update (manager st) v s Hs Hm) as (s' & Hs' & Ho).
  assert (Hv : entities (manager st') !! v = Some s').
  { rewrite He, Hs'. cbn. by destruct (decide (v = id)). }
  split; [by exists s'|]. intros checked' now' fresh' update' Hu. split.
  - unfold apply, get. rewrite Hu, Hv, bool_decide_eq_true_2 by done. cbn [negb]. unfold accept.
    by destruct (too_fast _ _ _ _).
  - intros other Hne. unfold apply, get. rewrite Hu, Hv, bool_decide_eq_false_2 by congruence. done.
Qed.

(** Player 1 takes the ped of player 2. *)
Lemma mount_takes_any_entity_witness :
  let st' := (apply 5 5 30 1 (report None origin (Some 20)) two_players).2 in
  exists s', entities (manager st') !! 20 = Some s' /\ network_owner s' = Some 1.
Proof.
  destruct (mount_takes_any_entity 5 5 30 1 (report None origin (Some 20)) two_players
    (apply 5 5 30 1 (report None origin (Some 20)) two_players).2 10 20
    (owned_state 20 Player 2 (report None origin None) (ExtraPlayer false None))) as [H _];
    [vm_compute; reflexivity|reflexivity|vm_compute; reflexivity|done|reflexivity| |exact H].
  apply injective_projections; [vm_compute; reflexivity|reflexivity].
Defined.

Lemma nan_too_fast elapsed from to limit :
  is_nan (distance3d from to) = true -> f32_gt (implied_speed from to elapsed) limit = false.
Proof.
  intros H. unfold implied_speed. destruct (distance3d from to); try done.
  unfold f32_gt, f32_div, SFltb. cbn. by destruct limit as [[]|[]| |[]].
Qed.

Lemma distance_from_nan y z to : is_nan (distance3d (S754_nan, y, z) to) = true.
Proof. by destruct to as [[x' y'] z']. Qed.

Lemma distance_to_nan y z from : is_nan (distance3d from (S754_nan, y, z)) = true.
Proof. destruct from as [[x' y'] z']. unfold distance3d, f32_sub, SFsub. by destruct x'. Qed.

(** the displacement check does not see NaN. A report whose position holds
    a NaN is accepted, and becomes the position the next one is measured
    from, so that the next one is accepted wherever it is: two reports move a
    ped anywhere in the world. *)
Theorem nan_disables_speed_check c1 n1 f1 c2 n2 f2 source id st u1 u2 y z :
  player_entities st !! source = Some id ->
  c_entity_id u1 = None -> c_entity_id u2 = None -> c_coords u1 = (S754_nan, y, z) ->
  let '(r1, st1) := apply c1 n1 f1 source u1 st in
  let '(r2, st2) := apply c2 n2 f2 source u2 st1 in
  r1 = inl id /\ r2 = inl id /\ last_accepted st2 !! id = Some (n2, c_coords u2).
Proof.
  intros Hp H1 H2 Hc. unfold apply at 1. rewrite H1, Hp.
  assert (Hf1 : too_fast c1 id u1 st = false).
  { unfold too_fast. destruct (last_accepted st !! id) as [[at_ from]|]; [|done].
    apply nan_too_fast. rewrite Hc. apply distance_to_nan. }
  unfold accept at 1. rewrite Hf1. unfold apply. rewrite H2.
  change (player_entities (_ <| manager := _ |>)) with (player_entities st). rewrite Hp.
  unfold accept.
  match goal with |- context [too_fast c2 id u2 ?x] => assert (Hf2 : too_fast c2 id u2 x = false) end.
  { unfold too_fast. change (last_accepted (_ <| manager := _ |>)) with
      (<[id := (n1, c_coords u1)]> (last_accepted st)).
    rewrite lookup_insert_eq. apply nan_too_fast. rewrite Hc. apply distance_from_nan. }
  rewrite Hf2. split; [done|split; [done|]]. apply lookup_insert_eq.
Qed.

(** Ten thousand metres in no time. *)
Lemma nan_disables_speed_check_witness :
  let far := (f32_of_Z 10000, f32_zero, f32_zero) in
  (apply 5 5 30 1 (report None far None) two_players).1 = inr Teleport /\
  let '(r1, st1) := apply 5 5 30 1 (report None (S754_nan, f32_zero, f32_zero) None) two_players in
  let '(r2, st2) := apply 5 5 30 1 (report None far None) st1 in
  r1 = inl 10 /\ r2 = inl 10 /\ last_accepted st2 !! 10 = Some (5, far).
Proof.
  split; [vm_compute; reflexivity|].
  refine (nan_disables_speed_check 5 5 30 5 5 30 1 10 two_players
    (report None (S754_nan, f32_zero, f32_zero) None) (report None (f32_of_Z 10000, f32_zero, f32_zero) None)
    f32_zero f32_zero _ eq_refl eq_refl eq_refl). vm_compute. reflexivity.
Defined.

(** ** The ownership scan *)

Definition store_keyed (em : EntityManager) : Prop :=
  forall id s, entities em !! id = Some s -> entity_id s = id.

Definition give_owner (o : option Z) (s : EntityState) : EntityState := s <| network_owner := o |>.

Lemma give_owner_same s : give_owner (network_owner s) s = s.
Proof. by destruct s. Qed.

Lemma reassignment_spec players e :
  reassignment players e =
    if bool_decide (assign_network_owner e players = network_owner e) then None
    else Some (assign_network_owner e players).
Proof.
  unfold reassignment. case_bool_decide as H; cbn [negb].
  - rewrite orb_false_r. by destruct (negb _).
  - by rewrite orb_true_r.
Qed.

(** What the scan makes of one entity. *)
Definition rescanned (players : list (Z * vec3)) (s : EntityState) : EntityState :=
  if is_player_type s then s else give_owner (assign_network_owner s players) s.

Definition reported (players : list (Z * vec3)) (es : list EntityState) : list (EntityId * option Z) :=
  omap (fun e => pair (entity_id e) <$> reassignment players e) es.

(** The loop over distinct live entities sets each owner and reports the
    changes in order. *)
Lemma scan_loop players es em changes :
  NoDup (entity_id <$> es) -> (forall e, e ∈ es -> entities em !! entity_id e = Some e) ->
  let r := foldl (scan_one players) (changes, em) es in
  r.1 = changes ++ reported players es /\
  (forall e, e ∈ es -> entities r.2 !! entity_id e = Some (give_owner (assign_network_owner e players) e)) /\
  (forall id, id ∉ entity_id <$> es -> entities r.2 !! id = entities em !! id).
Proof.
  revert em changes. induction es as [|e es IH]; intros em changes Hnd Hlive.
  - split; [by rewrite app_nil_r|]. split; [by intros e He%elem_of_nil|done].
  - rewrite fmap_cons in Hnd. apply NoDup_cons in Hnd as [He Hnd].
    assert (Hl : entities em !! entity_id e = Some e) by (apply Hlive; by left).
    cbn [foldl]. set (acc := scan_one players (changes, em) e).
    assert (Hacc : acc.1 = changes ++ reported players [e] /\
      entities acc.2 = alter (give_owner (assign_network_owner e players)) (entity_id e) (entities em)).
    { unfold acc, scan_one, reported. cbn [omap list_omap fst snd]. rewrite reassignment_spec.
      case_bool_decide as H; cbn [fmap option_fmap option_map].
      - split; [by rewrite app_nil_r|]. cbn [snd].
        rewrite (alter_id _ (entities em)); [done|]. intros s Hs. rewrite Hl in Hs. injection Hs as <-.
        rewrite H. apply give_owner_same.
      - pose proof (entities_set_owner (entity_id e) (assign_network_owner e players) em) as Hso.
        unfold set_network_owner in *. cbn [snd] in Hso. rewrite Hl. cbn [is_some fst snd]. done. }
    destruct Hacc as [Hc Hem]. rewrite (surjective_pairing acc).
    destruct (IH acc.2 acc.1 Hnd) as (IH1 & IH2 & IH3).
    { intros e' He'. rewrite Hem, lookup_alter_ne; [by apply Hlive; right|].
      intros Heq. apply He. rewrite Heq. by apply list_elem_of_fmap_2. }
    split; [|split].
    + rewrite IH1, Hc, <- app_assoc. f_equal. unfold reported. cbn [omap list_omap].
      by destruct (reassignment players e).
    + intros e' [->|He']%elem_of_cons; [|by apply IH2].
      by rewrite IH3, Hem, lookup_alter_eq, Hl by done.
    + intros id [Hid Hids]%not_elem_of_cons. by rewrite IH3, Hem, lookup_alter_ne by done.
Qed.

Lemma snapshot_elem em p e : store_keyed em ->
  e ∈ snapshot_filtered em p <-> entities em !! entity_id e = Some e /\ p e = true.
Proof.
  intros Hk. unfold snapshot_filtered. rewrite list_elem_of_filter, list_elem_of_fmap. split.
  - intros [Hp ([id e'] & -> & Hin)]. apply elem_of_map_to_list in Hin. cbn in *.
    by rewrite (Hk id e' Hin).
  - intros [Hl Hp]. split; [done|]. exists (entity_id e, e). by rewrite elem_of_map_to_list.
Qed.

Lemma snapshot_ids em p : store_keyed em -> NoDup (entity_id <$> snapshot_filtered em p).
Proof.
  intros Hk. unfold snapshot_filtered.
  assert (H : forall l : list (EntityId * EntityState), NoDup l.*1 -> (forall kv, kv ∈ l -> entity_id kv.2 = kv.1) ->
    NoDup (entity_id <$> filter (fun e => p e = true) l.*2)).
  { induction l as [|[id e] l IH]; intros Hnd Hl; [constructor|].
    apply NoDup_cons in Hnd as [Hid Hnd]. rewrite fmap_cons, filter_cons. cbn [snd].
    assert (Hl' : forall kv, kv ∈ l -> entity_id kv.2 = kv.1) by (intros; apply Hl; by right).
    destruct (decide (p e = true)); [|by apply IH]. rewrite fmap_cons. apply NoDup_cons.
    split; [|by apply IH]. intros Hin. apply Hid.
    apply list_elem_of_fmap in Hin as (e' & Heq & Hin). apply list_elem_of_filter in Hin as [_ Hin].
    apply list_elem_of_fmap in Hin as ([id' e''] & -> & Hin). apply list_elem_of_fmap.
    exists (id', e''). split; [|done]. pose proof (Hl (id, e) ltac:(by left)) as H1.
    pose proof (Hl' _ Hin) as H2. cbn in *. congruence. }
  apply H; [apply NoDup_fst_map_to_list|]. intros [id e] Hin. apply elem_of_map_to_list in Hin.
  by apply Hk.
Qed.

(** The scan, entity by entity. *)
Lemma scan_entities st :
  store_keyed (manager st) ->
  entities (manager (scan st).2) = rescanned (player_positions st) <$> entities (manager st) /\
  (scan st).1 = reported (player_positions st)
                  (snapshot_filtered (manager st) (fun e => negb (is_player_type e))).
Proof.
  intros Hk. unfold scan. set (players := player_positions st).
  set (es := snapshot_filtered (manager st) _).
  destruct (scan_loop players es (manager st) []) as (H1 & H2 & H3).
  - by apply snapshot_ids.
  - intros e He. by apply snapshot_elem in He as [He _].
  - split; [|exact H1]. cbn [snd]. apply map_eq. intros id. rewrite lookup_fmap.
    store_is (foldl (scan_one players) ([], manager st) es).2.
    destruct (entities (manager st) !! id) as [s|] eqn:E.
    + pose proof (Hk _ _ E) as <-. unfold rescanned. cbn [fmap option_fmap option_map].
      destruct (is_player_type s) eqn:Ep.
      * rewrite H3; [by rewrite E|]. intros Hin. apply list_elem_of_fmap in Hin as (e & Heq & He).
        apply snapshot_elem in He as [He Hp]; [|done]. rewrite <- Heq, E in He. injection He as <-.
        by rewrite Ep in Hp.
      * apply H2. apply snapshot_elem; [done|]. by rewrite Ep.
    + rewrite H3; [done|]. intros Hin. apply list_elem_of_fmap in Hin as (e & -> & He).
      apply snapshot_elem in He as [He _]; [|done]. congruence.
Qed.

Lemma rescanned_coords players s : coords (rescanned players s) = coords s.
Proof. unfold rescanned. by destruct (is_player_type s). Qed.

Lemma assign_same_place e e' players :
  coords e = coords e' -> assign_network_owner e players = assign_network_owner e' players.
Proof. unfold assign_network_owner. by intros ->. Qed.

Lemma scan_positions st :
  store_keyed (manager st) -> player_positions (scan st).2 = player_positions st.
Proof.
  intros Hk. unfold player_positions at 1. unfold get. rewrite (proj1 (scan_entities st Hk)).
  change (player_entities (scan st).2) with (player_entities st).
  generalize (player_positions st) at 1. intros players. unfold player_positions, get.
  induction (map_to_list (player_entities st)) as [|[p id] l IH]; [done|].
  cbn [omap list_omap]. rewrite lookup_fmap. cbn [fst snd].
  destruct (entities (manager st) !! id) as [s|]; cbn [fmap option_fmap option_map]; [|apply IH].
  rewrite rescanned_coords. f_equal. exact IH.
Qed.

Lemma scan_keyed st : store_keyed (manager st) -> store_keyed (manager (scan st).2).
Proof.
  intros Hk id s. rewrite (proj1 (scan_entities st Hk)), lookup_fmap.
  destruct (entities (manager st) !! id) as [s'|] eqn:E; [|done]. intros [= <-].
  rewrite <- (Hk _ _ E). unfold rescanned. by destruct (is_player_type s').
Qed.

Lemma scan_settled st :
  (forall id s, entities (manager st) !! id = Some s -> is_player_type s = false ->
     assign_network_owner s (player_positions st) = network_owner s) ->
  store_keyed (manager st) -> scan st = ([], st).
Proof.
  intros Hs Hk. unfold scan. set (es := snapshot_filtered _ _).
  assert (Hes : forall e, e ∈ es -> reassignment (player_positions st) e = None).
  { intros e He. apply snapshot_elem in He as [He Hp]; [|done].
    rewrite reassignment_spec, bool_decide_eq_true_2; [done|]. apply (Hs _ _ He).
    by apply negb_true_iff. }
  assert (Hloop : foldl (scan_one (player_positions st)) ([], manager st) es = ([], manager st)).
  { induction es as [|e es IH]; [done|]. cbn [foldl].
    unfold scan_one at 2. rewrite Hes by (by left). apply IH. intros e' He'. apply Hes. by right. }
  rewrite Hloop. by destruct st.
Qed.

(** Among distances that are numbers, the chosen player is a nearest one. *)
Lemma assign_nearest e players o :
  (forall p, p ∈ players -> is_nan (distance3d p.2 (coords e)) = false) ->
  assign_network_owner e players = Some o ->
  exists at_, (o, at_) ∈ players /\
    forall q, q ∈ players -> f32_le (distance3d at_ (coords e)) (distance3d q.2 (coords e)) = true.
Proof.
  intros Hn. unfold assign_network_owner. set (d := fun p : Z * vec3 => distance3d p.2 (coords e)).
  change (fun a b => _) with (fun a b => partial_cmp_or_equal (d a) (d b)).
  set (rank_cmp := fun a b => lex_compare (num_rank (d a)) (num_rank (d b))).
  assert (Hcmp : min_by (fun a b => partial_cmp_or_equal (d a) (d b)) players = min_by rank_cmp players).
  { destruct players as [|p players]; [done|]. cbn [min_by]. f_equal.
    assert (Hp : is_nan (d p) = false) by (apply Hn; by left).
    assert (Hl : forall q, q ∈ players -> is_nan (d q) = false) by (intros; apply Hn; by right).
    clear Hn. revert p Hp. induction players as [|q players IH]; intros p Hp; [done|]. cbn [foldl].
    assert (Hq : is_nan (d q) = false) by (apply Hl; by left).
    unfold partial_cmp_or_equal at 2. rewrite num_cmp_rank by done. cbn [default from_option id].
    fold (rank_cmp p q). apply IH; [intros; apply Hl; by right|]. by destruct (rank_cmp p q). }
  rewrite Hcmp. destruct (min_by rank_cmp players) as [[o' at_]|] eqn:E; [|done]. intros [= ->].
  exists at_. pose proof (min_by_elem _ _ _ E) as Hin. split; [done|]. intros q Hq.
  apply num_le; [by apply (Hn (o, at_))|by apply Hn|].
  apply (min_by_least rank_cmp players (o, at_)); [..|done|done]; unfold rank_cmp.
  - intros a. by rewrite lex_compare_refl.
  - intros a b H. apply lex_compare_total in H. congruence.
  - intros a b c. apply lex_compare_le.
Qed.

(** after an ownership scan every entity that is not a player's ped belongs
    to a player nearest to it, or to nobody when no player is placed; peds
    keep their owner, nothing but owners changes, exactly the changed owners are reported, and a
    second scan changes and reports nothing. *)
Theorem scan_gives_nearest st :
  store_keyed (manager st) ->
  let '(changes, st') := scan st in
  let players := player_positions st in
  (forall id, entities (manager st') !! id =
     (fun s => if is_player_type s then s else give_owner (assign_network_owner s players) s) <$>
       entities (manager st) !! id) /\
  (forall id o, (id, o) ∈ changes <->
     exists s, entities (manager st) !! id = Some s /\ entity_type s <> Player /\
       assign_network_owner s players = o /\ network_owner s <> o) /\
  (forall s, match assign_network_owner s players with
     | None => players = []
     | Some o => (forall p, p ∈ players -> is_nan (distance3d p.2 (coords s)) = false) ->
         exists at_, (o, at_) ∈ players /\
           forall q, q ∈ players -> f32_le (distance3d at_ (coords s)) (distance3d q.2 (coords s)) = true
     end) /\
  scan st' = ([], st').
Proof.
  intros Hk. destruct (scan_entities st Hk) as [He Hc].
  pose proof (scan_positions st Hk) as Hp. pose proof (scan_keyed st Hk) as Hk'.
  destruct (scan st) as [changes st']. cbn [fst snd] in *. split; [|split; [|split]].
  - intros id. by rewrite He, lookup_fmap.
  - intros id o. rewrite Hc. unfold reported. rewrite list_elem_of_omap. split.
    + intros (e & Hin & Hr). apply snapshot_elem in Hin as [Hl Ht]; [|done].
      rewrite reassignment_spec in Hr. case_bool_decide as H; [done|]. injection Hr as <- <-.
      exists e. split; [done|]. split; [|split; [done|congruence]].
      apply negb_true_iff, bool_decide_eq_false in Ht. done.
    + intros (s & Hs & Ht & Ha & Ho). exists s. pose proof (Hk _ _ Hs) as Hid. subst id. split.
      * apply snapshot_elem; [done|]. split; [done|]. by apply negb_true_iff, bool_decide_eq_false.
      * rewrite reassignment_spec, bool_decide_eq_false_2 by congruence. by rewrite Ha.
  - intros s. destruct (assign_network_owner s (player_positions st)) as [o|] eqn:E.
    + intros Hn. by apply assign_nearest.
    + unfold assign_network_owner in E. by destruct (player_positions st).
  - apply scan_settled; [|done]. intros id s. rewrite Hp, He, lookup_fmap.
    destruct (entities (manager st) !! id) as [s'|]; [|done]. intros [= <-].
    unfold rescanned. destruct (is_player_type s') eqn:Ep; [by rewrite Ep|]. intros _.
    cbn [give_owner]. by apply assign_same_place.
Qed.

Definition car (id : Z) (owner : option Z) (x : Z) : EntityState :=
  {| entity_id := id; entity_type := Vehicle; network_owner := owner; model_hash := 1;
     coords := (f32_of_Z x, f32_zero, f32_zero); heading := f32_zero;
     velocity := (f32_zero, f32_zero, f32_zero); health := f32_of_Z 1000; armour := f32_zero;
     extra := ExtraVehicle f32_zero f32_one 0 |}.

(** Player 1 at 0, player 2 at 90, and the car of player 3, who is gone, at 100. *)
Definition parked : StateIngest :=
  let st := (apply 0 0 20 2 (report None (f32_of_Z 90, f32_zero, f32_zero) None)
    (apply 0 0 10 1 (report None origin None) (ingest_new EntityManager.new (f32_of_Z 200))).2).2 in
  st <| manager := spawn_entity (car 30 (Some 3) 100) (manager st) |>.

Lemma store_keyed_spawn s em : store_keyed em -> store_keyed (spawn_entity s em).
Proof.
  intros Hk id s'. rewrite entities_spawn. intros [[<- <-]|[_ H]]%lookup_insert_Some; [done|by apply Hk].
Qed.

Lemma store_keyed_new : store_keyed EntityManager.new.
Proof. by intros id s H. Qed.

#[export] Hint Resolve store_keyed_spawn store_keyed_new : core.

Lemma scan_gives_nearest_witness :
  store_keyed (manager parked) /\ (scan parked).1 = [(30, Some 2)] /\ scan (scan parked).2 = ([], (scan parked).2).
Proof.
  assert (Hk : store_keyed (manager parked)).
  { change (manager parked) with
      (spawn_entity (car 30 (Some 3) 100)
        (spawn_entity (owned_state 20 Player 2 (report None (f32_of_Z 90, f32_zero, f32_zero) None) (ExtraPlayer false None))
          (spawn_entity (owned_state 10 Player 1 (report None origin None) (ExtraPlayer false None)) EntityManager.new))).
    auto. }
  split; [exact Hk|split; [vm_compute; reflexivity|]].
  pose proof (scan_gives_nearest parked Hk) as H.
  rewrite (surjective_pairing (scan parked)) in H. apply H.
Defined.

(** ** A handed-off player *)

Lemma foldl_spawn es em id :
  NoDup (entity_id <$> es) ->
  (forall e, e ∈ es -> entity_id e = id ->
     entities (foldl (fun em e => spawn_entity e em) em es) !! id = Some e) /\
  (id ∉ entity_id <$> es ->
     entities (foldl (fun em e => spawn_entity e em) em es) !! id = entities em !! id).
Proof.
  revert em. induction es as [|e es IH]; intros em Hnd; [by split; [intros e He%elem_of_nil|]|].
  rewrite fmap_cons in *. apply NoDup_cons in Hnd as [He Hnd]. cbn [foldl].
  destruct (IH (spawn_entity e em) Hnd) as [IH1 IH2]. split.
  - intros e' [->|Hin]%elem_of_cons Hid; [|by apply IH1].
    rewrite IH2 by (by rewrite <- Hid). by rewrite entities_spawn, Hid, lookup_insert_eq.
  - intros [Hid Hes]%not_elem_of_cons. by rewrite IH2, entities_spawn, lookup_insert_ne by done.
Qed.

Lemma foldl_remove es em id :
  entities (foldl (fun em e => (remove_entity (entity_id e) em).2) em es) !! id =
    if decide (id ∈ entity_id <$> es) then None else entities em !! id.
Proof.
  revert em. induction es as [|e es IH]; intros em; [done|]. cbn [foldl]. rewrite IH, fmap_cons.
  rewrite entities_remove. destruct (decide (id ∈ entity_id <$> es)) as [Hin|Hin].
  - by rewrite decide_True by (by right).
  - destruct (decide (id = entity_id e)) as [->|Hne].
    + rewrite decide_True by (by left). apply lookup_delete_eq.
    + rewrite decide_False by (by rewrite elem_of_cons; intros [|]).
      by rewrite lookup_delete_ne.
Qed.

Lemma owned_elem em source e : store_keyed em ->
  e ∈ entities_owned_by em source <-> entities em !! entity_id e = Some e /\ network_owner e = Some source.
Proof.
  intros Hk. unfold entities_owned_by. rewrite list_elem_of_filter, list_elem_of_fmap. split.
  - intros [Hp ([id e'] & -> & Hin)]. apply elem_of_map_to_list in Hin. cbn in *.
    by rewrite (Hk id e' Hin).
  - intros [Hl Hp]. split; [done|]. exists (entity_id e, e). by rewrite elem_of_map_to_list.
Qed.

Lemma owned_ids em source id : store_keyed em ->
  id ∈ entity_id <$> entities_owned_by em source <->
  exists e, entities em !! id = Some e /\ network_owner e = Some source.
Proof.
  intros Hk. rewrite list_elem_of_fmap. split.
  - intros (e & -> & He). exists e. by apply owned_elem.
  - intros (e & Hl & Ho). pose proof (Hk _ _ Hl) as <-. exists e. by rewrite owned_elem.
Qed.

Lemma owned_nodup em source : store_keyed em -> NoDup (entity_id <$> entities_owned_by em source).
Proof.
  intros Hk. pose proof (snapshot_ids em (fun e => bool_decide (network_owner e = Some source)) Hk) as H.
  unfold snapshot_filtered in H. unfold entities_owned_by.
  erewrite list_filter_iff; [exact H|]. intros e. by rewrite bool_decide_eq_true.
Qed.

(** The player's ped and everything it owns. *)
Definition travels (source : Z) (st : StateIngest) (id : EntityId) : Prop :=
  exists e, entities (manager st) !! id = Some e /\
    (player_entities st !! source = Some id \/ network_owner e = Some source).

Lemma dropped_entities source st id :
  entities (manager (on_player_dropped source st)) !! id =
    if decide (player_entities st !! source = Some id) then None else entities (manager st) !! id.
Proof.
  unfold on_player_dropped. destruct (player_entities st !! source) as [pid|] eqn:E.
  - store_is (remove_entity pid (manager st)).2. rewrite entities_remove.
    destruct (decide (Some pid = Some id)) as [[= ->]|H]; [apply lookup_delete_eq|].
    apply lookup_delete_ne. congruence.
  - by rewrite decide_False.
Qed.

Lemma release_entities source st id :
  store_keyed (manager st) ->
  (travels source st id -> entities (manager (release_player_state source st)) !! id = None) /\
  (~ travels source st id ->
     entities (manager (release_player_state source st)) !! id = entities (manager st) !! id).
Proof.
  intros Hk. unfold release_player_state. rewrite dropped_entities.
  change (player_entities (st <| manager := ?m |>)) with (player_entities st).
  change (manager (st <| manager := ?m |>)) with m. rewrite foldl_remove.
  destruct (decide (player_entities st !! source = Some id)) as [Hp|Hp].
  - split; [done|]. intros Hn. destruct (entities (manager st) !! id) as [e|] eqn:E; [|done].
    exfalso. apply Hn. exists e. auto.
  - destruct (decide (id ∈ entity_id <$> entities_owned_by (manager st) source)) as [Ho|Ho].
    + split; [done|]. intros Hn. exfalso. apply Hn. apply owned_ids in Ho as (e & He & Ho); [|done].
      exists e. auto.
    + split; [|done]. intros (e & He & [Hpe|Hoe]); [done|]. exfalso. apply Ho.
      apply owned_ids; [done|]. by exists e.
Qed.

Lemma player_entities_release source st other :
  player_entities (release_player_state source st) !! other =
    if decide (other = source) then None else player_entities st !! other.
Proof.
  unfold release_player_state, on_player_dropped.
  change (player_entities (st <| manager := ?m |>)) with (player_entities st).
  destruct (player_entities st !! source) as [pid|] eqn:E.
  - destruct (decide (other = source)) as [->|]; [exact (lookup_delete_eq _ _)|by apply lookup_delete_ne].
  - by destruct (decide (other = source)) as [->|].
Qed.

Lemma restore_entities now snap st id :
  let es := s_owned_entities snap ++ option_list (s_player_entity snap) in
  NoDup (entity_id <$> es) ->
  (forall e, e ∈ es -> entity_id e = id ->
     entities (manager (restore_player_state now snap st).2) !! id = Some e) /\
  (id ∉ entity_id <$> es ->
     entities (manager (restore_player_state now snap st).2) !! id = entities (manager st) !! id).
Proof.
  intros es Hnd.
  assert (Hm : manager (restore_player_state now snap st).2 = foldl (fun em e => spawn_entity e em) (manager st) es).
  { unfold restore_player_state, es. rewrite foldl_app. by destruct (s_player_entity snap). }
  rewrite Hm. by apply foldl_spawn.
Qed.

Lemma snapshot_entities info script source at_ vel st id ped :
  store_keyed (manager st) -> player_entities st !! source = Some id -> entities (manager st) !! id = Some ped ->
  let snap := build_snapshot info script source at_ vel st in
  let es := s_owned_entities snap ++ option_list (s_player_entity snap) in
  NoDup (entity_id <$> es) /\ s_player_entity snap = Some ped /\
  (forall e, e ∈ es <-> entities (manager st) !! entity_id e = Some e /\
                       (player_entities st !! source = Some (entity_id e) \/ network_owner e = Some source)).
Proof.
  intros Hk Hp Hped. unfold build_snapshot, player_entity, get.
  cbn [s_owned_entities s_player_entity]. rewrite Hp. cbn [mbind option_bind]. rewrite Hped.
  change (option_list (Some ped)) with [ped].
  pose proof (Hk _ _ Hped) as Hid.
  split; [|split; [done|]].
  - rewrite fmap_app. change (entity_id <$> [ped]) with [entity_id ped]. rewrite Hid. apply NoDup_app. split; [|split].
    + eapply sublist_NoDup; [by apply owned_nodup|]. apply fmap_sublist, sublist_filter.
    + intros x Hx ->%list_elem_of_singleton. apply list_elem_of_fmap in Hx as (e & -> & He).
      apply list_elem_of_filter in He as [He _]. by apply He.
    + apply NoDup_singleton.
  - intros e. rewrite elem_of_app, list_elem_of_filter, list_elem_of_singleton, owned_elem by done. split.
    + intros [(_ & Hl & Ho)| -> ]; [auto|]. rewrite Hid. auto.
    + intros [Hl Ho]. destruct (decide (entity_id e = id)) as [Heq|Hne].
      * right. rewrite Heq, Hped in Hl. by injection Hl.
      * left. split; [congruence|]. split; [done|]. destruct Ho; [congruence|done].
Qed.

(** C22: a crossing in which nothing happens between the snapshot and the
    release conserves the player's world: its ped and all it owns are in the
    target zone exactly as they were in the origin, and in the origin no
    more; every other entity of either zone is untouched, and the player is
    known to the target, with its handed-off position as the baseline of the
    speed check, and to the origin no more. *)
Theorem crossing_conserves now info script source at_ vel stA stB id ped :
  store_keyed (manager stA) ->
  player_entities stA !! source = Some id -> entities (manager stA) !! id = Some ped ->
  let snap := build_snapshot info script source at_ vel stA in
  let '(r, stB') := restore_player_state now snap stB in
  let stA' := release_player_state source stA in
  r = Some id /\ player_entities stB' !! source = Some id /\ last_accepted stB' !! id = Some (now, at_) /\
  player_entities stA' !! source = None /\
  forall eid,
    (travels source stA eid ->
       entities (manager stB') !! eid = entities (manager stA) !! eid /\ entities (manager stA') !! eid = None) /\
    (~ travels source stA eid ->
       entities (manager stB') !! eid = entities (manager stB) !! eid /\
       entities (manager stA') !! eid = entities (manager stA) !! eid).
Proof.
  intros Hk Hp Hped snap. destruct (snapshot_entities info script source at_ vel stA id ped Hk Hp Hped) as (Hnd & Hsp & Hes).
  fold snap in Hnd, Hsp, Hes. pose proof (Hk _ _ Hped) as Hid.
  pose proof (restore_entities now snap stB) as Hr.
  assert (Hrest : (restore_player_state now snap stB).1 = Some id /\
    player_entities (restore_player_state now snap stB).2 !! source = Some id /\
    last_accepted (restore_player_state now snap stB).2 !! id = Some (now, at_)).
  { unfold restore_player_state. rewrite Hsp, Hid. cbn [fst snd]. split; [done|].
    split; exact (lookup_insert_eq _ _ _). }
  destruct (restore_player_state now snap stB) as [r stB']. cbn [fst snd] in *.
  destruct Hrest as (H1 & H2 & H3). split; [done|split; [done|split; [done|split]]].
  { by rewrite player_entities_release, decide_True. }
  intros eid. destruct (Hr eid Hnd) as [Hin Hout]. destruct (release_entities source stA eid Hk) as [Ht Hnt].
  split; intros Htr.
  - split; [|by apply Ht]. destruct Htr as (e & He & Ho). pose proof (Hk _ _ He) as <-.
    rewrite He. by apply Hin; [apply Hes|].
  - split; [|by apply Hnt]. apply Hout. intros Hx. apply list_elem_of_fmap in Hx as (e & -> & He).
    apply Hes in He as [He Ho]. apply Htr. by exists e.
Qed.

(** Player 1, with a car, and a zone it is about to enter. *)
Definition driving : StateIngest :=
  two_players <| manager := spawn_entity (car 30 (Some 1) 5) (manager two_players) |>.
Definition next_zone : StateIngest := ingest_new EntityManager.new (f32_of_Z 200).

Lemma driving_keyed : store_keyed (manager driving).
Proof.
  change (manager driving) with (spawn_entity (car 30 (Some 1) 5)
    (spawn_entity (owned_state 20 Player 2 (report None origin None) (ExtraPlayer false None))
      (spawn_entity (owned_state 10 Player 1 (report None origin None) (ExtraPlayer false None)) EntityManager.new))).
  auto.
Qed.

Lemma crossing_conserves_witness :
  let stB' := (restore_player_state 9 (build_snapshot None ∅ 1 origin origin driving) next_zone).2 in
  entities (manager stB') !! 30 = entities (manager driving) !! 30 /\
  entities (manager (release_player_state 1 driving)) !! 30 = None.
Proof.
  pose proof (crossing_conserves 9 None ∅ 1 origin origin driving next_zone 10
    (owned_state 10 Player 1 (report None origin None) (ExtraPlayer false None)) driving_keyed
    ltac:(vm_compute; reflexivity) ltac:(vm_compute; reflexivity)) as H.
  cbv zeta in H.
  rewrite (surjective_pairing (restore_player_state 9 (build_snapshot None ∅ 1 origin origin driving) next_zone)) in H.
  destruct H as (_ & _ & _ & _ & H). apply (H 30).
  exists (car 30 (Some 1) 5). split; [vm_compute; reflexivity|right; reflexivity].
Defined.

(** the snapshot is taken when the crossing is prepared and restored when
    the player has crossed. Whatever happened to its ped in between is
    undone, and what it acquired in between (the car it got into) is
    destroyed with its origin and created nowhere. *)
Theorem prepared_snapshot_is_stale now info script source at_ vel st0 st1 stB id ped0 :
  store_keyed (manager st0) -> store_keyed (manager st1) ->
  player_entities st0 !! source = Some id -> entities (manager st0) !! id = Some ped0 ->
  let stB' := (restore_player_state now (build_snapshot info script source at_ vel st0) stB).2 in
  entities (manager stB') !! id = Some ped0 /\
  forall eid, travels source st1 eid -> ~ travels source st0 eid ->
    entities (manager stB') !! eid = entities (manager stB) !! eid /\
    entities (manager (release_player_state source st1)) !! eid = None.
Proof.
  intros Hk0 Hk1 Hp Hped stB'.
  destruct (snapshot_entities info script source at_ vel st0 id ped0 Hk0 Hp Hped) as (Hnd & _ & Hes).
  pose proof (Hk0 _ _ Hped) as Hid. split.
  - apply restore_entities; [done| |done]. apply Hes. rewrite Hid. auto.
  - intros eid H1 H0. split; [|by apply release_entities].
    apply restore_entities; [done|]. intros Hx. apply list_elem_of_fmap in Hx as (e & -> & He).
    apply Hes in He as [He Ho]. apply H0. by exists e.
Qed.

(** The car stands alone when the crossing is prepared; then player 1 gets in. *)
Definition before_mount : StateIngest :=
  two_players <| manager := spawn_entity (car 30 None 5) (manager two_players) |>.
Definition after_mount : StateIngest := (apply 5 5 31 1 (report None origin (Some 30)) before_mount).2.

Lemma before_mount_keyed : store_keyed (manager before_mount).
Proof.
  change (manager before_mount) with (spawn_entity (car 30 None 5)
    (spawn_entity (owned_state 20 Player 2 (report None origin None) (ExtraPlayer false None))
      (spawn_entity (owned_state 10 Player 1 (report None origin None) (ExtraPlayer false None)) EntityManager.new))).
  auto.
Qed.

(** Identities survive updates. *)
Lemma apply_update_id u s : entity_id (apply_update u s).1 = entity_id s.
Proof.
  unfold apply_update. rewrite !set_field_changed.
  by repeat (destruct (changed _ _ _); cbn [fst snd]).
Qed.

Lemma accept_keyed checked now source id update st :
  store_keyed (manager st) -> store_keyed (manager (accept checked now source id update st).2).
Proof.
  intros Hk. destruct (accept checked now source id update st) as [r st'] eqn:E.
  apply accept_spec in E as [(_ & -> & _)|(_ & _ & _ & _ & He)]; [done|]. cbn [snd].
  intros other s. rewrite He, mount_entities.
  destruct (entities (manager st) !! other) as [s0|] eqn:E; [|done]. intros [= <-].
  rewrite <- (Hk _ _ E). destruct (bool_decide _), (decide _); by rewrite ?apply_update_id.
Qed.

Lemma after_mount_keyed : store_keyed (manager after_mount).
Proof.
  replace after_mount with (accept 5 5 1 10 (report None origin (Some 30)) before_mount).2.
  - apply accept_keyed, before_mount_keyed.
  - unfold after_mount, apply. cbn [c_entity_id report].
    replace (player_entities before_mount !! 1) with (Some 10); [done|vm_compute; reflexivity].
Qed.

Lemma prepared_snapshot_is_stale_witness :
  entities (manager (restore_player_state 9 (build_snapshot None ∅ 1 origin origin before_mount) next_zone).2) !! 30 = None /\
  entities (manager (release_player_state 1 after_mount)) !! 30 = None.
Proof.
  apply (prepared_snapshot_is_stale 9 None ∅ 1 origin origin before_mount after_mount next_zone 10
    (owned_state 10 Player 1 (report None origin None) (ExtraPlayer false None)) before_mount_keyed after_mount_keyed);
    [vm_compute; reflexivity..| |].
  - eexists. split; [vm_compute; reflexivity|right; reflexivity].
  - intros (e & He & [Ho|Ho]); [by vm_compute in Ho|].
    assert (Hc : entities (manager before_mount) !! 30 = Some (car 30 None 5)) by (vm_compute; reflexivity).
    pose proof (eq_trans (eq_sym He) Hc) as H. injection H as ->. discriminate.
Defined.

Lemma pending_remove rid em id :
  pending_delete (dirty_queue em) id = true \/ (id = rid /\ entities em !! id <> None) ->
  pending_delete (dirty_queue (remove_entity rid em).2) id = true.
Proof.
  unfold remove_entity. cbn [snd]. rewrite whole_remove. cbn [dirty_queue]. unfold pending_delete.
  destruct (decide (id = rid)) as [->|Hne].
  - destruct (entities em !! rid); [by rewrite lookup_insert_eq|]. by intros [|[_ ?]].
  - intros [H|[? _]]; [|done]. destruct (entities em !! rid); [by rewrite lookup_insert_ne|done].
Qed.

Lemma foldl_remove_pending es em id :
  pending_delete (dirty_queue em) id = true \/ (id ∈ entity_id <$> es /\ entities em !! id <> None) ->
  pending_delete (dirty_queue (foldl (fun em e => (remove_entity (entity_id e) em).2) em es)) id = true.
Proof.
  revert em. induction es as [|e es IH]; intros em H; cbn [foldl].
  - destruct H as [H|[H _]]; [done|by apply elem_of_nil in H].
  - apply IH. destruct H as [H|[H Hl]]; [left; apply pending_remove; by left|].
    rewrite fmap_cons in H. apply elem_of_cons in H as [->|H].
    + left. apply pending_remove. by right.
    + destruct (decide (id = entity_id e)) as [->|Hne].
      * left. apply pending_remove. by right.
      * right. split; [done|]. by rewrite entities_remove, lookup_delete_ne by done.
Qed.

Lemma foldl_remove_keyed es em :
  keyed (dirty_queue em) ->
  keyed (dirty_queue (foldl (fun em e => (remove_entity (entity_id e) em).2) em es)).
Proof. revert em. induction es as [|e es IH]; intros em Hk; [done|]. apply IH, (keyed_run (Remove (entity_id e))), Hk. Qed.

(** Everything that left is a removal of the next batch. *)
Lemma release_pending source st id :
  store_keyed (manager st) -> keyed (dirty_queue (manager st)) -> travels source st id ->
  let q := dirty_queue (manager (release_player_state source st)) in
  keyed q /\ pending_delete q id = true.
Proof.
  intros Hk Hq (e & He & Ho) q. set (em := foldl (fun em e => (remove_entity (entity_id e) em).2) (manager st)
    (entities_owned_by (manager st) source)).
  assert (Hem : keyed (dirty_queue em)) by by apply foldl_remove_keyed.
  assert (Hown : id ∈ entity_id <$> entities_owned_by (manager st) source -> pending_delete (dirty_queue em) id = true).
  { intros Hin. apply foldl_remove_pending. right. split; [done|congruence]. }
  assert (Hq' : q = dirty_queue (match player_entities st !! source with
    | Some pid => (remove_entity pid em).2 | None => em end)).
  { unfold q, release_player_state, on_player_dropped.
    change (player_entities (st <| manager := ?m |>)) with (player_entities st).
    by destruct (player_entities st !! source). }
  rewrite Hq'. destruct (player_entities st !! source) as [pid|].
  - split; [by apply (keyed_run (Remove pid))|]. apply pending_remove.
    destruct (decide (id ∈ entity_id <$> entities_owned_by (manager st) source)) as [Hin|Hin]; [left; auto|].
    destruct Ho as [[= ->]|Ho]; [|exfalso; apply Hin, owned_ids; [done|by exists e]].
    right. split; [done|]. unfold em. rewrite foldl_remove, decide_False by done. congruence.
  - split; [done|]. destruct Ho as [Ho|Ho]; [done|]. apply Hown, owned_ids; [done|by exists e].
Qed.

(** the target zone publishes the player's entities as soon as it is
    activated, the origin zone their removal when it releases the player,
    which is later; ids being kept across the crossing, the removal deletes
    the entities from the gateway's world while they live in the target. *)
Theorem crossing_vanishes_from_world now info script source at_ vel stA stB id ped w batchA batchB eid e :
  store_keyed (manager stA) -> keyed (dirty_queue (manager stA)) ->
  player_entities stA !! source = Some id -> entities (manager stA) !! id = Some ped ->
  travels source stA eid -> entities (manager stA) !! eid = Some e ->
  let stB' := (restore_player_state now (build_snapshot info script source at_ vel stA) stB).2 in
  let stA' := release_player_state source stA in
  batchB ≡ₚ (flush_dirty (manager stB')).1 -> batchA ≡ₚ (flush_dirty (manager stA')).1 ->
  entities (manager stB') !! eid = Some e /\
  merge_batch batchA (merge_batch batchB w) !! eid = None.
Proof.
  intros Hk Hq Hp Hped Ht He stB' stA' HB HA. split.
  - destruct (snapshot_entities info script source at_ vel stA id ped Hk Hp Hped) as (Hnd & _ & Hes).
    destruct Ht as (e' & He' & Ho). pose proof (Hk _ _ He) as Hid.
    apply restore_entities; [done| |done]. apply Hes. rewrite Hid. split; [done|].
    destruct Ho; [by left|right; congruence].
  - destruct (release_pending source stA eid Hk Hq Ht) as [Hk' Hpd].
    cbv zeta in Hk', Hpd. fold stA' in Hk', Hpd. rewrite (merge_overlay _ _ _ _ Hk' HA).
    unfold overlay. unfold pending_delete in Hpd.
    destruct (dirty_queue (manager stA') !! eid) as [d|]; [by rewrite Hpd|done].
Qed.

Lemma crossing_vanishes_from_world_witness :
  let stB' := (restore_player_state 9 (build_snapshot None ∅ 1 origin origin driving) next_zone).2 in
  let stA' := release_player_state 1 driving in
  entities (manager stB') !! 30 = Some (car 30 (Some 1) 5) /\
  merge_batch (flush_dirty (manager stA')).1 (merge_batch (flush_dirty (manager stB')).1 ∅) !! 30 = None.
Proof.
  apply (crossing_vanishes_from_world 9 None ∅ 1 origin origin driving next_zone 10
    (owned_state 10 Player 1 (report None origin None) (ExtraPlayer false None)));
    [exact driving_keyed| |vm_compute; reflexivity..| |vm_compute; reflexivity|done|done].
  - apply (keyed_run (Spawn (car 30 (Some 1) 5))).
    apply (keyed_run (Spawn (owned_state 20 Player 2 (report None origin None) (ExtraPlayer false None)))).
    apply (keyed_run (Spawn (owned_state 10 Player 1 (report None origin None) (ExtraPlayer false None)))).
    by intros i d H.
  - exists (car 30 (Some 1) 5). split; [vm_compute; reflexivity|right; reflexivity].
Defined.
