(* ===== verification/QuadTree.v ===== *)
(** * The region quadtree of the gateway

    - src/crates/baston-protocol/src/spatial.rs: axis-aligned boxes;
    - src/crates/baston-gateway/src/quadtree.rs: the tree of zone bounds.

    A zone id is the list of the bytes of its string. A node without children
    is [Leaf], one with its four children [Split]. The recursion of [insert] is on a number of levels; a
    node is never deeper than [MAX_DEPTH], so [INSERT_LEVELS] are enough
    ([insert_total]). *)

From S2P Require Import Prelude F32.

(** ** Boxes (spatial.rs) *)

Record Aabb := { x_min : f32; y_min : f32; x_max : f32; y_max : f32 }.

Definition contains (b : Aabb) (x y : f32) : bool :=
  f32_ge x (x_min b) && f32_lt x (x_max b) && f32_ge y (y_min b) && f32_lt y (y_max b).

Definition intersects (b other : Aabb) : bool :=
  f32_lt (x_min b) (x_max other) && f32_lt (x_min other) (x_max b) &&
  f32_lt (y_min b) (y_max other) && f32_lt (y_min other) (y_max b).

Definition distance_to_edge (b : Aabb) (x y : f32) : f32 :=
  let dx := f32_min (f32_sub x (x_min b)) (f32_sub (x_max b) x) in
  let dy := f32_min (f32_sub y (y_min b)) (f32_sub (y_max b) y) in
  f32_min dx dy.

Definition center (b : Aabb) : f32 * f32 :=
  (f32_div (f32_add (x_min b) (x_max b)) (f32_of_Z 2), f32_div (f32_add (y_min b) (y_max b)) (f32_of_Z 2)).

(** The test of [Node::insert]: the box lies within the quadrant. *)
Definition fits (b q : Aabb) : bool :=
  f32_ge (x_min b) (x_min q) && f32_le (x_max b) (x_max q) &&
  f32_ge (y_min b) (y_min q) && f32_le (y_max b) (y_max q).

(** ** Nodes (quadtree.rs) *)

Definition ZoneId : Type := list Z.
Definition Item : Type := ZoneId * Aabb.

Definition MAX_DEPTH : Z := 8.
Definition NODE_CAPACITY : Z := 4.

Inductive Node :=
| Leaf (bounds : Aabb) (items : list Item) (depth : Z)
| Split (bounds : Aabb) (items : list Item) (c0 c1 c2 c3 : Node) (depth : Z).

Definition bounds (n : Node) : Aabb := match n with Leaf b _ _ => b | Split b _ _ _ _ _ _ => b end.
Definition depth (n : Node) : Z := match n with Leaf _ _ d => d | Split _ _ _ _ _ _ d => d end.

Definition node_new (b : Aabb) (d : Z) : Node := Leaf b [] d.

Definition quadrants (b : Aabb) : Aabb * Aabb * Aabb * Aabb :=
  let '(cx, cy) := center b in
  ({| x_min := x_min b; y_min := y_min b; x_max := cx; y_max := cy |},
   {| x_min := cx; y_min := y_min b; x_max := x_max b; y_max := cy |},
   {| x_min := x_min b; y_min := cy; x_max := cx; y_max := y_max b |},
   {| x_min := cx; y_min := cy; x_max := x_max b; y_max := y_max b |}).

(** The split of a full leaf, before its items are sunk again. *)
Definition split (b : Aabb) (d : Z) : Node :=
  let '(q0, q1, q2, q3) := quadrants b in
  Split b [] (node_new q0 (d + 1)) (node_new q1 (d + 1)) (node_new q2 (d + 1)) (node_new q3 (d + 1)) d.

(** The second half of [insert]: into the first child that holds the box, or
    into the node's own items. [down] inserts into a child. *)
Definition place (down : Item -> Node -> option Node) (it : Item) (n : Node) : option Node :=
  match n with
  | Leaf b items d => Some (Leaf b (items ++ [it]) d)
  | Split b items c0 c1 c2 c3 d =>
      if fits it.2 (bounds c0) then (fun c => Split b items c c1 c2 c3 d) <$> down it c0
      else if fits it.2 (bounds c1) then (fun c => Split b items c0 c c2 c3 d) <$> down it c1
      else if fits it.2 (bounds c2) then (fun c => Split b items c0 c1 c c3 d) <$> down it c2
      else if fits it.2 (bounds c3) then (fun c => Split b items c0 c1 c2 c d) <$> down it c3
      else Some (Split b (items ++ [it]) c0 c1 c2 c3 d)
  end.

(** [for (iid, ib) in items { self.insert(iid, ib) }], on a node with children. *)
Fixpoint place_all (down : Item -> Node -> option Node) (its : list Item) (n : Node) : option Node :=
  match its with
  | [] => Some n
  | it :: rest => place down it n ≫= place_all down rest
  end.

Definition must_split (n : Node) : bool :=
  match n with
  | Leaf _ items d => (NODE_CAPACITY <=? Z.of_nat (length items)) && (d <? MAX_DEPTH)
  | Split _ _ _ _ _ _ _ => false
  end.

Fixpoint insert (levels : nat) (it : Item) (n : Node) : option Node :=
  match levels with
  | O => None
  | S levels' =>
      match n with
      | Leaf b items d =>
          if must_split n then place_all (insert levels') (items ++ [it]) (split b d)
          else place (insert levels') it n
      | Split _ _ _ _ _ _ _ => place (insert levels') it n
      end
  end.

Definition INSERT_LEVELS : nat := 9.

(** [items.iter().position(|(iid, _)| iid == id)] and [items.remove]. *)
Fixpoint remove_item (id : ZoneId) (items : list Item) : option (list Item) :=
  match items with
  | [] => None
  | it :: rest => if bool_decide (it.1 = id) then Some rest else cons it <$> remove_item id rest
  end.

Fixpoint remove_node (id : ZoneId) (n : Node) : bool * Node :=
  match n with
  | Leaf b items d =>
      match remove_item id items with
      | Some items' => (true, Leaf b items' d)
      | None => (false, n)
      end
  | Split b items c0 c1 c2 c3 d =>
      match remove_item id items with
      | Some items' => (true, Split b items' c0 c1 c2 c3 d)
      | None =>
          let '(r0, c0') := remove_node id c0 in if r0 then (true, Split b items c0' c1 c2 c3 d) else
          let '(r1, c1') := remove_node id c1 in if r1 then (true, Split b items c0 c1' c2 c3 d) else
          let '(r2, c2') := remove_node id c2 in if r2 then (true, Split b items c0 c1 c2' c3 d) else
          let '(r3, c3') := remove_node id c3 in if r3 then (true, Split b items c0 c1 c2 c3' d) else
          (false, n)
      end
  end.

Fixpoint node_query_point (n : Node) (x y : f32) : list ZoneId :=
  let own items := fst <$> List.filter (fun it : Item => contains it.2 x y) items in
  match n with
  | Leaf _ items _ => own items
  | Split _ items c0 c1 c2 c3 _ =>
      let child c found := if contains (bounds c) x y then found else [] in
      own items ++ child c0 (node_query_point c0 x y) ++ child c1 (node_query_point c1 x y) ++
      child c2 (node_query_point c2 x y) ++ child c3 (node_query_point c3 x y)
  end.

Fixpoint node_query_aabb (n : Node) (area : Aabb) : list ZoneId :=
  let own items := fst <$> List.filter (fun it : Item => intersects it.2 area) items in
  match n with
  | Leaf _ items _ => own items
  | Split _ items c0 c1 c2 c3 _ =>
      let child c found := if intersects (bounds c) area then found else [] in
      own items ++ child c0 (node_query_aabb c0 area) ++ child c1 (node_query_aabb c1 area) ++
      child c2 (node_query_aabb c2 area) ++ child c3 (node_query_aabb c3 area)
  end.

(** ** The tree *)

Record QuadTree := { root : Node }.

Definition qt_new (b : Aabb) : QuadTree := {| root := node_new b 0 |}.

Definition gta_v : QuadTree :=
  qt_new {| x_min := f32_of_Z (-4000); y_min := f32_of_Z (-4000); x_max := f32_of_Z 4000; y_max := f32_of_Z 4000 |}.

Definition qt_remove (id : ZoneId) (t : QuadTree) : bool * QuadTree :=
  let '(r, n) := remove_node id (root t) in (r, {| root := n |}).

Definition qt_insert (id : ZoneId) (b : Aabb) (t : QuadTree) : QuadTree :=
  let t' := (qt_remove id t).2 in
  {| root := default (root t') (insert INSERT_LEVELS (id, b) (root t')) |}.

Definition query_point (t : QuadTree) (x y : f32) : option ZoneId := head (node_query_point (root t) x y).
Definition query_aabb (t : QuadTree) (area : Aabb) : list ZoneId := node_query_aabb (root t) area.

(** ** The items of a tree *)

Fixpoint all_items (n : Node) : list Item :=
  match n with
  | Leaf _ items _ => items
  | Split _ items c0 c1 c2 c3 _ => items ++ all_items c0 ++ all_items c1 ++ all_items c2 ++ all_items c3
  end.

(** Depths count levels, and what is below a child lies within it. *)
Fixpoint node_ok (n : Node) : Prop :=
  match n with
  | Leaf _ _ d => d <= MAX_DEPTH
  | Split _ _ c0 c1 c2 c3 d =>
      d < MAX_DEPTH /\
      let child c := depth c = d + 1 /\ forall it, it ∈ all_items c -> fits it.2 (bounds c) = true in
      child c0 /\ child c1 /\ child c2 /\ child c3 /\
      node_ok c0 /\ node_ok c1 /\ node_ok c2 /\ node_ok c3
  end.

(** [n'] is [n] with [its] put somewhere in it. *)
Record grown (its : list Item) (n n' : Node) : Prop := {
  grown_ok : node_ok n';
  grown_bounds : bounds n' = bounds n;
  grown_depth : depth n' = depth n;
  grown_items : all_items n' ≡ₚ its ++ all_items n
}.

Definition inserts_at (d : Z) (down : Item -> Node -> option Node) : Prop :=
  forall it n, node_ok n -> depth n = d -> exists n', down it n = Some n' /\ grown [it] n n'.

Lemma fits_perm (its its' : list Item) b :
  its ≡ₚ its' -> (forall it, it ∈ its' -> fits it.2 b = true) -> forall it, it ∈ its -> fits it.2 b = true.
Proof. intros Hp H it Hit. apply H. by rewrite <- Hp. Qed.

Lemma grown_fits it n n' :
  grown [it] n n' -> fits it.2 (bounds n) = true ->
  (forall i, i ∈ all_items n -> fits i.2 (bounds n) = true) ->
  forall i, i ∈ all_items n' -> fits i.2 (bounds n') = true.
Proof.
  intros [_ Hb _ Hp] Hf Ha i. rewrite Hp, Hb. cbn [app]. by intros [->|Hi]%elem_of_cons; [|apply Ha].
Qed.

Lemma place_grown down it n :
  node_ok n -> inserts_at (depth n + 1) down -> exists n', place down it n = Some n' /\ grown [it] n n'.
Proof.
  intros Hn Hdown. destruct n as [b items d|b items c0 c1 c2 c3 d]; cbn [place].
  - eexists. split; [done|]. split; [done..|]. cbn [all_items]. by rewrite Permutation_app_comm.
  - destruct Hn as (Hd & (D0 & F0) & (D1 & F1) & (D2 & F2) & (D3 & F3) & O0 & O1 & O2 & O3).
    cbn [depth] in Hdown.
    destruct (fits it.2 (bounds c0)) eqn:E0; [|destruct (fits it.2 (bounds c1)) eqn:E1;
      [|destruct (fits it.2 (bounds c2)) eqn:E2; [|destruct (fits it.2 (bounds c3)) eqn:E3]]].
    5: { eexists. split; [done|]. split; [by repeat split|done|done|].
         cbn [all_items app]. rewrite <- app_assoc. cbn [app]. by rewrite <- Permutation_middle. }
    1: destruct (Hdown it c0 O0 D0) as (c' & -> & Hc).
    2: destruct (Hdown it c1 O1 D1) as (c' & -> & Hc).
    3: destruct (Hdown it c2 O2 D2) as (c' & -> & Hc).
    4: destruct (Hdown it c3 O3 D3) as (c' & -> & Hc).
    all: (eexists; split; [reflexivity|]; destruct (Hc) as [Ho Hb Hdp Hp]; split; [|done|done|];
      [cbn [node_ok]; repeat split; try done; try congruence; by eapply grown_fits|
       cbn [all_items]; rewrite Hp; cbn [app]; solve_Permutation]).
Qed.

Lemma grown_trans its its' n n' n'' : grown its n n' -> grown its' n' n'' -> grown (its ++ its') n n''.
Proof.
  intros [_ B1 D1 P1] [O2 B2 D2 P2]. split; [done|congruence|congruence|]. rewrite P2, P1. solve_Permutation.
Qed.

Lemma place_all_grown down its n :
  node_ok n -> inserts_at (depth n + 1) down -> exists n', place_all down its n = Some n' /\ grown its n n'.
Proof.
  revert n. induction its as [|it its IH]; intros n Hn Hdown; cbn [place_all].
  - exists n. split; [done|]. by split.
  - destruct (place_grown down it n Hn Hdown) as (n1 & -> & H1). cbn [mbind option_bind].
    destruct (IH n1) as (n2 & E2 & H2); [apply H1|by rewrite (grown_depth _ _ _ H1)|].
    exists n2. split; [done|]. exact (grown_trans [it] its _ _ _ H1 H2).
Qed.

Lemma split_ok b d : d < MAX_DEPTH -> node_ok (split b d) /\ all_items (split b d) = [] /\
  bounds (split b d) = b /\ depth (split b d) = d.
Proof.
  intros Hd. unfold split. destruct (quadrants b) as [[[q0 q1] q2] q3]. unfold MAX_DEPTH in *.
  cbn. unfold MAX_DEPTH. repeat split; try done; try lia; by intros it Hit%elem_of_nil.
Qed.

(** [insert] always finishes: the levels below a node of depth [d] are at most
    [MAX_DEPTH - d], whatever is sunk. *)
Lemma insert_grown levels it n :
  node_ok n -> MAX_DEPTH - depth n < Z.of_nat levels ->
  exists n', insert levels it n = Some n' /\ grown [it] n n'.
Proof.
  revert it n. induction levels as [|levels IH]; intros it n Hn Hl.
  { exfalso. destruct n; cbn in Hn, Hl; lia. }
  assert (Hdown : inserts_at (depth n + 1) (insert levels)).
  { intros it' c Hc Hd. apply IH; [done|]. lia. }
  cbn [insert]. destruct n as [b items d|b items c0 c1 c2 c3 d]; [|by apply place_grown].
  destruct (must_split _) eqn:E; [|by apply place_grown].
  cbn in E. apply andb_true_iff in E as [_ E]. apply Z.ltb_lt in E.
  destruct (split_ok b d E) as (Ho & Ha & Hb & Hd).
  destruct (place_all_grown (insert levels) (items ++ [it]) (split b d) Ho) as (n' & -> & Hg).
  { by rewrite Hd. }
  exists n'. split; [done|]. destruct Hg as [G1 G2 G3 G4].
  split; [done|by rewrite G2|by rewrite G3|]. rewrite G4, Ha, app_nil_r. apply Permutation_app_comm.
Qed.

(** inserting into a tree always finishes, within the [INSERT_LEVELS] levels
    of a well-formed tree, however its items are distributed; the result is well-formed and holds the old items and
    the new one. *)
Theorem insert_total n it :
  node_ok n -> depth n = 0 ->
  exists n', insert INSERT_LEVELS it n = Some n' /\ node_ok n' /\ depth n' = 0 /\ all_items n' ≡ₚ it :: all_items n.
Proof.
  intros Hn Hd. destruct (insert_grown INSERT_LEVELS it n Hn) as (n' & E & [G1 G2 G3 G4]).
  { unfold MAX_DEPTH, INSERT_LEVELS. lia. }
  exists n'. by rewrite G3.
Qed.

Definition box (a b c d : Z) : Aabb :=
  {| x_min := f32_of_Z a; y_min := f32_of_Z b; x_max := f32_of_Z c; y_max := f32_of_Z d |}.

Lemma insert_total_witness :
  node_ok (root gta_v) /\ exists n', insert INSERT_LEVELS ([97], box 0 0 10 10) (root gta_v) = Some n'.
Proof.
  assert (H : node_ok (root gta_v)) by done.
  split; [exact H|]. destruct (insert_total (root gta_v) ([97], box 0 0 10 10) H eq_refl) as (n' & E & _).
  by exists n'.
Defined.

(** ** Removal *)

Lemma remove_item_spec id items :
  match remove_item id items with
  | Some items' => exists b, items ≡ₚ (id, b) :: items'
  | None => id ∉ items.*1
  end.
Proof.
  induction items as [|[i b] items IH]; cbn [remove_item]; [by intros H%elem_of_nil|]. cbn [fst].
  case_bool_decide as H; [subst; by exists b|].
  destruct (remove_item id items) as [items'|]; cbn [fmap option_fmap option_map].
  - destruct IH as [b' IH]. exists b'. rewrite IH. apply Permutation_swap.
  - rewrite fmap_cons. by intros [|]%elem_of_cons.
Qed.

Lemma removed_fits id (c c' : Node) :
  (exists b, all_items c ≡ₚ (id, b) :: all_items c') -> bounds c' = bounds c ->
  (forall it, it ∈ all_items c -> fits it.2 (bounds c) = true) ->
  forall it, it ∈ all_items c' -> fits it.2 (bounds c') = true.
Proof. intros [b Hp] -> Hf it Hi. apply Hf. rewrite Hp. by right. Qed.

(** A removal in one child, by the result [I] for that child. *)
Ltac child_removed I :=
  destruct I as (? & ? & ? & bb & P); cbn [bounds depth];
  split; [cbn [node_ok]; repeat split; try done; try congruence;
          by eapply removed_fits; [exists bb; exact P|..]|];
  do 2 (split; [done|]); exists bb; cbn [all_items]; rewrite P; cbn [app]; solve_Permutation.

(** What a removal leaves: the tree without one item of that id, or the tree. *)
Lemma remove_node_spec id n :
  node_ok n ->
  let '(r, n') := remove_node id n in
  node_ok n' /\ bounds n' = bounds n /\ depth n' = depth n /\
  if r then exists b, all_items n ≡ₚ (id, b) :: all_items n' else n' = n /\ id ∉ (all_items n).*1.
Proof.
  induction n as [b items d|b items c0 I0 c1 I1 c2 I2 c3 I3 d]; intros Hn; cbn [remove_node];
    pose proof (remove_item_spec id items) as Hit; destruct (remove_item id items) as [items'|].
  - done.
  - done.
  - destruct Hit as [bb Hit]. destruct Hn as (Hd & Hn). split; [done|split; [done|split; [done|]]].
    exists bb. cbn [all_items]. by rewrite Hit.
  - destruct Hn as (Hd & (D0 & F0) & (D1 & F1) & (D2 & F2) & (D3 & F3) & O0 & O1 & O2 & O3).
    specialize (I0 O0). specialize (I1 O1). specialize (I2 O2). specialize (I3 O3).
    destruct (remove_node id c0) as [[] c0']; [by child_removed I0|].
    destruct (remove_node id c1) as [[] c1']; [by child_removed I1|].
    destruct (remove_node id c2) as [[] c2']; [by child_removed I2|].
    destruct (remove_node id c3) as [[] c3']; [by child_removed I3|].
    split; [by repeat split|split; [done|split; [done|split; [done|]]]].
    cbn [all_items]. rewrite !fmap_app, !elem_of_app.
    destruct I0 as (_ & _ & _ & _ & N0), I1 as (_ & _ & _ & _ & N1), I2 as (_ & _ & _ & _ & N2), I3 as (_ & _ & _ & _ & N3).
    tauto.
Qed.

(** ** Queries *)

Lemma fits_contains b q x y : fits b q = true -> contains b x y = true -> contains q x y = true.
Proof.
  unfold fits, contains, f32_ge. rewrite !andb_true_iff. intros [[[F1 F2] F3] F4] [[[C1 C2] C3] C4].
  repeat split; eauto using f32_le_trans, f32_lt_le_trans.
Qed.

Lemma fits_intersects b q area : fits b q = true -> intersects b area = true -> intersects q area = true.
Proof.
  unfold fits, intersects, f32_ge. rewrite !andb_true_iff. intros [[[F1 F2] F3] F4] [[[C1 C2] C3] C4].
  repeat split; eauto using f32_le_lt_trans, f32_lt_le_trans.
Qed.

(** A child whose box fails the test holds nothing that passes it. *)
Lemma filter_child (test : Aabb -> bool) (c : Node) :
  (forall b, fits b (bounds c) = true -> test b = true -> test (bounds c) = true) ->
  (forall it, it ∈ all_items c -> fits it.2 (bounds c) = true) ->
  test (bounds c) = false -> List.filter (fun it : Item => test it.2) (all_items c) = [].
Proof.
  intros Hm Hf Hc. induction (all_items c) as [|it items IH]; [done|]. cbn.
  destruct (test it.2) eqn:E.
  - exfalso. assert (test (bounds c) = true); [|congruence]. apply (Hm it.2); [apply Hf; by left|done].
  - apply IH. intros it' Hi. apply Hf. by right.
Qed.

Lemma query_child (test : Aabb -> bool) (c : Node) (found : list ZoneId) :
  (forall b, fits b (bounds c) = true -> test b = true -> test (bounds c) = true) ->
  (forall it, it ∈ all_items c -> fits it.2 (bounds c) = true) ->
  found = fst <$> List.filter (fun it : Item => test it.2) (all_items c) ->
  (if test (bounds c) then found else []) = fst <$> List.filter (fun it : Item => test it.2) (all_items c).
Proof.
  intros Hm Hf ->. pose proof (filter_child test c Hm Hf) as H.
  destruct (test (bounds c)); [done|]. by rewrite H.
Qed.

Lemma node_query_point_spec n x y :
  node_ok n ->
  node_query_point n x y = fst <$> List.filter (fun it : Item => contains it.2 x y) (all_items n).
Proof.
  induction n as [b items d|b items c0 I0 c1 I1 c2 I2 c3 I3 d]; [done|].
  intros (Hd & (D0 & F0) & (D1 & F1) & (D2 & F2) & (D3 & F3) & O0 & O1 & O2 & O3).
  cbn [node_query_point all_items]. rewrite !List.filter_app, !fmap_app.
  repeat f_equal; apply (query_child (fun b => contains b x y)); try done; auto;
    intros; by eapply fits_contains.
Qed.

Lemma node_query_aabb_spec n area :
  node_ok n ->
  node_query_aabb n area = fst <$> List.filter (fun it : Item => intersects it.2 area) (all_items n).
Proof.
  induction n as [b items d|b items c0 I0 c1 I1 c2 I2 c3 I3 d]; [done|].
  intros (Hd & (D0 & F0) & (D1 & F1) & (D2 & F2) & (D3 & F3) & O0 & O1 & O2 & O3).
  cbn [node_query_aabb all_items]. rewrite !List.filter_app, !fmap_app.
  repeat f_equal; apply (query_child (fun b => intersects b area)); try done; auto;
    intros; by eapply fits_intersects.
Qed.

(** ** The tree as a map from zones to boxes *)

Record represents (t : QuadTree) (m : gmap ZoneId Aabb) : Prop := {
  rep_ok : node_ok (root t);
  rep_depth : depth (root t) = 0;
  rep_items : all_items (root t) ≡ₚ map_to_list m
}.

Lemma rep_new b : represents (qt_new b) ∅.
Proof. by split; [|done|rewrite map_to_list_empty]. Qed.

Lemma rep_remove id t m :
  represents t m ->
  (qt_remove id t).1 = is_some (m !! id) /\ represents (qt_remove id t).2 (delete id m).
Proof.
  intros [Ho Hd Hi]. unfold qt_remove. pose proof (remove_node_spec id (root t) Ho) as H.
  destruct (remove_node id (root t)) as [r n]. destruct H as (On & _ & Dn & H). cbn [fst snd].
  destruct r.
  - destruct H as [b H]. rewrite Hi in H.
    assert (Hm : m !! id = Some b) by (apply elem_of_map_to_list; rewrite H; by left).
    rewrite Hm. split; [done|]. split; cbn [root]; [done|by rewrite Dn|].
    rewrite <- (map_to_list_delete m id b Hm) in H. by apply Permutation_cons_inv in H.
  - destruct H as [-> Hn]. assert (Hm : m !! id = None).
    { apply eq_None_not_Some. intros [b Hb]. apply Hn. apply list_elem_of_fmap. exists (id, b).
      split; [done|]. rewrite Hi. by apply elem_of_map_to_list. }
    rewrite Hm, delete_id by done. by split.
Qed.

Lemma rep_insert id b t m : represents t m -> represents (qt_insert id b t) (<[id := b]> m).
Proof.
  intros Hr. destruct (rep_remove id t m Hr) as [_ [Ho Hd Hi]]. unfold qt_insert.
  destruct (insert_grown INSERT_LEVELS (id, b) _ Ho) as (n' & -> & [G1 G2 G3 G4]).
  { rewrite Hd. unfold MAX_DEPTH, INSERT_LEVELS. lia. }
  split; [exact G1|exact (eq_trans G3 Hd)|]. change (all_items n' ≡ₚ map_to_list (<[id := b]> m)).
  rewrite G4, Hi. cbn [app]. rewrite <- insert_delete_eq. symmetry. apply map_to_list_insert.
  apply lookup_delete_eq.
Qed.

Lemma rep_query_aabb t m area :
  represents t m -> query_aabb t area ≡ₚ (filter (fun kv : Item => intersects kv.2 area = true) (map_to_list m)).*1.
Proof.
  intros [Ho _ Hi]. unfold query_aabb. rewrite node_query_aabb_spec by done.
  apply fmap_Permutation. rewrite <- Hi. clear Hi. induction (all_items (root t)) as [|it l IH]; [done|].
  cbn [List.filter]. rewrite filter_cons. destruct (intersects it.2 area) eqn:E.
  - rewrite decide_True by done. by rewrite IH.
  - by rewrite decide_False by done.
Qed.

Lemma rep_query_point t m x y :
  represents t m ->
  match query_point t x y with
  | Some id => exists b, m !! id = Some b /\ contains b x y = true
  | None => forall id b, m !! id = Some b -> contains b x y = false
  end.
Proof.
  intros [Ho _ Hi]. unfold query_point. rewrite node_query_point_spec by done.
  assert (Hin : forall it, it ∈ List.filter (fun it : Item => contains it.2 x y) (all_items (root t)) <->
    m !! it.1 = Some it.2 /\ contains it.2 x y = true).
  { intros [id b]. rewrite list_elem_of_In, filter_In, <- list_elem_of_In, Hi. by rewrite elem_of_map_to_list. }
  destruct (List.filter _ _) as [|[id b] l]; cbn [fmap list_fmap head fst].
  - intros id b Hm. destruct (contains b x y) eqn:E; [|done]. exfalso.
    apply (not_elem_of_nil (id, b)), Hin. done.
  - exists b. apply (Hin (id, b)). by left.
Qed.

(** The calls that change a tree. *)
Inductive QtOp := QtInsert (id : ZoneId) (b : Aabb) | QtRemove (id : ZoneId).

Definition qt_apply (t : QuadTree) (op : QtOp) : QuadTree :=
  match op with QtInsert id b => qt_insert id b t | QtRemove id => (qt_remove id t).2 end.

Definition map_apply (m : gmap ZoneId Aabb) (op : QtOp) : gmap ZoneId Aabb :=
  match op with QtInsert id b => <[id := b]> m | QtRemove id => delete id m end.

Lemma rep_apply ops t m : represents t m -> represents (foldl qt_apply t ops) (foldl map_apply m ops).
Proof.
  revert t m. induction ops as [|op ops IH]; intros t m H; [done|]. cbn [foldl]. apply IH.
  destruct op; [by apply rep_insert|by apply rep_remove].
Qed.

(** C21: after any insertions and removals the quadtree answers as a plain map
    from zones to boxes, with the last box of a zone: a point query returns
    a zone whose box holds the point and fails only when there is none, a
    box query returns exactly the zones it meets, each once, and a removal
    reports whether the zone was there. Splitting and the rounded centres of
    the quadrants lose nothing. *)
Theorem quadtree_refines_map b ops x y area id :
  let t := foldl qt_apply (qt_new b) ops in
  let m := foldl map_apply ∅ ops in
  match query_point t x y with
  | Some z => exists zb, m !! z = Some zb /\ contains zb x y = true
  | None => forall z zb, m !! z = Some zb -> contains zb x y = false
  end /\
  query_aabb t area ≡ₚ (filter (fun kv : Item => intersects kv.2 area = true) (map_to_list m)).*1 /\
  (qt_remove id t).1 = is_some (m !! id) /\
  node_ok (root t).
Proof.
  intros t m. pose proof (rep_apply ops (qt_new b) ∅ (rep_new b)) as H.
  split; [by apply rep_query_point|split; [by apply rep_query_aabb|split; [|apply H]]].
  by apply rep_remove.
Qed.

Example five_zones_split :
  let ops := [QtInsert [1] (box (-4000) (-4000) 0 0); QtInsert [2] (box 0 (-4000) 4000 0);
              QtInsert [3] (box (-4000) 0 0 4000); QtInsert [4] (box 0 0 4000 4000);
              QtInsert [5] (box 5000 0 6000 10)] in
  let t := foldl qt_apply gta_v ops in
  (match root t with Split _ [_] _ _ _ _ _ => true | _ => false end,
   query_point t (f32_of_Z 1500) (f32_of_Z (-300)), query_point t (f32_of_Z 5500) f32_one)
  = (true, Some [2], Some [5]).
Proof. vm_compute. reflexivity. Qed.
