(* ===== verification/ZoneRegistry.v ===== *)
(** * The gateway's zone federation: registry, routing table and recovery

    - src/crates/baston-gateway/src/zone_registry.rs: the registered zones,
      their liveness and the quadtree over their bounds;
    - src/crates/baston-gateway/src/connection_router.rs: which zone each
      player's updates go to;
    - src/crates/baston-gateway/src/mesh.rs: routing of new players, failure
      recovery and draining. The handoff calls of the same file are in
      Handoff.v.

    Registration, eviction and removal take two locks one after the other, so
    each is given by its two halves. The iteration order of a hash map is an
    argument where the code depends on it. Whether a URI is well-formed is a
    library's decision. gRPC clients are the zone's registration itself.
    Instants are counts of nanoseconds; player counts are unsigned numbers. *)

From S2P Require Import Prelude F32 QuadTree.

(** ** The registry (zone_registry.rs) *)

Record ZoneEntry := {
  zone_id : ZoneId; zone_bounds : Aabb; grpc_addr : list Z; max_players : Z;
  player_count : Z; entity_count : Z; last_heartbeat : Z; registered_at : Z
}.

#[export] Instance ZoneEntry_rebuild : Rebuild ZoneEntry := fun r =>
  {| zone_id := zone_id r; zone_bounds := zone_bounds r; grpc_addr := grpc_addr r;
     max_players := max_players r; player_count := player_count r; entity_count := entity_count r;
     last_heartbeat := last_heartbeat r; registered_at := registered_at r |}.

Record ZoneRegistry := { zones : gmap ZoneId ZoneEntry; quadtree : QuadTree; zone_timeout : Z }.

#[export] Instance ZoneRegistry_rebuild : Rebuild ZoneRegistry := fun r =>
  {| zones := zones r; quadtree := quadtree r; zone_timeout := zone_timeout r |}.

Definition registry_new (timeout : Z) : ZoneRegistry :=
  {| zones := ∅; quadtree := gta_v; zone_timeout := timeout |}.

Fixpoint starts_with (prefix s : list Z) : bool :=
  match prefix, s with
  | [], _ => true
  | p :: prefix', c :: s' => (p =? c) && starts_with prefix' s'
  | _ :: _, [] => false
  end.

Definition HTTP : list Z := [104; 116; 116; 112; 58; 47; 47].
Definition HTTPS : list Z := [104; 116; 116; 112; 115; 58; 47; 47].

Definition normalize_grpc_uri (addr : list Z) : list Z :=
  if starts_with HTTP addr || starts_with HTTPS addr then addr else HTTP ++ addr.

Definition entry_of (now : Z) (id : ZoneId) (b : Aabb) (addr : list Z) (cap : Z) : ZoneEntry :=
  {| zone_id := id; zone_bounds := b; grpc_addr := addr; max_players := cap;
     player_count := 0; entity_count := 0; last_heartbeat := now; registered_at := now |}.

(** The halves, by the lock they hold. *)
Definition register_zones_half (e : ZoneEntry) (r : ZoneRegistry) : ZoneRegistry :=
  r <| zones := <[zone_id e := e]> (zones r) |>.
Definition register_tree_half (id : ZoneId) (b : Aabb) (r : ZoneRegistry) : ZoneRegistry :=
  r <| quadtree := qt_insert id b (quadtree r) |>.

Definition register_zone (uri_valid : list Z -> bool) (now : Z) (id : ZoneId) (b : Aabb) (addr : list Z)
    (cap : Z) (r : ZoneRegistry) : bool * ZoneRegistry :=
  if uri_valid (normalize_grpc_uri addr) then
    (true, register_tree_half id b (register_zones_half (entry_of now id b addr cap) r))
  else (false, r).

Definition heartbeat (now : Z) (id : ZoneId) (pc ec : Z) (r : ZoneRegistry) : bool * ZoneRegistry :=
  match zones r !! id with
  | Some e =>
      (true, r <| zones := <[id := e <| last_heartbeat := now |> <| player_count := pc |>
                                     <| entity_count := ec |>]> (zones r) |>)
  | None => (false, r)
  end.

(** [now.duration_since(t)] saturates at zero. *)
Definition silent (now : Z) (r : ZoneRegistry) (e : ZoneEntry) : bool :=
  zone_timeout r <? Z.max 0 (now - last_heartbeat e).

Definition evict_zones_half (now : Z) (r : ZoneRegistry) : list ZoneId * ZoneRegistry :=
  let dead := fst <$> List.filter (fun kv => silent now r kv.2) (map_to_list (zones r)) in
  (dead, r <| zones := foldl (fun m id => delete id m) (zones r) dead |>).
Definition remove_tree_half (ids : list ZoneId) (r : ZoneRegistry) : ZoneRegistry :=
  r <| quadtree := foldl (fun t id => (qt_remove id t).2) (quadtree r) ids |>.

Definition evict_silent_zones (now : Z) (r : ZoneRegistry) : list ZoneId * ZoneRegistry :=
  let '(evicted, r') := evict_zones_half now r in
  (evicted, match evicted with [] => r' | _ => remove_tree_half evicted r' end).

Definition remove_zone (id : ZoneId) (r : ZoneRegistry) : bool * ZoneRegistry :=
  let removed := is_some (zones r !! id) in
  let r' := r <| zones := delete id (zones r) |> in
  (removed, if removed then remove_tree_half [id] r' else r').

Definition find_zone_for_coords (r : ZoneRegistry) (x y : f32) : option ZoneId := query_point (quadtree r) x y.
Definition find_zones_in_aabb (r : ZoneRegistry) (area : Aabb) : list ZoneId := query_aabb (quadtree r) area.
Definition contains_zone (r : ZoneRegistry) (id : ZoneId) : bool := is_some (zones r !! id).
Definition zone_grpc_addr (r : ZoneRegistry) (id : ZoneId) : option (list Z) := grpc_addr <$> zones r !! id.
Definition bounds_of_zone (r : ZoneRegistry) (id : ZoneId) : option Aabb := zone_bounds <$> zones r !! id.

(** [values]: the zones in the order the map yields them. *)
Definition find_least_loaded_zone_excluding (values : list ZoneEntry) (exclude : option ZoneId) : option ZoneId :=
  zone_id <$> min_by (fun a b => player_count a ?= player_count b)
                (List.filter (fun z => negb (bool_decide (Some (zone_id z) = exclude))) values).
Definition find_least_loaded_zone (values : list ZoneEntry) : option ZoneId :=
  find_least_loaded_zone_excluding values None.

Definition survivors (r : ZoneRegistry) (exclude : option ZoneId) : list (ZoneId * Z) :=
  sort_by (fun a b : ZoneId * Z => bytes_leb a.1 b.1)
    ((fun z => (zone_id z, max_players z)) <$>
       List.filter (fun z => negb (bool_decide (Some (zone_id z) = exclude))) (map_to_list (zones r)).*2).

(** ** The routing table (connection_router.rs)

    Every operation is one atomic map operation, or a sequence of them under
    the handoff lock. *)

Abbreviation Router := (gmap Z ZoneId).

Definition route_assign (source : Z) (zone : ZoneId) (t : Router) : Router := <[source := zone]> t.
Definition zone_of (t : Router) (source : Z) : option ZoneId := t !! source.
Definition commit_handoff (source : Z) (to : ZoneId) (t : Router) : option ZoneId * Router :=
  (t !! source, <[source := to]> t).
Definition commit_batch (assignments : list (Z * ZoneId)) (t : Router) : Router :=
  foldl (fun t a => <[a.1 := a.2]> t) t assignments.
Definition route_remove (source : Z) (t : Router) : option ZoneId * Router := (t !! source, delete source t).
Definition players_in_zone (t : Router) (zone : ZoneId) : list Z :=
  fst <$> List.filter (fun kv => bool_decide (kv.2 = zone)) (map_to_list t).
Definition count_in_zone (t : Router) (zone : ZoneId) : Z :=
  Z.of_nat (length (List.filter (fun kv => bool_decide (kv.2 = zone)) (map_to_list t))).

(** ** Routing and recovery (mesh.rs) *)

Definition route_new_player (values : list ZoneEntry) (r : ZoneRegistry) (source : Z)
    (spawn : option (f32 * f32)) (t : Router) : option ZoneId * Router :=
  let zone := match spawn with
              | Some (x, y) =>
                  match find_zone_for_coords r x y with
                  | Some z => Some z
                  | None => find_least_loaded_zone values
                  end
              | None => find_least_loaded_zone values
              end in
  match zone with
  | Some z => (Some z, route_assign source z t)
  | None => (None, t)
  end.

(** One zone of the tally: (current load, capacity, zone). *)
Abbreviation Load := (Z * Z * ZoneId)%type.

Definition has_room (l : Load) : bool := l.1.1 <? l.1.2.

(** The index of the first least loaded zone with room. *)
Definition least_with_room (load : list Load) : option nat :=
  fst <$> min_by (fun a b : nat * Load => a.2.1.1 ?= b.2.1.1)
            (List.filter (fun il => has_room il.2) (imap pair load)).

Definition bump (l : Load) : Load := (l.1.1 + 1, l.1.2, l.2).

Record Plan := { tally : list Load; assignments : list (Z * ZoneId); unplaceable : list Z }.

Definition place_orphan (p : Plan) (source : Z) : Plan :=
  match least_with_room (tally p) ≫= fun i => pair i <$> tally p !! i with
  | Some (i, l) => {| tally := <[i := bump l]> (tally p);
                      assignments := assignments p ++ [(source, l.2)]; unplaceable := unplaceable p |}
  | None => {| tally := tally p; assignments := assignments p; unplaceable := unplaceable p ++ [source] |}
  end.

Definition initial_load (t : Router) (surv : list (ZoneId * Z)) : list Load :=
  (fun s => (count_in_zone t s.1, s.2, s.1)) <$> surv.

Definition plan_rebalance (t : Router) (orphaned : list Z) (surv : list (ZoneId * Z))
    : list (Z * ZoneId) * list Z :=
  match surv with
  | [] => ([], orphaned)
  | _ =>
      let p := foldl place_orphan
                 {| tally := initial_load t surv; assignments := []; unplaceable := [] |} orphaned in
      (assignments p, unplaceable p)
  end.

(** The routing part of the recovery: the players kicked, in order, and the
    new table. [orphaned] is the failed zone's players as the table yields
    them. Registering the recovered players in their zone follows as gRPC. *)
Definition handle_zone_failure (orphaned : list Z) (r : ZoneRegistry) (failed : ZoneId) (t : Router)
    : list Z * list (Z * ZoneId) * Router :=
  let '(assigned, kicked) := plan_rebalance t orphaned (survivors r (Some failed)) in
  let t' := foldl (fun t source => (route_remove source t).2) t kicked in
  (kicked, assigned, commit_batch assigned t').

(** [drain_zone]: stops at the first player for which there is no fallback. *)
Fixpoint drain_loop (values : list ZoneEntry) (zone : ZoneId) (players : list Z) (moved : Z) (t : Router)
    : Z * Router :=
  match players with
  | [] => (moved, t)
  | source :: rest =>
      match find_least_loaded_zone_excluding values (Some zone) with
      | None => (moved, t)
      | Some fallback => drain_loop values zone rest (moved + 1) (commit_handoff source fallback t).2
      end
  end.

Definition drain_zone (values : list ZoneEntry) (zone : ZoneId) (t : Router) : Z * Router :=
  drain_loop values zone (players_in_zone t zone) 0 t.

(** ** The registry and its index *)

Record registry_ok (r : ZoneRegistry) : Prop := {
  index_ok : represents (quadtree r) (zone_bounds <$> zones r);
  entries_ok : forall id e, zones r !! id = Some e -> zone_id e = id
}.

Lemma registry_new_ok timeout : registry_ok (registry_new timeout).
Proof. split; [|by intros id e H]. cbn [registry_new quadtree zones]. rewrite fmap_empty. apply rep_new. Qed.

Lemma register_ok e r : registry_ok r -> registry_ok (register_tree_half (zone_id e) (zone_bounds e) (register_zones_half e r)).
Proof.
  intros [Hi He]. split.
  - change (represents (qt_insert (zone_id e) (zone_bounds e) (quadtree r)) (zone_bounds <$> <[zone_id e := e]> (zones r))).
    rewrite fmap_insert. by apply rep_insert.
  - intros id e'. change (zones _) with (<[zone_id e := e]> (zones r)).
    intros [[<- <-]|[_ H]]%lookup_insert_Some; [done|by apply He].
Qed.

Lemma heartbeat_ok now id pc ec r : registry_ok r -> registry_ok (heartbeat now id pc ec r).2.
Proof.
  intros [Hi He]. unfold heartbeat. destruct (zones r !! id) as [e|] eqn:E; [|done]. cbn [snd].
  set (e' := e <| last_heartbeat := now |> <| player_count := pc |> <| entity_count := ec |>). split.
  - change (represents (quadtree r) (zone_bounds <$> <[id := e']> (zones r))).
    rewrite fmap_insert, insert_id; [done|]. by rewrite lookup_fmap, E.
  - intros id'. change (zones _) with (<[id := e']> (zones r)).
    intros e'' [[<- <-]|[_ H]]%lookup_insert_Some; [exact (He _ _ E)|by apply He].
Qed.

Lemma rep_remove_all (ids : list ZoneId) t m :
  represents t m ->
  represents (foldl (fun t id => (qt_remove id t).2) t ids) (foldl (fun m id => delete id m) m ids).
Proof.
  revert t m. induction ids as [|id ids IH]; intros t m H; [done|]. by apply IH, rep_remove.
Qed.

Lemma lookup_delete_all {A} (ids : list ZoneId) (m : gmap ZoneId A) id :
  foldl (fun m id => delete id m) m ids !! id = if decide (id ∈ ids) then None else m !! id.
Proof.
  revert m. induction ids as [|i ids IH]; intros m; [done|]. cbn [foldl]. rewrite IH.
  destruct (decide (id ∈ ids)) as [Hin|Hin]; [by rewrite decide_True by (by right)|].
  destruct (decide (id = i)) as [->|Hne].
  - rewrite decide_True by (by left). apply lookup_delete_eq.
  - rewrite decide_False by (by rewrite elem_of_cons; intros [|]). by apply lookup_delete_ne.
Qed.

Lemma fmap_delete_all {A B} (f : A -> B) (ids : list ZoneId) (m : gmap ZoneId A) :
  f <$> foldl (fun m id => delete id m) m ids = foldl (fun m id => delete id m) (f <$> m) ids.
Proof. apply map_eq. intros id. rewrite lookup_fmap, !lookup_delete_all, lookup_fmap. by destruct (decide _). Qed.

Lemma removal_ok (ids : list ZoneId) r :
  registry_ok r ->
  registry_ok (remove_tree_half ids (r <| zones := foldl (fun m id => delete id m) (zones r) ids |>)).
Proof.
  intros [Hi He]. split.
  - change (represents (foldl (fun t id => (qt_remove id t).2) (quadtree r) ids)
      (zone_bounds <$> foldl (fun m id => delete id m) (zones r) ids)).
    rewrite fmap_delete_all. by apply rep_remove_all.
  - intros id e. change (zones _) with (foldl (fun m id => delete id m) (zones r) ids).
    rewrite lookup_delete_all. destruct (decide _); [done|]. apply He.
Qed.

(** The calls that change a registry, each running alone. *)
Inductive registry_step : ZoneRegistry -> ZoneRegistry -> Prop :=
| step_register uri_valid now id b addr cap r : registry_step r (register_zone uri_valid now id b addr cap r).2
| step_heartbeat now id pc ec r : registry_step r (heartbeat now id pc ec r).2
| step_evict now r : registry_step r (evict_silent_zones now r).2
| step_remove id r : registry_step r (remove_zone id r).2.

Lemma step_ok r r' : registry_step r r' -> registry_ok r -> registry_ok r'.
Proof.
  intros [uri_valid now id b addr cap r0|now id pc ec r0|now r0|id r0] H.
  - unfold register_zone. destruct (uri_valid _); [|done]. cbn [snd].
    by apply (register_ok (entry_of now id b addr cap)).
  - by apply heartbeat_ok.
  - unfold evict_silent_zones. destruct (evict_zones_half now r0) as [evicted r1] eqn:E.
    unfold evict_zones_half in E. injection E as <- <-. cbn [snd].
    pose proof (removal_ok (fst <$> List.filter (fun kv => silent now r0 kv.2) (map_to_list (zones r0))) r0 H) as Hr.
    destruct (fst <$> List.filter _ _); [|exact Hr]. exact Hr.
  - unfold remove_zone. cbn [snd]. destruct (zones r0 !! id) eqn:E; [by apply (removal_ok [id])|].
    cbn [is_some]. rewrite delete_id by done. by destruct r0.
Qed.

(** in every state the registry's calls lead to, the index is that of the
    registered zones: a coordinate lookup answers with a live zone that
    covers the point, and with none only when none does. *)
Theorem registry_indexes_zones timeout r x y area :
  rtc registry_step (registry_new timeout) r ->
  match find_zone_for_coords r x y with
  | Some id => exists e, zones r !! id = Some e /\ contains (zone_bounds e) x y = true
  | None => forall id e, zones r !! id = Some e -> contains (zone_bounds e) x y = false
  end /\
  forall id, id ∈ find_zones_in_aabb r area <->
    exists e, zones r !! id = Some e /\ intersects (zone_bounds e) area = true.
Proof.
  intros Hr. destruct (rtc_invariant _ registry_ok _ _ step_ok Hr (registry_new_ok timeout)) as [Hi _].
  split.
  - pose proof (rep_query_point _ _ x y Hi) as H. unfold find_zone_for_coords.
    destruct (query_point (quadtree r) x y) as [id|].
    + destruct H as (b & Hb & Hc). rewrite lookup_fmap in Hb.
      destruct (zones r !! id) as [e|]; [|done]. injection Hb as <-. by exists e.
    + intros id e He. apply (H id). by rewrite lookup_fmap, He.
  - intros id. unfold find_zones_in_aabb. rewrite (rep_query_aabb _ _ area Hi), list_elem_of_fmap. split.
    + intros ([id' b] & -> & Hin). apply list_elem_of_filter in Hin as [Hc Hin].
      apply elem_of_map_to_list in Hin. rewrite lookup_fmap in Hin. cbn [fst snd] in *.
      destruct (zones r !! id') as [e|]; [|done]. injection Hin as <-. by exists e.
    + intros (e & He & Hc). exists (id, zone_bounds e). split; [done|]. apply list_elem_of_filter.
      split; [done|]. apply elem_of_map_to_list. by rewrite lookup_fmap, He.
Qed.

Definition any_uri (_ : list Z) : bool := true.

Definition zone_a : ZoneId := [97].
Definition zone_b : ZoneId := [98].

Definition two_zones : ZoneRegistry :=
  (register_zone any_uri 0 zone_b (box 0 (-4000) 4000 4000) [50] 2
    (register_zone any_uri 0 zone_a (box (-4000) (-4000) 0 4000) [49] 2 (registry_new 15)).2).2.

Lemma two_zones_reachable : rtc registry_step (registry_new 15) two_zones.
Proof.
  eapply rtc_l; [apply (step_register any_uri 0 zone_a (box (-4000) (-4000) 0 4000) [49] 2)|].
  apply rtc_once, step_register.
Qed.

Lemma registry_indexes_zones_witness :
  exists e, zones two_zones !! zone_a = Some e /\ intersects (zone_bounds e) (box (-10) 0 (-5) 5) = true.
Proof.
  apply (proj1 (proj2 (registry_indexes_zones 15 two_zones f32_zero f32_zero (box (-10) 0 (-5) 5) two_zones_reachable) zone_a)).
  vm_compute. by left.
Defined.

(** ** Registration against eviction *)

(** eviction removes a zone from the map and, in a second lock, from the
    index. A zone that registers again in between is in the map, its
    heartbeats are answered as known, so that it never registers anew, and
    no coordinate leads to it. *)
Theorem eviction_race_unindexes now now' r id b addr cap :
  registry_ok r -> id ∈ (evict_zones_half now r).1 ->
  let '(dead, r1) := evict_zones_half now r in
  let r2 := register_tree_half id b (register_zones_half (entry_of now' id b addr cap) r1) in
  let r3 := remove_tree_half dead r2 in
  contains_zone r3 id = true /\
  (forall now'' pc ec, (heartbeat now'' id pc ec r3).1 = true) /\
  (forall x y, find_zone_for_coords r3 x y <> Some id).
Proof.
  intros [Hi He] Hid. unfold evict_zones_half in *. cbn [fst] in Hid.
  set (dead := fst <$> List.filter _ _) in *. cbn [fst snd].
  set (e := entry_of now' id b addr cap).
  set (r1 := r <| zones := foldl (fun m id => delete id m) (zones r) dead |>).
  set (r2 := register_tree_half id b (register_zones_half e r1)).
  assert (Hz : zones (remove_tree_half dead r2) !! id = Some e).
  { change (zones _) with (<[id := e]> (zones r1)). apply lookup_insert_eq. }
  split; [by unfold contains_zone; rewrite Hz|split].
  - intros now'' pc ec. unfold heartbeat. by rewrite Hz.
  - intros x y. unfold find_zone_for_coords.
    assert (Hrep : represents (quadtree (remove_tree_half dead r2))
      (foldl (fun m id => delete id m) (<[id := b]> (zone_bounds <$> zones r)) dead)).
    { apply rep_remove_all. by apply rep_insert. }
    pose proof (rep_query_point _ _ x y Hrep) as H. intros Hq. rewrite Hq in H.
    destruct H as (zb & Hm & _). rewrite lookup_delete_all, decide_True in Hm by done. done.
Qed.

Lemma eviction_race_unindexes_witness :
  let '(dead, r1) := evict_zones_half 100 two_zones in
  let r3 := remove_tree_half dead
    (register_tree_half zone_a (box (-4000) (-4000) 0 4000)
      (register_zones_half (entry_of 100 zone_a (box (-4000) (-4000) 0 4000) [49] 2) r1)) in
  contains_zone r3 zone_a = true /\ forall x y, find_zone_for_coords r3 x y <> Some zone_a.
Proof.
  assert (Hok : registry_ok two_zones)
    by exact (rtc_invariant _ registry_ok _ _ step_ok two_zones_reachable (registry_new_ok 15)).
  pose proof (eviction_race_unindexes 100 100 two_zones zone_a (box (-4000) (-4000) 0 4000) [49] 2 Hok) as H.
  destruct (evict_zones_half 100 two_zones) as [dead r1] eqn:E.
  destruct H as (H1 & _ & H2); [|by split].
  change dead with (dead, r1).1. rewrite <- E.
  apply (bool_decide_unpack (zone_a ∈ (evict_zones_half 100 two_zones).1)). vm_compute. exact I.
Defined.

(** ** Spreading orphans *)

Definition placed (a : list (Z * ZoneId)) (zone : ZoneId) : Z :=
  Z.of_nat (length (List.filter (fun x => bool_decide (x.2 = zone)) a)).

Lemma placed_snoc a s z zone : placed (a ++ [(s, z)]) zone = placed a zone + (if decide (z = zone) then 1 else 0).
Proof.
  unfold placed. rewrite List.filter_app, length_app, Nat2Z.inj_add. cbn [List.filter snd].
  case_bool_decide; by destruct (decide _).
Qed.

Lemma placed_nonneg a zone : 0 <= placed a zone.
Proof. unfold placed. lia. Qed.

(** The load of a zone once [a] has been assigned. *)
Definition load_now (a : list (Z * ZoneId)) (l : Load) : Z := l.1.1 + placed a l.2.

Definition loads_now (load : list Load) (a : list (Z * ZoneId)) : list Load :=
  (fun l => (load_now a l, l.1.2, l.2)) <$> load.

Lemma loads_bump (load : list Load) a s i l :
  NoDup (load.*2) -> load !! i = Some l ->
  <[i := bump (load_now a l, l.1.2, l.2)]> (loads_now load a) = loads_now load (a ++ [(s, l.2)]).
Proof.
  intros Hnd Hi. apply list_eq. intros j. unfold loads_now. rewrite (list_lookup_fmap _ load j).
  destruct (decide (i = j)) as [<-|Hne].
  - rewrite list_lookup_insert_eq by (rewrite length_fmap; by eapply lookup_lt_Some).
    rewrite Hi. unfold bump, load_now. cbn [fmap option_fmap option_map fst snd].
    rewrite placed_snoc, decide_True by done. by rewrite Z.add_assoc.
  - rewrite list_lookup_insert_ne, list_lookup_fmap by done.
    destruct (load !! j) as [l'|] eqn:Hj; [|done]. cbn [fmap option_fmap option_map].
    unfold load_now. rewrite placed_snoc, decide_False; [by rewrite Z.add_0_r|].
    intros Heq. apply Hne. eapply (NoDup_lookup (load.*2)); [done|..]; rewrite list_lookup_fmap.
    + by rewrite Hi.
    + rewrite Hj. cbn. by rewrite Heq.
Qed.

Lemma same_zone (load : list Load) l l' :
  NoDup (load.*2) -> l ∈ load -> l' ∈ load -> l.2 = l'.2 -> l = l'.
Proof.
  intros Hnd [i Hi]%list_elem_of_lookup [j Hj]%list_elem_of_lookup Heq.
  assert (i = j) as ->; [|congruence].
  eapply (NoDup_lookup (load.*2) i j l.2); [done|by rewrite list_lookup_fmap, Hi|].
  rewrite list_lookup_fmap, Hj. cbn. congruence.
Qed.

Lemma least_with_room_spec load :
  match least_with_room load with
  | Some i => exists l, load !! i = Some l /\ has_room l = true /\
                forall l', l' ∈ load -> has_room l' = true -> l.1.1 <= l'.1.1
  | None => forall l, l ∈ load -> has_room l = false
  end.
Proof.
  unfold least_with_room. set (cand := List.filter (fun il : nat * Load => has_room il.2) (imap pair load)).
  assert (Hc : forall i l, (i, l) ∈ cand <-> load !! i = Some l /\ has_room l = true).
  { intros i l. unfold cand. rewrite list_elem_of_In, filter_In, <- list_elem_of_In, elem_of_lookup_imap.
    split; [intros [(j & l' & [= -> ->] & H) Hr]; done|intros [H Hr]; split; [by exists i, l|done]]. }
  assert (Hin : forall l, l ∈ load -> has_room l = true -> exists i, (i, l) ∈ cand).
  { intros l Hl Hr. apply list_elem_of_lookup in Hl as [i Hi]. exists i. by apply Hc. }
  destruct (min_by _ cand) as [[i l]|] eqn:E; cbn [fmap option_fmap option_map fst].
  - exists l. pose proof (min_by_elem _ _ _ E) as Hm. apply Hc in Hm as [H1 H2].
    split; [done|split; [done|]]. intros l' Hl' Hr'. destruct (Hin l' Hl' Hr') as [i' Hi'].
    apply Z.compare_le_iff.
    apply (min_by_least _ cand (i, l)) with (y := (i', l')) in E; [exact E|..|done].
    + intros a. cbn. by rewrite Z.compare_refl.
    + intros a b H. rewrite Z.compare_antisym, H. done.
    + intros a b c. rewrite !Z.compare_le_iff. lia.
  - intros l Hl. destruct (has_room l) eqn:Hr; [|done]. destruct (Hin l Hl Hr) as [i Hi].
    destruct cand; [by apply elem_of_nil in Hi|done].
Qed.

Lemma loads_now_elem load a l' :
  l' ∈ loads_now load a <-> exists l, l ∈ load /\ l' = (load_now a l, l.1.2, l.2).
Proof.
  unfold loads_now. rewrite list_elem_of_fmap. split; intros (l & H1 & H2); by exists l.
Qed.

(** The state of the loop after the players [done_] have been handled. *)
Record plan_inv (load : list Load) (done_ : list Z) (p : Plan) : Prop := {
  pi_tally : tally p = loads_now load (assignments p);
  pi_split : (assignments p).*1 ++ unplaceable p ≡ₚ done_;
  pi_zones : forall x, x ∈ assignments p -> x.2 ∈ load.*2;
  pi_capacity : forall l, l ∈ load -> load_now (assignments p) l <= Z.max l.1.1 l.1.2;
  pi_full : unplaceable p <> [] -> forall l, l ∈ load -> l.1.2 <= load_now (assignments p) l;
  pi_fair : forall l1 l2, l1 ∈ load -> l2 ∈ load -> 0 < placed (assignments p) l1.2 ->
    load_now (assignments p) l2 < l2.1.2 -> load_now (assignments p) l1 <= load_now (assignments p) l2 + 1
}.

Lemma load_now_snoc a s z l : load_now (a ++ [(s, z)]) l = load_now a l + (if decide (z = l.2) then 1 else 0).
Proof. unfold load_now. rewrite placed_snoc. lia. Qed.

Lemma place_orphan_inv (load : list Load) done_ p s :
  NoDup (load.*2) -> plan_inv load done_ p -> plan_inv load (done_ ++ [s]) (place_orphan p s).
Proof.
  intros Hnd [Ht Hs Hz Hc Hf Hfair]. unfold place_orphan.
  pose proof (least_with_room_spec (tally p)) as H.
  destruct (least_with_room (tally p)) as [i|]; cbn [mbind option_bind].
  - destruct H as (l' & Hi & Hr & Hmin). rewrite Hi. cbn [fmap option_fmap option_map].
    rewrite Ht in Hi. unfold loads_now in Hi. rewrite list_lookup_fmap in Hi.
    destruct (load !! i) as [l|] eqn:Hl; [|done]. injection Hi as <-.
    assert (Hin : l ∈ load) by by eapply list_elem_of_lookup_2.
    apply Z.ltb_lt in Hr. cbn [fst snd] in Hr, Hmin |- *.
    assert (Hle : forall l2, l2 ∈ load -> load_now (assignments p) l2 < l2.1.2 ->
      load_now (assignments p) l <= load_now (assignments p) l2).
    { intros l2 H2 Hr2. apply (Hmin (load_now (assignments p) l2, l2.1.2, l2.2)).
      - rewrite Ht. apply loads_now_elem. by exists l2.
      - by apply Z.ltb_lt. }
    split; cbn [tally assignments unplaceable].
    + rewrite Ht. by apply loads_bump.
    + rewrite fmap_app, <- app_assoc, <- Hs. cbn. solve_Permutation.
    + intros x [Hx|Hx%list_elem_of_singleton]%elem_of_app; [by apply Hz|subst x].
      apply list_elem_of_fmap. by exists l.
    + intros l1 H1. rewrite load_now_snoc. destruct (decide (l.2 = l1.2)) as [E|]; [|specialize (Hc l1 H1); lia].
      rewrite <- (same_zone load l l1) by done. lia.
    + intros Hu l1 H1. rewrite load_now_snoc. specialize (Hf Hu l1 H1). destruct (decide _); lia.
    + intros l1 l2 H1 H2. rewrite !load_now_snoc, placed_snoc. intros Hp Hroom.
      specialize (Hfair l1 l2 H1 H2). specialize (Hle l2 H2).
      destruct (decide (l.2 = l1.2)) as [E1|E1]; [pose proof (same_zone load l l1 Hnd Hin H1 E1) as <-|];
        (destruct (decide (l.2 = l2.2)) as [E2|E2]; [pose proof (same_zone load l l2 Hnd Hin H2 E2) as <-|]);
        try done; lia.
  - split; cbn [tally assignments unplaceable]; try done.
    + rewrite <- Hs. by rewrite <- app_assoc.
    + intros _ l Hl. assert (Hr : has_room (load_now (assignments p) l, l.1.2, l.2) = false).
      { apply H. rewrite Ht. apply loads_now_elem. by exists l. }
      apply Z.ltb_ge in Hr. exact Hr.
Qed.

(** ** The routing table under a recovery *)

#[export] Instance List_filter_Permutation {A} (p : A -> bool) :
  Proper (Permutation ==> Permutation) (List.filter p).
Proof.
  intros l1 l2 H. induction H; cbn [List.filter]; [done|by destruct (p _); [constructor|]| |by etrans].
  destruct (p x), (p y); try done. constructor.
Qed.

Lemma NoDup_fmap_filter {A B} (f : A -> B) (p : A -> bool) (l : list A) :
  NoDup (f <$> l) -> NoDup (f <$> List.filter p l).
Proof.
  induction l as [|x l IH]; [done|]. rewrite fmap_cons. intros [Hx Hnd]%NoDup_cons. cbn [List.filter].
  destruct (p x); [|by apply IH]. rewrite fmap_cons. apply NoDup_cons. split; [|by apply IH].
  intros Hin. apply Hx. apply list_elem_of_fmap in Hin as (y & -> & Hy).
  rewrite list_elem_of_In, filter_In, <- list_elem_of_In in Hy. apply list_elem_of_fmap_2. by destruct Hy.
Qed.

Lemma survivors_spec r failed :
  registry_ok r ->
  (forall z cap, (z, cap) ∈ survivors r (Some failed) <->
     z <> failed /\ exists e, zones r !! z = Some e /\ max_players e = cap) /\
  NoDup ((survivors r (Some failed)).*1).
Proof.
  intros [_ He]. unfold survivors.
  set (keep := fun z => negb (bool_decide (Some (zone_id z) = Some failed))).
  set (f := fun z => (zone_id z, max_players z)). split.
  - intros z cap. rewrite sort_by_perm, list_elem_of_fmap. split.
    + intros (e & [= -> ->] & Hin). rewrite list_elem_of_In, filter_In, <- list_elem_of_In in Hin.
      destruct Hin as [Hin Hk]. apply list_elem_of_fmap in Hin as ([id e'] & -> & Hin).
      apply elem_of_map_to_list in Hin. cbn [snd] in *. rewrite (He _ _ Hin).
      unfold keep in Hk. rewrite (He _ _ Hin) in Hk.
      apply negb_true_iff, bool_decide_eq_false in Hk. split; [congruence|by exists e'].
    + intros (Hne & e & Hz & <-). exists e. unfold f. rewrite (He _ _ Hz). split; [done|].
      rewrite list_elem_of_In, filter_In, <- list_elem_of_In. split.
      * apply list_elem_of_fmap. exists (z, e). by rewrite elem_of_map_to_list.
      * unfold keep. rewrite (He _ _ Hz). apply negb_true_iff, bool_decide_eq_false. congruence.
  - rewrite sort_by_perm. rewrite <- list_fmap_compose. apply (NoDup_fmap_filter zone_id).
    rewrite <- list_fmap_compose.
    assert (Hids : (zone_id ∘ snd) <$> map_to_list (zones r) = (map_to_list (zones r)).*1).
    { apply list_fmap_ext. intros i [id e] Hi. apply (He id), elem_of_map_to_list.
      by apply list_elem_of_lookup_2 with i. }
    rewrite Hids. apply NoDup_fst_map_to_list.
Qed.

Lemma commit_batch_other a t s : s ∉ a.*1 -> commit_batch a t !! s = t !! s.
Proof.
  revert t. induction a as [|[s' z] a IH]; intros t H; [done|].
  rewrite fmap_cons, not_elem_of_cons in H. cbn [fst] in H.
  change (commit_batch ((s', z) :: a) t) with (commit_batch a (<[s' := z]> t)).
  rewrite IH by apply H. apply lookup_insert_ne. by destruct H.
Qed.

Lemma commit_batch_member a t s z : NoDup (a.*1) -> (s, z) ∈ a -> commit_batch a t !! s = Some z.
Proof.
  revert t. induction a as [|[s' z'] a IH]; intros t Hnd Hin; [by apply elem_of_nil in Hin|].
  rewrite fmap_cons in Hnd. apply NoDup_cons in Hnd as [Hs' Hnd].
  change (commit_batch ((s', z') :: a) t) with (commit_batch a (<[s' := z']> t)).
  apply elem_of_cons in Hin as [[= -> ->]|Hin]; [|by apply IH].
  rewrite commit_batch_other by done. apply lookup_insert_eq.
Qed.

(** A player leaves the failed zone for [z], or for none. *)
Lemma count_leave t s f z' :
  t !! s = Some f -> f <> z' -> count_in_zone (delete s t) z' = count_in_zone t z'.
Proof.
  intros Hs Hne. unfold count_in_zone. rewrite <- (map_to_list_delete t s f Hs). cbn [List.filter snd].
  by rewrite bool_decide_eq_false_2.
Qed.

Lemma count_arrive t s z z' :
  t !! s = None -> count_in_zone (<[s := z]> t) z' = count_in_zone t z' + (if decide (z = z') then 1 else 0).
Proof.
  intros Hs. unfold count_in_zone. rewrite map_to_list_insert by done. cbn [List.filter snd].
  case_bool_decide as H.
  - rewrite decide_True by done. cbn [length]. lia.
  - rewrite decide_False by done. lia.
Qed.

Lemma count_move t s f z z' :
  t !! s = Some f -> f <> z' ->
  count_in_zone (<[s := z]> t) z' = count_in_zone t z' + (if decide (z = z') then 1 else 0).
Proof.
  intros Hs Hne. rewrite <- insert_delete_eq, count_arrive by apply lookup_delete_eq.
  by rewrite (count_leave t s f).
Qed.

Lemma count_commit a t f z' :
  NoDup (a.*1) -> (forall s, s ∈ a.*1 -> t !! s = Some f) -> f <> z' ->
  count_in_zone (commit_batch a t) z' = count_in_zone t z' + placed a z'.
Proof.
  revert t. induction a as [|[s z] a IH]; intros t Hnd Hall Hne.
  { change (placed [] z') with 0. by rewrite Z.add_0_r. }
  rewrite fmap_cons in Hnd, Hall. apply NoDup_cons in Hnd as [Hs Hnd].
  change (commit_batch ((s, z) :: a) t) with (commit_batch a (<[s := z]> t)). rewrite IH; [..|done].
  - rewrite (count_move t s f) by (done || (apply Hall; by left)).
    unfold placed. cbn [List.filter snd]. case_bool_decide as H.
    + rewrite decide_True by done. cbn [length]. lia.
    + rewrite decide_False by done. lia.
  - done.
  - intros s' Hs'. rewrite lookup_insert_ne by (intros ->; done). apply Hall. by right.
Qed.

Definition route_remove_all (ss : list Z) (t : Router) : Router :=
  foldl (fun t source => (route_remove source t).2) t ss.

Lemma remove_all_lookup ss t s : route_remove_all ss t !! s = if decide (s ∈ ss) then None else t !! s.
Proof.
  unfold route_remove_all. revert t. induction ss as [|s' ss IH]; intros t; [done|]. cbn [foldl]. rewrite IH.
  destruct (decide (s ∈ ss)) as [Hin|Hin]; [by rewrite decide_True by (by right)|].
  unfold route_remove. cbn [snd]. destruct (decide (s = s')) as [->|Hne].
  - rewrite decide_True by (by left). apply lookup_delete_eq.
  - rewrite decide_False by (by rewrite elem_of_cons; intros [|]). by apply lookup_delete_ne.
Qed.

Lemma count_remove_all ss t f z' :
  NoDup ss -> (forall s, s ∈ ss -> t !! s = Some f) -> f <> z' ->
  count_in_zone (route_remove_all ss t) z' = count_in_zone t z'.
Proof.
  revert t. induction ss as [|s ss IH]; intros t Hnd Hall Hne; [done|].
  apply NoDup_cons in Hnd as [Hs Hnd].
  change (route_remove_all (s :: ss) t) with (route_remove_all ss (delete s t)). rewrite IH; [|done| |done].
  - apply (count_leave t s f); [apply Hall; by left|done].
  - intros s' Hs'. rewrite lookup_delete_ne by (intros ->; done). apply Hall. by right.
Qed.

Lemma players_in_zone_spec t zone : NoDup (players_in_zone t zone) /\
  forall s, s ∈ players_in_zone t zone <-> t !! s = Some zone.
Proof.
  unfold players_in_zone. split.
  - apply NoDup_fmap_filter, NoDup_fst_map_to_list.
  - intros s. rewrite list_elem_of_fmap. split.
    + intros ([s' z] & -> & Hin). rewrite list_elem_of_In, filter_In, <- list_elem_of_In in Hin.
      destruct Hin as [Hin Hz]. apply bool_decide_eq_true in Hz. cbn in Hz. subst z.
      by apply elem_of_map_to_list in Hin.
    + intros Hs. exists (s, zone). split; [done|]. rewrite list_elem_of_In, filter_In, <- list_elem_of_In.
      split; [by apply elem_of_map_to_list|by apply bool_decide_eq_true].
Qed.

Lemma initial_loads t surv l :
  l ∈ initial_load t surv <-> exists z cap, (z, cap) ∈ surv /\ l = (count_in_zone t z, cap, z).
Proof.
  unfold initial_load. rewrite list_elem_of_fmap. split.
  - intros ([z cap] & -> & H). by exists z, cap.
  - intros (z & cap & H & ->). by exists (z, cap).
Qed.

(** The plan, for survivors with distinct ids. *)
Lemma plan_spec t orphaned surv :
  NoDup (surv.*1) -> NoDup orphaned ->
  let '(a, kicked) := plan_rebalance t orphaned surv in
  a.*1 ++ kicked ≡ₚ orphaned /\
  (forall x, x ∈ a -> x.2 ∈ surv.*1) /\
  (forall z cap, (z, cap) ∈ surv -> count_in_zone t z + placed a z <= Z.max (count_in_zone t z) cap) /\
  (kicked <> [] -> forall z cap, (z, cap) ∈ surv -> cap <= count_in_zone t z + placed a z) /\
  (forall z1 cap1 z2 cap2, (z1, cap1) ∈ surv -> (z2, cap2) ∈ surv -> 0 < placed a z1 ->
     count_in_zone t z2 + placed a z2 < cap2 ->
     count_in_zone t z1 + placed a z1 <= count_in_zone t z2 + placed a z2 + 1).
Proof.
  intros Hnd Ho. unfold plan_rebalance. destruct surv as [|s0 surv'].
  { split; [done|]. split; [by intros x Hx%elem_of_nil|]. split; [by intros z cap Hx%elem_of_nil|].
    split; [by intros _ z cap Hx%elem_of_nil|by intros z1 cap1 z2 cap2 Hx%elem_of_nil]. }
  set (surv := s0 :: surv') in *. set (load := initial_load t surv).
  assert (Hids : load.*2 = surv.*1).
  { unfold load, initial_load. rewrite <- list_fmap_compose. by apply list_fmap_ext. }
  assert (Hload : forall z cap, (z, cap) ∈ surv -> (count_in_zone t z, cap, z) ∈ load).
  { intros z cap H. apply initial_loads. by exists z, cap. }
  assert (Hloop : forall os done_ p, plan_inv load done_ p -> plan_inv load (done_ ++ os) (foldl place_orphan p os)).
  { induction os as [|o os IH]; intros done_ p H; [by rewrite app_nil_r|]. cbn [foldl].
    change (o :: os) with ([o] ++ os). rewrite app_assoc. apply IH, place_orphan_inv; [by rewrite Hids|done]. }
  destruct (Hloop orphaned [] {| tally := load; assignments := []; unplaceable := [] |}) as [_ P2 P3 P4 P5 P6].
  { assert (H0 : forall l : Load, load_now [] l = l.1.1) by (intros l; unfold load_now, placed; cbn; lia).
    split; cbn [tally assignments unplaceable]; try done.
    - unfold loads_now. rewrite <- (list_fmap_id load) at 1. apply list_fmap_ext.
      intros i [[c k] z] _. by rewrite H0.
    - by intros x Hx%elem_of_nil.
    - intros l _. rewrite H0. lia. }
  cbn [app] in P2. set (p := foldl place_orphan _ orphaned) in *.
  split; [done|split; [by rewrite <- Hids|split; [|split]]].
  - intros z cap H. by apply (P4 (count_in_zone t z, cap, z)), Hload.
  - intros Hk z cap H. by apply (P5 Hk (count_in_zone t z, cap, z)), Hload.
  - intros z1 cap1 z2 cap2 H1 H2. by apply (P6 (count_in_zone t z1, cap1, z1) (count_in_zone t z2, cap2, z2)); apply Hload.
Qed.

(** C6: the recovery from a zone's failure, whatever order its players come in.
    Nobody is routed to the failed zone any more; each of its players is
    either rerouted to a surviving zone or kicked, exactly once, and nobody
    else's route changes. No survivor is pushed past its capacity, a player
    is kicked only when every survivor is full, and the load is level: a
    zone that received players is at most one ahead of any zone with room. *)
Theorem failure_recovery orphaned r failed t :
  registry_ok r -> orphaned ≡ₚ players_in_zone t failed ->
  let '(kicked, assigned, t') := handle_zone_failure orphaned r failed t in
  let live z e := z <> failed /\ zones r !! z = Some e in
  (forall s, t' !! s <> Some failed) /\
  (forall s, t !! s = Some failed ->
     (s ∈ kicked /\ t' !! s = None) \/ exists z e, live z e /\ (s, z) ∈ assigned /\ t' !! s = Some z) /\
  NoDup (kicked ++ assigned.*1) /\
  (forall s, t !! s <> Some failed -> t' !! s = t !! s /\ s ∉ kicked) /\
  (forall z e, live z e -> count_in_zone t' z <= Z.max (count_in_zone t z) (max_players e)) /\
  (kicked <> [] -> forall z e, live z e -> max_players e <= count_in_zone t' z) /\
  (forall z1 e1 z2 e2, live z1 e1 -> live z2 e2 -> count_in_zone t z1 < count_in_zone t' z1 ->
     count_in_zone t' z2 < max_players e2 -> count_in_zone t' z1 <= count_in_zone t' z2 + 1).
Proof.
  intros Hr Ho. destruct (players_in_zone_spec t failed) as [Hnd Hp].
  assert (Hno : NoDup orphaned) by by rewrite Ho.
  assert (Hor : forall s, s ∈ orphaned <-> t !! s = Some failed) by (intros s; by rewrite Ho).
  destruct (survivors_spec r failed Hr) as [Hs Hsn].
  unfold handle_zone_failure. pose proof (plan_spec t orphaned (survivors r (Some failed)) Hsn Hno) as H.
  destruct (plan_rebalance t orphaned (survivors r (Some failed))) as [assigned kicked].
  destruct H as (H1 & H2 & H3 & H4 & H5). fold (route_remove_all kicked t).
  set (t' := commit_batch assigned (route_remove_all kicked t)).
  assert (Hnd' : NoDup (assigned.*1 ++ kicked)) by by rewrite H1.
  apply NoDup_app in Hnd' as (Hna & Hdis & Hnk).
  assert (Hka : forall s, s ∈ kicked \/ s ∈ assigned.*1 <-> t !! s = Some failed).
  { intros s. rewrite <- Hor, <- H1, elem_of_app. tauto. }
  assert (Hlive : forall z e, z <> failed /\ zones r !! z = Some e -> (z, max_players e) ∈ survivors r (Some failed)).
  { intros z e [Hne Hz]. apply Hs. split; [done|by exists e]. }
  assert (Hcount : forall z, z <> failed -> count_in_zone t' z = count_in_zone t z + placed assigned z).
  { intros z Hne. unfold t'. rewrite (count_commit _ _ failed) by
      (done || (intros s Hin; rewrite remove_all_lookup, decide_False; [apply Hka; by right|by apply Hdis])).
    rewrite (count_remove_all _ _ failed); [done|done| |done]. intros s Hin. apply Hka. by left. }
  assert (Hlook : forall s, s ∉ assigned.*1 -> t' !! s = if decide (s ∈ kicked) then None else t !! s).
  { intros s Hin. unfold t'. by rewrite commit_batch_other, remove_all_lookup. }
  assert (Hmem : forall s z, (s, z) ∈ assigned -> t' !! s = Some z) by (intros; by apply commit_batch_member).
  assert (Hzone : forall s z, (s, z) ∈ assigned -> exists e, z <> failed /\ zones r !! z = Some e).
  { intros s z Hin. specialize (H2 _ Hin). apply list_elem_of_fmap in H2 as ([z' cap] & Heq & H2).
    cbn in Heq. subst z'. apply Hs in H2 as (Hne & e & Hz & _). by exists e. }
  assert (Hcase : forall s, t !! s = Some failed ->
    (s ∈ kicked /\ t' !! s = None) \/ exists z e, (z <> failed /\ zones r !! z = Some e) /\ (s, z) ∈ assigned /\ t' !! s = Some z).
  { intros s Hf. apply Hka in Hf as [Hk|Ha].
    - left. split; [done|]. rewrite Hlook, decide_True; [done|done|]. intros Ha. by apply (Hdis s).
    - right. apply list_elem_of_fmap in Ha as ([s' z] & -> & Ha). destruct (Hzone _ _ Ha) as (e & He).
      exists z, e. auto. }
  split; [|split; [exact Hcase|split; [|split; [|split; [|split]]]]].
  - intros s Hf. destruct (decide (t !! s = Some failed)) as [Ht|Ht].
    + destruct (Hcase s Ht) as [[_ Hn]|(z & e & [Hne _] & _ & Hz)]; congruence.
    + rewrite Hlook in Hf by (intros Ha; apply Ht, Hka; by right).
      destruct (decide (s ∈ kicked)); [done|]. done.
  - apply NoDup_app. split; [done|split; [|done]]. intros s Hk Ha. by apply (Hdis s).
  - intros s Ht. assert (Hn : s ∉ kicked) by (intros Hk; apply Ht, Hka; by left). split; [|done].
    rewrite Hlook, decide_False; [done|done|]. intros Ha. apply Ht, Hka. by right.
  - intros z e Hl. rewrite Hcount by apply Hl. by apply H3, Hlive.
  - intros Hk z e Hl. rewrite Hcount by apply Hl. by apply (H4 Hk), Hlive.
  - intros z1 e1 z2 e2 L1 L2. rewrite (Hcount z1), (Hcount z2) by (apply L1 || apply L2). intros Hg Hroom.
    apply (H5 z1 (max_players e1) z2 (max_players e2)); [by apply Hlive..|lia|done].
Qed.

(** Zone a holds players 1, 2 and 3 and fails; zone b has room for two. *)
Definition three_in_a : Router := <[3 := zone_a]> (<[2 := zone_a]> {[1 := zone_a]}).

Lemma failure_recovery_witness :
  let '(kicked, assigned, t') := handle_zone_failure (players_in_zone three_in_a zone_a) two_zones zone_a three_in_a in
  length kicked = 1%nat /\ count_in_zone t' zone_b = 2 /\ (forall s, t' !! s <> Some zone_a) /\
  NoDup (kicked ++ assigned.*1).
Proof.
  pose proof (failure_recovery (players_in_zone three_in_a zone_a) two_zones zone_a three_in_a
    (rtc_invariant _ registry_ok _ _ step_ok two_zones_reachable (registry_new_ok 15)) (Permutation_refl _)) as H.
  assert (Hc : (length (handle_zone_failure (players_in_zone three_in_a zone_a) two_zones zone_a three_in_a).1.1 = 1)%nat /\
    count_in_zone (handle_zone_failure (players_in_zone three_in_a zone_a) two_zones zone_a three_in_a).2 zone_b = 2)
    by (split; vm_compute; reflexivity).
  destruct (handle_zone_failure _ _ _ _) as [[kicked assigned] t']. destruct H as (H1 & _ & H2 & _).
  destruct Hc as [Hk Hz]. split; [exact Hk|split; [exact Hz|split; [exact H1|exact H2]]].
Defined.

(** ** Draining *)

Lemma placed_all (players : list Z) zone :
  placed (map (fun s => (s, zone)) players) zone = Z.of_nat (length players).
Proof.
  unfold placed. f_equal. induction players as [|s players IH]; [done|].
  cbn. rewrite bool_decide_eq_true_2 by done. cbn. by rewrite IH.
Qed.

Lemma drain_loop_spec values zone fallback players moved t :
  find_least_loaded_zone_excluding values (Some zone) = Some fallback ->
  drain_loop values zone players moved t =
    (moved + Z.of_nat (length players), commit_batch (map (fun s => (s, fallback)) players) t).
Proof.
  intros Hf. revert moved t. induction players as [|s players IH]; intros moved t.
  - cbn. by rewrite Z.add_0_r.
  - cbn [drain_loop]. rewrite Hf, IH. f_equal. cbn [length]. lia.
Qed.

(** draining a zone moves every one of its players to one and the same zone,
    a least loaded other one by the counts of the last heartbeats; the
    capacity of that zone plays no part, and it ends with all of them on top
    of its own. *)
Theorem drain_moves_all_to_one values zone fallback t :
  find_least_loaded_zone_excluding values (Some zone) = Some fallback ->
  let '(moved, t') := drain_zone values zone t in
  moved = count_in_zone t zone /\
  (forall s, t' !! s = if decide (t !! s = Some zone) then Some fallback else t !! s) /\
  fallback <> zone /\
  (exists e, e ∈ values /\ zone_id e = fallback /\
     forall e', e' ∈ values -> zone_id e' <> zone -> player_count e <= player_count e') /\
  count_in_zone t' fallback = count_in_zone t fallback + count_in_zone t zone.
Proof.
  intros Hf. unfold drain_zone. rewrite (drain_loop_spec _ _ fallback) by done.
  destruct (players_in_zone_spec t zone) as [Hnd Hp].
  set (a := map (fun s => (s, fallback)) (players_in_zone t zone)).
  assert (Ha1 : a.*1 = players_in_zone t zone).
  { unfold a. rewrite <- list_fmap_compose. apply list_fmap_id. }
  assert (Hlen : Z.of_nat (length (players_in_zone t zone)) = count_in_zone t zone).
  { unfold players_in_zone, count_in_zone. by rewrite length_fmap. }
  assert (Hfb : exists e, e ∈ values /\ zone_id e = fallback /\ zone_id e <> zone /\
    forall e', e' ∈ values -> zone_id e' <> zone -> player_count e <= player_count e').
  { unfold find_least_loaded_zone_excluding in Hf.
    set (cand := List.filter _ values) in Hf.
    assert (Hcand : forall e, e ∈ cand <-> e ∈ values /\ zone_id e <> zone).
    { intros e. unfold cand. rewrite list_elem_of_In, filter_In, <- list_elem_of_In, negb_true_iff, bool_decide_eq_false.
      split; (intros [H1 H2]; split; [done|congruence]). }
    destruct (min_by _ cand) as [e|] eqn:E; [|done]. injection Hf as Hf. exists e.
    apply min_by_elem in E as Hin. apply Hcand in Hin as [H1 H2].
    split; [done|split; [done|split; [done|]]]. intros e' He' Hne. apply Z.compare_le_iff.
    apply (min_by_least _ cand e) with (y := e') in E; [exact E|..|by apply Hcand].
    - intros x. by rewrite Z.compare_refl.
    - intros x y Hxy. rewrite Z.compare_antisym, Hxy. done.
    - intros x y z. rewrite !Z.compare_le_iff. lia. }
  destruct Hfb as (e & He & Hid & Hne & Hmin).
  split; [by rewrite Z.add_0_l|split; [|split; [congruence|split; [by exists e|]]]].
  - intros s. destruct (decide (t !! s = Some zone)) as [Hs|Hs].
    + apply commit_batch_member; [by rewrite Ha1|]. apply list_elem_of_fmap. exists s.
      split; [done|by apply Hp].
    + apply commit_batch_other. rewrite Ha1. by rewrite Hp.
  - rewrite (count_commit a t zone); [|by rewrite Ha1|intros s; rewrite Ha1; by apply Hp|congruence].
    f_equal. rewrite <- Hlen. apply placed_all.
Qed.

(** Zone b may hold two players and receives three. *)
Lemma drain_moves_all_to_one_witness :
  let '(moved, t') := drain_zone (map_to_list (zones two_zones)).*2 zone_a three_in_a in
  moved = 3 /\ count_in_zone t' zone_b = 3 /\ max_players <$> zones two_zones !! zone_b = Some 2.
Proof.
  assert (Hf : find_least_loaded_zone_excluding (map_to_list (zones two_zones)).*2 (Some zone_a) = Some zone_b)
    by (vm_compute; reflexivity).
  pose proof (drain_moves_all_to_one (map_to_list (zones two_zones)).*2 zone_a zone_b three_in_a Hf) as H.
  destruct (drain_zone _ _ _) as [moved t']. destruct H as (H1 & _ & _ & _ & H2).
  split; [rewrite H1; vm_compute; reflexivity|split; [rewrite H2; vm_compute; reflexivity|vm_compute; reflexivity]].
Defined.
