(* ===== verification/Handoff.v ===== *)
(** * Handing a player over to another zone

    - src/crates/baston-zone/src/boundary_detector.rs: who is about to cross;
    - src/crates/baston-zone/src/handoff_manager.rs: the origin's bookkeeping,
      a state machine per player. The calls that await the gateway are given
      in two parts, before and after the await, so that whatever runs in
      between is explicit;
    - src/crates/baston-zone/src/mesh.rs: the ghosts of the target zone;
    - src/crates/baston-gateway/src/mesh.rs: the gateway's two handoff calls;
    - src/crates/baston-zone/src/boundary_loop.rs: the scan and the crossing
      sequence, and the migration of entities that no player carries.

    A remote call is answered, or not delivered, or executed with its reply
    lost; an error status and a timeout look the same to the caller. Instants
    and durations are counts of nanoseconds. *)

From S2P Require Import Prelude F32 EntityStore ZoneIngest QuadTree ZoneRegistry.
Import EntityManager.

(** ** Boundary detection (boundary_detector.rs) *)

Definition MIN_APPROACH_SPEED : f32 := f32_half.

Inductive BoundaryDirection := West | East | South | North.

Record HandoffCandidate := {
  hc_player_id : Z; estimated_crossing_ms : Z; target_direction : BoundaryDirection;
  predicted_coords : f32 * f32; distance_to_edge_ : f32
}.

Record BoundaryDetector := { bd_bounds : Aabb; boundary_margin : f32 }.

Definition distance_to_boundary (d : BoundaryDetector) (at_ : vec3) : f32 :=
  let '(x, y, _) := at_ in distance_to_edge (bd_bounds d) x y.

(** The edges in the order of the array: distance, direction, outward speed. *)
Definition edges (b : Aabb) (x y : f32) (vel : vec3) : list (f32 * BoundaryDirection * f32) :=
  let '(vx, vy, _) := vel in
  [(f32_sub x (x_min b), West, f32_neg vx); (f32_sub (x_max b) x, East, vx);
   (f32_sub y (y_min b), South, f32_neg vy); (f32_sub (y_max b) y, North, vy)].

(** [as u64] of a float. *)
Definition f32_as_u64 : f32 -> Z := f32_to_Z 0 (2 ^ 64 - 1).

Definition check_player (d : BoundaryDetector) (player_id : Z) (at_ vel : vec3) : option HandoffCandidate :=
  let '(x, y, _) := at_ in
  let '(vx, vy, _) := vel in
  if f32_ge (distance_to_boundary d at_) (boundary_margin d) then None
  else match min_by (fun a b => partial_cmp_or_equal a.1.1 b.1.1) (edges (bd_bounds d) x y vel) with
       | None => None
       | Some (edge_dist, direction, outward_speed) =>
           if f32_lt outward_speed MIN_APPROACH_SPEED then None
           else
             let eta_secs := f32_div (f32_max edge_dist f32_zero) outward_speed in
             let overshoot := f32_add eta_secs f32_one in
             Some {| hc_player_id := player_id;
                     estimated_crossing_ms := f32_as_u64 (f32_mul eta_secs (f32_of_Z 1000));
                     target_direction := direction;
                     predicted_coords := (f32_add x (f32_mul vx overshoot), f32_add y (f32_mul vy overshoot));
                     distance_to_edge_ := edge_dist |}
       end.

(** ** The handoff manager (handoff_manager.rs) *)

Definition PREPARE_TIMEOUT : Z := 2 * 10 ^ 9.

Inductive HandoffState :=
| PreparationRequested (target_zone : ZoneId) (requested_at : Z)
| ReadyToTransfer (target_zone : ZoneId) (target_grpc : list Z)
| Transferring.

Record HandoffManager := {
  pending_handoffs : gmap Z HandoffState;
  cooldowns : gmap Z Z;
  cooldown : Z
}.

#[export] Instance HandoffManager_rebuild : Rebuild HandoffManager := fun r =>
  {| pending_handoffs := pending_handoffs r; cooldowns := cooldowns r; cooldown := cooldown r |}.

Definition manager_new (cooldown_secs : Z) : HandoffManager :=
  {| pending_handoffs := ∅; cooldowns := ∅; cooldown := cooldown_secs * 10 ^ 9 |}.

Definition state_of (m : HandoffManager) (player : Z) : option HandoffState := pending_handoffs m !! player.

(** [Instant::elapsed] saturates at zero. *)
Definition elapsed (now since : Z) : Z := Z.max 0 (now - since).

Definition in_cooldown (now : Z) (m : HandoffManager) (player : Z) : bool :=
  match cooldowns m !! player with Some t => elapsed now t <? cooldown m | None => false end.

Definition set_pending (player : Z) (s : HandoffState) (m : HandoffManager) : HandoffManager :=
  m <| pending_handoffs := <[player := s]> (pending_handoffs m) |>.

Definition cancel (now player : Z) (m : HandoffManager) : HandoffManager :=
  match pending_handoffs m !! player with
  | Some _ => {| pending_handoffs := delete player (pending_handoffs m);
                 cooldowns := <[player := now]> (cooldowns m); cooldown := cooldown m |}
  | None => m
  end.

(** [request_handoff] up to the call of the gateway; [None] when it returns. *)
Definition begin_request (now player : Z) (m : HandoffManager) : option HandoffManager :=
  if is_some (pending_handoffs m !! player) || in_cooldown now m player then None
  else Some (set_pending player (PreparationRequested [] now) m).

(** What comes back: a response, an error status, or nothing in time. *)
Inductive PrepareReply := PrepareAnswer (ready : bool) (target_zone : ZoneId) (grpc : list Z) | PrepareFailed.

Definition finish_request (now player : Z) (reply : PrepareReply) (m : HandoffManager)
    : option ZoneId * HandoffManager :=
  match reply with
  | PrepareAnswer true target grpc => (Some target, set_pending player (ReadyToTransfer target grpc) m)
  | _ => (None, cancel now player m)
  end.

(** [confirm_crossing] up to the call of the gateway. *)
Definition begin_confirm (player : Z) (m : HandoffManager) : option (ZoneId * list Z) * HandoffManager :=
  match state_of m player with
  | Some (ReadyToTransfer target grpc) => (Some (target, grpc), set_pending player Transferring m)
  | _ => (None, m)
  end.

(** [reply]: the response's [ok], or nothing. *)
Definition finish_confirm (now player : Z) (target : ZoneId * list Z) (reply : option bool) (m : HandoffManager)
    : option (ZoneId * list Z) * HandoffManager :=
  match reply with
  | Some true =>
      (Some target, {| pending_handoffs := delete player (pending_handoffs m);
                       cooldowns := <[player := now]> (cooldowns m); cooldown := cooldown m |})
  | _ => (None, cancel now player m)
  end.

Definition forget (player : Z) (m : HandoffManager) : HandoffManager :=
  {| pending_handoffs := delete player (pending_handoffs m);
     cooldowns := delete player (cooldowns m); cooldown := cooldown m |}.

Definition still_pending (now : Z) (s : HandoffState) : bool :=
  match s with
  | PreparationRequested _ requested_at => elapsed now requested_at <? PREPARE_TIMEOUT * 2
  | _ => true
  end.

Definition prune_expired (now : Z) (m : HandoffManager) : HandoffManager :=
  {| cooldowns := filter (fun kv => (elapsed now kv.2 <? cooldown m) = true) (cooldowns m);
     pending_handoffs := filter (fun kv => still_pending now kv.2 = true) (pending_handoffs m);
     cooldown := cooldown m |}.

(** ** The ghosts of a zone (zone mesh.rs) *)

Inductive GhostState := Pending (snapshot : PlayerStateSnapshot) (created_at : Z) | Active.

(** What of a zone takes part in a handoff. *)
Record Zone := {
  z_id : ZoneId; z_bounds : Aabb; ghosts : gmap Z GhostState; ingest : StateIngest; handoffs : HandoffManager
}.

#[export] Instance Zone_rebuild : Rebuild Zone := fun r =>
  {| z_id := z_id r; z_bounds := z_bounds r; ghosts := ghosts r; ingest := ingest r; handoffs := handoffs r |}.

(** [None]: refused as an invalid argument. [decoded] is the snapshot the
    bytes of the request hold, if they hold one. *)
Definition prepare_for_player (now player : Z) (decoded : option PlayerStateSnapshot) (z : Zone)
    : option bool * Zone :=
  match decoded with
  | None => (None, z)
  | Some snapshot =>
      if source_id snapshot =? player
      then (Some true, z <| ghosts := <[player := Pending snapshot now]> (ghosts z) |>)
      else (None, z)
  end.

(** The activation hook restores the player's state
    (src/crates/baston-zone/src/bin/baston-zone.rs); a ghost that was already
    active is dropped. *)
Definition activate_player (now player : Z) (z : Zone) : bool * Zone :=
  match ghosts z !! player with
  | None => (false, z)
  | Some Active => (false, z <| ghosts := delete player (ghosts z) |>)
  | Some (Pending snapshot _) =>
      (true, (z <| ingest := (restore_player_state now snapshot (ingest z)).2 |>)
               <| ghosts := <[player := Active]> (ghosts z) |>)
  end.

Definition release_player (player : Z) (z : Zone) : Zone :=
  ((z <| ghosts := delete player (ghosts z) |>)
     <| handoffs := forget player (handoffs z) |>)
     <| ingest := release_player_state player (ingest z) |>.

Definition expire_stale_ghosts (now max_age : Z) (z : Zone) : Zone :=
  z <| ghosts := filter (fun kv => match kv.2 with
                                   | Pending _ created_at => elapsed now created_at <=? max_age
                                   | Active => true
                                   end = true) (ghosts z) |>.

(** ** The gateway's handoff calls (gateway mesh.rs) *)

Record Gateway := { registry : ZoneRegistry; routes : Router }.

(** The zone a preparation is addressed to: named, or by coordinates. *)
Definition prepare_target (g : Gateway) (from_zone target_zone : ZoneId) (predicted : f32 * f32) : option ZoneId :=
  match target_zone with
  | [] => match find_zone_for_coords (registry g) predicted.1 predicted.2 with
          | Some z => if bool_decide (z = from_zone) then None else Some z
          | None => None
          end
  | _ => if contains_zone (registry g) target_zone then Some target_zone else None
  end.

(** The answer to the origin; [zone_reply] is what the target zone said to
    [PrepareForPlayer], if it answered. *)
Definition gw_prepare_handoff (g : Gateway) (from_zone target_zone : ZoneId) (predicted : f32 * f32)
    (zone_reply : ZoneId -> option bool) : bool * ZoneId * list Z :=
  match prepare_target g from_zone target_zone predicted with
  | None => (false, [], [])
  | Some target =>
      let grpc := default [] (zone_grpc_addr (registry g) target) in
      match zones (registry g) !! target with
      | None => (false, target, [])
      | Some _ =>
          match zone_reply target with
          | Some ready => (ready, target, grpc)
          | None => (false, target, [])
          end
      end
  end.

(** The commit; the hook that holds the player's updates for 50 ms follows it. *)
Definition gw_confirm_handoff (player : Z) (to_zone : ZoneId) (g : Gateway) : bool * Gateway :=
  if negb (contains_zone (registry g) to_zone) then (false, g)
  else (true, {| registry := registry g; routes := (commit_handoff player to_zone (routes g)).2 |}).

(** ** The scan (boundary_loop.rs) *)

Inductive ScanDecision := Prepare (predicted : f32 * f32) | Complete | CancelHandoff | LeaveAlone.

(** What one player's kinematics and handoff state call for. *)
Definition scan_decision (z : Zone) (d : BoundaryDetector) (player : Z) (at_ vel : vec3) : ScanDecision :=
  let '(x, y, _) := at_ in
  let candidate := check_player d player at_ vel in
  let crossed := negb (contains (z_bounds z) x y) in
  match state_of (handoffs z) player with
  | None => match candidate with Some c => Prepare (predicted_coords c) | None => LeaveAlone end
  | Some (ReadyToTransfer _ _) =>
      if crossed then Complete
      else match candidate with None => CancelHandoff | Some _ => LeaveAlone end
  | Some (PreparationRequested _ _) | Some Transferring => LeaveAlone
  end.

(** ** A crossing (boundary_loop.rs)

    [fate] is what the network does to one call. *)

Inductive Fate := Answered | NotDelivered | ReplyLost.

Definition remote {S R : Type} (fate : Fate) (handler : S -> R * S) (s : S) : option R * S :=
  match fate with
  | Answered => let '(r, s') := handler s in (Some r, s')
  | NotDelivered => (None, s)
  | ReplyLost => (None, (handler s).2)
  end.

Record Fates := { on_confirm : Fate; on_activate : Fate; on_rollback : Fate }.

(** [rollback_crossing]: commit the route back to the origin. *)
Definition rollback_crossing (fate : Fate) (player : Z) (origin_id : ZoneId) (g : Gateway) : bool * Gateway :=
  let '(reply, g') := remote fate (gw_confirm_handoff player origin_id) g in
  (default false reply, g').

(** [complete_handoff] in the origin [a], for a player whose target is the zone [b]. *)
Definition complete_handoff (now player : Z) (f : Fates) (a b : Zone) (g : Gateway) : Zone * Zone * Gateway :=
  let '(target, m1) := begin_confirm player (handoffs a) in
  let a1 := a <| handoffs := m1 |> in
  match target with
  | None => (a1, b, g)
  | Some (to_zone, grpc) =>
      let '(reply, g1) := remote (on_confirm f) (gw_confirm_handoff player to_zone) g in
      let '(confirmed, m2) := finish_confirm now player (to_zone, grpc) reply m1 in
      let a2 := a <| handoffs := m2 |> in
      match confirmed with
      | None => (a2, b, g1)
      | Some _ =>
          let '(activated, b1) := remote (on_activate f) (activate_player now player) b in
          match activated with
          | Some true => (a2 <| ingest := release_player_state player (ingest a2) |>, b1, g1)
          | _ => let '(_, g2) := rollback_crossing (on_rollback f) player (z_id a) g1 in (a2, b1, g2)
          end
      end
  end.

(** ** Entities no player carries (boundary_loop.rs) *)

Definition ZONE_RESOLVE_CELL_M : f32 := f32_of_Z 64.

Definition resolution_cell (at_ : vec3) : Z * Z :=
  let '(x, y, _) := at_ in
  (f32_as_i32 (f32_floor (f32_div x ZONE_RESOLVE_CELL_M)), f32_as_i32 (f32_floor (f32_div y ZONE_RESOLVE_CELL_M))).

Definition resolution_cell_centre (cell : Z * Z) : f32 * f32 :=
  (f32_mul (f32_add (f32_of_Z cell.1) f32_half) ZONE_RESOLVE_CELL_M,
   f32_mul (f32_add (f32_of_Z cell.2) f32_half) ZONE_RESOLVE_CELL_M).

(** Who leaves: not a player, out of bounds, not owned by a player that is here. *)
Definition departs (z : Zone) (e : EntityState) : bool :=
  let '(x, y, _) := coords e in
  negb (is_player_type e) && negb (contains (z_bounds z) x y) &&
  negb (match network_owner e with
        | Some o => bool_decide (o ∈ ((player_kinematics (ingest z)).*1).*1)
        | None => false
        end).

(** The zone of an entity's cell, as the gateway answers for its centre;
    [resolved] is false when the lookup of the cell fails. *)
Definition zone_of_entity (g : Gateway) (resolved : Z * Z -> bool) (e : EntityState) : option ZoneId :=
  let cell := resolution_cell (coords e) in
  if resolved cell then
    let '(x, y) := resolution_cell_centre cell in find_zone_for_coords (registry g) x y
  else None.

(** What is published for one departed entity, and to whom. *)
Definition migration (z : Zone) (g : Gateway) (resolved : Z * Z -> bool) (e : EntityState)
    : option (ZoneId * EntityState) :=
  match zone_of_entity g resolved e with
  | Some target => if bool_decide (target = z_id z) then None else Some (target, give_owner None e)
  | None => None
  end.

(** The scan: [published] tells for which entities the publication succeeds;
    those are removed. *)
Definition scan_entities (g : Gateway) (resolved : Z * Z -> bool) (published : EntityId -> bool) (z : Zone)
    : list (ZoneId * EntityState) * Zone :=
  let departed := snapshot_filtered (manager (ingest z)) (departs z) in
  let sent := omap (fun e => match migration z g resolved e with
                             | Some p => if published (entity_id e) then Some p else None
                             | None => None
                             end) departed in
  (sent, z <| ingest := (ingest z) <| manager :=
     foldl (fun em p => (remove_entity (entity_id p.2) em).2) (manager (ingest z)) sent |> |>).

(** The consumer in the target zone. *)
Definition receive_entity (e : EntityState) (z : Zone) : Zone :=
  z <| ingest := (ingest z) <| manager := spawn_entity e (manager (ingest z)) |> |>.

(** ** Runs of the manager

    The calls of one manager in any order and at any times, several handoffs
    interleaved: requests and confirmations finish whenever their reply
    arrives. *)

Inductive ManagerCall :=
| CallRequest (player : Z)
| ReplyRequest (player : Z) (reply : PrepareReply)
| CallConfirm (player : Z)
| ReplyConfirm (player : Z) (target : ZoneId * list Z) (reply : option bool)
| CallCancel (player : Z)
| CallForget (player : Z)
| CallPrune.

Definition manager_call (now : Z) (c : ManagerCall) (m : HandoffManager) : HandoffManager :=
  match c with
  | CallRequest p => default m (begin_request now p m)
  | ReplyRequest p reply => (finish_request now p reply m).2
  | CallConfirm p => (begin_confirm p m).2
  | ReplyConfirm p target reply => (finish_confirm now p target reply m).2
  | CallCancel p => cancel now p m
  | CallForget p => forget p m
  | CallPrune => prune_expired now m
  end.

Definition manager_run (m : HandoffManager) (calls : list (Z * ManagerCall)) : HandoffManager :=
  foldl (fun m c => manager_call c.1 c.2 m) m calls.

(** The call ends a handoff of the player: confirmed or cancelled. *)
Definition ends_handoff (player : Z) (c : ManagerCall) (m : HandoffManager) : bool :=
  let pending := is_some (pending_handoffs m !! player) in
  match c with
  | ReplyConfirm p _ (Some true) => p =? player
  | ReplyRequest p (PrepareAnswer true _ _) => false
  | ReplyRequest p _ | ReplyConfirm p _ _ | CallCancel p => (p =? player) && pending
  | _ => false
  end.

Definition forgets (player : Z) (c : ManagerCall) : bool :=
  match c with CallForget p => p =? player | _ => false end.

(** Since [t1], either the cooldown is recorded or it is over. *)
Definition cooling (player t1 now : Z) (m : HandoffManager) : Prop :=
  (exists t, cooldowns m !! player = Some t /\ t1 <= t) \/ cooldown m <= now - t1.

Lemma cancel_cooldowns now p m player :
  cooldowns (cancel now p m) !! player =
    if (p =? player) && is_some (pending_handoffs m !! p) then Some now else cooldowns m !! player.
Proof.
  unfold cancel. destruct (pending_handoffs m !! p); cbn [is_some cooldowns].
  - destruct (Z.eqb_spec p player) as [->|H]; [apply lookup_insert_eq|by apply lookup_insert_ne].
  - by rewrite andb_false_r.
Qed.

Lemma cancel_cooldown now p m : cooldown (cancel now p m) = cooldown m.
Proof. unfold cancel. by destruct (pending_handoffs m !! p). Qed.

Lemma begin_request_some now p m m' :
  begin_request now p m = Some m' ->
  m' = set_pending p (PreparationRequested [] now) m /\ pending_handoffs m !! p = None /\ in_cooldown now m p = false.
Proof.
  unfold begin_request. destruct (pending_handoffs m !! p); [done|]. cbn [is_some orb].
  destruct (in_cooldown now m p); [done|]. by intros [= <-].
Qed.

Lemma call_cooldown now c m : cooldown (manager_call now c m) = cooldown m.
Proof.
  destruct c as [p|p [[] z gr|]|p|p tg [[]|]|p|p|]; cbn [manager_call finish_request finish_confirm snd];
    rewrite ?cancel_cooldown; try done.
  - destruct (begin_request now p m) as [m'|] eqn:E; [|done].
    by apply begin_request_some in E as [-> _].
  - unfold begin_confirm. by destruct (state_of m p) as [[]|].
Qed.

(** Only an end of a handoff, a [forget] and a prune touch the cooldowns. *)
Lemma call_cooldowns now c m player :
  cooldowns (manager_call now c m) !! player = cooldowns m !! player \/
  cooldowns (manager_call now c m) !! player = Some now \/
  forgets player c = true \/
  (c = CallPrune /\ cooldowns (manager_call now c m) !! player = None /\
   forall t, cooldowns m !! player = Some t -> cooldown m <= elapsed now t).
Proof.
  destruct c as [p|p [[] z gr|]|p|p tg [[]|]|p|p|]; cbn [manager_call finish_request finish_confirm snd];
    rewrite ?cancel_cooldowns; try (destruct (_ && _); [by right; left|by left]); try by left.
  - destruct (begin_request now p m) as [m'|] eqn:E; [|by left].
    apply begin_request_some in E as [-> _]. by left.
  - unfold begin_confirm. destruct (state_of m p) as [[]|]; by left.
  - cbn [cooldowns]. destruct (decide (p = player)) as [->|H];
      [right; left; apply lookup_insert_eq|left; by apply lookup_insert_ne].
  - cbn [forget cooldowns]. destruct (Z.eqb_spec p player) as [->|H];
      [right; right; left; by apply Z.eqb_refl|left; by apply lookup_delete_ne].
  - cbn [prune_expired cooldowns]. rewrite map_lookup_filter.
    destruct (cooldowns m !! player) as [t|] eqn:E; cbn [mbind option_bind]; [|by left].
    destruct (elapsed now t <? cooldown m) eqn:F.
    + left. by rewrite option_guard_True.
    + right; right; right. split; [done|]. rewrite option_guard_False by (cbn; congruence).
      split; [done|]. intros t' [= <-]. by apply Z.ltb_ge.
Qed.

Lemma call_cooling player t1 now0 now c m :
  t1 <= now0 <= now -> forgets player c = false -> cooling player t1 now0 m ->
  cooling player t1 now (manager_call now c m).
Proof.
  intros Ht Hf [(t & Hc & Hle)|Hover].
  - destruct (call_cooldowns now c m player) as [H|[H|[H|(-> & H & Hel)]]].
    + left. exists t. by rewrite H.
    + left. exists now. split; [done|lia].
    + congruence.
    + right. rewrite call_cooldown. specialize (Hel t Hc). unfold elapsed in Hel. lia.
  - right. rewrite call_cooldown. lia.
Qed.

Lemma ends_cooling player now c m : ends_handoff player c m = true -> cooling player now now (manager_call now c m).
Proof.
  intros H. left. exists now. split; [|lia]. revert H.
  destruct c as [p|p [[] z gr|]|p|p tg [[]|]|p|p|]; cbn [ends_handoff manager_call finish_request finish_confirm snd];
    try done.
  all: try (intros [Hp Hpend]%andb_true_iff; apply Z.eqb_eq in Hp as ->; rewrite cancel_cooldowns, Z.eqb_refl, Hpend; done).
  intros ->%Z.eqb_eq. apply lookup_insert_eq.
Qed.

(** The times of the calls never go back. *)
Fixpoint ordered (from : Z) (calls : list (Z * ManagerCall)) : Prop :=
  match calls with
  | [] => True
  | (t, _) :: rest => from <= t /\ ordered t rest
  end.

Definition last_time (from : Z) (calls : list (Z * ManagerCall)) : Z := foldl (fun _ c => c.1) from calls.

Lemma run_cooling player t1 from calls m :
  t1 <= from -> ordered from calls -> existsb (fun c => forgets player c.2) calls = false ->
  cooling player t1 from m ->
  cooling player t1 (last_time from calls) (manager_run m calls) /\ from <= last_time from calls /\
  cooldown (manager_run m calls) = cooldown m.
Proof.
  revert from m. induction calls as [|[t c] calls IH]; intros from m Ht Ho Hf Hc; [done|].
  destruct Ho as [Hle Ho]. cbn in Hf. apply orb_false_iff in Hf as [Hf Hfs].
  destruct (IH t (manager_call t c m)) as (H1 & H2 & H3); [lia|done|done| |].
  - by apply (call_cooling player t1 from).
  - unfold last_time, manager_run in *. cbn [foldl fst snd]. split; [done|split; [lia|]].
    by rewrite H3, call_cooldown.
Qed.

(** no ping-pong: once a handoff of a player has ended, confirmed or
    cancelled, no new one is begun before the cooldown is over, whatever
    the manager is called with in between, for this and other players, as
    long as the player is not forgotten. *)
Theorem cooldown_respected player m t1 c1 calls t2 m' :
  ends_handoff player c1 m = true ->
  ordered t1 (calls ++ [(t2, CallRequest player)]) ->
  existsb (fun c => forgets player c.2) calls = false ->
  begin_request t2 player (manager_run (manager_call t1 c1 m) calls) = Some m' ->
  cooldown m <= t2 - t1.
Proof.
  intros He Ho Hf Hb.
  assert (Hsplit : forall from cs, ordered from (cs ++ [(t2, CallRequest player)]) ->
    ordered from cs /\ last_time from cs <= t2).
  { intros from cs. revert from. induction cs as [|[t c] cs IH]; intros from; cbn; [tauto|].
    intros [H1 H2]. apply IH in H2 as [H2 H3]. done. }
  apply Hsplit in Ho as [Ho Hlast].
  destruct (run_cooling player t1 t1 calls (manager_call t1 c1 m)) as (Hc & Hle & Hcd);
    [lia|done|done|by apply ends_cooling|].
  rewrite call_cooldown in Hcd. apply begin_request_some in Hb as (_ & _ & Hcool).
  destruct Hc as [(t & Ht & Hge)|Hover]; [|rewrite Hcd in Hover; lia].
  unfold in_cooldown in Hcool. rewrite Ht in Hcool. apply Z.ltb_ge in Hcool. rewrite Hcd in Hcool.
  unfold elapsed in Hcool. lia.
Qed.

Definition sec (n : Z) : Z := n * 10 ^ 9.

(** Ten seconds of cooldown: cancelled at 1, refused at 10, begun again at 11. *)
Definition asked : HandoffManager := manager_run (manager_new 10) [(0, CallRequest 7)].

Lemma cooldown_respected_witness :
  let run := manager_run (manager_call (sec 1) (CallCancel 7) asked) [(sec 2, CallPrune); (sec 3, CallRequest 8)] in
  begin_request (sec 10) 7 run = None /\ is_some (begin_request (sec 11) 7 run) = true /\
  cooldown asked <= sec 11 - sec 1.
Proof.
  split; [vm_compute; reflexivity|split; [vm_compute; reflexivity|]].
  apply (cooldown_respected 7 asked (sec 1) (CallCancel 7) [(sec 2, CallPrune); (sec 3, CallRequest 8)] (sec 11)
    (set_pending 7 (PreparationRequested [] (sec 11))
      (manager_run (manager_call (sec 1) (CallCancel 7) asked) [(sec 2, CallPrune); (sec 3, CallRequest 8)])));
    vm_compute; try reflexivity. repeat split; discriminate.
Defined.

(** ** Bookkeeping that nothing clears *)

Definition concerns (player : Z) (c : ManagerCall) : bool :=
  match c with
  | CallRequest p | ReplyRequest p _ | CallConfirm p | ReplyConfirm p _ _ | CallCancel p | CallForget p => p =? player
  | CallPrune => false
  end.

Lemma cancel_pending_other now p player m :
  p <> player -> pending_handoffs (cancel now p m) !! player = pending_handoffs m !! player.
Proof. intros H. unfold cancel. destruct (pending_handoffs m !! p); [by apply lookup_delete_ne|done]. Qed.

(** A handoff that is ready stays ready until a call about its player. *)
Lemma ready_stays now c m player z gr :
  concerns player c = false -> pending_handoffs m !! player = Some (ReadyToTransfer z gr) ->
  pending_handoffs (manager_call now c m) !! player = Some (ReadyToTransfer z gr).
Proof.
  intros Hc Hm.
  destruct c as [p|p [[] z' gr'|]|p|p tg [[]|]|p|p|]; cbn [concerns] in Hc; try apply Z.eqb_neq in Hc;
    cbn [manager_call finish_request finish_confirm snd]; rewrite ?cancel_pending_other by done; try done.
  - destruct (begin_request now p m) as [m'|] eqn:E; [|done]. apply begin_request_some in E as [-> _].
    cbn [default from_option id]. exact (eq_trans (lookup_insert_ne _ _ _ _ Hc) Hm).
  - exact (eq_trans (lookup_insert_ne _ _ _ _ Hc) Hm).
  - unfold begin_confirm. destruct (state_of m p) as [[]|]; try done.
    exact (eq_trans (lookup_insert_ne _ _ _ _ Hc) Hm).
  - cbn [pending_handoffs]. by rewrite lookup_delete_ne.
  - cbn [forget pending_handoffs]. by rewrite lookup_delete_ne.
  - cbn [prune_expired pending_handoffs]. rewrite map_lookup_filter, Hm. done.
Qed.

(** a player that leaves while its handoff is being prepared leaves an entry
    behind: the reply, arriving after the release has forgotten the player,
    records a ready handoff for it, which no sweep removes and, since the
    scan only looks at players that are here, no other call ever concerns. *)
Theorem late_reply_leaks player t0 m m1 t1 z gr calls :
  begin_request t0 player m = Some m1 ->
  existsb (fun c => concerns player c.2) calls = false ->
  let m2 := manager_run m1 [(t1, CallForget player); (t1, ReplyRequest player (PrepareAnswer true z gr))] in
  state_of (manager_run m2 calls) player = Some (ReadyToTransfer z gr).
Proof.
  intros _ Hc m2. assert (H2 : pending_handoffs m2 !! player = Some (ReadyToTransfer z gr))
    by exact (lookup_insert_eq _ _ _).
  clearbody m2. unfold state_of, manager_run. revert m2 H2. induction calls as [|[t c] calls IH]; intros m2 H2; [done|].
  cbn in Hc. apply orb_false_iff in Hc as [H Hc]. cbn [foldl fst snd]. apply (IH Hc). by apply ready_stays.
Qed.

Lemma late_reply_leaks_witness :
  let m2 := manager_run asked [(sec 1, CallForget 7); (sec 1, ReplyRequest 7 (PrepareAnswer true zone_b [50]))] in
  state_of (manager_run m2 [(sec 100, CallPrune); (sec 100000, CallPrune)]) 7 = Some (ReadyToTransfer zone_b [50]).
Proof.
  apply (late_reply_leaks 7 0 (manager_new 10) asked (sec 1) zone_b [50]); vm_compute; reflexivity.
Defined.

(** a player that stands still is no candidate wherever it is, and the scan
    does nothing for a player without a handoff that is no candidate: one
    that arrives outside its zone's bounds and stays there is never handed
    over. *)
Theorem still_player_is_left z d player at_ vz :
  state_of (handoffs z) player = None ->
  scan_decision z d player at_ (f32_zero, f32_zero, vz) = LeaveAlone.
Proof.
  intros Hs. destruct at_ as [[x y] h]. unfold scan_decision. rewrite Hs.
  assert (Hn : check_player d player (x, y, h) (f32_zero, f32_zero, vz) = None); [|by rewrite Hn].
  unfold check_player. destruct (f32_ge _ _); [done|].
  destruct (min_by _ _) as [[[ed dir] speed]|] eqn:E; [|done]. apply min_by_elem in E.
  assert (Hl : f32_lt speed MIN_APPROACH_SPEED = true); [|by rewrite Hl].
  unfold edges in E. rewrite !elem_of_cons, elem_of_nil in E.
  by destruct E as [[= -> -> ->]|[[= -> -> ->]|[[= -> -> ->]|[[= -> -> ->]|[]]]]].
Qed.

Definition zone_west : Zone :=
  {| z_id := zone_a; z_bounds := box (-4000) (-4000) 0 4000; ghosts := ∅; ingest := driving; handoffs := manager_new 10 |}.

Definition west_detector : BoundaryDetector := {| bd_bounds := z_bounds zone_west; boundary_margin := f32_of_Z 300 |}.

(** 50 m past the edge. *)
Lemma still_player_is_left_witness :
  contains (z_bounds zone_west) (f32_of_Z 50) f32_zero = false /\
  scan_decision zone_west west_detector 1 (f32_of_Z 50, f32_zero, f32_zero) (f32_zero, f32_zero, f32_zero) = LeaveAlone.
Proof. split; [reflexivity|]. by apply still_player_is_left. Defined.

(** The cases of the source's own tests. *)
Example far_no_handoff : check_player west_detector 1 (f32_of_Z (-350), f32_zero, f32_of_Z 30) (f32_of_Z 10, f32_zero, f32_zero) = None.
Proof. vm_compute. reflexivity. Qed.
Example approaching_east :
  (fun c => (target_direction c, estimated_crossing_ms c, f32_gt (predicted_coords c).1 f32_zero)) <$>
    check_player west_detector 1 (f32_of_Z (-250), f32_zero, f32_of_Z 30) (S754_finite false 13107200 (-20), f32_zero, f32_zero)
  = Some (East, 20000, true).
Proof. vm_compute. reflexivity. Qed.

(** ** Where a player lives after a crossing *)

Definition lives (player : Z) (z : Zone) : Prop := player_entities (ingest z) !! player <> None.

(** The origin [a] has prepared [player] for [b]: the handoff is ready, and
    the player lives in [a] and is routed there. A ghost [b] still holds for it
    was made from the player's snapshot. *)
Record prepared (player : Z) (a b : Zone) (g : Gateway) : Prop := {
  pr_ready : exists gr, state_of (handoffs a) player = Some (ReadyToTransfer (z_id b) gr);
  pr_ghost : forall snap t, ghosts b !! player = Some (Pending snap t) ->
               source_id snap = player /\ s_player_entity snap <> None;
  pr_lives : lives player a;
  pr_away : ~ lives player b;
  pr_route : routes g !! player = Some (z_id a);
  pr_registered : contains_zone (registry g) (z_id a) = true
}.

(** The ghost has not been pruned or activated since. *)
Definition ghost_held (player : Z) (b : Zone) : bool :=
  match ghosts b !! player with Some (Pending _ _) => true | _ => false end.

Definition home (player : Z) (z other : Zone) (g : Gateway) : Prop :=
  lives player z /\ ~ lives player other /\ routes g !! player = Some (z_id z).

Lemma released_not_lives player st : player_entities (release_player_state player st) !! player = None.
Proof. by rewrite player_entities_release, decide_True. Qed.

(** The target's answer to an activation. *)
Lemma activate_spec now player b :
  (forall snap t, ghosts b !! player = Some (Pending snap t) -> source_id snap = player /\ s_player_entity snap <> None) ->
  ~ lives player b ->
  let '(ok, b') := activate_player now player b in
  ok = ghost_held player b /\ z_id b' = z_id b /\ (if ok then lives player b' else ~ lives player b').
Proof.
  intros Hg Hn. unfold activate_player, ghost_held. destruct (ghosts b !! player) as [[snap t|]|] eqn:E; [|done..].
  destruct (Hg snap t eq_refl) as [Hs Hp]. split; [done|split; [done|]].
  unfold lives. change (ingest (_ <| ghosts := _ |>)) with (restore_player_state now snap (ingest b)).2.
  unfold restore_player_state. destruct (s_player_entity snap) as [ped|]; [|done]. rewrite Hs. cbn [snd].
  assert (H : forall (m : gmap Z EntityId) i, <[player := i]> m !! player <> None) by (intros; by rewrite lookup_insert_eq).
  apply H.
Qed.

(** The gateway's answer to a commit. *)
Lemma confirm_spec player to g :
  let '(ok, g') := gw_confirm_handoff player to g in
  ok = contains_zone (registry g) to /\ registry g' = registry g /\
  routes g' !! player = (if ok then Some to else routes g !! player).
Proof.
  unfold gw_confirm_handoff. destruct (contains_zone (registry g) to); cbn [negb]; [|done].
  split; [done|split; [done|]]. apply lookup_insert_eq.
Qed.

Lemma complete_handoff_spec now player f a b g gr :
  state_of (handoffs a) player = Some (ReadyToTransfer (z_id b) gr) ->
  exists ma mc, complete_handoff now player f a b g =
    let '(reply, g1) := remote (on_confirm f) (gw_confirm_handoff player (z_id b)) g in
    match reply with
    | Some true =>
        let '(activated, b1) := remote (on_activate f) (activate_player now player) b in
        match activated with
        | Some true => (a <| handoffs := mc |> <| ingest := release_player_state player (ingest a) |>, b1, g1)
        | _ => (a <| handoffs := mc |>, b1, (rollback_crossing (on_rollback f) player (z_id a) g1).2)
        end
    | _ => (a <| handoffs := ma |>, b, g1)
    end.
Proof.
  intros Hs. unfold complete_handoff, begin_confirm. rewrite Hs.
  eexists _, _. destruct (remote (on_confirm f) _ g) as [[[]|] g1]; cbn [finish_confirm]; try reflexivity.
  destruct (remote (on_activate f) _ b) as [[[]|] b1]; try reflexivity;
    by destruct (rollback_crossing _ _ _ _).
Qed.

(** Where a crossing leaves the player: lives in the origin, lives in the
    target, routed to the target. [known]: the gateway knows the target;
    [held]: the target holds the ghost. *)
Definition outcome (known held : bool) (f : Fates) : bool * bool * bool :=
  let stuck := match on_rollback f with NotDelivered => true | _ => false end in
  if known then
    match on_confirm f, on_activate f with
    | NotDelivered, _ => (true, false, false)
    | ReplyLost, _ => (true, false, true)
    | Answered, Answered => if held then (false, true, true) else (true, false, stuck)
    | Answered, NotDelivered => (true, false, stuck)
    | Answered, ReplyLost => (true, held, stuck)
    end
  else (true, false, false).

Definition located (player : Z) (a b : Zone) (g : Gateway) (o : bool * bool * bool) : Prop :=
  let '(in_a, in_b, to_b) := o in
  (if in_a then lives player a else ~ lives player a) /\
  (if in_b then lives player b else ~ lives player b) /\
  routes g !! player = Some (z_id (if to_b then b else a)).

(** The fates that split a crossing, of a target that is known. *)
Definition splits (held : bool) (f : Fates) : bool :=
  let stuck := match on_rollback f with NotDelivered => true | _ => false end in
  match on_confirm f, on_activate f with
  | NotDelivered, _ => false
  | ReplyLost, _ => true
  | Answered, Answered => negb held && stuck
  | Answered, NotDelivered => stuck
  | Answered, ReplyLost => held || stuck
  end.

Lemma outcome_home player a b g known held f :
  z_id a <> z_id b -> located player a b g (outcome known held f) ->
  (home player a b g \/ home player b a g <-> known && splits held f = false).
Proof.
  intros Hne H. unfold home.
  assert (Hr : routes g !! player = Some (z_id a) -> routes g !! player = Some (z_id b) -> False) by congruence.
  destruct f as [c t r], known, c, t, r, held; cbn in H |- *; intuition congruence.
Qed.

(** Rolling back moves the route, unless the call is not delivered. *)
Lemma rollback_spec fate player a_id g :
  contains_zone (registry g) a_id = true ->
  routes (rollback_crossing fate player a_id g).2 !! player =
    match fate with NotDelivered => routes g !! player | _ => Some a_id end.
Proof.
  intros Ha. pose proof (confirm_spec player a_id g) as Hg. rewrite Ha in Hg. unfold rollback_crossing.
  destruct fate; cbn [remote]; [|done|]; destruct (gw_confirm_handoff player a_id g) as [ok g2];
    destruct Hg as (-> & _ & Hr); exact Hr.
Qed.

Lemma crossing_located now player f a b g :
  prepared player a b g ->
  let '(a', b', g') := complete_handoff now player f a b g in
  z_id a' = z_id a /\ z_id b' = z_id b /\
  located player a' b' g' (outcome (contains_zone (registry g) (z_id b)) (ghost_held player b) f).
Proof.
  intros [(gr & Hready) Hgh Hla Hnb Hr Hra].
  destruct (complete_handoff_spec now player f a b g gr Hready) as (ma & mc & ->).
  pose proof (activate_spec now player b Hgh Hnb) as Hact.
  pose proof (confirm_spec player (z_id b) g) as Hg. unfold outcome.
  destruct (gw_confirm_handoff player (z_id b) g) as [ok g1] eqn:Ec. destruct Hg as (-> & Hreg & Hroute).
  destruct (activate_player now player b) as [act b1] eqn:Ea. destruct Hact as (-> & Hid & Hlb).
  pose proof (rollback_spec (on_rollback f) player (z_id a) g1) as Hrb. rewrite Hreg in Hrb. specialize (Hrb Hra).
  assert (Hrel : ~ lives player (a <| handoffs := mc |> <| ingest := release_player_state player (ingest a) |>))
    by (intros H; apply H, released_not_lives).
  destruct (contains_zone (registry g) (z_id b)); destruct (on_confirm f); cbn [remote]; rewrite ?Ec; try done;
    cbn [snd]; try (split; [done|split; [done|]]; split; [done|split; [done|by rewrite Hroute]]).
  destruct (on_activate f); cbn [remote]; rewrite ?Ea; cbn [snd]; try destruct (ghost_held player b);
    destruct (on_rollback f); (split; [done|split; [done|split; [done|split; [done|cbn [z_id]; by rewrite ?Hrb, ?Hroute, ?Hid]]]]).
Qed.

(** C3: where a prepared crossing leaves the player, for every fate of its three
    calls (answered, not delivered, executed with the reply lost), with or
    without the gateway knowing the target and the target still holding the
    ghost. The player is in exactly one zone and routed there unless the
    target is known and: the commit's reply is lost, or the commit is answered
    and the activation's reply is lost with the ghost held (it then lives in
    both zones), or the activation does not take place and the rollback is not
    delivered (it lives in the origin and is routed to the target). *)
Theorem crossing_single_home now player f a b g :
  prepared player a b g -> z_id a <> z_id b ->
  let '(a', b', g') := complete_handoff now player f a b g in
  let known := contains_zone (registry g) (z_id b) in
  located player a' b' g' (outcome known (ghost_held player b) f) /\
  (home player a' b' g' \/ home player b' a' g' <-> known && splits (ghost_held player b) f = false).
Proof.
  intros Hp Hne. pose proof (crossing_located now player f a b g Hp) as H.
  destruct (complete_handoff now player f a b g) as [[a' b'] g']. destruct H as (Ha & Hb & H).
  split; [done|]. apply outcome_home; [by rewrite Ha, Hb|done].
Qed.

(** Player 1 of zone a, ready for zone b. *)
Definition crossing_zone : Zone :=
  zone_west <| handoffs := set_pending 1 (ReadyToTransfer zone_b [50]) (manager_new 10) |>.
Definition target_zone_side : Zone :=
  {| z_id := zone_b; z_bounds := box 0 (-4000) 4000 4000;
     ghosts := {[1 := Pending (build_snapshot None ∅ 1 origin origin driving) 0]};
     ingest := next_zone; handoffs := manager_new 10 |}.
Definition crossing_gateway : Gateway := {| registry := two_zones; routes := {[1 := zone_a]} |}.

Lemma crossing_prepared : prepared 1 crossing_zone target_zone_side crossing_gateway.
Proof.
  split.
  - exists [50]. reflexivity.
  - intros snap t H. injection H as <- <-. split; [reflexivity|]. vm_compute. discriminate.
  - unfold lives. vm_compute. discriminate.
  - intros H. apply H. reflexivity.
  - reflexivity.
  - vm_compute. reflexivity.
Qed.

(** An activation that is not delivered, rolled back and not. *)
Lemma crossing_single_home_witness :
  let f r := {| on_confirm := Answered; on_activate := NotDelivered; on_rollback := r |} in
  (let '(a', b', g') := complete_handoff 5 1 (f Answered) crossing_zone target_zone_side crossing_gateway in
   home 1 a' b' g' \/ home 1 b' a' g') /\
  (let '(a', b', g') := complete_handoff 5 1 (f NotDelivered) crossing_zone target_zone_side crossing_gateway in
   ~ (home 1 a' b' g' \/ home 1 b' a' g')).
Proof.
  intros f. split.
  - pose proof (crossing_single_home 5 1 (f Answered) crossing_zone target_zone_side crossing_gateway crossing_prepared ltac:(done)) as H.
    destruct (complete_handoff _ _ _ _ _ _) as [[a' b'] g']. by apply H.
  - pose proof (crossing_single_home 5 1 (f NotDelivered) crossing_zone target_zone_side crossing_gateway crossing_prepared ltac:(done)) as H.
    destruct (complete_handoff _ _ _ _ _ _) as [[a' b'] g']. intros Hh. by apply H in Hh.
Defined.

(** a lost reply splits the player. When the gateway commits the crossing
    and its answer is lost, the origin cancels without rolling back: the
    player lives in the origin and is routed to the target, where its next
    report spawns a second ped. When the target activates the player and its
    answer is lost, the origin keeps it too, and it lives in both. *)
Theorem lost_reply_splits now player f a b g :
  prepared player a b g -> ghost_held player b = true -> contains_zone (registry g) (z_id b) = true ->
  let '(a', b', g') := complete_handoff now player f a b g in
  (on_confirm f = ReplyLost ->
     lives player a' /\ routes g' !! player = Some (z_id b) /\
     forall checked now' fresh u, c_entity_id u = None ->
       player_entities (apply checked now' fresh player u (ingest b')).2 !! player = Some fresh) /\
  (on_confirm f = Answered -> on_activate f = ReplyLost -> lives player a' /\ lives player b').
Proof.
  intros [(gr & Hready) Hgh Hla Hnb _ _] Hheld Hb.
  destruct (complete_handoff_spec now player f a b g gr Hready) as (ma & mc & ->).
  pose proof (activate_spec now player b Hgh Hnb) as Hact. rewrite Hheld in Hact.
  assert (Hlb : lives player (activate_player now player b).2)
    by (destruct (activate_player now player b); by destruct Hact as (-> & _ & Hlb)).
  pose proof (confirm_spec player (z_id b) g) as Hg. rewrite Hb in Hg.
  destruct (remote (on_confirm f) (gw_confirm_handoff player (z_id b)) g) as [reply g1] eqn:E.
  destruct (on_confirm f); cbn [remote] in E.
  - destruct (gw_confirm_handoff player (z_id b) g) as [ok g2]. destruct Hg as (-> & _ & _).
    injection E as <- <-. destruct (remote (on_activate f) _ b) as [act b1] eqn:Ea.
    destruct (on_activate f); cbn [remote] in Ea; try (destruct act as [[]|]; by split).
    injection Ea as <- <-. by split.
  - injection E as <- <-. by split.
  - destruct (gw_confirm_handoff player (z_id b) g) as [ok g2]. destruct Hg as (-> & _ & Hr).
    injection E as <- <-. split; [|done]. intros _. split; [done|split; [done|]].
    intros checked now' fresh u Hu. unfold apply. rewrite Hu.
    assert (Hn : player_entities (ingest b) !! player = None).
    { destruct (player_entities (ingest b) !! player) eqn:En; [|done]. exfalso. apply Hnb.
      unfold lives. by rewrite En. }
    rewrite Hn. cbn [snd]. exact (lookup_insert_eq _ _ _).
Qed.

Lemma lost_reply_splits_witness :
  let f := {| on_confirm := Answered; on_activate := ReplyLost; on_rollback := Answered |} in
  let '(a', b', g') := complete_handoff 5 1 f crossing_zone target_zone_side crossing_gateway in
  lives 1 a' /\ lives 1 b'.
Proof.
  pose proof (lost_reply_splits 5 1 {| on_confirm := Answered; on_activate := ReplyLost; on_rollback := Answered |}
    crossing_zone target_zone_side crossing_gateway crossing_prepared eq_refl ltac:(vm_compute; reflexivity)) as H.
  cbv zeta. destruct (complete_handoff _ _ _ _ _ _) as [[a' b'] g']. by apply H.
Defined.

(** ** Entities past the edge *)

(** the zone of a departed entity is looked up for the centre of its 64 m
    cell. In a cell that the edge of the zone cuts, that centre can lie on
    the near side: the lookup answers with the entity's own zone, and the
    entity, out of bounds, stays. *)
Theorem cut_cell_keeps_entity z g resolved e :
  let '(cx, cy) := resolution_cell_centre (resolution_cell (coords e)) in
  find_zone_for_coords (registry g) cx cy = Some (z_id z) ->
  migration z g resolved e = None.
Proof.
  destruct (resolution_cell_centre _) as [cx cy] eqn:E. intros H. unfold migration, zone_of_entity.
  destruct (resolved _); [|done]. rewrite E, H. by rewrite bool_decide_eq_true_2.
Qed.

(** Zones that meet at x = 100: a car at x = 110, in the cell from 64 to 128. *)
Definition edge_at_100 : Gateway :=
  {| registry := (register_zone any_uri 0 zone_b (box 100 (-4000) 4000 4000) [50] 2
       (register_zone any_uri 0 zone_a (box (-4000) (-4000) 100 4000) [49] 2 (registry_new 15)).2).2;
     routes := ∅ |}.
Definition zone_to_100 : Zone := zone_west <| z_bounds := box (-4000) (-4000) 100 4000 |>.

Lemma cut_cell_keeps_entity_witness :
  departs zone_to_100 (car 40 None 110) = true /\
  find_zone_for_coords (registry edge_at_100) (f32_of_Z 110) f32_zero = Some zone_b /\
  migration zone_to_100 edge_at_100 (fun _ => true) (car 40 None 110) = None.
Proof.
  split; [vm_compute; reflexivity|split; [vm_compute; reflexivity|]].
  pose proof (cut_cell_keeps_entity zone_to_100 edge_at_100 (fun _ => true) (car 40 None 110)) as H.
  destruct (resolution_cell_centre (resolution_cell (coords (car 40 None 110)))) as [cx cy] eqn:E.
  apply H. injection E as <- <-. vm_compute. reflexivity.
Defined.
