(* ===== verification/AdaptiveTick.v ===== *)
(** * The adaptive tick-rate controller
    (src/crates/baston-zone/src/adaptive_tick.rs)

    Rust's [f64] is IEEE 754 binary64: [SpecFloat] at precision 53 and maximal
    exponent 1024. Durations are counts of nanoseconds; rates are 16-bit
    unsigned numbers. The conversion from the configuration is in
    Config.v; a configuration is an argument. *)

From S2P Require Import Prelude F32.
From Stdlib Require Import Sorted.

Abbreviation f64 := spec_float.

Definition f64_add : f64 -> f64 -> f64 := SFadd 53 1024.
Definition f64_sub : f64 -> f64 -> f64 := SFsub 53 1024.
Definition f64_mul : f64 -> f64 -> f64 := SFmul 53 1024.
Definition f64_div : f64 -> f64 -> f64 := SFdiv 53 1024.
Definition f64_of_Z (n : Z) : f64 := binary_normalize 53 1024 n 0 false.
Definition f64_le : f64 -> f64 -> bool := SFleb.
Definition f64_ge (a b : f64) : bool := SFleb b a.

(** [x.clamp(lo, hi)]: NaN stays NaN. *)
Definition f64_clamp (x lo hi : f64) : f64 :=
  if SFltb x lo then lo else if SFltb hi x then hi else x.

(** [Duration::as_secs_f64] and [Duration::from_secs_f64], which rounds to the
    nearest nanosecond, ties to even. *)
Definition as_secs_f64 (d : Z) : f64 :=
  f64_add (f64_of_Z (d / 10 ^ 9)) (f64_div (f64_of_Z (d mod 10 ^ 9)) (f64_of_Z (10 ^ 9))).

Definition round_half_even (n d : Z) : Z :=
  let q := n / d in let r := n mod d in
  if 2 * r <? d then q else if d <? 2 * r then q + 1 else if Z.even q then q else q + 1.

Definition from_secs_f64 (x : f64) : Z :=
  match x with
  | S754_finite false m e => round_half_even (Z.pos m * 2 ^ Z.max 0 e * 10 ^ 9) (2 ^ Z.max 0 (- e))
  | _ => 0
  end.

(** ** The controller *)

Definition SAFE_RATES_HZ : list Z := [20; 30; 40; 60; 90; 120].
Definition EWMA_ALPHA : f64 := binary_normalize 53 1024 1 (-3) false.

Record AdaptiveTickConfig := {
  enabled : bool; min_hz : Z; initial_hz : Z; max_hz : Z;
  low_utilization : f64; high_utilization : f64; recovery_window : Z; overload_backoff : f64
}.

Definition half : f64 := binary_normalize 53 1024 1 (-1) false.

Definition default_config : AdaptiveTickConfig :=
  {| enabled := true; min_hz := 20; initial_hz := 60; max_hz := 120;
     low_utilization := half; high_utilization := f64_div (f64_of_Z 85) (f64_of_Z 100);
     recovery_window := 180; overload_backoff := half |}.

Inductive TickRateReason := Disabled | Stable | SustainedHeadroom | WorkOverload | QueuePressure | DeadlineMiss.

Record TickRateDecision := {
  previous_hz : Z; hz : Z; d_utilization : f64; d_changed : bool; reason : TickRateReason
}.

Record AdaptiveTickController := {
  cfg : AdaptiveTickConfig; current_hz : Z; ewma_utilization : option f64; headroom_samples : Z
}.

#[export] Instance AdaptiveTickController_rebuild : Rebuild AdaptiveTickController := fun r =>
  {| cfg := cfg r; current_hz := current_hz r; ewma_utilization := ewma_utilization r;
     headroom_samples := headroom_samples r |}.

Definition rates (lo hi : Z) : list Z := List.filter (fun r => (lo <=? r) && (r <=? hi)) SAFE_RATES_HZ.

(** [None]: the panic of [clamp] on an empty range. *)
Definition nearest_rate (requested lo hi : Z) : option Z :=
  match min_by (fun a b => Z.abs (a - requested) ?= Z.abs (b - requested)) (rates lo hi) with
  | Some r => Some r
  | None => if lo <=? hi then Some (Z.max lo (Z.min hi requested)) else None
  end.

Definition lower_rate (target lo hi : Z) : Z := default lo (last (List.filter (fun r => r <=? target) (rates lo hi))).

Definition next_rate (current lo hi : Z) : Z :=
  default current (head (List.filter (fun r => current <? r) (rates lo hi))).

Definition controller_new (c : AdaptiveTickConfig) : option AdaptiveTickController :=
  (fun r => {| cfg := c; current_hz := r; ewma_utilization := None; headroom_samples := 0 |}) <$>
    nearest_rate (initial_hz c) (min_hz c) (max_hz c).

Definition period (c : AdaptiveTickController) : Z := from_secs_f64 (f64_div (f64_of_Z 1) (f64_of_Z (current_hz c))).

Definition decision (c : AdaptiveTickController) (previous : Z) (u : f64) (r : TickRateReason) : TickRateDecision :=
  {| previous_hz := previous; hz := current_hz c; d_utilization := u;
     d_changed := negb (previous =? current_hz c); reason := r |}.

Record Observation := { work : Z; queue_pressure : f64; missed_deadline : bool }.

Definition sample_of (c : AdaptiveTickController) (o : Observation) : f64 :=
  f64_div (as_secs_f64 (work o)) (as_secs_f64 (period c)).

Definition utilization_of (c : AdaptiveTickController) (o : Observation) : f64 :=
  match ewma_utilization c with
  | Some previous => f64_add previous (f64_mul EWMA_ALPHA (f64_sub (sample_of c o) previous))
  | None => sample_of c o
  end.

Definition pressure_of (o : Observation) : f64 := f64_clamp (queue_pressure o) (f64_of_Z 0) (f64_of_Z 1).

Definition overload_reason (c : AdaptiveTickController) (o : Observation) : option TickRateReason :=
  if missed_deadline o then Some DeadlineMiss
  else if f64_ge (pressure_of o) (high_utilization (cfg c)) then Some QueuePressure
  else if f64_ge (sample_of c o) (f64_of_Z 1) || f64_ge (utilization_of c o) (high_utilization (cfg c))
       then Some WorkOverload
  else None.

(** [as u16]. *)
Definition f64_as_u16 : f64 -> Z := f32_to_Z 0 (2 ^ 16 - 1).

Definition saturating_succ_u32 (n : Z) : Z := Z.min (2 ^ 32 - 1) (n + 1).

Definition observe (o : Observation) (c : AdaptiveTickController) : TickRateDecision * AdaptiveTickController :=
  let previous := current_hz c in
  let u := utilization_of c o in
  let c1 := c <| ewma_utilization := Some u |> in
  if negb (enabled (cfg c)) then (decision c1 previous u Disabled, c1)
  else
    match overload_reason c o with
    | Some r =>
        let target := f64_as_u16 (f64_mul (f64_of_Z (current_hz c)) (overload_backoff (cfg c))) in
        let c2 := (c1 <| headroom_samples := 0 |>)
                    <| current_hz := lower_rate target (min_hz (cfg c)) (max_hz (cfg c)) |> in
        (decision c2 previous u r, c2)
    | None =>
        if f64_le u (low_utilization (cfg c)) && f64_le (pressure_of o) (low_utilization (cfg c)) then
          let n := saturating_succ_u32 (headroom_samples c) in
          if recovery_window (cfg c) <=? n then
            let c2 := (c1 <| headroom_samples := 0 |>)
                        <| current_hz := next_rate (current_hz c) (min_hz (cfg c)) (max_hz (cfg c)) |> in
            (decision c2 previous u SustainedHeadroom, c2)
          else
            let c2 := c1 <| headroom_samples := n |> in
            (decision c2 previous u Stable, c2)
        else
          let c2 := c1 <| headroom_samples := 0 |> in
          (decision c2 previous u Stable, c2)
    end.

(** The source's own tests. *)
Definition run (os : list Observation) (c : AdaptiveTickController) : AdaptiveTickController :=
  foldl (fun c o => (observe o c).2) c os.

Definition test_config (initial : Z) : AdaptiveTickConfig :=
  {| enabled := true; min_hz := 20; initial_hz := initial; max_hz := 120;
     low_utilization := low_utilization default_config; high_utilization := high_utilization default_config;
     recovery_window := 3; overload_backoff := half |}.

Definition light : Observation := {| work := 10 ^ 6; queue_pressure := f64_of_Z 0; missed_deadline := false |}.
Definition heavy : Observation := {| work := 60 * 10 ^ 6; queue_pressure := f64_of_Z 1; missed_deadline := false |}.

Example climbs_slowly :
  (fun c => (current_hz (run (repeat light 3) c), current_hz (run (repeat light 6) c), current_hz (run (repeat light 16) c)))
    <$> controller_new (test_config 60) = Some (90, 120, 120).
Proof. vm_compute. reflexivity. Qed.
Example falls_to_floor :
  (fun c => (current_hz (run [heavy] c), current_hz (run [heavy; heavy] c), current_hz (run (repeat heavy 4) c)))
    <$> controller_new (test_config 120) = Some (60, 30, 20).
Proof. vm_compute. reflexivity. Qed.

(** ** The rates *)

Lemma rates_elem r lo hi : r ∈ rates lo hi <-> r ∈ SAFE_RATES_HZ /\ lo <= r <= hi.
Proof.
  unfold rates. rewrite list_elem_of_In, filter_In, <- list_elem_of_In, andb_true_iff, !Z.leb_le. done.
Qed.

Lemma filter_elem {A} (p : A -> bool) l x : x ∈ List.filter p l <-> x ∈ l /\ p x = true.
Proof. rewrite list_elem_of_In, filter_In, <- list_elem_of_In. done. Qed.

Lemma last_elem {A} (l : list A) x : last l = Some x -> x ∈ l.
Proof. intros H. apply last_Some in H as [l' ->]. apply elem_of_app. right. by left. Qed.

Lemma head_elem {A} (l : list A) x : head l = Some x -> x ∈ l.
Proof. destruct l; [done|]. intros [= ->]. by left. Qed.

Lemma filter_strong_sorted (p : Z -> bool) l : StronglySorted Z.lt l -> StronglySorted Z.lt (List.filter p l).
Proof.
  induction 1 as [|x l Hs IH Hx]; cbn [List.filter]; [constructor|]. destruct (p x); [|done].
  constructor; [done|]. rewrite Forall_forall in *. intros y Hy. apply filter_elem in Hy as [Hy _]. by apply Hx.
Qed.

Lemma rates_sorted lo hi : StronglySorted Z.lt (rates lo hi).
Proof. apply filter_strong_sorted. repeat constructor. Qed.

Lemma last_greatest l m x : StronglySorted Z.lt l -> last l = Some m -> x ∈ l -> x <= m.
Proof.
  induction 1 as [|y l Hs IH Hy]; [done|]. intros Hl [->|Hx]%elem_of_cons.
  - destruct l as [|z l]; [by injection Hl as ->|]. rewrite Forall_forall in Hy.
    assert (y < m); [|lia]. apply Hy, last_elem. by rewrite last_cons_cons in Hl.
  - destruct l as [|z l]; [by apply elem_of_nil in Hx|]. rewrite last_cons_cons in Hl. by apply IH.
Qed.

Lemma lower_rate_range target lo hi :
  lo <= hi -> lo <= lower_rate target lo hi <= hi /\ lower_rate target lo hi <= Z.max target lo.
Proof.
  intros H. unfold lower_rate. destruct (last _) as [r|] eqn:E; cbn [default from_option id]; [|lia].
  apply last_elem, filter_elem in E as [Hr Ht]. apply rates_elem in Hr as [_ Hr]. apply Z.leb_le in Ht. lia.
Qed.

Lemma next_rate_spec cur lo hi :
  (next_rate cur lo hi = cur /\ List.filter (fun r => cur <? r) (rates lo hi) = []) \/
  (next_rate cur lo hi ∈ rates lo hi /\ cur < next_rate cur lo hi).
Proof.
  unfold next_rate. destruct (List.filter _ _) as [|r l] eqn:E; [by left|right]. cbn [head default from_option id].
  assert (Hr : r ∈ List.filter (fun r => cur <? r) (rates lo hi)) by (rewrite E; by left).
  apply filter_elem in Hr as [Hr Hc]. by apply Z.ltb_lt in Hc.
Qed.

Lemma nearest_rate_range requested lo hi r :
  nearest_rate requested lo hi = Some r -> lo <= r <= hi.
Proof.
  unfold nearest_rate. destruct (min_by _ (rates lo hi)) as [r'|] eqn:E.
  - intros [= <-]. apply min_by_elem, rates_elem in E as [_ E]. done.
  - destruct (Z.leb_spec lo hi); [|done]. intros [= <-]. lia.
Qed.

(** ** One observation *)

Lemma observe_cfg o c : cfg (observe o c).2 = cfg c.
Proof.
  unfold observe. destruct (enabled (cfg c)); cbn [negb]; [|done].
  destruct (overload_reason c o); [done|]. destruct (_ && _); [|done]. by destruct (_ <=? _).
Qed.

Lemma run_cfg os c : cfg (run os c) = cfg c.
Proof.
  unfold run. revert c. induction os as [|o os IH]; intros c; [done|]. cbn [foldl]. by rewrite IH, observe_cfg.
Qed.

Lemma observe_range o c :
  min_hz (cfg c) <= current_hz c <= max_hz (cfg c) ->
  min_hz (cfg c) <= current_hz (observe o c).2 <= max_hz (cfg c).
Proof.
  intros H. unfold observe. destruct (enabled (cfg c)); cbn [negb]; [|done].
  destruct (overload_reason c o).
  - change (current_hz _) with (lower_rate (f64_as_u16 (f64_mul (f64_of_Z (current_hz c)) (overload_backoff (cfg c))))
      (min_hz (cfg c)) (max_hz (cfg c))). apply lower_rate_range. lia.
  - destruct (_ && _); [|done]. destruct (_ <=? _); [|done].
    change (current_hz _) with (next_rate (current_hz c) (min_hz (cfg c)) (max_hz (cfg c))).
    destruct (next_rate_spec (current_hz c) (min_hz (cfg c)) (max_hz (cfg c))) as [[-> _]|[Hr _]]; [done|].
    by apply rates_elem in Hr as [_ Hr].
Qed.

(** a controller can be made exactly for a range that is not empty, and
    whatever it then observes its rate stays in the configured range. *)
Theorem rate_stays_in_range c os :
  match controller_new c with
  | Some ctl => min_hz c <= current_hz (run os ctl) <= max_hz c
  | None => max_hz c < min_hz c
  end.
Proof.
  unfold controller_new. destruct (nearest_rate (initial_hz c) (min_hz c) (max_hz c)) as [r|] eqn:E;
    cbn [fmap option_fmap option_map].
  - apply nearest_rate_range in E. unfold run.
    assert (H : forall ctl, cfg ctl = c -> min_hz c <= current_hz ctl <= max_hz c ->
      min_hz c <= current_hz (foldl (fun c o => (observe o c).2) ctl os) <= max_hz c); [|by apply H].
    clear E. induction os as [|o os IH]; intros ctl Hc Hr; [done|]. cbn [foldl]. apply IH.
    + by rewrite observe_cfg.
    + rewrite <- Hc in Hr |- *. by apply observe_range.
  - unfold nearest_rate in E. destruct (min_by _ _); [done|]. destruct (Z.leb_spec (min_hz c) (max_hz c)); [done|lia].
Qed.

(** an overload of any kind (a missed deadline, a full queue, too much work)
    lowers the rate in the same tick to the configured fraction of it or
    below, but not below the floor, and restarts the recovery. *)
Theorem overload_backs_off o c r :
  enabled (cfg c) = true -> min_hz (cfg c) <= max_hz (cfg c) -> overload_reason c o = Some r ->
  let '(d, c') := observe o c in
  let target := f64_as_u16 (f64_mul (f64_of_Z (current_hz c)) (overload_backoff (cfg c))) in
  reason d = r /\ headroom_samples c' = 0 /\
  min_hz (cfg c) <= current_hz c' <= Z.max target (min_hz (cfg c)) /\
  (forall rate, rate ∈ rates (min_hz (cfg c)) (max_hz (cfg c)) -> rate <= target -> rate <= current_hz c').
Proof.
  intros He Hm Ho. unfold observe. rewrite He, Ho. cbn [negb].
  set (target := f64_as_u16 _). split; [done|split; [done|]].
  change (current_hz _) with (lower_rate target (min_hz (cfg c)) (max_hz (cfg c))).
  destruct (lower_rate_range target (min_hz (cfg c)) (max_hz (cfg c)) Hm) as [[H1 _] H2].
  split; [done|]. intros rate Hr Ht. unfold lower_rate.
  assert (Hin : rate ∈ List.filter (fun r => r <=? target) (rates (min_hz (cfg c)) (max_hz (cfg c))))
    by (apply filter_elem; split; [done|by apply Z.leb_le]).
  destruct (last _) as [m|] eqn:E.
  - cbn [default from_option id]. eapply last_greatest; [|done|done].
    apply filter_strong_sorted, rates_sorted.
  - apply last_None in E. rewrite E in Hin. by apply elem_of_nil in Hin.
Qed.

(** A controller of the test configuration. *)
Definition at_rate (rate : Z) : AdaptiveTickController :=
  {| cfg := test_config 60; current_hz := rate; ewma_utilization := None; headroom_samples := 2 |}.

Lemma overload_backs_off_witness :
  current_hz (observe heavy (at_rate 120)).2 = 60 /\ headroom_samples (observe heavy (at_rate 120)).2 = 0.
Proof.
  assert (Hh : current_hz (observe heavy (at_rate 120)).2 = 60) by (vm_compute; reflexivity).
  pose proof (overload_backs_off heavy (at_rate 120) QueuePressure eq_refl ltac:(done) ltac:(vm_compute; reflexivity)) as H.
  destruct (observe heavy (at_rate 120)) as [d c']. cbn [snd] in *.
  split; [exact Hh|apply H].
Defined.

(** ** Recovery *)

(** An observation with headroom: no overload, low work, an almost empty queue. *)
Definition has_headroom (o : Observation) (c : AdaptiveTickController) : bool :=
  enabled (cfg c) && negb (is_some (overload_reason c o)) &&
  f64_le (utilization_of c o) (low_utilization (cfg c)) && f64_le (pressure_of o) (low_utilization (cfg c)).

Fixpoint all_headroom (os : list Observation) (c : AdaptiveTickController) : bool :=
  match os with
  | [] => true
  | o :: rest => has_headroom o c && all_headroom rest (observe o c).2
  end.

(** The samples a rise takes, and the allowed rates above the current one. *)
Definition window (c : AdaptiveTickController) : Z := Z.max 1 (recovery_window (cfg c)).
Definition rates_above (c : AdaptiveTickController) : list Z :=
  List.filter (fun r => current_hz c <? r) (rates (min_hz (cfg c)) (max_hz (cfg c))).
Definition above (c : AdaptiveTickController) : Z := Z.of_nat (length (rates_above c)).

Lemma filter_shorter {A} (p q : A -> bool) l x :
  (forall y, p y = true -> q y = true) -> x ∈ l -> q x = true -> p x = false ->
  (length (List.filter p l) < length (List.filter q l))%nat.
Proof.
  intros Hpq. assert (Hle : forall l, (length (List.filter p l) <= length (List.filter q l))%nat).
  { induction l0 as [|y l0 IH]; cbn [List.filter]; [done|]. specialize (Hpq y).
    destruct (p y), (q y); cbn [length]; first [lia|by specialize (Hpq eq_refl)]. }
  induction l as [|y l IH]; [by intros H%elem_of_nil|]. intros [->|Hx]%elem_of_cons Hq Hp; cbn [List.filter].
  - rewrite Hq, Hp. cbn [length]. specialize (Hle l). lia.
  - specialize (IH Hx Hq Hp). pose proof (Hpq y).
    destruct (p y), (q y); cbn [length]; first [lia|by specialize (H eq_refl)].
Qed.

(** What is left to do, in samples; it never grows under headroom, and shrinks
    as long as there is a rate above. *)
Definition to_go (c : AdaptiveTickController) : Z :=
  above c * window c - Z.min (headroom_samples c) (window c - 1).

Lemma headroom_step o c :
  has_headroom o c = true -> 0 <= headroom_samples c -> recovery_window (cfg c) < 2 ^ 32 ->
  let c' := (observe o c).2 in
  0 <= headroom_samples c' /\ current_hz c <= current_hz c' /\
  (above c = 0 -> above c' = 0) /\ (0 < above c -> to_go c' <= to_go c - 1).
Proof.
  unfold has_headroom. rewrite !andb_true_iff, negb_true_iff. intros [[[He Ho] Hu] Hp] Hs Hw.
  unfold observe. rewrite He, Hu, Hp. cbn [negb andb].
  destruct (overload_reason c o); [done|]. unfold saturating_succ_u32.
  destruct (Z.leb_spec (recovery_window (cfg c)) (Z.min (2 ^ 32 - 1) (headroom_samples c + 1))) as [Hr|Hr].
  - set (c' := (_, _).2). assert (Hc : cfg c' = cfg c) by done.
    assert (Hh : headroom_samples c' = 0) by done.
    assert (Hz : current_hz c' = next_rate (current_hz c) (min_hz (cfg c)) (max_hz (cfg c))) by done.
    clearbody c'. destruct (next_rate_spec (current_hz c) (min_hz (cfg c)) (max_hz (cfg c))) as [[H1 H2]|[H1 H2]].
    + assert (Ha : above c' = 0) by (unfold above, rates_above; by rewrite Hc, Hz, H1, H2).
      assert (Ha0 : above c = 0) by (unfold above, rates_above; by rewrite H2). lia.
    + rewrite Hh, Hz. assert (Hlt : above c' < above c).
      { unfold above, rates_above. rewrite Hc, Hz.
        apply (Nat2Z.inj_lt (length _)), (filter_shorter _ _ _ (next_rate (current_hz c) (min_hz (cfg c)) (max_hz (cfg c))));
          [|done|by apply Z.ltb_lt|by apply Z.ltb_irrefl].
        intros r Hr'. apply Z.ltb_lt in Hr'. apply Z.ltb_lt. lia. }
      assert (0 <= above c') by (unfold above; lia).
      split; [lia|split; [lia|split; [lia|]]]. intros _. unfold to_go. rewrite Hh.
      unfold window in *. rewrite Hc. nia.
  - set (c' := (_, _).2). assert (Hc : cfg c' = cfg c) by done.
    assert (Hh : headroom_samples c' = Z.min (2 ^ 32 - 1) (headroom_samples c + 1)) by done.
    assert (Hz : current_hz c' = current_hz c) by done. clearbody c'.
    assert (Ha : above c' = above c) by (unfold above, rates_above; by rewrite Hc, Hz).
    split; [lia|split; [lia|split; [lia|]]]. intros _. unfold to_go. rewrite Ha, Hh.
    unfold window in *. rewrite Hc. lia.
Qed.

(** the controller recovers: under sustained headroom the rate never falls,
    and once [recovery_window] samples have been seen for each allowed rate
    above the current one, no allowed rate is above it. *)
Theorem climbs_to_top os c :
  all_headroom os c = true -> 0 <= headroom_samples c -> recovery_window (cfg c) < 2 ^ 32 ->
  above c * window c <= Z.of_nat (length os) ->
  current_hz c <= current_hz (run os c) /\
  forall r, r ∈ rates (min_hz (cfg c)) (max_hz (cfg c)) -> r <= current_hz (run os c).
Proof.
  intros Hh Hs Hw Hn.
  assert (H : forall os c, all_headroom os c = true -> 0 <= headroom_samples c -> recovery_window (cfg c) < 2 ^ 32 ->
    to_go c <= Z.of_nat (length os) \/ above c = 0 ->
    current_hz c <= current_hz (run os c) /\ above (run os c) = 0).
  { clear. induction os as [|o os IH]; intros c Hh Hs Hw Hn.
    - split; [done|]. change (run [] c) with c. destruct Hn as [Hn|Hn]; [|done].
      assert (Ha : 0 <= above c) by (unfold above; lia). unfold to_go, window in *. cbn in Hn. nia.
    - cbn [all_headroom] in Hh. apply andb_true_iff in Hh as [H1 H2].
      destruct (headroom_step o c H1 Hs Hw) as (S1 & S2 & S3 & S4).
      change (run (o :: os) c) with (run os (observe o c).2).
      destruct (IH (observe o c).2 H2 S1) as [R1 R2]; [by rewrite observe_cfg| |split; [lia|done]].
      destruct Hn as [Hn|Hn]; [|right; by apply S3].
      destruct (Z.eq_dec (above c) 0) as [Ha|Ha]; [right; by apply S3|left].
      assert (0 <= above c) by (unfold above; lia). cbn [length] in Hn. lia. }
  destruct (H os c Hh Hs Hw) as [H1 H2].
  { left. unfold to_go, window in *. lia. }
  split; [done|]. intros r Hr. destruct (Z.leb_spec r (current_hz (run os c))) as [|Hgt]; [done|exfalso].
  assert (Hin : r ∈ rates_above (run os c)).
  { apply filter_elem. rewrite run_cfg. split; [done|by apply Z.ltb_lt]. }
  unfold above in H2. destruct (rates_above (run os c)); [by apply elem_of_nil in Hin|done].
Qed.

Lemma climbs_to_top_witness :
  current_hz (run (repeat light 15) (at_rate 20)) = 120 /\
  forall r, r ∈ rates 20 120 -> r <= current_hz (run (repeat light 15) (at_rate 20)).
Proof.
  split; [vm_compute; reflexivity|].
  apply (climbs_to_top (repeat light 15) (at_rate 20)); vm_compute; try reflexivity; discriminate.
Defined.
