(* ===== verification/VoicePacket.v ===== *)
(** * Voice packets and control framing

    - src/crates/baston-voice/src/pds.rs: the variable-length integers;
    - src/crates/baston-voice/src/lib.rs: the two fields of the header byte;
    - src/crates/baston-voice/src/voice.rs: a decrypted voice datagram;
    - src/crates/baston-voice/src/framing.rs: the preamble of a control message.

    A float of a positional block is its bit pattern: the code only moves it.
    The protobuf payload of a control message is given as bytes. *)

From S2P Require Import Prelude.

(** ** Big-endian bytes *)

Definition to_be_bytes (n : nat) (z : Z) : list Z := rev (to_le_bytes n z).
Definition from_be_bytes (bs : list Z) : Z := from_le_bytes (rev bs).

Lemma length_to_be_bytes n z : length (to_be_bytes n z) = n.
Proof. unfold to_be_bytes. by rewrite length_rev, length_to_le_bytes. Qed.

Lemma from_to_be_bytes n z : is_u (8 * Z.of_nat n) z -> from_be_bytes (to_be_bytes n z) = z.
Proof. intros H. unfold from_be_bytes, to_be_bytes. by rewrite rev_involutive, from_to_le_bytes_id. Qed.

(** ** The reader (pds.rs): what is left of the buffer, and how much was read *)

Record PdsReader := { remaining : list Z; offset : Z }.

Definition pds_new (buf : list Z) : PdsReader := {| remaining := buf; offset := 0 |}.

Definition next_byte : SM PdsReader Z := fun r =>
  match remaining r with
  | b :: l => (Some b, {| remaining := l; offset := offset r + 1 |})
  | [] => (None, r)
  end.

Definition read_raw_byte : SM PdsReader Z := next_byte.

(** [for _ in 0..n { v = (v << 8) | self.next_byte()? as u64 }]. *)
Fixpoint read_be (n : nat) (v : Z) : SM PdsReader Z :=
  match n with
  | O => mret v
  | S n' => b ← next_byte; read_be n' (Z.lor (u64 (Z.shiftl v 8)) b)
  end.

(** Recursion through at most [n] levels. A reader that recurses only behind a
    byte it consumed never needs more levels than there are bytes
    ([unbounded_unfold]). *)
Fixpoint levels {A} (step : SM PdsReader A -> SM PdsReader A) (n : nat) : SM PdsReader A :=
  match n with
  | O => fail_with_none
  | S n' => step (levels step n')
  end.

Definition unbounded {A} (step : SM PdsReader A -> SM PdsReader A) : SM PdsReader A := fun r =>
  levels step (S (length (remaining r))) r.

(** [read_u64], given what its recursive call does. *)
Definition varint_step (recur : SM PdsReader Z) : SM PdsReader Z :=
  v0 ← next_byte;
  if Z.land v0 0x80 =? 0 then mret v0
  else if Z.land v0 0xC0 =? 0x80 then
    b1 ← next_byte;
    mret (Z.lor (Z.shiftl (Z.land v0 0x3F) 8) b1)
  else if Z.land v0 0xE0 =? 0xC0 then
    b1 ← next_byte; b2 ← next_byte;
    mret (Z.lor (Z.lor (Z.shiftl (Z.land v0 0x1F) 16) (Z.shiftl b1 8)) b2)
  else if Z.land v0 0xF0 =? 0xE0 then
    b1 ← next_byte; b2 ← next_byte; b3 ← next_byte;
    mret (Z.lor (Z.lor (Z.lor (Z.shiftl (Z.land v0 0x0F) 24) (Z.shiftl b1 16)) (Z.shiftl b2 8)) b3)
  else if Z.land v0 0xFC =? 0xF0 then read_be 4 0
  else if Z.land v0 0xFC =? 0xF4 then read_be 8 0
  else if Z.land v0 0xFC =? 0xF8 then _ ← recur; mret 0
  else mret (u64 (0 - (Z.land v0 0x03 + 1))).

Definition read_u64 : SM PdsReader Z := unbounded varint_step.

Definition read_u32 : SM PdsReader Z := v ← read_u64; mret (u32 v).

Definition write_u64 (value : Z) : list Z :=
  if value <? 0x80 then [u8 value]
  else if value <? 0x4000 then
    [Z.lor 0x80 (u8 (Z.shiftr value 8)); u8 (Z.land value 0xFF)]
  else if value <? 0x200000 then
    [Z.lor 0xC0 (u8 (Z.shiftr value 16)); u8 (Z.shiftr value 8); u8 (Z.land value 0xFF)]
  else if value <? 0x10000000 then
    [Z.lor 0xE0 (u8 (Z.shiftr value 24)); u8 (Z.shiftr value 16); u8 (Z.shiftr value 8); u8 (Z.land value 0xFF)]
  else if value <? 0x100000000 then 0xF0 :: to_be_bytes 4 (u32 value)
  else 0xF4 :: to_be_bytes 8 value.

Example write_u64_lengths :
  length ∘ write_u64 <$> [0x7F; 0x80; 0x3FFF; 0x4000; 0x1FFFFF; 0x200000; 0xFFFFFFF; 0x10000000; 0x100000000]
  = [1; 2; 2; 3; 3; 4; 4; 5; 9]%nat.
Proof. vm_compute. reflexivity. Qed.

(** ** The header byte (lib.rs) *)

Inductive VoicePacketType := CeltAlpha | Ping | Speex | CeltBeta | Opus.

Definition type_bits (t : VoicePacketType) : Z :=
  match t with CeltAlpha => 0 | Ping => 1 | Speex => 2 | CeltBeta => 3 | Opus => 4 end.

Definition type_from_bits (bits : Z) : option VoicePacketType :=
  match Z.land bits 0x07 with
  | 0 => Some CeltAlpha | 1 => Some Ping | 2 => Some Speex | 3 => Some CeltBeta | 4 => Some Opus
  | _ => None
  end.

Inductive VoiceTargetKind := Normal | Whisper (n : Z) | Loopback.

Definition target_from_bits (bits : Z) : VoiceTargetKind :=
  match Z.land bits 0x1F with 0 => Normal | 31 => Loopback | n => Whisper n end.

Definition to_bits (t : VoiceTargetKind) : Z :=
  match t with Normal => 0 | Loopback => 31 | Whisper n => Z.land n 0x1F end.

(** ** A voice datagram (voice.rs) *)

Record VoicePacket := {
  codec : VoicePacketType; target : VoiceTargetKind; payload : list Z; audio_end : Z;
  position : option (Z * Z * Z)
}.

Definition has_position (v : VoicePacket) : bool := is_some (position v).

(** [&payload[..n]]. *)
Definition upto (n : Z) (bs : list Z) : option (list Z) :=
  if (0 <=? n) && (n <=? Z.of_nat (length bs)) then Some (take (Z.to_nat n) bs) else None.

(** [None] is the panic of a slice out of range. *)
Definition without_position (v : VoicePacket) : option (list Z) := upto (audio_end v) (payload v).

Definition position_bytes (p : Z * Z * Z) : list Z :=
  let '(x, y, z) := p in to_be_bytes 4 x ++ to_be_bytes 4 y ++ to_be_bytes 4 z.

Definition with_rewritten_position (v : VoicePacket) (p : Z * Z * Z) : option (list Z) :=
  (fun audio => audio ++ position_bytes p) <$> upto (audio_end v) (payload v).

Definition encode_outbound (session : Z) (v : VoicePacket) (with_position : bool) : option (list Z) :=
  match payload v with
  | [] => None
  | header :: rest =>
      let body := if with_position then Some rest
                  else upto (Z.min (audio_end v) (Z.of_nat (length (payload v))) - 1) rest in
      (fun body => header :: write_u64 session ++ body) <$> body
  end.

(** [skip]: [n] bytes of frame data. *)
Definition skip (n : Z) : SM PdsReader unit := repeat_m (Z.to_nat n) (_ ← read_raw_byte; mret tt).

(** One iteration of the loop over CELT and Speex frames. *)
Definition frames_step (again : SM PdsReader unit) : SM PdsReader unit :=
  h ← read_u64;
  _ ← skip (Z.land (u8 h) 0x7F);
  if Z.land (u8 h) 0x80 =? 0 then mret tt else again.

Definition frames : SM PdsReader unit := unbounded frames_step.

(** The part of [parse] that reads. *)
Definition read_audio (c : VoicePacketType) : SM PdsReader unit :=
  _ ← read_u64;
  match c with
  | Opus => hdr ← read_u64; skip (Z.land hdr 0x1FFF)
  | Ping => mret tt
  | _ => frames
  end.

Definition decode_position (tail : list Z) : option (Z * Z * Z) :=
  if (length tail =? 12)%nat
  then Some (from_be_bytes (take 4 tail), from_be_bytes (take 4 (drop 4 tail)), from_be_bytes (drop 8 tail))
  else None.

Definition parse (bytes : list Z) : option VoicePacket :=
  match bytes with
  | [] => None
  | header :: body =>
      match type_from_bits (Z.shiftr header 5) with
      | None => None
      | Some c =>
          let t := target_from_bits (Z.land header 0x1F) in
          match read_audio c (pds_new body) with
          | (None, _) => None
          | (Some _, r) =>
              let len := Z.of_nat (length bytes) in
              let audio_end := 1 + offset r in
              match c with
              | Ping => Some {| codec := c; target := t; payload := bytes;
                                audio_end := Z.min audio_end len; position := None |}
              | _ => Some {| codec := c; target := t; payload := bytes; audio_end := audio_end;
                             position := decode_position (drop (Z.to_nat (Z.min audio_end len)) bytes) |}
              end
          end
      end
  end.

(** ** Control framing (framing.rs) *)

Definition PREAMBLE_SIZE : Z := 6.
Definition MAX_MSGSIZE : Z := 8192 - PREAMBLE_SIZE.

Inductive MessageType :=
| Version | UdpTunnel | Authenticate | PingMsg | Reject | ServerSync | ChannelRemove | ChannelState
| UserRemove | UserState | BanList | TextMessage | PermissionDenied | Acl | QueryUsers | CryptSetup
| ContextActionModify | ContextAction | UserList | VoiceTarget | PermissionQuery | CodecVersion
| UserStats | RequestBlob | ServerConfig | SuggestConfig.

#[export] Instance MessageType_eq_dec : EqDecision MessageType.
Proof. solve_decision. Defined.

Definition from_u16 (v : Z) : option MessageType :=
  match v with
  | 0 => Some Version | 1 => Some UdpTunnel | 2 => Some Authenticate | 3 => Some PingMsg
  | 4 => Some Reject | 5 => Some ServerSync | 6 => Some ChannelRemove | 7 => Some ChannelState
  | 8 => Some UserRemove | 9 => Some UserState | 10 => Some BanList | 11 => Some TextMessage
  | 12 => Some PermissionDenied | 13 => Some Acl | 14 => Some QueryUsers | 15 => Some CryptSetup
  | 16 => Some ContextActionModify | 17 => Some ContextAction | 18 => Some UserList
  | 19 => Some VoiceTarget | 20 => Some PermissionQuery | 21 => Some CodecVersion | 22 => Some UserStats
  | 23 => Some RequestBlob | 24 => Some ServerConfig | 25 => Some SuggestConfig
  | _ => None
  end.

Definition tag (t : MessageType) : Z :=
  match t with
  | Version => 0 | UdpTunnel => 1 | Authenticate => 2 | PingMsg => 3 | Reject => 4 | ServerSync => 5
  | ChannelRemove => 6 | ChannelState => 7 | UserRemove => 8 | UserState => 9 | BanList => 10
  | TextMessage => 11 | PermissionDenied => 12 | Acl => 13 | QueryUsers => 14 | CryptSetup => 15
  | ContextActionModify => 16 | ContextAction => 17 | UserList => 18 | VoiceTarget => 19
  | PermissionQuery => 20 | CodecVersion => 21 | UserStats => 22 | RequestBlob => 23
  | ServerConfig => 24 | SuggestConfig => 25
  end.

Record Preamble := { ty : Z; len : Z }.

Definition preamble_parse (buf : list Z) : option Preamble :=
  if Z.of_nat (length buf) <? PREAMBLE_SIZE then None
  else Some {| ty := from_be_bytes (take 2 buf); len := from_be_bytes (take 4 (drop 2 buf)) |}.

Definition frame_len (p : Preamble) : Z := PREAMBLE_SIZE + len p.

(** [None]: [FrameError::TooLarge]. *)
Definition encode_frame (t : MessageType) (msg : list Z) : option (list Z) :=
  let n := Z.of_nat (length msg) in
  if MAX_MSGSIZE <? n then None
  else Some (to_be_bytes 2 (tag t) ++ to_be_bytes 4 (u32 n) ++ msg).

(** ** Readers that only look at what they consume

    [Consumes m a c]: on the bytes [c], whatever follows them and wherever
    they stand, [m] returns [a] and stops behind them. *)

Definition Consumes {A} (m : SM PdsReader A) (a : A) (c : list Z) : Prop :=
  forall l o, m {| remaining := c ++ l; offset := o |} =
    (Some a, {| remaining := l; offset := o + Z.of_nat (length c) |}).

(** Every success of [m] is of that kind. *)
Definition prefix_reader {A} (m : SM PdsReader A) : Prop :=
  forall l o a r, m {| remaining := l; offset := o |} = (Some a, r) ->
    exists c, l = c ++ remaining r /\ offset r = o + Z.of_nat (length c) /\ Consumes m a c.

Lemma consumes_ret {A} (a : A) : Consumes (mret a) a [].
Proof. intros l o. cbn. by rewrite Z.add_0_r. Qed.

Lemma consumes_next b : Consumes next_byte b [b].
Proof. by intros l o. Qed.

Lemma consumes_bind {A B} (m : SM PdsReader A) (k : A -> SM PdsReader B) a b c1 c2 :
  Consumes m a c1 -> Consumes (k a) b c2 -> Consumes (m ≫= k) b (c1 ++ c2).
Proof.
  intros H1 H2 l o. rewrite <- app_assoc, (bind_some _ _ _ _ _ (H1 _ _)), H2, length_app.
  do 2 f_equal. lia.
Qed.

Lemma prefix_ret {A} (a : A) : prefix_reader (mret a).
Proof. intros l o a' r [= <- <-]. exists []. cbn. split; [done|]. split; [lia|]. apply consumes_ret. Qed.

Lemma prefix_fail {A} : prefix_reader (@fail_with_none PdsReader A).
Proof. by intros l o a r [=]. Qed.

Lemma prefix_next : prefix_reader next_byte.
Proof.
  intros [|b l] o a r; [done|]. intros [= <- <-]. exists [b]. cbn. split; [done|]. split; [done|]. apply consumes_next.
Qed.

Lemma prefix_bind {A B} (m : SM PdsReader A) (k : A -> SM PdsReader B) :
  prefix_reader m -> (forall a, prefix_reader (k a)) -> prefix_reader (m ≫= k).
Proof.
  intros Hm Hk l o b r H. unfold mbind, SM_bind in H.
  destruct (m _) as [[a|] [l1 o1]] eqn:E; [|done].
  apply Hm in E as (c1 & -> & E1 & H1). cbn [remaining offset] in *. subst o1.
  apply Hk in H as (c2 & -> & Ho & H2). exists (c1 ++ c2). rewrite app_assoc, length_app. split; [done|].
  split; [lia|]. by eapply consumes_bind.
Qed.

Lemma prefix_if {A} (b : bool) (m n : SM PdsReader A) :
  prefix_reader m -> prefix_reader n -> prefix_reader (if b then m else n).
Proof. by destruct b. Qed.

Create HintDb prefix.
#[export] Hint Resolve prefix_ret prefix_fail prefix_next : prefix.
#[export] Hint Resolve prefix_bind prefix_if : prefix.

Lemma prefix_be n v : prefix_reader (read_be n v).
Proof. revert v. induction n; intros v; cbn [read_be]; auto with prefix. Qed.

Lemma prefix_repeat n m : prefix_reader m -> prefix_reader (repeat_m n m).
Proof. intros Hm. induction n; cbn [repeat_m]; auto with prefix. Qed.
#[export] Hint Resolve prefix_be prefix_repeat : prefix.

Lemma prefix_varint_step recur : prefix_reader recur -> prefix_reader (varint_step recur).
Proof. intros H. unfold varint_step. auto 30 with prefix. Qed.

(** A reader that recurses through a bounded number of levels, each consuming
    at least a byte before it recurses: any bound beyond the number of bytes
    gives the same result. *)
Section levels.
Context {A : Type} (step : SM PdsReader A -> SM PdsReader A).

(** The step depends on the recursion only behind the bytes it consumed. *)
Hypothesis step_local : forall f g r,
  (forall r', (length (remaining r') < length (remaining r))%nat -> f r' = g r') -> step f r = step g r.
Hypothesis step_mono : forall f g r a r',
  (forall r a r', f r = (Some a, r') -> g r = (Some a, r')) -> step f r = (Some a, r') -> step g r = (Some a, r').
Hypothesis step_prefix : forall f, prefix_reader f -> prefix_reader (step f).

Lemma levels_enough n : forall r, (length (remaining r) < n)%nat -> levels step n r = unbounded step r.
Proof.
  assert (H : forall n m r, (length (remaining r) < n)%nat -> (length (remaining r) < m)%nat -> levels step n r = levels step m r).
  { clear n. induction n as [|n IH]; intros [|m] r; [lia..|]. intros Hn Hm. cbn [levels].
    apply step_local. intros r' Hr'. apply IH; lia. }
  intros r Hr. apply H; lia.
Qed.

Lemma unbounded_unfold r : unbounded step r = step (unbounded step) r.
Proof.
  unfold unbounded at 1. cbn [levels]. apply step_local. intros r' Hr'. by apply levels_enough.
Qed.

Lemma levels_mono n : forall m r a r', (n <= m)%nat -> levels step n r = (Some a, r') -> levels step m r = (Some a, r').
Proof.
  induction n as [|n IH]; intros [|m] r a r' Hm; cbn [levels]; [done..|lia|].
  apply step_mono. intros. apply IH; [lia|done].
Qed.

Lemma prefix_unbounded : prefix_reader (unbounded step).
Proof.
  assert (Hp : forall n, prefix_reader (levels step n)) by (induction n; cbn [levels]; auto with prefix).
  intros l o a r H. destruct (Hp _ _ _ _ _ H) as (c & E & Ho & Hc). exists c. split; [done|]. split; [done|].
  intros l2 o2. rewrite <- (levels_enough (S (length l + length (c ++ l2)))).
  - eapply levels_mono; [|apply Hc]. cbn [remaining]. lia.
  - cbn [remaining]. lia.
Qed.
End levels.

(** ** Varints *)

Ltac reader_cases :=
  repeat match goal with
         | |- context [if ?b then _ else _] => destruct b
         end.

Lemma varint_local f g r :
  (forall r', (length (remaining r') < length (remaining r))%nat -> f r' = g r') ->
  varint_step f r = varint_step g r.
Proof.
  intros H. unfold varint_step, mbind, SM_bind, next_byte. destruct r as [[|v0 l] o]; [done|]. cbn [remaining offset] in *.
  reader_cases; try done. rewrite H; [done|]. cbn. lia.
Qed.

Lemma varint_mono f g r a r' :
  (forall r a r', f r = (Some a, r') -> g r = (Some a, r')) ->
  varint_step f r = (Some a, r') -> varint_step g r = (Some a, r').
Proof.
  intros H. unfold varint_step, mbind, SM_bind. destruct (next_byte r) as [[v0|] r1]; [|done].
  reader_cases; try done. destruct (f r1) as [[b|] r2] eqn:E; [|done]. by rewrite (H _ _ _ E).
Qed.

(** [read_u64] satisfies the equation of the source. *)
Lemma read_u64_unfold r : read_u64 r = varint_step read_u64 r.
Proof. apply unbounded_unfold. exact varint_local. Qed.

Lemma prefix_u64 : prefix_reader read_u64.
Proof. apply prefix_unbounded; eauto using varint_local, varint_mono, prefix_varint_step. Qed.
#[export] Hint Resolve prefix_u64 : prefix.

Lemma consumes_u64 v c : Consumes (varint_step read_u64) v c -> Consumes read_u64 v c.
Proof. intros H l o. rewrite read_u64_unfold. apply H. Qed.

Lemma below_checked (P : Z -> bool) n h : forallb P (seqZ 0 n) = true -> 0 <= h < n -> P h = true.
Proof. intros H Hh. rewrite forallb_forall in H. apply H, list_elem_of_In, elem_of_seqZ. lia. Qed.

Lemma shift_or h b n : 0 <= n -> is_u n b -> Z.lor (Z.shiftl h n) b = h * 2 ^ n + b.
Proof. intros Hn Hb. rewrite Z.lor_comm, lor_shiftl_add by done. lia. Qed.

Lemma to_be_bytes_S n z : to_be_bytes (S n) z = to_be_bytes n (Z.shiftr z 8) ++ [u8 z].
Proof. done. Qed.

Lemma read_be_cons n v : read_be (S n) v = (b ← next_byte; read_be n (Z.lor (u64 (Z.shiftl v 8)) b)).
Proof. done. Qed.

Lemma read_be_snoc n : forall v r,
  read_be (S n) v r = (w ← read_be n v; b ← next_byte; mret (Z.lor (u64 (Z.shiftl w 8)) b)) r.
Proof.
  induction n as [|n IH]; intros v r.
  - by rewrite read_be_cons.
  - rewrite read_be_cons, (read_be_cons n v). unfold mbind at 1, SM_bind at 1.
    destruct (next_byte r) as [[b|] r1] eqn:E; [rewrite IH|]; unfold mbind, SM_bind; by rewrite E.
Qed.

Lemma consumes_be n : forall z, 0 <= z < 2 ^ (8 * Z.of_nat n) -> (n <= 8)%nat ->
  Consumes (read_be n 0) z (to_be_bytes n z).
Proof.
  induction n as [|n IH]; intros z Hz Hn.
  { cbn in Hz. replace z with 0 by lia. apply consumes_ret. }
  intros l o. rewrite read_be_snoc, to_be_bytes_S.
  rewrite Nat2Z.inj_succ, Z.mul_succ_r, Z.pow_add_r in Hz by lia. change (2 ^ 8) with 256 in Hz.
  assert (H8 : 2 ^ (8 * Z.of_nat n) <= 2 ^ 56) by (apply Z.pow_le_mono_r; lia).
  rewrite Z.shiftr_div_pow2 by lia. change (2 ^ 8) with 256.
  assert (Hq : 0 <= z / 256 < 2 ^ (8 * Z.of_nat n)).
  { split; [apply Z.div_pos; lia|]. apply Z.div_lt_upper_bound; lia. }
  assert (E : Z.lor (u64 (Z.shiftl (z / 256) 8)) (u8 z) = z).
  { unfold u64. rewrite Z.shiftl_mul_pow2, (Z.mod_small (_ * _)), <- Z.shiftl_mul_pow2, shift_or by (apply is_u_mod || lia; lia).
    unfold u8. change (2 ^ 8) with 256. pose proof (Z.div_mod z 256). lia. }
  assert (C : Consumes (w ← read_be n 0; b ← next_byte; mret (Z.lor (u64 (Z.shiftl w 8)) b))
    (Z.lor (u64 (Z.shiftl (z / 256) 8)) (u8 z)) (to_be_bytes n (z / 256) ++ [u8 z])).
  { apply (consumes_bind _ _ _ _ _ _ (IH _ Hq ltac:(lia))).
    apply (consumes_bind _ _ _ _ [u8 z] [] (consumes_next _)). apply consumes_ret. }
  rewrite E in C. apply C.
Qed.

(** The tests on a leading byte, in order. *)
Definition lead_tests (v0 : Z) : list bool :=
  [Z.land v0 0x80 =? 0; Z.land v0 0xC0 =? 0x80; Z.land v0 0xE0 =? 0xC0; Z.land v0 0xF0 =? 0xE0].

Lemma lead_byte lead bits n k expected h :
  forallb (fun h => bool_decide (take k (lead_tests (Z.lor lead h)) = expected) && (Z.land (Z.lor lead h) bits =? h))
    (seqZ 0 n) = true ->
  0 <= h < n -> take k (lead_tests (Z.lor lead h)) = expected /\ Z.land (Z.lor lead h) bits = h.
Proof.
  intros H Hh. apply (below_checked _ _ _ H) in Hh. apply andb_prop in Hh as [H1 H2].
  by apply bool_decide_eq_true in H1; apply Z.eqb_eq in H2.
Qed.

Lemma byte_at v k : 0 <= v -> 0 <= k -> u8 (Z.shiftr v k) = v / 2 ^ k mod 256.
Proof. intros. unfold u8. by rewrite Z.shiftr_div_pow2. Qed.

Lemma low_byte v : u8 (Z.land v 0xFF) = v mod 256.
Proof.
  change 0xFF with (Z.ones 8). rewrite Z.land_ones by lia. unfold u8. change (2 ^ 8) with 256.
  by rewrite Z.mod_mod by lia.
Qed.

Ltac step_bytes := unfold varint_step, mbind, SM_bind, next_byte; cbn [remaining offset app].

Lemma write_u64_consumes v : is_u 64 v -> Consumes read_u64 v (write_u64 v).
Proof.
  unfold is_u. intros Hv. apply consumes_u64. unfold write_u64. rewrite low_byte, !byte_at by lia.
  destruct (Z.ltb_spec v 0x80) as [H1|H1].
  { intros l o. unfold u8. rewrite (u_id 8) by (unfold is_u; lia). step_bytes.
    assert (E : (Z.land v 0x80 =? 0) = true); [|by rewrite E].
    apply (below_checked (fun v => Z.land v 0x80 =? 0) 128); [by vm_compute|lia]. }
  destruct (Z.ltb_spec v 0x4000) as [H2|H2].
  { destruct (lead_byte 0x80 0x3F 64 2 [false; true] (v / 2 ^ 8 mod 256)) as [[= T1 T2] Eb]; [by vm_compute|zdm|].
    intros l o. step_bytes. rewrite T1, T2, Eb. cbn [remaining offset].
    rewrite shift_or by (unfold is_u; zdm || lia). unfold mret, SM_ret. do 2 f_equal; [zdm|cbn [length]; lia]. }
  destruct (Z.ltb_spec v 0x200000) as [H3|H3].
  { destruct (lead_byte 0xC0 0x1F 32 3 [false; false; true] (v / 2 ^ 16 mod 256)) as [[= T1 T2 T3] Eb]; [by vm_compute|zdm|].
    intros l o. step_bytes. rewrite T1, T2, T3, Eb. cbn [remaining offset].
    rewrite <- Z.lor_assoc, (shift_or (v / 2 ^ 8 mod 256)), shift_or by (unfold is_u; zdm || lia).
    unfold mret, SM_ret. do 2 f_equal; [zdm|cbn [length]; lia]. }
  destruct (Z.ltb_spec v 0x10000000) as [H4|H4].
  { destruct (lead_byte 0xE0 0x0F 16 4 [false; false; false; true] (v / 2 ^ 24 mod 256)) as [[= T1 T2 T3 T4] Eb]; [by vm_compute|zdm|].
    intros l o. step_bytes. rewrite T1, T2, T3, T4, Eb. cbn [remaining offset].
    rewrite <- !Z.lor_assoc, (shift_or (v / 2 ^ 8 mod 256)), (shift_or (v / 2 ^ 16 mod 256)), shift_or by (unfold is_u; zdm || lia).
    unfold mret, SM_ret. do 2 f_equal; [zdm|cbn [length]; lia]. }
  destruct (Z.ltb_spec v 0x100000000) as [H5|H5].
  - unfold u32. rewrite (u_id 32) by (unfold is_u; lia). intros l o.
    pose proof (consumes_be 4 v ltac:(cbn; lia) ltac:(lia) l (o + 1)) as H. rewrite length_to_be_bytes in H.
    etransitivity; [exact H|]. cbn [length]. rewrite length_to_be_bytes. do 2 f_equal. lia.
  - intros l o.
    pose proof (consumes_be 8 v ltac:(cbn; lia) ltac:(lia) l (o + 1)) as H. rewrite length_to_be_bytes in H.
    etransitivity; [exact H|]. cbn [length]. rewrite length_to_be_bytes. do 2 f_equal. lia.
Qed.

Lemma write_u64_ok v : is_u 64 v -> bytes_ok (write_u64 v).
Proof.
  unfold is_u. intros Hv. unfold write_u64. rewrite low_byte, !byte_at by lia.
  assert (Hm : forall a, is_u 8 (a mod 256)) by (intros; by apply (is_u_mod 8)).
  assert (Hl : forall a b, is_u 8 a -> is_u 8 (Z.lor a (b mod 256))) by (intros; by apply is_u_lor).
  assert (Hb : forall n z, bytes_ok (to_be_bytes n z)).
  { intros n z. unfold to_be_bytes. apply Forall_rev, to_le_bytes_ok. }
  assert (Hc : forall a, is_u 8 a -> forall l, bytes_ok l -> bytes_ok (a :: l)) by auto.
  repeat case_match; repeat apply Hc; auto; try apply Hl; try apply Hm; unfold is_u; lia.
Qed.

(** Whatever reads a varint first gets shorter. *)
Lemma read_u64_shorter r v r' : read_u64 r = (Some v, r') -> (length (remaining r') < length (remaining r))%nat.
Proof.
  destruct r as [l o]. intros H. pose proof (prefix_u64 _ _ _ _ H) as (c & -> & _ & Hc).
  destruct c as [|b c]; [|cbn [remaining app length]; rewrite length_app; lia].
  specialize (Hc [] 0). rewrite read_u64_unfold in Hc. done.
Qed.

Lemma prefix_skip n : prefix_reader (skip n).
Proof. unfold skip, read_raw_byte. auto with prefix. Qed.
#[export] Hint Resolve prefix_skip : prefix.

Lemma prefix_shorter {A} (m : SM PdsReader A) r a r' :
  prefix_reader m -> m r = (Some a, r') -> (length (remaining r') <= length (remaining r))%nat.
Proof.
  intros Hm H. destruct r as [l o]. apply Hm in H as (c & -> & _). cbn [remaining]. rewrite length_app. lia.
Qed.

Lemma frames_local f g r :
  (forall r', (length (remaining r') < length (remaining r))%nat -> f r' = g r') ->
  frames_step f r = frames_step g r.
Proof.
  intros H. unfold frames_step, mbind, SM_bind. destruct (read_u64 r) as [[h|] r1] eqn:E1; [|done].
  destruct (skip _ r1) as [[u|] r2] eqn:E2; [|done]. reader_cases; [done|].
  apply H. apply read_u64_shorter in E1. apply prefix_shorter in E2; [lia|apply prefix_skip].
Qed.

Lemma frames_mono f g r a r' :
  (forall r a r', f r = (Some a, r') -> g r = (Some a, r')) ->
  frames_step f r = (Some a, r') -> frames_step g r = (Some a, r').
Proof.
  intros H. unfold frames_step, mbind, SM_bind. destruct (read_u64 r) as [[h|] r1]; [|done].
  destruct (skip _ r1) as [[u|] r2]; [|done]. reader_cases; [done|]. apply H.
Qed.

(** [frames] satisfies the equation of the source's loop. *)
Lemma frames_unfold r : frames r = frames_step frames r.
Proof. apply unbounded_unfold. exact frames_local. Qed.

Lemma prefix_frames : prefix_reader frames.
Proof.
  apply prefix_unbounded; [exact frames_local|exact frames_mono|].
  intros f Hf. unfold frames_step. auto with prefix.
Qed.
#[export] Hint Resolve prefix_frames : prefix.

Lemma prefix_audio c : prefix_reader (read_audio c).
Proof. unfold read_audio. destruct c; auto with prefix. Qed.

(** ** The codec *)

(** a varint is read back as the number it encodes, whatever follows it,
    with the cursor right behind it; it takes at most nine bytes, and cut
    short anywhere it is refused. *)
Theorem varint_round_trip v tail o :
  is_u 64 v ->
  read_u64 {| remaining := write_u64 v ++ tail; offset := o |} =
    (Some v, {| remaining := tail; offset := o + Z.of_nat (length (write_u64 v)) |}) /\
  bytes_ok (write_u64 v) /\ (1 <= length (write_u64 v) <= 9)%nat /\
  (forall p q, write_u64 v = p ++ q -> q <> [] -> (read_u64 (pds_new p)).1 = None).
Proof.
  intros Hv. pose proof (write_u64_consumes v Hv) as Hc. split; [apply Hc|]. split; [by apply write_u64_ok|]. split.
  { unfold write_u64. repeat case_match; cbn [length]; rewrite ?length_to_be_bytes; lia. }
  intros p q E Hq. unfold pds_new. destruct (read_u64 _) as [[w|] r] eqn:Er; [|done]. exfalso.
  apply prefix_u64 in Er as (c & Ec & _ & Hc2). specialize (Hc [] 0). rewrite E, Ec in Hc.
  rewrite <- !app_assoc in Hc. rewrite Hc2 in Hc. injection Hc as _ H _.
  apply app_nil in H as [_ H]. by apply app_nil in H as [H _].
Qed.

Lemma varint_round_trip_witness :
  is_u 64 300 /\ (read_u64 (pds_new (write_u64 300 ++ [7]))).1 = Some 300.
Proof.
  assert (H : is_u 64 300) by (unfold is_u; lia). split; [exact H|].
  destruct (varint_round_trip 300 [7] 0 H) as [E _]. unfold pds_new. rewrite E. reflexivity.
Defined.

Lemma from_be_ok bs : bytes_ok bs -> to_be_bytes (length bs) (from_be_bytes bs) = bs.
Proof.
  intros H. unfold to_be_bytes, from_be_bytes. rewrite <- (length_rev bs).
  rewrite to_from_le_bytes by by apply Forall_rev. by rewrite rev_involutive.
Qed.

(** What a successful parse says: the audio is the header byte and what the
    reader consumed, the rest is the tail. *)
Lemma parse_inv bytes v :
  parse bytes = Some v ->
  exists h c audio tail,
    type_from_bits (Z.shiftr h 5) = Some c /\ bytes = (h :: audio) ++ tail /\ Consumes (read_audio c) tt audio /\
    v = {| codec := c; target := target_from_bits (Z.land h 0x1F); payload := bytes;
           audio_end := Z.of_nat (length (h :: audio));
           position := match c with Ping => None | _ => decode_position tail end |}.
Proof.
  destruct bytes as [|h body]; [done|]. unfold parse. destruct (type_from_bits _) as [c|] eqn:Ec; [|done].
  destruct (read_audio c (pds_new body)) as [[[]|] [tl o]] eqn:Er; [|done].
  apply prefix_audio in Er as (audio & -> & Ho & Hc). cbn [remaining offset] in *. subst o.
  intros H. exists h, c, audio, tl. split; [done|]. split; [done|]. split; [done|].
  assert (El : 1 + (0 + Z.of_nat (length audio)) = Z.of_nat (length (h :: audio))) by (cbn [length]; lia).
  assert (Em : Z.min (Z.of_nat (length (h :: audio))) (Z.of_nat (length (h :: audio ++ tl))) =
               Z.of_nat (length (h :: audio))) by (cbn [length]; rewrite length_app; lia).
  rewrite El, Em, Nat2Z.id in H.
  change (h :: audio ++ tl) with ((h :: audio) ++ tl) in H. rewrite drop_app_length in H.
  by destruct c; injection H as <-.
Qed.

(** The converse: the parse of a header, an audio part its codec consumes, and
    any tail. *)
Lemma parse_intro h c audio tail :
  type_from_bits (Z.shiftr h 5) = Some c -> Consumes (read_audio c) tt audio ->
  parse ((h :: audio) ++ tail) =
    Some {| codec := c; target := target_from_bits (Z.land h 0x1F); payload := (h :: audio) ++ tail;
            audio_end := Z.of_nat (length (h :: audio));
            position := match c with Ping => None | _ => decode_position tail end |}.
Proof.
  intros Ec Hc. unfold parse. cbn [app]. rewrite Ec. unfold pds_new. rewrite (Hc tail 0). cbn [offset].
  assert (El : 1 + (0 + Z.of_nat (length audio)) = Z.of_nat (length (h :: audio))) by (cbn [length]; lia).
  assert (Em : Z.min (Z.of_nat (length (h :: audio))) (Z.of_nat (length (h :: audio ++ tail))) =
               Z.of_nat (length (h :: audio))) by (cbn [length]; rewrite length_app; lia).
  rewrite El, Em, Nat2Z.id. change (h :: audio ++ tail) with ((h :: audio) ++ tail).
  rewrite drop_app_length. by destruct c.
Qed.

Lemma upto_app a b : upto (Z.of_nat (length a)) (a ++ b) = Some a.
Proof.
  unfold upto. rewrite length_app, Nat2Z.id, take_app_length.
  assert (E : (0 <=? Z.of_nat (length a)) && (Z.of_nat (length a) <=? Z.of_nat (length a + length b)) = true)
    by (apply andb_true_iff; split; apply Z.leb_le; lia).
  by rewrite E.
Qed.

Lemma decode_position_bytes p :
  (let '(x, y, z) := p in is_u 32 x /\ is_u 32 y /\ is_u 32 z) -> decode_position (position_bytes p) = Some p.
Proof.
  destruct p as [[x y] z]. intros (Hx & Hy & Hz). unfold decode_position, position_bytes.
  rewrite !length_app, !length_to_be_bytes. change (4 + (4 + 4) =? 12)%nat with true. cbn match.
  replace 8%nat with (4 + 4)%nat by done. rewrite <- drop_drop.
  assert (T : forall a l, take 4 (to_be_bytes 4 a ++ l) = to_be_bytes 4 a).
  { intros a l. rewrite <- (length_to_be_bytes 4 a) at 1. apply take_app_length. }
  assert (D : forall a l, drop 4 (to_be_bytes 4 a ++ l) = l).
  { intros a l. rewrite <- (length_to_be_bytes 4 a) at 1. apply drop_app_length. }
  rewrite T, !D, T. by rewrite !from_to_be_bytes.
Qed.

Lemma decode_position_inv tail p :
  bytes_ok tail -> decode_position tail = Some p -> position_bytes p = tail.
Proof.
  intros Hok. unfold decode_position. destruct (Nat.eqb_spec (length tail) 12) as [El|]; [|done]. intros [= <-].
  unfold position_bytes.
  assert (B : forall l, bytes_ok l -> length l = 4%nat -> to_be_bytes 4 (from_be_bytes l) = l).
  { intros l Hl H4. rewrite <- H4 at 1. by apply from_be_ok. }
  rewrite !B by first [solve [repeat first [apply Forall_take|apply Forall_drop|exact Hok]]|
                       rewrite ?length_take, ?length_drop; lia].
  replace 8%nat with (4 + 4)%nat by done. by rewrite <- drop_drop, take_drop, take_drop.
Qed.

(** parsing any bytes either refuses them or splits them into an audio part
    and a tail, without a slice out of range in anything the server then does
    with the packet: the audio is at least the header byte, the position is
    there exactly when the packet is no ping and the tail is the twelve bytes
    that encode it. *)
Theorem parse_sound bytes v :
  bytes_ok bytes -> parse bytes = Some v ->
  payload v = bytes /\
  exists audio tail,
    bytes = audio ++ tail /\ without_position v = Some audio /\ (1 <= length audio)%nat /\
    match position v with
    | Some p => codec v <> Ping /\ tail = position_bytes p
    | None => codec v = Ping \/ length tail <> 12%nat
    end /\
    (forall speaker with_pos, is_some (encode_outbound speaker v with_pos) = true) /\
    (forall p, is_some (with_rewritten_position v p) = true).
Proof.
  intros Hok (h & c & audio & tail & Ec & Eb & Hc & Ev)%parse_inv. rewrite Ev. cbn [payload]. split; [done|].
  exists (h :: audio), tail. split; [done|].
  assert (Hu : upto (Z.of_nat (length (h :: audio))) bytes = Some (h :: audio)) by (rewrite Eb; apply upto_app).
  split; [exact Hu|]. split; [cbn; lia|]. cbn [position codec]. split; [|split].
  - rewrite Eb in Hok. apply Forall_app in Hok as [_ Hok]. destruct c; [..|]; try (by left);
      (destruct (decode_position tail) as [p|] eqn:Ep; [split; [done|]; by rewrite (decode_position_inv _ _ Hok Ep)|]; right;
       unfold decode_position in Ep; by destruct (Nat.eqb_spec (length tail) 12)).
  - intros sp wp. unfold encode_outbound. cbn [payload audio_end]. rewrite Eb. cbn [app].
    destruct wp; [done|].
    replace (Z.min _ _ - 1) with (Z.of_nat (length audio)); [by rewrite upto_app|].
    cbn [length]. rewrite length_app. lia.
  - intros p. unfold with_rewritten_position. cbn [payload audio_end]. by rewrite Hu.
Qed.

(** An Opus packet to whisper target 3 with a position. *)
Definition sample_packet : list Z :=
  131 :: write_u64 42 ++ write_u64 3 ++ [9; 9; 9] ++ position_bytes (0x3F800000, 0x40000000, 0).

Example sample_parses :
  parse sample_packet = Some {| codec := Opus; target := Whisper 3; payload := sample_packet; audio_end := 6;
                                position := Some (0x3F800000, 0x40000000, 0) |}.
Proof. vm_compute. reflexivity. Qed.

Lemma parse_sound_witness :
  is_some (parse sample_packet) = true /\
  exists audio tail, sample_packet = audio ++ tail /\ (1 <= length audio)%nat.
Proof.
  split; [vm_compute; reflexivity|].
  destruct (parse sample_packet) as [v|] eqn:E; [|vm_compute in E; discriminate].
  destruct (parse_sound sample_packet v) as (_ & audio & tail & H & _ & Hl & _);
    [apply (bool_decide_eq_true_1 (bytes_ok sample_packet)); vm_compute; reflexivity|exact E|].
  exists audio, tail. split; [exact H|exact Hl].
Defined.

(** what the server relays. A listener reads the header byte, the id of the
    speaker and then, byte for byte, what the speaker sent behind its header;
    without position, all of it but the tail, which is the twelve bytes of the
    position if there is one. *)
Theorem relay_faithful bytes v speaker :
  parse bytes = Some v -> is_u 64 speaker ->
  exists header audio tail,
    bytes = header :: audio ++ tail /\ without_position v = Some (header :: audio) /\
    (has_position v = true -> length tail = 12%nat) /\
    forall with_pos, exists out,
      encode_outbound speaker v with_pos = Some (header :: out) /\
      read_u64 (pds_new out) =
        (Some speaker, {| remaining := if with_pos then audio ++ tail else audio;
                          offset := Z.of_nat (length (write_u64 speaker)) |}).
Proof.
  intros (h & c & audio & tail & Ec & -> & Hc & ->)%parse_inv Hs. exists h, audio, tail. split; [done|].
  split; [apply upto_app|]. split.
  { unfold has_position, decode_position. cbn [position].
    destruct c; try done; by destruct (Nat.eqb_spec (length tail) 12). }
  intros with_pos. unfold encode_outbound. cbn [payload audio_end app].
  pose proof (write_u64_consumes speaker Hs) as Hr. destruct with_pos.
  - exists (write_u64 speaker ++ (audio ++ tail)). split; [done|]. apply Hr.
  - replace (Z.min _ _ - 1) with (Z.of_nat (length audio)) by (cbn [length]; rewrite length_app; lia).
    rewrite upto_app. exists (write_u64 speaker ++ audio). split; [done|]. apply Hr.
Qed.

Lemma relay_faithful_witness :
  is_some (parse sample_packet) = true /\ is_u 64 9 /\
  exists header audio tail, sample_packet = header :: audio ++ tail.
Proof.
  assert (H9 : is_u 64 9) by (unfold is_u; lia). split; [vm_compute; reflexivity|]. split; [exact H9|].
  destruct (parse sample_packet) as [v|] eqn:E; [|vm_compute in E; discriminate].
  destruct (relay_faithful sample_packet v 9 E H9) as (h & a & t & H & _). exists h, a, t. exact H.
Defined.

(** rewriting the position of a packet gives a packet that parses to the
    same codec, target and audio, with the new position. *)
Theorem rewritten_position_parses bytes v x y z :
  parse bytes = Some v -> codec v <> Ping -> is_u 32 x -> is_u 32 y -> is_u 32 z ->
  exists out w,
    with_rewritten_position v (x, y, z) = Some out /\ parse out = Some w /\
    position w = Some (x, y, z) /\ codec w = codec v /\ target w = target v /\
    without_position w = without_position v.
Proof.
  intros (h & c & audio & tail & Ec & -> & Hc & ->)%parse_inv Hp Hx Hy Hz. cbn [codec] in Hp.
  exists ((h :: audio) ++ position_bytes (x, y, z)). eexists. split.
  { unfold with_rewritten_position. cbn [payload audio_end]. by rewrite upto_app. }
  split; [by apply parse_intro|]. cbn [position codec target]. split.
  { pose proof (decode_position_bytes (x, y, z) (conj Hx (conj Hy Hz))) as E. by destruct c. }
  split; [done|]. split; [done|]. unfold without_position. cbn [payload audio_end]. by rewrite !upto_app.
Qed.

Lemma rewritten_position_parses_witness :
  exists out w, parse out = Some w /\ position w = Some (7, 8, 9).
Proof.
  destruct (parse sample_packet) as [v|] eqn:E; [|vm_compute in E; discriminate].
  destruct (rewritten_position_parses sample_packet v 7 8 9 E) as (out & w & _ & H & Hp & _);
    [vm_compute in E; injection E as <-; discriminate|unfold is_u; lia|unfold is_u; lia|unfold is_u; lia|].
  exists out, w. split; [exact H|exact Hp].
Defined.

(** ** Framing *)

Lemma tag_u16 t : is_u 16 (tag t).
Proof. unfold is_u. destruct t; cbn; lia. Qed.

(** a framed control message is taken apart as it was put together: the
    preamble gives back its type and length, and the length tells where the
    frame ends; a message is refused exactly when it is too long for the
    receiver, and fewer bytes than a preamble are never misread. *)
Theorem frame_round_trip t msg more :
  match encode_frame t msg with
  | Some f =>
      exists p, preamble_parse (f ++ more) = Some p /\ from_u16 (ty p) = Some t /\ len p <= MAX_MSGSIZE /\
        take (Z.to_nat (frame_len p)) (f ++ more) = f /\ drop (Z.to_nat PREAMBLE_SIZE) f = msg /\
        (forall n, (n < Z.to_nat PREAMBLE_SIZE)%nat -> preamble_parse (take n f) = None)
  | None => MAX_MSGSIZE < Z.of_nat (length msg)
  end.
Proof.
  unfold encode_frame. destruct (Z.ltb_spec MAX_MSGSIZE (Z.of_nat (length msg))) as [Hl|Hl]; [done|].
  set (n := Z.of_nat (length msg)) in *. assert (Hn : is_u 32 n) by (unfold is_u, MAX_MSGSIZE, PREAMBLE_SIZE in *; lia).
  unfold u32. rewrite (u_id 32 n Hn). set (T := to_be_bytes 2 (tag t)). set (L := to_be_bytes 4 n).
  assert (HT : length T = 2%nat) by apply length_to_be_bytes. assert (HL : length L = 4%nat) by apply length_to_be_bytes.
  exists {| ty := tag t; len := n |}. cbn [ty len]. split; [|split; [|split; [done|split; [|split]]]].
  - unfold preamble_parse. rewrite !length_app, HT, HL.
    destruct (Z.ltb_spec (Z.of_nat (2 + (4 + length msg) + length more)) PREAMBLE_SIZE) as [H|_];
      [unfold PREAMBLE_SIZE in H; lia|].
    assert (E1 : forall X, take 2 (T ++ X) = T) by (intros; by rewrite <- HT, take_app_length).
    assert (E2 : forall X, drop 2 (T ++ X) = X) by (intros; by rewrite <- HT, drop_app_length).
    assert (E3 : forall X, take 4 (L ++ X) = L) by (intros; by rewrite <- HL, take_app_length).
    rewrite <- !app_assoc, E1, E2, E3.
    unfold T, L. rewrite !from_to_be_bytes; [done|exact Hn|apply tag_u16].
  - by destruct t.
  - unfold frame_len, PREAMBLE_SIZE. cbn [len].
    replace (Z.to_nat (6 + n)) with (length (T ++ L ++ msg)) by (rewrite !length_app; lia). apply take_app_length.
  - rewrite app_assoc. replace (Z.to_nat PREAMBLE_SIZE) with (length (T ++ L)) by (rewrite length_app, HT, HL; done).
    apply drop_app_length.
  - intros k Hk. unfold preamble_parse. rewrite length_take. unfold PREAMBLE_SIZE in *.
    destruct (Z.ltb_spec (Z.of_nat (k `min` length (T ++ L ++ msg))) 6); [done|lia].
Qed.
