(* ===== verification/VoiceCrypto.v ===== *)
(** * The encryption of voice datagrams (src/crates/baston-voice/src/crypto.rs)

    OCB2 over AES-128 and the rolling nonces of Mumble. AES itself is a
    library: a block cipher, of which the code relies on decryption undoing
    encryption. A block, a nonce and a packet are lists of bytes. *)

From S2P Require Import Prelude VoicePacket.

(** ** Blocks *)

Definition BLOCK : nat := 16.

Definition block_ok (b : list Z) : Prop := bytes_ok b /\ length b = BLOCK.

(** What the AES library provides under one key. *)
Class BlockCipher := { aes_encrypt : list Z -> list Z; aes_decrypt : list Z -> list Z }.
Class BlockCipherLaws (C : BlockCipher) := {
  aes_encrypt_ok b : block_ok b -> block_ok (aes_encrypt b);
  aes_decrypt_encrypt b : block_ok b -> aes_decrypt (aes_encrypt b) = b
}.

(** [out[i] = (block[i] << 1) | (block[i + 1] >> 7)]. *)
Fixpoint shl1 (b : list Z) : list Z :=
  match b with
  | [] => []
  | x :: rest => Z.lor (u8 (Z.shiftl x 1)) (match rest with y :: _ => Z.shiftr y 7 | [] => 0 end) :: shl1 rest
  end.

Definition times2 (b : list Z) : list Z :=
  let carry := Z.shiftr (nth 0 b 0) 7 in
  let out := shl1 b in
  if carry =? 1 then alter (fun x => Z.lxor x 0x87) (BLOCK - 1)%nat out else out.

Definition xor (a b : list Z) : list Z := zip_with Z.lxor a b.

Definition times3 (b : list Z) : list Z := xor b (times2 b).

Definition zero_block : list Z := replicate BLOCK 0.

(** The block holding the bit length of the last chunk. *)
Definition length_block (len : nat) : list Z := replicate 8 0 ++ to_be_bytes 8 (u64 (Z.of_nat len * 8)).

(** ** OCB2 *)

Section cipher.
Context {C : BlockCipher}.

(** [while len > BLOCK]; as many rounds as there are bytes are more than
    enough ([ocb_loop_exit]). The state: the input left, [delta], the checksum
    and the output. *)
Fixpoint encrypt_loop (rounds : nat) (plain delta checksum encrypted : list Z)
    : list Z * list Z * list Z * list Z :=
  match rounds with
  | O => (plain, delta, checksum, encrypted)
  | S rounds' =>
      if (length plain <=? BLOCK)%nat then (plain, delta, checksum, encrypted)
      else
        let delta := times2 delta in
        let chunk := take BLOCK plain in
        let tmp := aes_encrypt (xor delta chunk) in
        encrypt_loop rounds' (drop BLOCK plain) delta (xor checksum chunk) (encrypted ++ xor delta tmp)
  end.

Fixpoint decrypt_loop (rounds : nat) (encrypted delta checksum plain : list Z)
    : list Z * list Z * list Z * list Z :=
  match rounds with
  | O => (encrypted, delta, checksum, plain)
  | S rounds' =>
      if (length encrypted <=? BLOCK)%nat then (encrypted, delta, checksum, plain)
      else
        let delta := times2 delta in
        let chunk := take BLOCK encrypted in
        let tmp := aes_decrypt (xor delta chunk) in
        let p := xor delta tmp in
        decrypt_loop rounds' (drop BLOCK encrypted) delta (xor checksum p) (plain ++ p)
  end.

(** The ciphertext and the tag. *)
Definition ocb_encrypt (plain nonce : list Z) : list Z * list Z :=
  let '(rest, delta, checksum, encrypted) :=
    encrypt_loop (length plain) plain (aes_encrypt nonce) zero_block [] in
  let len := length rest in
  let delta := times2 delta in
  let pad := aes_encrypt (xor (length_block len) delta) in
  let last := rest ++ drop len pad in
  let checksum := xor checksum last in
  let cipher_last := xor pad last in
  (encrypted ++ take len cipher_last, aes_encrypt (xor (times3 delta) checksum)).

Definition ocb_decrypt (encrypted nonce : list Z) : list Z * list Z :=
  let '(rest, delta, checksum, plain) :=
    decrypt_loop (length encrypted) encrypted (aes_encrypt nonce) zero_block [] in
  let len := length rest in
  let delta := times2 delta in
  let pad := aes_encrypt (xor (length_block len) delta) in
  let last := xor (take len pad) rest ++ drop len pad in
  let checksum := xor checksum last in
  (plain ++ take len last, aes_encrypt (xor (times3 delta) checksum)).

(** ** The state of a peer *)

Record CryptState := {
  encrypt_iv : list Z; decrypt_iv : list Z; decrypt_history : list Z;
  good : Z; late : Z; lost : Z
}.

Definition crypt_new (enc_iv dec_iv : list Z) : CryptState :=
  {| encrypt_iv := enc_iv; decrypt_iv := dec_iv; decrypt_history := replicate 256 0;
     good := 0; late := 0; lost := 0 |}.

(** [for b in iv { *b = b.wrapping_add(1); if *b != 0 { break } }]. *)
Fixpoint increment (iv : list Z) : list Z :=
  match iv with
  | [] => []
  | b :: rest => let b' := u8 (b + 1) in b' :: (if b' =? 0 then increment rest else rest)
  end.

(** [let was = *b; *b = b.wrapping_sub(1); if was != 0 { break }]. *)
Fixpoint decrement (iv : list Z) : list Z :=
  match iv with
  | [] => []
  | b :: rest => u8 (b - 1) :: (if b =? 0 then decrement rest else rest)
  end.

Definition encrypt (st : CryptState) (source : list Z) : list Z * CryptState :=
  let iv := increment (encrypt_iv st) in
  let '(cipher, tag) := ocb_encrypt source iv in
  (nth 0 iv 0 :: take 3 tag ++ cipher,
   {| encrypt_iv := iv; decrypt_iv := decrypt_iv st; decrypt_history := decrypt_history st;
      good := good st; late := late st; lost := lost st |}).

(** The nonce the packet's first byte stands for, with the packet's count as
    late and lost, and whether the nonce is only borrowed. [None]: refused. *)
Record Advance := { a_iv : list Z; a_late : Z; a_lost : Z; a_restore : bool }.

Definition advance (st : CryptState) (ivbyte : Z) : option Advance :=
  let iv0 := nth 0 (decrypt_iv st) 0 in
  let rest := tail (decrypt_iv st) in
  if u8 (Z.land (iv0 + 1) 0xFF) =? ivbyte then
    if iv0 <? ivbyte then Some {| a_iv := ivbyte :: rest; a_late := 0; a_lost := 0; a_restore := false |}
    else if ivbyte <? iv0
    then Some {| a_iv := ivbyte :: increment rest; a_late := 0; a_lost := 0; a_restore := false |}
    else None
  else
    let diff := ivbyte - iv0 in
    let diff := if 128 <? diff then diff - 256 else if diff <? -128 then diff + 256 else diff in
    let moved :=
      if (ivbyte <? iv0) && (-30 <? diff) && (diff <? 0)
      then Some {| a_iv := ivbyte :: rest; a_late := 1; a_lost := -1; a_restore := true |}
      else if (iv0 <? ivbyte) && (-30 <? diff) && (diff <? 0)
      then Some {| a_iv := ivbyte :: decrement rest; a_late := 1; a_lost := -1; a_restore := true |}
      else if (iv0 <? ivbyte) && (0 <? diff)
      then Some {| a_iv := ivbyte :: rest; a_late := 0; a_lost := u8 (u8 (ivbyte - iv0) - 1); a_restore := false |}
      else if (ivbyte <? iv0) && (0 <? diff)
      then Some {| a_iv := ivbyte :: increment rest; a_late := 0; a_lost := 256 - iv0 + ivbyte - 1; a_restore := false |}
      else None in
    match moved with
    | Some a => if nth (Z.to_nat (nth 0 (a_iv a) 0)) (decrypt_history st) 0 =? nth 1 (a_iv a) 0 then None else moved
    | None => None
    end.

Definition accepted (st : CryptState) (a : Advance) : CryptState :=
  {| encrypt_iv := encrypt_iv st;
     decrypt_iv := if a_restore a then decrypt_iv st else a_iv a;
     decrypt_history := <[Z.to_nat (nth 0 (a_iv a) 0) := nth 1 (a_iv a) 0]> (decrypt_history st);
     good := u32 (good st + 1);
     late := u32 (late st + a_late a);
     lost := if 0 <? a_lost a then u32 (lost st + u32 (a_lost a)) else lost st |}.

Definition decrypt (st : CryptState) (source : list Z) : option (list Z) * CryptState :=
  match source with
  | ivbyte :: t0 :: t1 :: t2 :: body =>
      match advance st ivbyte with
      | None => (None, st)
      | Some a =>
          let '(plain, tag) := ocb_decrypt body (a_iv a) in
          if bool_decide (take 3 tag = [t0; t1; t2]) then (Some plain, accepted st a) else (None, st)
      end
  | _ => (None, st)
  end.
End cipher.

(** ** Blocks and their exclusive or *)

Lemma length_xor a b : length a = length b -> length (xor a b) = length a.
Proof. intros H. unfold xor. rewrite length_zip_with. lia. Qed.

Lemma xor_ok a b : bytes_ok a -> bytes_ok b -> bytes_ok (xor a b).
Proof.
  intros Ha. revert b. unfold xor. induction Ha as [|x a Hx Ha IH]; intros [|y b] Hb; try constructor.
  - apply Forall_cons in Hb as [Hy Hb]. by apply is_u_lxor.
  - apply Forall_cons in Hb as [Hy Hb]. by apply IH.
Qed.

Lemma xor_xor a b : length a = length b -> xor a (xor a b) = b.
Proof.
  revert b. unfold xor. induction a as [|x a IH]; intros [|y b] H; try done.
  cbn [zip_with]. rewrite <- Z.lxor_assoc, Z.lxor_nilpotent, Z.lxor_0_l. f_equal. apply IH. by injection H.
Qed.

Lemma take_xor n a b : take n (xor a b) = xor (take n a) (take n b).
Proof.
  revert a b. unfold xor. induction n as [|n IH]; intros [|x a] [|y b]; try done. cbn. by rewrite IH.
Qed.

Lemma block_xor a b : block_ok a -> block_ok b -> block_ok (xor a b).
Proof. intros [Ha La] [Hb Lb]. split; [by apply xor_ok|]. rewrite length_xor; congruence. Qed.

Lemma length_shl1 b : length (shl1 b) = length b.
Proof. induction b as [|x b IH]; cbn [shl1 length]; congruence. Qed.

Lemma shl1_ok b : bytes_ok b -> bytes_ok (shl1 b).
Proof.
  induction 1 as [|x b Hx Hb IH]; cbn [shl1]; [constructor|]. constructor; [|exact IH].
  apply is_u_lor; [lia|by apply (is_u_mod 8)|]. destruct Hb as [|y b Hy Hb]; [by apply is_u_0|].
  rewrite Z.shiftr_div_pow2 by lia. unfold is_u in *. change (2 ^ 7) with 128. change (2 ^ 8) with 256 in *. zdm.
Qed.

Lemma times2_ok b : block_ok b -> block_ok (times2 b).
Proof.
  intros [Hb Lb]. unfold times2. case_match.
  - split; [|by rewrite length_alter, length_shl1]. apply Forall_alter; [by apply shl1_ok|].
    intros x Hx Hx'. apply is_u_lxor; [lia|exact Hx'|]. unfold is_u. lia.
  - split; [by apply shl1_ok|by rewrite length_shl1].
Qed.

Lemma length_block_ok n : block_ok (length_block n).
Proof.
  unfold length_block. split.
  - apply Forall_app. split; [apply Forall_replicate; by apply is_u_0|]. apply Forall_rev, to_le_bytes_ok.
  - by rewrite length_app, length_replicate, length_to_be_bytes.
Qed.

Lemma zero_block_ok : block_ok zero_block.
Proof. split; [apply Forall_replicate; by apply is_u_0|apply length_replicate]. Qed.

Lemma block_app a b n : length a = n -> (n <= BLOCK)%nat -> bytes_ok a -> block_ok b -> block_ok (a ++ drop n b).
Proof.
  intros Hn Hl Ha [Hb Lb]. split; [apply Forall_app; split; [done|by apply Forall_drop]|].
  rewrite length_app, length_drop. lia.
Qed.

Lemma take_block_ok l : bytes_ok l -> (BLOCK < length l)%nat -> block_ok (take BLOCK l).
Proof. intros H Hl. split; [by apply Forall_take|]. rewrite length_take. lia. Qed.

Lemma take_app_eq {A} (a b : list A) n : length a = n -> take n (a ++ b) = a.
Proof. intros <-. apply take_app_length. Qed.
Lemma drop_app_eq {A} (a b : list A) n : length a = n -> drop n (a ++ b) = b.
Proof. intros <-. apply drop_app_length. Qed.

(** ** OCB2 *)

Section ocb.
Context {C : BlockCipher} {L : BlockCipherLaws C}.

Lemma xor_block_twice d b : block_ok d -> block_ok b -> xor d (xor d b) = b.
Proof. intros [_ Hd] [_ Hb]. apply xor_xor. congruence. Qed.

(** The decryption loop retraces the encryption loop. *)
Lemma loops_agree n : forall plain delta checksum out out',
  bytes_ok plain -> block_ok delta -> block_ok checksum -> (length plain <= n)%nat ->
  let '(rest, delta', checksum', out1) := encrypt_loop n plain delta checksum out in
  exists used body,
    plain = used ++ rest /\ out1 = out ++ body /\ length body = length used /\ bytes_ok body /\
    (length rest <= BLOCK)%nat /\ block_ok delta' /\ block_ok checksum' /\
    forall rest', length rest' = length rest ->
      decrypt_loop n (body ++ rest') delta checksum out' = (rest', delta', checksum', out' ++ used).
Proof.
  induction n as [|n IH]; intros plain delta checksum out out' Hp Hd Hs Hn; cbn [encrypt_loop].
  { exists [], []. rewrite !app_nil_r. repeat (split; [done || (by constructor) || (unfold BLOCK; lia)|]).
    by intros rest' _. }
  destruct (Nat.leb_spec (length plain) BLOCK) as [Hl|Hl].
  { exists [], []. rewrite !app_nil_r. repeat (split; [done || by constructor|]).
    intros rest' Hr. cbn [app decrypt_loop]. by destruct (Nat.leb_spec (length rest') BLOCK); [|lia]. }
  set (d2 := times2 delta). set (chunk := take BLOCK plain). set (c1 := xor d2 (aes_encrypt (xor d2 chunk))).
  assert (Hd2 : block_ok d2) by by apply times2_ok.
  assert (Hchunk : block_ok chunk) by by apply take_block_ok.
  assert (Hx : block_ok (xor d2 chunk)) by by apply block_xor.
  assert (He : block_ok (aes_encrypt (xor d2 chunk))) by by apply aes_encrypt_ok.
  assert (Hc1 : block_ok c1) by by apply block_xor.
  specialize (IH (drop BLOCK plain) d2 (xor checksum chunk) (out ++ c1) (out' ++ chunk)).
  destruct (encrypt_loop n _ _ _ _) as [[[rest delta'] checksum'] out1].
  destruct IH as (used & body & Eu & Eo & Elen & Hb & Hr & Hd' & Hs' & Hdec);
    [by apply Forall_drop|done|by apply block_xor|rewrite length_drop; unfold BLOCK in *; lia|].
  assert (E1 : plain = (chunk ++ used) ++ rest) by (rewrite <- app_assoc, <- Eu; by unfold chunk; rewrite take_drop).
  exists (chunk ++ used), (c1 ++ body). split; [exact E1|]. split; [by rewrite Eo, app_assoc|]. rewrite !length_app, Elen.
  destruct Hchunk as [Hchunk Lc], Hc1 as [Hc1 Lc1].
  repeat (split; [done || lia || (by apply Forall_app_2)|]).
  intros rest' Hrest'. cbn [decrypt_loop]. rewrite <- !app_assoc.
  destruct (Nat.leb_spec (length (c1 ++ body ++ rest')) BLOCK) as [Hle|_].
  { rewrite !length_app, Elen, Hrest', Lc1, <- Lc in Hle. rewrite E1, !length_app in Hl. lia. }
  rewrite (take_app_eq c1 _ BLOCK), (drop_app_eq c1 _ BLOCK) by done. fold d2.
  assert (Ep : xor d2 (aes_decrypt (xor d2 c1)) = chunk).
  { unfold c1. rewrite (xor_block_twice d2 (aes_encrypt _)) by done. rewrite aes_decrypt_encrypt by done.
    by apply xor_block_twice. }
  rewrite Ep, Hdec by done. by rewrite app_assoc.
Qed.

(** As many rounds as bytes end the loop by its condition. *)
Lemma ocb_loop_exit plain delta checksum out :
  bytes_ok plain -> block_ok delta -> block_ok checksum ->
  (length (encrypt_loop (length plain) plain delta checksum out).1.1.1 <= BLOCK)%nat.
Proof.
  intros Hp Hd Hs. pose proof (loops_agree (length plain) plain delta checksum out [] Hp Hd Hs ltac:(done)) as H.
  destruct (encrypt_loop _ _ _ _ _) as [[[rest d'] c'] o']. by destruct H as (? & ? & ? & ? & ? & ? & ? & _).
Qed.

(** C36: decryption under the same key and nonce returns the plaintext and the
    very tag encryption computed, for every plaintext, the empty one and
    partial blocks included; the ciphertext is as long as the plaintext. *)
Theorem ocb_round_trip plain nonce :
  bytes_ok plain -> block_ok nonce ->
  let '(cipher, tag) := ocb_encrypt plain nonce in
  length cipher = length plain /\ bytes_ok cipher /\ block_ok tag /\
  ocb_decrypt cipher nonce = (plain, tag).
Proof.
  intros Hp Hn. unfold ocb_encrypt.
  pose proof (loops_agree (length plain) plain (aes_encrypt nonce) zero_block [] [] Hp
    (aes_encrypt_ok _ Hn) zero_block_ok ltac:(done)) as H.
  destruct (encrypt_loop _ _ _ _ _) as [[[rest delta] checksum] out].
  destruct H as (used & body & -> & -> & Elen & Hb & Hr & Hd & Hs & Hdec). cbn [app].
  set (d2 := times2 delta). set (pad := aes_encrypt (xor (length_block (length rest)) d2)).
  assert (Hd2 : block_ok d2) by by apply times2_ok.
  assert (Hpad : block_ok pad) by (apply aes_encrypt_ok, block_xor; [apply length_block_ok|done]).
  apply Forall_app in Hp as [Hu Hrest]. set (len := length rest).
  assert (Hlast : block_ok (rest ++ drop len pad)) by by apply block_app.
  set (tail := take len (xor pad (rest ++ drop len pad))).
  assert (Et : tail = xor (take len pad) rest).
  { unfold tail. by rewrite take_xor, take_app_eq. }
  assert (Ltail : length tail = len).
  { unfold tail. rewrite length_take, length_xor; destruct Hpad, Hlast; lia. }
  split; [rewrite !length_app; lia|]. split; [|split].
  - apply Forall_app. split; [done|]. apply Forall_take, xor_ok; [apply Hpad|apply Hlast].
  - apply aes_encrypt_ok, block_xor; [apply block_xor; [done|by apply times2_ok]|by apply block_xor].
  - unfold ocb_decrypt. replace (length (body ++ tail)) with (length (used ++ rest)) by (rewrite !length_app; lia).
    rewrite Hdec by done. cbn [app]. rewrite Ltail. fold d2.
    change (aes_encrypt (xor (length_block len) d2)) with pad.
    assert (El : xor (take len pad) tail = rest).
    { rewrite Et. apply xor_xor. rewrite length_take. destruct Hpad. lia. }
    rewrite El. by rewrite take_app_eq.
Qed.
End ocb.

(** ** Nonces as numbers

    A nonce is the little-endian spelling of a counter modulo [2 ^ 128]. *)

Definition nonce (z : Z) : list Z := to_le_bytes BLOCK z.

Lemma nonce_ok z : block_ok (nonce z).
Proof. split; [apply to_le_bytes_ok|apply length_to_le_bytes]. Qed.

Lemma nonce_of iv : block_ok iv -> iv = nonce (from_le_bytes iv).
Proof. intros [H L]. unfold nonce. rewrite <- L. by rewrite to_from_le_bytes. Qed.

Lemma nonce_mod z : nonce (z mod 2 ^ 128) = nonce z.
Proof. apply (to_le_bytes_mod BLOCK). Qed.

Lemma nonce_inj a b : nonce a = nonce b -> a mod 2 ^ 128 = b mod 2 ^ 128.
Proof. intros H. pose proof (f_equal from_le_bytes H) as E. unfold nonce in E. by rewrite !from_to_le_bytes in E. Qed.

Lemma nonce_byte0 z : nth 0 (nonce z) 0 = z mod 256.
Proof. done. Qed.

Lemma nonce_byte1 z : nth 1 (nonce z) 0 = z / 256 mod 256.
Proof. change (nth 1 (nonce z) 0) with (u8 (Z.shiftr z 8)). unfold u8. by rewrite Z.shiftr_div_pow2. Qed.

Lemma increment_spec l : bytes_ok l ->
  bytes_ok (increment l) /\ length (increment l) = length l /\
  from_le_bytes (increment l) = (from_le_bytes l + 1) mod 2 ^ (8 * Z.of_nat (length l)).
Proof.
  induction 1 as [|b l Hb Hl IH]; [done|]. cbn [increment length].
  pose proof (from_le_range l Hl) as HR. destruct IH as (Ho & Hlen & Hv).
  assert (Hu : is_u 8 (u8 (b + 1))) by by apply (is_u_mod 8).
  rewrite Nat2Z.inj_succ, Z.mul_succ_r, Z.pow_add_r by lia. rewrite (from_le_cons b) by done.
  set (M := 2 ^ (8 * Z.of_nat (length l))) in *. unfold u8, is_u in *. change (2 ^ 8) with 256 in *.
  destruct (Z.eqb_spec ((b + 1) mod 256) 0) as [E|E].
  - split; [by constructor|]. split; [by rewrite Hlen|]. rewrite from_le_cons, Hv, E by done.
    replace (b + 256 * from_le_bytes l + 1) with (256 * (from_le_bytes l + 1)) by zdm.
    rewrite (Z.mul_comm M), Z.mul_mod_distr_l by lia. lia.
  - split; [by constructor|]. split; [done|]. rewrite from_le_cons by done.
    assert (E1 : (b + 1) mod 256 = b + 1) by zdm. rewrite E1, (Z.mod_small (b + 256 * _ + 1)); lia.
Qed.

Lemma decrement_spec l : bytes_ok l ->
  bytes_ok (decrement l) /\ length (decrement l) = length l /\
  from_le_bytes (decrement l) = (from_le_bytes l - 1) mod 2 ^ (8 * Z.of_nat (length l)).
Proof.
  induction 1 as [|b l Hb Hl IH]; [done|]. cbn [decrement length].
  pose proof (from_le_range l Hl) as HR. destruct IH as (Ho & Hlen & Hv).
  assert (Hu : is_u 8 (u8 (b - 1))) by by apply (is_u_mod 8).
  rewrite Nat2Z.inj_succ, Z.mul_succ_r, Z.pow_add_r by lia. rewrite (from_le_cons b) by done.
  set (M := 2 ^ (8 * Z.of_nat (length l))) in *. unfold u8, is_u in *. change (2 ^ 8) with 256 in *.
  destruct (Z.eqb_spec b 0) as [->|E].
  - split; [by constructor|]. split; [by rewrite Hlen|]. rewrite from_le_cons, Hv by done.
    change ((0 - 1) mod 256) with 255.
    replace (0 + 256 * from_le_bytes l - 1) with (255 + (from_le_bytes l - 1) * 256) by lia.
    rewrite (Z.mul_comm M), <- Z.add_mod_idemp_r, (Z.mul_comm _ 256), Z.mul_mod_distr_l by lia.
    pose proof (Z.mod_pos_bound (from_le_bytes l - 1) M). rewrite (Z.mod_small (255 + _)); lia.
  - split; [by constructor|]. split; [done|]. rewrite from_le_cons by done.
    assert (E1 : (b - 1) mod 256 = b - 1) by zdm. rewrite E1, (Z.mod_small (b + 256 * _ - 1)); lia.
Qed.

Lemma increment_nonce iv : block_ok iv -> increment iv = nonce (from_le_bytes iv + 1).
Proof.
  intros [H L]. destruct (increment_spec iv H) as (Ho & Hl & Hv). rewrite (nonce_of (increment iv)) by (split; congruence).
  rewrite Hv, L. apply nonce_mod.
Qed.

(** The four ways a nonce moves: the low byte is replaced and the rest kept,
    incremented or decremented. *)
Lemma splice b rest i rest' c :
  block_ok (b :: rest) -> is_u 8 i -> bytes_ok rest' -> length rest' = length rest ->
  from_le_bytes rest' = (from_le_bytes rest + c) mod 2 ^ (8 * Z.of_nat (length rest)) ->
  i :: rest' = nonce (from_le_bytes (b :: rest) + (i - b) + 256 * c).
Proof.
  intros [H L] Hi Ho Hl Hv. apply Forall_cons in H as [Hb H]. cbn [length] in L.
  rewrite (nonce_of (i :: rest')) by (split; [by constructor|cbn [length]; congruence]).
  rewrite <- (nonce_mod (_ + _)), !from_le_cons, Hv by done. f_equal.
  replace (length rest) with 15%nat by (unfold BLOCK in L; lia).
  change (2 ^ (8 * Z.of_nat 15)) with (2 ^ 120). change (2 ^ 128) with (256 * 2 ^ 120).
  replace (b + 256 * from_le_bytes rest + (i - b) + 256 * c) with (i + 256 * (from_le_bytes rest + c)) by lia.
  set (x := from_le_bytes rest + c). rewrite <- (Z.add_mod_idemp_r i (256 * x)), Z.mul_mod_distr_l by lia.
  pose proof (Z.mod_pos_bound x (2 ^ 120)). unfold is_u in Hi. change (2 ^ 8) with 256 in Hi.
  rewrite (Z.mod_small (i + _)); lia.
Qed.

(** ** What a packet's first byte means

    The distance from the receiver's nonce [N], modulo 256: one is the next
    packet; two to 127, and 128 where no carry is needed, a gap; 227 to 255 a
    late one, one to 29 behind; anything else is refused. *)
Definition step_to (st : CryptState) (i : Z) : option Z :=
  let iv0 := nth 0 (decrypt_iv st) 0 in
  let d := (i - iv0) mod 256 in
  if (1 <=? d) && (d <=? 127) then Some d
  else if (d =? 128) && (iv0 <? i) then Some d
  else if 227 <=? d then Some (d - 256)
  else None.

Definition seen (st : CryptState) (n : Z) : bool :=
  nth (Z.to_nat (n mod 256)) (decrypt_history st) 0 =? n / 256 mod 256.

Ltac settled a := lazymatch a with
  | context [if _ then _ else _] => fail
  | context [nth _ _ _] => fail
  | _ => idtac
  end.

(** Decide the comparisons of numbers, the innermost first. *)
Ltac decide_comparisons :=
  repeat match goal with
    | |- context [?a <? ?b] => settled a; settled b; destruct (Z.ltb_spec a b); try (exfalso; lia); cbn [andb negb]
    | |- context [?a <=? ?b] => settled a; settled b; destruct (Z.leb_spec a b); try (exfalso; lia); cbn [andb negb]
    | |- context [?a =? ?b] => settled a; settled b; destruct (Z.eqb_spec a b); try (exfalso; lia); cbn [andb negb]
    end; cbn [a_iv a_late a_lost a_restore]; rewrite ?nonce_byte0, ?nonce_byte1; try done.

Lemma advance_spec st i :
  block_ok (decrypt_iv st) -> is_u 8 i ->
  advance st i =
    match step_to st i with
    | None => None
    | Some d =>
        let n := from_le_bytes (decrypt_iv st) + d in
        if negb (d =? 1) && seen st n then None
        else Some {| a_iv := nonce n; a_late := if d <? 0 then 1 else 0; a_lost := if d <? 0 then -1 else d - 1;
                     a_restore := d <? 0 |}
    end.
Proof.
  intros Hiv Hi. unfold advance, step_to, seen. rewrite low_byte.
  destruct (decrypt_iv st) as [|b rest] eqn:E; [by destruct Hiv|]. cbn [nth tail].
  assert (Hbr := Hiv). destruct Hbr as [[Hb Hr]%Forall_cons Lr].
  set (N := from_le_bytes (b :: rest)).
  assert (S0 : i :: rest = nonce (N + (i - b))).
  { rewrite (splice b rest i rest 0); [f_equal; lia|done..|]. rewrite Z.add_0_r, Z.mod_small; [done|by apply from_le_range]. }
  assert (S1 : i :: increment rest = nonce (N + (i - b + 256))).
  { destruct (increment_spec rest Hr) as (? & ? & ?). rewrite (splice b rest i _ 1) by done. f_equal. lia. }
  assert (S2 : i :: decrement rest = nonce (N + (i - b - 256))).
  { destruct (decrement_spec rest Hr) as (? & ? & ?). rewrite (splice b rest i _ (-1)) by done. f_equal. lia. }
  rewrite S0, S1, S2. clearbody N. clear S0 S1 S2 E Hiv Lr Hr. unfold is_u in Hb, Hi. change (2 ^ 8) with 256 in *.
  destruct (Z.eqb_spec ((b + 1) mod 256) i) as [E1|E1].
  { destruct (Z.ltb_spec b i) as [Hlt|Hle].
    - replace ((i - b) mod 256) with 1 by zdm. cbn. by replace (i - b) with 1 by zdm.
    - destruct (Z.ltb_spec i b); [|exfalso; zdm]. replace ((i - b) mod 256) with 1 by zdm. cbn.
      by replace (i - b + 256) with 1 by zdm. }
  destruct (Z.lt_trichotomy i b) as [H|[->|H]].
  - replace ((i - b) mod 256) with (i - b + 256) by zdm.
    assert (i - b + 256 <> 1) by zdm. replace (i - b + 256 - 256) with (i - b) by lia.
    destruct (Z.le_gt_cases (-29) (i - b)); [|destruct (Z.le_gt_cases (-128) (i - b))]; decide_comparisons.
    by replace (256 - b + i - 1) with (i - b + 256 - 1) by lia.
  - rewrite Z.sub_diag. decide_comparisons.
  - replace ((i - b) mod 256) with (i - b) by zdm.
    assert (i - b <> 1) by zdm.
    assert (Hu : i - b <= 128 -> u8 (u8 (i - b) - 1) = i - b - 1)
      by (intros; unfold u8; change (2 ^ 8) with 256; rewrite !Z.mod_small; lia || zdm).
    destruct (Z.le_gt_cases 227 (i - b)); [|destruct (Z.le_gt_cases 129 (i - b))]; decide_comparisons;
      by rewrite Hu by lia.
Qed.

(** ** A sender and a receiver *)

Section peers.
Context {C : BlockCipher} {L : BlockCipherLaws C}.

Fixpoint send_all (st : CryptState) (msgs : list (list Z)) : list (list Z) * CryptState :=
  match msgs with
  | [] => ([], st)
  | m :: rest => let '(p, st1) := encrypt st m in let '(ps, st2) := send_all st1 rest in (p :: ps, st2)
  end.

Fixpoint receive_all (st : CryptState) (packets : list (list Z)) : list (option (list Z)) * CryptState :=
  match packets with
  | [] => ([], st)
  | p :: rest => let '(r, st1) := decrypt st p in let '(rs, st2) := receive_all st1 rest in (r :: rs, st2)
  end.

(** The packet of a message under a nonce. *)
Definition packet_of (n m : list Z) : list Z :=
  let '(cipher, tag) := ocb_encrypt m n in nth 0 n 0 :: take 3 tag ++ cipher.

Lemma encrypt_packet st m : block_ok (encrypt_iv st) ->
  let n := nonce (from_le_bytes (encrypt_iv st) + 1) in
  (encrypt st m).1 = packet_of n m /\ encrypt_iv (encrypt st m).2 = n.
Proof.
  intros H n. unfold encrypt, packet_of. rewrite increment_nonce by done. fold n. by destruct (ocb_encrypt m n).
Qed.

(** A packet whose first byte leads the receiver to its nonce is decrypted. *)
Lemma decrypt_packet st n m a :
  block_ok n -> bytes_ok m -> advance st (nth 0 n 0) = Some a -> a_iv a = n ->
  decrypt st (packet_of n m) = (Some m, accepted st a).
Proof.
  intros Hn Hm Ha En. pose proof (ocb_round_trip m n Hm Hn) as H. unfold packet_of.
  destruct (ocb_encrypt m n) as [cipher tag]. destruct H as (_ & _ & [_ Ht] & Hd).
  destruct tag as [|t0 [|t1 [|t2 tag]]]; try done.
  change (take 3 (t0 :: t1 :: t2 :: tag)) with [t0; t1; t2]. cbn [app]. unfold decrypt. rewrite Ha, En, Hd. by rewrite bool_decide_eq_true_2.
Qed.

(** The receiver cannot place it: it is refused. *)
Lemma decrypt_refused st n m : advance st (nth 0 n 0) = None -> decrypt st (packet_of n m) = (None, st).
Proof.
  intros Ha. unfold packet_of. destruct (ocb_encrypt m n) as [cipher tag]. unfold decrypt.
  destruct (take 3 tag ++ cipher) as [|t0 [|t1 [|t2 body]]]; try done. by rewrite Ha.
Qed.

(** The distances a receiver bridges: up to 126 packets lost, or up to 29
    overtaken by later ones. *)
Definition bridged (d : Z) : Prop := 1 <= d <= 127 \/ -29 <= d < 0.

(** The receiver's view of the packet at distance [d] from its nonce. *)
Lemma advance_at st d :
  block_ok (decrypt_iv st) -> bridged d ->
  let n := from_le_bytes (decrypt_iv st) + d in
  advance st (nth 0 (nonce n) 0) =
    if negb (d =? 1) && seen st n then None
    else Some {| a_iv := nonce n; a_late := if d <? 0 then 1 else 0; a_lost := if d <? 0 then -1 else d - 1; a_restore := d <? 0 |}.
Proof.
  intros Hiv Hd n. unfold bridged in Hd. rewrite nonce_byte0.
  assert (Hb : n mod 256 = (nth 0 (decrypt_iv st) 0 + d) mod 256).
  { pose proof (nonce_of _ Hiv) as E. rewrite E, nonce_byte0. unfold n. by rewrite Z.add_mod_idemp_l. }
  assert (H0 : 0 <= nth 0 (decrypt_iv st) 0 < 256).
  { rewrite (nonce_of _ Hiv), nonce_byte0. apply Z.mod_pos_bound. lia. }
  assert (Es : step_to st (n mod 256) = Some d).
  { unfold step_to. rewrite Hb. set (v := nth 0 _ 0) in *.
    replace (((v + d) mod 256 - v) mod 256) with (d mod 256) by zdm.
    destruct (Z.ltb_spec d 0) as [Hneg|Hpos].
    - replace (d mod 256) with (d + 256) by zdm.
      destruct (Z.leb_spec 1 (d + 256)), (Z.leb_spec (d + 256) 127), (Z.eqb_spec (d + 256) 128), (Z.leb_spec 227 (d + 256)); try lia.
      cbn [andb]. f_equal. lia.
    - rewrite Z.mod_small by lia. by destruct (Z.leb_spec 1 d), (Z.leb_spec d 127); try lia. }
  by rewrite advance_spec, Es by (done || apply (is_u_mod 8); lia).
Qed.

(** The packet [d] ahead. *)
Lemma advance_ahead st d :
  block_ok (decrypt_iv st) -> 1 <= d <= 127 ->
  let n := from_le_bytes (decrypt_iv st) + d in
  d = 1 \/ seen st n = false ->
  advance st (nth 0 (nonce n) 0) =
    Some {| a_iv := nonce n; a_late := 0; a_lost := d - 1; a_restore := false |}.
Proof.
  intros Hiv Hd n Hs. unfold n. rewrite advance_at by (done || by left). destruct (Z.ltb_spec d 0); [lia|].
  destruct Hs as [->|Hs]; [done|]. fold n. by rewrite Hs, andb_false_r.
Qed.

Lemma accepted_ahead st n k :
  decrypt_iv (accepted st {| a_iv := n; a_late := 0; a_lost := k; a_restore := false |}) = n.
Proof. done. Qed.

(** as long as packets arrive in order, every message is decrypted and the
    two nonces stay together, across every carry of the 128-bit counter and
    from any state; nothing is counted late or lost. *)
Theorem in_order_delivery msgs a b :
  block_ok (encrypt_iv a) -> decrypt_iv b = encrypt_iv a -> 0 <= late b < 2 ^ 32 ->
  Forall (fun m => bytes_ok m) msgs ->
  let '(packets, a') := send_all a msgs in
  let '(got, b') := receive_all b packets in
  got = Some <$> msgs /\ decrypt_iv b' = encrypt_iv a' /\ late b' = late b /\ lost b' = lost b.
Proof.
  revert a b. induction msgs as [|m msgs IH]; intros a b Ha Hab Hl Hm; [done|].
  apply Forall_cons in Hm as [Hm Hms]. cbn [send_all].
  destruct (encrypt_packet a m Ha) as [Ep Ei]. destruct (encrypt a m) as [p a1]. cbn [fst snd] in *.
  pose proof (advance_ahead b 1 ltac:(by rewrite Hab) ltac:(lia) (or_introl eq_refl)) as Hadv.
  rewrite Hab in Hadv.
  pose proof (decrypt_packet b _ m _ (nonce_ok _) Hm Hadv eq_refl) as Hd. rewrite <- Ep in Hd.
  set (b1 := accepted b _) in Hd.
  specialize (IH a1 b1). destruct (send_all a1 msgs) as [ps a2]. cbn [receive_all]. rewrite Hd.
  destruct (receive_all b1 ps) as [rs b2].
  destruct IH as (-> & H2 & H3 & H4); [by rewrite Ei; apply nonce_ok|by rewrite Ei| |done|].
  - cbn. unfold u32. apply Z.mod_pos_bound. lia.
  - split; [done|]. split; [done|]. rewrite H3, H4. cbn. unfold u32.
    rewrite Z.add_0_r, Z.mod_small by done. done.
Qed.

(** up to 126 lost packets in a row do no harm: the next one is decrypted,
    the nonces are together again, and the receiver counts exactly the
    missing ones. The replay table must not hold the nonce already. *)
Theorem gap_recovers dropped m a b :
  block_ok (encrypt_iv a) -> decrypt_iv b = encrypt_iv a -> bytes_ok m ->
  let k := Z.of_nat (length dropped) in
  1 <= k <= 126 -> seen b (from_le_bytes (encrypt_iv a) + k + 1) = false ->
  let '(_, a1) := send_all a dropped in
  let '(p, a2) := encrypt a1 m in
  let '(r, b') := decrypt b p in
  r = Some m /\ decrypt_iv b' = encrypt_iv a2 /\ lost b' = u32 (lost b + k).
Proof.
  intros Ha Hab Hm k Hk Hs.
  assert (Hsend : forall ms a0, block_ok (encrypt_iv a0) ->
    encrypt_iv (send_all a0 ms).2 = nonce (from_le_bytes (encrypt_iv a0) + Z.of_nat (length ms))).
  { clear. induction ms as [|m ms IH]; intros a0 H0; cbn [send_all].
    - cbn [snd length]. rewrite Z.add_0_r. by apply nonce_of.
    - destruct (encrypt_packet a0 m H0) as [_ Ei]. destruct (encrypt a0 m) as [p a1]. cbn [snd] in Ei.
      specialize (IH a1 ltac:(rewrite Ei; apply nonce_ok)). destruct (send_all a1 ms). cbn [snd] in *.
      rewrite IH, Ei. unfold nonce at 2. rewrite from_to_le_bytes. change (2 ^ (8 * Z.of_nat BLOCK)) with (2 ^ 128).
      rewrite <- nonce_mod, Z.add_mod_idemp_l, nonce_mod by lia. f_equal. cbn [length]. lia. }
  specialize (Hsend dropped a Ha). destruct (send_all a dropped) as [ps a1]. cbn [snd] in Hsend.
  assert (Ha1 : block_ok (encrypt_iv a1)) by (rewrite Hsend; apply nonce_ok).
  destruct (encrypt_packet a1 m Ha1) as [Ep Ei]. destruct (encrypt a1 m) as [p a2]. cbn [fst snd] in *.
  assert (En : nonce (from_le_bytes (encrypt_iv a1) + 1) = nonce (from_le_bytes (encrypt_iv a) + (k + 1))).
  { rewrite Hsend. unfold nonce at 2. rewrite from_to_le_bytes. change (2 ^ (8 * Z.of_nat BLOCK)) with (2 ^ 128).
    rewrite <- nonce_mod, Z.add_mod_idemp_l, nonce_mod by lia. f_equal. lia. }
  rewrite En in Ep, Ei. rewrite <- Hab in Ep, Ei, Hs. rewrite <- Z.add_assoc in Hs.
  pose proof (advance_ahead b (k + 1) ltac:(by rewrite Hab) ltac:(lia) (or_intror Hs)) as Hadv.
  rewrite Ep, (decrypt_packet b _ m _ (nonce_ok _) Hm Hadv eq_refl). split; [done|]. split; [by rewrite Ei|].
  cbn. replace (k + 1 - 1) with k by lia. destruct (Z.ltb_spec 0 k); [|lia].
  unfold u32. by rewrite (Z.mod_small k) by lia.
Qed.

(** ** Replays *)

(** The nonces under which the packets of a run were accepted. *)
Fixpoint accepted_nonces (st : CryptState) (packets : list (list Z)) : list (list Z) :=
  match packets with
  | [] => []
  | p :: rest =>
      let '(r, st') := decrypt st p in
      match r, advance st (hd 0 p) with
      | Some _, Some a => a_iv a :: accepted_nonces st' rest
      | _, _ => accepted_nonces st' rest
      end
  end.

Lemma decrypt_cases st p :
  decrypt st p = (None, st) \/
  exists a plain, advance st (hd 0 p) = Some a /\ decrypt st p = (Some plain, accepted st a).
Proof.
  destruct p as [|i [|t0 [|t1 [|t2 body]]]]; try by left. cbn [decrypt hd].
  destruct (advance st i) as [a|]; [|by left]. destruct (ocb_decrypt body (a_iv a)) as [plain tag].
  case_bool_decide; [right; by exists a, plain|by left].
Qed.

Lemma seen_nonce st n n' : nonce n = nonce n' -> seen st n = seen st n'.
Proof.
  intros H. unfold seen. rewrite <- (nonce_byte0 n), <- (nonce_byte1 n), H.
  by rewrite nonce_byte0, nonce_byte1.
Qed.

Lemma nonce_shift z d : nonce (from_le_bytes (nonce z) + d) = nonce (z + d).
Proof.
  unfold nonce at 2. rewrite from_to_le_bytes. change (2 ^ (8 * Z.of_nat BLOCK)) with (2 ^ 128).
  by rewrite <- nonce_mod, Z.add_mod_idemp_l, nonce_mod by lia.
Qed.

(** The receiver [h] ahead of [base], having accepted the nonces [base + q]
    for the [q] of [acc]: the last 256 of them are in its table. *)
Record tracks (base : Z) (st : CryptState) (h : Z) (acc : list Z) : Prop := {
  tr_iv : decrypt_iv st = nonce (base + h);
  tr_history : length (decrypt_history st) = 256%nat;
  tr_head q : q ∈ acc -> q <= h;
  tr_seen q : q ∈ acc -> h - 256 < q -> seen st (base + q) = true
}.

Lemma step_to_range st i d : is_u 8 i -> step_to st i = Some d -> 1 <= d <= 128 \/ -29 <= d < 0.
Proof.
  intros Hi. unfold step_to. set (iv0 := nth 0 _ 0). pose proof (Z.mod_pos_bound (i - iv0) 256 ltac:(lia)).
  destruct (Z.leb_spec 1 ((i - iv0) mod 256)), (Z.leb_spec ((i - iv0) mod 256) 127),
    (Z.eqb_spec ((i - iv0) mod 256) 128), (Z.ltb_spec iv0 i), (Z.leb_spec 227 ((i - iv0) mod 256));
    cbn; intros [= <-]; lia.
Qed.

(** What accepting leaves in the table. *)
Lemma seen_accepted st a n q :
  length (decrypt_history st) = 256%nat -> a_iv a = nonce n ->
  (q = n -> seen (accepted st a) q = true) /\
  (0 < Z.abs (q - n) < 256 -> seen (accepted st a) q = seen st q).
Proof.
  intros Hl En. unfold seen, accepted. cbn [decrypt_history]. rewrite En, nonce_byte0, nonce_byte1.
  pose proof (Z.mod_pos_bound n 256 ltac:(lia)). pose proof (Z.mod_pos_bound q 256 ltac:(lia)). split.
  - intros ->. rewrite nth_lookup, list_lookup_insert_eq by lia. apply Z.eqb_refl.
  - intros Hq. rewrite !nth_lookup, list_lookup_insert_ne; [done|]. intros E. apply Z2Nat.inj in E; [|lia..]. zdm.
Qed.

Lemma tracks_step base st h acc p a plain :
  tracks base st h acc -> is_u 8 (hd 0 p) -> advance st (hd 0 p) = Some a ->
  decrypt st p = (Some plain, accepted st a) ->
  exists d, -29 <= d <= 128 /\ a_iv a = nonce (base + (h + d)) /\ h + d ∉ acc /\
    tracks base (accepted st a) (Z.max h (h + d)) (h + d :: acc).
Proof.
  intros [Hiv Hlen Hhead Hseen] Hi Ha _. pose proof (nonce_ok (base + h)) as Hok. rewrite <- Hiv in Hok.
  rewrite advance_spec in Ha by done. destruct (step_to st (hd 0 p)) as [d|] eqn:Ed; [|done].
  apply step_to_range in Ed; [|done]. cbv zeta in Ha.
  assert (En : nonce (from_le_bytes (decrypt_iv st) + d) = nonce (base + (h + d))).
  { rewrite Hiv, nonce_shift. f_equal. lia. }
  rewrite (seen_nonce st _ _ En), En in Ha.
  destruct (negb (d =? 1) && seen st (base + (h + d))) eqn:Es; [done|]. injection Ha as <-.
  exists d. split; [lia|]. split; [done|].
  assert (Hnew : h + d ∉ acc).
  { intros Hin. pose proof (Hhead _ Hin). destruct (Z.eqb_spec d 1); [lia|]. cbn [negb andb] in Es.
    rewrite Hseen in Es; [done|done|lia]. }
  split; [done|]. constructor.
  - unfold accepted. cbn [decrypt_iv a_restore a_iv]. destruct (Z.ltb_spec d 0); [rewrite Hiv|]; do 2 f_equal; lia.
  - cbn. by rewrite length_insert.
  - intros q. rewrite elem_of_cons. intros [->|Hq]; [lia|]. specialize (Hhead q Hq). lia.
  - intros q. rewrite elem_of_cons.
    match goal with |- _ -> _ -> seen (accepted st ?a) _ = _ =>
      destruct (seen_accepted st a (base + (h + d)) (base + q) Hlen eq_refl) as [H1 H2] end.
    intros [->|Hq] Hr; [by apply H1|]. rewrite H2; [apply Hseen; [done|lia]|].
    pose proof (Hhead q Hq). assert (q <> h + d) by (intros ->; done). lia.
Qed.

Lemma accepted_positions base packets : forall st h acc,
  tracks base st h acc -> Forall (fun p => is_u 8 (hd 0 p)) packets ->
  exists new, accepted_nonces st packets = (fun q => nonce (base + q)) <$> new /\ NoDup new /\
    forall q, q ∈ new -> q ∉ acc /\ h - 29 <= q <= h + 128 * Z.of_nat (length packets).
Proof.
  induction packets as [|p packets IH]; intros st h acc Ht Hp.
  { exists []. split; [done|]. split; [constructor|]. intros q Hq. by apply elem_of_nil in Hq. }
  apply Forall_cons in Hp as [Hp Hps]. cbn [accepted_nonces length].
  destruct (decrypt_cases st p) as [E|(a & plain & Ha & E)]; rewrite E.
  - destruct (IH st h acc Ht Hps) as (new & H1 & H2 & H3). exists new. split; [done|]. split; [done|].
    intros q Hq. specialize (H3 q Hq). split; [tauto|lia].
  - destruct (tracks_step base st h acc p a plain Ht Hp Ha E) as (d & Hd & En & Hnew & Ht').
    destruct (IH _ _ _ Ht' Hps) as (new & H1 & H2 & H3). rewrite Ha, H1, En. exists (h + d :: new).
    split; [done|]. split.
    + constructor; [|done]. intros Hin. apply H3 in Hin as [Hin _]. apply Hin. apply list_elem_of_here.
    + intros q. rewrite elem_of_cons. intros [->|Hq]; [split; [done|lia]|].
      destruct (H3 q Hq) as [Hn Hr]. split; [|lia]. intros Hin. apply Hn. by apply list_elem_of_further.
Qed.

(** C19: replay protection. Whatever packets arrive, in whatever order and however
    often, genuine or forged, no nonce is accepted twice: every packet of the
    peer is decrypted at most once. (The counter is 128 bits long; the bound
    on the number of packets keeps it from coming round.) *)
Theorem no_nonce_twice st packets :
  block_ok (decrypt_iv st) -> length (decrypt_history st) = 256%nat ->
  Forall (fun p => is_u 8 (hd 0 p)) packets -> Z.of_nat (length packets) <= 2 ^ 120 ->
  NoDup (accepted_nonces st packets).
Proof.
  intros Hiv Hl Hp Hn.
  destruct (accepted_positions (from_le_bytes (decrypt_iv st)) packets st 0 []) as (new & -> & Hnd & Hr); [|done|].
  { constructor; [rewrite Z.add_0_r; by apply nonce_of|done| |]; intros q Hq; by apply elem_of_nil in Hq. }
  apply NoDup_fmap_2_strong; [|done]. intros x y Hx Hy E%nonce_inj.
  destruct (Hr x Hx) as [_ Hx']. destruct (Hr y Hy) as [_ Hy'].
  assert (H : (x - y) mod 2 ^ 128 = 0).
  { replace (x - y) with (from_le_bytes (decrypt_iv st) + x - (from_le_bytes (decrypt_iv st) + y)) by lia.
    rewrite Zminus_mod, E, Z.sub_diag. done. }
  apply Z.mod_divide in H as [k H]; [|done]. assert (k = 0) by nia. lia.
Qed.

(** the table starts out as zeros, which mean the second nonce byte 0. If
    the agreed nonce has that byte, every packet from the second to the 128th
    within the page is refused as a replay although nothing was received: one
    lost packet at the start silences the peer, and the state never moves. *)
Theorem fresh_history_refuses enc iv packet :
  block_ok iv -> nth 1 iv 0 = 0 ->
  nth 0 iv 0 + 2 <= hd 0 packet <= nth 0 iv 0 + 128 -> hd 0 packet < 256 ->
  decrypt (crypt_new enc iv) packet = (None, crypt_new enc iv).
Proof.
  intros [Hiv Hl] H1 Hi Hu. destruct iv as [|v0 [|v1 rest]]; try done. cbn [nth] in *. subst v1.
  apply Forall_cons in Hiv as [Hv0 _]. unfold is_u in Hv0. change (2 ^ 8) with 256 in Hv0.
  destruct packet as [|i [|t0 [|t1 [|t2 body]]]]; try done. cbn [hd] in *.
  assert (E : advance (crypt_new enc (v0 :: 0 :: rest)) i = None); [|cbn [decrypt]; by rewrite E].
  unfold advance, crypt_new. cbn [decrypt_iv decrypt_history nth tail].
  assert (Ei : u8 (Z.land (v0 + 1) 255) = v0 + 1).
  { unfold u8. change 255 with (Z.ones 8). rewrite Z.land_ones, Z.mod_mod, Z.mod_small by lia. done. }
  rewrite Ei. destruct (Z.eqb_spec (v0 + 1) i); [lia|]. decide_comparisons.
  cbn [negb andb nth a_iv]. rewrite nth_lookup, lookup_replicate_2 by lia. done.
Qed.
End peers.

(** ** Concrete peers

    A block cipher that satisfies the laws, to run the peers with. *)

Definition toy_key : list Z := [7; 1; 9; 200; 31; 5; 77; 128; 2; 4; 250; 66; 19; 83; 101; 240].

Definition toy : BlockCipher := {| aes_encrypt := xor toy_key; aes_decrypt := xor toy_key |}.

Lemma toy_key_ok : block_ok toy_key.
Proof. split; [vm_compute; repeat constructor; discriminate|reflexivity]. Defined.

Lemma toy_laws : BlockCipherLaws toy.
Proof.
  constructor; intros b Hb.
  - exact (block_xor toy_key b toy_key_ok Hb).
  - exact (xor_xor toy_key b (eq_sym (proj2 Hb))).
Defined.

Definition peer (low high : Z) : CryptState := crypt_new (nonce (low + 256 * high)) (nonce (low + 256 * high)).

Lemma ocb_round_trip_witness :
  ocb_decrypt (C := toy) (ocb_encrypt (C := toy) (seqZ 0 40) (nonce 77)).1 (nonce 77)
  = (seqZ 0 40, (ocb_encrypt (C := toy) (seqZ 0 40) (nonce 77)).2).
Proof.
  pose proof (ocb_round_trip (C := toy) (L := toy_laws) (seqZ 0 40) (nonce 77)
    ltac:(vm_compute; repeat constructor; discriminate) (nonce_ok 77)) as H.
  destruct (ocb_encrypt (seqZ 0 40) (nonce 77)) as [c t]. exact (proj2 (proj2 (proj2 H))).
Defined.

(** Two messages across the carry from the low byte. *)
Lemma in_order_delivery_witness :
  let '(packets, _) := send_all (C := toy) (peer 254 255) [[1; 2; 3]; [4]; seqZ 0 20] in
  (receive_all (C := toy) (peer 254 255) packets).1 = [Some [1; 2; 3]; Some [4]; Some (seqZ 0 20)].
Proof.
  pose proof (in_order_delivery (C := toy) (L := toy_laws) [[1; 2; 3]; [4]; seqZ 0 20] (peer 254 255) (peer 254 255)
    (nonce_ok _) eq_refl ltac:(cbn; lia)
    ltac:(vm_compute; repeat constructor; discriminate)) as H.
  destruct (send_all _ _) as [ps a]. destruct (receive_all _ ps) as [got b]. exact (proj1 H).
Defined.

Lemma gap_recovers_witness :
  let '(_, a1) := send_all (C := toy) (peer 250 3) [[1]; [2]; [3]; [4]; [5]; [6]; [7]] in
  (decrypt (C := toy) (peer 250 3) (encrypt (C := toy) a1 [9; 9]).1).1 = Some [9; 9].
Proof.
  pose proof (gap_recovers (C := toy) (L := toy_laws) [[1]; [2]; [3]; [4]; [5]; [6]; [7]] [9; 9] (peer 250 3) (peer 250 3)
    (nonce_ok _) eq_refl ltac:(vm_compute; repeat constructor; discriminate)
    ltac:(cbn; lia) ltac:(vm_compute; reflexivity)) as H.
  destruct (send_all _ _) as [ps a1]. destruct (encrypt a1 _) as [p a2]. cbn [fst]. destruct (decrypt _ p) as [r b].
  exact (proj1 H).
Defined.

(** Three packets of a peer, received out of order and each twice. *)
Lemma no_nonce_twice_witness :
  let ps := (send_all (C := toy) (peer 10 1) [[1]; [2]; [3]]).1 in
  let arrivals := [nth 1 ps []; nth 0 ps []; nth 1 ps []; nth 2 ps []; nth 0 ps []; nth 2 ps []] in
  NoDup (accepted_nonces (C := toy) (peer 10 1) arrivals) /\
  (receive_all (C := toy) (peer 10 1) arrivals).1 = [Some [2]; Some [1]; None; Some [3]; None; None].
Proof.
  split; [|vm_compute; reflexivity].
  apply (no_nonce_twice (C := toy)); [apply nonce_ok|reflexivity|vm_compute; repeat constructor; discriminate|].
  vm_compute. discriminate.
Defined.

Lemma fresh_history_refuses_witness :
  decrypt (C := toy) (peer 10 0) (encrypt (C := toy) (encrypt (C := toy) (peer 10 0) [1]).2 [2]).1 = (None, peer 10 0).
Proof.
  apply (fresh_history_refuses (C := toy)); [apply nonce_ok|reflexivity|vm_compute; split; discriminate|reflexivity].
Defined.
