(* ===== verification/VoiceRouting.v ===== *)
(** * Who hears whom (channel.rs, session.rs, target.rs and router.rs of
      src/crates/baston-voice/src)

    Channels and their members, voice sessions, whisper targets, and the
    routing of one datagram to its recipients. A BTreeMap or BTreeSet is a
    finite map or set, visited in the order of its keys. *)

From Stdlib Require Import Sorting.Sorted.
From S2P Require Import Prelude Decimal VoicePacket.

(** ** Ordered containers *)

Definition ascending (s : gset Z) : list Z := sort_by Z.leb (elements s).

Definition entries {A} (m : gmap Z A) : list (Z * A) := sort_by (fun a b => a.1 <=? b.1) (map_to_list m).

(** ** Channels (channel.rs) *)

Definition ROOT_CHANNEL : Z := 0.

Record Channel := {
  ch_id : Z; ch_name : list Z; parent : Z; temporary : bool;
  members : gset Z; listeners : gset Z
}.

#[export] Instance channel_rebuild : Rebuild Channel := fun c =>
  {| ch_id := ch_id c; ch_name := ch_name c; parent := parent c; temporary := temporary c;
     members := members c; listeners := listeners c |}.

Abbreviation ChannelStore := (gmap Z Channel).

(** "Root" and "Game Channel ". *)
Definition root_name : list Z := [82; 111; 111; 116].
Definition game_channel_name : list Z := [71; 97; 109; 101; 32; 67; 104; 97; 110; 110; 101; 108; 32].

Definition empty_channel (id : Z) (name : list Z) (temp : bool) : Channel :=
  {| ch_id := id; ch_name := name; parent := ROOT_CHANNEL; temporary := temp; members := ∅; listeners := ∅ |}.

Definition store_new : ChannelStore := {[ROOT_CHANNEL := empty_channel ROOT_CHANNEL root_name false]}.

Definition game_channel (id : Z) (temp : bool) : Channel :=
  empty_channel id (game_channel_name ++ decimal id) temp.

Definition create_game_channel (id : Z) (st : ChannelStore) : ChannelStore :=
  match st !! id with Some _ => st | None => <[id := game_channel id false]> st end.

Definition channel_exists (id : Z) (st : ChannelStore) : bool := is_some (st !! id).

Definition gc_temporary (id : Z) (st : ChannelStore) : ChannelStore :=
  if id =? ROOT_CHANNEL then st
  else match st !! id with
       | Some ch =>
           if temporary ch && bool_decide (members ch = ∅) && bool_decide (listeners ch = ∅)
           then delete id st else st
       | None => st
       end.

Definition find_member (session : Z) (st : ChannelStore) : option (Z * Channel) :=
  List.find (fun kc => bool_decide (session ∈ members kc.2)) (entries st).

Definition leave (session : Z) (st : ChannelStore) : option Z * ChannelStore :=
  match find_member session st with
  | Some (k, ch) =>
      (Some (ch_id ch), gc_temporary (ch_id ch) (<[k := ch <| members := members ch ∖ {[session]} |>]> st))
  | None => (None, st)
  end.

Definition join (session channel : Z) (st : ChannelStore) : option Z * ChannelStore :=
  let '(previous, st) := leave session st in
  let ch := default (game_channel channel true) (st !! channel) in
  (previous, <[channel := ch <| members := {[session]} ∪ members ch |>]> st).

Definition set_listening (session channel : Z) (listening : bool) (st : ChannelStore) : ChannelStore :=
  match st !! channel with
  | Some ch =>
      <[channel := ch <| listeners := if listening then {[session]} ∪ listeners ch
                                      else listeners ch ∖ {[session]} |>]> st
  | None => st
  end.

Definition drop_session (session : Z) (st : ChannelStore) : ChannelStore :=
  let '(_, st) := leave session st in
  (fun ch => ch <| listeners := listeners ch ∖ {[session]} |>) <$> st.

(** ** Whisper targets (target.rs) *)

Definition MIN_TARGET_ID : Z := 1.
Definition MAX_TARGET_ID : Z := 30.

Record ChannelTarget := { channel_id : Z; links : bool; children : bool }.
Record Target := { t_sessions : list Z; t_channels : list ChannelTarget }.
Abbreviation TargetRegistry := (gmap Z Target).

Definition target_set (id : Z) (t : Target) (r : TargetRegistry) : TargetRegistry :=
  if (MIN_TARGET_ID <=? id) && (id <=? MAX_TARGET_ID) then <[id := t]> r else r.
Definition target_clear (id : Z) (r : TargetRegistry) : TargetRegistry := delete id r.
Definition target_clear_all (r : TargetRegistry) : TargetRegistry := ∅.

(** ** Sessions (session.rs) *)

Definition parse_netid (username : list Z) : option Z :=
  match username with
  | 91 :: inner => find_byte 93 inner ≫= fun stop => parse_u32 (take stop inner)
  | _ => None
  end.

Record Session := {
  s_id : Z; s_name : list Z; mute : bool; self_deaf : bool; deaf : bool;
  context : option (list Z); targets : TargetRegistry
}.

#[export] Instance session_rebuild : Rebuild Session := fun s =>
  {| s_id := s_id s; s_name := s_name s; mute := mute s; self_deaf := self_deaf s; deaf := deaf s;
     context := context s; targets := targets s |}.

Definition session_new (id : Z) (name : list Z) : Session :=
  {| s_id := id; s_name := name; mute := false; self_deaf := false; deaf := false; context := None; targets := ∅ |}.

Definition can_speak (s : Session) : bool := negb (mute s).
Definition can_hear (s : Session) : bool := negb (deaf s) && negb (self_deaf s).

Abbreviation SessionRegistry := (gmap Z Session).

Definition session_insert (netid : Z) (name : list Z) (r : SessionRegistry) : SessionRegistry :=
  match r !! netid with Some _ => r | None => <[netid := session_new netid name]> r end.

Definition contexts_match (r : SessionRegistry) (a b : Z) : bool :=
  match r !! a, r !! b with
  | Some sa, Some sb =>
      match context sa, context sb with Some ca, Some cb => bool_decide (ca = cb) | _, _ => false end
  | _, _ => false
  end.

(** ** Routing (router.rs) *)

Record Recipient := { r_session : Z; with_position : bool }.
#[export] Instance recipient_eq_dec : EqDecision Recipient.
Proof. solve_decision. Defined.

Class AoiOracle := audible : Z -> Z -> option bool.
Definition NoCulling : AoiOracle := fun _ _ => None.

Section router.
Context (sessions : SessionRegistry) (channels : ChannelStore) {aoi : AoiOracle}.

Definition can_deliver (speaker listener : Z) (apply_aoi : bool) : bool :=
  match sessions !! listener with
  | Some s =>
      if can_hear s then
        if apply_aoi then default true (audible speaker listener) else true
      else false
  | None => false
  end.

Definition recipient (speaker listener : Z) (packet : VoicePacket) : Recipient :=
  {| r_session := listener; with_position := has_position packet && contexts_match sessions speaker listener |}.

Fixpoint dedup_by_session (v : list Recipient) : list Recipient :=
  match v with
  | [] => []
  | r :: rest =>
      match dedup_by_session rest with
      | r' :: rest' => if r_session r =? r_session r' then r :: rest' else r :: r' :: rest'
      | [] => [r]
      end
  end.

Definition dedup (v : list Recipient) : list Recipient :=
  dedup_by_session (sort_by (fun a b => r_session a <=? r_session b) v).

(** The [continue]s of both loops. *)
Definition deliver_to (speaker : Z) (packet : VoicePacket) (apply_aoi : bool) (candidates : list Z) : list Recipient :=
  (fun listener => recipient speaker listener packet) <$>
    List.filter (fun listener => negb (listener =? speaker) && can_deliver speaker listener apply_aoi) candidates.

Definition whisper_set (t : Target) : gset Z :=
  list_to_set (t_sessions t) ∪
  ⋃ ((fun ct => match channels !! channel_id ct with
               | Some ch => members ch ∪ listeners ch
               | None => ∅
               end) <$> t_channels t).

Definition resolve (speaker : Z) (packet : VoicePacket) : list Recipient :=
  match sessions !! speaker with
  | Some s =>
      if can_speak s then
        match target packet with
        | Loopback => [{| r_session := speaker; with_position := false |}]
        | Normal =>
            match ch_id ∘ snd <$> find_member speaker channels with
            | None => []
            | Some id =>
                dedup match channels !! id with
                      | Some ch =>
                          deliver_to speaker packet true (ascending (members ch) ++ ascending (listeners ch))
                      | None => []
                      end
            end
        | Whisper id =>
            deliver_to speaker packet false
              (ascending (match targets s !! id with Some t => whisper_set t | None => ∅ end))
        end
      else []
  | None => []
  end.
End router.

(** ** Sorted containers *)

Lemma elem_of_ascending s x : x ∈ ascending s <-> x ∈ s.
Proof. unfold ascending. by rewrite (sort_by_perm _ (elements s)), elem_of_elements. Qed.

Lemma NoDup_ascending s : NoDup (ascending s).
Proof. unfold ascending. rewrite (sort_by_perm _ (elements s)). apply NoDup_elements. Qed.

Lemma elem_of_entries {A} (m : gmap Z A) k a : (k, a) ∈ entries m <-> m !! k = Some a.
Proof. unfold entries. rewrite (sort_by_perm _ (map_to_list m)). apply elem_of_map_to_list. Qed.

(** ** Decimal numbers *)

(** the user name a client of player [n] logs in with, [[n]] or [[n] name],
    is read as [n], for every 32-bit player number. *)
Theorem parse_netid_of_player n rest :
  is_u 32 n -> parse_netid (91 :: decimal n ++ 93 :: rest) = Some n.
Proof.
  intros Hn. cbn [parse_netid].
  rewrite find_byte_app by (eapply Forall_impl; [by apply decimal_range|]; cbn; lia). cbn [mbind option_bind].
  rewrite take_app_length. by apply parse_u32_decimal.
Qed.

Lemma parse_netid_of_player_witness :
  is_u 32 65535 /\ parse_netid (91 :: decimal 65535 ++ 93 :: [32; 97]) = Some 65535.
Proof.
  assert (H : is_u 32 65535) by (unfold is_u; lia). split; [exact H|].
  exact (parse_netid_of_player 65535 [32; 97] H).
Defined.

(** ** Who is in which channel *)

Definition is_member (st : ChannelStore) (session k : Z) : Prop :=
  exists ch, st !! k = Some ch /\ session ∈ members ch.

(** The store's invariant: keys are ids, the root is there, and nobody is in two
    channels. *)
Record store_ok (st : ChannelStore) : Prop := {
  so_id k ch : st !! k = Some ch -> ch_id ch = k;
  so_root : is_Some (st !! ROOT_CHANNEL);
  so_unique session k k' : is_member st session k -> is_member st session k' -> k = k'
}.

(** The channel a session is in. *)
Definition channel_of (st : ChannelStore) (session : Z) : option Z := fst <$> find_member session st.

Lemma find_member_spec st session :
  match find_member session st with
  | Some (k, ch) => st !! k = Some ch /\ session ∈ members ch
  | None => forall k, ~ is_member st session k
  end.
Proof.
  unfold find_member. destruct (List.find _ _) as [[k ch]|] eqn:E.
  - apply find_some in E as [Hin Hm]. apply list_elem_of_In, elem_of_entries in Hin.
    split; [done|]. by apply bool_decide_eq_true in Hm.
  - intros k (ch & Hk & Hm). apply elem_of_entries, list_elem_of_In in Hk.
    pose proof (find_none _ _ E _ Hk) as H. by apply bool_decide_eq_false in H.
Qed.

Lemma channel_of_spec st session k : store_ok st -> channel_of st session = Some k <-> is_member st session k.
Proof.
  intros Hok. unfold channel_of. pose proof (find_member_spec st session) as H.
  destruct (find_member session st) as [[k' ch]|]; cbn; split.
  - intros [= ->]. by exists ch.
  - intros Hm. f_equal. apply (so_unique _ Hok session); [by exists ch|done].
  - done.
  - intros Hm. by destruct (H k).
Qed.

Lemma channel_of_none st session : channel_of st session = None <-> forall k, ~ is_member st session k.
Proof.
  unfold channel_of. pose proof (find_member_spec st session) as H.
  destruct (find_member session st) as [[k' ch]|]; cbn; split; try done.
  intros Hn. destruct (Hn k'). by exists ch.
Qed.

(** Two stores with the same members tell the same. *)
Lemma channel_of_eq st st' session session' : store_ok st -> store_ok st' ->
  (forall k, is_member st' session' k <-> is_member st session k) -> channel_of st' session' = channel_of st session.
Proof.
  intros Hok Hok' H. destruct (channel_of st session) as [k|] eqn:E.
  - apply channel_of_spec; [done|]. apply H. by apply channel_of_spec.
  - apply channel_of_none. intros k Hm. apply H in Hm. by apply (proj1 (channel_of_none _ _) E k).
Qed.

Lemma is_member_insert st id ch session k :
  is_member (<[id := ch]> st) session k <-> if decide (k = id) then session ∈ members ch else is_member st session k.
Proof.
  unfold is_member. destruct (decide (k = id)) as [->|Hne].
  - split; [|by exists ch; rewrite lookup_insert_eq]. intros (c & Hc & Hm). rewrite lookup_insert_eq in Hc. by injection Hc as <-.
  - by setoid_rewrite lookup_insert_ne; [|done].
Qed.

Lemma gc_temporary_spec id st : store_ok st ->
  store_ok (gc_temporary id st) /\
  (forall session k, is_member (gc_temporary id st) session k <-> is_member st session k) /\
  (forall k ch, gc_temporary id st !! k = Some ch -> st !! k = Some ch) /\
  (forall k ch, st !! k = Some ch -> temporary ch = false -> gc_temporary id st !! k = Some ch).
Proof.
  intros Hok. unfold gc_temporary. destruct (Z.eqb_spec id ROOT_CHANNEL) as [|Hne]; [done|].
  destruct (st !! id) as [ch|] eqn:E; [|done]. destruct (temporary ch && _ && _) eqn:Et; [|done].
  apply andb_true_iff in Et as [[Ht Em]%andb_true_iff _]. apply bool_decide_eq_true in Em.
  assert (Hm : forall session k, is_member (delete id st) session k <-> is_member st session k).
  { intros session k. unfold is_member. destruct (decide (k = id)) as [->|Hk].
    - rewrite lookup_delete_eq, E. split; [by intros (c & [=] & _)|]. intros (c & [= <-] & Hm). set_solver.
    - by rewrite lookup_delete_ne. }
  assert (Hsub : forall k c, delete id st !! k = Some c -> st !! k = Some c)
    by (by intros k c [_ H]%lookup_delete_Some).
  split; [split|split; [done|split; [done|]]].
  - intros k c H. by apply (so_id _ Hok), Hsub.
  - rewrite lookup_delete_ne by done. apply Hok.
  - intros session k k'. rewrite !Hm. apply Hok.
  - intros k c Hk Hc. rewrite lookup_delete_ne; [done|]. intros ->. rewrite E in Hk. injection Hk as ->. congruence.
Qed.

Lemma insert_ok id ch st :
  store_ok st -> ch_id ch = id -> (forall session k, session ∈ members ch -> is_member st session k -> k = id) ->
  store_ok (<[id := ch]> st).
Proof.
  intros Hok Hid Hm. split.
  - intros k c [[<- <-]|[_ H]]%lookup_insert_Some; [done|by apply (so_id _ Hok)].
  - destruct (decide (id = ROOT_CHANNEL)) as [->|]; [by rewrite lookup_insert_eq|].
    rewrite lookup_insert_ne by done. apply Hok.
  - intros session k k'. rewrite !is_member_insert. destruct (decide (k = id)), (decide (k' = id)); try congruence.
    + intros H1 H2. by rewrite (Hm session k').
    + intros H1 H2. by rewrite (Hm session k).
    + apply Hok.
Qed.

(** Every channel that is permanent in [st] is still in [st'], with its listeners. *)
Definition keeps_permanent (st st' : ChannelStore) : Prop :=
  forall k ch, st !! k = Some ch -> temporary ch = false ->
    exists ch', st' !! k = Some ch' /\ temporary ch' = false /\ listeners ch' = listeners ch.

Lemma leave_spec session st : store_ok st ->
  let '(prev, st') := leave session st in
  prev = channel_of st session /\ store_ok st' /\
  (forall s k, is_member st' s k <-> s <> session /\ is_member st s k) /\
  keeps_permanent st st' /\
  (forall k ch', st' !! k = Some ch' -> exists ch, st !! k = Some ch /\ temporary ch' = temporary ch).
Proof.
  intros Hok. unfold leave, channel_of. pose proof (find_member_spec st session) as H.
  destruct (find_member session st) as [[k ch]|]; cbn [fmap option_fmap option_map fst].
  2: { split; [done|]. split; [done|]. split; [|split; [by intros k ch; exists ch|by intros k ch; exists ch]].
       intros s k. split; [|tauto]. intros Hm. split; [intros ->; by apply (H k)|done]. }
  destruct H as [Hk Hm]. rewrite (so_id _ Hok _ _ Hk). split; [done|].
  set (ch' := ch <| members := members ch ∖ {[session]} |>). set (st1 := <[k := ch']> st).
  assert (Hok1 : store_ok st1).
  { apply insert_ok; [done|by apply (so_id _ Hok) in Hk|]. intros s k' Hs Hk'. apply (so_unique _ Hok s); [done|].
    exists ch. split; [done|]. cbn in Hs. set_solver. }
  destruct (gc_temporary_spec k st1 Hok1) as (Hok' & Hm' & Hsub & Hperm). split; [done|]. split; [|split].
  - intros s k'. rewrite Hm'. unfold st1. rewrite is_member_insert. destruct (decide (k' = k)) as [->|Hne].
    + cbn. unfold is_member. rewrite Hk. split.
      * intros Hs. split; [set_solver|]. exists ch. set_solver.
      * intros (Hs & c & [= <-] & Hc). set_solver.
    + split; [|tauto]. intros Hs. split; [|done]. intros ->. apply Hne. apply (so_unique _ Hok session); [done|by exists ch].
  - intros k' c Hc Ht. destruct (decide (k' = k)) as [->|Hne].
    + exists ch'. rewrite Hk in Hc. injection Hc as <-. split; [|done]. apply Hperm; [|done]. apply lookup_insert_eq.
    + exists c. split; [|done]. apply Hperm; [|done]. unfold st1. by rewrite lookup_insert_ne.
  - intros k' c Hc%Hsub. unfold st1 in Hc. apply lookup_insert_Some in Hc as [[<- <-]|[_ Hc]]; [by exists ch|by exists c].
Qed.

Lemma join_spec session channel st : store_ok st ->
  let '(previous, st') := join session channel st in
  previous = channel_of st session /\ store_ok st' /\
  (forall s k, is_member st' s k <-> (s = session /\ k = channel) \/ (s <> session /\ is_member st s k)) /\
  keeps_permanent st st' /\
  (forall k ch', st' !! k = Some ch' ->
     (exists ch, st !! k = Some ch /\ temporary ch' = temporary ch) \/
     (k = channel /\ (st !! k = None \/ exists ch, st !! k = Some ch /\ temporary ch = true))).
Proof.
  intros Hok. unfold join. pose proof (leave_spec session st Hok) as H. destruct (leave session st) as [prev st1].
  destruct H as (Hl & Hok1 & Hm1 & Hp1 & Ht1). split; [done|].
  set (c0 := default (game_channel channel true) (st1 !! channel)).
  assert (Hc0 : ch_id c0 = channel).
  { unfold c0. destruct (st1 !! channel) eqn:E; [exact (so_id _ Hok1 _ _ E)|done]. }
  assert (Hmem : forall s, s ∈ members c0 <-> is_member st1 s channel).
  { intros s. unfold c0, is_member. destruct (st1 !! channel) as [c|]; cbn [default from_option id].
    - split; [by exists c|]. by intros (? & [= <-] & ?).
    - split; [by intros ?%elem_of_empty|by intros (? & [=] & _)]. }
  split; [|split; [|split]].
  - apply insert_ok; [done|done|]. intros s k Hs Hk. apply elem_of_union in Hs as [Hs|Hs].
    + apply elem_of_singleton in Hs as ->. by apply Hm1 in Hk as [Hk _].
    + apply (so_unique _ Hok1 s); [done|]. by apply Hmem.
  - intros s k. rewrite is_member_insert. destruct (decide (k = channel)) as [->|Hne].
    + cbn. rewrite elem_of_union, elem_of_singleton, Hmem, Hm1. destruct (decide (s = session)); tauto.
    + rewrite Hm1. tauto.
  - intros k c Hc Ht. destruct (Hp1 k c Hc Ht) as (c' & Hc' & Ht' & Hl'). destruct (decide (k = channel)) as [->|Hne].
    + eexists. split; [apply lookup_insert_eq|]. unfold c0. by rewrite Hc'.
    + exists c'. by rewrite lookup_insert_ne.
  - intros k c [[<- <-]|[_ Hc]]%lookup_insert_Some; [|left; by apply Ht1]. unfold c0.
    destruct (st1 !! channel) as [c1|] eqn:E; [left; by destruct (Ht1 _ _ E) as (c & Hc & Hct); exists c|]. right. split; [done|].
    destruct (st !! channel) as [c2|] eqn:E2; [right|by left]. exists c2. split; [done|].
    destruct (temporary c2) eqn:Et; [done|]. destruct (Hp1 _ _ E2 Et) as (? & ? & _). congruence.
Qed.

Lemma store_new_ok : store_ok store_new.
Proof.
  unfold store_new. split.
  - intros k ch [<- <-]%lookup_singleton_Some. reflexivity.
  - by rewrite lookup_singleton_eq.
  - intros s k k' (ch & [_ <-]%lookup_singleton_Some & H). by apply elem_of_empty in H.
Qed.

Lemma create_ok id st : store_ok st ->
  store_ok (create_game_channel id st) /\
  (forall s k, is_member (create_game_channel id st) s k <-> is_member st s k) /\
  is_Some (create_game_channel id st !! id) /\
  (forall k ch, create_game_channel id st !! k = Some ch -> st !! k = Some ch \/ temporary ch = false) /\
  (forall k ch, st !! k = Some ch -> create_game_channel id st !! k = Some ch).
Proof.
  intros Hok. unfold create_game_channel. destruct (st !! id) as [ch|] eqn:E; [by eauto 10|].
  assert (Hnone : forall s k, is_member st s k -> k <> id) by (intros s k (c & Hc & _) ->; congruence).
  split; [apply insert_ok; [done|done|by intros s k H%elem_of_empty]|]. split; [|split; [by rewrite lookup_insert_eq|split]].
  - intros s k. rewrite is_member_insert. destruct (decide (k = id)) as [->|]; [|done]. split; [by intros ?%elem_of_empty|].
    intros H. by apply Hnone in H.
  - intros k ch [[<- <-]|[_ H]]%lookup_insert_Some; [by right|by left].
  - intros k ch Hk. rewrite lookup_insert_ne; [done|]. intros ->. congruence.
Qed.

(** A change of listeners only. *)
Definition same_members (st st' : ChannelStore) : Prop :=
  forall k, (fun ch => (ch_id ch, members ch, temporary ch)) <$> st' !! k =
            (fun ch => (ch_id ch, members ch, temporary ch)) <$> st !! k.

Lemma same_members_ok st st' : same_members st st' -> store_ok st ->
  store_ok st' /\ (forall s k, is_member st' s k <-> is_member st s k) /\
  (forall k ch', st' !! k = Some ch' -> exists ch, st !! k = Some ch /\ temporary ch' = temporary ch).
Proof.
  intros H Hok.
  assert (Hc : forall k c', st' !! k = Some c' ->
    exists c, st !! k = Some c /\ ch_id c' = ch_id c /\ members c' = members c /\ temporary c' = temporary c).
  { intros k c' Hk. specialize (H k). rewrite Hk in H. destruct (st !! k) as [c|]; [|done]. injection H as ???. by exists c. }
  assert (Hc' : forall k c, st !! k = Some c -> exists c', st' !! k = Some c' /\ members c' = members c).
  { intros k c Hk. specialize (H k). rewrite Hk in H. destruct (st' !! k) as [c'|]; [|done]. injection H as ???. by exists c'. }
  assert (Hm : forall s k, is_member st' s k <-> is_member st s k).
  { intros s k. split; intros (c & Hk & Hs).
    - apply Hc in Hk as (c0 & ? & _ & E & _). exists c0. by rewrite <- E.
    - apply Hc' in Hk as (c0 & ? & E). exists c0. by rewrite E. }
  split; [split|split; [done|]].
  - intros k c' (c & H' & -> & _)%Hc. exact (so_id _ Hok _ _ H').
  - destruct (so_root _ Hok) as [c (c' & -> & _)%Hc']. done.
  - intros s k k'. rewrite !Hm. apply Hok.
  - intros k c' (c & H' & _ & _ & E)%Hc. by exists c.
Qed.

Lemma set_listening_same session c b st : same_members st (set_listening session c b st).
Proof.
  intros k. unfold set_listening. destruct (st !! c) as [ch|] eqn:E; [|done].
  destruct (decide (k = c)) as [->|]; [by rewrite lookup_insert_eq, E|by rewrite lookup_insert_ne].
Qed.

Lemma forget_listener_same session (st : ChannelStore) :
  same_members st ((fun ch => ch <| listeners := listeners ch ∖ {[session]} |>) <$> st).
Proof. intros k. rewrite lookup_fmap. by destruct (st !! k). Qed.

(** the channel store is a map from sessions to channels: entering a channel
    overwrites the session's entry, leaving and dropping erase it, and nobody
    else moves, whatever temporary channels are collected on the way; creating
    a channel and listening move nobody. *)
Theorem membership_refines session channel st :
  store_ok st ->
  (let '(previous, st') := join session channel st in
   previous = channel_of st session /\ store_ok st' /\
   forall s, channel_of st' s = if decide (s = session) then Some channel else channel_of st s) /\
  (let '(previous, st') := leave session st in
   previous = channel_of st session /\ store_ok st' /\
   forall s, channel_of st' s = if decide (s = session) then None else channel_of st s) /\
  (let st' := drop_session session st in
   store_ok st' /\ (forall s, channel_of st' s = if decide (s = session) then None else channel_of st s) /\
   forall k ch, st' !! k = Some ch -> session ∉ listeners ch) /\
  (let st' := create_game_channel channel st in
   store_ok st' /\ channel_exists channel st' = true /\ forall s, channel_of st' s = channel_of st s) /\
  (forall b, let st' := set_listening session channel b st in
   store_ok st' /\ forall s, channel_of st' s = channel_of st s).
Proof.
  intros Hok.
  assert (Hleft : forall st', store_ok st' -> (forall s k, is_member st' s k <-> s <> session /\ is_member st s k) ->
    forall s, channel_of st' s = if decide (s = session) then None else channel_of st s).
  { intros st' Hok' Hm s. destruct (decide (s = session)) as [->|Hne].
    - apply channel_of_none. intros k [? _]%Hm. done.
    - apply channel_of_eq; [done..|]. intros k. rewrite Hm. tauto. }
  pose proof (leave_spec session st Hok) as Hl. pose proof (join_spec session channel st Hok) as Hj.
  unfold drop_session. destruct (leave session st) as [p1 st1], (join session channel st) as [p2 st2].
  destruct Hl as (-> & Hok1 & Hm1 & _), Hj as (-> & Hok2 & Hm2 & _).
  destruct (create_ok channel st Hok) as (Hok4 & Hm4 & [c Hc] & _).
  destruct (same_members_ok _ _ (forget_listener_same session st1) Hok1) as (Hok3 & Hm3 & _).
  split; [|split; [by auto|split; [|split]]].
  - split; [done|]. split; [done|]. intros s. destruct (decide (s = session)) as [->|Hne].
    + apply channel_of_spec; [done|]. apply Hm2. by left.
    + apply channel_of_eq; [done..|]. intros k. rewrite Hm2. tauto.
  - split; [done|]. split.
    + apply Hleft; [done|]. intros s k. rewrite Hm3. apply Hm1.
    + intros k ch. rewrite lookup_fmap. intros (c0 & _ & ->)%fmap_Some. cbn. set_solver.
  - split; [done|]. split; [by unfold channel_exists; rewrite Hc|]. intros s. apply channel_of_eq; [done..|]. intros k. apply Hm4.
  - intros b. destruct (same_members_ok _ _ (set_listening_same session channel b st) Hok) as (Hok5 & Hm5 & _).
    split; [done|]. intros s. apply channel_of_eq; [done..|]. intros k. apply Hm5.
Qed.

Definition two_talkers : ChannelStore := (join 7 0 (join 5 0 store_new).2).2.

Lemma two_talkers_ok : store_ok two_talkers.
Proof.
  pose proof (join_spec 5 0 store_new store_new_ok) as H. unfold two_talkers.
  destruct (join 5 0 store_new) as [p st1]. destruct H as (_ & H & _).
  pose proof (join_spec 7 0 st1 H) as H2. cbn [snd]. destruct (join 7 0 st1) as [p' st2]. apply H2.
Qed.

Lemma membership_refines_witness :
  channel_of (join 7 42 two_talkers).2 7 = Some 42 /\ channel_of (join 7 42 two_talkers).2 5 = Some 0.
Proof.
  pose proof (membership_refines 7 42 two_talkers two_talkers_ok) as [H _].
  destruct (join 7 42 two_talkers) as [prev st']. destruct H as (_ & _ & H).
  split; [exact (H 7)|]. cbn [snd]. rewrite (H 5). vm_compute. reflexivity.
Defined.

(** ** Who hears *)

(** What [deliver_to] keeps of its candidates. *)
Lemma elem_of_deliver sessions (aoi : AoiOracle) speaker packet b candidates r :
  r ∈ deliver_to sessions speaker packet b candidates <->
  r_session r ∈ candidates /\ r_session r <> speaker /\ can_deliver sessions speaker (r_session r) b = true /\
  with_position r = has_position packet && contexts_match sessions speaker (r_session r).
Proof.
  unfold deliver_to. rewrite list_elem_of_fmap. setoid_rewrite list_elem_of_In. setoid_rewrite filter_In. split.
  - intros (l & -> & Hin & [Hne Hc]%andb_true_iff). cbn. apply negb_true_iff, Z.eqb_neq in Hne. done.
  - intros (Hin & Hne & Hc & Hp). exists (r_session r). split.
    + destruct r as [s w]. unfold recipient. cbn in *. by rewrite Hp.
    + split; [done|]. apply andb_true_iff. split; [|done]. apply negb_true_iff. by apply Z.eqb_neq.
Qed.

Lemma dedup_by_session_spec v : Sorted (fun a b => (r_session a <=? r_session b) = true) v ->
  Sorted (fun a b => r_session a < r_session b) (dedup_by_session v) /\
  (forall r, r ∈ dedup_by_session v -> r ∈ v) /\
  (forall r, r ∈ v -> exists r', r' ∈ dedup_by_session v /\ r_session r' = r_session r) /\
  (r_session <$> head (dedup_by_session v)) = r_session <$> head v.
Proof.
  induction v as [|r v IH]; intros Hs.
  { split; [constructor|]. split; [done|]. split; [|done]. by intros r H%elem_of_nil. }
  apply Sorted_inv in Hs as [Hs Hh]. destruct (IH Hs) as (Hd & Hsub & Hcov & Hhead). clear IH. cbn [dedup_by_session].
  destruct (dedup_by_session v) as [|r' rest] eqn:E.
  { destruct v as [|r0 v]; [|done]. split; [by repeat constructor|]. split; [done|]. split; [|done]. intros x Hx. by exists x. }
  destruct v as [|r0 v]; [done|]. cbn in Hhead. injection Hhead as Eh. inversion Hh as [|? ? Hle]; subst.
  apply Z.leb_le in Hle. apply Sorted_inv in Hd as [Hd Hd'].
  destruct (Z.eqb_spec (r_session r) (r_session r')) as [Er|Er]; (split; [|split; [|split; [|done]]]).
  - constructor; [done|]. inversion Hd'; subst; constructor. lia.
  - intros x [->|Hx]%elem_of_cons; [by left|]. right. apply Hsub. by right.
  - intros x [->|Hx]%elem_of_cons; [exists r; split; [by left|done]|].
    apply Hcov in Hx as (y & [->|Hy]%elem_of_cons & Ey); [exists r; split; [by left|congruence]|].
    exists y. split; [by right|done].
  - constructor; [by constructor|]. constructor. lia.
  - intros x [->|Hx]%elem_of_cons; [by left|]. right. by apply Hsub.
  - intros x [->|Hx]%elem_of_cons; [exists r; split; [by left|done]|].
    apply Hcov in Hx as (y & Hy & Ey). exists y. split; [by right|done].
Qed.

Lemma sorted_sessions_NoDup (v : list Recipient) :
  Sorted (fun a b => r_session a < r_session b) v -> NoDup (r_session <$> v).
Proof.
  intros H. apply Sorted_StronglySorted in H; [|intros a b c; lia]. induction H as [|r v Hs IH Hf]; cbn; constructor; [|done].
  intros (r' & E & Hin)%list_elem_of_fmap. rewrite Forall_forall in Hf. specialize (Hf r' Hin). cbn in Hf. lia.
Qed.

(** Who is meant by a packet. *)
Definition in_scope (sessions : SessionRegistry) (channels : ChannelStore) (speaker : Z) (t : VoiceTargetKind)
    (listener : Z) : Prop :=
  match t with
  | Loopback => listener = speaker
  | Normal => listener <> speaker /\
      exists k ch, is_member channels speaker k /\ channels !! k = Some ch /\ (listener ∈ members ch \/ listener ∈ listeners ch)
  | Whisper id => listener <> speaker /\
      exists s w, sessions !! speaker = Some s /\ targets s !! id = Some w /\
        (listener ∈ t_sessions w \/
         exists ct ch, ct ∈ t_channels w /\ channels !! channel_id ct = Some ch /\
           (listener ∈ members ch \/ listener ∈ listeners ch))
  end.

Lemma elem_of_whisper_set channels w x :
  x ∈ whisper_set channels w <->
  x ∈ t_sessions w \/
  exists ct ch, ct ∈ t_channels w /\ channels !! channel_id ct = Some ch /\ (x ∈ members ch \/ x ∈ listeners ch).
Proof.
  unfold whisper_set. rewrite elem_of_union, elem_of_list_to_set, elem_of_union_list. apply or_iff_compat_l. split.
  - intros (s & (ct & -> & Hct)%list_elem_of_fmap & Hx). exists ct. destruct (channels !! channel_id ct) as [ch|]; [|by apply elem_of_empty in Hx].
    exists ch. split; [done|]. split; [done|]. by apply elem_of_union.
  - intros (ct & ch & Hct & Hch & Hx). exists (members ch ∪ listeners ch). split; [|by apply elem_of_union].
    apply list_elem_of_fmap. exists ct. by rewrite Hch.
Qed.

Lemma elem_of_dedup v r :
  (forall a b, a ∈ v -> b ∈ v -> r_session a = r_session b -> a = b) -> r ∈ dedup v <-> r ∈ v.
Proof.
  intros Hdet. unfold dedup. set (leb := fun a b : Recipient => r_session a <=? r_session b).
  assert (Hs : Sorted (fun a b => leb a b = true) (sort_by leb v)).
  { pose proof (sort_by_sorted leb v ltac:(unfold leb; intros a b; rewrite Z.leb_gt, Z.leb_le; lia)) as H.
    clear -H. induction H as [|a l H IH Ha]; constructor; [done|]. destruct Ha; constructor. by apply Is_true_true. }
  destruct (dedup_by_session_spec _ Hs) as (_ & Hsub & Hcov & _).
  assert (Hp : forall x, x ∈ sort_by leb v <-> x ∈ v) by (intros x; by rewrite (sort_by_perm leb v)).
  split; [intros H; by apply Hp, Hsub|]. intros H. destruct (Hcov r) as (r' & Hin & E); [by apply Hp|].
  by rewrite <- (Hdet r' r (proj1 (Hp _) (Hsub _ Hin)) H E).
Qed.

Lemma NoDup_dedup v : NoDup (r_session <$> dedup v).
Proof.
  apply sorted_sessions_NoDup, dedup_by_session_spec.
  pose proof (sort_by_sorted (fun a b : Recipient => r_session a <=? r_session b) v
    ltac:(intros a b; rewrite Z.leb_gt, Z.leb_le; lia)) as H.
  induction H as [|a l H IH Ha]; constructor; [done|]. destruct Ha; constructor. by apply Is_true_true.
Qed.

Lemma can_deliver_spec sessions (aoi : AoiOracle) speaker listener b :
  can_deliver sessions speaker listener b = true <->
  (exists l, sessions !! listener = Some l /\ deaf l = false /\ self_deaf l = false) /\
  (b = true -> audible speaker listener <> Some false).
Proof.
  unfold can_deliver, can_hear. destruct (sessions !! listener) as [l|].
  2: { split; [done|]. by intros [(? & [=] & _) _]. }
  destruct (negb (deaf l) && negb (self_deaf l)) eqn:E.
  - apply andb_true_iff in E as [H1%negb_true_iff H2%negb_true_iff]. split.
    + intros H. split; [by exists l|]. intros ->. by destruct (audible speaker listener) as [[]|].
    + intros [_ H]. destruct b; [|done]. specialize (H eq_refl). by destruct (audible speaker listener) as [[]|].
  - split; [done|]. intros [(? & [= <-] & H1 & H2) _]. by rewrite H1, H2 in E.
Qed.

Lemma NoDup_deliver sessions (aoi : AoiOracle) speaker packet b candidates :
  NoDup candidates -> NoDup (r_session <$> deliver_to sessions speaker packet b candidates).
Proof.
  intros H. unfold deliver_to. rewrite <- list_fmap_compose.
  rewrite (list_fmap_id (List.filter (fun l => negb (l =? speaker) && can_deliver sessions speaker l b) candidates)).
  by apply NoDup_ListNoDup, List.NoDup_filter, NoDup_ListNoDup.
Qed.

Lemma resolve_NoDup sessions channels (aoi : AoiOracle) speaker packet :
  NoDup (r_session <$> resolve sessions channels speaker packet).
Proof.
  unfold resolve. destruct (sessions !! speaker) as [s|]; [|constructor]. destruct (can_speak s); [|constructor].
  destruct (target packet).
  - destruct (ch_id ∘ snd <$> find_member speaker channels); [apply NoDup_dedup|constructor].
  - apply NoDup_deliver, NoDup_ascending.
  - apply NoDup_singleton.
Qed.

(** Proximity talk: the members and listeners of the speaker's channel. *)
Lemma elem_of_normal sessions channels (aoi : AoiOracle) speaker packet k ch r :
  store_ok channels -> channels !! k = Some ch -> speaker ∈ members ch ->
  r ∈ dedup (deliver_to sessions speaker packet true (ascending (members ch) ++ ascending (listeners ch))) <->
  in_scope sessions channels speaker Normal (r_session r) /\ can_deliver sessions speaker (r_session r) true = true /\
  with_position r = has_position packet && contexts_match sessions speaker (r_session r).
Proof.
  intros Hok Hk Hsp. rewrite elem_of_dedup.
  2: { intros a b (_ & _ & _ & Ea)%elem_of_deliver (_ & _ & _ & Eb)%elem_of_deliver E. destruct a, b. cbn in *. congruence. }
  rewrite elem_of_deliver, elem_of_app, !elem_of_ascending. cbn [in_scope]. split.
  - intros (Hin & Hne & Hc & Hp). split; [split; [done|]; exists k, ch; split; [by exists ch|done]|done].
  - intros ((Hne & k' & ch' & Hm & Hk' & Hin) & Hc & Hp).
    assert (k' = k) as -> by (apply (so_unique _ Hok speaker); [done|by exists ch]). rewrite Hk in Hk'. injection Hk' as <-.
    done.
Qed.

(** A whisper: those the speaker registered under the id. *)
Lemma elem_of_whisper sessions channels (aoi : AoiOracle) speaker packet s id r :
  sessions !! speaker = Some s ->
  r ∈ deliver_to sessions speaker packet false
    (ascending (match targets s !! id with Some t => whisper_set channels t | None => ∅ end)) <->
  in_scope sessions channels speaker (Whisper id) (r_session r) /\
  can_deliver sessions speaker (r_session r) false = true /\
  with_position r = has_position packet && contexts_match sessions speaker (r_session r).
Proof.
  intros Es. rewrite elem_of_deliver, elem_of_ascending. cbn [in_scope].
  assert (Hc : r_session r ∈ match targets s !! id with Some t => whisper_set channels t | None => ∅ end <->
    exists w, targets s !! id = Some w /\ r_session r ∈ whisper_set channels w).
  { destruct (targets s !! id) as [w|]; split; try (by intros ?%elem_of_empty).
    - intros H. by exists w.
    - by intros (? & [= <-] & ?).
    - by intros (? & [=] & ?). }
  rewrite Hc. setoid_rewrite elem_of_whisper_set. split.
  - intros ((w & Hw & Hin) & Hne & Hl & Hp). split; [split; [done|]; by exists s, w|done].
  - intros ((Hne & s' & w & Hs' & Hw & Hin) & Hl & Hp). rewrite Es in Hs'. injection Hs' as <-.
    split; [by exists w|done].
Qed.

(** a voice packet goes exactly to those it is meant for, each once: nobody
    when the speaker is unknown or muted, the speaker alone for the echo
    test, else the members and listeners of the speaker's channel, or of the
    whisper target, other than the speaker, who are logged in, not deafened
    and, for proximity talk, not culled. The position goes along exactly when
    the two share a context. *)
Theorem resolve_exact sessions channels (aoi : AoiOracle) speaker packet :
  store_ok channels ->
  let recipients := resolve sessions channels speaker packet in
  NoDup (r_session <$> recipients) /\
  forall r, r ∈ recipients <->
    (exists s, sessions !! speaker = Some s /\ mute s = false) /\
    in_scope sessions channels speaker (target packet) (r_session r) /\
    (target packet <> Loopback ->
       exists l, sessions !! r_session r = Some l /\ deaf l = false /\ self_deaf l = false) /\
    (target packet = Normal -> audible speaker (r_session r) <> Some false) /\
    with_position r = match target packet with
                      | Loopback => false
                      | _ => has_position packet && contexts_match sessions speaker (r_session r)
                      end.
Proof.
  intros Hok. cbv zeta. split; [apply resolve_NoDup|]. intros r. unfold resolve.
  destruct (sessions !! speaker) as [s|] eqn:Es.
  2: { rewrite elem_of_nil. split; [done|]. by intros ((? & [=] & _) & _). }
  unfold can_speak. destruct (mute s) eqn:Em; cbn [negb].
  { rewrite elem_of_nil. split; [done|]. intros ((? & [= <-] & ?) & _). congruence. }
  assert (Hsp : exists s0, Some s = Some s0 /\ mute s0 = false) by by exists s.
  destruct (target packet) as [|id|] eqn:Et.
  - pose proof (find_member_spec channels speaker) as Hf. destruct (find_member speaker channels) as [[k ch]|]; cbn [fmap option_fmap option_map compose snd].
    2: { rewrite elem_of_nil. split; [done|]. intros (_ & (_ & k & ch & Hm & _) & _). by apply Hf in Hm. }
    destruct Hf as [Hk Hm]. rewrite (so_id _ Hok _ _ Hk), Hk.
    rewrite (elem_of_normal _ _ _ _ _ k ch) by done. rewrite can_deliver_spec. naive_solver.
  - rewrite (elem_of_whisper _ channels _ _ _ s) by done. rewrite can_deliver_spec. naive_solver.
  - rewrite list_elem_of_singleton. cbn [in_scope]. split.
    + intros ->. split; [done|]. by split.
    + intros (_ & E & _ & _ & Hp). destruct r. cbn in *. by subst.
Qed.

Definition talkers : SessionRegistry :=
  session_insert 5 [53] (<[7 := (session_new 7 [55]) <| targets := {[3 := {| t_sessions := [5; 9]; t_channels := [] |}]} |>]> ∅).

Definition whisper_packet : VoicePacket :=
  {| codec := Opus; target := Whisper 3; payload := [131]; audio_end := 1; position := None |}.

Lemma resolve_exact_witness :
  resolve (aoi := NoCulling) talkers two_talkers 7 whisper_packet = [{| r_session := 5; with_position := false |}] /\
  NoDup (r_session <$> resolve (aoi := NoCulling) talkers two_talkers 7 whisper_packet).
Proof.
  split; [vm_compute; reflexivity|]. exact (proj1 (resolve_exact talkers two_talkers NoCulling 7 whisper_packet two_talkers_ok)).
Defined.
