(* ===== verification/VoiceServer.v ===== *)
(** * The voice server (src/crates/baston-voice/src/server)

    The shared state behind the mutex, the control channel of a client from
    its bytes to the handlers, the UDP socket, and the calls of the game
    server. A critical section is one function; what it queues or sends is a
    list of events. Protobuf and AES are interfaces. The queue of a control
    connection is named by a number. *)

From S2P Require Import Prelude Decimal VoicePacket VoiceCrypto VoiceRouting.

(** ** Third parties *)

(** AES-128 under a key. *)
Class Aes := aes : list Z -> BlockCipher.

Record UserStateMsg := {
  u_session : option Z; u_name : option (list Z); u_channel : option Z; u_mute : option bool; u_deaf : option bool;
  u_self_mute : option bool; u_self_deaf : option bool; u_context : option (list Z);
  u_listen_add : list Z; u_listen_remove : list Z
}.
#[export] Instance user_state_rebuild : Rebuild UserStateMsg := fun u =>
  {| u_session := u_session u; u_name := u_name u; u_channel := u_channel u; u_mute := u_mute u; u_deaf := u_deaf u;
     u_self_mute := u_self_mute u; u_self_deaf := u_self_deaf u; u_context := u_context u;
     u_listen_add := u_listen_add u; u_listen_remove := u_listen_remove u |}.

Definition user_state_default : UserStateMsg :=
  {| u_session := None; u_name := None; u_channel := None; u_mute := None; u_deaf := None; u_self_mute := None;
     u_self_deaf := None; u_context := None; u_listen_add := []; u_listen_remove := [] |}.

Record TargetMsg := { tm_session : list Z; tm_channel : option Z; tm_links : option bool; tm_children : option bool }.

(** The messages the server sends, with the fields it sets; constant texts
    (release, welcome text, reject reason) are left out. *)
Inductive Message :=
| MVersion (version : Z)
| MReject
| MPing (timestamp : option Z) (good late lost resync : Z)
| MServerSync (session max_bandwidth permissions : Z)
| MChannelState (id : Z) (parent : option Z) (name : list Z) (temporary : bool)
| MUserRemove (session : Z)
| MUserState (u : UserStateMsg)
| MCryptSetup (key client_nonce server_nonce : option (list Z))
| MPermissionQuery (channel : option Z) (permissions : Z)
| MCodecVersion (alpha beta : Z) (prefer_alpha opus : bool)
| MUdpTunnel (packet : list Z).

Definition type_of (m : Message) : MessageType :=
  match m with
  | MVersion _ => Version | MReject => Reject | MPing _ _ _ _ _ => PingMsg | MServerSync _ _ _ => ServerSync
  | MChannelState _ _ _ _ => ChannelState | MUserRemove _ => UserRemove | MUserState _ => UserState
  | MCryptSetup _ _ _ => CryptSetup | MPermissionQuery _ _ => PermissionQuery
  | MCodecVersion _ _ _ _ => CodecVersion | MUdpTunnel _ => UdpTunnel
  end.

(** The generated protobuf code: the encoder, and one decoder per message the
    server reads, giving the fields it uses. *)
Class Protobuf := {
  proto_encode : Message -> list Z;
  decode_authenticate : list Z -> option (option (list Z));
  decode_ping : list Z -> option (option Z);
  decode_user_state : list Z -> option UserStateMsg;
  decode_voice_target : list Z -> option (option Z * list TargetMsg);
  decode_udp_tunnel : list Z -> option (list Z);
  decode_crypt_setup : list Z -> option (option (list Z));
  decode_permission_query : list Z -> option (option Z)
}.

(** A nonce field holds bytes. *)
Class ProtobufLaws (P : Protobuf) :=
  decoded_nonce_ok payload nonce : decode_crypt_setup payload = Some (Some nonce) -> bytes_ok nonce.

(** ** State (server/mod.rs) *)

Abbreviation Addr := (list Z * Z)%type.

Record VoiceState := {
  sessions : SessionRegistry; channels : ChannelStore;
  control_tx : gmap Z Z; crypt : gmap Z (list Z * CryptState);
  udp_addr : gmap Z Addr; addr_index : gmap Addr Z;
  proximity_overrides : gmap Z (list Z)
}.
#[export] Instance voice_state_rebuild : Rebuild VoiceState := fun st =>
  {| sessions := sessions st; channels := channels st; control_tx := control_tx st; crypt := crypt st;
     udp_addr := udp_addr st; addr_index := addr_index st; proximity_overrides := proximity_overrides st |}.

Definition state_new : VoiceState :=
  {| sessions := ∅; channels := store_new; control_tx := ∅; crypt := ∅; udp_addr := ∅; addr_index := ∅;
     proximity_overrides := ∅ |}.

Inductive Event := Control (queue : Z) (frame : list Z) | Datagram (addr : Addr) (bytes : list Z).

(** One client's control connection (control.rs). *)
Record ClientConn := { conn_session : option Z; out_tx : Z }.

(** What a handler returns: whether the connection stays, and the new states. *)
Abbreviation Outcome := (bool * ClientConn * VoiceState * list Event)%type.

Definition PROTOCOL_VERSION : Z := 0x10400.
Definition MAX_DATAGRAM : nat := 1024.

Section server.
Context {A : Aes} {P : Protobuf}.

(** [framing::encode]; a frame that is too large is not sent. *)
Definition encode (m : Message) : option (list Z) := encode_frame (type_of m) (proto_encode m).

Definition send_control (session : Z) (frame : list Z) (st : VoiceState) : list Event :=
  match control_tx st !! session with Some q => [Control q frame] | None => [] end.

Definition broadcast_control (frame : list Z) (skip : option Z) (st : VoiceState) : list Event :=
  (fun sq => Control sq.2 frame) <$>
    List.filter (fun sq => negb (bool_decide (Some sq.1 = skip))) (entries (control_tx st)).

Definition broadcast (m : Message) (skip : option Z) (st : VoiceState) : list Event :=
  match encode m with Some f => broadcast_control f skip st | None => [] end.

(** ** The calls of the game server *)

(** [VoiceHandle::on_player_dropped]; [teardown] of control.rs is the same. *)
Definition teardown (netid : Z) (st : VoiceState) : VoiceState * list Event :=
  match sessions st !! netid with
  | None => (st, [])
  | Some _ =>
      let st := st <| sessions := delete netid (sessions st) |> in
      let st := st <| channels := drop_session netid (channels st) |> in
      let st := st <| crypt := delete netid (crypt st) |> in
      let st := st <| control_tx := delete netid (control_tx st) |> in
      let st := st <| proximity_overrides := delete netid (proximity_overrides st) |> in
      let st := match udp_addr st !! netid with
                | Some addr => st <| udp_addr := delete netid (udp_addr st) |>
                                  <| addr_index := delete addr (addr_index st) |>
                | None => st
                end in
      (st, broadcast (MUserRemove netid) None st)
  end.

Definition on_player_dropped (netid : Z) (st : VoiceState) : VoiceState * list Event := teardown netid st.

Definition channel_state (ch : Channel) (with_parent : option Z) : Message :=
  MChannelState (ch_id ch) with_parent (ch_name ch) (temporary ch).

Definition create_channel (id : Z) (st : VoiceState) : VoiceState * list Event :=
  if channel_exists id (channels st) then (st, [])
  else
    let st := st <| channels := create_game_channel id (channels st) |> in
    (st, match channels st !! id with
         | Some ch => broadcast (MChannelState (ch_id ch) (Some (parent ch)) (ch_name ch) false) None st
         | None => []
         end).

Definition set_player_muted (netid : Z) (muted : bool) (st : VoiceState) : VoiceState * list Event :=
  match sessions st !! netid with
  | None => (st, [])
  | Some s =>
      let st := st <| sessions := <[netid := s <| mute := muted |>]> (sessions st) |> in
      (st, broadcast (MUserState (user_state_default <| u_session := Some netid |> <| u_mute := Some muted |>)) None st)
  end.

Definition is_player_muted (netid : Z) (st : VoiceState) : bool :=
  match sessions st !! netid with Some s => mute s | None => false end.

Definition set_proximity_override (netid : Z) (position : option (list Z)) (st : VoiceState) : VoiceState :=
  match position with
  | Some p => st <| proximity_overrides := <[netid := p]> (proximity_overrides st) |>
  | None => st <| proximity_overrides := delete netid (proximity_overrides st) |>
  end.

Definition proximity_override (netid : Z) (st : VoiceState) : list Z :=
  default [0; 0; 0] (proximity_overrides st !! netid).

(** ** Voice *)

(** One turn of the loop over the recipients. Slicing never fails
    ([relayed_some]). *)
Definition relay (speaker : Z) (packet : VoicePacket) (acc : VoiceState * list Event) (r : Recipient)
    : VoiceState * list Event :=
  let '(st, events) := acc in
  match encode_outbound speaker packet (with_position r) with
  | None => (st, events)
  | Some out =>
      match udp_addr st !! r_session r, crypt st !! r_session r with
      | Some addr, Some (key, c) =>
          let '(encrypted, c') := VoiceCrypto.encrypt (C := aes key) c out in
          (st <| crypt := <[r_session r := (key, c')]> (crypt st) |>, events ++ [Datagram addr encrypted])
      | _, _ =>
          (st, events ++ match encode (MUdpTunnel out) with
                         | Some frame => send_control (r_session r) frame st
                         | None => []
                         end)
      end
  end.

Definition route_voice (speaker : Z) (datagram : list Z) (st : VoiceState) : VoiceState * list Event :=
  match parse datagram with
  | None => (st, [])
  | Some packet =>
      foldl (relay speaker packet) (st, []) (resolve (aoi := NoCulling) (sessions st) (channels st) speaker packet)
  end.

Definition decrypt_session (session : Z) (datagram : list Z) (st : VoiceState) : option (list Z) * VoiceState :=
  match crypt st !! session with
  | Some (key, c) =>
      let '(plain, c') := VoiceCrypto.decrypt (C := aes key) c datagram in
      (plain, st <| crypt := <[session := (key, c')]> (crypt st) |>)
  | None => (None, st)
  end.

Definition bind_addr (session : Z) (peer : Addr) (st : VoiceState) : VoiceState :=
  let old := udp_addr st !! session in
  let st := st <| udp_addr := <[session := peer]> (udp_addr st) |> in
  let st := match old with Some a => st <| addr_index := delete a (addr_index st) |> | None => st end in
  st <| addr_index := <[peer := session]> (addr_index st) |>.

Fixpoint try_all (candidates : list Z) (peer : Addr) (datagram : list Z) (st : VoiceState)
    : option (Z * list Z) * VoiceState :=
  match candidates with
  | [] => (None, st)
  | session :: rest =>
      let '(plain, st) := decrypt_session session datagram st in
      match plain with
      | Some plain => (Some (session, plain), bind_addr session peer st)
      | None => try_all rest peer datagram st
      end
  end.

(** [candidates]: the keys of [crypt] in the order the map yields them. *)
Definition decrypt_from (candidates : list Z) (peer : Addr) (datagram : list Z) (st : VoiceState)
    : option (Z * list Z) * VoiceState :=
  match addr_index st !! peer with
  | Some session =>
      let '(plain, st) := decrypt_session session datagram st in ((fun p => (session, p)) <$> plain, st)
  | None => try_all candidates peer datagram st
  end.

Definition ping_probe_reply (ident : list Z) (st : VoiceState) : list Z :=
  to_be_bytes 4 PROTOCOL_VERSION ++ ident ++ to_be_bytes 4 (u32 (Z.of_nat (size (sessions st)))) ++
  to_be_bytes 4 128 ++ to_be_bytes 4 128000.

(** The socket's loop body; the buffer cuts a datagram off. The three critical
    sections of one datagram are halves: [recv_half] identifies and decrypts,
    [answer_half] answers. *)
Definition is_probe (datagram : list Z) : bool :=
  (length datagram =? 12)%nat && bool_decide (take 4 datagram = [0; 0; 0; 0]).

Definition is_ping (plain : list Z) : bool :=
  match plain with
  | b :: _ => match type_from_bits (Z.shiftr b 5) with Some Ping => true | _ => false end
  | [] => false
  end.

Definition answer_half (peer : Addr) (speaker : Z) (plain : list Z) (st : VoiceState) : VoiceState * list Event :=
  if is_ping plain then
    match crypt st !! speaker with
    | Some (key, c) =>
        let '(echo, c') := VoiceCrypto.encrypt (C := aes key) c plain in
        (st <| crypt := <[speaker := (key, c')]> (crypt st) |>, [Datagram peer echo])
    | None => (st, [])
    end
  else route_voice speaker plain st.

Definition recv_datagram (candidates : list Z) (peer : Addr) (datagram : list Z) (st : VoiceState)
    : VoiceState * list Event :=
  let datagram := take MAX_DATAGRAM datagram in
  if is_probe datagram then (st, [Datagram peer (ping_probe_reply (drop 4 datagram) st)])
  else
    let '(identified, st) := decrypt_from candidates peer datagram st in
    match identified with
    | Some (speaker, plain) => answer_half peer speaker plain st
    | None => (st, [])
    end.

(** ** The control channel (server/control.rs) *)

Definition send (conn : ClientConn) (m : Message) : list Event :=
  match encode m with Some f => [Control (out_tx conn) f] | None => [] end.

Definition send_frames (conn : ClientConn) (frames : list (list Z)) : list Event := Control (out_tx conn) <$> frames.

Definition channel_frames (st : VoiceState) : list (list Z) :=
  omap (fun kc : Z * Channel =>
          let ch := kc.2 in
          encode (MChannelState (ch_id ch) (if ch_id ch =? ROOT_CHANNEL then None else Some (parent ch))
                    (ch_name ch) (temporary ch)))
    (entries (channels st)).

Definition member_state (s : Session) (channel : Z) : Message :=
  MUserState (user_state_default <| u_session := Some (s_id s) |> <| u_name := Some (s_name s) |>
                <| u_channel := Some channel |> <| u_mute := Some (mute s) |> <| u_deaf := Some (deaf s) |>
                <| u_self_deaf := Some (self_deaf s) |>).

Definition user_frames (st : VoiceState) : list (list Z) :=
  entries (channels st) ≫= fun kc =>
    omap (fun member => sessions st !! member ≫= fun s => encode (member_state s (ch_id kc.2)))
      (ascending (members kc.2)).

(** The critical section of the login. *)
Definition login (conn : ClientConn) (netid : Z) (username key server_nonce client_nonce : list Z) (st : VoiceState)
    : VoiceState :=
  let st := st <| sessions := session_insert netid username (sessions st) |> in
  let st := st <| channels := (join netid ROOT_CHANNEL (channels st)).2 |> in
  let st := st <| crypt := <[netid := (key, crypt_new server_nonce client_nonce)]> (crypt st) |> in
  st <| control_tx := <[netid := out_tx conn]> (control_tx st) |>.

(** [random]: the key and the two nonces, [None] when the generator fails. *)
Definition handle_authenticate (random : option (list Z * list Z * list Z)) (payload : list Z) (conn : ClientConn)
    (st : VoiceState) : Outcome :=
  match decode_authenticate payload with
  | None => (false, conn, st, [])
  | Some username =>
      let username := default [] username in
      match parse_netid username with
      | None => (false, conn, st, send conn MReject)
      | Some netid =>
          match random with
          | None => (false, conn, st, [])
          | Some (key, server_nonce, client_nonce) =>
              let st := login conn netid username key server_nonce client_nonce st in
              let announce := user_state_default <| u_session := Some netid |> <| u_name := Some username |>
                                <| u_channel := Some ROOT_CHANNEL |> in
              let events :=
                broadcast (MUserState announce) (Some netid) st ++
                send conn (MCryptSetup (Some key) (Some client_nonce) (Some server_nonce)) ++
                send conn (MCodecVersion (-2147483637) 0 true true) ++
                send_frames conn (channel_frames st) ++ send_frames conn (user_frames st) ++
                send conn (MServerSync netid 128000 0x0f07ffff) in
              (true, {| conn_session := Some netid; out_tx := out_tx conn |}, st, events)
          end
      end
  end.

(** The fields of a session a client sets itself, and their echo. *)
Definition update_session (us : UserStateMsg) (s : Session) : Session :=
  let s := match u_self_deaf us with Some v => s <| self_deaf := v |> | None => s end in
  match u_context us with Some c => s <| context := Some c |> | None => s end.

Definition listen_all (netid : Z) (cs : list Z) (b : bool) (st : ChannelStore) : ChannelStore :=
  foldl (fun st c => set_listening netid c b st) st cs.

Definition handle_user_state (us : UserStateMsg) (conn : ClientConn) (st : VoiceState) : VoiceState * list Event :=
  match conn_session conn with
  | None => (st, [])
  | Some netid =>
      let echo := user_state_default <| u_session := Some netid |> in
      let '(st, echo) :=
        match sessions st !! netid with
        | Some s =>
            (st <| sessions := <[netid := update_session us s]> (sessions st) |>,
             echo <| u_self_mute := u_self_mute us |> <| u_self_deaf := u_self_deaf us |>)
        | None => (st, echo)
        end in
      let '(st, echo, announce) :=
        match u_channel us with
        | None => (st, echo, None)
        | Some c =>
            let known := channel_exists c (channels st) in
            let created := if known then channels st else create_game_channel c (channels st) in
            let announce :=
              if known then None
              else created !! c ≫= fun ch => encode (MChannelState (ch_id ch) (Some (parent ch)) (ch_name ch) false) in
            (st <| channels := (join netid c created).2 |>, echo <| u_channel := Some c |>, announce)
        end in
      let st := st <| channels := listen_all netid (u_listen_add us) true (channels st) |> in
      let st := st <| channels := listen_all netid (u_listen_remove us) false (channels st) |> in
      (st, match announce with Some f => broadcast_control f None st | None => [] end ++
           broadcast (MUserState echo) None st)
  end.

Definition target_of (ts : list TargetMsg) : Target :=
  {| t_sessions := ts ≫= tm_session;
     t_channels := omap (fun t => (fun c => {| channel_id := c; links := default false (tm_links t);
                                               children := default false (tm_children t) |}) <$> tm_channel t) ts |}.

Definition handle_voice_target (id : option Z) (ts : list TargetMsg) (conn : ClientConn) (st : VoiceState) : VoiceState :=
  match conn_session conn, id with
  | Some netid, Some id =>
      if id <? 256 then
        match sessions st !! netid with
        | Some s =>
            let r := match ts with [] => target_clear id (targets s) | _ => target_set id (target_of ts) (targets s) end in
            st <| sessions := <[netid := s <| targets := r |>]> (sessions st) |>
        | None => st
        end
      else st
  | _, _ => st
  end.

Definition handle_crypt_setup (payload : list Z) (conn : ClientConn) (st : VoiceState) : VoiceState * list Event :=
  match conn_session conn with
  | None => (st, [])
  | Some netid =>
      match decode_crypt_setup payload with
      | None => (st, [])
      | Some nonce =>
          let resync := match nonce with Some n => if (length n =? 16)%nat then Some n else None | None => None end in
          match resync, crypt st !! netid with
          | Some n, Some (key, c) =>
              (st <| crypt := <[netid := (key, {| encrypt_iv := encrypt_iv c; decrypt_iv := n;
                                                  decrypt_history := decrypt_history c;
                                                  good := good c; late := late c; lost := lost c |})]> (crypt st) |>, [])
          | None, Some (key, c) => (st, send conn (MCryptSetup None None (Some (encrypt_iv c))))
          | _, None => (st, [])
          end
      end
  end.

Definition handle_ping (payload : list Z) (conn : ClientConn) (st : VoiceState) : list Event :=
  match decode_ping payload with
  | None => []
  | Some timestamp =>
      match conn_session conn ≫= fun s => crypt st !! s with
      | Some (_, c) => send conn (MPing timestamp (good c) (late c) (lost c) 0)
      | None => send conn (MPing timestamp 0 0 0 0)
      end
  end.

Definition handle_message (random : option (list Z * list Z * list Z)) (t : MessageType) (payload : list Z)
    (conn : ClientConn) (st : VoiceState) : Outcome :=
  let stay (r : VoiceState * list Event) : Outcome := (true, conn, r.1, r.2) in
  match t with
  | Version => (true, conn, st, send conn (MVersion PROTOCOL_VERSION))
  | Authenticate => handle_authenticate random payload conn st
  | PingMsg => (true, conn, st, handle_ping payload conn st)
  | UserState =>
      match decode_user_state payload with
      | Some us => stay (handle_user_state us conn st)
      | None => (true, conn, st, [])
      end
  | VoiceTarget =>
      match decode_voice_target payload with
      | Some (id, ts) => (true, conn, handle_voice_target id ts conn st, [])
      | None => (true, conn, st, [])
      end
  | UdpTunnel =>
      match conn_session conn, decode_udp_tunnel payload with
      | Some speaker, Some packet => stay (route_voice speaker packet st)
      | _, _ => (true, conn, st, [])
      end
  | CryptSetup => stay (handle_crypt_setup payload conn st)
  | PermissionQuery =>
      match decode_permission_query payload with
      | Some c => (true, conn, st, send conn (MPermissionQuery c 0x0f07ffff))
      | None => (true, conn, st, [])
      end
  | _ => (true, conn, st, [])
  end.

(** One turn of the read loop over what has arrived: wait for more, close, skip
    the frame of an unknown tag, or a message and what is behind it. *)
Inductive Frame := Wait | Close | Skip (rest : list Z) | Got (t : MessageType) (payload rest : list Z).

Definition read_frame (buf : list Z) : Frame :=
  if Z.of_nat (length buf) <? PREAMBLE_SIZE then Wait
  else match preamble_parse (take (Z.to_nat PREAMBLE_SIZE) buf) with
       | None => Close
       | Some pre =>
           if MAX_MSGSIZE <? len pre then Close
           else
             let body := drop (Z.to_nat PREAMBLE_SIZE) buf in
             if Z.of_nat (length body) <? len pre then Wait
             else
               let payload := take (Z.to_nat (len pre)) body in
               let rest := drop (Z.to_nat (len pre)) body in
               match from_u16 (ty pre) with
               | None => Skip rest
               | Some t => Got t payload rest
               end
       end.

(** The read loop over what has arrived: the messages handled, and what is left
    in the buffer. [n] turns; a turn consumes a preamble, so as many as there
    are bytes are enough. *)
Fixpoint read_frames (n : nat) (buf : list Z) : list (MessageType * list Z) * list Z :=
  match n with
  | O => ([], buf)
  | S n' =>
      match read_frame buf with
      | Wait | Close => ([], buf)
      | Skip rest => read_frames n' rest
      | Got t payload rest => let '(ms, buf') := read_frames n' rest in ((t, payload) :: ms, buf')
      end
  end.

(** The end of [run_client]. *)
Definition disconnect (conn : ClientConn) (st : VoiceState) : VoiceState * list Event :=
  match conn_session conn with Some netid => teardown netid st | None => (st, []) end.
End server.

(** ** The invariant *)

Definition crypt_ok (c : CryptState) : Prop :=
  block_ok (encrypt_iv c) /\ block_ok (decrypt_iv c) /\ length (decrypt_history c) = 256%nat.

Lemma encrypt_ok (C : BlockCipher) c m : crypt_ok c -> crypt_ok (VoiceCrypto.encrypt c m).2.
Proof.
  intros (He & Hd & Hl). unfold VoiceCrypto.encrypt. destruct (ocb_encrypt _ _).
  split; [|done]. cbn. rewrite increment_nonce by done. apply nonce_ok.
Qed.

Lemma decrypt_ok (C : BlockCipher) c p : crypt_ok c -> bytes_ok p -> crypt_ok (VoiceCrypto.decrypt c p).2.
Proof.
  intros (He & Hd & Hl) Hp. destruct (decrypt_cases c p) as [->|(a & plain & Ha & ->)]; [done|].
  assert (Hu : is_u 8 (hd 0 p)) by (destruct Hp; [by apply is_u_0|done]).
  rewrite advance_spec in Ha by done. destruct (step_to c (hd 0 p)); [|done]. cbv zeta in Ha.
  destruct (_ && _); [done|]. injection Ha as <-. split; [done|]. cbn. rewrite length_insert. split; [|done].
  case_match; [done|apply nonce_ok].
Qed.

Record voice_ok (st : VoiceState) : Prop := {
  vo_channels : store_ok (channels st);
  vo_permanent k ch : channels st !! k = Some ch -> temporary ch = false;
  vo_crypt s : is_Some (crypt st !! s) <-> is_Some (sessions st !! s);
  vo_tx s : is_Some (control_tx st !! s) <-> is_Some (sessions st !! s);
  vo_addr s a : udp_addr st !! s = Some a <-> addr_index st !! a = Some s;
  vo_bound s : is_Some (udp_addr st !! s) -> is_Some (sessions st !! s);
  vo_nonces s key c : crypt st !! s = Some (key, c) -> crypt_ok c
}.

Lemma state_new_ok : voice_ok state_new.
Proof.
  split; cbn [sessions channels control_tx crypt udp_addr addr_index state_new].
  - apply store_new_ok.
  - unfold store_new. by intros k ch [_ <-]%lookup_singleton_Some.
  - intros s. rewrite !lookup_empty. by split; intros [? [=]].
  - intros s. rewrite !lookup_empty. by split; intros [? [=]].
  - intros s a. rewrite !lookup_empty. by split.
  - intros s. rewrite !lookup_empty. by intros [? [=]].
  - intros s key c. by rewrite lookup_empty.
Qed.

Section invariant.
Context {A : Aes} {P : Protobuf} {PL : ProtobufLaws P}.

(** Changes of one part of the state. *)
Lemma sessions_ok f st : voice_ok st ->
  (forall s, is_Some (f !! s) <-> is_Some (sessions st !! s)) -> voice_ok (st <| sessions := f |>).
Proof.
  intros [H1 H2 H3 H4 H5 H6 H7] Hf. split; cbn; try done; intros s; rewrite Hf; [apply H3|apply H4|apply H6].
Qed.

Lemma session_update_ok netid s s' st : voice_ok st -> sessions st !! netid = Some s ->
  voice_ok (st <| sessions := <[netid := s']> (sessions st) |>).
Proof.
  intros H Hs. apply sessions_ok; [done|]. intros k. destruct (decide (k = netid)) as [->|].
  - rewrite lookup_insert_eq, Hs. done.
  - by rewrite lookup_insert_ne.
Qed.

Lemma channels_ok f st : voice_ok st -> store_ok f -> (forall k ch, f !! k = Some ch -> temporary ch = false) ->
  voice_ok (st <| channels := f |>).
Proof. by intros [H1 H2 H3 H4 H5 H6 H7] Hf Ht. Qed.

Lemma crypt_update_ok s key key' c c' st : voice_ok st -> crypt st !! s = Some (key, c) -> crypt_ok c' ->
  voice_ok (st <| crypt := <[s := (key', c')]> (crypt st) |>).
Proof.
  intros [H1 H2 H3 H4 H5 H6 H7] Hc Hok. split; cbn; try done.
  - intros k. destruct (decide (k = s)) as [->|]; [|by rewrite lookup_insert_ne].
    rewrite lookup_insert_eq. split; [|done]. intros _. apply H3. by rewrite Hc.
  - intros k key0 c0 [[<- [= <- <-]]|[_ H]]%lookup_insert_Some; [done|by eapply H7].
Qed.

Lemma proximity_ok f st : voice_ok st -> voice_ok (st <| proximity_overrides := f |>).
Proof. by intros [H1 H2 H3 H4 H5 H6 H7]. Qed.

Definition permanent (st : ChannelStore) : Prop := forall k ch, st !! k = Some ch -> temporary ch = false.

Lemma join_permanent session c st : store_ok st -> permanent st -> is_Some (st !! c) ->
  store_ok (join session c st).2 /\ permanent (join session c st).2.
Proof.
  intros Hok Hp [c0 Hc]. pose proof (join_spec session c st Hok) as H. destruct (join session c st) as [prev st'].
  destruct H as (_ & Hok' & _ & _ & Ht). split; [done|]. intros k ch Hk. cbn [snd] in Hk.
  destruct (Ht k ch Hk) as [(ch0 & H0 & ->)|[-> [H0|(ch0 & H0 & Ht0)]]]; [by apply (Hp k)|congruence|].
  by rewrite (Hp _ _ H0) in Ht0.
Qed.

Lemma drop_permanent session st : store_ok st -> permanent st ->
  store_ok (drop_session session st) /\ permanent (drop_session session st).
Proof.
  intros Hok Hp. unfold drop_session. pose proof (leave_spec session st Hok) as H.
  destruct (leave session st) as [prev st1]. destruct H as (_ & Hok1 & _ & _ & Ht1).
  destruct (same_members_ok _ _ (forget_listener_same session st1) Hok1) as (Hok2 & _ & Ht2). split; [done|].
  intros k ch Hk. destruct (Ht2 k ch Hk) as (c1 & H1 & ->). destruct (Ht1 k c1 H1) as (c0 & H0 & ->). by apply (Hp k).
Qed.

Lemma create_permanent c st : store_ok st -> permanent st ->
  store_ok (create_game_channel c st) /\ permanent (create_game_channel c st) /\
  is_Some (create_game_channel c st !! c).
Proof.
  intros Hok Hp. destruct (create_ok c st Hok) as (Hok' & _ & Hs & Ht & _). split; [done|]. split; [|done].
  intros k ch Hk. destruct (Ht k ch Hk) as [H|H]; [by apply (Hp k)|done].
Qed.

Lemma listen_permanent session cs b st : store_ok st -> permanent st ->
  store_ok (listen_all session cs b st) /\ permanent (listen_all session cs b st).
Proof.
  unfold listen_all. revert st. induction cs as [|c cs IH]; intros st Hok Hp; [done|]. cbn [foldl].
  destruct (same_members_ok _ _ (set_listening_same session c b st) Hok) as (Hok' & _ & Ht). apply IH; [done|].
  intros k ch Hk. destruct (Ht k ch Hk) as (c0 & H0 & ->). by apply (Hp k).
Qed.

Lemma listen_members session cs b st : store_ok st ->
  store_ok (listen_all session cs b st) /\
  forall s k, is_member (listen_all session cs b st) s k <-> is_member st s k.
Proof.
  unfold listen_all. revert st. induction cs as [|c cs IH]; intros st Hok; [done|]. cbn [foldl].
  destruct (same_members_ok _ _ (set_listening_same session c b st) Hok) as (Hok' & Hm & _).
  destruct (IH _ Hok') as [H1 H2]. split; [done|]. intros s k. by rewrite H2, Hm.
Qed.

Lemma is_some_delete {X Y} (m : gmap Z X) (m' : gmap Z Y) k s :
  (is_Some (m !! s) <-> is_Some (m' !! s)) -> is_Some (delete k m !! s) <-> is_Some (delete k m' !! s).
Proof.
  intros H. destruct (decide (s = k)) as [->|]; [by rewrite !lookup_delete_eq|]. by rewrite !lookup_delete_ne.
Qed.

Lemma is_some_insert {X Y} (m : gmap Z X) (m' : gmap Z Y) k x y s :
  (is_Some (m !! s) <-> is_Some (m' !! s)) -> is_Some (<[k := x]> m !! s) <-> is_Some (<[k := y]> m' !! s).
Proof.
  intros H. destruct (decide (s = k)) as [->|]; [by rewrite !lookup_insert_eq|]. by rewrite !lookup_insert_ne.
Qed.

Lemma teardown_ok netid st : voice_ok st -> voice_ok (teardown netid st).1.
Proof.
  intros Hok. unfold teardown. destruct (sessions st !! netid) as [s|] eqn:Es; [|done]. cbn [fst].
  destruct Hok as [H1 H2 H3 H4 H5 H6 H7]. destruct (drop_permanent netid _ H1 H2) as [H1' H2'].
  assert (Hna : forall (a : Addr) k, udp_addr st !! k = Some a -> k <> netid ->
    forall old, udp_addr st !! netid = Some old -> old <> a).
  { intros a k Hk Hne old Ho ->. apply H5 in Hk, Ho. congruence. }
  assert (Hc : forall k, is_Some (delete netid (crypt st) !! k) <-> is_Some (delete netid (sessions st) !! k))
    by (intros k; apply is_some_delete, H3).
  assert (Ht : forall k, is_Some (delete netid (control_tx st) !! k) <-> is_Some (delete netid (sessions st) !! k))
    by (intros k; apply is_some_delete, H4).
  assert (Hn : forall k key c, delete netid (crypt st) !! k = Some (key, c) -> crypt_ok c)
    by (intros k key c [_ H]%lookup_delete_Some; by eapply H7).
  match goal with |- context [udp_addr ?s0 !! netid] => change (udp_addr s0) with (udp_addr st) end.
  destruct (udp_addr st !! netid) as [old|] eqn:Eu.
  - split; [exact H1'|exact H2'|exact Hc|exact Ht| | |exact Hn].
    + intros k a. change (delete netid (udp_addr st) !! k = Some a <-> delete old (addr_index st) !! a = Some k).
      destruct (decide (k = netid)) as [->|Hne].
      * rewrite lookup_delete_eq. split; [done|]. intros [Ha Hi]%lookup_delete_Some. apply H5 in Hi. congruence.
      * rewrite lookup_delete_ne by done. destruct (decide (a = old)) as [->|Hao].
        -- rewrite lookup_delete_eq. split; [|done]. intros Hk. by destruct (Hna old k Hk Hne old).
        -- rewrite lookup_delete_ne by done. apply H5.
    + intros k. change (is_Some (delete netid (udp_addr st) !! k) -> is_Some (delete netid (sessions st) !! k)).
      destruct (decide (k = netid)) as [->|]; [by rewrite lookup_delete_eq; intros [? [=]]|].
      rewrite !lookup_delete_ne by done. apply H6.
  - split; [exact H1'|exact H2'|exact Hc|exact Ht|exact H5| |exact Hn]. intros k Hk.
    change (is_Some (delete netid (sessions st) !! k)). change (is_Some (udp_addr st !! k)) in Hk.
    destruct (decide (k = netid)) as [->|]; [by rewrite Eu in Hk; destruct Hk|].
    rewrite lookup_delete_ne by done. by apply H6.
Qed.

Lemma relay_ok speaker packet acc r : voice_ok acc.1 -> voice_ok (relay speaker packet acc r).1.
Proof.
  destruct acc as [st events]. intros H. unfold relay. destruct (encode_outbound _ _ _) as [out|]; [|done].
  destruct (udp_addr st !! r_session r); [|done]. destruct (crypt st !! r_session r) as [[key c]|] eqn:Ec; [|done].
  pose proof (encrypt_ok (aes key) c out (vo_nonces _ H _ _ _ Ec)) as He.
  destruct (VoiceCrypto.encrypt c out) as [e c']. by apply (crypt_update_ok _ key key c c').
Qed.

Lemma relay_all_ok speaker packet rs : forall acc, voice_ok acc.1 -> voice_ok (foldl (relay speaker packet) acc rs).1.
Proof. induction rs as [|r rs IH]; intros acc H; [done|]. apply IH. by apply relay_ok. Qed.

Lemma route_voice_ok speaker datagram st : voice_ok st -> voice_ok (route_voice speaker datagram st).1.
Proof. intros H. unfold route_voice. destruct (parse datagram); [by apply relay_all_ok|done]. Qed.

(** What a decryption under one session touches. *)
Lemma decrypt_session_frame s datagram st :
  let '(_, st') := decrypt_session s datagram st in
  sessions st' = sessions st /\ udp_addr st' = udp_addr st /\ addr_index st' = addr_index st.
Proof.
  unfold decrypt_session. destruct (crypt st !! s) as [[key c]|]; [|done].
  by destruct (VoiceCrypto.decrypt c datagram).
Qed.

Lemma decrypt_session_ok s datagram st : voice_ok st -> bytes_ok datagram -> voice_ok (decrypt_session s datagram st).2.
Proof.
  intros H Hd. unfold decrypt_session. destruct (crypt st !! s) as [[key c]|] eqn:Ec; [|done].
  pose proof (decrypt_ok (aes key) c datagram (vo_nonces _ H _ _ _ Ec) Hd) as Ho.
  destruct (VoiceCrypto.decrypt c datagram) as [p c']. by apply (crypt_update_ok _ key key c c').
Qed.

Lemma decrypt_session_some s datagram st p : (decrypt_session s datagram st).1 = Some p -> is_Some (crypt st !! s).
Proof. unfold decrypt_session. by destruct (crypt st !! s) as [[key c]|]. Qed.

Lemma bind_addr_ok s peer st : voice_ok st -> is_Some (sessions st !! s) -> addr_index st !! peer = None ->
  voice_ok (bind_addr s peer st).
Proof.
  intros [H1 H2 H3 H4 H5 H6 H7] Hs Hp. unfold bind_addr.
  assert (Hb : forall k, is_Some (<[s := peer]> (udp_addr st) !! k) -> is_Some (sessions st !! k)).
  { intros k. destruct (decide (k = s)) as [->|]; [done|]. rewrite lookup_insert_ne by done. apply H6. }
  destruct (udp_addr st !! s) as [old|] eqn:Eo; split; cbn; try done; intros k a.
  - destruct (decide (k = s)) as [->|Hk].
    + rewrite lookup_insert_eq. destruct (decide (a = peer)) as [->|Ha]; [by rewrite lookup_insert_eq|].
      rewrite lookup_insert_ne by done. split; [congruence|]. intros [Hao Hi]%lookup_delete_Some. apply H5 in Hi. congruence.
    + rewrite lookup_insert_ne by done. destruct (decide (a = peer)) as [->|Ha].
      * rewrite lookup_insert_eq. split; [|congruence]. rewrite H5. congruence.
      * rewrite lookup_insert_ne by done. rewrite H5, lookup_delete_Some. split; [|by intros [_ ?]].
        intros Hi. split; [|done]. intros ->. apply H5 in Eo. congruence.
  - destruct (decide (k = s)) as [->|Hk].
    + rewrite lookup_insert_eq. destruct (decide (a = peer)) as [->|Ha]; [by rewrite lookup_insert_eq|].
      rewrite lookup_insert_ne by done. split; [congruence|]. intros Hi. apply H5 in Hi. congruence.
    + rewrite lookup_insert_ne by done. destruct (decide (a = peer)) as [->|Ha].
      * rewrite lookup_insert_eq. split; [|congruence]. rewrite H5. congruence.
      * rewrite lookup_insert_ne by done. apply H5.
Qed.

Lemma try_all_ok candidates peer datagram : forall st, voice_ok st -> bytes_ok datagram -> addr_index st !! peer = None ->
  voice_ok (try_all candidates peer datagram st).2.
Proof.
  induction candidates as [|s rest IH]; intros st H Hd Hp; [done|]. cbn [try_all].
  pose proof (decrypt_session_ok s datagram st H Hd) as Ho. pose proof (decrypt_session_frame s datagram st) as Hf.
  pose proof (decrypt_session_some s datagram st) as Hs.
  destruct (decrypt_session s datagram st) as [[p|] st1]; destruct Hf as (F1 & F2 & F3); cbn [snd] in *.
  - apply bind_addr_ok; [done| |by rewrite F3]. rewrite F1. apply (vo_crypt _ H). by apply (Hs p).
  - apply IH; [done..|]. by rewrite F3.
Qed.

Lemma decrypt_from_ok candidates peer datagram st : voice_ok st -> bytes_ok datagram ->
  voice_ok (decrypt_from candidates peer datagram st).2.
Proof.
  intros H Hd. unfold decrypt_from. destruct (addr_index st !! peer) as [s|] eqn:E; [|by apply try_all_ok].
  pose proof (decrypt_session_ok s datagram st H Hd) as Ho. by destruct (decrypt_session s datagram st).
Qed.

Lemma answer_ok peer speaker plain st : voice_ok st -> voice_ok (answer_half peer speaker plain st).1.
Proof.
  intros H. unfold answer_half. destruct (is_ping plain); [|by apply route_voice_ok].
  destruct (crypt st !! speaker) as [[key c]|] eqn:Ec; [|done].
  pose proof (encrypt_ok (aes key) c plain (vo_nonces _ H _ _ _ Ec)) as He.
  destruct (VoiceCrypto.encrypt c plain) as [e c']. by apply (crypt_update_ok _ key key c c').
Qed.

Lemma login_ok conn netid name key sn cn st : voice_ok st -> block_ok sn -> block_ok cn ->
  voice_ok (login conn netid name key sn cn st).
Proof.
  intros [H1 H2 H3 H4 H5 H6 H7] Hsn Hcn. unfold login, session_insert.
  set (ss := match sessions st !! netid with Some _ => sessions st | None => <[netid := session_new netid name]> (sessions st) end).
  assert (Hs : forall k, is_Some (ss !! k) <-> k = netid \/ is_Some (sessions st !! k)).
  { intros k. unfold ss. destruct (sessions st !! netid) eqn:E.
    - split; [by right|]. intros [->|]; [by rewrite E|done].
    - destruct (decide (k = netid)) as [->|]; [rewrite lookup_insert_eq; split; [by left|done]|].
      rewrite lookup_insert_ne by done. split; [by right|]. by intros [|]. }
  assert (Hi : forall X (m : gmap Z X) x k, (forall k, is_Some (m !! k) <-> is_Some (sessions st !! k)) ->
    is_Some (<[netid := x]> m !! k) <-> is_Some (ss !! k)).
  { intros X m x k Hm. rewrite Hs. destruct (decide (k = netid)) as [->|].
    - rewrite lookup_insert_eq. split; [by left|done].
    - rewrite lookup_insert_ne, Hm by done. split; [by right|]. by intros [|]. }
  destruct (join_permanent netid ROOT_CHANNEL _ H1 H2 (so_root _ H1)) as [J1 J2].
  split; [exact J1|exact J2| | |exact H5| |].
  - intros k. exact (Hi _ (crypt st) _ k H3).
  - intros k. exact (Hi _ (control_tx st) _ k H4).
  - intros k Hk. apply Hs. right. by apply H6.
  - intros k key0 c. change (<[netid := (key, crypt_new sn cn)]> (crypt st) !! k = Some (key0, c) -> crypt_ok c).
    intros [[<- [= <- <-]]|[_ H]]%lookup_insert_Some; [|by eapply H7].
    split; [done|]. split; [done|]. apply length_replicate.
Qed.

Definition random_ok (random : option (list Z * list Z * list Z)) : Prop :=
  match random with Some (_, sn, cn) => block_ok sn /\ block_ok cn | None => True end.

Lemma authenticate_ok random payload conn st : voice_ok st -> random_ok random ->
  voice_ok (handle_authenticate random payload conn st).1.2.
Proof.
  intros H Hr. unfold handle_authenticate. destruct (decode_authenticate payload) as [name|]; [|done].
  destruct (parse_netid _) as [netid|]; [|done]. destruct random as [[[key sn] cn]|]; [|done].
  destruct Hr as [Hsn Hcn]. cbn [fst snd]. by apply login_ok.
Qed.

Lemma user_state_ok us conn st : voice_ok st -> voice_ok (handle_user_state us conn st).1.
Proof.
  intros H. unfold handle_user_state. destruct (conn_session conn) as [netid|]; [|done].
  assert (Hl : forall cs b st1, voice_ok st1 -> voice_ok (st1 <| channels := listen_all netid cs b (channels st1) |>)).
  { intros cs b st1 H1. destruct (listen_permanent netid cs b _ (vo_channels _ H1) (vo_permanent _ H1)).
    by apply channels_ok. }
  assert (Hj : forall st1 c, voice_ok st1 -> voice_ok (st1 <| channels := (join netid c
    (if channel_exists c (channels st1) then channels st1 else create_game_channel c (channels st1))).2 |>)).
  { intros st1 c H1. destruct (create_permanent c _ (vo_channels _ H1) (vo_permanent _ H1)) as (C1 & C2 & C3).
    assert (Hc : (if channel_exists c (channels st1) then channels st1 else create_game_channel c (channels st1))
      = create_game_channel c (channels st1)).
    { unfold channel_exists, create_game_channel. by destruct (channels st1 !! c). }
    rewrite Hc. destruct (join_permanent netid c _ C1 C2 C3). by apply channels_ok. }
  destruct (sessions st !! netid) as [s|] eqn:Es; destruct (u_channel us) as [c|]; cbn [fst];
    apply Hl, Hl; try apply Hj; try done; by apply (session_update_ok _ s).
Qed.

Lemma voice_target_ok id ts conn st : voice_ok st -> voice_ok (handle_voice_target id ts conn st).
Proof.
  intros H. unfold handle_voice_target. destruct (conn_session conn) as [netid|], id as [id|]; try done.
  destruct (id <? 256); [|done]. destruct (sessions st !! netid) as [s|] eqn:Es; [|done]. by apply (session_update_ok _ s).
Qed.

Lemma crypt_setup_ok payload conn st : voice_ok st -> voice_ok (handle_crypt_setup payload conn st).1.
Proof.
  intros H. unfold handle_crypt_setup. destruct (conn_session conn) as [netid|]; [|done].
  destruct (decode_crypt_setup payload) as [[n|]|] eqn:Ed; [|by destruct (crypt st !! netid) as [[]|]|done].
  destruct (Nat.eqb_spec (length n) 16) as [El|]; destruct (crypt st !! netid) as [[key c]|] eqn:Ec; try done.
  apply (crypt_update_ok _ key key c); [done..|]. destruct (vo_nonces _ H _ _ _ Ec) as (He & Hd & Hh).
  split; [done|]. split; [|done]. split; [|done]. by apply (decoded_nonce_ok payload).
Qed.

Lemma handle_message_ok random t payload conn st : voice_ok st -> random_ok random ->
  voice_ok (handle_message random t payload conn st).1.2.
Proof.
  intros H Hr. destruct t; cbn [handle_message fst snd]; try done.
  - destruct (conn_session conn) as [speaker|]; [|done]. destruct (decode_udp_tunnel payload); [|done].
    by apply route_voice_ok.
  - by apply authenticate_ok.
  - destruct (decode_user_state payload); [|done]. by apply user_state_ok.
  - by apply crypt_setup_ok.
  - destruct (decode_voice_target payload) as [[]|]; [|done]. by apply voice_target_ok.
  - by destruct (decode_permission_query payload).
Qed.

Lemma muted_ok netid b st : voice_ok st -> voice_ok (set_player_muted netid b st).1.
Proof.
  intros H. unfold set_player_muted. destruct (sessions st !! netid) as [s|] eqn:Es; [|done].
  by apply (session_update_ok _ s).
Qed.

Lemma create_channel_ok id st : voice_ok st -> voice_ok (create_channel id st).1.
Proof.
  intros H. unfold create_channel. destruct (channel_exists id (channels st)); [done|].
  destruct (create_permanent id _ (vo_channels _ H) (vo_permanent _ H)) as (? & ? & _). by apply channels_ok.
Qed.

(** Whatever takes the lock, in any order: messages of any connection, both
    halves of any datagram, disconnections, and the calls of the game server. *)
Inductive voice_step : VoiceState -> VoiceState -> Prop :=
| step_message random t payload conn st :
    random_ok random -> voice_step st (handle_message random t payload conn st).1.2
| step_disconnect conn st : voice_step st (disconnect conn st).1
| step_identify candidates peer datagram st :
    bytes_ok datagram -> voice_step st (decrypt_from candidates peer datagram st).2
| step_answer peer speaker plain st : voice_step st (answer_half peer speaker plain st).1
| step_dropped netid st : voice_step st (on_player_dropped netid st).1
| step_create id st : voice_step st (create_channel id st).1
| step_muted netid b st : voice_step st (set_player_muted netid b st).1
| step_override netid p st : voice_step st (set_proximity_override netid p st).

Lemma voice_step_ok st st' : voice_step st st' -> voice_ok st -> voice_ok st'.
Proof.
  intros [random t payload conn st0 Hr|conn st0|candidates peer datagram st0 Hd|peer speaker plain st0|netid st0|id st0
         |netid b st0|netid p st0] Hok;
    auto using handle_message_ok, decrypt_from_ok, answer_ok, create_channel_ok, muted_ok, teardown_ok.
  - unfold disconnect. destruct (conn_session conn); [by apply teardown_ok|done].
  - destruct p; by apply proximity_ok.
Qed.

(** in every state the server gets into, nobody is in two channels, every
    channel is permanent, whoever is logged in has exactly one key state and
    one control queue and nobody else has, and the two address tables are
    each other's inverse: an address speaks for at most one player, and a
    player has at most one address. *)
Theorem voice_state_invariant st :
  rtc voice_step state_new st ->
  (forall s k k', is_member (channels st) s k -> is_member (channels st) s k' -> k = k') /\
  is_Some (channels st !! ROOT_CHANNEL) /\
  (forall k ch, channels st !! k = Some ch -> ch_id ch = k /\ temporary ch = false) /\
  (forall s, (is_Some (crypt st !! s) <-> is_Some (sessions st !! s)) /\
             (is_Some (control_tx st !! s) <-> is_Some (sessions st !! s))) /\
  (forall s a, udp_addr st !! s = Some a <-> addr_index st !! a = Some s) /\
  (forall s, is_Some (udp_addr st !! s) -> is_Some (sessions st !! s)).
Proof.
  intros H. destruct (rtc_invariant _ voice_ok _ _ voice_step_ok H state_new_ok) as [H1 H2 H3 H4 H5 H6 _].
  split; [intros s k k'; apply H1|]. split; [apply H1|].
  split; [intros k ch Hk; split; [exact (so_id _ H1 _ _ Hk)|by apply (H2 k)]|]. auto.
Qed.
End invariant.

(** ** The control stream *)

Lemma read_encoded t payload f more :
  encode_frame t payload = Some f -> read_frame (f ++ more) = Got t payload more.
Proof.
  unfold encode_frame. destruct (Z.ltb_spec MAX_MSGSIZE (Z.of_nat (length payload))) as [|Hl]; [done|]. intros H. apply (inj Some) in H. subst f.
  unfold read_frame. unfold MAX_MSGSIZE, PREAMBLE_SIZE in *. change (Z.to_nat 6) with 6%nat.
  set (a := to_be_bytes 2 (tag t)). set (b := to_be_bytes 4 (u32 (Z.of_nat (length payload)))).
  assert (La : length a = 2%nat) by apply length_to_be_bytes. assert (Lb : length b = 4%nat) by apply length_to_be_bytes.
  assert (E : (a ++ b ++ payload) ++ more = (a ++ b) ++ payload ++ more) by by rewrite <- !app_assoc.
  rewrite E, (take_app_eq (a ++ b)), (drop_app_eq (a ++ b)) by (rewrite length_app; lia).
  assert (Ef : (Z.of_nat (length ((a ++ b) ++ payload ++ more)) <? 6) = false)
    by (rewrite !length_app, La, Lb; apply Z.ltb_ge; lia).
  rewrite Ef. unfold preamble_parse, PREAMBLE_SIZE.
  assert (Eg : (Z.of_nat (length (a ++ b)) <? 6) = false) by (rewrite length_app, La, Lb; done). rewrite Eg. cbn [len ty].
  rewrite (take_app_eq a), (drop_app_eq a), (firstn_all2 (n := 4) b) by lia. unfold a, b. rewrite !from_to_be_bytes.
  2: { apply tag_u16. }
  2: { apply (is_u_mod 32). lia. }
  unfold u32. rewrite Z.mod_small by lia. unfold MAX_MSGSIZE, PREAMBLE_SIZE.
  destruct (Z.ltb_spec (8192 - 6) (Z.of_nat (length payload))); [lia|]. rewrite length_app, Nat2Z.id.
  destruct (Z.ltb_spec (Z.of_nat (length payload + length more)) (Z.of_nat (length payload))); [lia|].
  rewrite (take_app_eq payload), (drop_app_eq payload) by done. by destruct t.
Qed.

(** however the frames of a client's messages arrive glued together, the read
    loop handles exactly those messages, in order, and leaves the beginning
    of the next frame in the buffer. *)
Theorem control_stream msgs frames rest :
  Forall2 (fun m f => encode_frame m.1 m.2 = Some f) msgs frames -> Z.of_nat (length rest) < PREAMBLE_SIZE ->
  read_frames (S (length msgs)) (concat frames ++ rest) = (msgs, rest).
Proof.
  intros H Hr. induction H as [|[t payload] f msgs frames Hf H IH].
  - cbn [concat app length read_frames]. unfold read_frame. by destruct (Z.ltb_spec (Z.of_nat (length rest)) PREAMBLE_SIZE); [|lia].
  - cbn [concat length]. rewrite <- app_assoc. remember (S (length msgs)) as n eqn:En. cbn [read_frames].
    rewrite (read_encoded t payload f) by done. by rewrite IH.
Qed.

Lemma control_stream_witness :
  read_frames 3 ([0; 3; 0; 0; 0; 2; 8; 9] ++ [0; 0; 0; 0; 0; 0] ++ [0; 19]) = ([(PingMsg, [8; 9]); (Version, [])], [0; 19]).
Proof.
  exact (control_stream [(PingMsg, [8; 9]); (Version, [])] [[0; 3; 0; 0; 0; 2; 8; 9]; [0; 0; 0; 0; 0; 0]] [0; 19]
    ltac:(repeat constructor) ltac:(reflexivity)).
Defined.

(** ** Demultiplexing *)

Section demux.
Context {A : Aes} {P : Protobuf}.

Lemma refused_unchanged s datagram st :
  (decrypt_session s datagram st).1 = None -> (decrypt_session s datagram st).2 = st.
Proof.
  unfold decrypt_session. destruct (crypt st !! s) as [[key c]|] eqn:Ec; [|done].
  destruct (@decrypt_cases (aes key) c datagram) as [->|(a & p & _ & ->)]; [|done]. intros _. cbn [snd].
  rewrite insert_id by done. by destruct st.
Qed.

(** What an accepted datagram leaves: only the sender's key state has moved. *)
Definition only_moves (s : Z) (st st' : VoiceState) : Prop :=
  sessions st' = sessions st /\ channels st' = channels st /\ control_tx st' = control_tx st /\
  forall s', s' <> s -> crypt st' !! s' = crypt st !! s'.

Lemma decrypt_session_moves s datagram st : only_moves s st (decrypt_session s datagram st).2.
Proof.
  unfold decrypt_session. destruct (crypt st !! s) as [[key c]|]; [|done].
  destruct (VoiceCrypto.decrypt c datagram) as [p c']. split; [done|]. split; [done|]. split; [done|].
  intros s' Hs. by apply lookup_insert_ne.
Qed.

Lemma bind_addr_spec s peer st :
  only_moves s st (bind_addr s peer st) /\ udp_addr (bind_addr s peer st) !! s = Some peer /\
  addr_index (bind_addr s peer st) !! peer = Some s.
Proof. unfold bind_addr. destruct (udp_addr st !! s); (split; [done|]); split; apply lookup_insert_eq. Qed.

Lemma try_all_spec candidates peer datagram : forall st,
  match try_all candidates peer datagram st with
  | (None, st') => st' = st /\ forall s, s ∈ candidates -> (decrypt_session s datagram st).1 = None
  | (Some (s, p), st') =>
      s ∈ candidates /\ (decrypt_session s datagram st).1 = Some p /\ only_moves s st st' /\
      udp_addr st' !! s = Some peer /\ addr_index st' !! peer = Some s
  end.
Proof.
  induction candidates as [|s rest IH]; intros st; cbn [try_all].
  { split; [done|]. by intros s H%elem_of_nil. }
  pose proof (refused_unchanged s datagram st) as Hr. pose proof (decrypt_session_moves s datagram st) as Hm.
  destruct (decrypt_session s datagram st) as [[p|] st1] eqn:E; cbn [fst snd] in *.
  - split; [by left|]. split; [by rewrite E|]. destruct (bind_addr_spec s peer st1) as ((B1 & B2 & B3 & B4) & B5 & B6).
    destruct Hm as (M1 & M2 & M3 & M4). split; [|done]. split; [congruence|]. split; [congruence|]. split; [congruence|].
    intros s' Hs. by rewrite B4, M4.
  - rewrite (Hr eq_refl) in *. specialize (IH st). destruct (try_all rest peer datagram st) as [[[s' p]|] st'].
    + destruct IH as (H1 & H2). split; [by right|done].
    + destruct IH as [H1 H2]. split; [done|]. intros x [->|Hx]%elem_of_cons; [by rewrite E|by apply H2].
Qed.

(** the sender of a datagram. It is the player whose key opens it: the one
    bound to the address, or, from a new address, any whose key does, who is
    then bound to it; nobody else's state moves. A datagram that opens under
    no key the server tries, forged or garbled, changes nothing at all. *)
Theorem datagram_attribution candidates peer datagram st :
  (forall s, s ∈ candidates <-> is_Some (crypt st !! s)) ->
  match decrypt_from candidates peer datagram st with
  | (Some (s, p), st') =>
      is_Some (crypt st !! s) /\ (decrypt_session s datagram st).1 = Some p /\ only_moves s st st' /\
      addr_index st' !! peer = Some s /\ (addr_index st !! peer <> None -> addr_index st !! peer = Some s)
  | (None, st') =>
      st' = st /\ forall s, (addr_index st !! peer = Some s \/ addr_index st !! peer = None) ->
        (decrypt_session s datagram st).1 = None
  end.
Proof.
  intros Hc. unfold decrypt_from. destruct (addr_index st !! peer) as [s|] eqn:Ea.
  - pose proof (refused_unchanged s datagram st) as Hr. pose proof (decrypt_session_moves s datagram st) as Hm.
    pose proof (decrypt_session_frame s datagram st) as Hf. pose proof (decrypt_session_some s datagram st) as Hs.
    destruct (decrypt_session s datagram st) as [[p|] st1] eqn:E; cbn [fst snd fmap option_fmap option_map] in *.
    + split; [by apply (Hs p)|]. split; [by rewrite E|]. split; [done|]. destruct Hf as (_ & _ & F). by rewrite F, Ea.
    + split; [by apply Hr|]. intros s' [[= <-]|[=]]. by rewrite E.
  - pose proof (try_all_spec candidates peer datagram st) as H. destruct (try_all candidates peer datagram st) as [[[s p]|] st'].
    + destruct H as (H1 & H2 & H3 & _ & H4). split; [by apply Hc|]. by repeat (split; [done|]).
    + destruct H as [-> H]. split; [done|]. intros s _. destruct (crypt st !! s) as [x|] eqn:Ec.
      * apply H, Hc. by rewrite Ec.
      * unfold decrypt_session. by rewrite Ec.
Qed.

(** ** Reconnection and departure *)

Lemma teardown_spec netid st :
  let st' := (teardown netid st).1 in
  sessions st' !! netid = None /\
  (is_Some (sessions st !! netid) ->
   channels st' = drop_session netid (channels st) /\ crypt st' !! netid = None /\ control_tx st' !! netid = None).
Proof.
  unfold teardown. destruct (sessions st !! netid) eqn:E; cbn [fst].
  2: { split; [done|]. by intros [? [=]]. }
  match goal with |- context [udp_addr ?s0 !! netid] => destruct (udp_addr s0 !! netid) end;
    (split; [apply lookup_delete_eq|]); intros _; (split; [done|]); split; apply lookup_delete_eq.
Qed.

Lemma silent speaker datagram st : sessions st !! speaker = None -> route_voice speaker datagram st = (st, []).
Proof. intros H. unfold route_voice, resolve. rewrite H. by destruct (parse datagram). Qed.

(** a reconnect does not replace the previous session (the comment says so):
    the old mutes and whisper targets stay, and when the old socket is closed
    afterwards, it is the new connection's session that is torn down: the
    player is logged out while connected, and whatever they say is dropped. *)
Theorem stale_socket_logs_out_reconnect random payload old conn conn' st st' events netid :
  conn_session old = Some netid ->
  handle_authenticate random payload conn st = (true, conn', st', events) -> conn_session conn' = Some netid ->
  control_tx st' !! netid = Some (out_tx conn) /\
  (forall s, sessions st !! netid = Some s -> sessions st' !! netid = Some s) /\
  let st'' := (disconnect old st').1 in
  sessions st'' !! netid = None /\ crypt st'' !! netid = None /\ control_tx st'' !! netid = None /\
  forall datagram, (route_voice netid datagram st'').2 = [].
Proof.
  intros Ho Ha Hn. unfold handle_authenticate in Ha. destruct (decode_authenticate payload) as [name|]; [|done].
  destruct (parse_netid _) as [n|]; [|done]. destruct random as [[[key sn] cn]|]; [|done].
  injection Ha as <- <- _. cbn [conn_session] in Hn. injection Hn as ->.
  set (st1 := login conn netid _ key sn cn st).
  assert (Hss : sessions st1 = session_insert netid (default [] name) (sessions st)) by done.
  assert (Hs : is_Some (sessions st1 !! netid)).
  { rewrite Hss. unfold session_insert. destruct (sessions st !! netid) eqn:E; [by rewrite E|by rewrite lookup_insert_eq]. }
  split; [apply lookup_insert_eq|]. split.
  { intros s Hs0. rewrite Hss. unfold session_insert. by rewrite Hs0. }
  unfold disconnect. rewrite Ho. destruct (teardown_spec netid st1) as (T1 & T2). destruct (T2 Hs) as (_ & T3 & T4).
  split; [done|]. split; [done|]. split; [done|]. intros datagram. by rewrite silent.
Qed.

(** a player dropped by the game whose voice connection is still open can
    enter a channel, and stays its member for good: neither the drop nor the
    disconnection that follows removes someone who is not logged in. *)
Theorem dropped_player_haunts_channel us conn netid c st :
  voice_ok st -> conn_session conn = Some netid -> u_channel us = Some c ->
  let st1 := (on_player_dropped netid st).1 in
  let st2 := (handle_user_state us conn st1).1 in
  let st3 := (disconnect conn st2).1 in
  sessions st3 !! netid = None /\ is_member (channels st3) netid c.
Proof.
  intros Hok Hc Hu st1 st2 st3. assert (Hok1 : voice_ok st1) by by apply teardown_ok.
  assert (Hs1 : sessions st1 !! netid = None) by apply teardown_spec.
  assert (H2 : sessions st2 = sessions st1 /\ is_member (channels st2) netid c).
  { unfold st2, handle_user_state. rewrite Hc, Hs1, Hu. cbn [fst]. split; [done|].
    set (cs := if channel_exists c (channels st1) then channels st1 else create_game_channel c (channels st1)).
    assert (Hcs : store_ok cs).
    { unfold cs. destruct (channel_exists c (channels st1)); [apply Hok1|]. apply create_ok, Hok1. }
    pose proof (join_spec netid c cs Hcs) as Hj. destruct (join netid c cs) as [prev cs'] eqn:Ej.
    destruct Hj as (_ & Hcs' & Hm & _).
    destruct (listen_members netid (u_listen_add us) true cs' Hcs') as [Hl1 Hm1].
    destruct (listen_members netid (u_listen_remove us) false _ Hl1) as [_ Hm2].
    assert (Hin : is_member cs' netid c) by (apply Hm; by left).
    apply (Hm1 netid c), (Hm2 netid c) in Hin.
    exact Hin. }
  destruct H2 as [Hs2 Hm2]. unfold st3, disconnect. rewrite Hc. unfold teardown. rewrite Hs2, Hs1. cbn [fst].
  by rewrite Hs2.
Qed.
End demux.

(** ** From speaker to listener *)

Section delivery.
Context {A : Aes} {P : Protobuf}.

Lemma relayed_ok bytes packet speaker with_pos :
  parse bytes = Some packet -> bytes_ok bytes -> is_u 64 speaker ->
  exists out, encode_outbound speaker packet with_pos = Some out /\ bytes_ok out.
Proof.
  intros (h & c & audio & tail & _ & -> & _ & ->)%parse_inv [[Hh Ha]%Forall_cons Ht]%Forall_app Hs.
  unfold encode_outbound. cbn [payload audio_end app].
  assert (Hw : forall body, bytes_ok body -> bytes_ok (h :: write_u64 speaker ++ body)).
  { intros body Hb. constructor; [done|]. apply Forall_app. split; [by apply write_u64_ok|done]. }
  destruct with_pos.
  - eexists. split; [done|]. by apply Hw, Forall_app.
  - replace (Z.min _ _ - 1) with (Z.of_nat (length audio)) by (cbn [length]; rewrite length_app; lia).
    rewrite upto_app. eexists. split; [done|]. by apply Hw.
Qed.

(** What one turn of the loop leaves alone. *)
Lemma relay_frame speaker packet acc r :
  udp_addr (relay speaker packet acc r).1 = udp_addr acc.1 /\
  (forall s, s <> r_session r -> crypt (relay speaker packet acc r).1 !! s = crypt acc.1 !! s) /\
  exists sent, (relay speaker packet acc r).2 = acc.2 ++ sent.
Proof.
  destruct acc as [st events]. unfold relay. destruct (encode_outbound _ _ _) as [out|].
  2: { split; [done|]. split; [done|]. exists []. by rewrite app_nil_r. }
  destruct (udp_addr st !! r_session r); [|by split; [|split; [|eexists]]].
  destruct (crypt st !! r_session r) as [[key c]|]; [|by split; [|split; [|eexists]]].
  destruct (VoiceCrypto.encrypt c out) as [e c']. split; [done|]. split; [|by eexists].
  intros s Hs. by apply lookup_insert_ne.
Qed.

Lemma relay_all_frame speaker packet rs : forall acc,
  udp_addr (foldl (relay speaker packet) acc rs).1 = udp_addr acc.1 /\
  (forall s, s ∉ r_session <$> rs -> crypt (foldl (relay speaker packet) acc rs).1 !! s = crypt acc.1 !! s) /\
  exists sent, (foldl (relay speaker packet) acc rs).2 = acc.2 ++ sent.
Proof.
  induction rs as [|r rs IH]; intros acc; cbn [foldl].
  { split; [done|]. split; [done|]. exists []. by rewrite app_nil_r. }
  destruct (relay_frame speaker packet acc r) as (F1 & F2 & sent1 & F3).
  destruct (IH (relay speaker packet acc r)) as (I1 & I2 & sent2 & I3).
  split; [by rewrite I1|]. split; [|exists (sent1 ++ sent2); by rewrite I3, F3, app_assoc].
  intros s [Hne Hs]%not_elem_of_cons. by rewrite I2, F2.
Qed.

(** C14: end to end. Every recipient of a voice packet whose address is known is
    sent one datagram there. For a client [d] datagrams from the server's
    sending nonce, [d = 1] when it is in step, up to 127 after losses, down to
    -29 when later datagrams overtook this one: unless [d] is not 1 and the
    client's replay table already shows the nonce, it decrypts the datagram to
    exactly the packet relayed to it, and is in step for the next one (an
    overtaken one leaves it where it was); if the table shows it, the datagram
    is refused and the client unchanged. *)
Theorem voice_delivered speaker datagram packet st r addr key c client d :
  parse datagram = Some packet -> bytes_ok datagram -> is_u 64 speaker -> voice_ok st ->
  r ∈ resolve (aoi := NoCulling) (sessions st) (channels st) speaker packet ->
  udp_addr st !! r_session r = Some addr -> crypt st !! r_session r = Some (key, c) ->
  BlockCipherLaws (aes key) -> block_ok (decrypt_iv client) -> bridged d ->
  nonce (from_le_bytes (decrypt_iv client) + d) = nonce (from_le_bytes (encrypt_iv c) + 1) ->
  let '(st', events) := route_voice speaker datagram st in
  exists out sent c',
    encode_outbound speaker packet (with_position r) = Some out /\ Datagram addr sent ∈ events /\
    crypt st' !! r_session r = Some (key, c') /\
    if negb (d =? 1) && seen client (from_le_bytes (decrypt_iv client) + d)
    then VoiceCrypto.decrypt (C := aes key) client sent = (None, client)
    else exists client', VoiceCrypto.decrypt (C := aes key) client sent = (Some out, client') /\
           decrypt_iv client' = if d <? 0 then decrypt_iv client else encrypt_iv c'.
Proof.
  intros Hp Hd Hsp Hok Hr Hu Hc Hl Hcl Hbr Hsync. unfold route_voice. rewrite Hp.
  pose proof (resolve_NoDup (sessions st) (channels st) NoCulling speaker packet) as Hnd.
  apply list_elem_of_split in Hr as (rs1 & rs2 & E). rewrite E in Hnd |- *.
  rewrite fmap_app in Hnd. apply NoDup_app in Hnd as (_ & Hn1 & [Hn2 _]%NoDup_cons).
  rewrite foldl_app. cbn [foldl].
  destruct (relay_all_frame speaker packet rs1 (st, [])) as (F1 & F2 & sent1 & F3).
  set (acc1 := foldl (relay speaker packet) (st, []) rs1) in *. cbn [fst snd] in *.
  assert (Hr1 : r_session r ∉ r_session <$> rs1) by (intros H; by apply (Hn1 _ H); left).
  destruct (relayed_ok datagram packet speaker (with_position r) Hp Hd Hsp) as (out & Ho & Hob).
  destruct (vo_nonces _ Hok _ _ _ Hc) as (He & _ & _).
  pose proof (@encrypt_packet (aes key) c out He) as [Ep Ei]. rewrite <- Hsync in Ep, Ei.
  pose proof (advance_at client d Hcl Hbr) as Hadv. cbv zeta in Hadv. set (acc2 := relay speaker packet acc1 r).
  assert (Ha2 : acc2 = (acc1.1 <| crypt := <[r_session r := (key, (@VoiceCrypto.encrypt (aes key) c out).2)]> (crypt acc1.1) |>,
    acc1.2 ++ [Datagram addr (@VoiceCrypto.encrypt (aes key) c out).1])).
  { unfold acc2, relay. destruct acc1 as [st1 ev1]. cbn [fst snd] in *. rewrite Ho, F1, Hu, (F2 _ Hr1), Hc.
    by destruct (@VoiceCrypto.encrypt (aes key) c out). }
  destruct (relay_all_frame speaker packet rs2 acc2) as (_ & G2 & sent2 & G3).
  destruct (foldl (relay speaker packet) acc2 rs2) as [st' events]. cbn [fst snd] in *.
  eexists out, (@VoiceCrypto.encrypt (aes key) c out).1, (@VoiceCrypto.encrypt (aes key) c out).2.
  split; [done|]. split; [|split].
  - rewrite G3, Ha2. cbn [snd]. apply elem_of_app. left. apply elem_of_app. right. by left.
  - rewrite G2, Ha2 by done. cbn [fst]. apply lookup_insert_eq.
  - rewrite Ep. destruct (negb _ && _); [by apply decrypt_refused|]. eexists.
    split; [exact (@decrypt_packet (aes key) Hl client _ out _ (nonce_ok _) Hob Hadv eq_refl)|].
    cbn. by destruct (d <? 0).
Qed.
End delivery.

(** ** A concrete server

    The toy cipher for every key, and a message format that carries what the
    runs below need. *)

Definition toy_aes : Aes := fun _ => toy.

Definition toy_protobuf : Protobuf := {|
  proto_encode m := match m with MUdpTunnel p => p | MUserRemove s => [s] | _ => [] end;
  decode_authenticate p := Some (Some p);
  decode_ping p := Some (head p);
  decode_user_state p := Some (user_state_default <| u_channel := head p |>);
  decode_voice_target p := Some (head p, [{| tm_session := tail p; tm_channel := None; tm_links := None; tm_children := None |}]);
  decode_udp_tunnel p := Some p;
  decode_crypt_setup p := Some None;
  decode_permission_query p := Some (head p)
|}.

Lemma toy_protobuf_laws : ProtobufLaws toy_protobuf.
Proof. by intros payload n [=]. Qed.

Definition new_conn (q : Z) : ClientConn := {| conn_session := None; out_tx := q |}.

(** The login of a player over a fresh connection. *)
Definition log_in (player q : Z) (st : VoiceState) : Outcome :=
  handle_message (A := toy_aes) (P := toy_protobuf) (Some (zero_block, nonce 1, nonce 1)) Authenticate
    (91 :: decimal player ++ [93]) (new_conn q) st.

Definition lobby : VoiceState := (log_in 7 101 (log_in 5 100 state_new).1.2).1.2.

Lemma log_in_step player q st : voice_step (A := toy_aes) (P := toy_protobuf) st (log_in player q st).1.2.
Proof. apply (step_message (A := toy_aes) (P := toy_protobuf)). split; apply nonce_ok. Qed.

Lemma lobby_reachable : rtc (voice_step (A := toy_aes) (P := toy_protobuf)) state_new lobby.
Proof. eapply rtc_l; [apply log_in_step|]. apply rtc_once, log_in_step. Qed.

Lemma voice_state_invariant_witness :
  is_some (crypt lobby !! 7) = true /\ (is_Some (crypt lobby !! 7) <-> is_Some (sessions lobby !! 7)).
Proof.
  split; [vm_compute; reflexivity|].
  pose proof (voice_state_invariant (A := toy_aes) (P := toy_protobuf) (PL := toy_protobuf_laws) lobby lobby_reachable) as H.
  exact (proj1 (proj1 (proj2 (proj2 (proj2 H))) 7)).
Defined.

Lemma datagram_attribution_witness :
  let sent := (VoiceCrypto.encrypt (C := toy) (peer 1 0) [1; 2; 3]).1 in
  match decrypt_from (A := toy_aes) [5; 7] ([127; 0; 0; 1], 40000) sent lobby with
  | (Some (s, p), st') => s = 5 /\ p = [1; 2; 3] /\ addr_index st' !! ([127; 0; 0; 1], 40000) = Some 5
  | (None, _) => False
  end.
Proof.
  intros sent. assert (Hc : forall s, s ∈ [5; 7] <-> is_Some (crypt lobby !! s)).
  { intros s. assert (E : dom (crypt lobby) = {[5; 7]}) by (vm_compute; reflexivity).
    rewrite <- elem_of_dom, E, elem_of_union, !elem_of_singleton, !elem_of_cons, elem_of_nil. tauto. }
  pose proof (datagram_attribution (A := toy_aes) [5; 7] ([127; 0; 0; 1], 40000) sent lobby Hc) as H.
  assert (E : (decrypt_from (A := toy_aes) [5; 7] ([127; 0; 0; 1], 40000) sent lobby).1 = Some (5, [1; 2; 3]))
    by (vm_compute; reflexivity).
  destruct (decrypt_from _ _ sent lobby) as [[[s p]|] st']; [|discriminate E]. injection E as -> ->.
  split; [reflexivity|]. split; [reflexivity|]. exact (proj1 (proj2 (proj2 (proj2 H)))).
Defined.

(** Player 5 is connected over queue 100 and connects again over queue 102. *)
Lemma stale_socket_logs_out_reconnect_witness :
  let '(_, conn, st, _) := log_in 5 102 lobby in
  conn_session conn = Some 5 /\ control_tx st !! 5 = Some 102 /\
  sessions (disconnect (P := toy_protobuf) {| conn_session := Some 5; out_tx := 100 |} st).1 !! 5 = None.
Proof.
  assert (Eb : (log_in 5 102 lobby).1.1.1 = true /\ conn_session (log_in 5 102 lobby).1.1.2 = Some 5)
    by (split; vm_compute; reflexivity).
  destruct (log_in 5 102 lobby) as [[[stays conn] st] events] eqn:E. cbn [fst snd] in Eb.
  destruct Eb as [-> Hc]. split; [exact Hc|].
  pose proof (stale_socket_logs_out_reconnect (A := toy_aes) (P := toy_protobuf)
    (Some (zero_block, nonce 1, nonce 1)) (91 :: decimal 5 ++ [93]) {| conn_session := Some 5; out_tx := 100 |}
    (new_conn 102) conn lobby st events 5 eq_refl E Hc) as (H1 & _ & H2).
  split; [exact H1|apply H2].
Defined.

Lemma dropped_player_haunts_channel_witness :
  let conn := {| conn_session := Some 7; out_tx := 101 |} in
  let st2 := (handle_user_state (P := toy_protobuf) (user_state_default <| u_channel := Some 4 |>) conn
                (on_player_dropped (P := toy_protobuf) 7 lobby).1).1 in
  is_member (channels (disconnect (P := toy_protobuf) conn st2).1) 7 4.
Proof.
  pose proof (rtc_invariant _ voice_ok _ _ (voice_step_ok (PL := toy_protobuf_laws)) lobby_reachable state_new_ok) as Hok.
  exact (proj2 (dropped_player_haunts_channel (P := toy_protobuf) (user_state_default <| u_channel := Some 4 |>)
    {| conn_session := Some 7; out_tx := 101 |} 7 4 lobby Hok eq_refl eq_refl)).
Defined.

(** Player 5 talks in the lobby; player 7 listens on a known address. *)
Definition talk : list Z := 128 :: tail sample_packet.

(** Player 7's side, its nonce [d] datagrams behind, its replay table full of
    another page. *)
Definition listener (d : Z) : CryptState := {|
  encrypt_iv := nonce 1; decrypt_iv := nonce (2 - d); decrypt_history := replicate 256 255; good := 0; late := 0; lost := 0 |}.

Definition listening : VoiceState := bind_addr 7 ([127; 0; 0; 1], 40001) lobby.

Definition hears (d : Z) : Prop := exists out sent client',
  Datagram ([127; 0; 0; 1], 40001) sent ∈ (route_voice (A := toy_aes) (P := toy_protobuf) 5 talk listening).2 /\
  VoiceCrypto.decrypt (C := toy) (listener d) sent = (Some out, client').

(** In step, and with two earlier datagrams lost. *)
Lemma voice_delivered_witness : hears 1 /\ hears 3.
Proof.
  set (st := listening). enough (Hall : forall d, d = 1 \/ d = 3 -> hears d) by (split; apply Hall; [by left|by right]).
  intros d Hd. pose proof (rtc_invariant _ voice_ok _ _ (voice_step_ok (PL := toy_protobuf_laws)) lobby_reachable state_new_ok) as Hok.
  assert (Hst : voice_ok st) by (apply bind_addr_ok; [exact Hok|vm_compute; by eexists|vm_compute; reflexivity]).
  destruct (parse talk) as [packet|] eqn:Ep; [|vm_compute in Ep; discriminate].
  destruct (crypt st !! 7) as [[key c]|] eqn:Ec; [|vm_compute in Ec; discriminate].
  assert (Hr : {| r_session := 7; with_position := false |} ∈ resolve (aoi := NoCulling) (sessions st) (channels st) 5 packet).
  { vm_compute in Ep. injection Ep as <-. apply (bool_decide_unpack _). vm_compute. exact I. }
  set (client := listener d).
  assert (Hs : nonce (from_le_bytes (decrypt_iv client) + d) = nonce (from_le_bytes (encrypt_iv c) + 1))
    by (vm_compute in Ec; injection Ec as _ <-; destruct Hd as [-> | ->]; vm_compute; reflexivity).
  pose proof (voice_delivered (A := toy_aes) (P := toy_protobuf) 5 talk packet st _ ([127; 0; 0; 1], 40001) key c client d
    Ep ltac:(vm_compute; repeat constructor; discriminate) ltac:(unfold is_u; lia) Hst Hr
    ltac:(vm_compute; reflexivity) Ec toy_laws (nonce_ok _) ltac:(unfold bridged; lia) Hs) as H.
  unfold hears. fold st. destruct (route_voice 5 talk st) as [st' events]. destruct H as (out & sent & c' & _ & H1 & _ & H2).
  assert (Hn : negb (d =? 1) && seen client (from_le_bytes (decrypt_iv client) + d) = false)
    by (destruct Hd as [-> | ->]; vm_compute; reflexivity).
  rewrite Hn in H2. destruct H2 as (client' & H2 & _). exists out, sent, client'.
  split; [exact H1|exact H2].
Defined.
