(* ===== verification/ResourceOrder.v ===== *)
(** * The start order of resources (src/crates/baston-zone/src/resource_loader/topo.rs)

    Kahn's algorithm over the dependencies between resources. A hash map is a
    list of entries, in the order it yields them, with distinct keys. *)

From stdpp Require Import sorting.
From S2P Require Import Prelude.

Abbreviation Name := (list Z).
Abbreviation Resources := (list (Name * list Name)).

Inductive TopoError :=
| UnknownDependency (resource dependency : Name)
| CyclicDependency (names : list Name).

(** ** The algorithm *)

Definition edges (resources : Resources) : list (Name * Name) :=
  resources ≫= fun r => (fun dep => (r.1, dep)) <$> r.2.

Definition contains_key (resources : Resources) (name : Name) : bool := bool_decide (name ∈ resources.*1).

Definition unknown_dependency (resources : Resources) : option (Name * Name) :=
  List.find (fun e => negb (contains_key resources e.2)) (edges resources).

(** [in_degree] and [dependents]. *)
Record Graph := { in_degree : gmap Name nat; dependents : gmap Name (list Name) }.

Definition count_edge (name : Name) (g : Graph) (dep : Name) : Graph :=
  {| in_degree := <[name := S (default O (in_degree g !! name))]> (in_degree g);
     dependents := <[dep := default [] (dependents g !! dep) ++ [name]]> (dependents g) |}.

Definition count_resource (g : Graph) (r : Name * list Name) : Graph :=
  foldl (count_edge r.1)
    {| in_degree := <[r.1 := default O (in_degree g !! r.1)]> (in_degree g); dependents := dependents g |} r.2.

Definition count_all (resources : Resources) : Graph :=
  foldl count_resource {| in_degree := ∅; dependents := ∅ |} resources.

Definition sort_names (names : list Name) : list Name := sort_by bytes_leb names.

(** [iter().filter(|(_, deg)| p(deg)).map(|(n, _)| n)]. *)
Definition keys_where (p : nat -> bool) (deg : gmap Name nat) : list Name :=
  fst <$> List.filter (fun nd => p nd.2) (map_to_list deg).

(** [None]: the panic of a missing entry or of an underflow. *)
Definition release (acc : option (gmap Name nat * list Name)) (dependent : Name) : option (gmap Name nat * list Name) :=
  acc ≫= fun '(deg, newly_ready) =>
    match deg !! dependent with
    | Some (S d) => Some (<[dependent := d]> deg, if decide (d = O) then newly_ready ++ [dependent] else newly_ready)
    | _ => None
    end.

(** [while let Some(name) = ready.pop_front()]: the order and what is left of
    [in_degree]. Each turn puts one resource in the order, so there are at
    most as many as resources ([topo_sort_spec]). *)
Fixpoint kahn (turns : nat) (dependents : gmap Name (list Name)) (ready : list Name) (deg : gmap Name nat)
    (ordered : list Name) : option (list Name * gmap Name nat) :=
  match ready, turns with
  | [], _ => Some (ordered, deg)
  | name :: ready, S turns' =>
      match foldl release (Some (deg, [])) (default [] (dependents !! name)) with
      | None => None
      | Some (deg, newly_ready) => kahn turns' dependents (ready ++ sort_names newly_ready) deg (ordered ++ [name])
      end
  | _, O => None
  end.

Definition topo_sort (resources : Resources) : option (list Name + TopoError) :=
  match unknown_dependency resources with
  | Some (name, dep) => Some (inr (UnknownDependency name dep))
  | None =>
      let g := count_all resources in
      let ready := sort_names (keys_where (fun d => (d =? 0)%nat) (in_degree g)) in
      match kahn (length resources) (dependents g) ready (in_degree g) [] with
      | None => None
      | Some (ordered, deg) =>
          if (length ordered =? length resources)%nat then Some (inl ordered)
          else Some (inr (CyclicDependency (sort_names (keys_where (fun d => (0 <? d)%nat) deg))))
      end
  end.

Definition a : Name := [97].
Definition b : Name := [98].
Definition c : Name := [99].

Example economy_first : topo_sort [(b, [a]); (a, []); (c, [b; a])] = Some (inl [a; b; c]).
Proof. vm_compute. reflexivity. Qed.

(** ** Counting *)

Definition occ (x : Name) (l : list Name) : nat := length (List.filter (fun y => bool_decide (y = x)) l).

Lemma occ_cons x y l : occ x (y :: l) = ((if decide (y = x) then 1 else 0) + occ x l)%nat.
Proof. unfold occ. cbn. case_bool_decide; [by rewrite decide_True|by rewrite decide_False]. Qed.

Lemma occ_app x l1 l2 : occ x (l1 ++ l2) = (occ x l1 + occ x l2)%nat.
Proof. unfold occ. by rewrite List.filter_app, length_app. Qed.

Lemma occ_in x l : (0 < occ x l)%nat <-> x ∈ l.
Proof.
  induction l as [|y l IH]; [by rewrite elem_of_nil; cbn; lia|].
  rewrite occ_cons, elem_of_cons, <- IH. destruct (decide (y = x)) as [->|]; [split; [by left|lia]|].
  split; [by right|]. intros [->|]; [done|lia].
Qed.

Lemma occ_perm x l1 l2 : l1 ≡ₚ l2 -> occ x l1 = occ x l2.
Proof. induction 1; rewrite ?occ_cons; lia. Qed.

(** How many of the dependencies [ds] are not in the order yet. *)
Definition waiting (ordered ds : list Name) : nat :=
  length (List.filter (fun d => negb (bool_decide (d ∈ ordered))) ds).

Lemma waiting_snoc ordered x ds : x ∉ ordered -> (waiting (ordered ++ [x]) ds + occ x ds = waiting ordered ds)%nat.
Proof.
  intros Hx. unfold waiting. induction ds as [|d ds IH]; [done|]. rewrite occ_cons. cbn [List.filter].
  destruct (decide (d = x)) as [->|Hne].
  - rewrite (bool_decide_eq_true_2 (x ∈ ordered ++ [x])) by (apply elem_of_app; right; by left).
    rewrite (bool_decide_eq_false_2 (x ∈ ordered)) by done. cbn. lia.
  - rewrite (bool_decide_ext (d ∈ ordered ++ [x]) (d ∈ ordered))
      by (rewrite elem_of_app, list_elem_of_singleton; tauto).
    destruct (negb _); cbn; lia.
Qed.

Lemma waiting_zero ordered ds : waiting ordered ds = O <-> forall d, d ∈ ds -> d ∈ ordered.
Proof.
  unfold waiting. induction ds as [|d ds IH]; cbn [List.filter].
  { split; [by intros _ d H%elem_of_nil|done]. }
  case_bool_decide as E; cbn [negb].
  - rewrite IH. split; [|intros H d' Hd; apply H; by right]. intros H d' [->|Hd]%elem_of_cons; [done|by apply H].
  - cbn. split; [done|]. intros H. destruct E. apply H. by left.
Qed.

Lemma list_find_not_in ordered ds : waiting ordered ds <> O -> exists d, d ∈ ds /\ d ∉ ordered.
Proof.
  unfold waiting. induction ds as [|d ds IH]; cbn [List.filter]; [done|]. case_bool_decide as E; cbn [negb].
  - intros H. destruct (IH H) as (d' & ? & ?). exists d'. split; [by right|done].
  - intros _. exists d. split; [by left|done].
Qed.

(** One turn over the dependents of a resource that is put in the order. *)
Lemma release_all l : forall deg new0,
  (forall m, (0 < occ m l)%nat -> exists k, deg !! m = Some k /\ (occ m l <= k)%nat) ->
  exists deg' new, foldl release (Some (deg, new0)) l = Some (deg', new0 ++ new) /\
    (forall m, deg' !! m = (fun k => k - occ m l)%nat <$> deg !! m) /\
    NoDup new /\ forall m, m ∈ new <-> (0 < occ m l)%nat /\ deg !! m = Some (occ m l).
Proof.
  induction l as [|x l IH]; intros deg new0 H.
  { exists deg, []. cbn. rewrite app_nil_r. split; [done|]. split; [|split; [constructor|]].
    - intros m. destruct (deg !! m); cbn; [|done]. by rewrite Nat.sub_0_r.
    - intros m. rewrite elem_of_nil. split; [done|]. cbn. lia. }
  destruct (H x) as (k & Hk & Hle); [rewrite occ_cons, decide_True by done; lia|].
  rewrite occ_cons, decide_True in Hle by done. destruct k as [|d]; [lia|]. cbn [foldl]. unfold release at 2.
  cbn [mbind option_bind]. rewrite Hk.
  destruct (IH (<[x := d]> deg) (if decide (d = O) then new0 ++ [x] else new0)) as (deg' & new & -> & Hd & Hnd & Hnew).
  { intros m Hm. destruct (decide (m = x)) as [->|Hne]; [exists d; rewrite lookup_insert_eq; split; [done|lia]|].
    rewrite lookup_insert_ne by done. destruct (H m) as (k & Hk' & Hle'); [rewrite occ_cons; lia|].
    exists k. split; [done|]. rewrite occ_cons, decide_False in Hle' by done. lia. }
  exists deg', ((if decide (d = O) then [x] else []) ++ new). split; [|split; [|split]].
  - do 2 f_equal. destruct (decide (d = O)); [by rewrite <- app_assoc|done].
  - intros m. rewrite Hd. destruct (decide (m = x)) as [->|Hne].
    + rewrite lookup_insert_eq, Hk, occ_cons, decide_True by done. done.
    + rewrite lookup_insert_ne by done. by rewrite occ_cons, decide_False by done.
  - destruct (decide (d = O)) as [->|]; [|done]. constructor; [|done]. rewrite Hnew, lookup_insert_eq. intros [Ho [=]]. lia.
  - intros m. rewrite elem_of_app, Hnew, occ_cons. destruct (decide (x = m)) as [<-|Hne].
    + rewrite lookup_insert_eq, Hk. destruct (decide (d = O)) as [->|Hd0].
      * rewrite list_elem_of_singleton. assert (occ x l = O) by lia. split; [intros _; split; [lia|by f_equal; lia]|by left].
      * rewrite elem_of_nil. split; [intros [[]|[Ho [= ->]]]; split; [lia|done]|].
        intros [_ [= E]]. right. split; [lia|by f_equal].
    + rewrite lookup_insert_ne by done. destruct (decide (d = O)); rewrite ?list_elem_of_singleton, ?elem_of_nil;
        split; try (intros [E|[? ?]]; [by destruct E|by split]); intros [? ?]; by right.
Qed.

(** ** The counts *)

Definition deps_map (resources : Resources) : gmap Name (list Name) := list_to_map resources.

Lemma count_edges name ds : forall g,
  let g' := foldl (count_edge name) g ds in
  (forall n, in_degree g' !! n =
     if decide (n = name /\ ds <> []) then Some (default O (in_degree g !! n) + length ds)%nat else in_degree g !! n) /\
  forall d n, occ n (default [] (dependents g' !! d)) =
    (occ n (default [] (dependents g !! d)) + if decide (n = name) then occ d ds else 0)%nat.
Proof.
  induction ds as [|x ds IH]; intros g; cbn [foldl].
  { split; [intros n; by rewrite decide_False by tauto|]. intros d n. cbn. case_decide; lia. }
  destruct (IH (count_edge name g x)) as [H1 H2]. cbv zeta in *. split.
  - intros n. rewrite H1. cbn [count_edge in_degree]. destruct (decide (n = name)) as [->|Hne].
    + rewrite lookup_insert_eq. rewrite (decide_True (P := name = name /\ x :: ds <> [])) by done. cbn [default from_option id length].
      case_decide as E; [f_equal; lia|]. destruct ds; [cbn; f_equal; lia|]. by destruct E.
    + rewrite lookup_insert_ne by done. by rewrite !decide_False by tauto.
  - intros d n. rewrite H2. cbn [count_edge dependents]. destruct (decide (d = x)) as [->|Hne].
    + rewrite lookup_insert_eq. cbn [default from_option id]. rewrite occ_app, !occ_cons. change (occ n []) with O.
      destruct (decide (n = name)) as [->|Hne]; [rewrite !decide_True by done; lia|].
      rewrite (decide_False (P := name = n)) by congruence. lia.
    + rewrite lookup_insert_ne by done. rewrite occ_cons, (decide_False (P := x = d)) by congruence. case_decide; lia.
Qed.

Lemma count_resources rs : forall g, NoDup rs.*1 ->
  let g' := foldl count_resource g rs in
  (forall n, in_degree g' !! n =
     match deps_map rs !! n with
     | Some ds => Some (default O (in_degree g !! n) + length ds)%nat
     | None => in_degree g !! n
     end) /\
  forall d n, occ n (default [] (dependents g' !! d)) =
    (occ n (default [] (dependents g !! d)) + occ d (default [] (deps_map rs !! n)))%nat.
Proof.
  induction rs as [|[name ds] rs IH]; intros g Hnd; cbn [foldl].
  { split; [done|]. intros d n. assert (deps_map [] !! n = None) as -> by done. change (occ d (default [] None)) with O. lia. }
  cbn [fmap list_fmap fst] in Hnd. apply NoDup_cons in Hnd as [Hname Hnd].
  destruct (IH (count_resource g (name, ds)) Hnd) as [H1 H2]. cbv zeta in *.
  assert (Hn : deps_map rs !! name = None) by by apply not_elem_of_list_to_map_1.
  assert (Hc : deps_map ((name, ds) :: rs) = <[name := ds]> (deps_map rs)) by done.
  destruct (count_edges name ds {| in_degree := <[name := default O (in_degree g !! name)]> (in_degree g);
    dependents := dependents g |}) as [E1 E2]. cbv zeta in *. cbn [in_degree dependents] in *.
  change (foldl (count_edge name) _ ds) with (count_resource g (name, ds)) in E1, E2. split.
  - intros n. rewrite H1, Hc. destruct (decide (n = name)) as [->|Hne].
    + rewrite Hn, lookup_insert_eq, E1, lookup_insert_eq. cbn [default from_option id].
      destruct ds as [|x ds]; [rewrite decide_False by tauto; cbn; f_equal; lia|]. by rewrite decide_True.
    + rewrite lookup_insert_ne by done. destruct (deps_map rs !! n).
      * rewrite E1, decide_False by tauto. by rewrite lookup_insert_ne.
      * rewrite E1, decide_False by tauto. by rewrite lookup_insert_ne.
  - intros d n. rewrite H2, Hc, E2. destruct (decide (n = name)) as [->|Hne].
    + rewrite Hn, lookup_insert_eq. change (occ d (default [] None)) with O. cbn [default from_option id]. lia.
    + rewrite lookup_insert_ne by done. lia.
Qed.

Lemma count_all_spec rs : NoDup rs.*1 ->
  (forall n, in_degree (count_all rs) !! n = length <$> deps_map rs !! n) /\
  forall d n, occ n (default [] (dependents (count_all rs) !! d)) = occ d (default [] (deps_map rs !! n)).
Proof.
  intros Hnd. destruct (count_resources rs {| in_degree := ∅; dependents := ∅ |} Hnd) as [H1 H2]. split.
  - intros n. unfold count_all. rewrite H1. cbn [in_degree]. rewrite lookup_empty. by destruct (deps_map rs !! n).
  - intros d n. unfold count_all. rewrite H2. cbn [dependents]. by rewrite lookup_empty.
Qed.

(** ** The loop *)

Section loop.
Context (D : gmap Name (list Name)) (dependents : gmap Name (list Name)).
Hypothesis Hdep : forall d n, occ n (default [] (dependents !! d)) = occ d (default [] (D !! n)).

Record loop_ok (ready : list Name) (deg : gmap Name nat) (ordered : list Name) : Prop := {
  lo_nodup : NoDup (ordered ++ ready);
  lo_deg n : deg !! n = waiting ordered <$> D !! n;
  lo_free n : n ∈ ordered ++ ready <-> exists ds, D !! n = Some ds /\ waiting ordered ds = O;
  lo_order l1 n l2 ds : ordered = l1 ++ n :: l2 -> D !! n = Some ds -> forall d, d ∈ ds -> d ∈ l1
}.

(** The counts after one resource has been put in the order. *)
Lemma loop_release name ready deg ordered : loop_ok (name :: ready) deg ordered ->
  exists deg' new, foldl release (Some (deg, [])) (default [] (dependents !! name)) = Some (deg', new) /\
    NoDup new /\ (forall n, deg' !! n = waiting (ordered ++ [name]) <$> D !! n) /\
    forall n, n ∈ new <-> exists ds, D !! n = Some ds /\ waiting (ordered ++ [name]) ds = O /\ waiting ordered ds <> O.
Proof.
  intros [H1 H2 H3 H4].
  assert (Hnew : name ∉ ordered).
  { intros H. apply NoDup_app in H1 as (_ & H1 & _). apply (H1 _ H). by left. }
  destruct (release_all (default [] (dependents !! name)) deg []) as (deg' & new & E & Hd & Hnd & Hn).
  { intros m. rewrite Hdep. destruct (D !! m) as [ds|] eqn:Ed; [|cbn; lia]. intros _. exists (waiting ordered ds).
    split; [by rewrite H2, Ed|]. cbn [default from_option id]. pose proof (waiting_snoc ordered name ds Hnew). lia. }
  exists deg', new. split; [done|]. split; [done|]. split.
  - intros n. rewrite Hd, H2, Hdep. destruct (D !! n) as [ds|]; [|done]. cbn [default from_option id fmap option_fmap option_map]. f_equal.
    pose proof (waiting_snoc ordered name ds Hnew). lia.
  - intros n. rewrite Hn, Hdep, H2. destruct (D !! n) as [ds|]; cbn [default from_option id fmap option_fmap option_map].
    + pose proof (waiting_snoc ordered name ds Hnew) as Hw. split.
      * intros [Ho [= E']]. exists ds. split; [done|]. lia.
      * intros (ds' & [= <-] & ? & ?). split; [lia|]. f_equal. lia.
    + split; [by intros [? [=]]|by intros (? & [=] & _)].
Qed.

Lemma loop_step name ready deg ordered deg' new : loop_ok (name :: ready) deg ordered ->
  NoDup new -> (forall n, deg' !! n = waiting (ordered ++ [name]) <$> D !! n) ->
  (forall n, n ∈ new <-> exists ds, D !! n = Some ds /\ waiting (ordered ++ [name]) ds = O /\ waiting ordered ds <> O) ->
  loop_ok (ready ++ new) deg' (ordered ++ [name]).
Proof.
  intros [H1 H2 H3 H4] Hnd Hd Hn.
  assert (E : (ordered ++ [name]) ++ ready ++ new = (ordered ++ name :: ready) ++ new) by by rewrite <- !app_assoc.
  assert (Hw : forall ds, waiting ordered ds = O -> waiting (ordered ++ [name]) ds = O).
  { intros ds H. apply waiting_zero. intros d Hin. apply elem_of_app. left. by apply (proj1 (waiting_zero ordered ds) H). }
  split; [| |intros n|].
  - rewrite E. apply NoDup_app. split; [done|]. split; [|done]. intros n Hin (ds & Hds & _ & Hne)%Hn.
    apply H3 in Hin as (ds' & Hds' & Hz). congruence.
  - done.
  - rewrite E, elem_of_app, H3, Hn. split.
    + intros [(ds & ? & ?)|(ds & ? & ? & _)]; exists ds; [split; [done|by apply Hw]|done].
    + intros (ds & Hds & Hz). destruct (decide (waiting ordered ds = O)); [left|right]; by exists ds.
  - intros l1 n l2 ds Ho Hds d Hin. destruct (decide (l2 = [])) as [->|Hl].
    + apply app_inj_tail in Ho as [<- <-].
      assert (Hz : name ∈ ordered ++ name :: ready) by (apply elem_of_app; right; by left).
      apply H3 in Hz as (ds' & Hds' & Hz). assert (ds' = ds) as -> by congruence.
      by apply (proj1 (waiting_zero ordered ds) Hz).
    + destruct (exists_last Hl) as (l3 & x & ->). rewrite app_comm_cons, app_assoc in Ho.
      apply app_inj_tail in Ho as [-> _]. by apply (H4 l1 n l3 ds eq_refl Hds).
Qed.

Lemma loop_ok_perm ready ready' deg ordered : ready ≡ₚ ready' -> loop_ok ready deg ordered -> loop_ok ready' deg ordered.
Proof.
  intros Hp [H1 H2 H3 H4]. split; [by rewrite <- Hp|done| |done]. intros n. by rewrite <- Hp.
Qed.

Lemma kahn_spec turns : forall ready deg ordered,
  loop_ok ready deg ordered -> (forall l, NoDup l -> (forall n, n ∈ l -> is_Some (D !! n)) -> (length l <= turns + length ordered)%nat) ->
  exists ordered' deg', kahn turns dependents ready deg ordered = Some (ordered', deg') /\ loop_ok [] deg' ordered'.
Proof.
  induction turns as [|turns IH]; intros [|name ready] deg ordered Hok Hl; cbn [kahn]; try by exists ordered, deg.
  { exfalso. assert (H : (length (ordered ++ name :: ready) <= 0 + length ordered)%nat).
    { apply Hl; [apply Hok|]. intros n Hn. apply (lo_free _ _ _ Hok) in Hn as (ds & -> & _). done. }
    rewrite length_app in H. cbn in H. lia. }
  destruct (loop_release _ _ _ _ Hok) as (deg' & new & -> & Hnd & Hd & Hn).
  apply IH.
  - apply (loop_ok_perm (ready ++ new)); [by unfold sort_names; rewrite sort_by_perm|by apply (loop_step name ready deg)].
  - intros l H1 H2. specialize (Hl l H1 H2). rewrite length_app. cbn. lia.
Qed.
End loop.

(** ** The order *)

Definition before (order : list Name) (d n : Name) : Prop := exists l1 l2 l3, order = l1 ++ d :: l2 ++ n :: l3.

Lemma elem_of_keys_where p deg n : n ∈ keys_where p deg <-> exists k, deg !! n = Some k /\ p k = true.
Proof.
  unfold keys_where. rewrite list_elem_of_fmap. setoid_rewrite list_elem_of_In. setoid_rewrite filter_In.
  setoid_rewrite <- list_elem_of_In. split.
  - intros ([n' k] & -> & Hin & Hk). exists k. by apply elem_of_map_to_list in Hin.
  - intros (k & Hk & Hp). exists (n, k). split; [done|]. split; [|done]. by apply elem_of_map_to_list.
Qed.

Lemma NoDup_keys_where p deg : NoDup (keys_where p deg).
Proof.
  unfold keys_where. pose proof (NoDup_fst_map_to_list deg) as H.
  induction (map_to_list deg) as [|[n k] l IH]; [constructor|]. cbn in H |- *. apply NoDup_cons in H as [Hn H].
  destruct (p k); [|by apply IH]. cbn. constructor; [|by apply IH].
  intros ([n' k'] & -> & Hin)%list_elem_of_fmap. apply Hn, list_elem_of_fmap. exists (n', k'). split; [done|].
  apply list_elem_of_In, filter_In in Hin as [Hin _]. by apply list_elem_of_In.
Qed.

Lemma waiting_nil ds : waiting [] ds = length ds.
Proof.
  unfold waiting. f_equal. induction ds as [|d ds IH]; [done|]. cbn [List.filter].
  rewrite bool_decide_eq_false_2 by (by intros ?%elem_of_nil). cbn [negb]. by rewrite IH.
Qed.

Lemma nodup_length (l1 l2 : list Name) : NoDup l1 -> (forall x, x ∈ l1 -> x ∈ l2) -> (length l1 <= length l2)%nat.
Proof. intros. by apply submseteq_length, NoDup_submseteq. Qed.

Lemma initial_ok rs : NoDup rs.*1 ->
  loop_ok (deps_map rs) (sort_names (keys_where (fun d => (d =? 0)%nat) (in_degree (count_all rs)))) (in_degree (count_all rs)) [].
Proof.
  intros Hnd. destruct (count_all_spec rs Hnd) as [H1 _]. split.
  - cbn [app]. unfold sort_names. rewrite sort_by_perm. apply NoDup_keys_where.
  - intros n. rewrite H1. destruct (deps_map rs !! n); [|done]. cbn. by rewrite waiting_nil.
  - intros n. cbn [app]. unfold sort_names. rewrite (sort_by_perm _ (keys_where _ _)), elem_of_keys_where, H1. split.
    + intros (k & Hk & E%Nat.eqb_eq). apply fmap_Some in Hk as (ds & Hds & ->). exists ds. by rewrite waiting_nil.
    + intros (ds & -> & E). rewrite waiting_nil in E. exists O. by cbn; rewrite E.
  - intros l1 n l2 ds H. by apply app_cons_not_nil in H.
Qed.

Lemma deps_map_names rs n : is_Some (deps_map rs !! n) <-> n ∈ rs.*1.
Proof.
  split.
  - intros [ds H]. apply elem_of_list_to_map_2 in H. apply list_elem_of_fmap. by exists (n, ds).
  - intros H. destruct (deps_map rs !! n) eqn:E; [done|]. by apply not_elem_of_list_to_map_2 in E.
Qed.

Lemma edges_spec rs n d : NoDup rs.*1 -> (n, d) ∈ edges rs <-> exists ds, deps_map rs !! n = Some ds /\ d ∈ ds.
Proof.
  intros Hnd. unfold edges. rewrite list_elem_of_bind. split.
  - intros ([n' ds] & (d' & [= -> ->] & Hd)%list_elem_of_fmap & Hin). exists ds. split; [|done].
    by apply elem_of_list_to_map_1.
  - intros (ds & Hds & Hd). apply elem_of_list_to_map_2 in Hds. exists (n, ds). split; [|done].
    apply list_elem_of_fmap. by exists d.
Qed.

(** the start order. It exists unless a resource names an unknown dependency
    or there is a cycle, and lists every resource once, after all it depends
    on; the resources reported with a cycle each depend on another of them,
    so that none of them can ever start. The loop always ends, and never
    reaches its panic. *)
Theorem topo_sort_spec resources :
  NoDup resources.*1 ->
  match topo_sort resources with
  | None => False
  | Some (inl order) =>
      order ≡ₚ resources.*1 /\ forall n d, (n, d) ∈ edges resources -> before order d n
  | Some (inr (UnknownDependency n d)) => (n, d) ∈ edges resources /\ d ∉ resources.*1
  | Some (inr (CyclicDependency names)) =>
      names <> [] /\ forall n, n ∈ names -> n ∈ resources.*1 /\ exists d, (n, d) ∈ edges resources /\ d ∈ names
  end.
Proof.
  intros Hnd. unfold topo_sort. destruct (unknown_dependency resources) as [[n d]|] eqn:Eu.
  { unfold unknown_dependency in Eu. apply find_some in Eu as [Hin Hc]. split; [by apply list_elem_of_In|].
    apply negb_true_iff, bool_decide_eq_false in Hc. done. }
  assert (Hk : forall n d, (n, d) ∈ edges resources -> d ∈ resources.*1).
  { intros n d Hin. apply list_elem_of_In in Hin. pose proof (find_none _ _ Eu _ Hin) as H.
    by apply negb_false_iff, bool_decide_eq_true in H. }
  destruct (count_all_spec resources Hnd) as [_ Hdep].
  destruct (kahn_spec (deps_map resources) (dependents (count_all resources)) Hdep (length resources) _ _ [] (initial_ok _ Hnd))
    as (order & deg & -> & [H1 H2 H3 H4]).
  { intros l Hl Hs. cbn [length]. rewrite Nat.add_0_r, <- (length_fmap fst resources). apply nodup_length; [done|].
    intros n Hn. by apply deps_map_names, Hs. }
  rewrite app_nil_r in H1. assert (H3' : forall n, n ∈ order <-> exists ds, deps_map resources !! n = Some ds /\ waiting order ds = O)
    by (intros n; by rewrite <- H3, app_nil_r).
  assert (Hsub : forall n, n ∈ order -> n ∈ resources.*1).
  { intros n Hn. apply deps_map_names. rewrite H3' in Hn. destruct Hn as (ds & -> & _). done. }
  destruct (Nat.eqb_spec (length order) (length resources)) as [El|El].
  - assert (Hp : order ≡ₚ resources.*1).
    { apply submseteq_length_Permutation; [by apply NoDup_submseteq|]. rewrite length_fmap. lia. }
    split; [done|]. intros n d Hin. apply edges_spec in Hin as (ds & Hds & Hd); [|done].
    assert (Hn : n ∈ order) by (rewrite Hp; apply deps_map_names; by rewrite Hds).
    apply list_elem_of_split in Hn as (l1 & l3 & E). pose proof (H4 l1 n l3 ds E Hds d Hd) as Hd1.
    apply list_elem_of_split in Hd1 as (l0 & l2 & ->). exists l0, l2, l3. by rewrite E, <- app_assoc.
  - set (names := sort_names (keys_where (fun d => (0 <? d)%nat) deg)).
    assert (Hin : forall n, n ∈ names <-> n ∈ resources.*1 /\ n ∉ order).
    { intros n. unfold names, sort_names. rewrite (sort_by_perm _ (keys_where _ _)), elem_of_keys_where, H2.
      rewrite H3', <- deps_map_names. destruct (deps_map resources !! n) as [ds|]; split.
      - intros (k & [= <-] & Hlt%Nat.ltb_lt). split; [done|]. intros (ds' & [= <-] & E). lia.
      - intros [_ Hn]. exists (waiting order ds). split; [done|]. apply Nat.ltb_lt. destruct (waiting order ds) eqn:E; [|lia].
        destruct Hn. by exists ds.
      - by intros (? & [=] & _).
      - by intros [[? [=]] _]. }
    split.
    + intros E. apply El. apply Nat.le_antisymm.
      * rewrite <- (length_fmap fst resources). by apply nodup_length.
      * rewrite <- (length_fmap fst resources). apply nodup_length; [done|]. intros n Hn.
        destruct (decide (n ∈ order)) as [|Hno]; [done|]. assert (H : n ∈ names) by by apply Hin.
        rewrite E in H. by apply elem_of_nil in H.
    + intros n [Hn Hno]%Hin. split; [done|]. apply deps_map_names in Hn as [ds Hds].
      destruct (decide (waiting order ds = O)) as [E|E].
      { destruct Hno. apply H3'. by exists ds. }
      destruct (list_find_not_in order ds E) as (d & Hd & Hdo). exists d.
      assert (He : (n, d) ∈ edges resources) by (apply edges_spec; [done|by exists ds]).
      split; [done|]. apply Hin. split; [by apply (Hk n)|done].
Qed.

Lemma topo_sort_spec_witness : exists order, topo_sort [(b, [a]); (a, []); (c, [b; a])] = Some (inl order) /\ before order a c.
Proof.
  assert (Hnd : NoDup ([(b, [a]); (a, []); (c, [b; a])] : Resources).*1)
    by (apply (bool_decide_unpack _); vm_compute; exact I).
  pose proof (topo_sort_spec [(b, [a]); (a, []); (c, [b; a])] Hnd) as H.
  destruct (topo_sort [(b, [a]); (a, []); (c, [b; a])]) as [[order|e]|] eqn:E;
    [|vm_compute in E; discriminate|vm_compute in E; discriminate].
  exists order. split; [reflexivity|]. apply (proj2 H). vm_compute. right. right. left.
Defined.

(** a cycle is reported with every resource it keeps from starting, not only
    with the names on it: here [c] is on no cycle. *)
Theorem cycle_report_overstates :
  topo_sort [(a, [b]); (b, [a]); (c, [a])] = Some (inr (CyclicDependency [a; b; c])) /\
  (forall n, (n, c) ∉ edges [(a, [b]); (b, [a]); (c, [a])]).
Proof.
  split; [vm_compute; reflexivity|]. intros n Hin.
  assert (H : c ∈ (edges [(a, [b]); (b, [a]); (c, [a])]).*2) by (apply list_elem_of_fmap; by exists (n, c)).
  apply (bool_decide_eq_true_2 _) in H. vm_compute in H. discriminate.
Qed.

(** ** Determinism *)

Lemma sort_names_perm l1 l2 : l1 ≡ₚ l2 -> sort_names l1 = sort_names l2.
Proof.
  intros H. apply (Sorted_unique (fun a b => Is_true (bytes_leb a b))).
  - apply sort_by_sorted, bytes_leb_total.
  - apply sort_by_sorted, bytes_leb_total.
  - unfold sort_names. by rewrite !sort_by_perm.
Qed.

Lemma kahn_perm D d1 d2 turns : forall ready deg ordered,
  (forall d n, occ n (default [] (d1 !! d)) = occ d (default [] (D !! n))) ->
  (forall d n, occ n (default [] (d2 !! d)) = occ d (default [] (D !! n))) ->
  loop_ok D ready deg ordered -> kahn turns d1 ready deg ordered = kahn turns d2 ready deg ordered.
Proof.
  induction turns as [|turns IH]; intros [|name ready] deg ordered H1 H2 Hok; try done. cbn [kahn].
  destruct (loop_release D d1 H1 _ _ _ _ Hok) as (deg1 & new1 & -> & Hn1 & E1 & M1).
  destruct (loop_release D d2 H2 _ _ _ _ Hok) as (deg2 & new2 & -> & Hn2 & E2 & M2).
  assert (deg1 = deg2) as -> by (apply map_eq; intros n; by rewrite E1, E2).
  assert (Hp : new1 ≡ₚ new2) by (apply NoDup_Permutation; [done..|]; intros n; by rewrite M1, M2).
  rewrite (sort_names_perm _ _ Hp). apply IH; [done..|].
  apply (loop_ok_perm _ (ready ++ new2)); [by unfold sort_names; rewrite sort_by_perm|].
  by apply (loop_step D name ready deg).
Qed.

(** the order is the same in whatever order the hash map yields its entries. *)
Theorem topo_sort_deterministic r1 r2 :
  NoDup r1.*1 -> r1 ≡ₚ r2 -> unknown_dependency r1 = None -> topo_sort r1 = topo_sort r2.
Proof.
  intros Hnd Hp Hu. assert (Hnd2 : NoDup r2.*1) by by rewrite <- Hp.
  assert (HD : deps_map r1 = deps_map r2) by by apply list_to_map_proper.
  assert (Hu2 : unknown_dependency r2 = None).
  { destruct (unknown_dependency r2) as [[n d]|] eqn:E; [|done]. apply find_some in E as [Hin Hc].
    assert (Hin1 : (n, d) ∈ edges r1) by (apply edges_spec; [done|]; rewrite HD; apply edges_spec; [done|by apply list_elem_of_In]).
    apply list_elem_of_In in Hin1. pose proof (find_none _ _ Hu _ Hin1) as H.
    apply negb_false_iff, bool_decide_eq_true in H. apply negb_true_iff, bool_decide_eq_false in Hc.
    destruct Hc. cbn [snd] in *. by rewrite <- Hp. }
  destruct (count_all_spec r1 Hnd) as [C1 D1], (count_all_spec r2 Hnd2) as [C2 D2].
  assert (Hdeg : in_degree (count_all r1) = in_degree (count_all r2)) by (apply map_eq; intros n; by rewrite C1, C2, HD).
  unfold topo_sort. rewrite Hu, Hu2, <- Hdeg, (Permutation_length Hp).
  rewrite (kahn_perm (deps_map r1) (dependents (count_all r1)) (dependents (count_all r2))); [done|done| |by apply initial_ok].
  by rewrite HD.
Qed.

Lemma topo_sort_deterministic_witness :
  topo_sort [(b, [a]); (a, []); (c, [a])] = topo_sort [(c, [a]); (a, []); (b, [a])].
Proof.
  apply topo_sort_deterministic.
  - apply (bool_decide_unpack _). vm_compute. exact I.
  - apply (bool_decide_unpack _). vm_compute. exact I.
  - vm_compute. reflexivity.
Defined.
