(* ===== verification/MeshForward.v ===== *)
(** * Forwarding of client updates to the zones (src/crates/baston-gateway/src/mesh_forward.rs)

    One shard of the forwarder: a task that handles its messages one after the
    other, with the updates it holds back around a handoff. The routing table
    and the registry are shared with other tasks, so each message is handled
    with the tables as they are by then. The binary encoding of an update is a
    library's; instants are nanoseconds. *)

From S2P Require Import Prelude F32 QuadTree EntityStore ZoneIngest ZoneRegistry.

(** The serialization of a player's update. *)
Class UpdateCodec := encode_update : Z -> ClientStateUpdate -> option (list Z).

Definition HANDOFF_HOLD : Z := 50 * 1000000.

(** "baston.zone." and ".ingest". *)
Definition ingest_subject (zone : ZoneId) : list Z :=
  [98; 97; 115; 116; 111; 110; 46; 122; 111; 110; 101; 46] ++ zone ++ [46; 105; 110; 103; 101; 115; 116].

Inductive ForwardMsg :=
| Update (source : Z) (update : ClientStateUpdate)
| BeginHold (source : Z)
| FlushHold (source : Z)
| Dropped (source : Z).

(** The shard that owns every message about a player. *)
Definition shard (shards source : Z) : Z := source mod shards.

Record Shard := { holds : gmap Z (Z * list ClientStateUpdate); homed : gset Z }.

Definition shard_new : Shard := {| holds := ∅; homed := ∅ |}.

(** What a message leads to: an update is published to a zone's subject, or
    dropped for want of a zone or an encoding; the hold's timer is started; a
    zone is told to release a player. *)
Inductive Effect :=
| Published (source : Z) (update : ClientStateUpdate) (subject payload : list Z)
| Unrouted (source : Z) (update : ClientStateUpdate)
| Unencoded (source : Z) (update : ClientStateUpdate)
| FlushLater (source : Z)
| ReleasePlayer (zone : ZoneId) (source : Z).

(** The messages of a shard with the clock and the shared tables at each. *)
Abbreviation Input := (Z * ZoneRegistry * Router * ForwardMsg)%type.

Section shard.
Context {codec : UpdateCodec}.

Definition publish (t : Router) (source : Z) (u : ClientStateUpdate) : Effect :=
  match zone_of t source with
  | None => Unrouted source u
  | Some zone =>
      match encode_update source u with
      | None => Unencoded source u
      | Some payload => Published source u (ingest_subject zone) payload
      end
  end.

(** The re-homing of a player at its first update. *)
Definition rehome (r : ZoneRegistry) (source : Z) (u : ClientStateUpdate) (t : Router) : Router :=
  let '(x, y, _) := c_coords u in
  match find_zone_for_coords r x y with
  | Some correct => if bool_decide (zone_of t source = Some correct) then t else route_assign source correct t
  | None => t
  end.

Definition release_in_zone (r : ZoneRegistry) (source : Z) (t : Router) : Router * list Effect :=
  match zone_of t source with
  | None => (t, [])
  | Some zone =>
      ((route_remove source t).2, if contains_zone r zone then [ReleasePlayer zone source] else [])
  end.

Definition handle (now : Z) (r : ZoneRegistry) (t : Router) (msg : ForwardMsg) (s : Shard)
    : Shard * Router * list Effect :=
  match msg with
  | Update source u =>
      let t := if bool_decide (source ∈ homed s) then t else rehome r source u t in
      let s := {| holds := holds s; homed := {[source]} ∪ homed s |} in
      match holds s !! source with
      | Some (started, buf) =>
          if now - started <? HANDOFF_HOLD then
            ({| holds := <[source := (started, buf ++ [u])]> (holds s); homed := homed s |}, t, [])
          else
            ({| holds := delete source (holds s); homed := homed s |}, t,
             (publish t source <$> buf) ++ [publish t source u])
      | None => (s, t, [publish t source u])
      end
  | BeginHold source => ({| holds := <[source := (now, [])]> (holds s); homed := homed s |}, t, [FlushLater source])
  | FlushHold source =>
      match holds s !! source with
      | Some (_, buf) => ({| holds := delete source (holds s); homed := homed s |}, t, publish t source <$> buf)
      | None => (s, t, [])
      end
  | Dropped source =>
      let '(t, effects) := release_in_zone r source t in
      ({| holds := delete source (holds s); homed := homed s ∖ {[source]} |}, t, effects)
  end.

Fixpoint run (inputs : list Input) (s : Shard) : Shard * list Effect :=
  match inputs with
  | [] => (s, [])
  | (now, r, t, msg) :: rest =>
      let '(s1, _, effects) := handle now r t msg s in
      let '(s2, more) := run rest s1 in
      (s2, effects ++ more)
  end.

(** The updates of a player: those an effect disposes of, those a shard
    receives and those it holds back. *)
Definition disposed (p : Z) (e : Effect) : option ClientStateUpdate :=
  match e with
  | Published q u _ _ | Unrouted q u | Unencoded q u => if bool_decide (q = p) then Some u else None
  | _ => None
  end.

Definition received (p : Z) (i : Input) : option ClientStateUpdate :=
  match i with
  | (_, _, _, Update q u) => if bool_decide (q = p) then Some u else None
  | _ => None
  end.

Definition held (p : Z) (s : Shard) : list ClientStateUpdate := from_option snd [] (holds s !! p).

(** The messages that discard what is held for a player. *)
Definition discards (p : Z) (msg : ForwardMsg) : bool :=
  match msg with
  | BeginHold q | Dropped q => bool_decide (q = p)
  | _ => false
  end.

(** No update of the player is held when a hold begins or the player is dropped. *)
Fixpoint undisturbed (p : Z) (inputs : list Input) (s : Shard) : Prop :=
  match inputs with
  | [] => True
  | (now, r, t, msg) :: rest =>
      (discards p msg = true -> held p s = []) /\ undisturbed p rest (handle now r t msg s).1.1
  end.

Lemma disposed_publish p q t u :
  disposed p (publish t q u) = if bool_decide (q = p) then Some u else None.
Proof. by unfold publish; destruct (zone_of t q) as [z|]; [destruct (encode_update q u)|]. Qed.

Lemma disposed_publishes p q t us :
  omap (disposed p) (publish t q <$> us) = if bool_decide (q = p) then us else [].
Proof.
  induction us as [|u us IH]; [by case_bool_decide|].
  cbn. rewrite disposed_publish, IH. by case_bool_decide.
Qed.

Lemma disposed_released p r q t : omap (disposed p) (release_in_zone r q t).2 = [].
Proof. unfold release_in_zone. by destruct (zone_of t q); [cbn; destruct (contains_zone _ _)|]. Qed.

Lemma held_insert p q s0 b m hs :
  held p {| holds := <[q := (s0, b)]> m; homed := hs |} =
  if bool_decide (q = p) then b else from_option snd [] (m !! p).
Proof. unfold held; cbn [holds]. case_bool_decide; simplify_map_eq; done. Qed.

Lemma held_delete p q m hs :
  held p {| holds := delete q m; homed := hs |} =
  if bool_decide (q = p) then [] else from_option snd [] (m !! p).
Proof. unfold held; cbn [holds]. case_bool_decide; simplify_map_eq; done. Qed.

(** One message: what it disposes of, then what is still held. *)
Lemma handle_conserves now r t msg s p :
  let '(s', _, es) := handle now r t msg s in
  omap (disposed p) es ++ held p s' =
  if discards p msg then [] else held p s ++ from_option (fun u => [u]) [] (received p (now, r, t, msg)).
Proof.
  destruct msg as [q u|q|q|q]; cbn [handle discards received from_option].
  - destruct (holds s !! q) as [[started buf]|] eqn:E; cbn [holds homed].
    + rewrite E. destruct (now - started <? HANDOFF_HOLD).
      * rewrite held_insert. unfold held. case_bool_decide; [subst; by rewrite E|by rewrite ?app_nil_r].
      * rewrite held_delete, omap_app, disposed_publishes. cbn [omap list_omap].
        rewrite disposed_publish. unfold held.
        case_bool_decide; [subst; by rewrite E, ?app_nil_r|by rewrite ?app_nil_r].
    + rewrite E. cbn [omap list_omap]. rewrite disposed_publish. unfold held; cbn [holds].
      case_bool_decide; [subst; by rewrite E|by rewrite ?app_nil_r].
  - rewrite held_insert. unfold held. by case_bool_decide; [|rewrite ?app_nil_r].
  - destruct (holds s !! q) as [[started buf]|] eqn:E; [|by rewrite ?app_nil_r].
    rewrite held_delete, disposed_publishes. unfold held.
    case_bool_decide; [subst; by rewrite E|by rewrite ?app_nil_r].
  - destruct (release_in_zone r q t) as [t' es] eqn:E.
    assert (omap (disposed p) es = []) as -> by (by rewrite <- (disposed_released p r q t), E).
    rewrite held_delete. unfold held. by case_bool_decide; [|rewrite ?app_nil_r].
Qed.

Lemma run_cons i inputs s :
  run (i :: inputs) s =
  let '(now, r, t, msg) := i in
  ((run inputs (handle now r t msg s).1.1).1, (handle now r t msg s).2 ++ (run inputs (handle now r t msg s).1.1).2).
Proof.
  destruct i as [[[now r] t] msg]. cbn [run].
  destruct (handle now r t msg s) as [[s' t'] es]. cbn [fst snd]. by destruct (run inputs s').
Qed.

Lemma run_app i1 i2 s :
  run (i1 ++ i2) s = ((run i2 (run i1 s).1).1, (run i1 s).2 ++ (run i2 (run i1 s).1).2).
Proof.
  revert s. induction i1 as [|[[[now r] t] msg] i1 IH]; intros s.
  { cbn [app run fst snd]. by destruct (run i2 s). }
  cbn [app]. rewrite !run_cons, IH. cbn [fst snd]. by rewrite <- app_assoc.
Qed.

(** order. For each player the updates a shard disposes of, followed by
    those it still holds, are what it held and received, in that order, with
    nothing twice; and nothing is missing unless a hold began, or the player
    was dropped, while updates of the player were held. *)
Theorem forward_order p inputs s :
  let out := omap (disposed p) (run inputs s).2 ++ held p (run inputs s).1 in
  let came := held p s ++ omap (received p) inputs in
  sublist out came /\ (undisturbed p inputs s -> out = came).
Proof.
  cbv zeta. revert s. induction inputs as [|[[[now r] t] msg] inputs IH]; intros s.
  { cbn [run omap list_omap fst snd]. rewrite app_nil_r. by split. }
  rewrite run_cons. cbn [fst snd undisturbed]. rewrite omap_app, <- app_assoc.
  pose proof (handle_conserves now r t msg s p) as H.
  destruct (handle now r t msg s) as [[s' t'] es]. cbn [fst snd]. destruct (IH s') as [IH1 IH2].
  assert (Hr : omap (received p) ((now, r, t, msg) :: inputs) =
               from_option (fun u => [u]) [] (received p (now, r, t, msg)) ++ omap (received p) inputs)
    by (cbn [omap list_omap]; by destruct (received p _)).
  rewrite Hr, (app_assoc (held p s)). destruct (discards p msg) eqn:Ed.
  - apply app_eq_nil in H as [-> Hh]. rewrite Hh in IH1, IH2. cbn [app] in *. split.
    + etrans; [exact IH1|]. apply sublist_inserts_l. done.
    + intros [Hd Hu]. rewrite (IH2 Hu), (Hd eq_refl).
      by destruct msg; cbn [discards received] in *; [..|].
  - rewrite <- H, <- app_assoc. split; [by apply sublist_app|]. intros [_ Hu]. by rewrite (IH2 Hu).
Qed.

(** ** A hold *)

Definition held_update (p : Z) (now0 : Z) (i : Input) : Prop :=
  match i with (now, _, _, Update q _) => q = p /\ now - now0 < HANDOFF_HOLD | _ => False end.

Lemma run_holding p now0 inputs : forall buf s,
  holds s !! p = Some (now0, buf) -> Forall (held_update p now0) inputs ->
  (run inputs s).2 = [] /\ exists s', (run inputs s).1 = s' /\
    holds s' !! p = Some (now0, buf ++ omap (received p) inputs).
Proof.
  induction inputs as [|[[[now r] t] msg] inputs IH]; intros buf s Hs Hall.
  { cbn [run omap list_omap fst snd]. rewrite app_nil_r. eauto. }
  apply Forall_cons in Hall as [Hi Hall]. destruct msg as [q u|q|q|q]; try done. destruct Hi as [-> Hn].
  rewrite run_cons. cbn [handle holds]. rewrite Hs.
  assert (now - now0 <? HANDOFF_HOLD = true) as -> by lia. cbn [fst snd app].
  edestruct (IH (buf ++ [u])) as (-> & s' & -> & Hs'); [|done|].
  { cbn [holds]. by rewrite lookup_insert_eq. }
  split; [done|]. exists s'. split; [done|]. rewrite Hs'. cbn [omap list_omap received].
  by rewrite bool_decide_true, <- app_assoc.
Qed.

(** the hold around a handoff. The updates that arrive within the hold go
    nowhere until its timer fires, whatever the routing table says meanwhile;
    then all of them go, in order, to the zone the player is routed to at that
    moment, which is the handoff's target once it is committed. *)
Theorem hold_reaches_new_zone p now0 r0 t0 inputs now1 r1 t1 zone s :
  Forall (held_update p now0) inputs -> zone_of t1 p = Some zone ->
  (forall u, is_Some (encode_update p u)) ->
  (run ((now0, r0, t0, BeginHold p) :: inputs) s).2 = [FlushLater p] /\
  exists payloads,
    Forall2 (fun u b => encode_update p u = Some b) (omap (received p) inputs) payloads /\
    (run ((now0, r0, t0, BeginHold p) :: inputs ++ [(now1, r1, t1, FlushHold p)]) s).2 =
    FlushLater p :: zip_with (fun u b => Published p u (ingest_subject zone) b) (omap (received p) inputs) payloads.
Proof.
  intros Hall Hz He. rewrite !run_cons. cbn [handle fst snd app].
  set (s1 := {| holds := <[p := (now0, [])]> (holds s); homed := homed s |}).
  destruct (run_holding p now0 inputs [] s1) as (E & s' & Es & Hs'); [by cbn; rewrite lookup_insert_eq|done|].
  split; [by rewrite E|]. cbn [app] in Hs'.
  assert (Hf : (run (inputs ++ [(now1, r1, t1, FlushHold p)]) s1).2 = publish t1 p <$> omap (received p) inputs).
  { rewrite run_app, E, Es. cbn [app]. rewrite run_cons. cbn [handle]. rewrite Hs'. cbn [fst snd run]. by rewrite app_nil_r. }
  rewrite Hf. clear -Hz He. induction (omap (received p) inputs) as [|u us IH].
  - exists []. by split.
  - destruct IH as (bs & Hb & IH), (He u) as [b Hu]. exists (b :: bs). split; [by constructor|].
    cbn [fmap list_fmap zip_with]. injection IH as IH. rewrite IH. unfold publish. by rewrite Hz, Hu.
Qed.

(** the first update of a player is published to the zone that covers its
    position, which the routing table then names, whatever zone it was routed
    to before; no other player's route moves; a later update does not move it. *)
Theorem first_update_rehomes now r t p u s zone b :
  p ∉ homed s -> holds s !! p = None ->
  find_zone_for_coords r (c_coords u).1.1 (c_coords u).1.2 = Some zone -> encode_update p u = Some b ->
  let '(s', t', es) := handle now r t (Update p u) s in
  es = [Published p u (ingest_subject zone) b] /\ zone_of t' p = Some zone /\
  (forall q, q <> p -> zone_of t' q = zone_of t q) /\
  forall now' r' t'' u', (handle now' r' t'' (Update p u') s').1.2 = t''.
Proof.
  intros Hp Hs Hz He. cbn [handle]. rewrite bool_decide_eq_false_2 by done.
  cbn [holds homed]. rewrite Hs.
  assert (Hr : zone_of (rehome r p u t) p = Some zone /\ forall q, q <> p -> zone_of (rehome r p u t) q = zone_of t q).
  { unfold rehome. destruct (c_coords u) as [[x y] z]. cbn [fst snd] in Hz. rewrite Hz.
    case_bool_decide as Hd; [done|]. unfold zone_of, route_assign.
    split; [apply lookup_insert_eq|]. intros q Hq. by apply lookup_insert_ne. }
  destruct Hr as [Hr1 Hr2]. split; [unfold publish; by rewrite Hr1, He|]. do 2 (split; [done|]).
  intros now' r' t'' u'. cbn [homed holds]. rewrite bool_decide_eq_true_2 by set_solver. by rewrite Hs.
Qed.

(** a dropped player leaves nothing behind: no route, no hold, and its
    next update counts as the first; the zone it was routed to is told when
    the registry knows it, and nobody else's route moves. *)
Theorem dropped_forgets now r t p s :
  let '(s', t', es) := handle now r t (Dropped p) s in
  holds s' !! p = None /\ p ∉ homed s' /\ zone_of t' p = None /\
  (forall q, q <> p -> zone_of t' q = zone_of t q /\ holds s' !! q = holds s !! q /\ (q ∈ homed s' <-> q ∈ homed s)) /\
  (forall zone q, ReleasePlayer zone q ∈ es <-> q = p /\ zone_of t p = Some zone /\ contains_zone r zone = true).
Proof.
  cbn [handle]. unfold release_in_zone.
  assert (Hs : forall m : gmap Z (Z * list ClientStateUpdate), delete p m !! p = None) by (intros; apply lookup_delete_eq).
  assert (Ho : forall q, q <> p ->
    delete p (holds s) !! q = holds s !! q /\ (q ∈ homed s ∖ {[p]} <-> q ∈ homed s)).
  { intros q Hq. split; [by apply lookup_delete_ne|set_solver]. }
  destruct (zone_of t p) as [z|] eqn:Ez; cbn [holds homed].
  - do 2 (split; [first [apply Hs|set_solver]|]).
    split; [apply lookup_delete_eq|]. split.
    + intros q Hq. split; [by apply lookup_delete_ne|by apply Ho].
    + intros zone q. destruct (contains_zone r z) eqn:Ec.
      * rewrite list_elem_of_singleton. split; [intros [= -> ->]; done|intros (-> & [= ->] & _); done].
      * split; [by intros ?%elem_of_nil|intros (-> & [= ->] & H); congruence].
  - do 2 (split; [first [apply Hs|set_solver]|]). split; [done|]. split; [intros q Hq; by split; [|apply Ho]|].
    intros zone q. split; [by intros ?%elem_of_nil|by intros (_ & ? & _)].
Qed.
End shard.

(** ** Concrete runs: two zones, player 7 in the west *)

#[local] Instance tag_codec : UpdateCodec := fun source u => Some [source; c_model_hash u].

Definition tagged (n x : Z) : ClientStateUpdate :=
  {| c_entity_id := None; c_entity_type := Player; c_model_hash := n;
     c_coords := (f32_of_Z x, f32_zero, f32_zero); c_heading := f32_zero;
     c_velocity := (f32_zero, f32_zero, f32_zero); c_health := f32_of_Z 100; c_armour := f32_zero;
     c_extra := None |}.

Definition in_zone (zone : ZoneId) : Router := {[7 := zone]}.
Definition ms (n : Z) : Z := n * 1000000.
Definition shard7 : Shard := {| holds := ∅; homed := {[7]} |}.

Definition crossing : list Input :=
  [(ms 0, two_zones, in_zone zone_a, Update 7 (tagged 1 (-1)));
   (ms 1, two_zones, in_zone zone_a, BeginHold 7);
   (ms 2, two_zones, in_zone zone_a, Update 7 (tagged 2 1));
   (ms 3, two_zones, in_zone zone_b, Update 7 (tagged 3 2));
   (ms 56, two_zones, in_zone zone_b, FlushHold 7);
   (ms 60, two_zones, in_zone zone_b, Update 7 (tagged 4 3))].

Lemma forward_order_witness :
  omap (disposed 7) (run crossing shard_new).2 ++ held 7 (run crossing shard_new).1 =
  [tagged 1 (-1); tagged 2 1; tagged 3 2; tagged 4 3].
Proof.
  rewrite (proj2 (forward_order 7 crossing shard_new)); [vm_compute; reflexivity|].
  cbn [undisturbed crossing discards]. by repeat split; intros; vm_compute.
Defined.

Lemma hold_reaches_new_zone_witness :
  (run [(ms 1, two_zones, in_zone zone_a, BeginHold 7)] shard7).2 = [FlushLater 7] /\
  exists payloads, length payloads = 2%nat /\
  (run ([(ms 1, two_zones, in_zone zone_a, BeginHold 7); (ms 2, two_zones, in_zone zone_a, Update 7 (tagged 2 1));
         (ms 3, two_zones, in_zone zone_b, Update 7 (tagged 3 2)); (ms 56, two_zones, in_zone zone_b, FlushHold 7)])
       shard7).2 =
  FlushLater 7 :: zip_with (fun u b => Published 7 u (ingest_subject zone_b) b) [tagged 2 1; tagged 3 2] payloads.
Proof.
  split; [vm_compute; reflexivity|].
  destruct (hold_reaches_new_zone 7 (ms 1) two_zones (in_zone zone_a)
    [(ms 2, two_zones, in_zone zone_a, Update 7 (tagged 2 1)); (ms 3, two_zones, in_zone zone_b, Update 7 (tagged 3 2))]
    (ms 56) two_zones (in_zone zone_b) zone_b shard7) as (_ & bs & Hb & E).
  - by repeat constructor.
  - reflexivity.
  - intros u. by eexists.
  - exists bs. split; [symmetry; exact (Forall2_length _ _ _ Hb)|]. exact E.
Defined.

(** A player routed west who spawns in the east. *)
Lemma first_update_rehomes_witness :
  (handle 0 two_zones (in_zone zone_a) (Update 7 (tagged 1 5)) shard_new).2 =
  [Published 7 (tagged 1 5) (ingest_subject zone_b) [7; 1]].
Proof.
  pose proof (first_update_rehomes 0 two_zones (in_zone zone_a) 7 (tagged 1 5) shard_new zone_b [7; 1]) as H.
  destruct (handle 0 two_zones (in_zone zone_a) (Update 7 (tagged 1 5)) shard_new) as [[s' t'] es].
  apply H; [set_solver|reflexivity|vm_compute; reflexivity|reflexivity].
Defined.

(** a second handoff that commits within the first one's hold replaces it:
    the update held so far is gone for good, and the first hold's timer ends
    the second hold early. *)
Theorem overlapping_hold_loses :
  let early := [(ms 0, two_zones, in_zone zone_b, BeginHold 7); (ms 10, two_zones, in_zone zone_b, Update 7 (tagged 1 1))] in
  let again := [(ms 20, two_zones, in_zone zone_a, BeginHold 7); (ms 30, two_zones, in_zone zone_a, Update 7 (tagged 2 (-1)));
                (ms 55, two_zones, in_zone zone_a, FlushHold 7)] in
  let '(s, effects) := run (early ++ again) shard7 in
  ms 55 - ms 20 < HANDOFF_HOLD /\ holds s = ∅ /\ omap (disposed 7) effects = [tagged 2 (-1)].
Proof.
  cbv zeta. destruct (run _ shard7) as [s es] eqn:E. vm_compute in E. injection E as <- <-.
  split; [reflexivity|]. split; reflexivity.
Qed.
