(* ===== verification/StateBags.v ===== *)
(** * State bags and routing control of the script host
      (src/crates/baston-scripting/src/state_bag.rs)

    The process-wide store of script-visible values, its change handlers and
    its two bounded queues, and the routing-bucket assignments scripts make. A
    value is opaque JSON. The version of a write is drawn before the store's
    lock is taken, so [set] is given by its two halves. A VecDeque is a list,
    its front first; the order in which a hash map yields the handlers is an
    argument. *)

From S2P Require Import Prelude Decimal.

Definition MAX_PENDING_DELIVERIES_PER_RESOURCE : nat := Z.to_nat 4096.
Definition MAX_REPLICATED_CHANGES : nat := Z.to_nat 16384.

Abbreviation Name := (list Z).

Record StateBagSource := { src_resource : option Name; src_player : option Z }.

Definition source_resource (name : Name) : StateBagSource := {| src_resource := Some name; src_player := None |}.

Record Handler := { h_resource : Name; h_callback : Z; key_filter : option Name; bag_filter : option Name }.

Section store.
Context {Value : Type}.

Record StateBagChange := {
  bag : Name; key : Name; value : Value; version : Z; is_replicated : bool; source : StateBagSource
}.

Record StateBagDelivery := { callback_id : Z; change : StateBagChange }.

Record StateBagStore := {
  bags : gmap Name (gmap Name (Value * Z));
  handlers : gmap Z Handler;
  pending : gmap Name (list StateBagDelivery);
  replicated : list StateBagChange;
  next_version : Z;
  next_cookie : Z
}.

#[export] Instance StateBagStore_rebuild : Rebuild StateBagStore := fun s =>
  {| bags := bags s; handlers := handlers s; pending := pending s; replicated := replicated s;
     next_version := next_version s; next_cookie := next_cookie s |}.

Definition store_default : StateBagStore :=
  {| bags := ∅; handlers := ∅; pending := ∅; replicated := []; next_version := 0; next_cookie := 0 |}.

Definition ensure_bag (b : Name) (s : StateBagStore) : StateBagStore :=
  s <| bags := <[b := default ∅ (bags s !! b)]> (bags s) |>.

Definition get (s : StateBagStore) (b k : Name) : option Value :=
  bags s !! b ≫= fun values => fst <$> values !! k.

Definition contains_key (s : StateBagStore) (b k : Name) : bool := is_some (bags s !! b ≫= fun values => values !! k).

Definition keys (s : StateBagStore) (b : Name) : list Name :=
  match bags s !! b with Some values => sort_by bytes_leb (map_to_list values).*1 | None => [] end.

(** [next_version.fetch_add(1) + 1]. *)
Definition take_version (s : StateBagStore) : Z * StateBagStore :=
  (u64 (next_version s + 1), s <| next_version := u64 (next_version s + 1) |>).

Definition filter_admits (filter : option Name) (name : Name) : bool :=
  match filter with None => true | Some f => bool_decide (f = name) end.

Definition interested (c : StateBagChange) (h : Handler) : bool :=
  filter_admits (key_filter h) (key c) && filter_admits (bag_filter h) (bag c).

(** A bounded queue gives up its front for a new back. *)
Definition push_bounded {A} (cap : nat) (x : A) (queue : list A) : list A :=
  (if (cap <=? length queue)%nat then tail queue else queue) ++ [x].

Definition deliver (c : StateBagChange) (pending : gmap Name (list StateBagDelivery)) (h : Handler)
    : gmap Name (list StateBagDelivery) :=
  let queue := default [] (pending !! h_resource h) in
  <[h_resource h := push_bounded MAX_PENDING_DELIVERIES_PER_RESOURCE
                      {| callback_id := h_callback h; change := c |} queue]> pending.

Definition same_key (c d : StateBagChange) : bool := bool_decide (bag d = bag c) && bool_decide (key d = key c).

(** [rposition] then [remove]: the queue without the last entry that [p] holds of. *)
Fixpoint remove_last {A} (p : A -> bool) (queue : list A) : option (list A) :=
  match queue with
  | [] => None
  | x :: rest =>
      match remove_last p rest with
      | Some rest => Some (x :: rest)
      | None => if p x then Some rest else None
      end
  end.

Definition enqueue (c : StateBagChange) (queue : list StateBagChange) : list StateBagChange :=
  match remove_last (same_key c) queue with
  | Some queue => queue ++ [c]
  | None => push_bounded MAX_REPLICATED_CHANGES c queue
  end.

(** The part of [set] under the lock; [values] are the handlers as the map yields them. *)
Definition store_change (values : list Handler) (c : StateBagChange) (s : StateBagStore) : StateBagStore :=
  let s := s <| bags := <[bag c := <[key c := (value c, version c)]> (default ∅ (bags s !! bag c))]> (bags s) |> in
  let s := s <| pending := foldl (deliver c) (pending s) (List.filter (interested c) values) |> in
  if is_replicated c then s <| replicated := enqueue c (replicated s) |> else s.

Definition set_value (values : list Handler) (b k : Name) (v : Value) (repl : bool) (src : StateBagSource)
    (s : StateBagStore) : StateBagChange * StateBagStore :=
  let '(ver, s) := take_version s in
  let c := {| bag := b; key := k; value := v; version := ver; is_replicated := repl; source := src |} in
  (c, store_change values c s).

Definition normalize_filter (filter : option Name) : option Name :=
  filter ≫= fun f => if bool_decide (f = []) then None else Some f.

(** The loop of [add_handler]: cookie zero is skipped. *)
Definition take_cookie (s : StateBagStore) : Z * StateBagStore :=
  let c := u32 (next_cookie s + 1) in
  let c := if c =? 0 then 1 else c in
  (c, s <| next_cookie := c |>).

Definition add_handler (r : Name) (kf bf : option Name) (callback : Z) (s : StateBagStore) : Z * StateBagStore :=
  let '(cookie, s) := take_cookie s in
  (cookie, s <| handlers := <[cookie := {| h_resource := r; h_callback := callback;
                                           key_filter := normalize_filter kf; bag_filter := normalize_filter bf |}]>
                              (handlers s) |>).

Definition remove_handler (r : Name) (cookie : Z) (s : StateBagStore) : bool * StateBagStore :=
  match handlers s !! cookie with
  | Some h => if bool_decide (h_resource h = r) then (true, s <| handlers := delete cookie (handlers s) |>) else (false, s)
  | None => (false, s)
  end.

Definition drain_deliveries (r : Name) (limit : nat) (s : StateBagStore) : list StateBagDelivery * StateBagStore :=
  match pending s !! r with
  | None => ([], s)
  | Some queue =>
      let rest := drop limit queue in
      (take limit queue,
       s <| pending := if bool_decide (rest = []) then delete r (pending s) else <[r := rest]> (pending s) |>)
  end.

Definition drain_replicated (limit : nat) (s : StateBagStore) : list StateBagChange * StateBagStore :=
  (take limit (replicated s), s <| replicated := drop limit (replicated s) |>).

Definition cleanup_resource (r : Name) (s : StateBagStore) : StateBagStore :=
  s <| handlers := filter (fun kh => h_resource kh.2 <> r) (handlers s) |>
    <| pending := delete r (pending s) |>.

Definition remove_bag (b : Name) (s : StateBagStore) : StateBagStore := s <| bags := delete b (bags s) |>.
End store.
#[global] Arguments StateBagChange : clear implicits.
#[global] Arguments StateBagDelivery : clear implicits.
#[global] Arguments StateBagStore : clear implicits.

(** ** Names of the bags of entities and players *)

(** "entity:" and "player:". *)
Definition ENTITY_PREFIX : Name := [101; 110; 116; 105; 116; 121; 58].
Definition PLAYER_PREFIX : Name := [112; 108; 97; 121; 101; 114; 58].

Definition entity_state_bag_name (entity : Z) : Name := ENTITY_PREFIX ++ decimal entity.
Definition player_state_bag_name (player : Z) : Name := PLAYER_PREFIX ++ decimal player.
Definition parse_bag_id (name prefix : Name) : option Z := strip_prefix prefix name ≫= parse_u32.
Definition entity_from_state_bag_name (name : Name) : option Z := parse_bag_id name ENTITY_PREFIX.
Definition player_from_state_bag_name (name : Name) : option Z := parse_bag_id name PLAYER_PREFIX.

(** ** [InMemoryRoutingControl] *)

Module Routing.
Inductive RoutingLockdownMode := Inactive | Relaxed | Strict.

Definition to_ascii_lowercase (b : Z) : Z := if (65 <=? b) && (b <=? 90) then b + 32 else b.

(** "inactive", "relaxed" and "strict". *)
Definition parse (text : Name) : option RoutingLockdownMode :=
  let text := to_ascii_lowercase <$> text in
  if bool_decide (text = [105; 110; 97; 99; 116; 105; 118; 101]) then Some Inactive
  else if bool_decide (text = [114; 101; 108; 97; 120; 101; 100]) then Some Relaxed
  else if bool_decide (text = [115; 116; 114; 105; 99; 116]) then Some Strict
  else None.

Record RoutingControl := {
  entities : gmap Z Z; players : gmap Z Z; lockdown : gmap Z RoutingLockdownMode; population : gmap Z bool; revision : Z
}.

#[export] Instance RoutingControl_rebuild : Rebuild RoutingControl := fun r =>
  {| entities := entities r; players := players r; lockdown := lockdown r; population := population r;
     revision := revision r |}.

Definition new : RoutingControl :=
  {| entities := ∅; players := ∅; lockdown := ∅; population := ∅; revision := 0 |}.

Definition touch (r : RoutingControl) : RoutingControl := r <| revision := u64 (revision r + 1) |>.

Definition entity_bucket (r : RoutingControl) (e : Z) : Z := default 0 (entities r !! e).
Definition player_bucket (r : RoutingControl) (p : Z) : Z := default 0 (players r !! p).
Definition lockdown_mode (r : RoutingControl) (b : Z) : RoutingLockdownMode := default Inactive (lockdown r !! b).
Definition population_enabled (r : RoutingControl) (b : Z) : bool := default true (population r !! b).

Definition set_entity_bucket (e b : Z) (r : RoutingControl) : RoutingControl :=
  touch (r <| entities := if b =? 0 then delete e (entities r) else <[e := b]> (entities r) |>).
Definition remove_entity (e : Z) (r : RoutingControl) : RoutingControl :=
  touch (r <| entities := delete e (entities r) |>).
Definition set_player_bucket (p b : Z) (r : RoutingControl) : RoutingControl :=
  touch (r <| players := if b =? 0 then delete p (players r) else <[p := b]> (players r) |>).
Definition set_lockdown_mode (b : Z) (mode : RoutingLockdownMode) (r : RoutingControl) : RoutingControl :=
  touch (r <| lockdown := <[b := mode]> (lockdown r) |>).
Definition set_population_enabled (b : Z) (enabled : bool) (r : RoutingControl) : RoutingControl :=
  touch (r <| population := <[b := enabled]> (population r) |>).
End Routing.

(** ** The queues *)

Section queues.
Context {A : Type}.
Implicit Types q : list A.

Lemma push_bounded_length cap (x : A) q :
  (0 < cap)%nat -> (length q <= cap)%nat -> (length (push_bounded cap x q) <= cap)%nat.
Proof.
  intros Hc Hq. unfold push_bounded. rewrite length_app. cbn [length].
  destruct (Nat.leb_spec cap (length q)); [|lia]. destruct q; cbn [tail length] in *; lia.
Qed.

Lemma push_bounded_drop cap (x : A) q : (0 < cap)%nat -> (length q <= cap)%nat ->
  push_bounded cap x q = drop (length (q ++ [x]) - cap) (q ++ [x]).
Proof.
  intros Hc Hq. unfold push_bounded. rewrite length_app. cbn [length].
  destruct (Nat.leb_spec cap (length q)).
  - replace (length q + 1 - cap)%nat with 1%nat by lia. destruct q; [cbn in *; lia|done].
  - replace (length q + 1 - cap)%nat with 0%nat by lia. done.
Qed.

Lemma drop_app_drop n (l1 l2 : list A) : (n <= length l1)%nat -> drop n l1 ++ l2 = drop n (l1 ++ l2).
Proof. intros. rewrite drop_app. by replace (n - length l1)%nat with 0%nat by lia. Qed.

Lemma push_all_drop cap (xs : list A) : forall q, (0 < cap)%nat -> (length q <= cap)%nat ->
  foldl (fun q x => push_bounded cap x q) q xs = drop (length (q ++ xs) - cap) (q ++ xs).
Proof.
  induction xs as [|x xs IH]; intros q Hc Hq; cbn [foldl].
  { rewrite app_nil_r. by replace (length q - cap)%nat with 0%nat by lia. }
  rewrite IH by (done || by apply push_bounded_length).
  rewrite push_bounded_drop by done. set (n := (length (q ++ [x]) - cap)%nat).
  assert (Hn : (n <= length (q ++ [x]))%nat) by lia.
  rewrite drop_app_drop by done. rewrite length_drop, drop_drop, <- app_assoc. cbn [app]. f_equal.
  rewrite !length_app in *. cbn [length] in *. unfold n. rewrite length_app. cbn [length]. lia.
Qed.

Lemma remove_last_spec (p : A -> bool) q :
  match remove_last p q with
  | Some q' => exists l1 x l2, q = l1 ++ x :: l2 /\ q' = l1 ++ l2 /\ p x = true /\ Forall (fun y => p y = false) l2
  | None => Forall (fun y => p y = false) q
  end.
Proof.
  induction q as [|y q IH]; cbn [remove_last]; [constructor|].
  destruct (remove_last p q) as [q'|].
  - destruct IH as (l1 & x & l2 & -> & -> & Hx & Hl). by exists (y :: l1), x, l2.
  - destruct (p y) eqn:Ey; [|by constructor]. by exists [], y, q.
Qed.
End queues.

(** ** Change handlers *)

Section handlers.
Context {Value : Type}.
Implicit Types s : StateBagStore Value.
Implicit Types c : StateBagChange Value.

(** What one change adds to the queue of a resource. *)
Definition deliveries_to (r : Name) (values : list Handler) c : list (StateBagDelivery Value) :=
  (fun h => {| callback_id := h_callback h; change := c |}) <$>
  List.filter (fun h => interested c h && bool_decide (h_resource h = r)) values.

Lemma deliver_all r c hs : forall (m : gmap Name (list (StateBagDelivery Value))),
  default [] (foldl (deliver c) m hs !! r) =
  foldl (fun q d => push_bounded MAX_PENDING_DELIVERIES_PER_RESOURCE d q) (default [] (m !! r))
    ((fun h => {| callback_id := h_callback h; change := c |}) <$>
     List.filter (fun h => bool_decide (h_resource h = r)) hs).
Proof.
  induction hs as [|h hs IH]; intros m; [done|]. cbn [foldl List.filter]. rewrite IH. unfold deliver.
  case_bool_decide as Hr.
  - subst r. by rewrite lookup_insert_eq.
  - by rewrite lookup_insert_ne by done.
Qed.

Lemma filter_filter (p q : Handler -> bool) (l : list Handler) :
  List.filter p (List.filter q l) = List.filter (fun h => q h && p h) l.
Proof.
  induction l as [|h l IH]; [done|]. cbn [List.filter]. destruct (q h); cbn [List.filter andb]; by rewrite IH.
Qed.

Lemma store_change_pending values c s r :
  (length (default [] (pending s !! r)) <= MAX_PENDING_DELIVERIES_PER_RESOURCE)%nat ->
  let all := default [] (pending s !! r) ++ deliveries_to r values c in
  default [] (pending (store_change values c s) !! r) =
  drop (length all - MAX_PENDING_DELIVERIES_PER_RESOURCE) all.
Proof.
  intros Hlen. cbv zeta. assert (E : pending (store_change values c s) =
    foldl (deliver c) (pending s) (List.filter (interested c) values))
    by (unfold store_change; by destruct (is_replicated c)).
  rewrite E, deliver_all, filter_filter. unfold deliveries_to. apply push_all_drop; [|done].
  unfold MAX_PENDING_DELIVERIES_PER_RESOURCE. lia.
Qed.
End handlers.

(** ** The calls on a store, by any number of resources *)

Section calls.
Context {Value : Type}.
Implicit Types s : StateBagStore Value.
Implicit Types c : StateBagChange Value.

Inductive BagCall :=
| CEnsure (b : Name)
| CTakeVersion
| CStore (values : list Handler) (c : StateBagChange Value)
| CAddHandler (r : Name) (kf bf : option Name) (callback : Z)
| CRemoveHandler (r : Name) (cookie : Z)
| CDrainDeliveries (r : Name) (limit : nat)
| CDrainReplicated (limit : nat)
| CCleanup (r : Name)
| CRemoveBag (b : Name).

Definition bag_call s (call : BagCall) : StateBagStore Value :=
  match call with
  | CEnsure b => ensure_bag b s
  | CTakeVersion => (take_version s).2
  | CStore values c => store_change values c s
  | CAddHandler r kf bf callback => (add_handler r kf bf callback s).2
  | CRemoveHandler r cookie => (remove_handler r cookie s).2
  | CDrainDeliveries r limit => (drain_deliveries r limit s).2
  | CDrainReplicated limit => (drain_replicated limit s).2
  | CCleanup r => cleanup_resource r s
  | CRemoveBag b => remove_bag b s
  end.

(** The key of a change, and what a queue of changes makes of a remote copy. *)
Definition key_of c : Name * Name := (bag c, key c).
Definition replay (queue : list (StateBagChange Value)) (remote : gmap (Name * Name) Value) : gmap (Name * Name) Value :=
  foldl (fun m c => <[key_of c := value c]> m) remote queue.

Lemma same_key_spec c d : same_key c d = true <-> key_of d = key_of c.
Proof.
  unfold same_key, key_of. rewrite andb_true_iff, !bool_decide_eq_true. split; [by intros [-> ->]|by intros [= -> ->]].
Qed.

Lemma replay_other queue : forall remote k, k ∉ key_of <$> queue -> replay queue remote !! k = remote !! k.
Proof.
  induction queue as [|c queue IH]; intros remote k Hk; [done|]. cbn [fmap list_fmap] in Hk.
  apply not_elem_of_cons in Hk as [Hc Hk]. unfold replay in *. cbn [foldl]. rewrite IH by done.
  by apply lookup_insert_ne.
Qed.

Lemma replay_local queue remote remote' k : remote !! k = remote' !! k -> replay queue remote !! k = replay queue remote' !! k.
Proof.
  revert remote remote'. induction queue as [|c queue IH]; intros remote remote' H; [done|].
  unfold replay in *. cbn [foldl]. apply IH. destruct (decide (key_of c = k)) as [->|Hne].
  - by rewrite !lookup_insert_eq.
  - by rewrite !lookup_insert_ne.
Qed.

Lemma replay_app q1 q2 remote : replay (q1 ++ q2) remote = replay q2 (replay q1 remote).
Proof. apply foldl_app. Qed.

Record store_ok s : Prop := {
  one_per_key : NoDup (key_of <$> replicated s);
  replicated_bounded : (length (replicated s) <= MAX_REPLICATED_CHANGES)%nat;
  pending_bounded : forall r q, pending s !! r = Some q -> q <> [] /\ (length q <= MAX_PENDING_DELIVERIES_PER_RESOURCE)%nat;
  cookies_nonzero : handlers s !! 0 = None
}.

Lemma store_default_ok : store_ok store_default.
Proof. constructor; [constructor|apply Nat.le_0_l|done|done]. Qed.

Lemma Forall_not_same c queue : Forall (fun d => same_key c d = false) queue -> key_of c ∉ key_of <$> queue.
Proof.
  intros Hall Hin. apply list_elem_of_fmap in Hin as (d & Hd & Hin).
  rewrite Forall_forall in Hall. specialize (Hall d Hin).
  by rewrite (proj2 (same_key_spec c d) (eq_sym Hd)) in Hall.
Qed.

(** The queue after a change: the same keys but the evicted one, the change last. *)
Lemma enqueue_spec c queue : NoDup (key_of <$> queue) -> (length queue <= MAX_REPLICATED_CHANGES)%nat ->
  NoDup (key_of <$> enqueue c queue) /\ (length (enqueue c queue) <= MAX_REPLICATED_CHANGES)%nat /\
  forall remote k,
    replay (enqueue c queue) remote !! k =
    if bool_decide (k = key_of c) then Some (value c)
    else if bool_decide (key_of c ∉ key_of <$> queue /\ (MAX_REPLICATED_CHANGES <= length queue)%nat /\
                         key_of <$> head queue = Some k)
    then remote !! k else replay queue remote !! k.
Proof.
  intros Hnd Hlen. unfold enqueue. pose proof (remove_last_spec (same_key c) queue) as H.
  assert (Hlast : forall q remote, replay (q ++ [c]) remote = <[key_of c := value c]> (replay q remote))
    by (intros; by rewrite replay_app).
  destruct (remove_last (same_key c) queue) as [queue'|].
  - destruct H as (l1 & d & l2 & -> & -> & Hd & Hl). apply same_key_spec in Hd.
    rewrite fmap_app in Hnd. cbn [fmap list_fmap] in Hnd. rewrite Hd in Hnd.
    split; [|split].
    + rewrite fmap_app. cbn [fmap list_fmap]. rewrite <- Permutation_cons_append, fmap_app.
      by rewrite Permutation_middle.
    + rewrite !length_app in *. cbn [length] in *. lia.
    + intros remote k. rewrite Hlast. case_bool_decide as Hk; [by rewrite Hk, lookup_insert_eq|].
      rewrite bool_decide_eq_false_2.
      2:{ intros [Hn _]. apply Hn. rewrite fmap_app. cbn [fmap list_fmap]. rewrite Hd. set_solver. }
      rewrite lookup_insert_ne by done. rewrite !replay_app. cbn. apply replay_local.
      by rewrite Hd, lookup_insert_ne.
  - apply Forall_not_same in H. unfold push_bounded.
    destruct (Nat.leb_spec MAX_REPLICATED_CHANGES (length queue)) as [Hfull|Hroom].
    + destruct queue as [|d queue]; [unfold MAX_REPLICATED_CHANGES in Hfull; cbn [length] in Hfull; lia|]. cbn [tail head fmap list_fmap option_fmap option_map length] in *.
      apply not_elem_of_cons in H as [Hd H]. apply NoDup_cons in Hnd as [Hdq Hnd]. split; [|split].
      * rewrite fmap_app. cbn [fmap list_fmap]. rewrite <- Permutation_cons_append. by constructor.
      * rewrite length_app. cbn [length]. lia.
      * intros remote k. rewrite Hlast. case_bool_decide as Hk; [by rewrite Hk, lookup_insert_eq|].
        rewrite lookup_insert_ne by done. destruct (decide (key_of d = k)) as [Hdk|Hdk].
        -- rewrite bool_decide_eq_true_2. 2:{ rewrite not_elem_of_cons. split_and!; [done|done|lia|by f_equal]. }
           subst k. by apply replay_other.
        -- rewrite bool_decide_eq_false_2 by (intros (_ & _ & [= ?]); done).
           change (replay queue remote !! k = replay queue (<[key_of d := value d]> remote) !! k).
           apply replay_local. by rewrite lookup_insert_ne.
    + split; [|split].
      * rewrite fmap_app. cbn [fmap list_fmap]. rewrite <- Permutation_cons_append. by constructor.
      * rewrite length_app. cbn [length]. lia.
      * intros remote k. rewrite Hlast. case_bool_decide as Hk; [by rewrite Hk, lookup_insert_eq|].
        rewrite lookup_insert_ne by done. rewrite bool_decide_eq_false_2 by lia. done.
Qed.

Lemma deliver_nonempty hs c : forall (m : gmap Name (list (StateBagDelivery Value))) r q,
  (forall r q, m !! r = Some q -> q <> [] /\ (length q <= MAX_PENDING_DELIVERIES_PER_RESOURCE)%nat) ->
  foldl (deliver c) m hs !! r = Some q -> q <> [] /\ (length q <= MAX_PENDING_DELIVERIES_PER_RESOURCE)%nat.
Proof.
  induction hs as [|h hs IH]; intros m r q Hm; [apply Hm|]. cbn [foldl]. apply IH. clear r q.
  intros r q. unfold deliver. destruct (decide (h_resource h = r)) as [->|Hr].
  - rewrite lookup_insert_eq. intros [= <-]. split; [by intros ?%eq_sym%app_cons_not_nil|].
    apply push_bounded_length; [unfold MAX_PENDING_DELIVERIES_PER_RESOURCE; lia|].
    destruct (m !! r) as [q'|] eqn:E; [by apply (Hm r)|cbn; unfold MAX_PENDING_DELIVERIES_PER_RESOURCE; lia].
  - rewrite lookup_insert_ne by done. apply Hm.
Qed.

Lemma drop_store_ok l n s : store_ok s -> l = drop n (replicated s) ->
  NoDup (key_of <$> l) /\ (length l <= MAX_REPLICATED_CHANGES)%nat.
Proof.
  intros [Hnd Hb _ _] ->. split.
  - rewrite fmap_drop. eapply (sublist_NoDup _ (key_of <$> replicated s)); [done|apply sublist_drop].
  - rewrite length_drop. lia.
Qed.

Lemma bag_call_ok s call : store_ok s -> store_ok (bag_call s call).
Proof.
  intros Hs. pose proof Hs as [Hnd Hb Hp Hc].
  destruct call as [b| |values c|r kf bf cb|r cookie|r limit|limit|r|b]; cbn [bag_call]; try by constructor.
  - pose proof (enqueue_spec c (replicated s) Hnd Hb) as (H1 & H2 & _).
    unfold store_change. destruct (is_replicated c); constructor; try done; intros r q; cbn; by apply deliver_nonempty.
  - constructor; try done. cbn. rewrite lookup_insert_ne; [done|].
    destruct (Z.eqb_spec (u32 (next_cookie s + 1)) 0); lia.
  - unfold remove_handler. destruct (handlers s !! cookie) as [h|]; [|done]. case_bool_decide; [|done].
    constructor; try done. cbn. rewrite lookup_delete_None. by right.
  - unfold drain_deliveries. destruct (pending s !! r) as [q|] eqn:E; [|done]. cbn [snd].
    constructor; try done. intros r' q'. cbn. case_bool_decide as Hd.
    + rewrite lookup_delete_Some. intros [_ H]. by apply (Hp r').
    + destruct (decide (r = r')) as [->|Hr]; [|rewrite lookup_insert_ne by done; apply Hp].
      rewrite lookup_insert_eq. intros [= <-]. split; [done|]. rewrite length_drop. pose proof (Hp _ _ E). lia.
  - pose proof (drop_store_ok _ limit s Hs eq_refl) as [H1 H2]. by constructor.
  - constructor; try done; cbn.
    + intros r' q. rewrite lookup_delete_Some. intros [_ H]. by apply (Hp r').
    + apply map_lookup_filter_None. by left.
Qed.

(** ** Replication to a remote copy *)

(** [shadow] is the last replicated write of every key, [lost] the keys whose
    pending change was evicted from the full queue and not written since. *)
Record BagSystem := {
  sys : StateBagStore Value; remote : gmap (Name * Name) Value;
  shadow : gmap (Name * Name) Value; lost : gset (Name * Name)
}.

Definition system_new : BagSystem := {| sys := store_default; remote := ∅; shadow := ∅; lost := ∅ |}.

Definition evicted c (queue : list (StateBagChange Value)) : gset (Name * Name) :=
  if bool_decide (key_of c ∉ key_of <$> queue /\ (MAX_REPLICATED_CHANGES <= length queue)%nat)
  then match queue with d :: _ => {[key_of d]} | [] => ∅ end else ∅.

Definition system_call (σ : BagSystem) (call : BagCall) : BagSystem :=
  let s' := bag_call (sys σ) call in
  match call with
  | CStore values c =>
      if is_replicated c then
        {| sys := s'; remote := remote σ; shadow := <[key_of c := value c]> (shadow σ);
           lost := (lost σ ∪ evicted c (replicated (sys σ))) ∖ {[key_of c]} |}
      else {| sys := s'; remote := remote σ; shadow := shadow σ; lost := lost σ |}
  | CDrainReplicated limit =>
      {| sys := s'; remote := replay (drain_replicated limit (sys σ)).1 (remote σ); shadow := shadow σ; lost := lost σ |}
  | _ => {| sys := s'; remote := remote σ; shadow := shadow σ; lost := lost σ |}
  end.

Definition converging (σ : BagSystem) : Prop :=
  store_ok (sys σ) /\ forall k, k ∉ lost σ -> replay (replicated (sys σ)) (remote σ) !! k = shadow σ !! k.

Lemma bag_call_replicated s call :
  match call with CStore _ _ | CDrainReplicated _ => True | _ => replicated (bag_call s call) = replicated s end.
Proof.
  destruct call; cbn [bag_call]; try done.
  - unfold remove_handler. destruct (handlers s !! cookie); [case_bool_decide|]; done.
  - unfold drain_deliveries. by destruct (pending s !! r).
Qed.

Lemma store_change_replicated values c s :
  replicated (store_change values c s) = if is_replicated c then enqueue c (replicated s) else replicated s.
Proof. unfold store_change. by destruct (is_replicated c). Qed.

Lemma system_call_ok σ call : converging σ -> converging (system_call σ call).
Proof.
  intros [Hs Hk]. pose proof (bag_call_ok (sys σ) call Hs) as Hs'.
  pose proof (bag_call_replicated (sys σ) call) as Hr.
  destruct call as [b| |values c|r kf bf cb|r cookie|r limit|limit|r|b]; cbn [system_call];
    try (split; [exact Hs'|]; cbn [sys remote shadow lost]; by rewrite Hr).
  - pose proof (enqueue_spec c (replicated (sys σ)) (one_per_key _ Hs) (replicated_bounded _ Hs)) as (_ & _ & H).
    pose proof (store_change_replicated values c (sys σ)) as Eq.
    destruct (is_replicated c) eqn:Ec; (split; [exact Hs'|]); cbn [sys remote shadow lost bag_call] in *; rewrite Eq; [|done].
    intros k Hl. rewrite H. case_bool_decide as Hc; [subst; by rewrite lookup_insert_eq|].
    rewrite lookup_insert_ne by done. case_bool_decide as Hev.
    + destruct Hev as (Hn & Hfull & Hh). unfold evicted in Hl. rewrite bool_decide_eq_true_2 in Hl by done.
      destruct (replicated (sys σ)) as [|d q]; [done|]. apply (inj Some) in Hh. set_solver.
    + apply Hk. set_solver.
  - split; [exact Hs'|]. cbn [sys remote shadow lost bag_call drain_replicated fst snd]. intros k Hl.
    rewrite <- (Hk k Hl).
    change (replay (drop limit (replicated (sys σ))) (replay (take limit (replicated (sys σ))) (remote σ)) !! k =
            replay (replicated (sys σ)) (remote σ) !! k).
    by rewrite <- replay_app, take_drop.
Qed.

(** C15: replication. However the resources' calls and the network's drains
    interleave, both queues stay bounded with at most one pending change per
    key, and what has been drained plus what is pending makes the remote copy
    the last replicated write of every key but those whose pending change was
    evicted from the full queue and not written since; so once the queue is
    drained the copy is exact on all others. *)
Theorem replication_converges calls :
  let σ := foldl system_call system_new calls in
  (length (replicated (sys σ)) <= MAX_REPLICATED_CHANGES)%nat /\ NoDup (key_of <$> replicated (sys σ)) /\
  (forall r q, pending (sys σ) !! r = Some q -> (length q <= MAX_PENDING_DELIVERIES_PER_RESOURCE)%nat) /\
  forall k, k ∉ lost σ ->
    replay (replicated (sys σ)) (remote σ) !! k = shadow σ !! k /\
    (replicated (sys σ) = [] -> remote σ !! k = shadow σ !! k).
Proof.
  cbv zeta. assert (H : converging (foldl system_call system_new calls)).
  { assert (H0 : converging system_new).
    { split; [apply store_default_ok|done]. }
    revert H0. generalize system_new. induction calls as [|call calls IH]; intros σ H0; [done|].
    cbn [foldl]. by apply IH, system_call_ok. }
  destruct H as [Hs Hk]. split; [apply Hs|]. split; [apply Hs|]. split; [intros r q Hq; by apply (pending_bounded _ Hs r)|].
  intros k Hl. split; [by apply Hk|]. intros E. rewrite <- (Hk k Hl). by rewrite E.
Qed.

(** two writes of one key by concurrent resources: the version is drawn
    before the lock, so the write with the lower version can take the lock
    last. The store and the pending replication then hold the older version,
    and the newer one is gone from both. *)
Theorem racing_writes_regress s values1 values2 c1 c2 :
  store_ok s -> 0 <= next_version s < 2 ^ 64 - 2 -> key_of c1 = key_of c2 ->
  is_replicated c1 = true -> is_replicated c2 = true ->
  (let '(v1, s1) := take_version s in let '(v2, s2) := take_version s1 in
   version c1 = v1 /\ version c2 = v2 -> v1 < v2 /\
   let s3 := store_change values1 c1 (store_change values2 c2 s2) in
   get s3 (bag c1) (key c1) = Some (value c1) /\
   (bags s3 !! bag c1 ≫= fun m => m !! key c1) = Some (value c1, v1) /\
   forall d, d ∈ replicated s3 -> key_of d = key_of c1 -> d = c1).
Proof.
  intros Hs Hv Hk R1 R2. unfold take_version. cbn [fst snd next_version]. intros [V1 V2].
  set (s2 := (s <| next_version := _ |>) <| next_version := _ |>).
  assert (Hb : bags (store_change values1 c1 (store_change values2 c2 s2)) !! bag c1 ≫= (fun m => m !! key c1) =
               Some (value c1, version c1)).
  { unfold store_change at 1. rewrite R1. cbn. rewrite lookup_insert_eq. cbn. apply lookup_insert_eq. }
  split; [unfold u64; change (next_version (s <| next_version := _ |>)) with ((next_version s + 1) mod 2 ^ 64); zdm|].
  cbv zeta. split; [|split].
  - unfold get. destruct (bags _ !! bag c1) as [m|]; [|done]. cbn in *. by rewrite Hb.
  - by rewrite Hb, V1.
  - assert (Hs3 : store_ok (store_change values2 c2 s2)) by (apply (bag_call_ok s2 (CStore values2 c2)); by destruct Hs).
    destruct (enqueue_spec c1 _ (one_per_key _ Hs3) (replicated_bounded _ Hs3)) as (Hnd & _ & _).
    rewrite store_change_replicated, R1. intros d Hd Hkd.
    assert (Hc : c1 ∈ enqueue c1 (replicated (store_change values2 c2 s2))).
    { unfold enqueue. destruct (remove_last _ _); [|unfold push_bounded]; apply elem_of_app; right; by apply list_elem_of_singleton. }
    apply list_elem_of_lookup in Hd as [i Hi], Hc as [j Hj].
    assert (i = j) as ->; [|congruence].
    eapply NoDup_lookup; [exact Hnd| |]; rewrite list_lookup_fmap; [by rewrite Hi|by rewrite Hj; cbn; rewrite Hkd].
Qed.
End calls.

(** ** Delivery to handlers *)

(** a change is delivered once to every handler whose filters admit it,
    behind what its resource has not read yet and in the order of the writes;
    a full queue gives up its oldest deliveries. Reading takes the front.
    Stopping a resource removes its handlers and its queue and nobody else's. *)
Theorem change_delivered {Value} (s : StateBagStore Value) values c r limit :
  store_ok s -> values ≡ₚ (map_to_list (handlers s)).*2 ->
  let s' := store_change values c s in
  let all := default [] (pending s !! r) ++ deliveries_to r values c in
  let queue := drop (length all - MAX_PENDING_DELIVERIES_PER_RESOURCE) all in
  default [] (pending s' !! r) = queue /\
  (forall d, d ∈ deliveries_to r values c <->
     exists cookie h, handlers s !! cookie = Some h /\ h_resource h = r /\ interested c h = true /\
                      d = {| callback_id := h_callback h; change := c |}) /\
  (drain_deliveries r limit s').1 = take limit queue /\
  default [] (pending (drain_deliveries r limit s').2 !! r) = drop limit queue /\
  (forall r', let s'' := cleanup_resource r s' in
     pending s'' !! r' = (if bool_decide (r' = r) then None else pending s' !! r') /\
     forall cookie h, handlers s'' !! cookie = Some h <-> handlers s' !! cookie = Some h /\ h_resource h <> r).
Proof.
  intros Hs Hv. cbv zeta.
  assert (Hlen : (length (default [] (pending s !! r)) <= MAX_PENDING_DELIVERIES_PER_RESOURCE)%nat).
  { destruct (pending s !! r) as [q|] eqn:E; [by apply (pending_bounded _ Hs r)|cbn; lia]. }
  pose proof (store_change_pending values c s r Hlen) as Hq. cbv zeta in Hq. rewrite <- Hq.
  split; [done|]. split; [|split; [|split]].
  - intros d. unfold deliveries_to. rewrite list_elem_of_fmap. split.
    + intros (h & -> & Hh). apply list_elem_of_In, filter_In in Hh as [Hin Hf]. apply list_elem_of_In in Hin.
      rewrite Hv in Hin. apply list_elem_of_fmap in Hin as ([cookie h'] & -> & Hin). apply elem_of_map_to_list in Hin.
      apply andb_true_iff in Hf as [Hi Hr]. apply bool_decide_eq_true in Hr. by exists cookie, h'.
    + intros (cookie & h & Hh & Hr & Hi & ->). exists h. split; [done|]. apply list_elem_of_In, filter_In.
      split; [|by rewrite Hi, bool_decide_eq_true_2]. apply list_elem_of_In. rewrite Hv.
      apply list_elem_of_fmap. exists (cookie, h). by rewrite elem_of_map_to_list.
  - unfold drain_deliveries. destruct (pending (store_change values c s) !! r); [reflexivity|]. by destruct limit.
  - unfold drain_deliveries. destruct (pending (store_change values c s) !! r) as [q|] eqn:E; cbn [default fst snd from_option id].
    + cbn. case_bool_decide as Hd; [by rewrite lookup_delete_eq|by rewrite lookup_insert_eq].
    + rewrite E. by rewrite drop_nil.
  - intros r'. split.
    + cbn. case_bool_decide as Hr; [subst; apply lookup_delete_eq|by apply lookup_delete_ne].
    + intros cookie h. apply map_lookup_filter_Some.
Qed.

(** the bag of an entity or player is named so that its number is read
    back, for every 32-bit number, and no name serves both. *)
Theorem bag_names_round_trip n m : is_u 32 n -> is_u 32 m ->
  entity_from_state_bag_name (entity_state_bag_name n) = Some n /\
  player_from_state_bag_name (player_state_bag_name n) = Some n /\
  entity_from_state_bag_name (player_state_bag_name n) = None /\
  player_from_state_bag_name (entity_state_bag_name n) = None /\
  (entity_state_bag_name n = entity_state_bag_name m -> n = m).
Proof.
  intros Hn Hm. unfold entity_from_state_bag_name, player_from_state_bag_name, parse_bag_id,
    entity_state_bag_name, player_state_bag_name.
  rewrite !strip_prefix_app. cbn [mbind option_bind]. rewrite parse_u32_decimal by done.
  split_and!; try done. intros E. apply app_inv_head in E. by apply decimal_inj.
Qed.

Lemma bag_names_round_trip_witness :
  entity_from_state_bag_name (entity_state_bag_name 4294967295) = Some 4294967295.
Proof.
  assert (H : is_u 32 4294967295) by (unfold is_u; lia).
  exact (proj1 (bag_names_round_trip 4294967295 4294967295 H H)).
Defined.

(** ** Concrete stores *)

Definition by_script : StateBagSource := source_resource [97].
Definition write (k : Name) (v ver : Z) : StateBagChange Z :=
  {| bag := [98]; key := k; value := v; version := ver; is_replicated := true; source := by_script |}.

Definition listened : StateBagStore Z :=
  (add_handler [97] (Some [104]) (Some []) 7 (add_handler [99] None (Some [98]) 8 store_default).2).2.

Lemma listened_ok : store_ok listened.
Proof.
  apply (bag_call_ok _ (CAddHandler [97] (Some [104]) (Some []) 7)).
  apply (bag_call_ok _ (CAddHandler [99] None (Some [98]) 8)), store_default_ok.
Qed.

Lemma change_delivered_witness :
  default [] (pending (store_change ((map_to_list (handlers listened)).*2) (write [104] 5 1) listened) !! [97]) =
  [{| callback_id := 7; change := write [104] 5 1 |}].
Proof.
  etransitivity; [exact (proj1 (change_delivered listened _ (write [104] 5 1) [97] 1 listened_ok (reflexivity _)))|].
  vm_compute. reflexivity.
Defined.

Lemma racing_writes_regress_witness :
  let s2 := (take_version (take_version (@store_default Z)).2).2 in
  get (store_change [] (write [104] 1 1) (store_change [] (write [104] 2 2) s2)) [98] [104] = Some 1.
Proof.
  pose proof (racing_writes_regress store_default [] [] (write [104] 1 1) (write [104] 2 2)) as H.
  by apply H; [apply store_default_ok|..].
Defined.
