(* ===== verification/Kvp.v ===== *)
(** * Persistent key/value storage of resources (src/crates/baston-scripting/src/kvp.rs)

    The flat map of the values, the dirty flag and the file. The JSON encoding
    of the file is a library's; whether a write of the file succeeds is an
    argument, and one that fails leaves the previous snapshot, as the temporary
    file is renamed last. A flush claims the dirty flag, takes its snapshot and
    replaces the file in three separate moments, so it is given by its parts. *)

From Stdlib Require Import Sorting.Sorted.
From S2P Require Import Prelude Decimal.

Abbreviation Name := (list Z).

(** The file's object: resource to key to value. *)
Abbreviation ByResource := (gmap Name (gmap Name (list Z))).

Class KvpJson := {
  to_vec_pretty : ByResource -> option (list Z);
  from_str : list Z -> option ByResource
}.

(** What was written is read back. *)
Class KvpJsonLaws `{KvpJson} := json_round_trip : forall m b, to_vec_pretty m = Some b -> from_str b = Some m.

Definition SEPARATOR : Z := 0.

Definition flat_key (resource key : Name) : Name := resource ++ SEPARATOR :: key.

(** [str::split_once]. *)
Definition split_once (c : Z) (flat : Name) : option (Name * Name) :=
  (fun i => (take i flat, drop (S i) flat)) <$> find_byte c flat.

Definition resource_of (flat : Name) : option Name := fst <$> split_once SEPARATOR flat.
Definition key_of (flat : Name) : option Name := snd <$> split_once SEPARATOR flat.

(** [persistent]: whether there is a path. *)
Record KvpStore := { entries : gmap Name (list Z); persistent : bool; dirty : bool }.

#[export] Instance KvpStore_rebuild : Rebuild KvpStore := fun s =>
  {| entries := entries s; persistent := persistent s; dirty := dirty s |}.

Definition in_memory : KvpStore := {| entries := ∅; persistent := false; dirty := false |}.

Definition get (s : KvpStore) (resource key : Name) : option (list Z) := entries s !! flat_key resource key.

Definition keys_with_prefix (s : KvpStore) (resource prefix : Name) : list Name :=
  sort_by bytes_leb
    (omap key_of (List.filter (starts_with (flat_key resource prefix)) (map_to_list (entries s)).*1)).

Definition len (s : KvpStore) : nat := size (entries s).

(** The entries of a loaded file. *)
Definition load (by_resource : ByResource) : gmap Name (list Z) :=
  foldl (fun m rk => foldl (fun m kv => <[flat_key rk.1 kv.1 := kv.2]> m) m (map_to_list rk.2)) ∅
    (map_to_list by_resource).

(** The object written to the file. *)
Definition add_entry (m : ByResource) (fv : Name * list Z) : ByResource :=
  match resource_of fv.1, key_of fv.1 with
  | Some resource, Some key => <[resource := <[key := fv.2]> (default ∅ (m !! resource))]> m
  | _, _ => m
  end.

Definition grouped (snapshot : gmap Name (list Z)) : ByResource := foldl add_entry ∅ (map_to_list snapshot).

Section file.
Context `{KvpJson}.

(** [contents]: [None] when the file is missing or cannot be read. *)
Definition open (contents : option (list Z)) : KvpStore :=
  {| entries := match contents ≫= from_str with Some m => load m | None => ∅ end; persistent := true; dirty := false |}.

(** [write_to]: the new contents, or the failure that leaves the old ones. *)
Definition write_to (io : bool) (snapshot : gmap Name (list Z)) (disk : option (list Z)) : bool * option (list Z) :=
  match to_vec_pretty (grouped snapshot) with
  | None => (false, disk)
  | Some encoded => if io then (true, Some encoded) else (false, disk)
  end.

(** [dirty.swap(false)]: whether this flush is the one to write. *)
Definition claim (s : KvpStore) : bool * KvpStore :=
  if persistent s then (dirty s, s <| dirty := false |>) else (false, s <| dirty := false |>).

(** The write of the snapshot taken, and the flag raised again if it fails. *)
Definition finish_flush (io : bool) (snapshot : gmap Name (list Z)) (s : KvpStore) (disk : option (list Z))
    : KvpStore * option (list Z) :=
  let '(ok, disk) := write_to io snapshot disk in
  (if ok then s else s <| dirty := true |>, disk).

Definition flush (io : bool) (s : KvpStore) (disk : option (list Z)) : KvpStore * option (list Z) :=
  let '(mine, s) := claim s in
  if mine then finish_flush io (entries s) s disk else (s, disk).

Definition mark_dirty (io sync : bool) (s : KvpStore) (disk : option (list Z)) : KvpStore * option (list Z) :=
  let s := s <| dirty := true |> in
  if sync then flush io s disk else (s, disk).

Definition set_value (io : bool) (resource key : Name) (value : list Z) (sync : bool) (s : KvpStore)
    (disk : option (list Z)) : KvpStore * option (list Z) :=
  mark_dirty io sync (s <| entries := <[flat_key resource key := value]> (entries s) |>) disk.

Definition remove (io : bool) (resource key : Name) (sync : bool) (s : KvpStore) (disk : option (list Z))
    : KvpStore * option (list Z) :=
  mark_dirty io sync (s <| entries := delete (flat_key resource key) (entries s) |>) disk.
End file.

(** ** Flat keys *)

Definition nul_free (name : Name) : Prop := Forall (fun b => b <> SEPARATOR) name.

#[export] Instance nul_free_dec name : Decision (nul_free name).
Proof. unfold nul_free. apply _. Defined.

Lemma split_once_app c a b : Forall (fun x => x <> c) a -> split_once c (a ++ c :: b) = Some (a, b).
Proof.
  intros Ha. unfold split_once. rewrite find_byte_app by done. cbn [fmap option_fmap option_map].
  rewrite take_app_length. change (c :: b) with ([c] ++ b). rewrite app_assoc, drop_app_length'; [done|].
  rewrite length_app. cbn. lia.
Qed.

Lemma find_byte_spec c l i : find_byte c l = Some i ->
  l = take i l ++ c :: drop (S i) l /\ Forall (fun x => x <> c) (take i l).
Proof.
  revert i. induction l as [|x l IH]; intros i; cbn [find_byte]; [done|].
  destruct (Z.eqb_spec x c) as [->|Hx].
  - intros [= <-]. by split.
  - destruct (find_byte c l) as [j|]; [|done]. intros [= <-]. destruct (IH j eq_refl) as [E Ha].
    cbn [take drop app]. split; [by f_equal|by constructor].
Qed.

Lemma split_once_spec c l a b : split_once c l = Some (a, b) <-> l = a ++ c :: b /\ Forall (fun x => x <> c) a.
Proof.
  split; [|by intros [-> Ha]; apply split_once_app].
  unfold split_once. destruct (find_byte c l) as [i|] eqn:E; [|done]. intros [= <- <-]. by apply find_byte_spec.
Qed.

Lemma split_flat r k : nul_free r -> split_once SEPARATOR (flat_key r k) = Some (r, k).
Proof. apply split_once_app. Qed.

Lemma key_of_flat r k : nul_free r -> key_of (flat_key r k) = Some k.
Proof. intros. unfold key_of. by rewrite split_flat. Qed.

Lemma flat_key_inj r k r' k' : nul_free r -> nul_free r' -> flat_key r k = flat_key r' k' -> r = r' /\ k = k'.
Proof. intros Hr Hr' E. pose proof (split_flat r k Hr) as H. rewrite E, split_flat in H by done. by injection H as -> ->. Qed.

(** ** The file's object and the flat map *)

Definition lookup2 (m : ByResource) (r k : Name) : option (list Z) := m !! r ≫= fun keys => keys !! k.

Lemma add_entry_lookup m fv r k :
  lookup2 (add_entry m fv) r k = if bool_decide (nul_free r /\ fv.1 = flat_key r k) then Some fv.2 else lookup2 m r k.
Proof.
  unfold add_entry, resource_of, key_of. destruct (split_once SEPARATOR fv.1) as [[r' k']|] eqn:E; cbn [fmap option_fmap option_map fst snd].
  - apply split_once_spec in E as [E Hr']. fold (nul_free r') in Hr'. rewrite E. fold (flat_key r' k'). unfold lookup2.
    destruct (decide (r' = r)) as [->|Hr].
    + rewrite lookup_insert_eq. cbn [mbind option_bind]. destruct (decide (k' = k)) as [->|Hk].
      * by rewrite lookup_insert_eq, bool_decide_eq_true_2.
      * rewrite lookup_insert_ne by done. rewrite bool_decide_eq_false_2 by (intros [? ?%flat_key_inj]; naive_solver).
        by destruct (m !! r).
    + rewrite lookup_insert_ne by done. rewrite bool_decide_eq_false_2; [done|].
      intros [Hr2 H]. by apply flat_key_inj in H as [-> _].
  - rewrite bool_decide_eq_false_2; [done|]. intros [Hr H]. by rewrite H, split_flat in E.
Qed.

Lemma grouped_fold l r k : forall m, NoDup l.*1 ->
  lookup2 (foldl add_entry m l) r k =
  match (if bool_decide (nul_free r) then (list_to_map l : gmap Name (list Z)) !! flat_key r k else None) with
  | Some v => Some v
  | None => lookup2 m r k
  end.
Proof.
  induction l as [|[f v] l IH]; intros m Hnd; cbn [foldl fmap list_fmap] in *.
  { rewrite list_to_map_nil, lookup_empty. by case_bool_decide. }
  apply NoDup_cons in Hnd as [Hf Hnd]. rewrite IH, add_entry_lookup by done. cbn [fst snd].
  rewrite list_to_map_cons. destruct (bool_decide_reflect (nul_free r)) as [Hr|Hr].
  - destruct (decide (f = flat_key r k)) as [->|Hne].
    + rewrite lookup_insert_eq, bool_decide_eq_true_2 by done. by rewrite not_elem_of_list_to_map_1.
    + rewrite lookup_insert_ne by done. by rewrite bool_decide_eq_false_2 by naive_solver.
  - by rewrite bool_decide_eq_false_2 by naive_solver.
Qed.

Lemma grouped_lookup m r k :
  lookup2 (grouped m) r k = if bool_decide (nul_free r) then m !! flat_key r k else None.
Proof.
  unfold grouped. rewrite grouped_fold by apply NoDup_fst_map_to_list. rewrite list_to_map_to_list.
  unfold lookup2. rewrite lookup_empty. case_bool_decide; [by destruct (m !! _)|done].
Qed.

Lemma grouped_nul_free_fold l : forall m, (forall r, is_Some (m !! r) -> nul_free r) ->
  forall r, is_Some (foldl add_entry m l !! r) -> nul_free r.
Proof.
  induction l as [|fv l IH]; intros m Hm; [exact Hm|]. cbn [foldl]. apply IH. intros r. unfold add_entry, resource_of, key_of.
  destruct (split_once SEPARATOR fv.1) as [[r' k']|] eqn:E; cbn [fmap option_fmap option_map fst snd]; [|apply Hm].
  apply split_once_spec in E as [_ Hr']. destruct (decide (r' = r)) as [->|Hne]; [done|].
  rewrite lookup_insert_ne by done. apply Hm.
Qed.

Lemma grouped_nul_free m r : is_Some (grouped m !! r) -> nul_free r.
Proof. apply grouped_nul_free_fold. intros r'. rewrite lookup_empty. by intros [? [=]]. Qed.

Lemma load_keys r ks : forall (m : gmap Name (list Z)) f, nul_free r -> NoDup ks.*1 ->
  foldl (fun m kv => <[flat_key r kv.1 := kv.2]> m) m ks !! f =
  match split_once SEPARATOR f ≫= (fun rk => if bool_decide (rk.1 = r) then (list_to_map ks : gmap Name (list Z)) !! rk.2 else None) with
  | Some v => Some v
  | None => m !! f
  end.
Proof.
  induction ks as [|[k v] ks IH]; intros m f Hr Hnd; cbn [foldl fmap list_fmap] in *.
  { destruct (split_once SEPARATOR f) as [[r' k']|]; cbn; [by case_bool_decide|done]. }
  apply NoDup_cons in Hnd as [Hk Hnd]. rewrite IH by done. cbn [fst snd]. rewrite list_to_map_cons.
  destruct (split_once SEPARATOR f) as [[r' k']|] eqn:E; cbn [mbind option_bind fst snd].
  - apply split_once_spec in E as [-> Hr']. fold (flat_key r' k'). destruct (bool_decide_reflect (r' = r)) as [->|Hne].
    + destruct (decide (k = k')) as [->|Hkk].
      * rewrite !lookup_insert_eq. by rewrite not_elem_of_list_to_map_1.
      * rewrite (lookup_insert_ne (list_to_map ks)) by done. rewrite (lookup_insert_ne m); [done|].
        by intros []%flat_key_inj.
    + rewrite lookup_insert_ne; [done|]. by intros []%flat_key_inj.
  - rewrite lookup_insert_ne; [done|]. intros <-. by rewrite split_flat in E.
Qed.

Lemma load_resources rs : forall (m : gmap Name (list Z)) f, Forall nul_free rs.*1 -> NoDup rs.*1 ->
  foldl (fun m rk => foldl (fun m kv => <[flat_key rk.1 kv.1 := kv.2]> m) m (map_to_list rk.2)) m rs !! f =
  match split_once SEPARATOR f ≫= (fun rk => lookup2 (list_to_map rs) rk.1 rk.2) with
  | Some v => Some v
  | None => m !! f
  end.
Proof.
  induction rs as [|[r ks] rs IH]; intros m f Hall Hnd; cbn [foldl fmap list_fmap] in *.
  { unfold lookup2. rewrite list_to_map_nil. destruct (split_once SEPARATOR f); cbn; [by rewrite lookup_empty|done]. }
  apply NoDup_cons in Hnd as [Hr Hnd]. apply Forall_cons in Hall as [Hf Hall]. rewrite IH by done. cbn [fst snd].
  rewrite load_keys by (done || apply NoDup_fst_map_to_list). rewrite list_to_map_to_list.
  destruct (split_once SEPARATOR f) as [[r' k']|]; cbn [mbind option_bind fst snd]; [|done].
  unfold lookup2. rewrite list_to_map_cons. destruct (bool_decide_reflect (r' = r)) as [->|Hne].
  - rewrite lookup_insert_eq, (not_elem_of_list_to_map_1 rs) by done. cbn [mbind option_bind]. done.
  - by rewrite lookup_insert_ne by done.
Qed.

(** Every key of the flat map holds a separator. *)
Definition keyed (m : gmap Name (list Z)) : Prop := forall f, is_Some (m !! f) -> is_Some (split_once SEPARATOR f).

Lemma load_grouped m : keyed m -> load (grouped m) = m.
Proof.
  intros Hk. apply map_eq. intros f. unfold load. rewrite load_resources.
  - rewrite list_to_map_to_list. destruct (split_once SEPARATOR f) as [[r k]|] eqn:E; cbn [mbind option_bind fst snd].
    + apply split_once_spec in E as [-> Hr]. rewrite grouped_lookup, bool_decide_eq_true_2 by done.
      unfold flat_key. by destruct (m !! _).
    + rewrite lookup_empty. destruct (m !! f) as [v|] eqn:Ev; [|done].
      destruct (Hk f) as [? H]; [by rewrite Ev|]. by rewrite H in E.
  - apply Forall_forall. intros r Hr. apply list_elem_of_fmap in Hr as ([r' ks] & -> & Hr).
    apply elem_of_map_to_list in Hr. apply (grouped_nul_free m). by exists ks.
  - apply NoDup_fst_map_to_list.
Qed.

(** ** Durability *)

Section durable.
Context {json : KvpJson} {laws : KvpJsonLaws}.

Inductive KvpCall :=
| CSet (resource key : Name) (value : list Z) (sync io : bool)
| CRemove (resource key : Name) (sync io : bool)
| CFlush (io : bool).

Definition kvp_call (st : KvpStore * option (list Z)) (c : KvpCall) : KvpStore * option (list Z) :=
  match c with
  | CSet r k v sync io => set_value io r k v sync st.1 st.2
  | CRemove r k sync io => remove io r k sync st.1 st.2
  | CFlush io => flush io st.1 st.2
  end.

(** A clean store is what the file would load. *)
Record on_disk (st : KvpStore * option (list Z)) : Prop := {
  has_path : persistent st.1 = true;
  all_keyed : keyed (entries st.1);
  clean_saved : dirty st.1 = false -> entries (open st.2) = entries st.1
}.

Lemma keyed_empty : keyed ∅.
Proof. intros f. rewrite lookup_empty. by intros [? [=]]. Qed.

Lemma keyed_insert m r k v : keyed m -> keyed (<[flat_key r k := v]> m).
Proof.
  intros Hm f. destruct (decide (flat_key r k = f)) as [<-|Hf]; [|rewrite lookup_insert_ne by done; apply Hm].
  intros _. unfold split_once. rewrite fmap_is_Some. unfold flat_key. clear.
  induction r as [|b r IH]; cbn [app find_byte]; [rewrite Z.eqb_refl; eauto|].
  destruct (b =? SEPARATOR); [eauto|]. by apply fmap_is_Some.
Qed.

Lemma keyed_delete m f : keyed m -> keyed (delete f m).
Proof. intros Hm g [v Hg]. apply lookup_delete_Some in Hg as [_ Hg]. apply Hm. by exists v. Qed.

Lemma keyed_load m : keyed (load m).
Proof.
  unfold load. pose proof keyed_empty as Hempty. revert Hempty. generalize (∅ : gmap Name (list Z)). induction (map_to_list m) as [|[r ks] rs IH]; intros acc Hacc; [done|].
  cbn [foldl fst snd]. apply IH. revert acc Hacc. induction (map_to_list ks) as [|kv kvs IHk]; intros acc Hacc; [done|].
  cbn [foldl]. by apply IHk, keyed_insert.
Qed.

Lemma written_back m b : keyed m -> to_vec_pretty (grouped m) = Some b -> entries (open (Some b)) = m.
Proof. intros Hm Hb. cbn. rewrite (json_round_trip _ _ Hb). by apply load_grouped. Qed.

Lemma flush_effect io s disk : persistent s = true -> keyed (entries s) ->
  let '(s', disk') := flush io s disk in
  entries s' = entries s /\ persistent s' = true /\
  if dirty s then
    match to_vec_pretty (grouped (entries s)) with
    | Some b => if io then dirty s' = false /\ disk' = Some b /\ entries (open disk') = entries s
                else dirty s' = true /\ disk' = disk
    | None => dirty s' = true /\ disk' = disk
    end
  else dirty s' = false /\ disk' = disk.
Proof.
  intros Hp Hk. unfold flush, claim. rewrite Hp. destruct (dirty s) eqn:Ed; [|done].
  unfold finish_flush, write_to. cbn [entries].
  change (entries (s <| dirty := false |>)) with (entries s).
  destruct (to_vec_pretty (grouped (entries s))) as [b|] eqn:Eb; [|done].
  destruct io; [|done]. split; [done|]. split; [done|]. split; [done|]. split; [done|]. by apply written_back.
Qed.

Lemma flush_on_disk io s disk : on_disk (s, disk) -> on_disk (flush io s disk).
Proof.
  intros [Hp Hk Hc]. cbn [fst snd] in *. pose proof (flush_effect io s disk Hp Hk) as H.
  destruct (flush io s disk) as [s' disk']. destruct H as (He & Hp' & H). constructor; cbn [fst snd]; [done|by rewrite He|].
  rewrite He. destruct (dirty s) eqn:Ed; [|destruct H as [_ ->]; intros _; by apply Hc].
  destruct (to_vec_pretty _) as [b|]; [destruct io|]; destruct H as [Hd H]; [|by rewrite Hd..].
  intros _. by destruct H.
Qed.

Lemma mark_on_disk io sync s disk : persistent s = true -> keyed (entries s) -> on_disk (mark_dirty io sync s disk).
Proof.
  intros Hp Hk. unfold mark_dirty. assert (Ho : on_disk (s <| dirty := true |>, disk)) by by constructor.
  destruct sync; [by apply flush_on_disk|done].
Qed.

Lemma kvp_call_on_disk st c : on_disk st -> on_disk (kvp_call st c).
Proof.
  intros Ho. pose proof Ho as [Hp Hk _]. destruct st as [s disk], c as [r k v sync io|r k sync io|io]; cbn [kvp_call fst snd] in *.
  - apply mark_on_disk; [done|]. by apply keyed_insert.
  - apply mark_on_disk; [done|]. by apply keyed_delete.
  - by apply flush_on_disk.
Qed.

(** durability, for calls one after the other on a store opened on any
    file, missing and corrupt ones included: whenever the store is not dirty a
    restart loads exactly its entries; a synchronous write whose file operation
    succeeds leaves it so, with the value written; one that fails keeps every
    value in memory, the previous file, and the flag that makes the next flush
    try again. *)
Theorem writes_survive_restart contents calls r k v :
  let '(s, disk) := foldl kvp_call (open contents, contents) calls in
  (dirty s = false -> entries (open disk) = entries s) /\
  forall io, let '(s', disk') := set_value io r k v true s disk in
    entries s' = <[flat_key r k := v]> (entries s) /\
    (io = true -> is_Some (to_vec_pretty (grouped (entries s'))) ->
       dirty s' = false /\ entries (open disk') = entries s' /\ get (open disk') r k = Some v) /\
    (io = false -> dirty s' = true /\ disk' = disk).
Proof.
  assert (Ho : on_disk (foldl kvp_call (open contents, contents) calls)).
  { assert (H1 : on_disk (open contents, contents)).
    { constructor; [done| |done]. cbn. destruct (contents ≫= from_str); [apply keyed_load|apply keyed_empty]. }
    revert H1. generalize (open contents, contents). induction calls as [|c calls IH]; intros st H1; [done|].
    cbn [foldl]. by apply IH, kvp_call_on_disk. }
  destruct (foldl kvp_call _ calls) as [s disk]. destruct Ho as [Hp Hk Hc]. cbn [fst snd] in *. split; [done|].
  intros io. unfold set_value, mark_dirty.
  set (s1 := (s <| entries := _ |>) <| dirty := true |>).
  pose proof (flush_effect io s1 disk Hp (keyed_insert _ r k v Hk)) as H1.
  destruct (flush io s1 disk) as [s' disk']. destruct H1 as (He & _ & H1). change (dirty s1) with true in H1. cbn beta iota in H1.
  change (entries s1) with (<[flat_key r k := v]> (entries s)) in *. rewrite He. split; [done|].
  destruct (to_vec_pretty (grouped _)) as [b|]; (split; intros ->); [|by destruct H1 as (? & ?)|by intros [? [=]]|done].
  intros _. destruct H1 as (Hd & _ & Ho). split; [done|]. split; [done|]. unfold get. rewrite Ho. apply lookup_insert_eq.
Qed.

(** two flushes at once. The periodic flush has claimed the flag and taken
    its snapshot; a script's synchronous write goes through and returns; then
    the periodic flush replaces the file with its older snapshot. The value is
    not in the file, and as the store counts as clean no later flush puts it
    there. If the claim comes between the script's insertion and its flush,
    the write returns without the file having been touched at all. *)
Theorem racing_flushes_lose s disk r k v :
  persistent s = true -> dirty s = true -> keyed (entries s) -> nul_free r -> get s r k <> Some v ->
  (forall m, is_Some (to_vec_pretty m)) ->
  (let '(mine, s1) := claim s in
   let snapshot := entries s1 in
   let '(s2, disk2) := set_value true r k v true s1 disk in
   let '(s3, disk3) := finish_flush true snapshot s2 disk2 in
   mine = true /\ get (open disk2) r k = Some v /\
   get s3 r k = Some v /\ dirty s3 = false /\ get (open disk3) r k <> Some v /\
   forall io, flush io s3 disk3 = (s3, disk3)) /\
  (let s1 := (s <| entries := <[flat_key r k := v]> (entries s) |>) <| dirty := true |> in
   let '(mine, s2) := claim s1 in
   mine = true /\ forall io, (flush io s2 disk).2 = disk).
Proof.
  intros Hp Hd Hk Hr Hv Hj. unfold claim. change (persistent ((s <| entries := _ |>) <| dirty := true |>)) with (persistent s).
  rewrite Hp, Hd. split.
  - unfold set_value, mark_dirty. set (s1 := ((s <| dirty := false |>) <| entries := _ |>) <| dirty := true |>).
    pose proof (flush_effect true s1 disk Hp (keyed_insert _ r k v Hk)) as H1.
    destruct (flush true s1 disk) as [s2 disk2]. destruct H1 as (He & Hp2 & H1). change (dirty s1) with true in H1. cbn beta iota in H1.
    change (entries s1) with (<[flat_key r k := v]> (entries s)) in *.
    destruct (Hj (grouped (<[flat_key r k := v]> (entries s)))) as [b Hb]. rewrite Hb in H1. destruct H1 as (Hd2 & -> & Ho).
    unfold finish_flush, write_to. change (entries (s <| dirty := false |>)) with (entries s).
    destruct (Hj (grouped (entries s))) as [b' Hb']. rewrite Hb'.
    split; [done|]. unfold get. rewrite Ho, He. do 2 (split; [apply lookup_insert_eq|]). split; [done|].
    split; [by rewrite (written_back _ _ Hk Hb')|].
    intros io. unfold flush, claim. rewrite Hp2, Hd2. f_equal. by destruct s2; cbn in *; subst.
  - split; [done|]. intros io. unfold flush, claim. change (persistent (_ <| dirty := false |>)) with (persistent s). by rewrite Hp.
Qed.

(** a resource's search lists exactly its own keys that start with the
    prefix, in order. *)
Theorem prefix_search_exact s r prefix k :
  keyed (entries s) -> nul_free r ->
  (k ∈ keys_with_prefix s r prefix <-> starts_with prefix k = true /\ is_Some (get s r k)) /\
  Sorted (fun a b => bytes_leb a b) (keys_with_prefix s r prefix).
Proof.
  intros Hk Hr. split; [|apply sort_by_sorted, bytes_leb_total].
  unfold keys_with_prefix. rewrite sort_by_perm, list_elem_of_omap.
  assert (Hstarts : forall f, starts_with (flat_key r prefix) f = true <-> exists k, f = flat_key r k /\ starts_with prefix k = true).
  { intros f. unfold starts_with. destruct (strip_prefix (flat_key r prefix) f) as [rest|] eqn:E; cbn.
    - apply strip_prefix_spec in E as ->. split; [intros _|done]. exists (prefix ++ rest).
      split; [unfold flat_key; by rewrite <- app_assoc|by rewrite strip_prefix_app].
    - split; [done|]. intros (k' & -> & Hk'). destruct (strip_prefix prefix k') as [rest|] eqn:E'; [|done].
      apply strip_prefix_spec in E' as ->. unfold flat_key in E.
      change (r ++ SEPARATOR :: prefix ++ rest) with (r ++ (SEPARATOR :: prefix) ++ rest) in E.
      by rewrite app_assoc, strip_prefix_app in E. }
  split.
  - intros (f & Hf & Hkey). apply list_elem_of_In, filter_In in Hf as [Hin Hf]. apply list_elem_of_In in Hin.
    apply Hstarts in Hf as (k' & -> & Hk'). rewrite key_of_flat in Hkey by done. injection Hkey as ->. split; [done|].
    apply list_elem_of_fmap in Hin as ([f v] & E & Hin). cbn in E. subst f. apply elem_of_map_to_list in Hin. by exists v.
  - intros [Hp [v Hv]]. exists (flat_key r k). split; [|by apply key_of_flat]. apply list_elem_of_In, filter_In. split.
    + apply list_elem_of_In, list_elem_of_fmap. exists (flat_key r k, v). split; [done|]. by apply elem_of_map_to_list.
    + apply Hstarts. eauto.
Qed.
End durable.

(** ** Concrete runs *)

#[local] Instance code_json : KvpJson := {|
  to_vec_pretty m := Some [Zpos (encode m)];
  from_str b := match b with [Zpos p] => decode p | _ => None end
|}.

#[local] Instance code_json_laws : KvpJsonLaws.
Proof. intros m b [= <-]. apply decode_encode. Qed.

Definition bulk : list KvpCall := [CSet [97] [49] [1] false true; CSet [97] [50] [2] false true; CFlush false].

Lemma writes_survive_restart_witness :
  let '(s, disk) := foldl kvp_call (open (Some [-1]), Some [-1]) bulk in
  dirty s = true /\
  let '(s', disk') := set_value true [97] [51] [3] true s disk in
  get (open disk') [97] [51] = Some [3] /\ dirty s' = false.
Proof.
  pose proof (writes_survive_restart (Some [-1]) bulk [97] [51] [3]) as H.
  destruct (foldl kvp_call _ bulk) as [s disk] eqn:E. destruct H as [_ H]. specialize (H true).
  split; [by vm_compute in E; injection E as <- <-|].
  destruct (set_value true [97] [51] [3] true s disk) as [s' disk']. destruct H as (_ & H & _).
  destruct (H eq_refl (mk_is_Some _ _ eq_refl)) as (? & _ & ?). by split.
Defined.

Definition half_saved : KvpStore := (set_value true [97] [49] [1] false (open None) None).1.

Lemma half_saved_keyed : keyed (entries half_saved).
Proof. apply (keyed_insert ∅), keyed_empty. Qed.

Lemma racing_flushes_lose_witness :
  let '(_, s1) := claim half_saved in
  let '(s2, disk2) := set_value true [97] [49] [2] true s1 None in
  let '(s3, disk3) := finish_flush true (entries s1) s2 disk2 in
  get s3 [97] [49] = Some [2] /\ get (open disk3) [97] [49] <> Some [2] /\ dirty s3 = false.
Proof.
  pose proof half_saved_keyed as Hk.
  assert (Hr : nul_free [97]) by (apply (bool_decide_unpack _); vm_compute; exact I).
  assert (Hg : get half_saved [97] [49] <> Some [2]) by (vm_compute; discriminate).
  pose proof (proj1 (racing_flushes_lose half_saved None [97] [49] [2] eq_refl eq_refl Hk Hr Hg
    (fun m => mk_is_Some _ _ (eq_refl (Some [Zpos (encode m)]))))) as H.
  change (claim half_saved) with (true, half_saved <| dirty := false |>). cbv beta iota zeta in H |- *.
  destruct (set_value true [97] [49] [2] true _ None) as [s2 disk2].
  destruct (finish_flush true _ s2 disk2) as [s3 disk3]. destruct H as (_ & _ & ? & ? & ? & _). by split_and!.
Defined.

Lemma prefix_search_exact_witness : [49] ∈ keys_with_prefix half_saved [97] [49].
Proof.
  apply (prefix_search_exact half_saved [97] [49] [49]).
  - exact half_saved_keyed.
  - apply (bool_decide_unpack _). vm_compute. exact I.
  - split; [vm_compute; reflexivity|]. exists [1]. vm_compute. reflexivity.
Defined.
