(* ===== verification/EntityWorld.v ===== *)
(** * The scripts' view of the networked world
      (src/crates/baston-scripting/src/entity_world.rs and
      src/crates/baston-gateway/src/world_control.rs)

    The mirror published once per sync tick, with its seat indices, and the
    reservation of network ids for entities that scripts create. Scripts read
    the mirror without a lock while it is being published, so the publication
    is given by its steps. A dashmap is a finite map. *)

From Stdlib Require Import Sorting.Sorted.
From S2P Require Import Prelude F32 SyncParse.

Inductive ScriptEntityType := Ped | Vehicle | Object.

#[export] Instance ScriptEntityType_eq_dec : EqDecision ScriptEntityType.
Proof. solve_decision. Defined.

Definition as_native (t : ScriptEntityType) : Z := match t with Ped => 1 | Vehicle => 2 | Object => 3 end.

Record EntitySummary := {
  network_id : Z; owner : Z; entity_type : ScriptEntityType; position : vec3; velocity : vec3;
  routing_bucket : Z; health : option f32; max_health : option f32; armour : option f32; model : option Z;
  net_type : Z; first_owner : Z; heading : option f32; desired_heading : option f32; sync : EntityNodeState
}.

Definition SEAT_INDEX_BIAS : Z := 2.

Record Entry := { summary : EntitySummary; entry_revision : Z }.

Record EntityWorldView := {
  entities : gmap Z Entry; revision : Z; player_peds : gmap Z Z; occupants : gmap Z Z; last_occupants : gmap Z Z
}.

#[export] Instance EntityWorldView_rebuild : Rebuild EntityWorldView := fun v =>
  {| entities := entities v; revision := revision v; player_peds := player_peds v; occupants := occupants v;
     last_occupants := last_occupants v |}.

Definition view_new : EntityWorldView :=
  {| entities := ∅; revision := 0; player_peds := ∅; occupants := ∅; last_occupants := ∅ |}.

Definition seat_key (vehicle raw_seat : Z) : option Z :=
  if bool_decide (is_u 8 raw_seat) then Some (Z.lor (Z.shiftl vehicle 8) raw_seat) else None.

(** [u32::try_from(state.cur_vehicle)] of an i32. *)
Definition current_seat (ped : EntitySummary) : option Z :=
  ns_ped_game_state (sync ped) ≫= fun state =>
    if cur_vehicle state <? 0 then None else seat_key (cur_vehicle state) (cur_vehicle_seat state).

Definition left_seat (ped : EntitySummary) : option Z :=
  last_vehicle (sync ped) ≫= fun vehicle => last_vehicle_seat (sync ped) ≫= fun seat => seat_key vehicle seat.

Definition index_occupancy (ped : EntitySummary) (v : EntityWorldView) : EntityWorldView :=
  let v := match current_seat ped with
    | Some key => v <| occupants := <[key := network_id ped]> (occupants v) |>
                    <| last_occupants := <[key := network_id ped]> (last_occupants v) |>
    | None => v
    end in
  match left_seat ped with
  | Some key => match last_occupants v !! key with
                | Some _ => v
                | None => v <| last_occupants := <[key := network_id ped]> (last_occupants v) |>
                end
  | None => v
  end.

(** The steps of [publish]: the new revision and the cleared indices; one
    entity; the pruning. *)
Definition begin_publish (v : EntityWorldView) : EntityWorldView :=
  v <| revision := u64 (revision v + 1) |> <| player_peds := ∅ |> <| occupants := ∅ |>.

Definition publish_one (rev : Z) (v : EntityWorldView) (s : EntitySummary) : EntityWorldView :=
  let v := if bool_decide (entity_type s = Ped)
    then index_occupancy s (v <| player_peds := <[owner s := network_id s]> (player_peds v) |>)
    else v in
  v <| entities := <[network_id s := {| summary := s; entry_revision := rev |}]> (entities v) |>.

Definition prune (rev : Z) (v : EntityWorldView) : EntityWorldView :=
  v <| entities := filter (fun ie => entry_revision ie.2 = rev) (entities v) |>.

Definition publish (world : list EntitySummary) (v : EntityWorldView) : EntityWorldView :=
  let v := begin_publish v in
  prune (revision v) (foldl (publish_one (revision v)) v world).

Definition occupant (v : EntityWorldView) (vehicle script_seat : Z) : option Z :=
  seat_key vehicle (i32 (script_seat + SEAT_INDEX_BIAS)) ≫= fun key => occupants v !! key.
Definition last_occupant (v : EntityWorldView) (vehicle script_seat : Z) : option Z :=
  seat_key vehicle (i32 (script_seat + SEAT_INDEX_BIAS)) ≫= fun key => last_occupants v !! key.

Definition get (v : EntityWorldView) (id : Z) : option EntitySummary := summary <$> entities v !! id.
Definition exists_entity (v : EntityWorldView) (id : Z) : bool := is_some (entities v !! id).
Definition owner_of (v : EntityWorldView) (id : Z) : option Z := owner <$> get v id.
Definition player_ped (v : EntityWorldView) (player : Z) : option Z := player_peds v !! player.
Definition ids_of_type (v : EntityWorldView) (t : ScriptEntityType) : list Z :=
  sort_by Z.leb
    (network_id <$> List.filter (fun s => bool_decide (entity_type s = t)) ((fun ie => summary ie.2) <$> map_to_list (entities v))).
Definition view_len (v : EntityWorldView) : nat := size (entities v).

(** ** Entities that scripts create *)

Inductive WorldCommand :=
| Spawn (network_id : Z) (entity_type : ScriptEntityType) (model : Z) (position : vec3) (heading : f32) (dynamic : bool)
| Despawn (network_id : Z).

Definition COMMAND_CAPACITY : nat := Z.to_nat 4096.

(** [GatewayWorldControl]: the pending commands and the next id. *)
Record WorldControl := { queue : list WorldCommand; next_id : Z }.

#[export] Instance WorldControl_rebuild : Rebuild WorldControl := fun c => {| queue := queue c; next_id := next_id c |}.

Definition control_new (max_object_id : Z) : WorldControl := {| queue := []; next_id := max_object_id |}.

Definition reserve_network_id (c : WorldControl) : option Z * WorldControl :=
  if 0 <? next_id c then (Some (next_id c), c <| next_id := next_id c - 1 |>) else (None, c).

Definition submit (command : WorldCommand) (c : WorldControl) : WorldControl :=
  if (length (queue c) <? COMMAND_CAPACITY)%nat then c <| queue := queue c ++ [command] |> else c.

(** ** What a publication leaves *)

(** Every entry is of the last generation and under its own id. *)
Record view_ok (v : EntityWorldView) : Prop := {
  generation : forall id e, entities v !! id = Some e -> entry_revision e = revision v /\ network_id (summary e) = id;
  revision_u64 : is_u 64 (revision v)
}.

Definition is_ped (s : EntitySummary) : bool := bool_decide (entity_type s = Ped).
Definition peds_of (p : Z) (world : list EntitySummary) : list EntitySummary :=
  List.filter (fun s => is_ped s && (owner s =? p)) world.
Definition seated (key : Z) (world : list EntitySummary) : list EntitySummary :=
  List.filter (fun s => is_ped s && bool_decide (current_seat s = Some key)) world.
Definition departed (key : Z) (world : list EntitySummary) : list EntitySummary :=
  List.filter (fun s => is_ped s && bool_decide (left_seat s = Some key)) world.

(** The later of two optional readings. *)
Definition or_else {A} (o d : option A) : option A := match o with Some _ => o | None => d end.

Lemma or_else_assoc {A} (a b c : option A) : or_else (or_else a b) c = or_else a (or_else b c).
Proof. by destruct a. Qed.

Lemma last_cons_or {A} (x : A) l : last (x :: l) = or_else (last l) (Some x).
Proof. destruct l as [|y l]; [done|]. rewrite last_cons_cons. by destruct (last (y :: l)) eqn:E; [|apply last_None in E]. Qed.

Lemma seat_key_inj vehicle seat vehicle' seat' key : 0 <= vehicle -> 0 <= vehicle' ->
  seat_key vehicle seat = Some key -> seat_key vehicle' seat' = Some key -> vehicle = vehicle' /\ seat = seat'.
Proof.
  unfold seat_key. intros Hv Hv'. do 2 case_bool_decide; try done. intros [= <-] [= E].
  rewrite !(Z.lor_comm (Z.shiftl _ _)), !lor_shiftl_add in E by (lia || done). unfold is_u in *. lia.
Qed.

Lemma index_occupancy_fields s v :
  entities (index_occupancy s v) = entities v /\ revision (index_occupancy s v) = revision v /\
  player_peds (index_occupancy s v) = player_peds v.
Proof. unfold index_occupancy. destruct (current_seat s), (left_seat s); cbn; try destruct (_ !! _); done. Qed.

Lemma index_occupancy_seats s v key :
  occupants (index_occupancy s v) !! key =
    (if bool_decide (current_seat s = Some key) then Some (network_id s) else occupants v !! key) /\
  last_occupants (index_occupancy s v) !! key =
    (if bool_decide (current_seat s = Some key) then Some (network_id s)
     else or_else (last_occupants v !! key) (if bool_decide (left_seat s = Some key) then Some (network_id s) else None)).
Proof.
  unfold index_occupancy. set (v1 := match current_seat s with Some _ => _ | None => v end).
  assert (H1 : occupants v1 !! key = (if bool_decide (current_seat s = Some key) then Some (network_id s) else occupants v !! key) /\
               last_occupants v1 !! key = (if bool_decide (current_seat s = Some key) then Some (network_id s) else last_occupants v !! key)).
  { unfold v1. destruct (current_seat s) as [k|]; [|by rewrite bool_decide_eq_false_2].
    cbn. destruct (decide (k = key)) as [->|Hk].
    - by rewrite bool_decide_eq_true_2, !lookup_insert_eq.
    - rewrite bool_decide_eq_false_2 by congruence. by rewrite !lookup_insert_ne. }
  clearbody v1. destruct H1 as [H1 H2]. destruct (left_seat s) as [k|].
  - destruct (last_occupants v1 !! k) as [p|] eqn:Ek; cbn [occupants last_occupants].
    + split; [done|]. rewrite H2. case_bool_decide; [done|].
      destruct (last_occupants v !! key) eqn:E; cbn; [done|].
      rewrite bool_decide_eq_false_2; [done|]. intros [= ->]. congruence.
    + split; [exact H1|]. change (<[k := network_id s]> (last_occupants v1) !! key = if bool_decide (current_seat s = Some key)
        then Some (network_id s) else or_else (last_occupants v !! key) (if bool_decide (Some k = Some key) then Some (network_id s) else None)).
      destruct (decide (k = key)) as [->|Hk].
      * rewrite lookup_insert_eq, (bool_decide_eq_true_2 (Some key = Some key)) by done.
        case_bool_decide; [done|]. rewrite Ek in H2. by rewrite <- H2.
      * rewrite lookup_insert_ne, H2, (bool_decide_eq_false_2 (Some k = Some key)) by congruence.
        case_bool_decide; [done|]. by destruct (last_occupants v !! key).
  - split; [done|]. rewrite H2, (bool_decide_eq_false_2 (None = Some key)) by done.
    case_bool_decide; [done|]. by destruct (last_occupants v !! key).
Qed.

Lemma publish_one_fields rev v s key p :
  entities (publish_one rev v s) = <[network_id s := {| summary := s; entry_revision := rev |}]> (entities v) /\
  revision (publish_one rev v s) = revision v /\
  player_peds (publish_one rev v s) !! p = or_else (network_id <$> last (peds_of p [s])) (player_peds v !! p) /\
  occupants (publish_one rev v s) !! key = or_else (network_id <$> last (seated key [s])) (occupants v !! key) /\
  last_occupants (publish_one rev v s) !! key =
    or_else (network_id <$> last (seated key [s])) (or_else (last_occupants v !! key) (network_id <$> head (departed key [s]))).
Proof.
  unfold publish_one, peds_of, seated, departed. cbn [List.filter]. fold (is_ped s). destruct (is_ped s) eqn:Ep; cbn [andb].
  - set (v1 := v <| player_peds := _ |>). pose proof (index_occupancy_fields s v1) as (E & R & P).
    pose proof (index_occupancy_seats s v1 key) as [O L]. cbn [entities revision player_peds occupants last_occupants] in *.
    split; [by cbn; rewrite E|]. split; [by cbn; rewrite R|]. split.
    { change (player_peds (index_occupancy s v1) !! p = or_else (network_id <$> last (if owner s =? p then [s] else [])) (player_peds v !! p)).
      rewrite P. unfold v1. cbn. destruct (Z.eqb_spec (owner s) p) as [->|Hp]; [by rewrite lookup_insert_eq|by rewrite lookup_insert_ne]. }
    split.
    + change (occupants (index_occupancy s v1) !! key = or_else (network_id <$> last (if bool_decide (current_seat s = Some key) then [s] else [])) (occupants v !! key)).
      rewrite O. by case_bool_decide.
    + change (last_occupants (index_occupancy s v1) !! key =
        or_else (network_id <$> last (if bool_decide (current_seat s = Some key) then [s] else []))
          (or_else (last_occupants v !! key) (network_id <$> head (if bool_decide (left_seat s = Some key) then [s] else [])))).
      rewrite L. change (last_occupants v1) with (last_occupants v). case_bool_decide; [done|]. by case_bool_decide.
  - split_and!; try done. cbn. by destruct (last_occupants v !! key).
Qed.

Lemma last_app_or {A} (a b : list A) : last (a ++ b) = or_else (last b) (last a).
Proof.
  induction b as [|x b IH] using rev_ind; [by rewrite app_nil_r|]. by rewrite app_assoc, !last_snoc.
Qed.

Lemma head_app_or {A} (a b : list A) : head (a ++ b) = or_else (head a) (head b).
Proof. by destruct a. Qed.

Lemma fmap_or_else {A B} (f : A -> B) (a b : option A) : f <$> or_else a b = or_else (f <$> a) (f <$> b).
Proof. by destruct a. Qed.

Definition with_id (id : Z) (world : list EntitySummary) : list EntitySummary :=
  List.filter (fun s => network_id s =? id) world.

Lemma filter_cons_app {A} (f : A -> bool) (x : A) l : List.filter f (x :: l) = List.filter f [x] ++ List.filter f l.
Proof. cbn. by destruct (f x). Qed.

Lemma publish_fold rev world : forall v id p key,
  let v' := foldl (publish_one rev) v world in
  entities v' !! id = or_else ((fun s => {| summary := s; entry_revision := rev |}) <$> last (with_id id world)) (entities v !! id) /\
  revision v' = revision v /\
  player_peds v' !! p = or_else (network_id <$> last (peds_of p world)) (player_peds v !! p) /\
  occupants v' !! key = or_else (network_id <$> last (seated key world)) (occupants v !! key) /\
  last_occupants v' !! key =
    or_else (network_id <$> last (seated key world)) (or_else (last_occupants v !! key) (network_id <$> head (departed key world))).
Proof.
  induction world as [|s world IH]; intros v id p key; cbv zeta.
  { cbn [foldl]. split_and!; try done. by destruct (last_occupants v !! key). }
  cbn [foldl]. destruct (IH (publish_one rev v s) id p key) as (-> & -> & -> & -> & ->).
  destruct (publish_one_fields rev v s key p) as (-> & -> & -> & -> & ->).
  unfold with_id, peds_of, seated, departed. rewrite !(filter_cons_app _ s world), !last_app_or, head_app_or, !fmap_or_else, !or_else_assoc.
  split_and!; try done. f_equal. cbn [List.filter]. destruct (Z.eqb_spec (network_id s) id) as [->|Hne].
  - by rewrite lookup_insert_eq.
  - by rewrite lookup_insert_ne.
Qed.

Lemma last_with_id world id s : NoDup (network_id <$> world) ->
  last (with_id id world) = Some s <-> s ∈ world /\ network_id s = id.
Proof.
  intros Hnd. split.
  - intros H. apply last_Some_elem_of, list_elem_of_In, filter_In in H as [Hin He]. split; [by apply list_elem_of_In|lia].
  - intros [Hin <-]. unfold with_id. induction world as [|x world IH]; [by apply elem_of_nil in Hin|].
    cbn [fmap list_fmap] in Hnd. apply NoDup_cons in Hnd as [Hx Hnd]. rewrite filter_cons_app, last_app_or.
    apply elem_of_cons in Hin as [->|Hin].
    + assert (List.filter (fun s => network_id s =? network_id x) world = []) as ->.
      { destruct (List.filter _ world) as [|y l] eqn:E; [done|]. exfalso. apply Hx.
        assert (Hy : y ∈ List.filter (fun s => network_id s =? network_id x) world) by (rewrite E; by left).
        apply list_elem_of_In, filter_In in Hy as [Hy Heq]. apply list_elem_of_fmap. exists y. split; [lia|by apply list_elem_of_In]. }
      cbn [List.filter or_else last]. by rewrite Z.eqb_refl.
    + rewrite IH by done. done.
Qed.

Lemma prune_lookup rev v id :
  entities (prune rev v) !! id =
  entities v !! id ≫= fun e => if bool_decide (entry_revision e = rev) then Some e else None.
Proof.
  change (entities (prune rev v)) with (filter (fun ie : Z * Entry => entry_revision ie.2 = rev) (entities v)).
  rewrite map_lookup_filter. destruct (entities v !! id) as [e|]; [|done]. cbn [mbind option_bind].
  case_guard; case_bool_decide; done.
Qed.

Lemma publish_entities v world id : view_ok v ->
  revision (publish world v) = u64 (revision v + 1) /\
  entities (publish world v) !! id =
    (fun s => {| summary := s; entry_revision := u64 (revision v + 1) |}) <$> last (with_id id world).
Proof.
  intros [Hg Hr]. unfold publish. destruct (publish_fold (u64 (revision v + 1)) world (begin_publish v) id 0 0) as (He & Hv & _).
  split; [exact Hv|]. change (revision (begin_publish v)) with (u64 (revision v + 1)). rewrite prune_lookup, He.
  destruct (last (with_id id world)) as [s|]; cbn [fmap option_fmap option_map or_else mbind option_bind].
  - by rewrite bool_decide_eq_true_2.
  - change (entities (begin_publish v)) with (entities v). destruct (entities v !! id) as [e|] eqn:E; [|done].
    cbn [mbind option_bind]. destruct (Hg id e E) as [-> _]. rewrite bool_decide_eq_false_2; [done|].
    unfold u64, is_u in *. zdm.
Qed.

Lemma publish_ok v world : view_ok v -> view_ok (publish world v).
Proof.
  intros Hv. constructor.
  - intros id e He. destruct (publish_entities v world id Hv) as [Hr E]. rewrite Hr. rewrite E in He.
    destruct (last (with_id id world)) as [s|] eqn:El; [|done]. injection He as <-. split; [done|]. cbn.
    apply last_Some_elem_of, list_elem_of_In, filter_In in El as [_ El]. lia.
  - rewrite (proj1 (publish_entities v world 0 Hv)). by apply (is_u_mod 64).
Qed.

Lemma view_new_ok : view_ok view_new.
Proof. constructor; [done|]. by apply is_u_0. Qed.

(** The mirror after any number of publications. *)
Definition after (worlds : list (list EntitySummary)) : EntityWorldView := foldl (fun v w => publish w v) view_new worlds.

Lemma after_ok worlds : view_ok (after worlds).
Proof.
  unfold after. generalize view_new view_new_ok. induction worlds as [|w worlds IH]; intros v Hv; [done|].
  cbn [foldl]. by apply IH, publish_ok.
Qed.

Lemma view_world worlds world id : NoDup (network_id <$> world) ->
  forall s, get (publish world (after worlds)) id = Some s <-> s ∈ world /\ network_id s = id.
Proof.
  intros Hnd s. unfold get. rewrite (proj2 (publish_entities _ world id (after_ok worlds))), <- (last_with_id world id s Hnd).
  destruct (last (with_id id world)) as [x|]; cbn; naive_solver.
Qed.

(** the mirror is exact. After any publications, the last one alone
    decides what scripts see: an entity exists, with the summary published, if
    and only if it is in that world, and the list of a class holds exactly its
    handles, ascending. *)
Theorem publish_exact worlds world : NoDup (network_id <$> world) ->
  let v := publish world (after worlds) in
  (forall id s, get v id = Some s <-> s ∈ world /\ network_id s = id) /\
  (forall id, exists_entity v id = bool_decide (id ∈ network_id <$> world)) /\
  forall t, Sorted (fun a b => Z.leb a b) (ids_of_type v t) /\
    forall id, id ∈ ids_of_type v t <-> exists s, s ∈ world /\ entity_type s = t /\ network_id s = id.
Proof.
  intros Hnd. cbv zeta. pose proof (fun id => view_world worlds world id Hnd) as H. split; [done|]. split.
  - intros id. unfold exists_entity. specialize (H id). unfold get in H.
    destruct (entities _ !! id) as [e|]; cbn in *; symmetry.
    + apply bool_decide_eq_true. destruct (proj1 (H (summary e)) eq_refl) as [Hin He]. apply list_elem_of_fmap. by exists (summary e).
    + apply bool_decide_eq_false. intros (s & -> & Hin)%list_elem_of_fmap. by discriminate (proj2 (H s) (conj Hin eq_refl)).
  - intros t. split; [apply sort_by_sorted; lia|]. intros id. unfold ids_of_type. rewrite sort_by_perm, list_elem_of_fmap. split.
    + intros (s & -> & Hs). apply list_elem_of_In, filter_In in Hs as [Hs Ht]. apply bool_decide_eq_true in Ht.
      apply list_elem_of_In, list_elem_of_fmap in Hs as ([i e] & -> & Hs). apply elem_of_map_to_list in Hs. cbn [snd].
      destruct (generation _ (publish_ok _ world (after_ok worlds)) i e Hs) as [_ Hi].
      exists (summary e). destruct (proj1 (H i (summary e))) as [Hin _]; [unfold get; by rewrite Hs|]. done.
    + intros (s & Hin & Ht & Hi). exists s. split; [done|]. apply list_elem_of_In, filter_In.
      split; [|by apply bool_decide_eq_true]. apply list_elem_of_In, list_elem_of_fmap.
      pose proof (proj2 (H id s) (conj Hin Hi)) as Hg. unfold get in Hg. destruct (entities _ !! id) as [e|] eqn:E; [|done].
      injection Hg as <-. exists (id, e). split; [done|]. by apply elem_of_map_to_list.
Qed.

(** The ped's own report: it sits in the vehicle, on the seat as scripts number them. *)
Definition sits (s : EntitySummary) (vehicle seat : Z) : Prop :=
  exists st, ns_ped_game_state (sync s) = Some st /\ cur_vehicle st = vehicle /\ cur_vehicle_seat st = seat + SEAT_INDEX_BIAS.

Lemma script_seat_key vehicle seat : -2 <= seat <= 253 ->
  i32 (seat + SEAT_INDEX_BIAS) = seat + SEAT_INDEX_BIAS /\
  seat_key vehicle (seat + SEAT_INDEX_BIAS) = Some (Z.lor (Z.shiftl vehicle 8) (seat + SEAT_INDEX_BIAS)).
Proof.
  intros Hs. unfold SEAT_INDEX_BIAS. split; [unfold i32; zdm|].
  unfold seat_key. rewrite bool_decide_eq_true_2; [done|unfold is_u; lia].
Qed.

Lemma sits_spec s vehicle seat : 0 <= vehicle -> -2 <= seat <= 253 ->
  current_seat s = Some (Z.lor (Z.shiftl vehicle 8) (seat + SEAT_INDEX_BIAS)) <-> sits s vehicle seat.
Proof.
  intros Hv Hs. destruct (script_seat_key vehicle seat Hs) as [_ Hk].
  unfold current_seat, sits. destruct (ns_ped_game_state (sync s)) as [st|]; cbn [mbind option_bind].
  - destruct (Z.ltb_spec (cur_vehicle st) 0) as [Hneg|Hpos].
    + split; [done|]. intros (st' & [= <-] & Hv' & _). lia.
    + split.
      * intros E. destruct (seat_key_inj _ _ _ _ _ Hpos Hv E Hk) as [Ha Hb]. by exists st.
      * intros (st' & [= <-] & <- & Hc). by rewrite Hc.
  - split; [done|]. by intros (? & ? & _).
Qed.

Lemma prune_fields rev v :
  player_peds (prune rev v) = player_peds v /\ occupants (prune rev v) = occupants v /\
  last_occupants (prune rev v) = last_occupants v.
Proof. done. Qed.

Lemma publish_indices worlds world p vehicle seat : -2 <= seat <= 253 ->
  let key := Z.lor (Z.shiftl vehicle 8) (seat + SEAT_INDEX_BIAS) in
  let v := publish world (after worlds) in
  player_ped v p = network_id <$> last (peds_of p world) /\
  occupant v vehicle seat = network_id <$> last (seated key world) /\
  last_occupant v vehicle seat =
    or_else (network_id <$> last (seated key world))
      (or_else (last_occupant (after worlds) vehicle seat) (network_id <$> head (departed key world))).
Proof.
  intros Hs. cbv zeta. unfold player_ped, occupant, last_occupant. destruct (script_seat_key vehicle seat Hs) as [-> ->].
  cbn [mbind option_bind]. set (key := Z.lor _ _). set (v0 := begin_publish (after worlds)).
  destruct (publish_fold (revision v0) world v0 0 p key) as (_ & _ & Hp & Ho & Hl).
  unfold publish. fold v0. destruct (prune_fields (revision v0) (foldl (publish_one (revision v0)) v0 world)) as (-> & -> & ->).
  rewrite Hp, Ho, Hl.
  change (player_peds v0) with (∅ : gmap Z Z). change (occupants v0) with (∅ : gmap Z Z).
  change (last_occupants v0) with (last_occupants (after worlds)).
  rewrite !lookup_empty. split; [by destruct (last _)|]. split; [by destruct (last (seated _ _))|done].
Qed.

(** seats. After any publications, a seat's occupant is a ped of the last
    world that reports sitting there, and there is none when no ped does; a
    seat in use is also the seat's last use, and a seat nobody uses keeps the
    last ped that did for as long as the server runs, whatever became of the
    ped and of the vehicle. *)
Theorem seats_exact worlds world vehicle seat : 0 <= vehicle -> -2 <= seat <= 253 ->
  let v := publish world (after worlds) in
  match occupant v vehicle seat with
  | Some id => (exists s, s ∈ world /\ is_ped s = true /\ network_id s = id /\ sits s vehicle seat) /\
               last_occupant v vehicle seat = Some id
  | None => (forall s, s ∈ world -> is_ped s = true -> ~ sits s vehicle seat) /\
            forall id, last_occupant (after worlds) vehicle seat = Some id -> last_occupant v vehicle seat = Some id
  end.
Proof.
  intros Hv Hs. cbv zeta. destruct (publish_indices worlds world 0 vehicle seat Hs) as (_ & -> & ->).
  set (key := Z.lor _ _).
  assert (Hin : forall s, s ∈ seated key world <-> s ∈ world /\ is_ped s = true /\ sits s vehicle seat).
  { intros s. unfold seated. rewrite list_elem_of_In, filter_In, <- list_elem_of_In, andb_true_iff, bool_decide_eq_true.
    unfold key. by rewrite (sits_spec s vehicle seat Hv Hs). }
  destruct (last (seated key world)) as [s|] eqn:E; cbn [fmap option_fmap option_map or_else].
  - apply last_Some_elem_of, Hin in E as (H1 & H2 & H3). split; [by exists s|done].
  - apply last_None in E. split.
    + intros s H1 H2 H3. assert (H : s ∈ seated key world) by by apply Hin. rewrite E in H. by apply elem_of_nil in H.
    + intros id ->. done.
Qed.

(** [GetPlayerPed] answers with the last published ped that the player
    owns, and a client owns every ped it simulates: with a pedestrian [npc]
    published after the player's own ped, it is the pedestrian. *)
Theorem player_ped_any_ped worlds world own npc p :
  let own_first := world ++ [own; npc] in let npc_first := world ++ [npc; own] in
  is_ped own = true -> is_ped npc = true -> owner own = p -> owner npc = p ->
  player_ped (publish own_first (after worlds)) p = Some (network_id npc) /\
  player_ped (publish npc_first (after worlds)) p = Some (network_id own).
Proof.
  cbv zeta. intros H1 H2 H3 H4.
  rewrite !(proj1 (publish_indices worlds _ p 0 0 ltac:(lia))). unfold peds_of. rewrite !List.filter_app, !last_app_or.
  cbn [List.filter]. by rewrite H1, H2, H3, H4, Z.eqb_refl.
Qed.

(** scripts read without the lock. While a world is being published, a
    player whose ped the publication has not reached yet has no ped, though it
    has one in the world before and in the world after. *)
Theorem torn_read worlds before_ published rest p :
  Forall (fun s => is_ped s = true -> owner s <> p) published ->
  let v := publish before_ (after worlds) in
  player_ped (foldl (publish_one (u64 (revision v + 1))) (begin_publish v) published) p = None /\
  (Exists (fun s => is_ped s = true /\ owner s = p) before_ -> is_Some (player_ped v p)) /\
  (Exists (fun s => is_ped s = true /\ owner s = p) rest -> is_Some (player_ped (publish (published ++ rest) v) p)).
Proof.
  intros Hall. cbv zeta.
  assert (Hsome : forall worlds world, Exists (fun s => is_ped s = true /\ owner s = p) world ->
    is_Some (player_ped (publish world (after worlds)) p)).
  { intros ws w Hex. rewrite (proj1 (publish_indices ws w p 0 0 ltac:(lia))), fmap_is_Some.
    destruct (last (peds_of p w)) as [s|] eqn:E; [by eexists|]. apply last_None in E.
    apply Exists_exists in Hex as (s & Hin & H1 & H2). exfalso. apply (not_elem_of_nil s). rewrite <- E.
    apply list_elem_of_In, filter_In. rewrite H1, H2, Z.eqb_refl. split; [by apply list_elem_of_In|done]. }
  split; [|split].
  - destruct (publish_fold (u64 (revision (publish before_ (after worlds)) + 1)) published
      (begin_publish (publish before_ (after worlds))) 0 p 0) as (_ & _ & Hp & _).
    unfold player_ped. rewrite Hp. change (player_peds (begin_publish _)) with (∅ : gmap Z Z). rewrite lookup_empty.
    destruct (last (peds_of p published)) as [s|] eqn:E; [|done].
    apply last_Some_elem_of, list_elem_of_In, filter_In in E as [Hin Hf]. apply andb_true_iff in Hf as [H1 H2].
    rewrite Forall_forall in Hall. destruct (Hall s); [by apply list_elem_of_In|done|lia].
  - apply Hsome.
  - intros Hex. specialize (Hsome (worlds ++ [before_]) (published ++ rest)). unfold after in Hsome.
    rewrite foldl_app in Hsome. apply Hsome, Exists_app. by right.
Qed.

(** ** Reserved ids *)

Fixpoint reservations (n : nat) (c : WorldControl) : list (option Z) * WorldControl :=
  match n with
  | O => ([], c)
  | S n => let '(ids, c) := reservations n c in let '(id, c) := reserve_network_id c in (ids ++ [id], c)
  end.

(** ids are handed out from the top, each once; the reservations never see
    an entity go, so after as many as there are ids every further one is
    refused, however empty the world is. *)
Theorem reservations_run_out n max c : 0 <= max -> next_id c = max ->
  (reservations n c).1 = (fun i => if i <? max then Some (max - i) else None) <$> seqZ 0 (Z.of_nat n) /\
  next_id (reservations n c).2 = Z.max 0 (max - Z.of_nat n).
Proof.
  intros Hm Hc. induction n as [|n [IH1 IH2]]; [split; [done|cbn; lia]|].
  cbn [reservations]. destruct (reservations n c) as [l c']. cbn [fst snd] in *. unfold reserve_network_id.
  rewrite Nat2Z.inj_succ, <- Z.add_1_r, seqZ_snoc, fmap_app by lia. cbn [fmap list_fmap].
  destruct (Z.ltb_spec 0 (next_id c')); cbn [fst snd].
  - rewrite IH1. split; [|cbn; lia]. f_equal. destruct (Z.ltb_spec (0 + Z.of_nat n) max); [|lia]. do 2 f_equal. lia.
  - rewrite IH1. split; [|cbn; lia]. f_equal. by destruct (Z.ltb_spec (0 + Z.of_nat n) max); [lia|].
Qed.

(** ** Concrete worlds *)

Definition ped_state (vehicle raw_seat : Z) : PedGameState :=
  {| cur_weapon := 0; cur_vehicle := vehicle; cur_vehicle_seat := raw_seat; is_handcuffed := false;
     is_flashlight_on := false; action_mode_enabled := false; stealth_mode_enabled := false;
     arrest_state := 0; death_state := 0 |}.

Definition seen (id own : Z) (t : ScriptEntityType) (st : option PedGameState) : EntitySummary :=
  {| network_id := id; owner := own; entity_type := t; position := (f32_zero, f32_zero, f32_zero);
     velocity := (f32_zero, f32_zero, f32_zero); routing_bucket := 0; health := None; max_health := None;
     armour := None; model := None; net_type := 11; first_owner := own; heading := None; desired_heading := None;
     sync := EntityNodeState_default <| ns_ped_game_state := st |> |}.

(** Player 1 drives vehicle 9. *)
Definition driver : EntitySummary := seen 5 1 Ped (Some (ped_state 9 1)).
Definition truck : EntitySummary := seen 9 1 Vehicle None.

Lemma publish_exact_witness : get (publish [truck; driver] (after [[truck]])) 5 = Some driver.
Proof.
  refine (proj2 (proj1 (publish_exact [[truck]] [truck; driver] _) 5 driver) _).
  - apply (bool_decide_unpack _). vm_compute. exact I.
  - split; [right; left|reflexivity].
Defined.

Lemma seats_exact_witness : last_occupant (publish [] (after [[truck; driver]])) 9 (-1) = Some 5.
Proof.
  pose proof (seats_exact [[truck; driver]] [] 9 (-1) ltac:(lia) ltac:(lia)) as H.
  destruct (occupant (publish [] (after [[truck; driver]])) 9 (-1)) as [id|] eqn:E.
  - vm_compute in E. discriminate.
  - apply (proj2 H). vm_compute. reflexivity.
Defined.

Definition pedestrian : EntitySummary := seen 6 1 Ped None.

Lemma player_ped_any_ped_witness : player_ped (publish [truck; driver; pedestrian] (after [])) 1 = Some 6.
Proof. exact (proj1 (player_ped_any_ped [] [truck] driver pedestrian 1 eq_refl eq_refl eq_refl eq_refl)). Defined.

Lemma torn_read_witness :
  player_ped (foldl (publish_one 2) (begin_publish (publish [truck; driver] (after []))) [truck]) 1 = None.
Proof.
  exact (proj1 (torn_read [] [truck; driver] [truck] [driver] 1 ltac:(repeat constructor; discriminate))).
Defined.

Lemma reservations_run_out_witness : (reservations 4 (control_new 2)).1 = [Some 2; Some 1; None; None].
Proof. exact (proj1 (reservations_run_out 4 2 (control_new 2) ltac:(lia) eq_refl)). Defined.
