(* ===== verification/PushLoop.v ===== *)
(** * Pushing the aggregated world to binary clients
      (src/crates/baston-gateway/src/state_aggregator.rs)

    Each tick builds, for every subscribed client, the entities entering and
    leaving its area of interest and the changes of those it knows. Instants
    are nanoseconds. The orders in which hash maps yield the world and a
    tracker are arguments. The batches merged into the world are modelled in
    EntityStore.v. *)

From S2P Require Import Prelude F32 EntityStore ZoneIngest.

Definition ms : Z := 1000000.

Definition update_rate_for_distance (dist : f32) : Z :=
  let d := f32_as_u32 dist in
  if d <=? 99 then 50 * ms else if d <=? 299 then 100 * ms else 500 * ms.

(** ** Deltas and operations (baston-protocol/src/udp/state.rs) *)

Record EntityDelta := {
  d_entity_id : EntityId; d_coords : option vec3; d_heading : option f32; d_velocity : option vec3;
  d_health : option f32; d_armour : option f32; d_extra : option EntityExtra; d_network_owner : option (option Z)
}.

Inductive EntityOp :=
| Upsert (dirty : DirtyEntity)
| Delta (delta : EntityDelta)
| Delete (id : EntityId).

(** [(a != b).then_some(b)]. *)
Definition if_changed {A} (eqb : A -> A -> bool) (baseline current : A) : option A :=
  if eqb baseline current then None else Some current.

Definition owner_eqb (a b : option Z) : bool := bool_decide (a = b).

Definition build_delta (baseline current : EntityState) : option EntityDelta :=
  let delta := {|
    d_entity_id := entity_id current;
    d_coords := if_changed vec3_eqb (coords baseline) (coords current);
    d_heading := if_changed f32_eq (heading baseline) (heading current);
    d_velocity := if_changed vec3_eqb (velocity baseline) (velocity current);
    d_health := if_changed f32_eq (health baseline) (health current);
    d_armour := if_changed f32_eq (armour baseline) (armour current);
    d_extra := if_changed extra_eqb (extra baseline) (extra current);
    d_network_owner := if_changed owner_eqb (network_owner baseline) (network_owner current) |} in
  let empty := is_none (d_coords delta) && is_none (d_heading delta) && is_none (d_velocity delta)
    && is_none (d_health delta) && is_none (d_armour delta) && is_none (d_extra delta)
    && is_none (d_network_owner delta) in
  if empty then None else Some delta.

(** ** One client's operations *)

(** [ClientEntityTracker::last_sent]. *)
Abbreviation Tracker := (gmap EntityId (Z * EntityState)).

(** The loop's variables: the operations so far, what is visible, the tracker. *)
Abbreviation Progress := (list EntityOp * gset EntityId * Tracker)%type.

Definition consider (now viewer : Z) (center : vec3) (radius : f32) (acc : Progress) (state : EntityState) : Progress :=
  let '(ops, visible, tracker) := acc in
  if bool_decide (network_owner state = Some viewer) then acc
  else
    let dist := distance3d center (coords state) in
    if f32_gt dist radius then acc
    else
      let visible := {[entity_id state]} ∪ visible in
      match tracker !! entity_id state with
      | Some (last_at, baseline) =>
          if now - last_at <? update_rate_for_distance dist then (ops, visible, tracker)
          else
            match build_delta baseline state with
            | None => (ops, visible, tracker)
            | Some delta => (ops ++ [Delta delta], visible, <[entity_id state := (now, state)]> tracker)
            end
      | None =>
          (ops ++ [Upsert {| dirty_id := entity_id state; dirty_fields := flags_without all_flags DELETED;
                             dirty_state := state |}],
           visible, <[entity_id state := (now, state)]> tracker)
      end.

(** [order]: the ids of the tracker in the order its map yields them. *)
Definition compute_client_ops_from (now viewer : Z) (center : vec3) (radius : f32) (candidates : list EntityState)
    (order : Tracker -> list EntityId) (tracker : Tracker) : list EntityOp * Tracker :=
  let '(ops, visible, tracker) := foldl (consider now viewer center radius) ([], ∅, tracker) candidates in
  let gone := List.filter (fun id => bool_decide (id ∉ visible)) (order tracker) in
  (ops ++ (Delete <$> gone), filter (fun kv => kv.1 ∈ visible) tracker).

(** ** The grid *)

Record SpatialGrid := { cell : f32; cells : gmap (Z * Z) (list EntityState) }.

(** 1.05 as an f32. *)
Definition CELL_MARGIN : f32 := S754_finite false 8808038 (-23).

Definition cell_key (cell : f32) (p : vec3) : Z * Z :=
  (f32_as_i32 (f32_floor (f32_div p.1.1 cell)), f32_as_i32 (f32_floor (f32_div p.1.2 cell))).

(** [world]: the states in the order the map yields them. *)
Definition grid_build (world : list EntityState) (aoi_radius : f32) : SpatialGrid :=
  let cell := f32_mul (f32_max aoi_radius f32_one) CELL_MARGIN in
  {| cell := cell;
     cells := foldl (fun cells s => let key := cell_key cell (coords s) in <[key := default [] (cells !! key) ++ [s]]> cells)
                ∅ world |}.

Definition candidates (g : SpatialGrid) (center : vec3) : list EntityState :=
  let '(cx, cy) := cell_key (cell g) center in
  [-1; 0; 1] ≫= fun dx => [-1; 0; 1] ≫= fun dy => default [] (cells g !! (i32 (cx + dx), i32 (cy + dy))).

(** ** The push loop *)

Definition is_delta (op : EntityOp) : bool := match op with Delta _ => true | _ => false end.

(** What one client is sent this tick: whether reliably, and what. *)
Definition push_to_client (now : Z) (ingest : StateIngest) (radius : f32) (grid : SpatialGrid)
    (order : Tracker -> list EntityId) (source : Z) (trackers : gmap Z Tracker)
    : option (bool * list EntityOp) * gmap Z Tracker :=
  if negb (is_snapshot_subscriber ingest source) then (None, trackers)
  else
    match player_entity ingest source ≫= fun id => coords <$> EntityManager.get (manager ingest) id with
    | None => (None, trackers)
    | Some center =>
        let '(ops, tracker) := compute_client_ops_from now source center radius (candidates grid center) order
                                 (default ∅ (trackers !! source)) in
        (if bool_decide (ops = []) then None else Some (existsb (fun op => negb (is_delta op)) ops, ops),
         <[source := tracker]> trackers)
    end.

(** One tick: every client of the directory, each at its own instant, then the
    trackers of players that have left it by then go. *)
Definition push_tick (now : Z -> Z) (ingest : StateIngest) (radius : f32) (world : list EntityState)
    (order : Tracker -> list EntityId) (sources : list Z) (still : gset Z) (trackers : gmap Z Tracker)
    : list (Z * (bool * list EntityOp)) * gmap Z Tracker :=
  let grid := grid_build world radius in
  let '(sent, trackers) := foldl (fun acc source =>
      let '(out, trackers) := push_to_client (now source) ingest radius grid order source acc.2 in
      (acc.1 ++ from_option (fun o => [(source, o)]) [] out, trackers)) ([], trackers) sources in
  (sent, filter (fun kv => kv.1 ∈ still) trackers).

(** ** What a client makes of the operations *)

Definition apply_delta (d : EntityDelta) (c : EntityState) : EntityState :=
  {| entity_id := entity_id c; entity_type := entity_type c; model_hash := model_hash c;
     network_owner := default (network_owner c) (d_network_owner d);
     coords := default (coords c) (d_coords d); heading := default (heading c) (d_heading d);
     velocity := default (velocity c) (d_velocity d); health := default (health c) (d_health d);
     armour := default (armour c) (d_armour d); extra := default (extra c) (d_extra d) |}.

Definition apply_op (replica : gmap EntityId EntityState) (op : EntityOp) : gmap EntityId EntityState :=
  match op with
  | Upsert dirty => <[dirty_id dirty := dirty_state dirty]> replica
  | Delta d => alter (apply_delta d) (d_entity_id d) replica
  | Delete id => delete id replica
  end.

(** Equal, or equal as the code compares: a NaN it has sent counts as different
    every time, and the zeros as the same. *)
Definition like {A} (eqb : A -> A -> bool) (a b : A) : Prop := a = b \/ eqb a b = true.

Class Per {A} (eqb : A -> A -> bool) : Prop := {
  per_sym a b : eqb a b = true -> eqb b a = true;
  per_trans a b c : eqb a b = true -> eqb b c = true -> eqb a c = true
}.

#[export] Instance f32_eq_per : Per f32_eq.
Proof.
  split; [intros a b|intros a b c]; rewrite !f32_eq_num; [intros (? & ? & ?)|intros (? & ? & ?) (? & ? & ?)]; split_and!; try done; congruence.
Qed.

#[export] Instance vec3_eqb_per : Per vec3_eqb.
Proof.
  split.
  - intros [[? ?] ?] [[? ?] ?]. cbn. rewrite !andb_true_iff. intros [[? ?] ?]. split_and!; by apply per_sym.
  - intros [[? ?] ?] [[? ?] ?] [[? ?] ?]. cbn. rewrite !andb_true_iff. intros [[? ?] ?] [[? ?] ?]. split_and!; by eapply per_trans.
Qed.

#[export] Instance owner_eqb_per : Per owner_eqb.
Proof. split; unfold owner_eqb; intros *; rewrite !bool_decide_eq_true; congruence. Qed.

#[export] Instance extra_eqb_per : Per extra_eqb.
Proof.
  split.
  - intros [] []; cbn; rewrite ?andb_true_iff, ?eqb_true_iff, ?bool_decide_eq_true, ?Z.eqb_eq; try done;
      intros; destruct_and?; split_and?; (congruence || by apply per_sym).
  - intros [] [] []; cbn; rewrite ?andb_true_iff, ?eqb_true_iff, ?bool_decide_eq_true, ?Z.eqb_eq; try done;
      intros; destruct_and?; split_and?; (congruence || by eapply per_trans).
Qed.

Lemma like_moved {A} (eqb : A -> A -> bool) `{Per A eqb} b cur c :
  like eqb b c -> like eqb cur (default c (if_changed eqb b cur)).
Proof.
  unfold like, if_changed. intros Hbc. destruct (eqb b cur) eqn:E; cbn; [|by left].
  right. destruct Hbc as [->|Hbc]; [by apply per_sym|]. eapply per_trans; [by apply per_sym|done].
Qed.

(** [b] and [c] agree on everything a delta can carry. *)
Record sim (b c : EntityState) : Prop := {
  sim_owner : like owner_eqb (network_owner b) (network_owner c);
  sim_coords : like vec3_eqb (coords b) (coords c); sim_heading : like f32_eq (heading b) (heading c);
  sim_velocity : like vec3_eqb (velocity b) (velocity c); sim_health : like f32_eq (health b) (health c);
  sim_armour : like f32_eq (armour b) (armour c); sim_extra : like extra_eqb (extra b) (extra c)
}.

Lemma sim_refl s : sim s s.
Proof. by constructor; left. Qed.

Definition full_delta (b cur : EntityState) : EntityDelta := {|
  d_entity_id := entity_id cur;
  d_coords := if_changed vec3_eqb (coords b) (coords cur); d_heading := if_changed f32_eq (heading b) (heading cur);
  d_velocity := if_changed vec3_eqb (velocity b) (velocity cur); d_health := if_changed f32_eq (health b) (health cur);
  d_armour := if_changed f32_eq (armour b) (armour cur); d_extra := if_changed extra_eqb (extra b) (extra cur);
  d_network_owner := if_changed owner_eqb (network_owner b) (network_owner cur) |}.

Lemma full_delta_sim b cur c : sim b c -> sim cur (apply_delta (full_delta b cur) c).
Proof. intros []. constructor; cbn; (apply like_moved; [apply _|done]). Qed.

Lemma build_delta_spec b cur c : sim b c ->
  match build_delta b cur with
  | Some d => d = full_delta b cur
  | None => sim cur c
  end.
Proof.
  intros Hs. unfold build_delta. fold (full_delta b cur). cbv zeta.
  destruct (_ && _) eqn:E; [|done]. apply (full_delta_sim b cur) in Hs.
  rewrite !andb_true_iff in E. destruct_and!. unfold apply_delta in Hs. unfold full_delta in *. cbn in *.
  destruct (if_changed vec3_eqb (coords b) _), (if_changed f32_eq (heading b) _), (if_changed vec3_eqb (velocity b) _),
    (if_changed f32_eq (health b) _), (if_changed f32_eq (armour b) _), (if_changed extra_eqb _ _), (if_changed owner_eqb _ _); try done.
  by destruct Hs; constructor.
Qed.

(** The tracker's baselines are what the client has. *)
Definition tracks (tracker : Tracker) (replica : gmap EntityId EntityState) : Prop :=
  forall id, match tracker !! id, replica !! id with
             | Some (_, b), Some c => sim b c
             | None, None => True
             | _, _ => False
             end.

Definition shown (viewer : Z) (center : vec3) (radius : f32) (s : EntityState) : bool :=
  negb (bool_decide (network_owner s = Some viewer)) && negb (f32_gt (distance3d center (coords s)) radius).

Lemma consider_eq now viewer center radius ops visible tracker s :
  consider now viewer center radius (ops, visible, tracker) s =
  if shown viewer center radius s then
    match tracker !! entity_id s with
    | Some (last_at, baseline) =>
        if now - last_at <? update_rate_for_distance (distance3d center (coords s)) then (ops, {[entity_id s]} ∪ visible, tracker)
        else match build_delta baseline s with
             | None => (ops, {[entity_id s]} ∪ visible, tracker)
             | Some delta => (ops ++ [Delta delta], {[entity_id s]} ∪ visible, <[entity_id s := (now, s)]> tracker)
             end
    | None => (ops ++ [Upsert {| dirty_id := entity_id s; dirty_fields := flags_without all_flags DELETED; dirty_state := s |}],
               {[entity_id s]} ∪ visible, <[entity_id s := (now, s)]> tracker)
    end
  else (ops, visible, tracker).
Proof.
  unfold consider, shown. destruct (bool_decide _); [done|]. cbn [negb andb]. by destruct (f32_gt _ _).
Qed.

Lemma tracks_insert tracker replica id now s c : tracks tracker replica -> sim s c ->
  tracks (<[id := (now, s)]> tracker) (<[id := c]> replica).
Proof.
  intros Ht Hs id'. destruct (decide (id = id')) as [->|Hne]; [by rewrite !lookup_insert_eq|].
  rewrite !lookup_insert_ne by done. apply Ht.
Qed.

(** One candidate: the client stays in step; the entity, if shown, is known
    and either agrees or is not due yet. *)
Lemma consider_tracks now viewer center radius ops visible tracker s replica :
  let '(ops', visible', tracker') := consider now viewer center radius (ops, visible, tracker) s in
  tracks tracker (foldl apply_op replica ops) ->
  tracks tracker' (foldl apply_op replica ops') /\
  (forall id, id <> entity_id s -> tracker' !! id = tracker !! id) /\
  visible' = (if shown viewer center radius s then {[entity_id s]} ∪ visible else visible) /\
  (forall id, is_Some (tracker !! id) -> is_Some (tracker' !! id)) /\
  (shown viewer center radius s = true ->
     exists at_ b, tracker' !! entity_id s = Some (at_, b) /\
       forall c, sim b c -> sim s c \/ now - at_ < update_rate_for_distance (distance3d center (coords s))).
Proof.
  rewrite consider_eq. destruct (shown viewer center radius s) eqn:Esh; [|intros Ht; split_and!; (done || by auto)].
  assert (Hins : forall at_ m id, is_Some (m !! id) -> is_Some ((<[entity_id s := (at_, s)]> m : Tracker) !! id)).
  { intros at_ m id Hid. destruct (decide (entity_id s = id)) as [->|Hne]; [by rewrite lookup_insert_eq|by rewrite lookup_insert_ne]. }
  destruct (tracker !! entity_id s) as [[last_at b]|] eqn:Et.
  - destruct (Z.ltb_spec (now - last_at) (update_rate_for_distance (distance3d center (coords s)))).
    { intros Ht. split_and!; try done. intros _. exists last_at, b. split; [done|]. intros; by right. }
    destruct (build_delta b s) as [d|] eqn:Ed; intros Ht; pose proof (Ht (entity_id s)) as Hid; rewrite Et in Hid.
    + destruct (foldl apply_op replica ops !! entity_id s) as [c|] eqn:Ec; [|done].
      pose proof (build_delta_spec b s c Hid) as Hd. rewrite Ed in Hd. subst d.
      rewrite foldl_app. cbn [foldl apply_op full_delta d_entity_id]. unfold alter, map_alter.
      assert (Ha : alter (apply_delta (full_delta b s)) (entity_id s) (foldl apply_op replica ops) =
                   <[entity_id s := apply_delta (full_delta b s) c]> (foldl apply_op replica ops)).
      { apply map_eq. intros id. destruct (decide (entity_id s = id)) as [<-|Hne].
        - by rewrite lookup_alter_eq, lookup_insert_eq, Ec.
        - by rewrite lookup_alter_ne, lookup_insert_ne. }
      unfold alter, map_alter in Ha. rewrite Ha. split; [by apply tracks_insert, full_delta_sim|].
      split; [intros id Hne; by apply lookup_insert_ne|]. split; [done|]. split; [by auto|].
      intros _. exists now, s. split; [apply lookup_insert_eq|]. intros; by left.
    + split_and!; try done. intros _. exists last_at, b. split; [done|]. intros c Hsim. left.
      pose proof (build_delta_spec b s c Hsim) as Hd. by rewrite Ed in Hd.
  - intros Ht. rewrite foldl_app. cbn [foldl apply_op dirty_id dirty_state].
    split; [by apply tracks_insert, sim_refl|]. split; [intros id Hne; by apply lookup_insert_ne|].
    split; [done|]. split; [by auto|]. intros _. exists now, s. split; [apply lookup_insert_eq|]. intros; by left.
Qed.

Lemma consider_all now viewer center radius replica ss : forall ops visible tracker,
  let '(ops', visible', tracker') := foldl (consider now viewer center radius) (ops, visible, tracker) ss in
  tracks tracker (foldl apply_op replica ops) -> NoDup (entity_id <$> ss) ->
  tracks tracker' (foldl apply_op replica ops') /\
  (forall id, id ∉ entity_id <$> ss -> tracker' !! id = tracker !! id) /\
  (forall id, is_Some (tracker !! id) -> is_Some (tracker' !! id)) /\
  (forall id, id ∈ visible' <-> id ∈ visible \/ exists s, s ∈ ss /\ shown viewer center radius s = true /\ entity_id s = id) /\
  (forall s, s ∈ ss -> shown viewer center radius s = true ->
     exists at_ b, tracker' !! entity_id s = Some (at_, b) /\
       forall c, sim b c -> sim s c \/ now - at_ < update_rate_for_distance (distance3d center (coords s))).
Proof.
  induction ss as [|s ss IH]; intros ops visible tracker; cbn [foldl fmap list_fmap].
  { intros Ht _. split_and!; try done.
    - intros id. split; [by left|]. intros [H|(s & H & _)]; [done|by apply elem_of_nil in H].
    - by intros s ?%elem_of_nil. }
  pose proof (consider_tracks now viewer center radius ops visible tracker s replica) as H1.
  destruct (consider now viewer center radius (ops, visible, tracker) s) as [[ops1 visible1] tracker1].
  specialize (IH ops1 visible1 tracker1).
  destruct (foldl (consider now viewer center radius) (ops1, visible1, tracker1) ss) as [[ops2 visible2] tracker2].
  intros Ht Hnd. apply NoDup_cons in Hnd as [Hs Hnd]. destruct (H1 Ht) as (Ht1 & Ho1 & Hv1 & Hm1 & Hd1).
  destruct (IH Ht1 Hnd) as (Ht2 & Ho2 & Hm2 & Hv2 & Hd2). split; [done|]. split; [|split; [|split]].
  - intros id Hid. apply not_elem_of_cons in Hid as [Hne Hid]. rewrite Ho2 by done. by apply Ho1.
  - intros id Hid. by apply Hm2, Hm1.
  - intros id. rewrite Hv2, Hv1. split.
    + intros [H|(x & H & Hx)]; [|right; exists x; split; [by right|done]].
      destruct (shown viewer center radius s) eqn:E; [|by left]. apply elem_of_union in H as [H|H]; [|by left].
      apply elem_of_singleton in H as ->. right. exists s. split; [by left|done].
    + intros [H|(x & H & Hx & <-)]; [left; destruct (shown _ _ _ s); set_solver|].
      apply elem_of_cons in H as [->|H]; [left; rewrite Hx; set_solver|right; by exists x].
  - intros x Hx Hsh. apply elem_of_cons in Hx as [->|Hx]; [|by apply Hd2].
    destruct (Hd1 Hsh) as (at_ & b & Hb & Hdue). exists at_, b. by rewrite Ho2.
Qed.

(** One tick of one client: what it knows is then exactly what it is shown. *)
Lemma compute_ops_tracks now viewer center radius ss order tracker replica :
  (forall (m : Tracker) id, id ∈ order m <-> is_Some (m !! id)) -> NoDup (entity_id <$> ss) -> tracks tracker replica ->
  let '(ops, tracker') := compute_client_ops_from now viewer center radius ss order tracker in
  let replica' := foldl apply_op replica ops in
  tracks tracker' replica' /\
  (forall id, is_Some (replica' !! id) <-> exists s, s ∈ ss /\ shown viewer center radius s = true /\ entity_id s = id) /\
  (forall s, s ∈ ss -> shown viewer center radius s = true ->
     exists at_ b c, tracker' !! entity_id s = Some (at_, b) /\ replica' !! entity_id s = Some c /\
       (sim s c \/ now - at_ < update_rate_for_distance (distance3d center (coords s)))).
Proof.
  intros Hord Hnd Ht. unfold compute_client_ops_from.
  pose proof (consider_all now viewer center radius replica ss [] ∅ tracker) as H.
  destruct (foldl (consider now viewer center radius) ([], ∅, tracker) ss) as [[ops visible] tracker1].
  destruct (H Ht Hnd) as (Ht1 & _ & Hm & Hv & Hd). clear H. rewrite foldl_app.
  set (replica1 := foldl apply_op replica ops) in *. set (gone := List.filter _ (order tracker1)).
  assert (Hgone : forall id, id ∈ gone <-> is_Some (tracker1 !! id) /\ id ∉ visible).
  { intros id. unfold gone. rewrite list_elem_of_In, filter_In, <- list_elem_of_In, Hord, bool_decide_eq_true. done. }
  assert (Hdel : forall l m id, foldl apply_op m (Delete <$> l) !! id = if bool_decide (id ∈ l) then None else m !! id).
  { clear. induction l as [|x l IH]; intros m id; [done|]. cbn [fmap list_fmap foldl]. rewrite IH. cbn [apply_op].
    destruct (decide (x = id)) as [->|Hne].
    - rewrite lookup_delete_eq, (bool_decide_eq_true_2 (id ∈ id :: l)) by by left. by case_bool_decide.
    - rewrite lookup_delete_ne by done. case_bool_decide as H1; case_bool_decide as H2; set_solver. }
  assert (Hvis : forall id, id ∈ visible -> is_Some (tracker1 !! id)).
  { intros id Hid. apply Hv in Hid as [Hid|(s & Hs & Hsh & <-)]; [by apply elem_of_empty in Hid|].
    destruct (Hd s Hs Hsh) as (at_ & b & Hb & _). by exists (at_, b). }
  assert (Htr : forall id, filter (fun kv : EntityId * (Z * EntityState) => kv.1 ∈ visible) tracker1 !! id =
                      if bool_decide (id ∈ visible) then tracker1 !! id else None).
  { intros id. rewrite map_lookup_filter. destruct (tracker1 !! id) as [x|]; [|by case_bool_decide].
    cbn [mbind option_bind]. case_guard as Hg; cbn in *; [by rewrite bool_decide_eq_true_2|by rewrite bool_decide_eq_false_2]. }
  assert (Hrep : forall id, foldl apply_op replica1 (Delete <$> gone) !! id = if bool_decide (id ∈ visible) then replica1 !! id else None).
  { intros id. rewrite Hdel. destruct (bool_decide_reflect (id ∈ visible)) as [Hi|Hi].
    - rewrite bool_decide_eq_false_2; [done|]. intros [_ ?]%Hgone. done.
    - case_bool_decide as Hg; [done|]. pose proof (Ht1 id) as Hid.
      destruct (tracker1 !! id) as [x|] eqn:E; [|by destruct (replica1 !! id)]. destruct Hg. apply Hgone. by rewrite E. }
  split; [|split].
  - intros id. rewrite Htr, Hrep. case_bool_decide; [apply Ht1|done].
  - intros id. rewrite Hrep. case_bool_decide as Hi.
    + split; [intros _; apply Hv in Hi as [Hi|Hi]; [by apply elem_of_empty in Hi|done]|].
      intros _. pose proof (Ht1 id) as Hid. destruct (Hvis id Hi) as [[? ?] E]. rewrite E in Hid.
      by destruct (replica1 !! id); [eexists|].
    + split; [by intros [? [=]]|]. intros Hex. destruct Hi. apply Hv. by right.
  - intros s Hs Hsh. destruct (Hd s Hs Hsh) as (at_ & b & Hb & Hdue).
    assert (Hi : entity_id s ∈ visible) by (apply Hv; right; by exists s).
    pose proof (Ht1 (entity_id s)) as Hid. rewrite Hb in Hid.
    destruct (replica1 !! entity_id s) as [c|] eqn:Ec; [|done]. exists at_, b, c.
    rewrite Htr, Hrep, bool_decide_eq_true_2 by done. split; [done|]. split; [done|]. by apply Hdue.
Qed.

(** ** A client over many ticks *)

Record Tick := { t_now : Z; t_center : vec3; t_radius : f32; t_candidates : list EntityState }.

(** The tracker and the client's copy, every operation arriving. *)
Definition client_tick (viewer : Z) (order : Tracker -> list EntityId)
    (st : Tracker * gmap EntityId EntityState) (t : Tick) : Tracker * gmap EntityId EntityState :=
  let '(ops, tracker) := compute_client_ops_from (t_now t) viewer (t_center t) (t_radius t) (t_candidates t) order st.1 in
  (tracker, foldl apply_op st.2 ops).

Section client.
Context (viewer : Z) (order : Tracker -> list EntityId).
Hypothesis yields_keys : forall (m : Tracker) id, id ∈ order m <-> is_Some (m !! id).

Lemma client_ticks_track ticks : forall st, tracks st.1 st.2 ->
  Forall (fun t => NoDup (entity_id <$> t_candidates t)) ticks ->
  tracks (foldl (client_tick viewer order) st ticks).1 (foldl (client_tick viewer order) st ticks).2.
Proof.
  induction ticks as [|t ticks IH]; intros st Ht Hall; [done|]. apply Forall_cons in Hall as [Hnd Hall].
  cbn [foldl]. apply IH; [|done]. unfold client_tick.
  pose proof (compute_ops_tracks (t_now t) viewer (t_center t) (t_radius t) (t_candidates t) order st.1 st.2 yields_keys Hnd Ht) as H.
  destruct (compute_client_ops_from _ _ _ _ _ _ _) as [ops tracker]. apply H.
Qed.

(** C16: what a binary client sees. When every operation arrives, then after
    any ticks the client knows exactly the entities that the last one shows it
    (not its own, not farther than the radius), and each agrees with the
    world on all a delta carries, or was sent less than its distance's update
    period ago. *)
Theorem client_world_exact ticks t :
  Forall (fun t => NoDup (entity_id <$> t_candidates t)) (ticks ++ [t]) ->
  let '(tracker, replica) := foldl (client_tick viewer order) (∅, ∅) (ticks ++ [t]) in
  (forall id, is_Some (replica !! id) <->
     exists s, s ∈ t_candidates t /\ shown viewer (t_center t) (t_radius t) s = true /\ entity_id s = id) /\
  forall s, s ∈ t_candidates t -> shown viewer (t_center t) (t_radius t) s = true ->
    exists c, replica !! entity_id s = Some c /\
      (sim s c \/ exists at_ b, tracker !! entity_id s = Some (at_, b) /\ sim b c /\
                  t_now t - at_ < update_rate_for_distance (distance3d (t_center t) (coords s))).
Proof.
  intros Hall. rewrite foldl_app. cbn [foldl]. apply Forall_app in Hall as [Hall Hlast].
  apply Forall_cons in Hlast as [Hnd _].
  assert (H0 : tracks ∅ ∅) by (intros id; by rewrite !lookup_empty).
  pose proof (client_ticks_track ticks (∅, ∅) H0 Hall) as Ht.
  destruct (foldl (client_tick viewer order) (∅, ∅) ticks) as [tracker0 replica0]. cbn [fst snd] in Ht.
  unfold client_tick.
  pose proof (compute_ops_tracks (t_now t) viewer (t_center t) (t_radius t) (t_candidates t) order tracker0 replica0 yields_keys Hnd Ht) as H.
  cbn [fst snd]. destruct (compute_client_ops_from _ _ _ _ _ _ _) as [ops tracker]. destruct H as (Htr & Hin & Hd).
  split; [done|]. intros s Hs Hsh. destruct (Hd s Hs Hsh) as (at_ & b & c & Hb & Hc & Hdue). exists c. split; [done|].
  destruct Hdue as [H|H]; [by left|right]. exists at_, b. split; [done|]. split; [|done].
  pose proof (Htr (entity_id s)) as Hid. by rewrite Hb, Hc in Hid.
Qed.
End client.

(** ** A lost delta, and an entity given to the viewer *)

Definition no_nan (s : EntityState) : Prop :=
  vec3_eqb (coords s) (coords s) = true /\ f32_eq (heading s) (heading s) = true /\
  vec3_eqb (velocity s) (velocity s) = true /\ f32_eq (health s) (health s) = true /\
  f32_eq (armour s) (armour s) = true /\ extra_eqb (extra s) (extra s) = true.

Lemma build_delta_same s : no_nan s -> build_delta s s = None.
Proof.
  intros (H1 & H2 & H3 & H4 & H5 & H6). unfold build_delta, if_changed. cbn.
  rewrite H1, H2, H3, H4, H5, H6. unfold owner_eqb. by rewrite bool_decide_eq_true_2.
Qed.

(** an entity that comes to rest. Its last change goes out in a delta,
    which is sent unreliably when the tick holds nothing else; if it is lost,
    the tracker counts it as known, and no later tick sends anything while the
    entity rests, so the client keeps the stale state for good. *)
Theorem lost_delta_never_resent now viewer center radius order tracker s at_ b d :
  (forall (m : Tracker) id, id ∈ order m <-> is_Some (m !! id)) ->
  shown viewer center radius s = true -> no_nan s ->
  tracker = {[entity_id s := (at_, b)]} -> build_delta b s = Some d ->
  update_rate_for_distance (distance3d center (coords s)) <= now - at_ ->
  let '(ops, tracker') := compute_client_ops_from now viewer center radius [s] order tracker in
  ops = [Delta d] /\ existsb (fun op => negb (is_delta op)) ops = false /\
  forall later, compute_client_ops_from later viewer center radius [s] order tracker' = ([], tracker').
Proof.
  intros Hord Hsh Hn -> Hd Hdue.
  assert (Hgone : forall x, List.filter (fun id => bool_decide (id ∉ ({[entity_id s]} ∪ ∅ : gset EntityId))) (order ({[entity_id s := x]} : Tracker)) = []).
  { intros x. destruct (List.filter _ _) as [|y l] eqn:E; [done|]. exfalso.
    assert (Hy : y ∈ y :: l) by by left. rewrite <- E in Hy. apply list_elem_of_In, filter_In in Hy as [Hy Hf].
    apply list_elem_of_In, Hord in Hy as [? Hy]. apply lookup_singleton_Some in Hy as [<- _].
    apply bool_decide_eq_true in Hf. set_solver. }
  assert (Hkeep : forall x, filter (fun kv : EntityId * (Z * EntityState) => kv.1 ∈ ({[entity_id s]} ∪ ∅ : gset EntityId)) ({[entity_id s := x]} : Tracker) = {[entity_id s := x]}).
  { intros x. apply map_filter_id. intros i y Hy. apply lookup_singleton_Some in Hy as [<- _]. cbn. set_solver. }
  unfold compute_client_ops_from at 1. cbn [foldl]. rewrite consider_eq, Hsh, lookup_singleton_eq.
  destruct (Z.ltb_spec (now - at_) (update_rate_for_distance (distance3d center (coords s)))); [lia|]. rewrite Hd.
  rewrite insert_singleton_eq, Hgone, Hkeep. split; [done|]. split; [done|].
  intros later. unfold compute_client_ops_from. cbn [foldl]. rewrite consider_eq, Hsh, lookup_singleton_eq.
  rewrite build_delta_same by done. destruct (_ <? _); by rewrite Hgone, Hkeep.
Qed.

(** when the ownership scan gives an entity to the client that sees it,
    the next tick tells that client to delete it. *)
Theorem gained_entity_deleted now viewer center radius candidates order tracker s :
  (forall (m : Tracker) id, id ∈ order m <-> is_Some (m !! id)) ->
  NoDup (entity_id <$> candidates) -> s ∈ candidates -> network_owner s = Some viewer ->
  is_Some (tracker !! entity_id s) ->
  Delete (entity_id s) ∈ (compute_client_ops_from now viewer center radius candidates order tracker).1.
Proof.
  intros Hord Hnd Hs Ho Hk. unfold compute_client_ops_from.
  pose proof (consider_all now viewer center radius (snd <$> tracker) candidates [] ∅ tracker) as H.
  destruct (foldl _ ([], ∅, tracker) candidates) as [[ops visible] tracker1].
  assert (Ht : tracks tracker (snd <$> tracker)).
  { intros id. rewrite lookup_fmap. destruct (tracker !! id) as [[a c]|]; cbn; [apply sim_refl|done]. }
  destruct (H Ht Hnd) as (_ & _ & Hm & Hv & _). cbn [fst]. apply elem_of_app. right.
  apply list_elem_of_fmap. exists (entity_id s). split; [done|]. apply list_elem_of_In, filter_In. split.
  - apply list_elem_of_In, Hord, Hm, Hk.
  - apply bool_decide_eq_true. rewrite Hv. intros [Hi|(x & Hx & Hsh & He)]; [by apply elem_of_empty in Hi|].
    apply list_elem_of_lookup in Hs as [i Hi], Hx as [j Hj].
    assert (i = j) as -> by (eapply NoDup_lookup; [exact Hnd| |]; rewrite list_lookup_fmap; [by rewrite Hi|by rewrite Hj; cbn; rewrite He]).
    assert (x = s) as -> by congruence. unfold shown in Hsh. by rewrite bool_decide_eq_true_2 in Hsh.
Qed.

(** ** The grid *)

Lemma filter_split_perm {A} (p q : A -> bool) l : (forall x, p x = true -> q x = false) ->
  List.filter (fun x => p x || q x) l ≡ₚ List.filter p l ++ List.filter q l.
Proof.
  intros Hd. induction l as [|x l IH]; [done|]. cbn [List.filter]. destruct (p x) eqn:Ep.
  - rewrite (Hd x Ep). cbn. by rewrite IH.
  - destruct (q x); cbn [orb]; rewrite IH; [apply Permutation_middle|done].
Qed.

Lemma cells_of_keys {K A} `{EqDecision K} (key : A -> K) (l : list A) ks : NoDup ks ->
  ks ≫= (fun k => List.filter (fun x => bool_decide (key x = k)) l) ≡ₚ List.filter (fun x => bool_decide (key x ∈ ks)) l.
Proof.
  induction 1 as [|k ks Hk Hnd IH].
  - cbn. induction l as [|x l IHl]; [done|]. cbn [List.filter]. rewrite bool_decide_eq_false_2; [done|by apply not_elem_of_nil].
  - cbn [mbind list_bind]. rewrite IH, <- filter_split_perm.
    + apply Permutation_refl'. apply List.filter_ext. intros x.
      do 3 case_bool_decide; try done; rewrite elem_of_cons in *; naive_solver.
    + intros x H. apply bool_decide_eq_true in H. apply bool_decide_eq_false. by subst.
Qed.

Lemma grid_cells cell world k : forall m : gmap (Z * Z) (list EntityState),
  default [] (foldl (fun cells s => <[cell_key cell (coords s) := default [] (cells !! cell_key cell (coords s)) ++ [s]]> cells)
                m world !! k) =
  default [] (m !! k) ++ List.filter (fun s => bool_decide (cell_key cell (coords s) = k)) world.
Proof.
  induction world as [|s world IH]; intros m; cbn [foldl List.filter]; [by rewrite app_nil_r|]. rewrite IH.
  destruct (decide (cell_key cell (coords s) = k)) as [->|Hne].
  - rewrite lookup_insert_eq, bool_decide_eq_true_2 by done. cbn. by rewrite <- app_assoc.
  - by rewrite lookup_insert_ne, bool_decide_eq_false_2.
Qed.

Definition neighbourhood (c : Z * Z) : list (Z * Z) :=
  [-1; 0; 1] ≫= fun dx => [-1; 0; 1] ≫= fun dy => [(c.1 + dx, c.2 + dy)].

(** the candidates of a client are the entities of the nine cells around
    it, each as often as the world holds it. *)
Theorem candidates_exact world radius center :
  let g := grid_build world radius in let c := cell_key (cell g) center in
  - 2 ^ 31 < c.1 < 2 ^ 31 - 1 -> - 2 ^ 31 < c.2 < 2 ^ 31 - 1 ->
  candidates g center ≡ₚ List.filter (fun s => bool_decide (cell_key (cell g) (coords s) ∈ neighbourhood c)) world.
Proof.
  cbv zeta. intros Hx Hy. unfold candidates. set (g := grid_build world radius) in *.
  destruct (cell_key (cell g) center) as [cx cy]. cbn [fst snd] in *.
  change (neighbourhood (cx, cy)) with [(cx + -1, cy + -1); (cx + -1, cy + 0); (cx + -1, cy + 1); (cx + 0, cy + -1); (cx + 0, cy + 0);
    (cx + 0, cy + 1); (cx + 1, cy + -1); (cx + 1, cy + 0); (cx + 1, cy + 1)].
  rewrite <- (cells_of_keys (fun s => cell_key (cell g) (coords s))).
  - apply Permutation_refl'.
    assert (Hi : forall z d, - 2 ^ 31 < z < 2 ^ 31 - 1 -> -1 <= d <= 1 -> i32 (z + d) = z + d) by (unfold i32; intros; zdm).
    rewrite !Hi by (done || lia).
    assert (Hc : forall k, default [] (cells g !! k) = List.filter (fun s => bool_decide (cell_key (cell g) (coords s) = k)) world).
    { intros k. unfold g, grid_build. cbn [cells cell]. by rewrite (grid_cells _ world k ∅), lookup_empty. }
    rewrite !bind_cons. change ([] ≫= ?f) with (@nil EntityState). rewrite !Hi by (done || lia). rewrite !Hc, !app_nil_r.
    fold (@app EntityState). rewrite <- !app_assoc. reflexivity.
  - assert (Hne : forall x y x' y', (x <> x' \/ y <> y') -> (x, y) <> (x' : Z, y' : Z)) by (intros x y x' y' [?|?] [=]; lia).
    rewrite !NoDup_cons, !not_elem_of_cons. repeat split; try (apply not_elem_of_nil); try (apply Hne; lia).
    apply NoDup_nil_2.
Qed.

(** ** Concrete ticks *)

Definition ids_of (m : Tracker) : list EntityId := (map_to_list m).*1.

Lemma ids_of_keys (m : Tracker) id : id ∈ ids_of m <-> is_Some (m !! id).
Proof.
  unfold ids_of. rewrite list_elem_of_fmap. split.
  - intros ([i x] & -> & H). apply elem_of_map_to_list in H. by exists x.
  - intros [x H]. exists (id, x). split; [done|]. by apply elem_of_map_to_list.
Qed.

Definition car_at (x : Z) (owner : option Z) : EntityState := ZoneIngest.car 30 owner x.
Definition tick (n : Z) (x : Z) (owner : option Z) : Tick :=
  {| t_now := n * ms; t_center := origin; t_radius := f32_of_Z 450; t_candidates := [car_at x owner] |}.

Lemma client_world_exact_witness :
  is_Some ((foldl (client_tick 1 ids_of) (∅, ∅) ([tick 0 10 (Some 2)] ++ [tick 60 20 (Some 2)])).2 !! 30).
Proof.
  pose proof (client_world_exact 1 ids_of ids_of_keys [tick 0 10 (Some 2)] (tick 60 20 (Some 2))) as H.
  destruct (foldl (client_tick 1 ids_of) (∅, ∅) _) as [tracker replica]. apply H.
  - repeat constructor; by intros ?%elem_of_nil.
  - exists (car_at 20 (Some 2)). split; [by left|]. split; vm_compute; reflexivity.
Defined.

Lemma lost_delta_never_resent_witness :
  let '(ops, tracker) := compute_client_ops_from (60 * ms) 1 origin (f32_of_Z 450) [car_at 20 (Some 2)] ids_of
                           {[30 := (0, car_at 10 (Some 2))]} in
  length ops = 1%nat /\
  (compute_client_ops_from (9000 * ms) 1 origin (f32_of_Z 450) [car_at 20 (Some 2)] ids_of tracker).1 = [].
Proof.
  destruct (build_delta (car_at 10 (Some 2)) (car_at 20 (Some 2))) as [d|] eqn:Ed; [|vm_compute in Ed; discriminate].
  pose proof (lost_delta_never_resent (60 * ms) 1 origin (f32_of_Z 450) ids_of {[30 := (0, car_at 10 (Some 2))]}
    (car_at 20 (Some 2)) 0 (car_at 10 (Some 2)) d ids_of_keys) as H.
  destruct (compute_client_ops_from (60 * ms) _ _ _ _ _ _) as [ops tracker].
  destruct H as (-> & _ & H); [vm_compute; reflexivity|by vm_compute|reflexivity|exact Ed|vm_compute; discriminate|].
  split; [reflexivity|]. by rewrite H.
Defined.

Lemma gained_entity_deleted_witness :
  Delete 30 ∈ (compute_client_ops_from ms 1 origin (f32_of_Z 450) [car_at 10 (Some 1)] ids_of
                 {[30 := (0, car_at 10 (Some 2))]}).1.
Proof.
  apply (gained_entity_deleted ms 1 origin (f32_of_Z 450) [car_at 10 (Some 1)] ids_of {[30 := (0, car_at 10 (Some 2))]}
    (car_at 10 (Some 1)) ids_of_keys).
  - repeat constructor; by intros ?%elem_of_nil.
  - by left.
  - reflexivity.
  - by eexists.
Defined.

Lemma candidates_exact_witness :
  candidates (grid_build [car_at 10 None; car_at 9000 None] (f32_of_Z 450)) origin ≡ₚ [car_at 10 None].
Proof.
  etransitivity.
  - apply (candidates_exact [car_at 10 None; car_at 9000 None] (f32_of_Z 450) origin); vm_compute; split; reflexivity.
  - vm_compute. reflexivity.
Defined.
