(* ===== verification/Players.v ===== *)
(** * The directory of connected players (src/crates/baston-protocol/src/players.rs)

    Sources, the players and the tokens that authenticate them. A dashmap is a
    finite map and each call one step; only the order in which a map yields its
    keys is left open. Strings are their bytes. *)

From S2P Require Import Prelude Decimal.

Abbreviation Name := (list Z).

Record PlayerInfo := { source : Z; name : Name; identifiers : list Name }.

Record PlayerDirectory := { players : gmap Z PlayerInfo; session_tokens : gmap Name Z; next_source : Z }.

#[export] Instance PlayerDirectory_rebuild : Rebuild PlayerDirectory := fun d =>
  {| players := players d; session_tokens := session_tokens d; next_source := next_source d |}.

Definition directory_new : PlayerDirectory := {| players := ∅; session_tokens := ∅; next_source := 1 |}.

Definition bind_token (token : Name) (s : Z) (d : PlayerDirectory) : PlayerDirectory :=
  d <| session_tokens := <[token := s]> (session_tokens d) |>.

Definition source_for_token (d : PlayerDirectory) (token : Name) : option Z := session_tokens d !! token.

(** [fetch_add] of an [AtomicU32] wraps. *)
Definition allocate_source (d : PlayerDirectory) : Z * PlayerDirectory :=
  (next_source d, d <| next_source := u32 (next_source d + 1) |>).

Definition insert (player : PlayerInfo) (d : PlayerDirectory) : PlayerDirectory :=
  d <| players := <[source player := player]> (players d) |>.

Definition remove (s : Z) (d : PlayerDirectory) : option PlayerInfo * PlayerDirectory :=
  let d := d <| session_tokens := filter (fun ts => ts.2 <> s) (session_tokens d) |> in
  (players d !! s, d <| players := delete s (players d) |>).

Definition get (d : PlayerDirectory) (s : Z) : option PlayerInfo := players d !! s.

Definition identifier_by_type (d : PlayerDirectory) (s : Z) (id_type : Name) : option Name :=
  let prefix := id_type ++ [58] in
  players d !! s ≫= fun p => List.find (starts_with prefix) (identifiers p).

Definition exists_player (d : PlayerDirectory) (s : Z) : bool := is_some (players d !! s).

Definition identifier_count (d : PlayerDirectory) (s : Z) : nat :=
  default O ((fun p => length (identifiers p)) <$> players d !! s).

Definition identifier_at (d : PlayerDirectory) (s : Z) (index : nat) : option Name :=
  players d !! s ≫= fun p => identifiers p !! index.

(** [str::trim_start_matches]: every leading occurrence. *)
Fixpoint trim_start_loop (n : nat) (prefix text : Name) : Name :=
  match n, strip_prefix prefix text with
  | S n, Some rest => trim_start_loop n prefix rest
  | _, _ => text
  end.
Definition trim_start_matches (prefix text : Name) : Name := trim_start_loop (length text) prefix text.

(** "ip", "ip:" and "license". *)
Definition IP : Name := [105; 112].
Definition IP_PREFIX : Name := [105; 112; 58].
Definition LICENSE : Name := [108; 105; 99; 101; 110; 115; 101].

Definition endpoint (d : PlayerDirectory) (s : Z) : option Name :=
  trim_start_matches IP_PREFIX <$> identifier_by_type d s IP.

Definition guid (d : PlayerDirectory) (s : Z) : option Name :=
  match identifier_by_type d s LICENSE with Some id => Some id | None => identifier_at d s 0 end.

Definition sources (d : PlayerDirectory) : list Z := (map_to_list (players d)).*1.
Definition count (d : PlayerDirectory) : nat := size (players d).

(** ** Sources *)

Fixpoint allocations (n : nat) (d : PlayerDirectory) : list Z * PlayerDirectory :=
  match n with
  | O => ([], d)
  | S n => let '(s, d) := allocate_source d in let '(ss, d) := allocations n d in (s :: ss, d)
  end.

Lemma allocations_seq n : forall d, is_u 32 (next_source d) ->
  (allocations n d).1 = (fun i => u32 (next_source d + i)) <$> seqZ 0 (Z.of_nat n) /\
  next_source (allocations n d).2 = u32 (next_source d + Z.of_nat n) /\
  players (allocations n d).2 = players d /\ session_tokens (allocations n d).2 = session_tokens d.
Proof.
  induction n as [|n IH]; intros d Hd.
  - cbn [allocations fst snd]. rewrite Nat2Z.inj_0, Z.add_0_r. split; [done|].
    split; [|done]. symmetry. apply u_id, Hd.
  - cbn [allocations allocate_source]. set (d' := d <| next_source := _ |>).
    destruct (IH d') as (H1 & H2 & H3 & H4); [by apply is_u_mod|]. change (next_source d') with (u32 (next_source d + 1)) in H1, H2.
    destruct (allocations n d') as [ss d'']. cbn [fst snd] in *. subst ss. split_and!; [|rewrite H2|done|done].
    + rewrite Nat2Z.inj_succ, (seqZ_cons 0 (Z.succ _)) by lia. cbn [fmap list_fmap]. f_equal.
      * rewrite Z.add_0_r. symmetry. apply u_id, Hd.
      * rewrite Z.pred_succ. change (Z.succ 0) with (1 + 0). rewrite <- fmap_add_seqZ, <- list_fmap_compose. apply list_fmap_ext. intros i z _. cbn.
        unfold u32. rewrite Zplus_mod_idemp_l. f_equal. lia.
    + unfold u32. rewrite Zplus_mod_idemp_l. f_equal. lia.
Qed.

(** sources are handed out once each: fewer than 2^32 allocations from a
    fresh directory, whatever happens to the players, give 1, 2, 3 and so on,
    and never 0, which stands for no player. From the 65536th on a source does
    not fit the 16 bits of a network id, and its low 16 bits repeat an earlier
    one's. *)
Theorem sources_never_repeat n : Z.of_nat n < 2 ^ 32 ->
  (allocations n directory_new).1 = seqZ 1 (Z.of_nat n) /\
  NoDup (allocations n directory_new).1 /\ 0 ∉ (allocations n directory_new).1 /\
  (forall s, s ∈ (allocations n directory_new).1 -> 2 ^ 16 < s -> u16 s = u16 (s - 2 ^ 16) /\ s - 2 ^ 16 ∈ (allocations n directory_new).1).
Proof.
  intros Hn. destruct (allocations_seq n directory_new) as (-> & _); [by vm_compute|].
  change (next_source directory_new) with 1.
  assert (E : (fun i => u32 (1 + i)) <$> seqZ 0 (Z.of_nat n) = seqZ 1 (Z.of_nat n)).
  { change (seqZ 1 (Z.of_nat n)) with (seqZ (1 + 0) (Z.of_nat n)). rewrite <- fmap_add_seqZ. apply list_fmap_ext. intros i z Hz. apply lookup_seqZ in Hz as [-> Hi].
    apply u_id. unfold is_u. lia. }
  rewrite E. split; [done|]. split; [apply NoDup_seqZ|]. split; [rewrite elem_of_seqZ; lia|].
  intros s Hs Hb. rewrite elem_of_seqZ in Hs |- *. split; [|lia]. unfold u16. zdm.
Qed.

Lemma sources_never_repeat_witness : (allocations 3 directory_new).1 = [1; 2; 3].
Proof. exact (proj1 (sources_never_repeat 3 ltac:(done))). Defined.

(** ** Tokens *)

Inductive DirectoryCall :=
| Allocate
| Insert (player : PlayerInfo)
| Bind (token : Name) (s : Z)
| Remove (s : Z).

Definition directory_call (d : PlayerDirectory) (c : DirectoryCall) : PlayerDirectory :=
  match c with
  | Allocate => (allocate_source d).2
  | Insert player => insert player d
  | Bind token s => bind_token token s d
  | Remove s => (remove s d).2
  end.

Lemma remove_token t s d : session_tokens (remove s d).2 !! t =
  match session_tokens d !! t with Some s' => if decide (s' = s) then None else Some s' | None => None end.
Proof.
  change (session_tokens (remove s d).2) with (filter (fun ts : Name * Z => ts.2 <> s) (session_tokens d)).
  rewrite map_lookup_filter. destruct (session_tokens d !! t) as [s'|]; [|done]. cbn.
  destruct (decide (s' = s)) as [->|Hne].
  - by case_guard.
  - by case_guard.
Qed.

(** What a token was last bound to, when nothing has taken it back since. *)
Definition still_bound (t : Name) (s : Z) (calls : list DirectoryCall) : Prop :=
  exists before after, calls = before ++ Bind t s :: after /\
    Remove s ∉ after /\ forall s', Bind t s' ∉ after.

Lemma still_bound_snoc t s calls c : still_bound t s (calls ++ [c]) <->
  c = Bind t s \/ (c <> Remove s /\ (forall s', c <> Bind t s') /\ still_bound t s calls).
Proof.
  split.
  - intros (bef & aft & E & Hr & Hb). destruct aft as [|x aft _] using rev_ind.
    + apply app_inj_tail in E as [_ ->]. by left.
    + rewrite app_comm_cons, app_assoc in E. apply app_inj_tail in E as [-> ->]. right.
      split; [intros ->; apply Hr, elem_of_app; right; by left|].
      split; [intros s' ->; apply (Hb s'), elem_of_app; right; by left|].
      exists bef, aft. split; [done|]. split; [intros H; apply Hr, elem_of_app; by left|].
      intros s' H. apply (Hb s'), elem_of_app. by left.
  - intros [->|(Hr & Hb & bef & aft & -> & Hr' & Hb')].
    + exists calls, []. split; [done|]. split; [|intros s']; apply not_elem_of_nil.
    + exists bef, (aft ++ [c]). split; [by rewrite <- app_assoc|].
      split; [|intros s']; rewrite elem_of_app, elem_of_cons, elem_of_nil; naive_solver.
Qed.

(** C25: authentication. Whatever calls are made, a token resolves to a source
    exactly when it was bound to it, has not been bound to another since and
    the player has not been removed since: no token survives its player. *)
Theorem token_authenticates calls t s :
  source_for_token (foldl directory_call directory_new calls) t = Some s <-> still_bound t s calls.
Proof.
  unfold source_for_token. revert s. induction calls as [|c calls IH] using rev_ind; intros s.
  - split; [done|]. intros ([|? ?] & ? & E & _); discriminate.
  - rewrite foldl_app. cbn [foldl]. rewrite still_bound_snoc, <- IH.
    set (d := foldl directory_call directory_new calls). destruct c as [|p|t' s'|s']; cbn [directory_call].
    + change (session_tokens (allocate_source d).2) with (session_tokens d). naive_solver.
    + change (session_tokens (insert p d)) with (session_tokens d). naive_solver.
    + change (session_tokens (bind_token t' s' d)) with (<[t' := s']> (session_tokens d)).
      destruct (decide (t' = t)) as [->|Hne].
      * rewrite lookup_insert_eq. naive_solver.
      * rewrite lookup_insert_ne by done. naive_solver.
    + rewrite remove_token. destruct (session_tokens d !! t) as [s''|]; [|naive_solver].
      destruct (decide (s'' = s')) as [->|Hne]; naive_solver.
Qed.

(** ** Identifiers *)

Lemma starts_with_spec prefix bs : starts_with prefix bs = true <-> exists rest, bs = prefix ++ rest.
Proof.
  unfold starts_with. split.
  - destruct (strip_prefix prefix bs) as [rest|] eqn:E; [|done]. intros _. exists rest. by apply strip_prefix_spec.
  - intros [rest ->]. by rewrite strip_prefix_app.
Qed.

(** an identifier is found by its type: what is returned is the player's
    first identifier of the form [type:value], and none is returned exactly
    when the player is unknown or has none of that form. *)
Theorem identifier_found d s ty :
  match identifier_by_type d s ty with
  | Some id => exists p before after, get d s = Some p /\ identifiers p = before ++ id :: after /\
      (exists v, id = ty ++ [58] ++ v) /\ forall id' v, id' ∈ before -> id' <> ty ++ [58] ++ v
  | None => forall p id v, get d s = Some p -> id ∈ identifiers p -> id <> ty ++ [58] ++ v
  end.
Proof.
  unfold identifier_by_type, get. destruct (players d !! s) as [p|]; [|done]. cbn [mbind option_bind].
  induction (identifiers p) as [|x l IH] eqn:El in p |- *; cbn [List.find].
  - intros p' id v [= <-] H. rewrite El in H. by apply elem_of_nil in H.
  - destruct (starts_with (ty ++ [58]) x) eqn:E.
    + apply starts_with_spec in E as [v ->]. exists p, [], l. split; [done|]. split; [done|].
      split; [exists v; by rewrite <- app_assoc|]. intros id' v' H. by apply elem_of_nil in H.
    + assert (Hx : forall v, x <> ty ++ [58] ++ v).
      { intros v ->. rewrite app_assoc in E. assert (starts_with (ty ++ [58]) ((ty ++ [58]) ++ v) = true) as H.
        { apply starts_with_spec. by exists v. } congruence. }
      specialize (IH {| source := source p; name := name p; identifiers := l |} eq_refl).
      destruct (List.find _ l) as [id|].
      * destruct IH as (p' & bef & aft & [= <-] & E2 & Hv & Hb). cbn [identifiers] in E2. exists p, (x :: bef), aft.
        split; [done|]. split; [by rewrite El, E2|]. split; [done|]. intros id' v [->|H]%elem_of_cons; [apply Hx|by apply Hb].
      * intros p' id v [= <-] H. rewrite El in H. apply elem_of_cons in H as [->|H]; [apply Hx|].
        by apply (IH {| source := source p; name := name p; identifiers := l |}).
Qed.
