(* ===== verification/Events.v ===== *)
(** * Net events, native calls and reported states
      (src/crates/baston-protocol/src/{events,native}.rs and udp/state.rs)

    The events that clients and scripts send each other, the natives that run
    on a client, and the ped state a client's script reports. JSON and MessagePack
    are libraries' and a class here; strings are their UTF-8 bytes. *)

From S2P Require Import Prelude F32 Utf8 Udp EntityStore ZoneIngest.
#[local] Open Scope Z_scope.

Abbreviation Name := (list Z).
Abbreviation f64 := spec_float.

(** serde_json's values with the conversions the code uses, and their
    MessagePack encoding. *)
Class Json := {
  value : Type;
  null : value;
  of_bool : bool -> value;
  of_u64 : Z -> value;
  of_string : Name -> value;
  of_array : list value -> value;
  elem : value -> nat -> option value;
  field : value -> Name -> option value;
  as_u64 : value -> option Z;
  as_f64 : value -> option f64;
  as_bool : value -> option bool;
  as_str : value -> option Name;
  as_array : value -> option (list value);
  to_string : value -> Name;
  from_str : Name -> option value;
  rmp_to_vec : value -> option (list Z);
  rmp_from_slice : list Z -> option value
}.

(** form_urlencoded. *)
Class FormCodec := form_parse : list Z -> list (Name * Name).

(** ** events.rs *)

Definition build_net_event (event_name : Name) (msgpack_args : list Z) : list Z :=
  to_le_bytes 4 MSG_NET_EVENT ++ to_le_bytes 2 U16_MAX ++ to_le_bytes 2 (u16 (Z.of_nat (length event_name) + 1))
    ++ event_name ++ [0] ++ msgpack_args.

Record ServerEvent := { ev_name : Name; ev_args : list Z }.

(** [slice::strip_suffix] of one NUL. *)
Definition strip_nul (bs : list Z) : list Z := if bool_decide (last bs = Some 0) then removelast bs else bs.

Definition parse_server_event (payload : list Z) : option ServerEvent :=
  if (length payload <? 2)%nat then None
  else
    let name_len := Z.to_nat (from_le_bytes (take 2 payload)) in
    if ((name_len <? 1) || (length payload <? 2 + name_len))%nat then None
    else Some {| ev_name := from_utf8_lossy (strip_nul (take name_len (drop 2 payload)));
                 ev_args := drop (2 + name_len) payload |}.

Section json.
Context `{Json}.

Definition json_args_to_msgpack (args_json : Name) : option (list Z) := from_str args_json ≫= rmp_to_vec.

Definition msgpack_to_json_args (d : list Z) : option value :=
  if bool_decide (d = []) then Some (of_array []) else rmp_from_slice d.

(** ** udp/state.rs *)

(** A cast from f64 to f32 rounds to nearest even. *)
Definition f64_as_f32 (x : f64) : f32 :=
  match x with S754_finite s m e => binary_round 24 128 s m e | _ => x end.

Definition f32_at (v : value) (i : nat) : option f32 := f64_as_f32 <$> (elem v i ≫= as_f64).

Definition json_vec3 (v : value) : option vec3 :=
  f32_at v 0 ≫= fun x => f32_at v 1 ≫= fun y => f32_at v 2 ≫= fun z => Some (x, y, z).

Definition client_state_update_from_json (args : value) : option ClientStateUpdate :=
  elem args 0 ≫= fun obj =>
  (field obj (as_bytes "model") ≫= as_u64) ≫= fun model =>
  (field obj (as_bytes "coords") ≫= json_vec3) ≫= fun coords =>
  (field obj (as_bytes "heading") ≫= as_f64) ≫= fun heading =>
  Some {| c_entity_id := None; c_entity_type := Player; c_model_hash := u32 model; c_coords := coords;
          c_heading := f64_as_f32 heading;
          c_velocity := default (f32_zero, f32_zero, f32_zero) (field obj (as_bytes "velocity") ≫= json_vec3);
          c_health := f64_as_f32 (default (binary_normalize 53 1024 100 0 false) (field obj (as_bytes "health") ≫= as_f64));
          c_armour := f64_as_f32 (default (S754_zero false) (field obj (as_bytes "armour") ≫= as_f64));
          c_extra := None |}.
End json.

Definition MSG_BASTON_STATE : Z := hash_rage_string "msgBastonState".
Definition STATE_UPDATE_EVENT : Name := as_bytes "__baston:stateUpdate".
Definition INVOKE_NATIVE_EVENT : Name := as_bytes "__baston:invokeNative".
Definition NATIVE_RESULT_EVENT : Name := as_bytes "__baston:nativeResult".

(** ** native.rs *)

Inductive NativeType := TInt | TFloat | TBool | TString | TVector3 | TEntity | TVoid.

Record NativeSignature := { sig_name : Name; sig_hash : Z; sig_args : list NativeType; returns : NativeType }.

Definition PHASE_B_NATIVES : list NativeSignature := [
   {| sig_name := as_bytes "GET_PLAYER_PED"; sig_hash := 0x43A66C31C68491C0; sig_args := [TInt]; returns := TEntity |};
   {| sig_name := as_bytes "REQUEST_MODEL"; sig_hash := 0x963D27A58DF860AC; sig_args := [TInt]; returns := TVoid |};
   {| sig_name := as_bytes "HAS_MODEL_LOADED"; sig_hash := 0x98A4EB5D89A0C952; sig_args := [TInt]; returns := TBool |};
   {| sig_name := as_bytes "SET_PLAYER_MODEL"; sig_hash := 0x00A1CADD00108836; sig_args := [TInt; TInt]; returns := TVoid |};
   {| sig_name := as_bytes "SET_ENTITY_COORDS"; sig_hash := 0x06843DA7060A026B; sig_args := [TEntity; TFloat; TFloat; TFloat; TBool; TBool; TBool; TBool]; returns := TVoid |};
   {| sig_name := as_bytes "SET_ENTITY_HEADING"; sig_hash := 0x8E2530AA8ADA980E; sig_args := [TEntity; TFloat]; returns := TVoid |};
   {| sig_name := as_bytes "FREEZE_ENTITY_POSITION"; sig_hash := 0x428CA6DBD1094446; sig_args := [TEntity; TBool]; returns := TVoid |};
   {| sig_name := as_bytes "GET_ENTITY_COORDS"; sig_hash := 0x3FEF770D40960D5A; sig_args := [TEntity; TBool]; returns := TVector3 |};
   {| sig_name := as_bytes "NETWORK_REQUEST_CONTROL_OF_ENTITY"; sig_hash := 0xB69317BF5E782347; sig_args := [TEntity]; returns := TBool |};
   {| sig_name := as_bytes "SET_VEHICLE_ENGINE_ON"; sig_hash := 0x2497C4717C8B881E; sig_args := [TEntity; TBool; TBool; TBool]; returns := TVoid |};
   {| sig_name := as_bytes "SET_VEHICLE_DOORS_LOCKED"; sig_hash := 0xB664292EAECF7FA6; sig_args := [TEntity; TInt]; returns := TVoid |}].

(** The registry maps hashes to signatures. *)
Definition registry_new : gmap Z NativeSignature :=
  foldl (fun by_hash sig => <[sig_hash sig := sig]> by_hash) ∅ PHASE_B_NATIVES.

Inductive NativeError := UnknownNative (hash : Z) | BadArity (sig : NativeSignature) (got : nat).

Definition validate (by_hash : gmap Z NativeSignature) (hash : Z) (arg_count : nat) : NativeSignature + NativeError :=
  match by_hash !! hash with
  | None => inr (UnknownNative hash)
  | Some sig => if (arg_count =? length (sig_args sig))%nat then inl sig else inr (BadArity sig arg_count)
  end.

(** The calls that await a result. *)
Record PendingNatives := { waiters : gset Z; next_id : Z }.

Definition pending_new : PendingNatives := {| waiters := ∅; next_id := 0 |}.

Definition register (p : PendingNatives) : Z * PendingNatives :=
  (next_id p, {| waiters := {[next_id p]} ∪ waiters p; next_id := u64 (next_id p + 1) |}).

(** [alive]: whether the caller still holds the receiver. *)
Definition resolve (alive : bool) (id : Z) (p : PendingNatives) : bool * PendingNatives :=
  if decide (id ∈ waiters p) then (alive, {| waiters := waiters p ∖ {[id]}; next_id := next_id p |}) else (false, p).

Definition cancel (id : Z) (p : PendingNatives) : PendingNatives :=
  {| waiters := waiters p ∖ {[id]}; next_id := next_id p |}.

(** ** Events on the wire *)

(** What a client writes for an event: the name's length with its NUL, the
    name, the NUL, the arguments. *)
Definition event_bytes (event_name : Name) (msgpack_args : list Z) : list Z :=
  to_le_bytes 2 (Z.of_nat (length event_name) + 1) ++ event_name ++ [0] ++ msgpack_args.

Lemma strip_nul_snoc bs : strip_nul (bs ++ [0]) = bs.
Proof. unfold strip_nul. rewrite last_snoc, bool_decide_eq_true_2 by done. apply removelast_last. Qed.

Lemma parse_event_bytes event_name msgpack_args : Z.of_nat (length event_name) + 1 < 2 ^ 16 ->
  parse_server_event (event_bytes event_name msgpack_args) =
  Some {| ev_name := from_utf8_lossy event_name; ev_args := msgpack_args |}.
Proof.
  intros Hl. set (n := Z.of_nat (length event_name) + 1) in *. set (P := event_bytes event_name msgpack_args).
  assert (EP : P = to_le_bytes 2 n ++ (event_name ++ [0]) ++ msgpack_args) by (unfold P, event_bytes; by rewrite <- app_assoc).
  assert (En : Z.to_nat n = length (event_name ++ [0])) by (rewrite length_app; cbn [length]; lia).
  assert (Hlen : length P = (2 + Z.to_nat n + length msgpack_args)%nat) by (rewrite EP, En, !length_app, length_to_le_bytes; lia).
  assert (Hn : from_le_bytes (take 2 P) = n).
  { rewrite EP, take_app_length' by (by rewrite length_to_le_bytes). apply from_to_le_bytes_id. unfold is_u. lia. }
  assert (Hd : drop 2 P = (event_name ++ [0]) ++ msgpack_args) by (rewrite EP; by rewrite drop_app_length' by (by rewrite length_to_le_bytes)).
  unfold parse_server_event. rewrite (proj2 (Nat.ltb_ge _ _)), Hn, Hd by lia. cbv zeta.
  rewrite (proj2 (orb_false_iff _ _)) by (split; apply Nat.ltb_ge; lia).
  rewrite <- drop_drop, Hd, En, take_app_length, drop_app_length. by rewrite strip_nul_snoc.
Qed.

(** events read back. An event whose name and NUL fit the 16-bit length is
    read with the name and the arguments it was written with, and what the
    server sends holds, behind its type and the sender field, exactly those
    bytes. *)
Theorem event_round_trip event_name msgpack_args :
  Z.of_nat (length event_name) + 1 < 2 ^ 16 -> utf8_valid event_name = true ->
  parse_server_event (event_bytes event_name msgpack_args) =
    Some {| ev_name := event_name; ev_args := msgpack_args |} /\
  read_message_type (build_net_event event_name msgpack_args) =
    Some (MSG_NET_EVENT, to_le_bytes 2 U16_MAX ++ event_bytes event_name msgpack_args).
Proof.
  intros Hl Hv. rewrite parse_event_bytes, from_utf8_lossy_id by done. split; [done|].
  unfold build_net_event, event_bytes, u16. rewrite (u_id 16) by (unfold is_u; lia).
  unfold read_message_type. rewrite !length_app, length_to_le_bytes. cbn [Nat.ltb Nat.leb Nat.add].
  rewrite take_app_length', drop_app_length' by (by rewrite length_to_le_bytes).
  by rewrite from_to_le_bytes_id by (by vm_compute).
Qed.

Lemma event_round_trip_witness :
  parse_server_event (event_bytes [104; 105] [144]) = Some {| ev_name := [104; 105]; ev_args := [144] |}.
Proof. exact (proj1 (event_round_trip [104; 105] [144] ltac:(done) ltac:(reflexivity))). Defined.

Lemma strip_nul_spec raw name : strip_nul raw = name <-> raw = name ++ [0] \/ raw = name /\ last raw <> Some 0.
Proof.
  unfold strip_nul. case_bool_decide as Hz.
  - apply last_Some in Hz as [base ->]. rewrite removelast_last, last_snoc. split; [intros ->; by left|].
    intros [E|[_ Hn]]; [by apply app_inj_tail in E as [-> _]|by destruct Hn].
  - split; [intros ->; by right|]. intros [->|[-> _]]; [|done]. by rewrite last_snoc in Hz.
Qed.

(** C40: parsing an event. Whatever bytes arrive, an event is read from them
    exactly when they are a little-endian length of one or more, that many
    bytes, and the arguments: the name is those bytes without one closing NUL,
    if they have one, every malformed sequence replaced. A name that is
    well-formed UTF-8 is therefore kept byte for byte, and every name that the
    scripts are told is well-formed. *)
Theorem parse_server_event_exact payload ev : bytes_ok payload ->
  (parse_server_event payload = Some ev <->
   exists lo hi raw name, payload = lo :: hi :: raw ++ ev_args ev /\ Z.of_nat (length raw) = lo + 256 * hi /\ raw <> [] /\
     (raw = name ++ [0] \/ raw = name /\ last raw <> Some 0) /\ ev_name ev = from_utf8_lossy name /\
     (utf8_valid name = true -> ev_name ev = name)) /\
  (parse_server_event payload = Some ev -> utf8_valid (ev_name ev) = true).
Proof.
  assert (Hle : forall lo hi rest, bytes_ok (lo :: hi :: rest) -> from_le_bytes [lo; hi] = lo + 256 * hi).
  { intros lo hi rest Hb. rewrite !Forall_cons in Hb. destruct Hb as (Hlo & Hhi & _).
    rewrite !from_le_cons by done. change (from_le_bytes []) with 0. lia. }
  intros Hb. split; [split|].
  - destruct payload as [|lo [|hi rest]]; [done|done|]. unfold parse_server_event.
    rewrite (proj2 (Nat.ltb_ge _ _)) by (cbn; lia). cbv zeta. cbn [take drop]. rewrite !take_0, ?drop_0.
    rewrite (Hle lo hi rest Hb). set (n := Z.to_nat _). case_match eqn:E; [done|].
    intros [= <-]. apply orb_false_iff in E as [E1%Nat.ltb_ge E2%Nat.ltb_ge]. cbn [length Nat.add drop] in *. cbn [ev_args ev_name].
    exists lo, hi, (take n rest), (strip_nul (take n rest)).
    assert (Hl : length (take n rest) = n) by (rewrite length_take; lia).
    split_and!; [by rewrite take_drop|rewrite Hl; lia|intros E; rewrite E in Hl; cbn in Hl; lia| |done|by apply from_utf8_lossy_id].
    by apply strip_nul_spec.
  - intros (lo & hi & raw & name & -> & Hl & Hne & Hraw & Hname & _). destruct ev as [nm args]. cbn [ev_name ev_args] in *. subst nm.
    unfold parse_server_event. rewrite (proj2 (Nat.ltb_ge _ _)) by (cbn; lia). cbv zeta. cbn [take drop]. rewrite !take_0, ?drop_0.
    rewrite (Hle _ _ _ Hb). replace (Z.to_nat _) with (length raw) by lia. assert (length raw <> 0%nat) by (by destruct raw).
    rewrite (proj2 (orb_false_iff _ _)).
    2: { split; apply Nat.ltb_ge; [lia|]. cbn. rewrite length_app. lia. }
    cbn [Nat.add drop]. rewrite take_app_length, drop_app_length. by rewrite (proj2 (strip_nul_spec raw name) Hraw).
  - unfold parse_server_event. case_match; [done|]. cbv zeta. case_match; [done|]. intros [= <-]. apply from_utf8_lossy_valid.
Qed.

(** A name that is not UTF-8, one without its NUL and one with two. *)
Lemma parse_server_event_exact_witness :
  utf8_valid [239; 191; 189] = true /\ parse_server_event [2; 0; 104; 105; 144] = Some {| ev_name := [104; 105]; ev_args := [144] |} /\
  parse_server_event [3; 0; 104; 0; 0] = Some {| ev_name := [104; 0]; ev_args := [] |}.
Proof.
  split; [exact (proj2 (parse_server_event_exact [2; 0; 255; 0; 144] {| ev_name := [239; 191; 189]; ev_args := [144] |} ltac:(repeat constructor; unfold is_u; lia)) ltac:(reflexivity))|]. split.
  - apply (parse_server_event_exact [2; 0; 104; 105; 144]); [repeat constructor; unfold is_u; lia|]. exists 2, 0, [104; 105], [104; 105].
    split_and!; [done|done|done|by right|done|done].
  - apply (parse_server_event_exact [3; 0; 104; 0; 0]); [repeat constructor; unfold is_u; lia|]. exists 3, 0, [104; 0; 0], [104; 0].
    split_and!; [done|done|done|by left|done|done].
Defined.

(** a name too long for its length field. The length is truncated to 16
    bits, and the client that reads the event takes other bytes for its
    arguments. *)
Theorem long_event_garbled event_name msgpack_args :
  2 ^ 16 <= Z.of_nat (length event_name) + 1 ->
  match parse_server_event (drop 6 (build_net_event event_name msgpack_args)) with
  | None => True
  | Some ev => (length msgpack_args < length (ev_args ev))%nat
  end.
Proof.
  intros Hl. set (n := Z.of_nat (length event_name) + 1) in *.
  assert (E : drop 6 (build_net_event event_name msgpack_args) =
              to_le_bytes 2 (u16 n) ++ event_name ++ [0] ++ msgpack_args).
  { unfold build_net_event. rewrite app_assoc. rewrite drop_app_length'; [done|]. by rewrite length_app, !length_to_le_bytes. }
  rewrite E. set (P := _ ++ _). unfold parse_server_event.
  assert (Hn : from_le_bytes (take 2 P) = u16 n).
  { unfold P. rewrite take_app_length' by (by rewrite length_to_le_bytes). apply from_to_le_bytes_id, is_u_mod. lia. }
  rewrite Hn. destruct (_ <? 2)%nat; [done|]. cbv zeta. destruct (_ || _)%nat; [done|]. cbn [ev_args].
  assert (Hu : Z.of_nat (Z.to_nat (u16 n)) < n) by (unfold u16; zdm).
  rewrite length_drop. unfold P. rewrite !length_app, length_to_le_bytes. cbn [length]. lia.
Qed.

Definition long_name : Name := repeat 120 (Z.to_nat 65537).

Lemma long_event_garbled_witness :
  match parse_server_event (drop 6 (build_net_event long_name [144])) with
  | None => True
  | Some ev => (1 < length (ev_args ev))%nat
  end.
Proof.
  assert (H : 2 ^ 16 <= Z.of_nat (length long_name) + 1).
  { unfold long_name. rewrite repeat_length, Z2Nat.id; lia. }
  exact (long_event_garbled long_name [144] H).
Defined.

(** ** Natives *)

(** a native call is accepted exactly when the table lists its hash with
    as many arguments; the error tells a wrong count from an unknown hash. *)
Theorem validate_exact hash n :
  match validate registry_new hash n with
  | inl sig => sig ∈ PHASE_B_NATIVES /\ sig_hash sig = hash /\ length (sig_args sig) = n
  | inr (BadArity sig got) => sig ∈ PHASE_B_NATIVES /\ sig_hash sig = hash /\ got = n /\ length (sig_args sig) <> n
  | inr (UnknownNative h) => h = hash /\ forall sig, sig ∈ PHASE_B_NATIVES -> sig_hash sig <> hash
  end.
Proof.
  assert (Hr : registry_new = list_to_map ((fun sig => (sig_hash sig, sig)) <$> PHASE_B_NATIVES)) by (vm_compute; reflexivity).
  unfold validate. rewrite Hr. destruct (list_to_map _ !! hash) as [sig|] eqn:E.
  - apply elem_of_list_to_map_2, list_elem_of_fmap in E as (sig' & [= Hh <-] & Hin).
    destruct (Nat.eqb_spec n (length (sig_args sig))); naive_solver.
  - split; [done|]. intros sig Hin <-. apply not_elem_of_list_to_map_2 in E. apply E.
    rewrite <- list_fmap_compose. apply list_elem_of_fmap. by exists sig.
Qed.

(** ** Results *)

Inductive NativeStep :=
| Register
| Resolve (id : Z) (answer : Z) (alive : bool)
| Cancel (id : Z).

(** The table and the results delivered so far, the latest first. *)
Definition native_step (st : PendingNatives * list (Z * Z)) (step : NativeStep) : PendingNatives * list (Z * Z) :=
  match step with
  | Register => ((register st.1).2, st.2)
  | Resolve id answer alive =>
      let '(ok, p) := resolve alive id st.1 in (p, if ok then (id, answer) :: st.2 else st.2)
  | Cancel id => (cancel id st.1, st.2)
  end.

Definition is_register (s : NativeStep) : bool := match s with Register => true | _ => false end.
Definition registrations (steps : list NativeStep) : nat := length (List.filter is_register steps).

Record answers_ok (n : Z) (st : PendingNatives * list (Z * Z)) : Prop := {
  answers_next : next_id st.1 = n;
  answers_waiting : forall id, id ∈ waiters st.1 -> 0 <= id < n /\ id ∉ st.2.*1;
  answers_known : forall id, id ∈ st.2.*1 -> 0 <= id < n;
  answers_once : NoDup st.2.*1
}.

Lemma native_step_ok n st step : 0 <= n -> (is_register step = true -> n + 1 < 2 ^ 64) -> answers_ok n st ->
  answers_ok (if is_register step then n + 1 else n) (native_step st step).
Proof.
  intros Hn Hb [H1 H2 H3 H4]. destruct st as [p out], step as [|id a alive|id]; cbn [native_step is_register fst snd register cancel] in *.
  - split; cbn [fst snd next_id waiters register].
    + rewrite H1. apply u_id. unfold is_u. specialize (Hb eq_refl). lia.
    + intros id. rewrite elem_of_union, elem_of_singleton. intros [->|Hid].
      * rewrite H1. split; [lia|]. intros Hin. apply H3 in Hin. lia.
      * destruct (H2 id Hid). split; [lia|done].
    + intros id Hid. apply H3 in Hid. lia.
    + done.
  - unfold resolve. destruct (decide (id ∈ waiters p)) as [Hw|Hw]; [|by split].
    destruct (H2 id Hw) as [Hr Hnew]. split; cbn [fst snd next_id waiters].
    + done.
    + intros id'. rewrite elem_of_difference, not_elem_of_singleton. intros [Hid Hne].
      destruct (H2 id' Hid) as [? ?]. split; [done|]. destruct alive; [|done]. cbn. rewrite elem_of_cons. naive_solver.
    + intros id'. destruct alive; [|apply H3]. cbn. rewrite elem_of_cons. intros [->|?]; [done|by apply H3].
    + destruct alive; [|done]. cbn. by apply NoDup_cons.
  - split; cbn [fst snd next_id waiters]; [done| |done|done].
    intros id'. unfold cancel; cbn [waiters]; rewrite elem_of_difference. intros [? _]. by apply H2.
Qed.

(** results of native calls. However registrations, answers (of whichever
    client), timeouts and cancellations interleave, no call gets two results,
    none gets one without having been registered, and a call that is still
    waiting has had none. *)
Theorem call_answered_once steps : Z.of_nat (registrations steps) < 2 ^ 64 ->
  let '(p, out) := foldl native_step (pending_new, []) steps in
  NoDup out.*1 /\ (forall id, id ∈ out.*1 -> 0 <= id < Z.of_nat (registrations steps)) /\
  (forall id, id ∈ waiters p -> id ∉ out.*1).
Proof.
  intros Hn. assert (H : answers_ok (Z.of_nat (registrations steps)) (foldl native_step (pending_new, []) steps)).
  { revert Hn. induction steps as [|step steps IH] using rev_ind; intros Hn.
    - split; cbn; [done|set_solver|set_solver|constructor].
    - unfold registrations in *. rewrite List.filter_app, length_app in *. cbn [List.filter] in *. rewrite foldl_app. cbn [foldl].
      pose proof (native_step_ok (Z.of_nat (length (List.filter is_register steps))) (foldl native_step (pending_new, []) steps) step) as Hs.
      destruct (is_register step); cbn [length] in *; rewrite ?Nat.add_0_r, ?Nat2Z.inj_add in *; apply Hs; try lia; try done; apply IH; lia. }
  destruct (foldl native_step _ steps) as [p out]. destruct H as [_ H2 H3 H4]. cbn [fst snd] in *.
  split; [done|]. split; [done|]. intros id Hid. by apply H2.
Qed.

Lemma call_answered_once_witness :
  let '(p, out) := foldl native_step (pending_new, []) [Register; Resolve 0 7 true; Resolve 0 8 true; Register] in
  out = [(0, 7)] /\ NoDup out.*1.
Proof.
  pose proof (call_answered_once [Register; Resolve 0 7 true; Resolve 0 8 true; Register] ltac:(done)) as H.
  assert (E : (foldl native_step (pending_new, []) [Register; Resolve 0 7 true; Resolve 0 8 true; Register]).2 = [(0, 7)]) by reflexivity.
  destruct (foldl native_step _ _) as [p out]. cbn [snd] in E. split; [exact E|]. apply H.
Defined.
