(* ===== verification/DebugFeed.v ===== *)
(** * The displayinfo overlay
      (src/crates/baston-gateway/src/debug_info.rs and udp/debug_feed.rs,
      src/crates/baston-protocol/src/debug_info.rs, the overlay's section of
      src/crates/baston-config/src/lib.rs)

    Who may subscribe, the rates measured between two snapshots, the zones
    around a player, and the facts one pass over the world gathers. Instants are
    nanoseconds. *)

From Stdlib Require Import Sorting.Sorted.
From S2P Require Import Prelude F32 Utf8 Udp QuadTree ZoneRegistry SyncParse GameState.
From S2P Require AdaptiveTick StateBags ZoneIngest.
#[local] Open Scope Z_scope.

Abbreviation Name := (list Z).

(** ** Access (baston-config) *)

Inductive DisplayInfoAccess := Off | Allowlist | Everyone.

#[export] Instance DisplayInfoAccess_eq_dec : EqDecision DisplayInfoAccess.
Proof. solve_decision. Defined.

Definition is_enabled (a : DisplayInfoAccess) : bool := match a with Off => false | _ => true end.

Record DebugConfig := { display_info : DisplayInfoAccess; allow : list Name; refresh_hz : Z }.

Definition eq_ignore_ascii_case (a b : Name) : bool :=
  bool_decide (StateBags.Routing.to_ascii_lowercase <$> a = StateBags.Routing.to_ascii_lowercase <$> b).

Definition allows (c : DebugConfig) (ids : list Name) : bool :=
  match display_info c with
  | Off => false
  | Everyone => true
  | Allowlist => existsb (fun id => existsb (fun allowed => eq_ignore_ascii_case allowed (trim id)) (allow c)) ids
  end.

Definition config_valid (c : DebugConfig) : bool :=
  ((1 <=? refresh_hz c) && (refresh_hz c <=? 30)) &&
  negb (bool_decide (display_info c = Allowlist) && bool_decide (allow c = [])).

(** ** Subscribers (debug_info.rs of the gateway) *)

Definition PACKET_LOSS_SCALE : f32 := f32_of_Z 65536.

Record Subscriber := { sampled_at : Z; last_in_total : Z; last_out_total : Z; primed : bool }.

Definition subscriber_new (now : Z) : Subscriber :=
  {| sampled_at := now; last_in_total := 0; last_out_total := 0; primed := false |}.

Definition window_delta (current previous : Z) : Z := if previous <=? current then current - previous else current.

Definition kbps (elapsed : f32) (bytes : Z) : f32 :=
  f32_div (f32_div (f32_mul (f32_of_Z bytes) (f32_of_Z 8)) elapsed) (f32_of_Z 1000).

Definition rates (now in_total out_total : Z) (s : Subscriber) : (f32 * f32) * Subscriber :=
  (* [duration_since] saturates at zero *)
  let elapsed := ZoneIngest.as_secs_f32 (Z.max 0 (now - sampled_at s)) in
  let in_delta := window_delta in_total (last_in_total s) in
  let out_delta := window_delta out_total (last_out_total s) in
  let s' := {| sampled_at := now; last_in_total := in_total; last_out_total := out_total; primed := true |} in
  (if negb (primed s) || f32_le elapsed f32_zero then (f32_zero, f32_zero)
   else (kbps elapsed in_delta, kbps elapsed out_delta), s').

Inductive ToggleOutcome := Subscribed | Unsubscribed | Disabled | NotAllowed.

#[export] Instance ToggleOutcome_eq_dec : EqDecision ToggleOutcome.
Proof. solve_decision. Defined.

Definition reason (o : ToggleOutcome) : Name :=
  match o with
  | Subscribed | Unsubscribed => []
  | Disabled => as_bytes "displayinfo is disabled on this server ([debug] display_info)"
  | NotAllowed => as_bytes "your identifiers are not on the displayinfo allowlist"
  end.

Record DebugInfoFeed := { feed_config : DebugConfig; feed_period : Z; subscribers : gmap Z Subscriber }.

#[export] Instance DebugInfoFeed_rebuild : Rebuild DebugInfoFeed := fun f =>
  {| feed_config := feed_config f; feed_period := feed_period f; subscribers := subscribers f |}.

Definition feed_new (c : DebugConfig) : DebugInfoFeed :=
  {| feed_config := c;
     feed_period := AdaptiveTick.from_secs_f64
                      (AdaptiveTick.f64_div (AdaptiveTick.f64_of_Z 1) (AdaptiveTick.f64_of_Z (Z.max (refresh_hz c) 1)));
     subscribers := ∅ |}.

Definition enabled (f : DebugInfoFeed) : bool := is_enabled (display_info (feed_config f)).

Definition is_subscribed (f : DebugInfoFeed) (source : Z) : bool := is_some (subscribers f !! source).
Definition subscriber_count (f : DebugInfoFeed) : nat := size (subscribers f).

Definition toggle (now source : Z) (on : bool) (ids : list Name) (f : DebugInfoFeed) : ToggleOutcome * DebugInfoFeed :=
  if negb on then (Unsubscribed, f <| subscribers := delete source (subscribers f) |>)
  else if negb (enabled f) then (Disabled, f)
  else if negb (allows (feed_config f) ids) then (NotAllowed, f)
  else (Subscribed,
        match subscribers f !! source with
        | Some _ => f
        | None => f <| subscribers := <[source := subscriber_new now]> (subscribers f) |>
        end).

Definition forget (source : Z) (f : DebugInfoFeed) : DebugInfoFeed :=
  f <| subscribers := delete source (subscribers f) |>.

Definition sample_rates (now source in_total out_total : Z) (f : DebugInfoFeed) : option (f32 * f32) * DebugInfoFeed :=
  match subscribers f !! source with
  | None => (None, f)
  | Some s =>
      let '(r, s') := rates now in_total out_total s in
      (Some r, f <| subscribers := <[source := s']> (subscribers f) |>)
  end.

Definition loss_pct (packet_loss : Z) : f32 :=
  f32_mul (f32_div (f32_of_Z packet_loss) PACKET_LOSS_SCALE) (f32_of_Z 100).

(** ** The zones around a player *)

(** debug_info.rs of the protocol. *)
Definition bearing_to (from : f32 * f32) (b : Aabb) : Name :=
  let '(x, y) := from in
  let dx := if f32_lt x (x_min b) then 1 else if f32_ge x (x_max b) then -1 else 0 in
  let dy := if f32_lt y (y_min b) then 1 else if f32_ge y (y_max b) then -1 else 0 in
  let ns := if dy =? 1 then as_bytes "N" else if dy =? -1 then as_bytes "S" else [] in
  let ew := if dx =? 1 then as_bytes "E" else if dx =? -1 then as_bytes "W" else [] in
  ns ++ ew.

Definition distance_to_bounds (from : f32 * f32) (b : Aabb) : f32 :=
  let '(x, y) := from in
  let dx := f32_max (f32_max (f32_sub (x_min b) x) f32_zero) (f32_sub x (x_max b)) in
  let dy := f32_max (f32_max (f32_sub (y_min b) y) f32_zero) (f32_sub y (y_max b)) in
  f32_sqrt (f32_add (f32_mul dx dx) (f32_mul dy dy)).

Record ZoneInfo := {
  z_id : ZoneId; z_bounds : Aabb; z_players : Z; z_entities : Z; z_max_players : Z; z_heartbeat_age_ms : Z; z_status : Name
}.

Record NeighbourZone := { nz_zone : ZoneInfo; nz_distance : f32; nz_direction : Name; nz_armed : bool }.

Record MeshInfo := {
  zones_online : Z; current : option ZoneInfo; mi_distance_to_edge : option f32; mi_handoff_margin : f32;
  neighbours : list NeighbourZone
}.

Record MeshView := { mv_registry : ZoneRegistry; mv_router : Router; mv_handoff_margin : f32 }.

(** [ZoneRegistry::stats] and [MeshView::topology], with the zones as the map
    yields them. *)
Definition zone_info (now : Z) (z : ZoneEntry) : ZoneInfo :=
  {| z_id := zone_id z; z_bounds := zone_bounds z; z_players := player_count z; z_entities := ZoneRegistry.entity_count z;
     z_max_players := max_players z; z_heartbeat_age_ms := u64 (Z.max 0 (now - last_heartbeat z) / 10 ^ 6);
     z_status := as_bytes "active" |}.

Definition topology (now : Z) (values : list ZoneEntry) : list (ZoneId * ZoneInfo) :=
  (fun z => (zone_id z, zone_info now z)) <$> values.

Definition UNKNOWN_DISTANCE : f32 := f32_of_Z (-1).

Definition neighbour (margin : f32) (planar : option (f32 * f32)) (zone : ZoneInfo) : NeighbourZone :=
  let '(distance, direction) := match planar with
    | Some from => (distance_to_bounds from (z_bounds zone), bearing_to from (z_bounds zone))
    | None => (UNKNOWN_DISTANCE, [])
    end in
  {| nz_zone := zone; nz_distance := distance; nz_direction := direction;
     nz_armed := is_some planar && f32_le distance margin |}.

(** [a.partial_cmp(&b).unwrap_or(Equal) != Greater], the order of a stable sort. *)
Definition distance_leb (a b : NeighbourZone) : bool :=
  match SFcompare (nz_distance a) (nz_distance b) with Some Gt => false | _ => true end.

Definition player_mesh (v : MeshView) (source : Z) (position : option vec3) (topology : list (ZoneId * ZoneInfo)) : MeshInfo :=
  let assigned := zone_of (mv_router v) source in
  let current := assigned ≫= fun id => snd <$> List.find (fun z => bool_decide (z.1 = id)) topology in
  let planar := (fun p : vec3 => p.1) <$> position in
  {| zones_online := u32 (Z.of_nat (length topology));
     current := current;
     mi_distance_to_edge := current ≫= fun zone => (fun xy => distance_to_edge (z_bounds zone) xy.1 xy.2) <$> planar;
     mi_handoff_margin := mv_handoff_margin v;
     neighbours := sort_by distance_leb (neighbour (mv_handoff_margin v) planar <$>
       (List.filter (fun z => negb (bool_decide (Some z.1 = assigned))) topology).*2) |}.

(** ** Facts about the world (debug_feed.rs) *)

Record PedFacts := {
  pf_object_id : Z; pf_position : vec3; pf_velocity : vec3; pf_sector : Z * Z * Z; pf_heading : option f32;
  pf_health : option f32; pf_armour : option f32
}.

Record EntityFacts := { owned : Z; ped : option PedFacts }.

Definition facts_default : EntityFacts := {| owned := 0; ped := None |}.

Definition ped_facts (e : ServerEntity) : PedFacts := {|
  pf_object_id := object_id e; pf_position := position e; pf_velocity := velocity e; pf_sector := sector e;
  pf_heading := heading e; pf_health := health e; pf_armour := armour e |}.

Definition fact_of (f : EntityFacts) (e : ServerEntity) : EntityFacts :=
  {| owned := u32 (owned f + 1); ped := if is_player e && position_known e then Some (ped_facts e) else ped f |}.

(** Totals and the facts of every subscriber; [values] are the entities as the
    map yields them. *)
Definition gather (acc : Z * Z * gmap Z EntityFacts) (e : ServerEntity) : Z * Z * gmap Z EntityFacts :=
  let '(total, server, facts) := acc in
  (u32 (total + 1), if server_owned e then u32 (server + 1) else server,
   match facts !! owner e with Some f => <[owner e := fact_of f e]> facts | None => facts end).

Definition debug_entity_facts (values : option (list ServerEntity)) (subs : list Z) : Z * Z * gmap Z EntityFacts :=
  let facts := list_to_map ((fun s => (s, facts_default)) <$> subs) in
  match values with
  | None => (0, 0, facts)
  | Some values => foldl gather (0, 0, facts) values
  end.

(** ** Subscriptions *)

Inductive FeedCall :=
| Toggle (now source : Z) (on : bool) (ids : list Name)
| Forget (source : Z)
| Sample (now source in_total out_total : Z).

Definition feed_call (f : DebugInfoFeed) (c : FeedCall) : DebugInfoFeed :=
  match c with
  | Toggle now source on ids => (toggle now source on ids f).2
  | Forget source => forget source f
  | Sample now source i o => (sample_rates now source i o f).2
  end.

(** What a call decides about a player, if anything. *)
Definition decides (c : DebugConfig) (s : Z) (call : FeedCall) : option bool :=
  match call with
  | Toggle _ source on ids =>
      if negb (source =? s) then None else if negb on then Some false
      else if is_enabled (display_info c) && allows c ids then Some true else None
  | Forget source => if source =? s then Some false else None
  | Sample _ _ _ _ => None
  end.

Lemma feed_call_spec f call s :
  feed_config (feed_call f call) = feed_config f /\
  is_subscribed (feed_call f call) s = default (is_subscribed f s) (decides (feed_config f) s call).
Proof.
  unfold is_subscribed. destruct call as [now source on ids|source|now source i o]; cbn [feed_call decides].
  - unfold toggle, enabled. destruct on; cbn [negb andb].
    + destruct (is_enabled _); cbn [negb andb snd]; [|split; [done|by destruct (_ =? _)]].
      destruct (allows _ _); cbn [negb snd]; [|split; [done|by destruct (_ =? _)]].
      destruct (subscribers f !! source) eqn:E; (split; [done|]).
      * destruct (Z.eqb_spec source s) as [<-|Hne]; cbn [negb default]; [by rewrite E|done].
      * cbn. destruct (Z.eqb_spec source s) as [->|Hne]; cbn [negb default]; [by rewrite lookup_insert_eq|by rewrite lookup_insert_ne].
    + split; [done|]. unfold forget. cbn.
      destruct (Z.eqb_spec source s) as [->|Hne]; cbn [negb default]; [by rewrite lookup_delete_eq|by rewrite lookup_delete_ne].
  - split; [done|]. unfold forget. cbn.
    destruct (Z.eqb_spec source s) as [->|Hne]; cbn [default]; [by rewrite lookup_delete_eq|by rewrite lookup_delete_ne].
  - unfold sample_rates. destruct (subscribers f !! source) as [sub|] eqn:E; [|done].
    destruct (rates _ _ _ _) as [r s']. split; [done|]. cbn.
    destruct (decide (source = s)) as [->|Hne]; [by rewrite lookup_insert_eq, E|by rewrite lookup_insert_ne].
Qed.

(** who is subscribed. Whatever calls are made, a player receives the
    overlay exactly when the last call that decides about it let it in: a
    toggle to on by a player the configuration clears, with no toggle to off
    and no disconnection after it. *)
Theorem subscribed_exact c calls s :
  is_subscribed (foldl feed_call (feed_new c) calls) s = default false (last (omap (decides c s) calls)).
Proof.
  assert (H : feed_config (foldl feed_call (feed_new c) calls) = c /\
    is_subscribed (foldl feed_call (feed_new c) calls) s = default false (last (omap (decides c s) calls)));
    [|apply H].
  induction calls as [|call calls [IHc IH]] using rev_ind; [done|]. rewrite foldl_app. cbn [foldl].
  destruct (feed_call_spec (foldl feed_call (feed_new c) calls) call s) as [-> ->]. rewrite IHc. split; [done|].
  rewrite omap_app. cbn [omap list_omap]. destruct (decides c s call) as [b|]; cbn [default].
  - by rewrite last_snoc.
  - by rewrite app_nil_r, IH.
Qed.

(** ** Rates *)

(** What happens to an ENet counter between two samples: it grows, or is
    zeroed somewhere in between. *)
Inductive Traffic := Grew (bytes : Z) | Zeroed (lost kept : Z).

Definition counter_after (c : Z) (t : Traffic) : Z := match t with Grew b => c + b | Zeroed _ kept => kept end.
Definition bytes_of (t : Traffic) : Z := match t with Grew b => b | Zeroed lost kept => lost + kept end.
Definition traffic_ok (t : Traffic) : Prop := match t with Grew b => 0 <= b | Zeroed lost kept => 0 <= lost /\ 0 <= kept end.

Fixpoint attributed (c : Z) (ts : list Traffic) : Z :=
  match ts with
  | [] => 0
  | t :: ts => window_delta (counter_after c t) c + attributed (counter_after c t) ts
  end.

Definition transferred (ts : list Traffic) : Z := foldr (fun t n => bytes_of t + n) 0 ts.

(** the bytes attributed to the sampling windows never exceed those
    transferred, however often the counter is zeroed in between, and are all
    of them when it is not. *)
Theorem window_never_overstates c ts : 0 <= c -> Forall traffic_ok ts ->
  0 <= attributed c ts <= transferred ts /\
  ((forall t, t ∈ ts -> exists b, t = Grew b) -> attributed c ts = transferred ts).
Proof.
  intros Hc Hts. revert c Hc. induction Hts as [|t ts Ht Hts IH]; intros c Hc; [done|].
  assert (Hc' : 0 <= counter_after c t) by (destruct t; cbn in *; lia). destruct (IH _ Hc') as [IH1 IH2].
  change (transferred (t :: ts)) with (bytes_of t + transferred ts). cbn [attributed]. unfold window_delta. split.
  - destruct t; cbn in *; case_match; lia.
  - intros Hg. rewrite IH2 by (intros; apply Hg; by right). destruct (Hg t ltac:(by left)) as [b ->]. cbn in *.
    destruct (Z.leb_spec c (c + b)); lia.
Qed.

Lemma window_never_overstates_witness : 0 <= attributed 5 [Grew 10; Zeroed 3 4; Grew 2] <= 19.
Proof. exact (proj1 (window_never_overstates 5 [Grew 10; Zeroed 3 4; Grew 2] ltac:(done) ltac:(repeat constructor; cbn; lia))). Defined.

(** ** Neighbours *)

(** A number whose sign bit is clear, or a negative zero. *)
Definition nonneg_or_zero (a : f32) : Prop := nonneg_num a = true \/ a = S754_zero true.

Lemma max_zero_nonneg a b : nonneg_or_zero (f32_max (f32_max a f32_zero) b).
Proof.
  assert (H : nonneg_or_zero (f32_max a f32_zero)) by (destruct a as [[]|[]| |[] m e]; (by left) || (by right)).
  revert H. generalize (f32_max a f32_zero) as c. intros c Hc. unfold f32_max, nonneg_or_zero in *.
  destruct b as [[]|[]| |[] m e], c as [[]|[]| |[] m' e']; cbn [is_nan]; try (by left); try (by right); try (by destruct Hc).
  by destruct (f32_lt (S754_finite false m' e') (S754_finite false m e)); left.
Qed.

Lemma square_nonneg a : nonneg_or_zero a -> nonneg_num (f32_mul a a) = true.
Proof.
  intros [H| ->]; [|done]. destruct a as [[]|[]| |[] m e]; try done. unfold f32_mul, SFmul. cbn [xorb].
  by apply binary_round_aux_nonneg.
Qed.

Lemma binary_normalize_nonneg m e : 0 <= m -> nonneg_num (binary_normalize 24 128 m e false) = true.
Proof.
  intros Hm. destruct m as [|m|m]; [done| |lia]. unfold binary_normalize, binary_round.
  destruct (shl_align _ _ _) as [mz ez]. by apply binary_round_aux_nonneg.
Qed.

Lemma add_nonneg a b : nonneg_num a = true -> nonneg_num b = true -> nonneg_num (f32_add a b) = true.
Proof.
  intros Ha Hb. destruct a as [[]|[]| |[] m e], b as [[]|[]| |[] m' e']; try done. unfold f32_add, SFadd.
  apply binary_normalize_nonneg. unfold cond_Zopp. lia.
Qed.

Lemma sqrt_nonneg a : nonneg_num a = true -> is_nan (f32_sqrt a) = false.
Proof.
  intros Ha. assert (E : f32_max a f32_zero = a \/ a = f32_zero) by (destruct a as [[]|[]| |[] m e]; try done; (by left) || (by right)).
  destruct E as [<- | ->]; [|done]. destruct (f32_sqrt_clamped a) as [H| ->]; [|done].
  by apply nonneg_num_spec in H as (? & _).
Qed.

Lemma distance_not_nan from b : is_nan (distance_to_bounds from b) = false.
Proof.
  unfold distance_to_bounds. destruct from as [x y]. apply sqrt_nonneg, add_nonneg; apply square_nonneg, max_zero_nonneg.
Qed.

Lemma sfcompare_gt a b : SFcompare a b = Some Gt -> SFcompare b a = Some Lt.
Proof. intros H. rewrite SFcompare_antisym, H. done. Qed.

Lemma distance_leb_total a b : distance_leb a b = false -> distance_leb b a = true.
Proof.
  unfold distance_leb. intros H. destruct (SFcompare (nz_distance a) (nz_distance b)) as [[]|] eqn:E; try done.
  by rewrite (sfcompare_gt _ _ E).
Qed.

Lemma neighbour_distance margin planar z :
  nz_distance (neighbour margin planar z) = match planar with Some from => distance_to_bounds from (z_bounds z) | None => UNKNOWN_DISTANCE end.
Proof. by destruct planar. Qed.

Lemma distance_leb_le margin planar a b : let n := neighbour margin planar in
  distance_leb (n a) (n b) = true -> f32_le (nz_distance (n a)) (nz_distance (n b)) = true.
Proof.
  cbv zeta. unfold distance_leb. rewrite !neighbour_distance. destruct planar as [from|]; [|done].
  pose proof (distance_not_nan from (z_bounds a)) as Ha. pose proof (distance_not_nan from (z_bounds b)) as Hb.
  unfold f32_le, SFleb. intros H.
  destruct (SFcompare _ _) as [[]|] eqn:E; try done.
  revert Ha Hb E. generalize (distance_to_bounds from (z_bounds a)) (distance_to_bounds from (z_bounds b)).
  intros [[]|[]| |[] ? ?] [[]|[]| |[] ? ?]; done.
Qed.

(** the zones around a player: every registered zone but the one it is
    assigned to, once, nearest first, with the distance and the bearing
    measured from its position; a zone is armed exactly when that distance is
    within the handoff margin, and never without a position. *)
Theorem neighbours_exact v source position topo :
  let mesh := player_mesh v source position topo in
  let others := (List.filter (fun z => negb (bool_decide (Some z.1 = zone_of (mv_router v) source))) topo).*2 in
  (nz_zone <$> neighbours mesh) ≡ₚ others /\
  StronglySorted (fun a b => f32_le (nz_distance a) (nz_distance b) = true) (neighbours mesh) /\
  forall n, n ∈ neighbours mesh ->
    match position with
    | Some p => nz_distance n = distance_to_bounds p.1 (z_bounds (nz_zone n)) /\
                nz_direction n = bearing_to p.1 (z_bounds (nz_zone n)) /\
                nz_armed n = f32_le (nz_distance n) (mv_handoff_margin v)
    | None => nz_distance n = UNKNOWN_DISTANCE /\ nz_armed n = false
    end.
Proof.
  cbv zeta. unfold player_mesh. cbn [neighbours]. set (others := (List.filter _ topo).*2).
  set (planar := (fun p : vec3 => p.1) <$> position). set (margin := mv_handoff_margin v).
  assert (Hn : forall n, n ∈ sort_by distance_leb (neighbour margin planar <$> others) -> exists z, n = neighbour margin planar z /\ z ∈ others).
  { intros n Hn. rewrite sort_by_perm, list_elem_of_fmap in Hn. naive_solver. }
  split_and!.
  - rewrite sort_by_perm, <- list_fmap_compose.
    transitivity (id <$> others); [|by rewrite list_fmap_id]. apply Permutation_refl', list_fmap_ext.
    intros i z _. cbn. unfold neighbour. by destruct planar.
  - apply Sorted_StronglySorted; [intros a b c; apply f32_le_trans|].
    pose proof (sort_by_sorted distance_leb (neighbour margin planar <$> others) distance_leb_total) as Hs.
    revert Hn. induction Hs as [|a l Hs IH Hd]; intros Hn; [constructor|]. constructor.
    + apply IH. intros n ?. apply Hn. by right.
    + destruct Hd as [|b l Hab]; constructor.
      destruct (Hn a ltac:(by left)) as (za & -> & _). destruct (Hn b ltac:(by right; left)) as (zb & -> & _).
      apply distance_leb_le. by apply Is_true_true.
  - intros n Hin. destruct (Hn n Hin) as (z & -> & _). by destruct position.
Qed.

(** ** Facts *)

Lemma u32_add_l a b : u32 (u32 a + b) = u32 (a + b).
Proof. unfold u32. by rewrite Zplus_mod_idemp_l. Qed.

Definition placed (e : ServerEntity) : bool := is_player e && position_known e.

Lemma facts_fold l : forall f, is_u 32 (owned f) ->
  owned (foldl fact_of f l) = u32 (owned f + Z.of_nat (length l)) /\
  ped (foldl fact_of f l) = match last (List.filter placed l) with Some e => Some (ped_facts e) | None => ped f end.
Proof.
  induction l as [|e l IH]; intros f Hf.
  - cbn. rewrite Z.add_0_r. split; [|done]. symmetry. apply u_id, Hf.
  - cbn [foldl]. destruct (IH (fact_of f e)) as [-> ->]; [apply is_u_mod; done|]. cbn [fact_of owned ped length List.filter].
    rewrite u32_add_l. split; [f_equal; lia|]. fold (placed e). destruct (placed e); [|done].
    rewrite last_cons. by destruct (last _).
Qed.

Lemma gather_fold values : forall t so facts, is_u 32 t -> is_u 32 so ->
  let '(t', so', facts') := foldl gather (t, so, facts) values in
  t' = u32 (t + Z.of_nat (length values)) /\
  so' = u32 (so + Z.of_nat (length (List.filter server_owned values))) /\
  forall s, facts' !! s = (fun f => foldl fact_of f (List.filter (fun e => owner e =? s) values)) <$> facts !! s.
Proof.
  induction values as [|e values IH]; intros t so facts Ht Hso.
  - cbn. rewrite !Z.add_0_r. unfold u32. rewrite !u_id by done. split_and!; [done..|]. intros s. by destruct (facts !! s).
  - cbn [foldl gather].
    specialize (IH (u32 (t + 1)) (if server_owned e then u32 (so + 1) else so)
      (match facts !! owner e with Some f => <[owner e := fact_of f e]> facts | None => facts end)).
    destruct (foldl gather _ values) as [[t' so'] facts'].
    destruct IH as (-> & -> & Hf); [apply is_u_mod; done|destruct (server_owned e); [apply is_u_mod|]; done|].
    cbn [length List.filter]. split_and!.
    + rewrite u32_add_l. f_equal. lia.
    + destruct (server_owned e); cbn [length]; [rewrite u32_add_l; f_equal; lia|done].
    + intros s. rewrite Hf. destruct (Z.eqb_spec (owner e) s) as [<-|Hne].
      * destruct (facts !! owner e) as [f|] eqn:E; [by rewrite lookup_insert_eq|by rewrite E].
      * f_equal. destruct (facts !! owner e); [by rewrite lookup_insert_ne|done].
Qed.

(** the figures of the overlay are those of the world: the entities, those
    the server owns and, for every subscriber, those it owns and its placed
    player entity (the last one the map yields); nobody else has any. *)
Theorem world_facts_exact g subs :
  let '(total, server, facts) := debug_entity_facts (Some (entity_values g)) subs in
  total = u32 (Z.of_nat (entity_count g)) /\ server = u32 (Z.of_nat (server_owned_count g)) /\
  forall s, if decide (s ∈ subs)
    then exists f, facts !! s = Some f /\ owned f = u32 (Z.of_nat (owned_by s g)) /\
           ped f = ped_facts <$> last (List.filter placed (List.filter (fun e => owner e =? s) (entity_values g)))
    else facts !! s = None.
Proof.
  unfold debug_entity_facts. set (facts := list_to_map _ : gmap Z EntityFacts).
  pose proof (gather_fold (entity_values g) 0 0 facts ltac:(done) ltac:(done)) as H.
  destruct (foldl gather _ _) as [[t so] facts']. destruct H as (-> & -> & Hf). rewrite !Z.add_0_l.
  split; [unfold entity_count, entity_values; by rewrite length_fmap, length_map_to_list|]. split; [done|].
  intros s. rewrite Hf. destruct (decide (s ∈ subs)) as [Hs|Hs].
  - assert (E : facts !! s = Some facts_default).
    { destruct (facts !! s) as [f|] eqn:E.
      - apply elem_of_list_to_map_2, list_elem_of_fmap in E as (s' & [= _ ->] & _). done.
      - exfalso. apply not_elem_of_list_to_map_2 in E. apply E. rewrite <- list_fmap_compose. apply list_elem_of_fmap. by exists s. }
    rewrite E. eexists. split; [reflexivity|].
    destruct (facts_fold (List.filter (fun e => owner e =? s) (entity_values g)) facts_default ltac:(done)) as [-> ->].
    split; [done|]. by destruct (last _).
  - unfold facts. rewrite (not_elem_of_list_to_map_1 _ s); [done|]. rewrite <- list_fmap_compose.
    intros (s' & -> & Hin)%list_elem_of_fmap. by apply Hs.
Qed.
