(* ===== verification/GameServer.v ===== *)
(** * The game server's dispatch
      (src/crates/baston-gateway/src/udp/{server,inbound,handle}.rs)

    The single task that owns the ENet host: which player a peer is, what each
    message of a client does, the sync tick, disconnection. What the task
    shares with others (the player directory, the routing control of the
    scripts, the ingestion of reported states, the scripts' mirror) is part of
    its state here; what it makes others do is recorded as effects, in order.
    ENet itself is outside: its events are the inputs, its sends are effects.
    URL decoding, JSON, MessagePack and bincode are classes; the order in which a
    hash map yields its entries is a class too. [None] is a panic. *)

From S2P Require Import Prelude F32 Decimal Utf8 Udp Reliability ObjectIds Packet SyncParse SyncWrite.
From S2P Require Import RoutingBucket InterestNg GameState Ingest Events.
From S2P Require Players StateBags EntityWorld ZoneIngest DebugFeed AdaptiveTick.
#[local] Open Scope Z_scope.

Abbreviation PeerId := Z.

(** rmp_serde of the replicated variables. *)
Class ConvarCodec := encode_convars : list (Name * Name) -> option (list Z).
(** bincode of a reported state. *)
Class StateCodec := parse_state_update : list Z -> option ZoneIngest.ClientStateUpdate.

Class HashOrder := {
  yield : forall {A}, gmap Z A -> list (Z * A);
  yield_perm : forall {A} (m : gmap Z A), yield m ≡ₚ map_to_list m
}.

(** ** Messages *)

Record ConnectPayload := { token : Name; guid : Name }.

(** The last value of a key. *)
Definition last_value (k : Name) (fields : list (Name * Name)) : option Name :=
  snd <$> last (List.filter (fun kv => bool_decide (kv.1 = k)) fields).

Definition parse_connect `{FormCodec} (payload : list Z) : option ConnectPayload :=
  from_utf8 payload ≫= fun text =>
  let fields := form_parse text in
  last_value (as_bytes "token") fields ≫= fun t =>
  Some {| token := t; guid := default [] (last_value (as_bytes "guid") fields) |}.

(** [slice::ends_with]. *)
Definition ends_with (needle hay : list Z) : bool := starts_with (rev needle) (rev hay).

Definition is_baston_client (payload : list Z) : bool :=
  contains_slice (as_bytes "bastonClient=1&") payload || ends_with (as_bytes "bastonClient=1") payload.

(** The channel a message is accepted on. *)
Definition expected_channel (msg_type : Z) : option Z :=
  if bool_decide (msg_type ∈ [MSG_CONNECT; MSG_TIME_SYNC_REQ; MSG_SERVER_EVENT; MSG_I_HOST; MSG_I_QUIT]) then Some 0
  else if bool_decide (msg_type ∈ [MSG_BASTON_STATE; MSG_ROUTE; MSG_REQUEST_OBJECT_IDS; GAME_STATE_NACK; GAME_STATE_ACK])
  then Some 1 else None.

(** ** State *)

Inductive Effect :=
| Sent (peer : PeerId) (channel : Z) (reliable : bool) (d : list Z)
| Dropped (peer : PeerId)
| Forwarded (source : Z) (update : ZoneIngest.ClientStateUpdate)
| PlayerDropped (source : Z)
| VoiceDropped (source : Z)
| NativeAnswered (id : Z)
| ScriptEvent (event : Name) (source : option Z).

Record UdpServer := {
  players : Players.PlayerDirectory; started_at : Z; peer_sources : gmap PeerId Z; source_peers : gmap Z PeerId;
  session_host : option (Z * Z); current_hosting : option (Z * Z); host_release_waiters : list Z;
  state_ingest : option ZoneIngest.StateIngest; voice : bool; voice_advertise : option (Name * Z); mesh_forward : bool;
  onesync : option ServerGameState; onesync_cfg : InterestConfig; focus_positions : gmap Z vec3;
  routing : StateBags.Routing.RoutingControl; routing_revision : Z;
  world_commands : option (list EntityWorld.WorldCommand); entity_world : EntityWorld.EntityWorldView;
  pending_natives : PendingNatives; debug : DebugFeed.DebugInfoFeed; effects : list Effect
}.

#[export] Instance UdpServer_rebuild : Rebuild UdpServer := fun s => {|
  players := players s; started_at := started_at s; peer_sources := peer_sources s; source_peers := source_peers s;
  session_host := session_host s; current_hosting := current_hosting s; host_release_waiters := host_release_waiters s;
  state_ingest := state_ingest s; voice := voice s; voice_advertise := voice_advertise s; mesh_forward := mesh_forward s;
  onesync := onesync s; onesync_cfg := onesync_cfg s; focus_positions := focus_positions s; routing := routing s;
  routing_revision := routing_revision s; world_commands := world_commands s; entity_world := entity_world s;
  pending_natives := pending_natives s; debug := debug s; effects := effects s |}.

Definition emit (e : Effect) (s : UdpServer) : UdpServer := s <| effects := effects s ++ [e] |>.

(** A server as [spawn_with_mesh_on] leaves it. *)
Definition server_new (dir : Players.PlayerDirectory) (now : Z) (ingest : option ZoneIngest.StateIngest) (mesh : bool)
    (game : option ServerGameState) (cfg : InterestConfig) (rc : StateBags.Routing.RoutingControl)
    (config : DebugFeed.DebugConfig) : UdpServer := {|
  players := dir; started_at := now; peer_sources := ∅; source_peers := ∅; session_host := None;
  current_hosting := None; host_release_waiters := []; state_ingest := ingest; voice := false; voice_advertise := None;
  mesh_forward := mesh; onesync := game; onesync_cfg := cfg; focus_positions := ∅; routing := rc;
  routing_revision := 2 ^ 64 - 1; world_commands := None; entity_world := EntityWorld.view_new;
  pending_natives := pending_new; debug := DebugFeed.feed_new config; effects := [] |}.

(** ** Commands (handle.rs) *)

Inductive UdpCommand :=
| SendToSource (source channel : Z) (d : list Z) (reliable : bool)
| DropSource (source : Z)
| SetVoice (advertise : option (Name * Z))
| SetWorldCommands (queue : list EntityWorld.WorldCommand).

Definition handle_command (cmd : UdpCommand) (s : UdpServer) : UdpServer :=
  match cmd with
  | SendToSource source channel d reliable =>
      match source_peers s !! source with Some peer => emit (Sent peer channel reliable d) s | None => s end
  | DropSource source => match source_peers s !! source with Some peer => emit (Dropped peer) s | None => s end
  | SetVoice advertise => s <| voice := true |> <| voice_advertise := advertise |>
  | SetWorldCommands queue => s <| world_commands := Some queue |>
  end.

(** The two queues in front of the task. *)
Module Planes.
Definition CONTROL_CAPACITY : nat := Z.to_nat 2048.
Definition SYNC_CAPACITY : nat := Z.to_nat 8192.
Definition CONTROL_BATCH : nat := 256.
Definition SYNC_BATCH : nat := Z.to_nat 1024.

Record Queues := { control : list UdpCommand; sync : list UdpCommand }.

(** [try_send] refuses the command that finds the queue full. *)
Definition try_send (cap : nat) (cmd : UdpCommand) (queue : list UdpCommand) : list UdpCommand :=
  if (length queue <? cap)%nat then queue ++ [cmd] else queue.

Definition control_send (source channel : Z) (d : list Z) (q : Queues) : Queues :=
  {| control := try_send CONTROL_CAPACITY (SendToSource source channel d true) (control q); sync := sync q |}.
Definition sync_send (source channel : Z) (d : list Z) (q : Queues) : Queues :=
  {| control := control q; sync := try_send SYNC_CAPACITY (SendToSource source channel d false) (sync q) |}.
Definition drop_source (source : Z) (q : Queues) : Queues :=
  {| control := try_send CONTROL_CAPACITY (DropSource source) (control q); sync := sync q |}.
Definition send_to_source (source channel : Z) (d : list Z) (reliable : bool) (q : Queues) : Queues :=
  if reliable then control_send source channel d q else sync_send source channel d q.

(** One branch of the loop's select: control before sync, each in batches. *)
Definition serve (q : Queues) (s : UdpServer) : Queues * UdpServer :=
  match control q with
  | _ :: _ =>
      ({| control := drop CONTROL_BATCH (control q); sync := sync q |},
       foldl (fun s cmd => handle_command cmd s) s (take CONTROL_BATCH (control q)))
  | [] =>
      ({| control := []; sync := drop SYNC_BATCH (sync q) |},
       foldl (fun s cmd => handle_command cmd s) s (take SYNC_BATCH (sync q)))
  end.
End Planes.

(** ** What the server sends players (server.rs) *)

Section server.
Context `{Json} `{FormCodec} `{ConvarCodec} `{StateCodec} `{HashOrder} `{Libm} `{Lz4}.

Definition send_event (event : Name) (to : Z) (args : value) (s : UdpServer) : UdpServer :=
  match json_args_to_msgpack (to_string args) with
  | Some msgpack => handle_command (SendToSource to 0 (build_net_event event msgpack) true) s
  | None => s
  end.

Definition send_player_event (event : Name) (to about : Z) (name : Name) (s : UdpServer) : UdpServer :=
  send_event event to (of_array [of_u64 about; of_string name; of_u64 (2 ^ 32 - 1)]) s.

Definition send_session_host_result (to : Z) (result : Name) (s : UdpServer) : UdpServer :=
  send_event (as_bytes "sessionHostResult") to (of_array [of_string result]) s.

Definition broadcast_host (net_id base_num : Z) (s : UdpServer) : UdpServer :=
  foldl (fun s peer => emit (Sent peer 0 true (build_server_i_host net_id base_num)) s) s (yield (peer_sources s)).*1.

Inductive NetOutbound :=
| ClientEvent (source : Z) (event args_json : Name)
| ClientEventRaw (source : Z) (event : Name) (payload : list Z).

Definition handle_net_outbound (outbound : NetOutbound) (s : UdpServer) : UdpServer :=
  match outbound with
  | ClientEvent source event args_json =>
      match json_args_to_msgpack args_json with
      | None => s
      | Some msgpack => handle_command (SendToSource source 0 (build_net_event event msgpack) true) s
      end
  | ClientEventRaw source event payload => handle_command (SendToSource source 0 (build_net_event event payload) true) s
  end.

(** ** Session-host arbitration *)

Definition HOSTING_GRANT_TIMEOUT : Z := 5 * 10 ^ 9.

Definition release_hosting_grant (s : UdpServer) : UdpServer :=
  let waiters := host_release_waiters s in
  foldl (fun s waiter => send_session_host_result waiter (as_bytes "free") s)
    (s <| current_hosting := None |> <| host_release_waiters := [] |>) waiters.

Definition expire_hosting_grant (now : Z) (s : UdpServer) : UdpServer :=
  match current_hosting s with
  | Some (_, deadline) => if deadline <=? now then release_hosting_grant s else s
  | None => s
  end.

Definition grant_hosting (now source : Z) (s : UdpServer) : UdpServer :=
  match current_hosting s with
  | Some (holder, _) =>
      if holder =? source then send_session_host_result source (as_bytes "go") s
      else send_session_host_result source (as_bytes "wait")
             (s <| host_release_waiters := host_release_waiters s ++ [source] |>)
  | None =>
      send_session_host_result source (as_bytes "go") (s <| current_hosting := Some (source, now + HOSTING_GRANT_TIMEOUT) |>)
  end.

Definition on_hosting_session (now source : Z) (s : UdpServer) : UdpServer :=
  let s := expire_hosting_grant now s in
  match session_host s with
  | Some (host, _) =>
      if negb (host =? source) && is_some (source_peers s !! host)
      then send_session_host_result source (as_bytes "conflict") s
      else grant_hosting now source s
  | None => grant_hosting now source s
  end.

Definition on_hosted_session (source : Z) (s : UdpServer) : UdpServer :=
  match current_hosting s with
  | Some (holder, _) => if holder =? source then release_hosting_grant s else s
  | None => s
  end.

Definition on_i_host (peer : PeerId) (payload : list Z) (s : UdpServer) : UdpServer :=
  match peer_sources s !! peer with
  | None => s
  | Some source =>
      match parse_i_host payload with
      | None => s
      | Some base_num =>
          if is_some (session_host s) then s
          else broadcast_host (u16 source) base_num (s <| session_host := Some (source, base_num) |>)
      end
  end.

(** ** Routing buckets *)

Definition lockdown_of (m : StateBags.Routing.RoutingLockdownMode) : LockdownMode :=
  match m with
  | StateBags.Routing.Inactive => Inactive
  | StateBags.Routing.Relaxed => Relaxed
  | StateBags.Routing.Strict => Strict
  end.

Definition mirror_policy (rc : StateBags.Routing.RoutingControl) (g : ServerGameState) (bucket : Z) : ServerGameState :=
  set_routing_bucket_population_enabled bucket (StateBags.Routing.population_enabled rc bucket)
    (set_routing_bucket_lockdown bucket (lockdown_of (StateBags.Routing.lockdown_mode rc bucket)) g).

Definition mirror_source (rc : StateBags.Routing.RoutingControl) (g : ServerGameState) (source : Z) : ServerGameState :=
  set_player_routing_bucket source (StateBags.Routing.player_bucket rc source) g.

Definition mirror_entity (rc : StateBags.Routing.RoutingControl) (g : ServerGameState) (id : Z) : ServerGameState :=
  set_entity_routing_bucket id (StateBags.Routing.entity_bucket rc id) g.

(** The buckets in use, ascending as a [BTreeSet] yields them. *)
Definition buckets_in_use (rc : StateBags.Routing.RoutingControl) (sources ids : list Z) : list Z :=
  sort_by Z.leb (elements (list_to_set (0 :: (StateBags.Routing.player_bucket rc <$> sources)
    ++ (StateBags.Routing.entity_bucket rc <$> ids)) : gset Z)).

Definition mirror_all (rc : StateBags.Routing.RoutingControl) (g : ServerGameState) : ServerGameState :=
  let sources := client_sources g in
  let ids := entity_ids g in
  let g := foldl (mirror_source rc) g sources in
  let g := foldl (mirror_entity rc) g ids in
  foldl (mirror_policy rc) g (buckets_in_use rc sources ids).

Definition refresh_routing_state (s : UdpServer) : UdpServer :=
  let revision := StateBags.Routing.revision (routing s) in
  if revision =? routing_revision s then s
  else match onesync s with
       | None => s
       | Some g => s <| onesync := Some (mirror_all (routing s) g) |> <| routing_revision := revision |>
       end.

Definition refresh_routing_source (source : Z) (s : UdpServer) : UdpServer :=
  match onesync s with
  | None => s
  | Some g =>
      let bucket := StateBags.Routing.player_bucket (routing s) source in
      s <| onesync := Some (mirror_policy (routing s) (mirror_source (routing s) g source) bucket) |>
  end.

(** ** The connection handshake (inbound.rs) *)

Definition convars_of (s : UdpServer) : list (Name * Name) :=
  (as_bytes "onesync", if is_some (onesync s) then as_bytes "on" else as_bytes "off") ::
  match voice_advertise s with
  | Some (addr, port) => [(as_bytes "voice_externalAddress", addr); (as_bytes "voice_externalPort", decimal port)]
  | None => []
  end.

Definition send_convars (source : Z) (s : UdpServer) : UdpServer :=
  match encode_convars (convars_of s) with
  | Some payload => handle_command (SendToSource source 0 (to_le_bytes 4 (hash_rage_string "msgConVars") ++ payload) true) s
  | None => s
  end.

Definition name_of (s : UdpServer) (source : Z) : Name := default [] (Players.name <$> Players.get (players s) source).

Definition is_subscriber (s : UdpServer) (source : Z) : bool :=
  match state_ingest s with Some i => ZoneIngest.is_snapshot_subscriber i source | None => false end.

(** The sources of the connected peers in a bucket. *)
Definition bucket_mates (bucket : Z) (s : UdpServer) : list Z :=
  List.filter (fun other => StateBags.Routing.player_bucket (routing s) other =? bucket) (yield (peer_sources s)).*2.

Definition introduce (source : Z) (s : UdpServer) : UdpServer :=
  let name := name_of s source in
  let others := (fun other => (other, is_subscriber s other))
                  <$> bucket_mates (StateBags.Routing.player_bucket (routing s) source) s in
  foldl (fun s '(other, other_is_subscriber) =>
    let s := send_player_event (as_bytes "onPlayerJoining") source other (name_of s other) s in
    if negb (other =? source) && negb other_is_subscriber
    then send_player_event (as_bytes "onPlayerJoining") other source name s else s) s others.

Definition send_post_connect (source : Z) (baston_client : bool) (s : UdpServer) : UdpServer :=
  let s := match onesync s with Some g => s <| onesync := Some (add_client source g) |> | None => s end in
  let s := refresh_routing_source source s in
  let s := send_convars source s in
  let s := if baston_client then s else introduce source s in
  emit (ScriptEvent (as_bytes "playerJoining") (Some source)) s.

Definition subscribe (source : Z) (s : UdpServer) : UdpServer :=
  match state_ingest s with
  | Some i => s <| state_ingest := Some (ZoneIngest.mark_snapshot_subscriber source i) |>
  | None => s
  end.

(** [sent]: whether ENet took the reply. *)
Definition on_handshake (sent : bool) (peer : PeerId) (payload : list Z) (s : UdpServer) : UdpServer :=
  match parse_connect payload with
  | None => s
  | Some connect =>
      match Players.source_for_token (players s) (token connect) with
      | None => emit (Dropped peer) s
      | Some source =>
          let s := s <| peer_sources := <[peer := source]> (peer_sources s) |>
                     <| source_peers := <[source := peer]> (source_peers s) |> in
          let s := emit (Sent peer 0 true (build_connect_ok source (session_host s))) s in
          if negb sent then s
          else
            let s := if is_baston_client payload then subscribe source s else s in
            send_post_connect source (is_baston_client payload) s
      end
  end.

(** ** Traffic between clients *)

Definition relay (source : Z) (route : ClientRoute) (s : UdpServer) : UdpServer :=
  let target := target_net_id route in
  if target =? source then s
  else if negb (StateBags.Routing.player_bucket (routing s) source =? StateBags.Routing.player_bucket (routing s) target) then s
  else match source_peers s !! target with
       | None => s
       | Some target_peer => emit (Sent target_peer 1 false (build_server_route (u16 source) (route_data route))) s
       end.

Definition on_clone_stream (source : Z) (d : list Z) (s : UdpServer) : option UdpServer :=
  let s := refresh_routing_source source s in
  match onesync s with
  | None => Some s
  | Some g =>
      match ingest_clone_payload source d g with
      | None => None
      | Some (outcome, g') =>
          Some (foldl (fun s packet => handle_command (SendToSource source 1 packet true) s)
                  (s <| onesync := Some g' |>) (ack_packets outcome))
      end
  end.

Definition on_route (peer : PeerId) (payload : list Z) (s : UdpServer) : option UdpServer :=
  match peer_sources s !! peer, parse_client_route payload with
  | Some source, Some route =>
      match onesync s with Some _ => on_clone_stream source (route_data route) s | None => Some (relay source route s) end
  | _, _ => Some s
  end.

(** The handlers that only write the game state. *)
Definition with_game (peer : PeerId) (f : Z -> ServerGameState -> ServerGameState) (s : UdpServer) : UdpServer :=
  match peer_sources s !! peer, onesync s with Some source, Some g => s <| onesync := Some (f source g) |> | _, _ => s end.

Definition on_game_state_nack (peer : PeerId) (payload : list Z) : UdpServer -> UdpServer :=
  with_game peer (fun source g => match parse_nack payload with Some nack => apply_nack source nack g | None => g end).

Definition on_game_state_ack (peer : PeerId) (payload : list Z) : UdpServer -> UdpServer :=
  with_game peer (fun source g => match parse_ack payload with Some ack => apply_ack source ack g | None => g end).

Definition on_request_object_ids (peer : PeerId) (s : UdpServer) : option UdpServer :=
  match peer_sources s !! peer, onesync s with
  | Some source, Some g =>
      match lease_object_ids source (Z.to_nat (ids_per_request g)) g with
      | None => None
      | Some (_, packet, g') => Some (handle_command (SendToSource source 1 packet true) (s <| onesync := Some g' |>))
      end
  | _, _ => Some s
  end.

(** ** Reported states *)

Definition focus_on (source : Z) (update : ZoneIngest.ClientStateUpdate) (s : UdpServer) : UdpServer :=
  if is_some (onesync s) then s <| focus_positions := <[source := ZoneIngest.c_coords update]> (focus_positions s) |> else s.

Definition forward (source : Z) (update : ZoneIngest.ClientStateUpdate) (s : UdpServer) : UdpServer :=
  if mesh_forward s then emit (Forwarded source update) s else s.

(** [checked], [stamped]: the instants the ingestion reads; [fresh]: the next
    entity id. *)
Definition ingest_apply (checked stamped fresh source : Z) (update : ZoneIngest.ClientStateUpdate) (s : UdpServer) : UdpServer :=
  match state_ingest s with
  | Some i => s <| state_ingest := Some (ZoneIngest.apply checked stamped fresh source update i).2 |>
  | None => s
  end.

(** What a call reads of the world: the monotonic clock (nanoseconds), the two
    instants the ingestion reads, the next entity id, whether ENet takes a reply,
    whether a caller still awaits a native's answer. *)
Record Ambient := { now : Z; checked : Z; stamped : Z; fresh : Z; reply_sent : bool; alive : bool }.

Definition on_state_update (a : Ambient) (peer : PeerId) (payload : list Z) (s : UdpServer) : UdpServer :=
  match peer_sources s !! peer, parse_state_update payload with
  | Some source, Some update =>
      let s := focus_on source update s in
      if is_some (state_ingest s)
      then ingest_apply (checked a) (stamped a) (fresh a) source update (forward source update (subscribe source s))
      else s
  | _, _ => s
  end.

Definition on_time_sync (a : Ambient) (peer : PeerId) (payload : list Z) (s : UdpServer) : UdpServer :=
  match parse_time_sync_request payload with
  | None => s
  | Some request =>
      let server_time_ms := u64 (Z.max 0 (now a - started_at s) / 10 ^ 6) in
      emit (Sent peer 1 true (build_time_sync_response request server_time_ms)) s
  end.

(** ** Events of clients *)

Definition DEBUG_INFO_TOGGLE_EVENT : Name := as_bytes "baston:displayInfo:toggle".
Definition DEBUG_INFO_DENIED_EVENT : Name := as_bytes "baston:displayInfo:denied".

Definition on_debug_info_toggle (now source : Z) (on : bool) (s : UdpServer) : UdpServer :=
  let ids := default [] (Players.identifiers <$> Players.get (players s) source) in
  let '(outcome, feed) := DebugFeed.toggle now source on ids (debug s) in
  let s := s <| debug := feed |> in
  match outcome with
  | DebugFeed.Subscribed | DebugFeed.Unsubscribed => s
  | DebugFeed.Disabled | DebugFeed.NotAllowed =>
      send_event DEBUG_INFO_DENIED_EVENT source (of_array [of_string (DebugFeed.reason outcome)]) s
  end.

Definition on_native_result (a : Ambient) (args : value) (s : UdpServer) : UdpServer :=
  match elem args 0 ≫= as_u64 with
  | None => s
  | Some id =>
      let '(answered, p) := Events.resolve (alive a) id (pending_natives s) in
      let s := s <| pending_natives := p |> in
      if answered then emit (NativeAnswered id) s else s
  end.

Definition on_state_event (a : Ambient) (source : Z) (args : value) (s : UdpServer) : UdpServer :=
  match client_state_update_from_json args with
  | None => s
  | Some update =>
      ingest_apply (checked a) (stamped a) (fresh a) source update (forward source update (focus_on source update s))
  end.

Definition on_server_event (a : Ambient) (peer : PeerId) (payload : list Z) (s : UdpServer) : UdpServer :=
  match peer_sources s !! peer, parse_server_event payload with
  | Some source, Some event =>
      match msgpack_to_json_args (ev_args event) with
      | None => s
      | Some args =>
          if bool_decide (ev_name event = as_bytes "hostingSession") then on_hosting_session (now a) source s
          else if bool_decide (ev_name event = as_bytes "hostedSession") then on_hosted_session source s
          else if bool_decide (ev_name event = NATIVE_RESULT_EVENT) then on_native_result a args s
          else if bool_decide (ev_name event = STATE_UPDATE_EVENT) then on_state_event a source args s
          else if bool_decide (ev_name event = DEBUG_INFO_TOGGLE_EVENT)
          then on_debug_info_toggle (now a) source (default false (elem args 0 ≫= as_bool)) s
          else emit (ScriptEvent (ev_name event) (Some source)) s
      end
  | _, _ => s
  end.

(** ** Disconnection (server.rs) *)

(** [handlers]: what the awaited [playerDropped] handlers do to the routing
    control. *)
Variable handlers : StateBags.Routing.RoutingControl -> StateBags.Routing.RoutingControl.

(** The steps of [on_disconnect], in order. *)
Definition clear_host (source : Z) (s : UdpServer) : UdpServer :=
  match session_host s with
  | Some (id, _) => if id =? source then broadcast_host 65535 0 (s <| session_host := None |>) else s
  | None => s
  end.

Definition leave_arbitration (source : Z) (s : UdpServer) : UdpServer :=
  on_hosted_session source
    (s <| host_release_waiters := List.filter (fun w => negb (w =? source)) (host_release_waiters s) |>).

Definition drop_ingest (source : Z) (s : UdpServer) : UdpServer :=
  match state_ingest s with
  | Some i => s <| state_ingest := Some (ZoneIngest.on_player_dropped source i) |>
  | None => s
  end.

Definition leave_game (source : Z) (s : UdpServer) : option UdpServer :=
  match onesync s with
  | None => Some s
  | Some g =>
      match remove_client source (yield (GameState.entities g)) g with
      | None => None
      | Some (_, g') => Some (s <| onesync := Some g' |>)
      end
  end.

Definition announce_leave (bucket source : Z) (name : Name) (s : UdpServer) : UdpServer :=
  foldl (fun s other => send_player_event (as_bytes "onPlayerDropped") other source name s) s (bucket_mates bucket s).

(** The code awaits the [playerDropped] handlers of the scripts here, on the task
    itself. What they do to the routing control is the function [handlers];
    that they return is assumed: one that never does stops the task. *)
Definition on_disconnect (peer : PeerId) (s : UdpServer) : option UdpServer :=
  match peer_sources s !! peer with
  | None => Some s
  | Some source =>
      let bucket := StateBags.Routing.player_bucket (routing s) source in
      let s := s <| peer_sources := delete peer (peer_sources s) |>
                 <| source_peers := delete source (source_peers s) |>
                 <| focus_positions := delete source (focus_positions s) |>
                 <| debug := DebugFeed.forget source (debug s) |> in
      let s := drop_ingest source (leave_arbitration source (clear_host source s)) in
      let s := if voice s then emit (VoiceDropped source) s else s in
      let s := if mesh_forward s then emit (PlayerDropped source) s else s in
      match leave_game source s with
      | None => None
      | Some s =>
          let '(info, players') := Players.remove source (players s) in
          let s := announce_leave bucket source (default [] (Players.name <$> info)) (s <| players := players' |>) in
          let s := emit (ScriptEvent (as_bytes "playerDropped") None) s in
          Some (s <| routing := StateBags.Routing.set_player_bucket source 0 (handlers (routing s)) |>)
      end
  end.

(** ** Dispatch *)

Definition dispatch (a : Ambient) (peer : PeerId) (msg_type : Z) (payload : list Z) (s : UdpServer) : option UdpServer :=
  if msg_type =? MSG_CONNECT then Some (on_handshake (reply_sent a) peer payload s)
  else if msg_type =? MSG_TIME_SYNC_REQ then Some (on_time_sync a peer payload s)
  else if msg_type =? MSG_SERVER_EVENT then Some (on_server_event a peer payload s)
  else if msg_type =? MSG_BASTON_STATE then Some (on_state_update a peer payload s)
  else if msg_type =? MSG_ROUTE then on_route peer payload s
  else if msg_type =? MSG_REQUEST_OBJECT_IDS then on_request_object_ids peer s
  else if msg_type =? GAME_STATE_NACK then Some (on_game_state_nack peer payload s)
  else if msg_type =? GAME_STATE_ACK then Some (on_game_state_ack peer payload s)
  else if msg_type =? MSG_I_HOST then Some (on_i_host peer payload s)
  else if msg_type =? MSG_I_QUIT then on_disconnect peer (emit (Dropped peer) s)
  else Some s.

Definition on_receive (a : Ambient) (peer : PeerId) (channel : Z) (d : list Z) (s : UdpServer) : option UdpServer :=
  match read_message_type d with
  | None => Some s
  | Some (msg_type, payload) =>
      if match expected_channel msg_type with Some expected => negb (expected =? channel) | None => false end
      then Some s
      else dispatch a peer msg_type payload s
  end.

Inductive NetEvent :=
| Connect (peer : PeerId)
| Disconnect (peer : PeerId)
| Receive (a : Ambient) (peer : PeerId) (channel : Z) (d : list Z).

Definition on_net_event (e : NetEvent) (s : UdpServer) : option UdpServer :=
  match e with
  | Connect _ => Some s
  | Disconnect peer => on_disconnect peer s
  | Receive a peer channel d => on_receive a peer channel d s
  end.

(** [events]: what ENet delivers until it has no more. *)
Definition pump (now : Z) (events : list NetEvent) (s : UdpServer) : option UdpServer :=
  foldl (fun s e => s ≫= on_net_event e) (Some (expire_hosting_grant now s)) events.

(** ** The sync tick *)

(** world_control.rs. *)
Definition net_object_type (t : EntityWorld.ScriptEntityType) : Clone.NetObjEntityType :=
  match t with
  | EntityWorld.Ped => Clone.Ped
  | EntityWorld.Vehicle => Clone.Automobile
  | EntityWorld.Object => Clone.Object
  end.

Definition apply_world_command (g : ServerGameState) (command : EntityWorld.WorldCommand) : option ServerGameState :=
  match command with
  | EntityWorld.Spawn network_id entity_type model position heading dynamic =>
      snd <$> spawn_server_entity_with_id (u16 network_id) (net_object_type entity_type) model position heading dynamic g
  | EntityWorld.Despawn network_id => snd <$> despawn_entity (u16 network_id) g
  end.

Definition apply_world_commands (s : UdpServer) : option UdpServer :=
  match world_commands s with
  | None => Some s
  | Some pending =>
      let s := s <| world_commands := Some [] |> in
      match onesync s with
      | None => Some s
      | Some g =>
          match foldl (fun g command => g ≫= fun g => apply_world_command g command) (Some g) pending with
          | None => None
          | Some g' => Some (s <| onesync := Some g' |>)
          end
      end
  end.

Definition script_type (t : Clone.NetObjEntityType) : EntityWorld.ScriptEntityType :=
  match t with
  | Clone.Player | Clone.Ped => EntityWorld.Ped
  | _ => if Clone.is_vehicle t then EntityWorld.Vehicle else EntityWorld.Object
  end.

Definition summary_of (e : ServerEntity) : EntityWorld.EntitySummary := {|
  EntityWorld.network_id := object_id e; EntityWorld.owner := owner e; EntityWorld.entity_type := script_type (entity_type e);
  EntityWorld.position := position e; EntityWorld.velocity := velocity e; EntityWorld.routing_bucket := routing_bucket e;
  EntityWorld.health := health e; EntityWorld.max_health := max_health e; EntityWorld.armour := armour e;
  EntityWorld.model := model e; EntityWorld.net_type := Clone.entity_type_as_u8 (entity_type e);
  EntityWorld.first_owner := first_owner e; EntityWorld.heading := heading e;
  EntityWorld.desired_heading := desired_heading e; EntityWorld.sync := nodes e |}.

Definition script_world (values : list ServerEntity) : list EntityWorld.EntitySummary :=
  summary_of <$> List.filter position_known values.

Definition publish_script_world (s : UdpServer) : UdpServer :=
  match onesync s with
  | None => s
  | Some g => s <| entity_world := EntityWorld.publish (script_world (yield (GameState.entities g)).*2) (entity_world s) |>
  end.

(** Phase 1 of a tick: the packets of every client. *)
Definition advance_world (s : UdpServer) (g : ServerGameState) : option (list (Z * list (list Z)) * ServerGameState) :=
  let g := seed_unknown_player_positions (focus_positions s) g in
  let g := reassign_ownerless_server_entities (yield (GameState.entities g)).*2 g in
  let g := game_tick g in
  tick_clients (yield (GameState.entities g)).*2 (yield (clients g)) (focus_positions s) (onesync_cfg s) g.

Definition send_clones (outbound : list (Z * list (list Z))) (s : UdpServer) : UdpServer :=
  foldl (fun s '(source, packets) =>
    foldl (fun s packet => handle_command (SendToSource source 1 packet false) s) s packets) s outbound.

Definition onesync_tick (s : UdpServer) : option UdpServer :=
  match onesync s with
  | None => Some s
  | Some _ =>
      match apply_world_commands (refresh_routing_state s) with
      | None => None
      | Some s =>
          match onesync s with
          | None => None (* [expect] *)
          | Some g =>
              match advance_world s g with
              | None => None
              | Some (outbound, g') => Some (send_clones outbound (publish_script_world (s <| onesync := Some g' |>)))
              end
          end
      end
  end.
End server.

(** ** What the server only sends *)

(** [s'] is [s] with more effects. *)
Definition emits (s s' : UdpServer) : Prop := exists es, s' = s <| effects := effects s ++ es |>.

Lemma emits_refl s : emits s s.
Proof. exists []. destruct s. unfold update_field. cbn. by rewrite app_nil_r. Qed.

Lemma emits_trans s1 s2 s3 : emits s1 s2 -> emits s2 s3 -> emits s1 s3.
Proof. intros [es ->] [es' ->]. exists (es ++ es'). destruct s1. unfold update_field. cbn. by rewrite app_assoc. Qed.

Lemma emits_emit e s : emits s (emit e s).
Proof. by exists [e]. Qed.

Lemma emits_foldl {A} (f : UdpServer -> A -> UdpServer) (l : list A) : (forall s x, emits s (f s x)) ->
  forall s, emits s (foldl f s l).
Proof.
  intros Hf. induction l as [|x l IH]; intros s; [apply emits_refl|]. cbn. by eapply emits_trans; [apply Hf|].
Qed.

Lemma emits_send source channel d reliable s : emits s (handle_command (SendToSource source channel d reliable) s).
Proof. cbn [handle_command]. destruct (source_peers s !! source); [apply emits_emit|apply emits_refl]. Qed.

(** What [emits] leaves alone. *)
Ltac emitted H := let es := fresh "es" in destruct H as [es ->].

#[export] Hint Resolve emits_refl emits_emit emits_send : core.

Section sends.
Context `{Json} `{FormCodec} `{ConvarCodec} `{StateCodec} `{HashOrder} `{Libm} `{Lz4}.

Lemma emits_send_event event to args s : emits s (send_event event to args s).
Proof. unfold send_event. destruct (json_args_to_msgpack _); auto. Qed.

Lemma emits_broadcast net_id base s : emits s (broadcast_host net_id base s).
Proof. apply emits_foldl. auto. Qed.

Lemma emits_free waiters s :
  emits s (foldl (fun s waiter => send_session_host_result waiter (as_bytes "free") s) s waiters).
Proof. apply emits_foldl. intros. apply emits_send_event. Qed.

Lemma emits_announce bucket source name s : emits s (announce_leave bucket source name s).
Proof. apply emits_foldl. intros. apply emits_send_event. Qed.

Lemma emits_introduce source s : emits s (introduce source s).
Proof.
  unfold introduce. apply emits_foldl. intros s' [other sub]. destruct (_ && _); [|apply emits_send_event].
  eapply emits_trans; apply emits_send_event.
Qed.

Lemma emits_convars source s : emits s (send_convars source s).
Proof. unfold send_convars. destruct (encode_convars _); auto. Qed.

Lemma emits_clones outbound s : emits s (send_clones outbound s).
Proof. apply emits_foldl. intros s' [source packets]. apply emits_foldl. auto. Qed.

Lemma emits_outbound o s : emits s (handle_net_outbound o s).
Proof. destruct o; cbn [handle_net_outbound]; [destruct (json_args_to_msgpack _)|]; auto. Qed.

Lemma emits_relay source route s : emits s (relay source route s).
Proof.
  unfold relay. destruct (_ =? _); [auto|]. destruct (negb _); [auto|]. destruct (source_peers s !! _); auto.
Qed.
End sends.

#[export] Hint Resolve emits_send_event emits_broadcast emits_free emits_announce emits_introduce emits_convars
  emits_clones emits_outbound emits_relay : core.

(** ** A peer that has not authenticated *)

Section gate.
Context `{Json} `{FormCodec} `{ConvarCodec} `{StateCodec} `{HashOrder} `{Libm} `{Lz4}.
Variable handlers : StateBags.Routing.RoutingControl -> StateBags.Routing.RoutingControl.

(** C24: until a peer has presented a bound token, nothing it sends, on any
    channel, changes the server or reaches another peer: at most it is sent the
    answer to its own clock request, or dropped. *)
Theorem unauthenticated_inert a peer channel d s :
  peer_sources s !! peer = None ->
  (forall payload connect, read_message_type d = Some (MSG_CONNECT, payload) -> parse_connect payload = Some connect ->
     Players.source_for_token (players s) (token connect) = None) ->
  exists es, on_receive handlers a peer channel d s = Some (s <| effects := effects s ++ es |>) /\
    (es = [] \/ es = [Dropped peer] \/ exists reply, es = [Sent peer 1 true reply]).
Proof.
  intros Hp Ht. unfold on_receive.
  assert (Hs : exists es, Some s = Some (s <| effects := effects s ++ es |>) /\
    (es = [] \/ es = [Dropped peer] \/ exists reply, es = [Sent peer 1 true reply])).
  { exists []. split; [|by left]. destruct s. unfold update_field. cbn. by rewrite app_nil_r. }
  destruct (read_message_type d) as [[ty payload]|] eqn:Em; [|exact Hs].
  destruct (match expected_channel ty with Some _ => _ | None => _ end); [exact Hs|].
  unfold dispatch. destruct (Z.eqb_spec ty MSG_CONNECT) as [->|].
  { unfold on_handshake. destruct (parse_connect payload) as [c|] eqn:Ec; [|exact Hs].
    rewrite (Ht payload c eq_refl Ec). exists [Dropped peer]. eauto. }
  destruct (ty =? MSG_TIME_SYNC_REQ).
  { unfold on_time_sync. destruct (parse_time_sync_request payload); [|exact Hs]. eexists. split; [done|]. eauto. }
  destruct (ty =? MSG_SERVER_EVENT); [unfold on_server_event; rewrite Hp; exact Hs|].
  destruct (ty =? MSG_BASTON_STATE); [unfold on_state_update; rewrite Hp; exact Hs|].
  destruct (ty =? MSG_ROUTE); [unfold on_route; rewrite Hp; exact Hs|].
  destruct (ty =? MSG_REQUEST_OBJECT_IDS); [unfold on_request_object_ids; rewrite Hp; exact Hs|].
  destruct (ty =? GAME_STATE_NACK); [unfold on_game_state_nack, with_game; rewrite Hp; exact Hs|].
  destruct (ty =? GAME_STATE_ACK); [unfold on_game_state_ack, with_game; rewrite Hp; exact Hs|].
  destruct (ty =? MSG_I_HOST); [unfold on_i_host; rewrite Hp; exact Hs|].
  destruct (ty =? MSG_I_QUIT); [|exact Hs].
  unfold on_disconnect. change (peer_sources (emit (Dropped peer) s)) with (peer_sources s). rewrite Hp.
  exists [Dropped peer]. eauto.
Qed.
End gate.

(** ** Every input of the task *)

Section inputs.
Context `{Json} `{FormCodec} `{ConvarCodec} `{StateCodec} `{HashOrder} `{Libm} `{Lz4}.
Variable handlers : StateBags.Routing.RoutingControl -> StateBags.Routing.RoutingControl.

(** A turn of the loop, or what the tasks it shares state with do in between. *)
Inductive Input :=
| Pumped (now : Z) (events : list NetEvent)
| Commanded (cmd : UdpCommand)
| Bridged (outbound : NetOutbound)
| Ticked
| ScriptsRoute (f : StateBags.Routing.RoutingControl -> StateBags.Routing.RoutingControl)
| ScriptsSpawn (command : EntityWorld.WorldCommand)
| ScriptsCall
| GatewayJoins (f : Players.PlayerDirectory -> Players.PlayerDirectory).

Definition input (i : Input) (s : UdpServer) : option UdpServer :=
  match i with
  | Pumped now events => pump handlers now events s
  | Commanded cmd => Some (handle_command cmd s)
  | Bridged outbound => Some (handle_net_outbound outbound s)
  | Ticked => onesync_tick s
  | ScriptsRoute f => Some (s <| routing := f (routing s) |>)
  | ScriptsSpawn command => Some (s <| world_commands := (fun queue => queue ++ [command]) <$> world_commands s |>)
  | ScriptsCall => Some (s <| pending_natives := (register (pending_natives s)).2 |>)
  | GatewayJoins f => Some (s <| players := f (players s) |>)
  end.

Definition inputs (l : list Input) (s : UdpServer) : option UdpServer := foldl (fun s i => s ≫= input i) (Some s) l.

(** Datagrams are bytes. *)
Definition event_ok (e : NetEvent) : Prop := match e with Receive _ _ _ d => bytes_ok d | _ => True end.
Definition input_ok (i : Input) : Prop := match i with Pumped _ events => Forall event_ok events | _ => True end.

End inputs.

(** ** The invariant of the server *)

(** The registry is well formed; someone waits only while a grant is held, and
    never its holder; the scripts' mirror is well formed. *)
Record server_ok (s : UdpServer) : Prop := {
  sv_game : forall g, onesync s = Some g -> game_ok g;
  sv_waiting : host_release_waiters s <> [] -> is_Some (current_hosting s);
  sv_holder : forall holder deadline, current_hosting s = Some (holder, deadline) -> holder ∉ host_release_waiters s;
  sv_view : EntityWorld.view_ok (entity_world s)
}.

Lemma server_ok_same s s' : onesync s' = onesync s -> host_release_waiters s' = host_release_waiters s ->
  current_hosting s' = current_hosting s -> entity_world s' = entity_world s -> server_ok s -> server_ok s'.
Proof. intros E1 E2 E3 E4 [? ? ? ?]. split; rewrite ?E1, ?E2, ?E3, ?E4; done. Qed.

Lemma server_ok_game s g : game_ok g -> server_ok s -> server_ok (s <| onesync := Some g |>).
Proof. intros Hg [? ? ? ?]. split; [|done..]. cbn. intros g' [= <-]. done. Qed.

Lemma server_ok_emits s s' : emits s s' -> server_ok s -> server_ok s'.
Proof. intros [es ->]. by apply server_ok_same. Qed.

Lemma rtc_game_ok `{Libm} g g' : rtc game_step g g' -> game_ok g -> game_ok g'.
Proof. induction 1; [done|]. intros Hg. eauto using reachable_step. Qed.

(** *** The game state under each operation *)

Section game.
Context `{Libm} `{HashOrder}.

Lemma rtc_foldl {A} (f : ServerGameState -> A -> ServerGameState) l : (forall g x, rtc game_step g (f g x)) ->
  forall g, rtc game_step g (foldl f g l).
Proof. intros Hf. induction l as [|x l IH]; intros g; [done|]. cbn. by etrans; [apply Hf|]. Qed.

Lemma mirror_policy_steps rc g bucket : rtc game_step g (mirror_policy rc g bucket).
Proof. eapply rtc_l; [apply step_registry|]. eapply rtc_once, step_registry. Qed.

Lemma mirror_source_steps rc g source : rtc game_step g (mirror_source rc g source).
Proof. eapply rtc_once, step_registry. Qed.

Lemma mirror_entity_steps rc g id : rtc game_step g (mirror_entity rc g id).
Proof. eapply rtc_once, step_bucket. Qed.

Lemma mirror_all_steps rc g : rtc game_step g (mirror_all rc g).
Proof.
  unfold mirror_all. etrans; [apply (rtc_foldl (mirror_source rc)); intros; apply mirror_source_steps|].
  etrans; [apply (rtc_foldl (mirror_entity rc)); intros; apply mirror_entity_steps|].
  apply (rtc_foldl (mirror_policy rc)). intros. apply mirror_policy_steps.
Qed.

Lemma yield_values g : (yield (GameState.entities g)).*2 ≡ₚ entity_values g.
Proof. unfold entity_values. by rewrite yield_perm. Qed.

Lemma tick_clients_total `{Lz4} values cs fallback cfg g :
  exists packets g', tick_clients values cs fallback cfg g = Some (packets, g').
Proof.
  unfold tick_clients. destruct (mapM _ cs) as [plans|] eqn:Em; [by eexists _, _|exfalso].
  apply eq_None_not_Some in Em. apply Em, mapM_is_Some, Forall_forall. intros [source state] _. cbn.
  destruct (default _ _) as [focus velocity].
  destruct (tick_rule focus velocity (player_bucket (routing_buckets g) source) (world_snapshot g)
    (InterestNg.build (world_snapshot g) (query_radius cfg)) cfg (view state) (fun _ => True)) as (st & -> & _); [done|done|].
  by eexists.
Qed.

Lemma world_command_ok g command : game_ok g -> exists g', apply_world_command g command = Some g' /\ game_ok g'.
Proof.
  intros Hg. destruct command as [id ty mdl p hd dyn|id]; cbn [apply_world_command].
  - destruct (spawn_cases (u16 id) (net_object_type ty) mdl p hd dyn g Hg) as (b & g' & -> & Hok & _);
      [by apply (is_u_mod 16)|]. by exists g'.
  - destruct (despawn_entity (u16 id) g) as [[b g']|] eqn:Ed.
    + exists g'. split; [done|]. by eapply reachable_step; [eapply step_despawn|].
    + exfalso. unfold despawn_entity in Ed. destruct (GameState.entities g !! u16 id) as [e|] eqn:Ee; [|done].
      destruct (ok_entity g Hg _ e Ee) as [_ Hr]. destruct (forget_rewritten g (u16 id) Hg Hr) as (g1 & Hf & _).
      by rewrite Hf in Ed.
Qed.

Lemma world_commands_ok l : forall g, game_ok g ->
  exists g', foldl (fun g command => g ≫= fun g => apply_world_command g command) (Some g) l = Some g' /\ game_ok g'.
Proof.
  induction l as [|c l IH]; intros g Hg; [by exists g|]. cbn [foldl mbind option_bind].
  destruct (world_command_ok g c Hg) as (g' & -> & Hg'). by apply IH.
Qed.

End game.

(** *** The server under each operation *)

Section operations.
Context `{Json} `{FormCodec} `{ConvarCodec} `{StateCodec} `{HashOrder} `{Libm} `{Lz4Laws}.
Variable handlers : StateBags.Routing.RoutingControl -> StateBags.Routing.RoutingControl.

Lemma released_grant_ok s : server_ok s -> server_ok (release_hosting_grant s).
Proof.
  intros [Hg _ _ Hv]. eapply server_ok_emits; [apply emits_free|]. by split.
Qed.

Lemma expire_ok now s : server_ok s -> server_ok (expire_hosting_grant now s).
Proof.
  intros Hs. unfold expire_hosting_grant. destruct (current_hosting s) as [[h deadline]|]; [|done].
  destruct (_ <=? _); [by apply released_grant_ok|done].
Qed.

Lemma grant_ok now source s : server_ok s -> server_ok (grant_hosting now source s).
Proof.
  intros Hs. unfold grant_hosting. destruct (current_hosting s) as [[holder deadline]|] eqn:Ec.
  - destruct (Z.eqb_spec holder source) as [|Hne]; [by eapply server_ok_emits; [apply emits_send_event|]|].
    eapply server_ok_emits; [apply emits_send_event|]. destruct Hs as [Hg Hw Hh Hv]. split; [done| | |done].
    + intros _. cbn. rewrite Ec. by eexists.
    + intros h d. cbn. rewrite Ec. intros [= <- <-] Hin. apply elem_of_app in Hin as [Hin|Hin].
      * by apply (Hh holder deadline Ec).
      * apply list_elem_of_singleton in Hin. congruence.
  - eapply server_ok_emits; [apply emits_send_event|]. destruct Hs as [Hg Hw Hh Hv].
    assert (Hn : host_release_waiters s = []).
    { destruct (host_release_waiters s); [done|]. destruct Hw as [? [=]]; [done|]. congruence. }
    split; [done| | |done]; cbn; rewrite Hn; [done|]. intros h d _ Hin. by apply elem_of_nil in Hin.
Qed.

Lemma hosting_ok now source s : server_ok s -> server_ok (on_hosting_session now source s).
Proof.
  intros Hs. apply (expire_ok now) in Hs. unfold on_hosting_session. generalize dependent (expire_hosting_grant now s).
  intros s1 Hs. destruct (session_host s1) as [[host base]|]; [|by apply grant_ok].
  destruct (_ && _); [by eapply server_ok_emits; [apply emits_send_event|]|by apply grant_ok].
Qed.

Lemma hosted_ok source s : server_ok s -> server_ok (on_hosted_session source s).
Proof.
  intros Hs. unfold on_hosted_session. destruct (current_hosting s) as [[h d]|]; [|done].
  destruct (_ =? _); [by apply released_grant_ok|done].
Qed.

Lemma refresh_source_ok source s : server_ok s -> server_ok (refresh_routing_source source s).
Proof.
  intros Hs. unfold refresh_routing_source. destruct (onesync s) as [g|] eqn:Eg; [|done].
  apply server_ok_game; [|done]. eapply rtc_game_ok; [|by apply (sv_game s Hs)].
  etrans; [apply mirror_source_steps|apply mirror_policy_steps].
Qed.

Lemma refresh_state_ok s : server_ok s -> server_ok (refresh_routing_state s).
Proof.
  intros Hs. unfold refresh_routing_state. destruct (_ =? _); [done|]. destruct (onesync s) as [g|] eqn:Eg; [|done].
  apply (server_ok_same (s <| onesync := Some (mirror_all (routing s) g) |>)); [done..|].
  apply server_ok_game; [|done]. eapply rtc_game_ok; [apply mirror_all_steps|by apply (sv_game s Hs)].
Qed.

Lemma subscribe_ok source s : server_ok s -> server_ok (subscribe source s).
Proof. unfold subscribe. destruct (state_ingest s); [by apply server_ok_same|done]. Qed.

Lemma join_ok source s : server_ok s ->
  server_ok match onesync s with Some g => s <| onesync := Some (add_client source g) |> | None => s end.
Proof.
  intros Hs. destruct (onesync s) as [g|] eqn:Eg; [|done]. apply server_ok_game; [|done].
  eapply reachable_step; [apply step_add|by apply (sv_game s Hs)].
Qed.

Lemma post_connect_ok source baston s : server_ok s -> server_ok (send_post_connect source baston s).
Proof.
  intros Hs. unfold send_post_connect. eapply server_ok_emits; [apply emits_emit|].
  apply join_ok with (source := source), (refresh_source_ok source) in Hs.
  eapply server_ok_emits in Hs; [|apply (emits_convars source)].
  destruct baston; [done|]. by eapply server_ok_emits; [apply emits_introduce|].
Qed.

Lemma handshake_ok sent peer payload s : server_ok s -> server_ok (on_handshake sent peer payload s).
Proof.
  intros Hs. unfold on_handshake. destruct (parse_connect payload) as [c|]; [|done].
  destruct (Players.source_for_token _ _) as [source|]; [|by eapply server_ok_emits; [apply emits_emit|]].
  destruct sent; cbn [negb]; [|by revert Hs; apply server_ok_same].
  apply post_connect_ok. destruct (is_baston_client payload); [apply subscribe_ok|]; by revert Hs; apply server_ok_same.
Qed.

Lemma clone_stream_ok source d s : bytes_ok d -> server_ok s ->
  exists s', on_clone_stream source d s = Some s' /\ server_ok s'.
Proof.
  intros Hd Hs. apply (refresh_source_ok source) in Hs. unfold on_clone_stream.
  generalize dependent (refresh_routing_source source s). intros s1 Hs.
  destruct (onesync s1) as [g|] eqn:Eg; [|by exists s1].
  destruct (ingest_payload_effect source d g (sv_game s1 Hs g Eg) Hd) as (o & g' & -> & Heff).
  eexists. split; [done|]. eapply server_ok_emits; [apply emits_foldl; auto|]. apply server_ok_game; [apply Heff|done].
Qed.

Lemma route_ok peer payload s : bytes_ok payload -> server_ok s -> exists s', on_route peer payload s = Some s' /\ server_ok s'.
Proof.
  intros Hp Hs. unfold on_route. destruct (peer_sources s !! peer) as [source|]; [|by exists s].
  destruct (parse_client_route payload) as [route|] eqn:Er; [|by exists s].
  destruct (onesync s); [|eexists; split; [done|by eapply server_ok_emits; [apply emits_relay|]]].
  apply clone_stream_ok; [|done]. unfold parse_client_route in Er. destruct (_ <? _)%nat; [done|].
  injection Er as <-. by apply Forall_drop.
Qed.

Lemma with_game_ok peer f s : (forall source g, rtc game_step g (f source g)) -> server_ok s -> server_ok (with_game peer f s).
Proof.
  intros Hf Hs. unfold with_game. destruct (peer_sources s !! peer) as [source|]; [|done].
  destruct (onesync s) as [g|] eqn:Eg; [|done]. apply server_ok_game; [|done].
  eapply rtc_game_ok; [apply Hf|by apply (sv_game s Hs)].
Qed.

Lemma request_ids_ok peer s : server_ok s -> exists s', on_request_object_ids peer s = Some s' /\ server_ok s'.
Proof.
  intros Hs. unfold on_request_object_ids. destruct (peer_sources s !! peer) as [source|]; [|by exists s].
  destruct (onesync s) as [g|] eqn:Eg; [|by exists s].
  destruct (lease_ok source (Z.to_nat (ids_per_request g)) g (sv_game s Hs g Eg)) as (l & g1 & _ & Hl & Hok & _).
  rewrite Hl. eexists. split; [done|]. eapply server_ok_emits; [apply emits_send|]. by apply server_ok_game.
Qed.

Lemma ingest_apply_ok checked stamped fresh source update s : server_ok s ->
  server_ok (ingest_apply checked stamped fresh source update s).
Proof. unfold ingest_apply. destruct (state_ingest s); [by apply server_ok_same|done]. Qed.

Lemma forward_ok source update s : server_ok s -> server_ok (forward source update s).
Proof. unfold forward. destruct (mesh_forward s); [by apply server_ok_same|done]. Qed.

Lemma focus_ok source update s : server_ok s -> server_ok (focus_on source update s).
Proof. unfold focus_on. destruct (is_some _); [by apply server_ok_same|done]. Qed.

Lemma state_update_ok a peer payload s : server_ok s -> server_ok (on_state_update a peer payload s).
Proof.
  intros Hs. unfold on_state_update. destruct (peer_sources s !! peer) as [source|]; [|done].
  destruct (parse_state_update payload) as [update|]; [|done].
  destruct (is_some _); [by apply ingest_apply_ok, forward_ok, subscribe_ok, focus_ok|by apply focus_ok].
Qed.

Lemma debug_toggle_ok now source on s : server_ok s -> server_ok (on_debug_info_toggle now source on s).
Proof.
  intros Hs. unfold on_debug_info_toggle. destruct (DebugFeed.toggle _ _ _ _ _) as [outcome feed].
  assert (Hd : server_ok (s <| debug := feed |>)) by by revert Hs; apply server_ok_same.
  destruct outcome; [done|done|..]; by eapply server_ok_emits; [apply emits_send_event|].
Qed.

Lemma native_result_ok a args s : server_ok s -> server_ok (on_native_result a args s).
Proof.
  intros Hs. unfold on_native_result. destruct (elem args 0 ≫= as_u64) as [id|]; [|done].
  destruct (Events.resolve _ _ _) as [[] p]; by revert Hs; apply server_ok_same.
Qed.

Lemma server_event_ok a peer payload s : server_ok s -> server_ok (on_server_event a peer payload s).
Proof.
  intros Hs. unfold on_server_event. destruct (peer_sources s !! peer) as [source|]; [|done].
  destruct (parse_server_event payload) as [event|]; [|done]. destruct (msgpack_to_json_args _) as [args|]; [|done].
  case_bool_decide; [by apply hosting_ok|]. case_bool_decide; [by apply hosted_ok|].
  case_bool_decide; [by apply native_result_ok|]. case_bool_decide.
  { unfold on_state_event. destruct (client_state_update_from_json args) as [update|]; [|done].
    by apply ingest_apply_ok, forward_ok, focus_ok. }
  case_bool_decide; [by apply debug_toggle_ok|]. by revert Hs; apply server_ok_same.
Qed.

Lemma i_host_ok peer payload s : server_ok s -> server_ok (on_i_host peer payload s).
Proof.
  intros Hs. unfold on_i_host. destruct (peer_sources s !! peer) as [source|]; [|done].
  destruct (parse_i_host payload) as [base|]; [|done]. destruct (is_some _); [done|].
  eapply server_ok_emits; [apply emits_broadcast|]. by revert Hs; apply server_ok_same.
Qed.

Lemma clear_host_ok source s : server_ok s -> server_ok (clear_host source s).
Proof.
  intros Hs. unfold clear_host. destruct (session_host s) as [[id base]|]; [|done]. destruct (_ =? _); [|done].
  eapply server_ok_emits; [apply emits_broadcast|]. by revert Hs; apply server_ok_same.
Qed.

Lemma leave_arbitration_ok source s : server_ok s -> server_ok (leave_arbitration source s).
Proof.
  intros [Hg Hw Hh Hv]. apply hosted_ok. split; [done| | |done]; cbn.
  - intros Hne. apply Hw. by intros E; rewrite E in Hne.
  - intros h d Hc Hin. apply (Hh h d Hc). by apply list_elem_of_In, filter_In in Hin as [Hin%list_elem_of_In _].
Qed.

Lemma leave_game_ok source s : server_ok s -> exists s', leave_game source s = Some s' /\ server_ok s'.
Proof.
  intros Hs. unfold leave_game. destruct (onesync s) as [g|] eqn:Eg; [|by exists s].
  destruct (remove_client_spec source (yield (GameState.entities g)) g (sv_game s Hs g Eg) (yield_perm _))
    as (l & g' & -> & Hok & _).
  eexists. split; [done|]. by apply server_ok_game.
Qed.

Lemma drop_ingest_ok source s : server_ok s -> server_ok (drop_ingest source s).
Proof. unfold drop_ingest. destruct (state_ingest s); [by apply server_ok_same|done]. Qed.

Lemma if_emit_ok (b : bool) e s : server_ok s -> server_ok (if b then emit e s else s).
Proof. destruct b; [by apply server_ok_same|done]. Qed.

Lemma bystanders_ok source s : server_ok s -> let s1 := drop_ingest source s in
  let s2 := if voice s1 then emit (VoiceDropped source) s1 else s1 in
  server_ok (if mesh_forward s2 then emit (PlayerDropped source) s2 else s2).
Proof. intros Hs. cbv zeta. by apply if_emit_ok, if_emit_ok, drop_ingest_ok. Qed.

Lemma disconnect_ok peer s : server_ok s -> exists s', on_disconnect handlers peer s = Some s' /\ server_ok s'.
Proof.
  intros Hs. unfold on_disconnect. destruct (peer_sources s !! peer) as [source|]; [|by exists s].
  set (s1 := s <| peer_sources := _ |> <| source_peers := _ |> <| focus_positions := _ |> <| debug := _ |>).
  assert (Hs1 : server_ok s1) by by revert Hs; apply server_ok_same. clearbody s1.
  apply (clear_host_ok source), (leave_arbitration_ok source), (bystanders_ok source) in Hs1. cbv zeta in Hs1.
  destruct (leave_game_ok source _ Hs1) as (s3 & -> & Hs3).
  destruct (Players.remove source (players s3)) as [info players']. eexists. split; [done|].
  apply (server_ok_same (announce_leave (StateBags.Routing.player_bucket (routing s) source) source
    (default [] (Players.name <$> info)) (s3 <| players := players' |>))); [done..|].
  eapply server_ok_emits; [apply emits_announce|]. by revert Hs3; apply server_ok_same.
Qed.

Lemma receive_ok a peer channel d s : bytes_ok d -> server_ok s ->
  exists s', on_receive handlers a peer channel d s = Some s' /\ server_ok s'.
Proof.
  intros Hd Hs. unfold on_receive. destruct (read_message_type d) as [[ty payload]|] eqn:Em; [|by exists s].
  assert (Hp : bytes_ok payload).
  { unfold read_message_type in Em. destruct (_ <? _)%nat; [done|]. injection Em as _ <-. by apply Forall_drop. }
  destruct (match expected_channel ty with Some _ => _ | None => _ end); [by exists s|]. unfold dispatch.
  destruct (_ =? _); [eexists; split; [done|by apply handshake_ok]|].
  destruct (_ =? _).
  { eexists. split; [done|]. unfold on_time_sync. destruct (parse_time_sync_request payload); [|done].
    by revert Hs; apply server_ok_same. }
  destruct (_ =? _); [eexists; split; [done|by apply server_event_ok]|].
  destruct (_ =? _); [eexists; split; [done|by apply state_update_ok]|].
  destruct (_ =? _); [by apply route_ok|].
  destruct (_ =? _); [by apply request_ids_ok|].
  destruct (_ =? _).
  { eexists. split; [done|]. apply with_game_ok; [|done]. intros source g. destruct (parse_nack payload); [|done].
    eapply rtc_once, step_nack. }
  destruct (_ =? _).
  { eexists. split; [done|]. apply with_game_ok; [|done]. intros source g. destruct (parse_ack payload); [|done].
    eapply rtc_once, step_ack. }
  destruct (_ =? _); [eexists; split; [done|by apply i_host_ok]|].
  destruct (_ =? _); [|by exists s]. apply disconnect_ok. by revert Hs; apply server_ok_same.
Qed.

Lemma events_ok events : Forall event_ok events -> forall s, server_ok s ->
  exists s', foldl (fun s e => s ≫= on_net_event handlers e) (Some s) events = Some s' /\ server_ok s'.
Proof.
  induction 1 as [|e l He _ IH]; intros s Hs; [by exists s|]. cbn [foldl mbind option_bind].
  assert (Hstep : exists s1, on_net_event handlers e s = Some s1 /\ server_ok s1).
  { destruct e; cbn [on_net_event]; [by exists s|by apply disconnect_ok|by apply receive_ok]. }
  destruct Hstep as (s1 & -> & Hs1). by apply IH.
Qed.

Lemma apply_world_ok s : server_ok s -> exists s', apply_world_commands s = Some s' /\ server_ok s' /\
  is_some (onesync s') = is_some (onesync s).
Proof.
  intros Hs. unfold apply_world_commands. destruct (world_commands s) as [pending|]; [|by exists s].
  change (onesync (s <| world_commands := Some [] |>)) with (onesync s).
  assert (Hs1 : server_ok (s <| world_commands := Some [] |>)) by by revert Hs; apply server_ok_same.
  destruct (onesync s) as [g|] eqn:Eg; [|eexists; split_and!; [done|done|by cbn; rewrite Eg]].
  destruct (world_commands_ok pending g (sv_game s Hs g Eg)) as (g' & -> & Hg').
  eexists. split_and!; [done|by apply server_ok_game|done].
Qed.

Lemma advance_ok s g : game_ok g -> exists out g', advance_world s g = Some (out, g') /\ game_ok g'.
Proof.
  intros Hg. unfold advance_world. set (g1 := game_tick _).
  assert (Hg1 : game_ok g1).
  { eapply rtc_game_ok; [|exact Hg]. eapply rtc_l; [apply step_seed|].
    eapply rtc_l; [apply step_reassign, yield_values|]. eapply rtc_once, step_frame. }
  destruct (tick_clients_total (yield (GameState.entities g1)).*2 (yield (clients g1)) (focus_positions s) (onesync_cfg s) g1)
    as (out & g' & Ht).
  exists out, g'. split; [exact Ht|]. eapply reachable_step; [|exact Hg1]. by eapply step_tick_all; [apply yield_perm|exact Ht].
Qed.

Lemma publish_world_ok s : server_ok s -> server_ok (publish_script_world s).
Proof.
  intros Hs. unfold publish_script_world. destruct (onesync s); [|done]. destruct Hs as [? ? ? ?]. split; [done..|].
  by apply EntityWorld.publish_ok.
Qed.

(** A tick of an enabled server: what it publishes and sends comes from one
    state of the game. *)
Lemma tick_shape s g : server_ok s -> onesync s = Some g -> exists s1 out g',
  server_ok s1 /\ game_ok g' /\
  onesync_tick s = Some (send_clones out (publish_script_world (s1 <| onesync := Some g' |>))).
Proof.
  intros Hs Eg. unfold onesync_tick. rewrite Eg.
  assert (Hi : is_some (onesync (refresh_routing_state s)) = true).
  { unfold refresh_routing_state. destruct (_ =? _); by rewrite Eg. }
  destruct (apply_world_ok _ (refresh_state_ok s Hs)) as (s1 & -> & Hs1 & Ho). rewrite Hi in Ho.
  destruct (onesync s1) as [g1|] eqn:Eg1; [|done].
  destruct (advance_ok s1 g1 (sv_game s1 Hs1 g1 Eg1)) as (out & g' & -> & Hg'). by exists s1, out, g'.
Qed.

Lemma tick_ok s : server_ok s -> exists s', onesync_tick s = Some s' /\ server_ok s'.
Proof.
  intros Hs. destruct (onesync s) as [g|] eqn:Eg; [|exists s; split; [|done]; unfold onesync_tick; by rewrite Eg].
  destruct (tick_shape s g Hs Eg) as (s1 & out & g' & Hs1 & Hg' & ->). eexists. split; [done|].
  eapply server_ok_emits; [apply emits_clones|]. by apply publish_world_ok, server_ok_game.
Qed.

Lemma input_server_ok i s : input_ok i -> server_ok s -> exists s', input handlers i s = Some s' /\ server_ok s'.
Proof.
  intros Hi Hs. destruct i; cbn [input]; try by eexists; split; [done|]; revert Hs; apply server_ok_same.
  - apply events_ok; [done|]. by apply expire_ok.
  - eexists. split; [done|]. destruct cmd; cbn [handle_command]; repeat case_match; try done; by revert Hs; apply server_ok_same.
  - eexists. split; [done|]. by eapply server_ok_emits; [apply emits_outbound|].
  - by apply tick_ok.
Qed.

(** C4: whatever datagrams clients send, in whatever order the turns of the
    loop interleave with the scripts and the gateway, the task never panics,
    the script handlers it awaits taken as returning;
    the registry stays well formed, and in the host arbitration someone waits
    only while a grant is held, never its holder. *)
Theorem server_never_panics l : forall s, Forall input_ok l -> server_ok s ->
  exists s', inputs handlers l s = Some s' /\ server_ok s'.
Proof.
  unfold inputs. induction l as [|i l IH]; intros s Hl Hs; [by exists s|].
  apply Forall_cons in Hl as [Hi Hl]. cbn [foldl mbind option_bind].
  destruct (input_server_ok i s Hi Hs) as (s1 & -> & Hs1). by apply IH.
Qed.

End operations.

(** ** Disconnection *)

Section disconnection.
Context `{Json} `{FormCodec} `{ConvarCodec} `{StateCodec} `{HashOrder} `{Libm} `{Lz4}.
Variable handlers : StateBags.Routing.RoutingControl -> StateBags.Routing.RoutingControl.

(** The fields the steps of a disconnection leave alone once they are set. *)
Definition core (s : UdpServer) :=
  (peer_sources s, source_peers s, focus_positions s, debug s, players s, routing s).

Lemma core_joined s p : core (s <| players := p |>) = let '(a, b, c, d, _, r) := core s in (a, b, c, d, p, r).
Proof. done. Qed.

Lemma core_left s e r : core ((emit e s) <| routing := r |>) = let '(a, b, c, d, p, _) := core s in (a, b, c, d, p, r).
Proof. done. Qed.

Lemma emits_fields s s' : emits s s' -> core s' = core s /\ onesync s' = onesync s /\ session_host s' = session_host s /\
  current_hosting s' = current_hosting s /\ host_release_waiters s' = host_release_waiters s.
Proof. by intros [es ->]. Qed.

Lemma clear_host_fields source s : let s' := clear_host source s in
  core s' = core s /\ onesync s' = onesync s /\ current_hosting s' = current_hosting s /\
  host_release_waiters s' = host_release_waiters s /\ forall base, session_host s' <> Some (source, base).
Proof.
  cbv zeta. unfold clear_host. destruct (session_host s) as [[id base]|] eqn:Eh.
  - destruct (Z.eqb_spec id source) as [_|Hne].
    + destruct (emits_fields _ _ (emits_broadcast 65535 0 (s <| session_host := None |>))) as (-> & -> & -> & -> & ->). done.
    + split_and!; [done..|]. rewrite Eh. congruence.
  - split_and!; [done..|]. by rewrite Eh.
Qed.

Lemma release_fields s : let s' := release_hosting_grant s in
  core s' = core s /\ onesync s' = onesync s /\ session_host s' = session_host s /\
  current_hosting s' = None /\ host_release_waiters s' = [].
Proof.
  cbv zeta. unfold release_hosting_grant.
  destruct (emits_fields _ _ (emits_free (host_release_waiters s) (s <| current_hosting := None |> <| host_release_waiters := [] |>)))
    as (-> & -> & -> & -> & ->). done.
Qed.

Lemma leave_arbitration_fields source s : let s' := leave_arbitration source s in
  core s' = core s /\ onesync s' = onesync s /\ session_host s' = session_host s /\
  (source ∉ host_release_waiters s') /\ forall deadline, current_hosting s' <> Some (source, deadline).
Proof.
  cbv zeta. unfold leave_arbitration, on_hosted_session.
  set (s1 := s <| host_release_waiters := _ |>).
  assert (Hw : source ∉ host_release_waiters s1).
  { intros Hin. apply list_elem_of_In, filter_In in Hin as [_ Hin]. by rewrite Z.eqb_refl in Hin. }
  destruct (current_hosting s1) as [[h d]|] eqn:Ec.
  - destruct (Z.eqb_spec h source) as [_|Hne].
    + destruct (release_fields s1) as (-> & -> & -> & -> & ->). split_and!; try done. apply not_elem_of_nil.
    + split_and!; try done. rewrite Ec. congruence.
  - split_and!; try done. by rewrite Ec.
Qed.

Lemma bystanders_fields source s : let s1 := drop_ingest source s in
  let s2 := if voice s1 then emit (VoiceDropped source) s1 else s1 in
  let s' := if mesh_forward s2 then emit (PlayerDropped source) s2 else s2 in
  core s' = core s /\ onesync s' = onesync s /\ session_host s' = session_host s /\
  current_hosting s' = current_hosting s /\ host_release_waiters s' = host_release_waiters s.
Proof.
  cbv zeta. set (s1 := drop_ingest source s).
  assert (Hf : core s1 = core s /\ onesync s1 = onesync s /\ session_host s1 = session_host s /\
    current_hosting s1 = current_hosting s /\ host_release_waiters s1 = host_release_waiters s).
  { unfold s1, drop_ingest. by destruct (state_ingest s). }
  clearbody s1. by destruct (voice s1); destruct (mesh_forward _).
Qed.

Lemma leave_game_fields source s : server_ok s -> exists s', leave_game source s = Some s' /\
  core s' = core s /\ session_host s' = session_host s /\ current_hosting s' = current_hosting s /\
  host_release_waiters s' = host_release_waiters s /\
  match onesync s, onesync s' with
  | Some g, Some g' => clients g' = delete source (clients g) /\
      forall id, GameState.entities g' !! id = GameState.entities g !! id ≫= after_leave source
  | None, None => True
  | _, _ => False
  end.
Proof.
  intros Hs. unfold leave_game. destruct (onesync s) as [g|] eqn:Eg.
  - destruct (remove_client_spec source (yield (GameState.entities g)) g (sv_game s Hs g Eg) (yield_perm _))
      as (l & g' & -> & _ & Hcl & _ & He & _).
    eexists. split; [done|]. split_and!; done.
  - exists s. split_and!; try done. by rewrite Eg.
Qed.

(** What a disconnection leaves, field by field. *)
Lemma disconnect_fields peer source s : server_ok s -> peer_sources s !! peer = Some source ->
  exists s', on_disconnect handlers peer s = Some s' /\
    core s' = (delete peer (peer_sources s), delete source (source_peers s), delete source (focus_positions s),
               DebugFeed.forget source (debug s), (Players.remove source (players s)).2,
               StateBags.Routing.set_player_bucket source 0 (handlers (routing s))) /\
    (forall base, session_host s' <> Some (source, base)) /\ (source ∉ host_release_waiters s') /\
    (forall deadline, current_hosting s' <> Some (source, deadline)) /\
    match onesync s, onesync s' with
    | Some g, Some g' => clients g' = delete source (clients g) /\
        forall id, GameState.entities g' !! id = GameState.entities g !! id ≫= after_leave source
    | None, None => True
    | _, _ => False
    end.
Proof.
  intros Hs Hp. unfold on_disconnect. rewrite Hp.
  set (s1 := s <| peer_sources := _ |> <| source_peers := _ |> <| focus_positions := _ |> <| debug := _ |>).
  assert (Hc1 : core s1 = (delete peer (peer_sources s), delete source (source_peers s), delete source (focus_positions s),
    DebugFeed.forget source (debug s), players s, routing s)) by done.
  assert (Ho1 : onesync s1 = onesync s) by done.
  assert (Hs1 : server_ok s1) by by revert Hs; apply server_ok_same.
  clearbody s1. destruct (clear_host_fields source s1) as (Hc2 & Ho2 & _ & _ & Hh2).
  apply (clear_host_ok source) in Hs1. set (s2 := clear_host source s1) in *. clearbody s2.
  destruct (leave_arbitration_fields source s2) as (Hc3 & Ho3 & Hh3 & Hw3 & Hg3).
  apply (leave_arbitration_ok source) in Hs1. set (s3 := leave_arbitration source s2) in *. clearbody s3.
  destruct (bystanders_fields source s3) as (Hc4 & Ho4 & Hh4 & Hg4 & Hw4).
  apply (bystanders_ok source) in Hs1. cbv zeta in *.
  set (s4 := if mesh_forward _ then _ else _) in *. clearbody s4.
  destruct (leave_game_fields source s4 Hs1) as (s5 & -> & Hc5 & Hh5 & Hg5 & Hw5 & Ho5).
  destruct (Players.remove source (players s5)) as [info players'] eqn:Er.
  match goal with |- context [announce_leave ?b ?x ?n ?y] =>
    destruct (emits_fields _ _ (emits_announce b x n y)) as (Hc6 & Ho6 & Hh6 & Hg6 & Hw6);
    set (s6 := announce_leave b x n y) in *; clearbody s6 end.
  rewrite <- Hc2, <- Hc3, <- Hc4, <- Hc5 in Hc1. rewrite <- Ho1, <- Ho2, <- Ho3, <- Ho4.
  assert (Hpl : players' = (Players.remove source (players s)).2).
  { change (players s5) with ((core s5).1.2) in Er. rewrite Hc1 in Er. by rewrite (surjective_pairing (Players.remove _ _)) in Er; injection Er. }
  eexists. split; [done|]. split.
  { rewrite core_left. change (routing (emit _ s6)) with ((core s6).2). rewrite Hc6, core_joined, Hc1. cbn. by rewrite Hpl. }
  split; [intros base; change (session_host s6 <> Some (source, base)); rewrite Hh6;
    change (session_host s5 <> Some (source, base)); rewrite Hh5, Hh4, Hh3; apply Hh2|].
  split; [change (source ∉ host_release_waiters s6); rewrite Hw6; change (source ∉ host_release_waiters s5); by rewrite Hw5, Hw4|].
  split; [intros deadline; change (current_hosting s6 <> Some (source, deadline)); rewrite Hg6;
    change (current_hosting s5 <> Some (source, deadline)); rewrite Hg5, Hg4; apply Hg3|].
  change (match onesync s4, onesync s6 with
    | Some g, Some g' => clients g' = delete source (clients g) /\
        forall id, GameState.entities g' !! id = GameState.entities g !! id ≫= after_leave source
    | None, None => True
    | _, _ => False
    end). rewrite Ho6. exact Ho5.
Qed.

End disconnection.

(** ** A player that connects again *)

Section reconnection.
Context `{Json} `{FormCodec} `{ConvarCodec} `{StateCodec} `{HashOrder} `{Libm} `{Lz4}.
Variable handlers : StateBags.Routing.RoutingControl -> StateBags.Routing.RoutingControl.

(** What a handshake may not change. *)
Definition registered (s : UdpServer) := (peer_sources s, source_peers s, players s).

Lemma emits_registered s s' : emits s s' -> registered s' = registered s.
Proof. by intros [es ->]. Qed.

Lemma post_connect_registered source baston s : registered (send_post_connect source baston s) = registered s.
Proof.
  unfold send_post_connect. set (s1 := match onesync s with Some _ => _ | None => _ end).
  assert (Hr1 : registered s1 = registered s) by (unfold s1; by destruct (onesync s)). clearbody s1.
  set (s2 := refresh_routing_source source s1).
  assert (Hr2 : registered s2 = registered s1) by (unfold s2, refresh_routing_source; by destruct (onesync s1)). clearbody s2.
  pose proof (emits_registered _ _ (emits_convars source s2)) as Hr3. set (s3 := send_convars source s2) in *. clearbody s3.
  destruct baston.
  - change (registered s3 = registered s). congruence.
  - change (registered (introduce source s3) = registered s). rewrite (emits_registered _ _ (emits_introduce source s3)). congruence.
Qed.

Lemma handshake_registered sent peer payload connect source s :
  parse_connect payload = Some connect -> Players.source_for_token (players s) (token connect) = Some source ->
  registered (on_handshake sent peer payload s) =
    (<[peer := source]> (peer_sources s), <[source := peer]> (source_peers s), players s).
Proof.
  intros Hc Ht. unfold on_handshake. rewrite Hc, Ht. destruct sent; cbn [negb]; [|done].
  rewrite post_connect_registered. destruct (is_baston_client payload); [|done].
  unfold subscribe. match goal with |- context [match state_ingest ?x with _ => _ end] => by destruct (state_ingest x) end.
Qed.

(** a player that reconnects is lost to its old connection. The handshake
    of a second peer with the same token leaves the first one mapped; when the
    first peer times out, the player that plays on the second one is removed
    from the directory and nothing can be sent to it any more, though its peer is
    still mapped to it. *)
Theorem reconnect_then_timeout old new payload connect source s :
  server_ok s -> old <> new -> parse_connect payload = Some connect ->
  Players.source_for_token (players s) (token connect) = Some source ->
  let joined := on_handshake true new payload (on_handshake true old payload s) in
  source_peers joined !! source = Some new /\ Players.get (players joined) source = Players.get (players s) source /\
  exists s', on_disconnect handlers old joined = Some s' /\
    peer_sources s' !! new = Some source /\ source_peers s' !! source = None /\ Players.get (players s') source = None /\
    Players.source_for_token (players s') (token connect) = None.
Proof.
  intros Hs Hne Hc Ht. cbv zeta. set (first := on_handshake true old payload s).
  pose proof (handshake_registered true old payload connect source s Hc Ht) as Hf. fold first in Hf. injection Hf as F1 F2 F3.
  assert (Ht' : Players.source_for_token (players first) (token connect) = Some source) by by rewrite F3.
  pose proof (handshake_registered true new payload connect source first Hc Ht') as Hj. injection Hj as J1 J2 J3.
  rewrite J2, J3, F3. split; [apply lookup_insert_eq|]. split; [done|].
  assert (Hold : peer_sources (on_handshake true new payload first) !! old = Some source).
  { rewrite J1, F1, lookup_insert_ne by done. apply lookup_insert_eq. }
  assert (Hok : server_ok (on_handshake true new payload first)) by by apply handshake_ok, handshake_ok.
  destruct (disconnect_fields handlers old source _ Hok Hold) as (s' & -> & Hco & _).
  assert (E5 : players s' = (Players.remove source (players (on_handshake true new payload first))).2)
    by exact (f_equal (fun c => c.1.2) Hco).
  unfold core in Hco. injection Hco as E1 E2 _ _ _ _. exists s'. rewrite E1, E2, E5, J1, J3, F3.
  split; [done|]. split; [rewrite lookup_delete_ne by done; apply lookup_insert_eq|]. split; [apply lookup_delete_eq|].
  split; [apply lookup_delete_eq|]. unfold Players.source_for_token in *. rewrite Players.remove_token, Ht. by rewrite decide_True.
Qed.
End reconnection.

(** ** Host arbitration *)

Section arbitration.
Context `{Json} `{FormCodec} `{ConvarCodec} `{StateCodec} `{HashOrder} `{Libm} `{Lz4}.
Variable handlers : StateBags.Routing.RoutingControl -> StateBags.Routing.RoutingControl.

(** The answers to a list of askers: one packet to each that is connected. *)
Definition results (result : Name) (msgpack : list Z) (peers : gmap Z PeerId) (to : list Z) : list Effect :=
  omap (fun source => (fun peer => Sent peer 0 true (build_net_event (as_bytes "sessionHostResult") msgpack)) <$> peers !! source) to.

Lemma send_result_effects to result msgpack s : json_args_to_msgpack (to_string (of_array [of_string result])) = Some msgpack ->
  send_session_host_result to result s = s <| effects := effects s ++ results result msgpack (source_peers s) [to] |>.
Proof.
  intros Hm. unfold send_session_host_result, send_event. rewrite Hm. cbn [handle_command]. unfold results. cbn.
  destruct (source_peers s !! to); [done|]. destruct s. unfold update_field. cbn. by rewrite app_nil_r.
Qed.

Lemma results_app result msgpack peers l l' : results result msgpack peers (l ++ l') =
  results result msgpack peers l ++ results result msgpack peers l'.
Proof. apply omap_app. Qed.

Lemma free_all_effects msgpack l : json_args_to_msgpack (to_string (of_array [of_string (as_bytes "free")])) = Some msgpack ->
  forall s, foldl (fun s waiter => send_session_host_result waiter (as_bytes "free") s) s l =
    s <| effects := effects s ++ results (as_bytes "free") msgpack (source_peers s) l |>.
Proof.
  intros Hm. induction l as [|w l IH]; intros s; cbn [foldl].
  - destruct s. unfold update_field. cbn. by rewrite app_nil_r.
  - rewrite (send_result_effects _ _ msgpack) by done. rewrite IH. destruct s. unfold update_field. cbn [effects source_peers].
    by rewrite (results_app _ _ _ [w] l), app_assoc.
Qed.

Lemma expire_fields now s : let s' := expire_hosting_grant now s in
  source_peers s' = source_peers s /\ session_host s' = session_host s /\
  forall holder deadline, current_hosting s' = Some (holder, deadline) -> now < deadline.
Proof.
  cbv zeta. unfold expire_hosting_grant. destruct (current_hosting s) as [[h d]|] eqn:Ec; [|by rewrite Ec].
  destruct (Z.leb_spec d now); [|by split_and!; [..|rewrite Ec; intros ? ? [= _ <-]; lia]].
  destruct (release_fields s) as (Hc & _ & Hh & Hg & _). injection Hc as _ E _ _ _ _. rewrite E, Hh, Hg. done.
Qed.

(** How a grant ends: by expiry, by its holder's [hostedSession], by its holder
    leaving. *)
Inductive ends (now : Z) (s : UdpServer) : UdpServer -> Prop :=
| ends_expired holder deadline : current_hosting s = Some (holder, deadline) -> deadline <= now ->
    ends now s (expire_hosting_grant now s)
| ends_hosted holder deadline : current_hosting s = Some (holder, deadline) -> ends now s (on_hosted_session holder s).

(** nobody waits for ever. However a grant ends, the slot is free again and
    every player that was told to wait and is connected is sent exactly one
    [free] for each time it asked, in the order of asking; and a grant whose
    holder never answers ends at the first turn of the loop past its deadline. *)
Theorem waiters_are_freed now s s' msgpack :
  json_args_to_msgpack (to_string (of_array [of_string (as_bytes "free")])) = Some msgpack -> ends now s s' ->
  s' = s <| current_hosting := None |> <| host_release_waiters := [] |>
         <| effects := effects s ++ results (as_bytes "free") msgpack (source_peers s) (host_release_waiters s) |> /\
  (forall holder deadline, current_hosting s = Some (holder, deadline) -> deadline <= now ->
     pump handlers now [] s = Some (expire_hosting_grant now s) /\ ends now s (expire_hosting_grant now s)).
Proof.
  intros Hm Hends. split.
  - assert (Hr : s' = release_hosting_grant s).
    { destruct Hends as [holder deadline Hc Hd|holder deadline Hc];
        [unfold expire_hosting_grant|unfold on_hosted_session]; rewrite Hc.
      - by rewrite (proj2 (Z.leb_le _ _) Hd).
      - by rewrite Z.eqb_refl. }
    rewrite Hr. unfold release_hosting_grant. by rewrite (free_all_effects msgpack).
  - intros holder deadline Hc Hd. split; [done|]. by eapply ends_expired.
Qed.

(** the answer to a player that asks to host. Either another player hosts
    and is connected, and it is told [conflict]; or it holds the grant, which
    has not expired, and is told [go]; or another player holds it, the asker is
    queued behind it and told [wait]. *)
Theorem hosting_answered now source peer s (told : Name -> list Z) :
  (forall answer, json_args_to_msgpack (to_string (of_array [of_string answer])) = Some (told answer)) ->
  source_peers s !! source = Some peer ->
  let s1 := expire_hosting_grant now s in
  let s2 := on_hosting_session now source s in
  exists answer, effects s2 = effects s1 ++ [Sent peer 0 true (build_net_event (as_bytes "sessionHostResult") (told answer))] /\
    ((answer = as_bytes "conflict" /\ exists host base, session_host s = Some (host, base) /\ host <> source /\
        is_Some (source_peers s !! host)) \/
     (answer = as_bytes "go" /\ exists deadline, current_hosting s2 = Some (source, deadline) /\ now < deadline) \/
     (answer = as_bytes "wait" /\ exists holder deadline, current_hosting s2 = Some (holder, deadline) /\ holder <> source /\
        now < deadline /\ source ∈ host_release_waiters s2)).
Proof.
  intros Ht Hp. cbv zeta. destruct (expire_fields now s) as (Hsp & Hsh & Hd). unfold on_hosting_session.
  rewrite <- Hsh, <- Hsp. rewrite <- Hsp in Hp. generalize dependent (expire_hosting_grant now s).
  intros s1 Hp1 E1 E2 Hd. clear E1 E2 s. rename s1 into s, Hp1 into Hp.

  assert (Hgrant : exists answer, effects (grant_hosting now source s) =
      effects s ++ [Sent peer 0 true (build_net_event (as_bytes "sessionHostResult") (told answer))] /\
    ((answer = as_bytes "go" /\ exists deadline, current_hosting (grant_hosting now source s) = Some (source, deadline) /\ now < deadline) \/
     (answer = as_bytes "wait" /\ exists holder deadline, current_hosting (grant_hosting now source s) = Some (holder, deadline) /\
        holder <> source /\ now < deadline /\ source ∈ host_release_waiters (grant_hosting now source s)))).
  { unfold grant_hosting. destruct (current_hosting s) as [[holder deadline]|] eqn:Ec;
      [destruct (Z.eqb_spec holder source) as [->|Hne]|]; rewrite (send_result_effects _ _ (told _)) by apply Ht; unfold results.
    - exists (as_bytes "go"). cbn. rewrite Hp. split; [done|]. left. split; [done|]. exists deadline. eauto.
    - exists (as_bytes "wait"). cbn. rewrite Hp. split; [done|]. right. split; [done|]. exists holder, deadline.
      split_and!; [done|done|eauto|]. apply elem_of_app. right. by left.
    - exists (as_bytes "go"). cbn. rewrite Hp. split; [done|]. left. split; [done|]. eexists. split; [done|].
      unfold HOSTING_GRANT_TIMEOUT. lia. }
  destruct (session_host s) as [[host base]|] eqn:Eh.
  - destruct (Z.eqb_spec host source) as [|Hne]; cbn [negb andb].
    + destruct Hgrant as (answer & He & Hg). exists answer. split; [done|]. by right.
    + destruct (is_some (source_peers s !! host)) eqn:Eo.
      * exists (as_bytes "conflict"). rewrite (send_result_effects _ _ (told _)) by apply Ht. unfold results. cbn. rewrite Hp.
        split; [done|]. left. split; [done|]. exists host, base. split_and!; [done|done|]. by destruct (source_peers s !! host).
      * destruct Hgrant as (answer & He & Hg). exists answer. split; [done|]. by right.
  - destruct Hgrant as (answer & He & Hg). exists answer. split; [done|]. by right.
Qed.
End arbitration.

(** ** Routing buckets *)

Section mirror.
Implicit Types rc : StateBags.Routing.RoutingControl.

(** The three passes of a refresh, on a state of the registry. *)
Lemma mirror_sources_registry rc l : forall g, let g' := foldl (mirror_source rc) g l in
  GameState.entities g' = GameState.entities g /\
  (forall source, player_bucket (routing_buckets g') source =
     if decide (source ∈ l) then StateBags.Routing.player_bucket rc source else player_bucket (routing_buckets g) source).
Proof.
  induction l as [|x l IH]; intros g; cbv zeta in *; cbn [foldl].
  - split; [done|]. intros source. rewrite decide_False; [done|]. apply not_elem_of_nil.
  - destruct (IH (mirror_source rc g x)) as [-> Hp]. split; [done|]. intros source. rewrite Hp.
    change (routing_buckets (mirror_source rc g x)) with (set_player_bucket x (StateBags.Routing.player_bucket rc x) (routing_buckets g)).
    rewrite player_bucket_set. destruct (decide (source ∈ l)) as [Hin|Hin].
    + rewrite decide_True; [done|]. by right.
    + destruct (decide (x = source)) as [->|Hne].
      * rewrite decide_True; [done|]. by left.
      * rewrite decide_False; [done|]. intros [->|?]%elem_of_cons; done.
Qed.

(** An entity in the bucket the scripts have for it. *)
Definition placed_by rc (id : Z) (e : ServerEntity) : ServerEntity :=
  e <| GameState.routing_bucket := StateBags.Routing.entity_bucket rc id |>.

Lemma mirror_entity_fields rc g id : let g' := mirror_entity rc g id in
  routing_buckets g' = set_entity_bucket id (StateBags.Routing.entity_bucket rc id) (routing_buckets g) /\
  forall id', GameState.entities g' !! id' =
    (if decide (id' = id) then placed_by rc id' <$> GameState.entities g !! id' else GameState.entities g !! id').
Proof.
  split; [done|]. intros id'.
  change (alter (placed_by rc id) id (GameState.entities g) !! id' =
    if decide (id' = id) then placed_by rc id' <$> GameState.entities g !! id' else GameState.entities g !! id').
  destruct (decide (id' = id)) as [->|Hne]; [by rewrite lookup_alter_eq|by rewrite lookup_alter_ne].
Qed.

Lemma mirror_entities_registry rc l : forall g, let g' := foldl (mirror_entity rc) g l in
  (forall source, player_bucket (routing_buckets g') source = player_bucket (routing_buckets g) source) /\
  forall id, entity_bucket (routing_buckets g') id =
      (if decide (id ∈ l) then StateBags.Routing.entity_bucket rc id else entity_bucket (routing_buckets g) id) /\
    GameState.entities g' !! id =
      (if decide (id ∈ l) then placed_by rc id <$> GameState.entities g !! id else GameState.entities g !! id).
Proof.
  induction l as [|x l IH]; intros g; cbv zeta in *; cbn [foldl].
  - split; [done|]. intros id. by rewrite !decide_False by apply not_elem_of_nil.
  - destruct (IH (mirror_entity rc g x)) as [Hp He]. destruct (mirror_entity_fields rc g x) as [Hr Hx].
    split; [intros source; by rewrite Hp, Hr|]. intros id. destruct (He id) as [-> ->].
    rewrite Hr, entity_bucket_set, Hx. destruct (decide (id = x)) as [->|Hne].
    + rewrite !(decide_True (P := x ∈ x :: l)) by by left. rewrite (decide_True (P := x = x)) by done. split; [by case_decide|].
      case_decide; [|done]. by destruct (GameState.entities g !! x).
    + rewrite (decide_False (P := x = id)) by done. destruct (decide (id ∈ l)).
      * by rewrite !decide_True by by right.
      * by rewrite !decide_False by (intros [->|?]%elem_of_cons; done).
Qed.

(** The scripts' policy of a bucket. *)
Definition policy_of rc (b : Z) : BucketPolicy :=
  {| lockdown := lockdown_of (StateBags.Routing.lockdown_mode rc b);
     population_enabled := StateBags.Routing.population_enabled rc b |}.

Lemma mirror_policies_registry rc l : forall g, let g' := foldl (mirror_policy rc) g l in
  GameState.entities g' = GameState.entities g /\
  (forall source, player_bucket (routing_buckets g') source = player_bucket (routing_buckets g) source) /\
  (forall id, entity_bucket (routing_buckets g') id = entity_bucket (routing_buckets g) id) /\
  (forall b, policy (routing_buckets g') b = if decide (b ∈ l) then policy_of rc b else policy (routing_buckets g) b).
Proof.
  induction l as [|x l IH]; intros g; cbv zeta in *; cbn [foldl].
  - split_and!; [done..|]. intros b. by rewrite decide_False by apply not_elem_of_nil.
  - destruct (IH (mirror_policy rc g x)) as (-> & Hp & He & Hpol). split_and!; [done|exact Hp|exact He|]. intros b. rewrite Hpol.
    change (routing_buckets (mirror_policy rc g x)) with (set_population_enabled x (StateBags.Routing.population_enabled rc x)
      (set_lockdown x (lockdown_of (StateBags.Routing.lockdown_mode rc x)) (routing_buckets g))).
    rewrite policy_set_population, !policy_set_lockdown, (decide_True (P := x = x)) by done. destruct (decide (x = b)) as [->|Hne].
    + rewrite (decide_True (P := b ∈ b :: l)) by by left. by case_decide.
    + destruct (decide (b ∈ l)); [by rewrite decide_True by by right|].
      by rewrite decide_False by (intros [->|?]%elem_of_cons; done).
Qed.

Lemma buckets_in_use_spec rc sources ids b : b ∈ buckets_in_use rc sources ids <->
  b = 0 \/ (exists source, source ∈ sources /\ b = StateBags.Routing.player_bucket rc source) \/
  exists id, id ∈ ids /\ b = StateBags.Routing.entity_bucket rc id.
Proof.
  unfold buckets_in_use. rewrite sort_by_perm, elem_of_elements, elem_of_list_to_set, elem_of_cons, elem_of_app, !list_elem_of_fmap.
  split; [intros [?|[(x & ? & ?)|(x & ? & ?)]]|intros [?|[(x & ? & ?)|(x & ? & ?)]]]; eauto 6.
Qed.

Lemma elem_of_client_sources g source : source ∈ client_sources g <-> is_Some (clients g !! source).
Proof.
  unfold client_sources. rewrite list_elem_of_fmap. split.
  - intros ([s c] & -> & Hin%elem_of_map_to_list). by exists c.
  - intros [c Hc]. exists (source, c). by rewrite elem_of_map_to_list.
Qed.

Lemma elem_of_entity_ids g id : id ∈ entity_ids g <-> is_Some (GameState.entities g !! id).
Proof.
  unfold entity_ids. rewrite sort_by_perm, list_elem_of_fmap. split.
  - intros ([i e] & -> & Hin%elem_of_map_to_list). by exists e.
  - intros [e He]. exists (id, e). by rewrite elem_of_map_to_list.
Qed.

(** C18: a refresh makes the game state agree with the scripts: every connected
    client is in the bucket the scripts put it in, every entity (its record and
    the registry) in the scripts' bucket for its id, every bucket in use under
    the scripts' policy; no entity changes otherwise, and a second refresh does
    nothing. An entity a client created is not known to the scripts' control, so
    the refresh takes it to the default bucket whatever bucket its creator is in. *)
Theorem refresh_mirrors_scripts s g : onesync s = Some g -> StateBags.Routing.revision (routing s) <> routing_revision s ->
  let rc := routing s in
  exists g', onesync (refresh_routing_state s) = Some g' /\
    (forall source, is_Some (clients g !! source) ->
       player_bucket (routing_buckets g') source = StateBags.Routing.player_bucket rc source /\
       policy (routing_buckets g') (StateBags.Routing.player_bucket rc source) = policy_of rc (StateBags.Routing.player_bucket rc source)) /\
    (forall id e, GameState.entities g !! id = Some e ->
       GameState.entities g' !! id = Some (e <| GameState.routing_bucket := StateBags.Routing.entity_bucket rc id |>) /\
       entity_bucket (routing_buckets g') id = StateBags.Routing.entity_bucket rc id /\
       (StateBags.Routing.entities rc !! id = None -> entity_bucket (routing_buckets g') id = 0)) /\
    (forall id, GameState.entities g !! id = None -> GameState.entities g' !! id = None) /\
    refresh_routing_state (refresh_routing_state s) = refresh_routing_state s.
Proof.
  intros Eg Hrev. cbv zeta.
  assert (Hr : refresh_routing_state s =
    s <| onesync := Some (mirror_all (routing s) g) |> <| routing_revision := StateBags.Routing.revision (routing s) |>)
    by (unfold refresh_routing_state; by rewrite (proj2 (Z.eqb_neq _ _) Hrev), Eg).
  rewrite Hr. clear Hr. exists (mirror_all (routing s) g). split; [done|]. set (rc := routing s). unfold mirror_all.
  set (g1 := foldl (mirror_source rc) g (client_sources g)).
  destruct (mirror_sources_registry rc (client_sources g) g) as [E1 P1]. fold g1 in E1, P1.
  set (g2 := foldl (mirror_entity rc) g1 (entity_ids g)).
  destruct (mirror_entities_registry rc (entity_ids g) g1) as [P2 E2]. fold g2 in P2, E2.
  destruct (mirror_policies_registry rc (buckets_in_use rc (client_sources g) (entity_ids g)) g2) as (E3 & P3 & B3 & L3).
  set (g3 := foldl (mirror_policy rc) g2 _) in *. split; [|split; [|split]].
  - intros source Hin%elem_of_client_sources. rewrite P3, P2, P1, decide_True, L3 by done. split; [done|].
    rewrite decide_True; [done|]. apply buckets_in_use_spec. eauto.
  - intros id e He. assert (Hin : id ∈ entity_ids g) by (apply elem_of_entity_ids; by eexists).
    rewrite E3, B3. destruct (E2 id) as [-> ->]. rewrite E1, He, !decide_True by done. split_and!; [done..|].
    intros Hno. unfold StateBags.Routing.entity_bucket. by rewrite Hno.
  - intros id He. rewrite E3. destruct (E2 id) as [_ ->]. rewrite decide_False, E1; [done|]. rewrite elem_of_entity_ids, He. by intros [].
  - unfold refresh_routing_state. cbn [routing routing_revision update_field]. by rewrite Z.eqb_refl.
Qed.
End mirror.

(** ** The world the scripts see *)

Section script_view.
Context `{Json} `{FormCodec} `{ConvarCodec} `{StateCodec} `{HashOrder} `{Libm} `{Lz4Laws}.

Lemma nodup_fmap_filter {A B} (f : A -> B) (p : A -> bool) l : NoDup (f <$> l) -> NoDup (f <$> List.filter p l).
Proof.
  induction l as [|x l IH]; [done|]. cbn. intros [Hx Hl]%NoDup_cons. destruct (p x); [|auto]. cbn. apply NoDup_cons. split; [|auto].
  intros (y & E & Hy)%list_elem_of_fmap. apply Hx, list_elem_of_fmap. exists y. split; [done|].
  apply list_elem_of_In, filter_In in Hy as [Hy _]. by apply list_elem_of_In.
Qed.

Lemma script_world_nodup g : game_ok g -> NoDup (EntityWorld.network_id <$> script_world (yield (GameState.entities g)).*2).
Proof.
  intros Hg. unfold script_world. rewrite <- list_fmap_compose.
  assert (Hid : EntityWorld.network_id ∘ summary_of = object_id) by done. rewrite Hid. clear Hid.
  assert (Hnd : NoDup (object_id <$> (yield (GameState.entities g)).*2)).
  { rewrite yield_perm, <- list_fmap_compose.
    rewrite (list_fmap_ext _ fst (map_to_list (GameState.entities g))).
    - apply NoDup_fst_map_to_list.
    - intros i [id e] Hl%list_elem_of_lookup_2. apply elem_of_map_to_list in Hl. by destruct (ok_entity g Hg id e Hl). }
  by apply nodup_fmap_filter.
Qed.

(** C17: after a tick the scripts see the authoritative world: an entity is
    visible exactly when it is in the game state and has a position, with the
    fields the game state has, and nothing else is. *)
Theorem script_world_exact s g : server_ok s -> onesync s = Some g ->
  exists s' g', onesync_tick s = Some s' /\ onesync s' = Some g' /\ forall id,
    EntityWorld.get (entity_world s') id =
      GameState.entities g' !! id ≫= fun e => if position_known e then Some (summary_of e) else None.
Proof.
  intros Hs Eg. destruct (tick_shape s g Hs Eg) as (s1 & out & g' & Hs1 & Hg' & ->).
  destruct (emits_clones out (publish_script_world (s1 <| onesync := Some g' |>))) as [es ->].
  eexists _, g'. split; [done|]. split; [done|]. intros id.
  change (entity_world _) with (EntityWorld.publish (script_world (yield (GameState.entities g')).*2) (entity_world s1)).
  unfold EntityWorld.get. rewrite (proj2 (EntityWorld.publish_entities _ _ id (sv_view s1 Hs1))).
  set (world := script_world _). pose proof (script_world_nodup g' Hg') as Hnd. fold world in Hnd.
  assert (Hin : forall x, x ∈ world /\ EntityWorld.network_id x = id <->
    exists e, GameState.entities g' !! id = Some e /\ position_known e = true /\ x = summary_of e).
  { intros x. unfold world, script_world. rewrite list_elem_of_fmap. split.
    - intros [(e & -> & Hx) Hid]. apply list_elem_of_In, filter_In in Hx as [Hx Hk]. apply list_elem_of_In in Hx.
      rewrite yield_perm in Hx. apply list_elem_of_fmap in Hx as ([i e'] & -> & Hx%elem_of_map_to_list).
      destruct (ok_entity g' Hg' i e' Hx) as [Hi _]. cbn in *. exists e'. split_and!; [congruence|done|done].
    - intros (e & He & Hk & ->). destruct (ok_entity g' Hg' id e He) as [Hi _]. split; [|done]. exists e. split; [done|].
      apply list_elem_of_In, filter_In. split; [|done]. apply list_elem_of_In. rewrite yield_perm.
      apply list_elem_of_fmap. exists (id, e). by rewrite elem_of_map_to_list. }
  destruct (last (EntityWorld.with_id id world)) as [x|] eqn:El; cbn.
  - apply (EntityWorld.last_with_id world id x Hnd), Hin in El as (e & -> & Hk & ->). cbn. by rewrite Hk.
  - destruct (GameState.entities g' !! id) as [e|] eqn:Ee; [|done]. cbn. destruct (position_known e) eqn:Hk; [|done]. exfalso.
    assert (Hx : last (EntityWorld.with_id id world) = Some (summary_of e)); [|congruence].
    apply (EntityWorld.last_with_id world id _ Hnd), Hin. eauto.
Qed.
End script_view.

(** ** The two queues *)

Section planes.
Import Planes.

Definition handle_all (cmds : list UdpCommand) (s : UdpServer) : UdpServer := foldl (fun s cmd => handle_command cmd s) s cmds.

Lemma handle_all_app l l' s : handle_all (l ++ l') s = handle_all l' (handle_all l s).
Proof. apply foldl_app. Qed.

Definition turns (n : nat) (qs : Queues * UdpServer) : Queues * UdpServer := Nat.iter n (fun qs => serve qs.1 qs.2) qs.

Lemma turns_succ n qs : turns (S n) qs = turns n (serve qs.1 qs.2).
Proof. unfold turns. by rewrite Nat.iter_succ_r. Qed.

Lemma serve_control c l l' s : serve {| control := c :: l; sync := l' |} s =
  ({| control := drop CONTROL_BATCH (c :: l); sync := l' |}, handle_all (take CONTROL_BATCH (c :: l)) s).
Proof. done. Qed.

Lemma serve_sync l' s : serve {| control := []; sync := l' |} s =
  ({| control := []; sync := drop SYNC_BATCH l' |}, handle_all (take SYNC_BATCH l') s).
Proof. done. Qed.

Lemma drain_sync n : forall l s, (length l <= n * SYNC_BATCH)%nat ->
  turns n ({| control := []; sync := l |}, s) = ({| control := []; sync := [] |}, handle_all l s).
Proof.
  induction n as [|n IH]; intros l s Hl.
  - destruct l; [done|cbn in Hl; lia].
  - rewrite turns_succ. cbn [fst snd]. rewrite serve_sync, IH; [|rewrite length_drop; lia].
    by rewrite <- handle_all_app, take_drop.
Qed.

Lemma drain_control n m : forall l l' s, (length l <= n * CONTROL_BATCH)%nat -> (length l' <= m * SYNC_BATCH)%nat ->
  exists k, (k <= n + m)%nat /\
    turns k ({| control := l; sync := l' |}, s) = ({| control := []; sync := [] |}, handle_all l' (handle_all l s)).
Proof.
  induction n as [|n IH]; intros l l' s Hl Hl'.
  - destruct l; [|cbn in Hl; lia]. exists m. split; [lia|]. by apply drain_sync.
  - destruct l as [|c l]; [exists m; split; [lia|by apply drain_sync]|].
    destruct (IH (drop CONTROL_BATCH (c :: l)) l' (handle_all (take CONTROL_BATCH (c :: l)) s)) as (k & Hk & Ht);
      [rewrite length_drop; lia|done|].
    exists (S k). split; [lia|]. rewrite turns_succ. cbn [fst snd]. rewrite serve_control, Ht.
    by rewrite <- (handle_all_app (take _ _)), take_drop.
Qed.

(** What producers put in the queues, with what the full queue refuses. *)
Inductive Send := ToControl (cmd : UdpCommand) | ToSync (cmd : UdpCommand).

Definition send (q : Queues) (x : Send) : Queues :=
  match x with
  | ToControl cmd => {| control := try_send CONTROL_CAPACITY cmd (control q); sync := sync q |}
  | ToSync cmd => {| control := control q; sync := try_send SYNC_CAPACITY cmd (sync q) |}
  end.

Lemma send_bounded l : forall q, (length (control q) <= CONTROL_CAPACITY)%nat -> (length (sync q) <= SYNC_CAPACITY)%nat ->
  let q' := foldl send q l in (length (control q') <= CONTROL_CAPACITY)%nat /\ (length (sync q') <= SYNC_CAPACITY)%nat.
Proof.
  induction l as [|x l IH]; intros q Hc Hs; [done|]. cbn [foldl]. apply IH; destruct x as [cmd|cmd]; cbn [send control sync]; try done;
    unfold try_send; destruct (Nat.ltb_spec (length (control q)) CONTROL_CAPACITY), (Nat.ltb_spec (length (sync q)) SYNC_CAPACITY);
    rewrite ?length_app; cbn [length]; lia.
Qed.

(** whatever the producers queue, the queues stay within their capacity
    and sixteen turns of the loop without new commands serve everything that was
    accepted: every control command before any state frame, each plane in the
    order it was queued. *)
Theorem planes_drain sends s :
  let q := foldl send {| control := []; sync := [] |} sends in
  (length (control q) <= CONTROL_CAPACITY)%nat /\ (length (sync q) <= SYNC_CAPACITY)%nat /\
  exists k, (k <= 16)%nat /\ turns k (q, s) = ({| control := []; sync := [] |}, handle_all (sync q) (handle_all (control q) s)).
Proof.
  cbv zeta. destruct (send_bounded sends {| control := []; sync := [] |}) as [Hc Hs]; [cbn; lia..|].
  set (q := foldl send _ sends) in *. split; [done|]. split; [done|].
  destruct q as [l l']. cbn [control sync] in *. apply (drain_control 8 8).
  - unfold CONTROL_CAPACITY, CONTROL_BATCH in *. lia.
  - unfold SYNC_CAPACITY, SYNC_BATCH in *. lia.
Qed.
End planes.

(** ** Peers that answer and peers that relay *)

Section messages.
Context `{Json} `{FormCodec} `{ConvarCodec} `{StateCodec} `{HashOrder} `{Libm} `{Lz4}.
Variable handlers : StateBags.Routing.RoutingControl -> StateBags.Routing.RoutingControl.

(** a native's result is accepted from anyone. The server runs a native on
    one client and keys the call by its number alone: whichever authenticated
    peer first sends a result with that number settles the call. *)
Theorem native_answer_unchecked a asked other source1 source2 payload args v id s :
  peer_sources s !! asked = Some source1 -> peer_sources s !! other = Some source2 ->
  parse_server_event payload = Some {| ev_name := NATIVE_RESULT_EVENT; ev_args := args |} ->
  msgpack_to_json_args args = Some v -> elem v 0 ≫= as_u64 = Some id -> id ∈ Events.waiters (pending_natives s) ->
  on_server_event a other payload s = on_server_event a asked payload s /\
  (id ∉ Events.waiters (pending_natives (on_server_event a other payload s))) /\
  effects (on_server_event a other payload s) = effects s ++ (if alive a then [NativeAnswered id] else []).
Proof.
  intros Hp1 Hp2 Hp Hm Hid Hw. unfold on_server_event. rewrite Hp1, Hp2, Hp. cbn [ev_args ev_name]. rewrite Hm.
  split; [done|]. do 2 (rewrite (bool_decide_eq_false_2 _) by by vm_compute).
  rewrite bool_decide_eq_true_2 by done. unfold on_native_result. rewrite Hid. unfold Events.resolve. rewrite decide_True by done.
  destruct (alive a); cbn; (split; [apply not_elem_of_difference; right; by apply elem_of_singleton|done || by rewrite app_nil_r]).
Qed.

(** the relay between clients. Without OneSync, what an authenticated
    client routes to another reaches exactly the peer of that player, once,
    unchanged, with the sender's id in front, on the unreliable channel; and only
    if that player is another one, is connected and is in the sender's bucket.
    Nothing else happens, and on any other channel nothing at all. *)
Theorem relay_exact a peer channel source target data s tail :
  onesync s = None -> peer_sources s !! peer = Some source -> is_u 16 target ->
  length tail = 2%nat ->
  exists es,
    on_receive handlers a peer channel (to_le_bytes 4 MSG_ROUTE ++ to_le_bytes 2 target ++ tail ++ data) s =
      Some (s <| effects := effects s ++ es |>) /\
    (es = [] \/ exists target_peer, es = [Sent target_peer 1 false (build_server_route (u16 source) data)] /\
       source_peers s !! target = Some target_peer) /\
    (es <> [] <-> channel = 1 /\ target <> source /\ is_Some (source_peers s !! target) /\
       StateBags.Routing.player_bucket (routing s) source = StateBags.Routing.player_bucket (routing s) target).
Proof.
  intros Ho Hp Ht Hl. unfold on_receive.
  assert (Hr : read_message_type (to_le_bytes 4 MSG_ROUTE ++ to_le_bytes 2 target ++ tail ++ data) =
    Some (MSG_ROUTE, to_le_bytes 2 target ++ tail ++ data)) by apply read_message_type_framed, hash_rage_string_u32.
  rewrite Hr. assert (He : expected_channel MSG_ROUTE = Some 1) by (by vm_compute). rewrite He. clear He.
  assert (Hskip : forall P : Prop, ~ P -> exists es, Some s = Some (s <| effects := effects s ++ es |>) /\
    (es = [] \/ exists target_peer, es = [Sent target_peer 1 false (build_server_route (u16 source) data)] /\
       source_peers s !! target = Some target_peer) /\ (es <> [] <-> P)).
  { intros P HP. exists []. split; [destruct s; unfold update_field; cbn; by rewrite app_nil_r|]. split; [by left|]. tauto. }
  destruct (Z.eqb_spec 1 channel) as [<-|Hch]; cbn [negb]; [|apply Hskip; intros [-> _]; congruence].
  assert (Hd : forall p, dispatch handlers a peer MSG_ROUTE p s = on_route peer p s).
  { intros p. unfold dispatch.
    do 4 (match goal with |- (if ?b then _ else _) = _ => replace b with false by by vm_compute end). by rewrite Z.eqb_refl. }
  rewrite Hd. unfold on_route. rewrite Hp, Ho.
  assert (Hroute : parse_client_route (to_le_bytes 2 target ++ tail ++ data) = Some {| target_net_id := target; route_data := data |}).
  { unfold parse_client_route. rewrite !length_app, length_to_le_bytes, Hl. cbn [Nat.ltb Nat.leb Nat.add].
    rewrite take_le_bytes, from_to_le_bytes_id, (app_assoc _ tail), drop_app_length' by (rewrite ?length_app, ?length_to_le_bytes, ?Hl; done).
    done. }
  rewrite Hroute. unfold relay. cbn [target_net_id route_data].
  destruct (Z.eqb_spec target source) as [->|Hne]; [apply Hskip; tauto|].
  destruct (Z.eqb_spec (StateBags.Routing.player_bucket (routing s) source) (StateBags.Routing.player_bucket (routing s) target))
    as [Hb|Hb]; cbn [negb]; [|apply Hskip; tauto].
  destruct (source_peers s !! target) as [tp|] eqn:Etp; [|apply Hskip; intros (_ & _ & [? [=]] & _)].
  eexists. split; [reflexivity|]. split; [right; exists tp; split; reflexivity|].
  split; [|discriminate]. intros _. split; [reflexivity|]. split; [exact Hne|]. split; [by eexists|exact Hb].
Qed.
End messages.

(** ** Examples *)

(** Codecs for the closed examples: a JSON value is a number. *)
Definition sample_json : Json := {|
  value := Z; null := 0; of_bool := fun b : bool => if b then 1 else 0; of_u64 := id; of_string := fun _ => 0;
  of_array := fun l => default 0 (head l); elem := fun v _ => Some v; field := fun _ _ => None; as_u64 := Some;
  as_f64 := fun _ => None; as_bool := fun _ => None; as_str := fun _ => None; as_array := fun _ => None; to_string := fun v => [v]; from_str := head;
  rmp_to_vec := fun v => Some [v]; rmp_from_slice := head |}.
Definition sample_form : FormCodec := fun text => [(as_bytes "token", text)].
Definition sample_convars : ConvarCodec := fun _ => None.
Definition sample_state : StateCodec := fun _ => None.
Definition sample_order : HashOrder := {| yield := fun A m => map_to_list m; yield_perm := fun A m => Permutation_refl _ |}.

#[local] Existing Instances sample_json sample_form sample_convars sample_state sample_order null_libm lz4_stored lz4_stored_laws.

Definition sample_ambient : Ambient := {| now := 7; checked := 0; stamped := 0; fresh := 1; reply_sent := true; alive := true |}.

(** Two players, 1 and 2, on the peers 10 and 20. *)
Definition sample_server (game : option ServerGameState) : UdpServer :=
  (server_new (Players.bind_token [116] 2 (Players.bind_token [115] 1 Players.directory_new)) 0 None false game default_config
    StateBags.Routing.new {| DebugFeed.display_info := DebugFeed.Off; DebugFeed.allow := []; DebugFeed.refresh_hz := 4 |})
  <| peer_sources := {[10 := 1; 20 := 2]} |> <| source_peers := {[1 := 10; 2 := 20]} |>.

Lemma sample_server_ok game : (forall g, game = Some g -> game_ok g) -> server_ok (sample_server game).
Proof. intros Hg. split; [exact Hg|done|done|apply EntityWorld.view_new_ok]. Qed.

Lemma sample_world_ok : server_ok (sample_server (Some sample_game)).
Proof. apply sample_server_ok. intros g [= <-]. apply sample_game_ok. Qed.

Lemma unauthenticated_inert_witness : exists es,
  on_receive id sample_ambient 30 0 (to_le_bytes 4 MSG_I_QUIT) (sample_server None) =
    Some ((sample_server None) <| effects := es |>).
Proof.
  destruct (unauthenticated_inert id sample_ambient 30 0 (to_le_bytes 4 MSG_I_QUIT) (sample_server None)) as (es & H & _).
  - reflexivity.
  - intros payload connect Hm. exfalso. revert Hm. vm_compute. discriminate.
  - exists es. exact H.
Defined.

Lemma server_never_panics_witness :
  exists s', inputs id [Pumped 3 [Connect 30; Receive sample_ambient 10 0 (to_le_bytes 4 MSG_I_QUIT)]; Ticked]
    (sample_server (Some sample_game)) = Some s' /\ server_ok s'.
Proof.
  apply (server_never_panics id).
  - constructor; [|by repeat constructor]. constructor; [exact I|]. constructor; [apply to_le_bytes_ok|constructor].
  - apply sample_world_ok.
Defined.


Lemma reconnect_then_timeout_witness : exists s',
  on_disconnect id 40 (on_handshake true 50 [115] (on_handshake true 40 [115] (sample_server None))) = Some s' /\
  peer_sources s' !! 50 = Some 1 /\ source_peers s' !! 1 = None.
Proof.
  destruct (reconnect_then_timeout id 40 50 [115] {| token := [115]; guid := [] |} 1 (sample_server None)) as (_ & _ & s' & Hd & Hp & Hs & _).
  - apply sample_server_ok. discriminate.
  - discriminate.
  - reflexivity.
  - reflexivity.
  - exists s'. split; [exact Hd|]. split; [exact Hp|exact Hs].
Defined.

(** Player 1 holds the grant until 5, player 2 waits. *)
Definition sample_waiting : UdpServer :=
  (sample_server None) <| current_hosting := Some (1, 5) |> <| host_release_waiters := [2] |>.

Lemma waiters_are_freed_witness :
  effects (expire_hosting_grant 6 sample_waiting) = [Sent 20 0 true (build_net_event (as_bytes "sessionHostResult") [0])].
Proof.
  destruct (waiters_are_freed id 6 sample_waiting (expire_hosting_grant 6 sample_waiting) [0]) as [-> _].
  - reflexivity.
  - apply (ends_expired 6 sample_waiting 1 5); [reflexivity|done].
  - reflexivity.
Defined.

Lemma hosting_answered_witness : exists answer deadline,
  current_hosting (on_hosting_session 6 2 sample_waiting) = Some (2, deadline) /\ answer = as_bytes "go" /\ 6 < deadline.
Proof.
  destruct (hosting_answered 6 2 20 sample_waiting (fun _ => [0]))
    as (answer & _ & [(_ & h & b & E & _)|[(E & deadline & Hc & Hd)|(_ & h & d & E & Hne & _)]]).
  - intros answer. reflexivity.
  - reflexivity.
  - discriminate E.
  - exists answer, deadline. split; [exact Hc|]. split; [exact E|exact Hd].
  - exfalso. vm_compute in E. injection E as E _. apply Hne. symmetry. exact E.
Defined.

Lemma refresh_mirrors_scripts_witness : exists g',
  onesync (refresh_routing_state (sample_server (Some sample_game))) = Some g' /\ entity_bucket (routing_buckets g') 5 = 0.
Proof.
  destruct (refresh_mirrors_scripts (sample_server (Some sample_game)) sample_game) as (g' & Hg & _ & He & _).
  - reflexivity.
  - discriminate.
  - exists g'. split; [exact Hg|]. destruct (He 5 sample_entity) as (_ & _ & Hb); [reflexivity|]. apply Hb. reflexivity.
Defined.

Lemma script_world_exact_witness : exists s' g',
  onesync_tick (sample_server (Some sample_game)) = Some s' /\ onesync s' = Some g' /\
  EntityWorld.get (entity_world s') 6 = GameState.entities g' !! 6 ≫= fun e => if position_known e then Some (summary_of e) else None.
Proof.
  destruct (script_world_exact (sample_server (Some sample_game)) sample_game sample_world_ok ltac:(reflexivity)) as (s' & g' & Ht & Hg & Hw).
  exists s', g'. split; [exact Ht|]. split; [exact Hg|]. apply Hw.
Defined.

(** One native is waiting for its answer. *)
Definition sample_calling : UdpServer := (sample_server None) <| pending_natives := (register pending_new).2 |>.

Lemma native_answer_unchecked_witness :
  effects (on_server_event sample_ambient 20 (event_bytes NATIVE_RESULT_EVENT [0]) sample_calling) = [NativeAnswered 0].
Proof.
  destruct (native_answer_unchecked sample_ambient 10 20 1 2 (event_bytes NATIVE_RESULT_EVENT [0]) [0]
    (0 : @value sample_json) 0 sample_calling)
    as (_ & _ & He); [reflexivity..|exact He].
Defined.

Lemma relay_exact_witness : exists es,
  on_receive id sample_ambient 10 1 (to_le_bytes 4 MSG_ROUTE ++ to_le_bytes 2 2 ++ [0; 0] ++ [9]) (sample_server None) =
    Some ((sample_server None) <| effects := es |>) /\ es <> [].
Proof.
  destruct (relay_exact id sample_ambient 10 1 1 2 [9] (sample_server None) [0; 0]) as (es & H & _ & Hne).
  - reflexivity.
  - reflexivity.
  - split; reflexivity || done.
  - reflexivity.
  - exists es. split; [exact H|]. apply Hne. split; [reflexivity|]. split; [discriminate|]. split; [eexists; reflexivity|reflexivity].
Defined.
