(* ===== verification/Auth.v ===== *)
(** * Tickets of connecting players
      (src/crates/baston-gateway/src/auth/{ticket,mod}.rs)

    A player authenticates with a ticket signed by Cfx, which is parsed and
    verified against a public key fetched from Cfx. RSA, SHA-1, base64 and hex
    are libraries' and a class, as is JSON; strings are their UTF-8 bytes. An
    [Instant] is a number of nanoseconds. *)

From Stdlib Require Import Sorting.Sorted.
From S2P Require Import Prelude Decimal Utf8 Udp Events.
#[local] Open Scope Z_scope.

(** What the ticket code uses of the crates base64, sha1, rsa and hex. *)
Class TicketCrypto := {
  RsaPublicKey : Type;
  base64_decode : list Z -> option (list Z);
  sha1 : list Z -> list Z;
  verify_pkcs1v15 : RsaPublicKey -> list Z -> list Z -> bool;
  from_pkcs1_der : list Z -> option RsaPublicKey;
  base64_error : list Z -> Name;
  pkcs1_error : list Z -> Name;
  hex_encode : list Z -> Name
}.

Inductive AuthError :=
| MissingTicket
| MalformedTicket (why : Name)
| TicketExpired
| GuidMismatch
| TicketReused
| InvalidSignature
| PubkeyFetch (why : Name)
| PubkeyParse (why : Name).

(** The text of an error, as the client is shown it. *)
Definition error_text (e : AuthError) : Name :=
  match e with
  | MissingTicket => as_bytes "No authentication ticket was specified."
  | MalformedTicket why => as_bytes "Ticket authorization failed: " ++ why
  | TicketExpired => as_bytes "Ticket expired. Please check your server's system time."
  | GuidMismatch => as_bytes "Mismatching GUID."
  | TicketReused => as_bytes "Reused ticket."
  | InvalidSignature => as_bytes "Invalid ticket signature."
  | PubkeyFetch why => as_bytes "public key request failed: " ++ why
  | PubkeyParse why => as_bytes "public key parse failed: " ++ why
  end.

Record TicketData := {
  guid : Z;
  expiry_unix_secs : Z;
  entitlement_hash : option (list Z);
  extra_json : option Name
}.

Definition INNER_LENGTH : nat := 16.
Definition SIG_LENGTH : nat := 128.
Definition BASE_LENGTH : nat := 4 + INNER_LENGTH + 4 + SIG_LENGTH.

(** A slice out of range panics: [None]. *)
Definition read_u32 (d : list Z) (off : nat) : option Z := from_le_bytes <$> get_slice d off 4.
Definition read_u64 (d : list Z) (off : nat) : option Z := from_le_bytes <$> get_slice d off 8.

Section ticket.
Context `{TicketCrypto}.

Definition signed_digest (payload : list Z) : list Z := sha1 (2 :: sha1 payload).

Definition verify_sig (pubkey : RsaPublicKey) (payload sig : list Z) : bool :=
  verify_pkcs1v15 pubkey (signed_digest payload) sig.

Definition malformed (why : string) : option (AuthError + TicketData) := Some (inl (MalformedTicket (as_bytes why))).

(** The extra block, of which each part may be missing. *)
Definition extra_hash (extra : list Z) : option (list Z) :=
  if (20 <=? length extra)%nat then Some (take 20 extra) else None.

Definition extra_text (extra : list Z) : option (option Name) :=
  if (24 <=? length extra)%nat then
    json_len ← Z.to_nat <$> read_u32 extra 20;
    if (24 + json_len <=? length extra)%nat then
      json ← get_slice extra 24 json_len; Some (Some (from_utf8_lossy json))
    else Some None
  else Some None.

Definition parse_and_verify (ticket_b64 : Name) (g : Z) (pubkey : RsaPublicKey) (now_unix_secs : Z) :
    option (AuthError + TicketData) :=
  match base64_decode (trim ticket_b64) with
  | None => malformed "invalid base64"
  | Some d =>
    if (length d <? BASE_LENGTH + 4)%nat then malformed "ticket too short"
    else
      inner ← read_u32 d 0;
      if negb (inner =? Z.of_nat INNER_LENGTH) then malformed "invalid inner length"
      else
        ticket_guid ← read_u64 d 4;
        expiry ← read_u64 d 12;
        if expiry <? now_unix_secs then Some (inl TicketExpired)
        else if negb (ticket_guid =? g) then Some (inl GuidMismatch)
        else
          sig_len ← read_u32 d 20;
          if negb (sig_len =? Z.of_nat SIG_LENGTH) then malformed "invalid signature #1 length"
          else
            inner_block ← get_slice d 4 16;
            sig1 ← get_slice d 24 SIG_LENGTH;
            if negb (verify_sig pubkey inner_block sig1) then Some (inl InvalidSignature)
            else
              extra_len ← Z.to_nat <$> read_u32 d BASE_LENGTH;
              let extra_start := (BASE_LENGTH + 4)%nat in
              let sig2_len_off := (extra_start + extra_len)%nat in
              if (length d <? sig2_len_off + 4 + SIG_LENGTH)%nat then malformed "truncated extra block"
              else
                sig2_len ← read_u32 d sig2_len_off;
                if negb (sig2_len =? Z.of_nat SIG_LENGTH) then malformed "invalid signature #2 length"
                else
                  signed ← get_slice d 4 (sig2_len_off - 4);
                  sig2 ← get_slice d (sig2_len_off + 4) SIG_LENGTH;
                  if negb (verify_sig pubkey signed sig2) then Some (inl InvalidSignature)
                  else
                    extra ← get_slice d extra_start extra_len;
                    json ← extra_text extra;
                    Some (inr {| guid := ticket_guid; expiry_unix_secs := expiry;
                                 entitlement_hash := extra_hash extra; extra_json := json |})
  end.
End ticket.

(** ** The service (auth/mod.rs) *)

Record ValidatedPlayer := { license : Name; steam : option Name; ip : Name; identifiers : list Name }.

Definition PUBKEY_MAX_AGE : Z := 5 * 60 * 10 ^ 9.
Definition TICKET_GC_INTERVAL : Z := 30 * 60 * 10 ^ 9.

(** (expiry, guid) pairs already seen. *)
Record UsedTickets := { seen : gset (Z * Z); next_gc : Z }.

Definition used_new (now : Z) : UsedTickets := {| seen := ∅; next_gc := now + TICKET_GC_INTERVAL |}.

Definition check_reuse (now : Z) (ticket : TicketData) (used : UsedTickets) : (AuthError + unit) * UsedTickets :=
  let used := if next_gc used <? now then {| seen := ∅; next_gc := now + TICKET_GC_INTERVAL |} else used in
  let pair := (expiry_unix_secs ticket, guid ticket) in
  if bool_decide (pair ∈ seen used) then (inl TicketReused, used)
  else (inr tt, {| seen := {[pair]} ∪ seen used; next_gc := next_gc used |}).

Section service.
Context `{TicketCrypto} `{Json}.

Record CachedPubkey := { key : RsaPublicKey; fetched_at : Z }.
Record AuthService := { pubkey : option CachedPubkey; used_tickets : UsedTickets }.

Definition service_new (now : Z) : AuthService := {| pubkey := None; used_tickets := used_new now |}.

(** The endpoint returns base64 of a PKCS#1 public key. *)
Definition parse_pubkey (key_b64 : Name) : AuthError + RsaPublicKey :=
  match base64_decode (trim key_b64) with
  | None => inl (PubkeyParse (as_bytes "base64: " ++ base64_error (trim key_b64)))
  | Some der =>
      match from_pkcs1_der der with
      | None => inl (PubkeyParse (pkcs1_error der))
      | Some k => inr k
      end
  end.

(** One look at the cache: when it was looked at, what the endpoint would
    answer (an error, or the field [key]) and when the answer was in. *)
Record Fetch := { looked_at : Z; endpoint_answer : Name + Name; answered_at : Z }.

Definition fetch_pubkey (f : Fetch) : AuthError + RsaPublicKey :=
  match endpoint_answer f with inl e => inl (PubkeyFetch e) | inr k => parse_pubkey k end.

Definition get_pubkey (force_refresh : bool) (f : Fetch) (s : AuthService) : (AuthError + RsaPublicKey) * AuthService :=
  let fetched :=
    match fetch_pubkey f with
    | inl e => (inl e, s)
    | inr k => (inr k, {| pubkey := Some {| key := k; fetched_at := answered_at f |}; used_tickets := used_tickets s |})
    end in
  match pubkey s with
  | Some entry =>
      let expired := force_refresh && (PUBKEY_MAX_AGE <? Z.max 0 (looked_at f - fetched_at entry)) in
      if negb expired then (inr (key entry), s) else fetched
  | None => fetched
  end.

(** [get_pubkey] and the verification that follows it. *)
Definition verify_under (force_refresh : bool) (f : Fetch) (ticket_b64 : Name) (g now : Z) (s : AuthService) :
    option ((AuthError + TicketData) * AuthService) :=
  match get_pubkey force_refresh f s with
  | (inl e, s) => Some (inl e, s)
  | (inr k, s) => r ← parse_and_verify ticket_b64 g k now; Some (r, s)
  end.

Definition verify_with_key_refresh (first again : Fetch) (ticket_b64 : Name) (g now : Z) (s : AuthService) :
    option ((AuthError + TicketData) * AuthService) :=
  '(r, s) ← verify_under false first ticket_b64 g now s;
  match r with
  | inl InvalidSignature => verify_under true again ticket_b64 g now s
  | _ => Some (r, s)
  end.

Definition LICENSE_PREFIX : Name := as_bytes "license:".
Definition STEAM_PREFIX : Name := as_bytes "steam:".
Definition IP_PREFIX : Name := as_bytes "ip:".

(** The strings of the array [tk]. *)
Definition ticket_identifiers (json : option Name) : list Name :=
  default [] (text ← json; v ← from_str text; tk ← field v (as_bytes "tk"); l ← as_array tk; Some (omap (M := list) as_str l)).

Definition build_player (ticket : TicketData) (peer : Name) : ValidatedPlayer :=
  let license := match entitlement_hash ticket with Some h => LICENSE_PREFIX ++ hex_encode h | None => [] end in
  let identifiers := (if bool_decide (license = []) then [] else [license])
    ++ ticket_identifiers (extra_json ticket) ++ [IP_PREFIX ++ peer] in
  {| license := license; steam := List.find (starts_with STEAM_PREFIX) identifiers; ip := peer; identifiers := identifiers |}.

(** [now] is the wall clock in seconds, [instant] the monotonic one at the
    check against reuse. *)
Definition validate_ticket (first again : Fetch) (guid_text ticket_b64 peer : Name) (now instant : Z) (s : AuthService) :
    option ((AuthError + ValidatedPlayer) * AuthService) :=
  let g := default 0 (parse_u64 guid_text) in
  '(r, s) ← verify_with_key_refresh first again ticket_b64 g now s;
  match r with
  | inl e => Some (inl e, s)
  | inr ticket =>
      let '(reused, used) := check_reuse instant ticket (used_tickets s) in
      let s := {| pubkey := pubkey s; used_tickets := used |} in
      match reused with
      | inl e => Some (inl e, s)
      | inr _ => Some (inr (build_player ticket peer), s)
      end
  end.
End service.

(** ** The layout of a ticket *)

Lemma get_slice_at pre mid post off n : length pre = off -> length mid = n -> get_slice (pre ++ mid ++ post) off n = Some mid.
Proof. intros <- <-. apply get_slice_app. Qed.

Lemma get_slice_split d off n s : get_slice d off n = Some s -> drop off d = s ++ drop (off + n) d /\ length s = n.
Proof.
  unfold get_slice. destruct (decide _) as [Hle|]; [|done]. intros [= <-].
  rewrite <- drop_drop, take_drop, length_take, length_drop. split; [done|lia].
Qed.

Lemma get_slice_fits d off n : (off + n <= length d)%nat -> exists s, get_slice d off n = Some s.
Proof. intros. unfold get_slice. rewrite decide_True by done. by eexists. Qed.

(** A little-endian number of [n] bytes at an offset. *)
Definition read_le (n : nat) (d : list Z) (off : nat) : option Z := from_le_bytes <$> get_slice d off n.

Lemma read_le_split n d off v : bytes_ok d -> read_le n d off = Some v ->
  drop off d = to_le_bytes n v ++ drop (off + n) d /\ is_u (8 * Z.of_nat n) v.
Proof.
  intros Hd. unfold read_le. destruct (get_slice d off n) as [s|] eqn:E; [|done]. intros [= <-].
  apply get_slice_split in E as [E Hl]. assert (Hs : bytes_ok s).
  { apply (Forall_drop _ off) in Hd. rewrite E in Hd. by apply Forall_app in Hd as [? _]. }
  pose proof (to_from_le_bytes s Hs) as Hr. rewrite Hl in Hr. rewrite Hr. split; [done|].
  pose proof (from_le_range s Hs) as Hb. rewrite Hl in Hb. exact Hb.
Qed.

Lemma read_le_fits n d off : (off + n <= length d)%nat -> exists v, read_le n d off = Some v.
Proof. intros H. unfold read_le. destruct (get_slice_fits d off n H) as [s ->]. by eexists. Qed.

Lemma read_le_at n pre v post off : is_u (8 * Z.of_nat n) v -> length pre = off ->
  read_le n (pre ++ to_le_bytes n v ++ post) off = Some v.
Proof.
  intros Hv Hl. unfold read_le. rewrite (get_slice_at pre _ post off n Hl (length_to_le_bytes n v)). cbn [fmap option_fmap option_map].
  f_equal. by apply from_to_le_bytes_id.
Qed.

(** What the first signature covers, and the second. *)
Definition inner_of (g e : Z) : list Z := to_le_bytes 8 g ++ to_le_bytes 8 e.
Definition signed_of (g e : Z) (sig1 extra : list Z) : list Z :=
  inner_of g e ++ to_le_bytes 4 128 ++ sig1 ++ to_le_bytes 4 (Z.of_nat (length extra)) ++ extra.
Definition ticket_of (g e : Z) (sig1 extra sig2 rest : list Z) : list Z :=
  to_le_bytes 4 16 ++ signed_of g e sig1 extra ++ to_le_bytes 4 128 ++ sig2 ++ rest.

(** The text of an extra block: 20 bytes of hash, a length, that many bytes. *)
Definition text_of (extra : list Z) : option Name :=
  let json_len := from_le_bytes (take 4 (drop 20 extra)) in
  if (24 <=? length extra)%nat && (24 + json_len <=? Z.of_nat (length extra))
  then Some (from_utf8_lossy (take (Z.to_nat json_len) (drop 24 extra))) else None.

Lemma extra_text_spec extra : bytes_ok extra -> extra_text extra = Some (text_of extra).
Proof.
  intros Hb. unfold extra_text, text_of. destruct (Nat.leb_spec 24 (length extra)) as [Hl|]; [|done].
  unfold read_u32, get_slice. rewrite decide_True by lia. cbn [fmap option_fmap option_map mbind option_bind andb].
  assert (Hr : 0 <= from_le_bytes (take 4 (drop 20 extra))) by (apply from_le_range; by apply Forall_take, Forall_drop).
  destruct (Nat.leb_spec (24 + Z.to_nat (from_le_bytes (take 4 (drop 20 extra)))) (length extra)) as [Hf|Hf];
    destruct (Z.leb_spec (24 + from_le_bytes (take 4 (drop 20 extra))) (Z.of_nat (length extra))); try lia; [|done].
  by rewrite decide_True by lia.
Qed.

(** A run of consecutive pieces is read back at its offset. *)
Lemma get_slice_pieces (pieces : list (list Z)) i k off n :
  length (concat (take i pieces)) = off -> length (concat (take k (drop i pieces))) = n ->
  get_slice (concat pieces) off n = Some (concat (take k (drop i pieces))).
Proof.
  intros H1 H2. rewrite <- (take_drop i pieces) at 1. rewrite <- (take_drop k (drop i pieces)) at 1.
  rewrite !concat_app. by apply get_slice_at.
Qed.

Ltac at_piece R pieces i k off n :=
  rewrite (R i k off n) by
    (unfold pieces; cbn [take drop concat]; rewrite ?app_nil_r, ?length_app, ?length_to_le_bytes; cbn [length]; lia);
  unfold pieces at 1; cbn [take drop concat fmap option_fmap option_map mbind option_bind]; rewrite ?app_nil_r.

Section ticket_exact.
Context `{TicketCrypto}.

(** What a ticket of the right layout is answered. *)
Lemma parse_layout b64 g' g e sig1 extra sig2 rest pubkey now_secs :
  base64_decode (trim b64) = Some (ticket_of g e sig1 extra sig2 rest) ->
  is_u 64 g -> is_u 64 e -> length sig1 = SIG_LENGTH -> length sig2 = SIG_LENGTH ->
  bytes_ok extra -> Z.of_nat (length extra) < 2 ^ 32 ->
  parse_and_verify b64 g' pubkey now_secs = Some
    (if e <? now_secs then inl TicketExpired
     else if negb (g =? g') then inl GuidMismatch
     else if negb (verify_sig pubkey (inner_of g e) sig1) then inl InvalidSignature
     else if negb (verify_sig pubkey (signed_of g e sig1 extra) sig2) then inl InvalidSignature
     else inr {| guid := g; expiry_unix_secs := e; entitlement_hash := extra_hash extra; extra_json := text_of extra |}).
Proof.
  intros Hd Hg He Hs1 Hs2 Hx Hn. unfold parse_and_verify. rewrite Hd. clear Hd b64. unfold SIG_LENGTH in *.
  set (n := length extra) in *.
  set (pieces := [to_le_bytes 4 16; to_le_bytes 8 g; to_le_bytes 8 e; to_le_bytes 4 128; sig1;
                  to_le_bytes 4 (Z.of_nat n); extra; to_le_bytes 4 128; sig2; rest]).
  assert (Ed : ticket_of g e sig1 extra sig2 rest = concat pieces).
  { unfold pieces, ticket_of, signed_of, inner_of. cbn [concat]. by rewrite <- !app_assoc, app_nil_r. }
  assert (Hlen : length (concat pieces) = (156 + n + 4 + 128 + length rest)%nat).
  { cbn [concat pieces]. rewrite !length_app, !length_to_le_bytes. cbn [length]. lia. }
  assert (R : forall i k off m, length (concat (take i pieces)) = off -> length (concat (take k (drop i pieces))) = m ->
    get_slice (ticket_of g e sig1 extra sig2 rest) off m = Some (concat (take k (drop i pieces)))).
  { intros. rewrite Ed. by apply get_slice_pieces. }
  rewrite <- Ed in Hlen. set (d := ticket_of _ _ _ _ _ _) in *.
  change (BASE_LENGTH + 4)%nat with 156%nat. destruct (Nat.ltb_spec (length d) 156); [lia|].
  unfold read_u32, read_u64. change BASE_LENGTH with 152%nat.
  at_piece R pieces 0%nat 1%nat 0%nat 4%nat. change (from_le_bytes (to_le_bytes 4 16) =? Z.of_nat INNER_LENGTH) with true. cbn [negb].
  at_piece R pieces 1%nat 1%nat 4%nat 8%nat. at_piece R pieces 2%nat 1%nat 12%nat 8%nat. rewrite !(from_to_le_bytes_id 8) by done.
  destruct (e <? now_secs); [done|]. destruct (negb (g =? g')); [done|].
  at_piece R pieces 3%nat 1%nat 20%nat 4%nat. change (from_le_bytes (to_le_bytes 4 128) =? Z.of_nat 128) with true. cbn [negb].
  at_piece R pieces 1%nat 2%nat 4%nat 16%nat. at_piece R pieces 4%nat 1%nat 24%nat 128%nat. change (to_le_bytes 8 g ++ to_le_bytes 8 e) with (inner_of g e).
  destruct (negb (verify_sig pubkey (inner_of g e) sig1)); [done|].
  at_piece R pieces 5%nat 1%nat 152%nat 4%nat. rewrite (from_to_le_bytes_id 4) by (unfold is_u; lia). rewrite Nat2Z.id.
  destruct (Nat.ltb_spec (length d) (156 + n + 4 + 128)); [lia|].
  at_piece R pieces 7%nat 1%nat (156 + n)%nat 4%nat. change (from_le_bytes (to_le_bytes 4 128) =? Z.of_nat 128) with true. cbn [negb].
  at_piece R pieces 1%nat 6%nat 4%nat (156 + n - 4)%nat. at_piece R pieces 8%nat 1%nat (156 + n + 4)%nat 128%nat.
  replace (to_le_bytes 8 g ++ to_le_bytes 8 e ++ to_le_bytes 4 128 ++ sig1 ++ to_le_bytes 4 (Z.of_nat n) ++ extra)
    with (signed_of g e sig1 extra) by (unfold signed_of, inner_of; by rewrite <- !app_assoc).
  destruct (negb (verify_sig pubkey (signed_of g e sig1 extra) sig2)); [done|].
  at_piece R pieces 6%nat 1%nat 156%nat n. by rewrite extra_text_spec.
Qed.

(** A ticket is answered, whatever its bytes: no slice is out of range. *)
Lemma parse_total b64 g' pubkey now_secs :
  (forall d, base64_decode (trim b64) = Some d -> bytes_ok d) -> exists r, parse_and_verify b64 g' pubkey now_secs = Some r.
Proof.
  intros Hb. unfold parse_and_verify, malformed. destruct (base64_decode (trim b64)) as [d|] eqn:Ed; [|by eexists].
  specialize (Hb d eq_refl). change (BASE_LENGTH + 4)%nat with 156%nat. unfold SIG_LENGTH. change BASE_LENGTH with 152%nat.
  destruct (Nat.ltb_spec (length d) 156) as [|Hl]; [by eexists|].
  change read_u32 with (read_le 4). change read_u64 with (read_le 8).
  destruct (read_le_fits 4 d 0) as [v0 ->]; [lia|]. cbn [mbind option_bind]. destruct (negb _); [by eexists|].
  destruct (read_le_fits 8 d 4) as [v1 ->]; [lia|]. destruct (read_le_fits 8 d 12) as [v2 ->]; [lia|]. cbn [mbind option_bind].
  destruct (v2 <? now_secs); [by eexists|]. destruct (negb (v1 =? g')); [by eexists|].
  destruct (read_le_fits 4 d 20) as [v3 ->]; [lia|]. cbn [mbind option_bind]. destruct (negb _); [by eexists|].
  destruct (get_slice_fits d 4 16) as [s1 ->]; [lia|]. destruct (get_slice_fits d 24 128) as [s2 ->]; [lia|]. cbn [mbind option_bind].
  destruct (negb (verify_sig pubkey s1 s2)); [by eexists|].
  destruct (read_le_fits 4 d 152) as [v4 ->]; [lia|]. cbn [fmap option_fmap option_map mbind option_bind].
  destruct (Nat.ltb_spec (length d) (156 + Z.to_nat v4 + 4 + 128)); [by eexists|].
  destruct (read_le_fits 4 d (156 + Z.to_nat v4)) as [v5 ->]; [lia|]. cbn [mbind option_bind]. destruct (negb _); [by eexists|].
  destruct (get_slice_fits d 4 (156 + Z.to_nat v4 - 4)) as [s3 ->]; [lia|].
  destruct (get_slice_fits d (156 + Z.to_nat v4 + 4) 128) as [s4 ->]; [lia|]. cbn [mbind option_bind].
  destruct (negb (verify_sig pubkey s3 s4)); [by eexists|].
  destruct (get_slice_fits d 156 (Z.to_nat v4)) as [s5 E5]; [lia|]. rewrite E5. cbn [mbind option_bind].
  rewrite extra_text_spec; [by eexists|]. apply get_slice_split in E5 as [E5 _].
  apply (Forall_drop _ 156) in Hb. rewrite E5 in Hb. by apply Forall_app in Hb as [? _].
Qed.

(** An accepted ticket has the layout. *)
Lemma accepted_layout b64 g' pubkey now_secs t d : base64_decode (trim b64) = Some d -> bytes_ok d ->
  parse_and_verify b64 g' pubkey now_secs = Some (inr t) ->
  exists g e sig1 extra sig2 rest, d = ticket_of g e sig1 extra sig2 rest /\ is_u 64 g /\ is_u 64 e /\
    length sig1 = SIG_LENGTH /\ length sig2 = SIG_LENGTH /\ bytes_ok extra /\ Z.of_nat (length extra) < 2 ^ 32.
Proof.
  intros Ed Hb. unfold parse_and_verify, malformed. rewrite Ed. unfold SIG_LENGTH.
  change (BASE_LENGTH + 4)%nat with 156%nat. change BASE_LENGTH with 152%nat.
  change read_u32 with (read_le 4). change read_u64 with (read_le 8).
  destruct (Nat.ltb_spec (length d) 156) as [|Hl]; [done|].
  destruct (read_le 4 d 0) as [v0|] eqn:E0; [|done]. cbn [mbind option_bind].
  destruct (Z.eqb_spec v0 (Z.of_nat INNER_LENGTH)) as [->|]; cbn [negb]; [|done].
  destruct (read_le 8 d 4) as [g|] eqn:E1; [|done]. destruct (read_le 8 d 12) as [e|] eqn:E2; [|done]. cbn [mbind option_bind].
  destruct (e <? now_secs); [done|]. destruct (negb (g =? g')); [done|].
  destruct (read_le 4 d 20) as [v3|] eqn:E3; [|done]. cbn [mbind option_bind].
  destruct (Z.eqb_spec v3 (Z.of_nat 128)) as [->|]; cbn [negb]; [|done].
  destruct (get_slice d 4 16) as [|]; [|done]. destruct (get_slice d 24 128) as [sig1|] eqn:E4; [|done]. cbn [mbind option_bind].
  destruct (negb _); [done|]. destruct (read_le 4 d 152) as [v4|] eqn:E5; [|done]. cbn [fmap option_fmap option_map mbind option_bind].
  destruct (Nat.ltb_spec (length d) (156 + Z.to_nat v4 + 4 + 128)) as [|Hx]; [done|].
  destruct (read_le 4 d (156 + Z.to_nat v4)) as [v5|] eqn:E6; [|done]. cbn [mbind option_bind].
  destruct (Z.eqb_spec v5 (Z.of_nat 128)) as [->|]; cbn [negb]; [|done].
  destruct (get_slice d 4 _) as [|]; [|done]. destruct (get_slice d (156 + Z.to_nat v4 + 4) 128) as [sig2|] eqn:E7; [|done].
  intros _. destruct (get_slice_fits d 156 (Z.to_nat v4)) as [extra E8]; [lia|].
  apply read_le_split in E0 as [E0 _]; [|done]. apply read_le_split in E1 as [E1 Hg]; [|done].
  apply read_le_split in E2 as [E2 He]; [|done]. apply read_le_split in E3 as [E3 _]; [|done].
  apply get_slice_split in E4 as [E4 H4]. apply read_le_split in E5 as [E5 Hn]; [|done].
  apply read_le_split in E6 as [E6 _]; [|done]. apply get_slice_split in E7 as [E7 H7]. apply get_slice_split in E8 as [E8 H8].
  cbn [Nat.add] in E0, E1, E2, E3, E4, E5. rewrite drop_0 in E0. unfold is_u in Hn.
  exists g, e, sig1, extra, sig2, (drop (156 + Z.to_nat v4 + 4 + 128) d). split_and!; try done.
  - etransitivity; [exact E0|]. rewrite E1, E2, E3, E4, E5, E8, E6, E7. unfold ticket_of, signed_of, inner_of. rewrite <- !app_assoc.
    rewrite H8, Z2Nat.id by lia. reflexivity.
  - apply (Forall_drop _ 156) in Hb. rewrite E8 in Hb. by apply Forall_app in Hb as [? _].
  - rewrite H8, Z2Nat.id by lia. apply Hn.
Qed.
End ticket_exact.

(** base64 decodes to bytes. *)
Class TicketCryptoLaws `{TicketCrypto} := base64_bytes : forall text d, base64_decode text = Some d -> bytes_ok d.

Section theorems.
Context `{TicketCryptoLaws} `{Json}.

(** C20: tickets. Verification answers every ticket, and accepts exactly the bytes
    of the documented layout (up to trailing bytes) for the player's id, not
    expired, whose first signature covers id and expiry and whose second
    covers everything from the id to the end of the extra block; what it
    returns is read from the signed bytes. *)
Theorem ticket_exact b64 g k now :
  (exists r, parse_and_verify b64 g k now = Some r) /\
  forall t, parse_and_verify b64 g k now = Some (inr t) <->
    exists e sig1 extra sig2 rest,
      base64_decode (trim b64) = Some (ticket_of g e sig1 extra sig2 rest) /\ is_u 64 g /\ is_u 64 e /\
      length sig1 = 128%nat /\ length sig2 = 128%nat /\ bytes_ok extra /\ Z.of_nat (length extra) < 2 ^ 32 /\
      now <= e /\
      verify_pkcs1v15 k (signed_digest (inner_of g e)) sig1 = true /\
      verify_pkcs1v15 k (signed_digest (signed_of g e sig1 extra)) sig2 = true /\
      t = {| guid := g; expiry_unix_secs := e; entitlement_hash := extra_hash extra; extra_json := text_of extra |}.
Proof.
  split; [apply parse_total; intros d Hd; by eapply base64_bytes|]. intros t. split.
  - intros Hp. destruct (base64_decode (trim b64)) as [d|] eqn:Ed.
    2: { unfold parse_and_verify in Hp. rewrite Ed in Hp. discriminate. }
    pose proof (base64_bytes _ _ Ed) as Hb.
    destruct (accepted_layout _ _ _ _ _ _ Ed Hb Hp) as (g' & e & sig1 & extra & sig2 & rest & -> & Hg & He & H1' & H2' & Hx & Hn).
    rewrite (parse_layout b64 g g' e sig1 extra sig2 rest k now) in Hp by done. apply (inj Some) in Hp.
    destruct (Z.ltb_spec e now); [done|]. destruct (Z.eqb_spec g' g) as [->|]; cbn [negb] in Hp; [|done].
    destruct (verify_sig k (inner_of g e) sig1) eqn:V1; cbn [negb] in Hp; [|done].
    destruct (verify_sig k (signed_of g e sig1 extra) sig2) eqn:V2; cbn [negb] in Hp; [|done].
    injection Hp as <-. exists e, sig1, extra, sig2, rest. by split_and!.
  - intros (e & sig1 & extra & sig2 & rest & Ed & Hg & He & H1' & H2' & Hx & Hn & Hnow & V1 & V2 & ->).
    rewrite (parse_layout b64 g g e sig1 extra sig2 rest k now) by done. f_equal.
    destruct (Z.ltb_spec e now); [lia|]. rewrite Z.eqb_refl. unfold verify_sig. by rewrite V1, V2.
Qed.
End theorems.

(** ** Reuse *)

Definition Check : Type := Z * TicketData.
Definition pair_of (c : Check) : Z * Z := (expiry_unix_secs c.2, guid c.2).
Definition accepted (c : Check) (u : UsedTickets) : Prop := (check_reuse c.1 c.2 u).1 = inr tt.
Definition after (u : UsedTickets) (c : Check) : UsedTickets := (check_reuse c.1 c.2 u).2.

(** [p] may be accepted again only once the clock has passed [t]. *)
Definition held (p : Z * Z) (t : Z) (u : UsedTickets) : Prop := p ∈ seen u /\ t <= next_gc u.

Lemma check_cases c u :
  (next_gc u < c.1 /\ next_gc (after u c) = c.1 + TICKET_GC_INTERVAL /\ pair_of c ∈ seen (after u c) /\ accepted c u) \/
  (c.1 <= next_gc u /\ next_gc (after u c) = next_gc u /\ seen u ⊆ seen (after u c) /\ pair_of c ∈ seen (after u c) /\
    (accepted c u <-> pair_of c ∉ seen u)).
Proof.
  unfold accepted, after, check_reuse. destruct (Z.ltb_spec (next_gc u) c.1); [left|right]; fold (pair_of c).
  - rewrite bool_decide_eq_false_2 by set_solver. cbn. set_solver.
  - case_bool_decide; cbn; set_solver.
Qed.

Lemma check_held c p t u : held p t u -> held p t (after u c) \/ t < c.1.
Proof.
  intros [Hp Ht]. destruct (check_cases c u) as [(Hg & _)|(_ & E & Hs & _)]; [right; lia|left].
  split; [set_solver|lia].
Qed.

Lemma checks_held l p t u : held p t u -> held p t (foldl after u l) \/ Exists (fun c => t < c.1) l.
Proof.
  revert u. induction l as [|c l IH]; intros u Hu; [by left|]. cbn [foldl].
  destruct (check_held c p t u Hu) as [Hc|Hc]; [|by right; constructor].
  destruct (IH _ Hc) as [|]; [by left|by right; constructor].
Qed.

(** A ticket is forgotten only by a clearing, and the next is thirty minutes off. *)
Lemma checks_gone l p t u : Forall (fun c => t <= c.1) l -> p ∈ seen u \/ t + TICKET_GC_INTERVAL <= next_gc u ->
  p ∈ seen (foldl after u l) \/ t + TICKET_GC_INTERVAL <= next_gc (foldl after u l).
Proof.
  intros Hl. revert u. induction Hl as [|c l Hc _ IH]; intros u Hu; [done|]. apply IH.
  destruct (check_cases c u) as [(? & ? & _)|(? & ? & ? & _)]; [right; lia|]. destruct Hu; [left; set_solver|right; lia].
Qed.

(** A second acceptance comes after [t], and leaves the ticket held. *)
Lemma reaccepted c u t : held (pair_of c) t u \/ t < c.1 -> accepted c u -> t < c.1.
Proof.
  intros [[Hp Ht]|]; [|done]. destruct (check_cases c u) as [(? & _)|(_ & _ & _ & _ & Ha)]; [lia|].
  intros Hacc. by apply Ha in Hacc.
Qed.

Lemma last_latest (l : list Check) c t : StronglySorted Z.le ((l ++ [c]).*1) -> Exists (fun c => t < c.1) l -> t < c.1.
Proof.
  induction l as [|x l IH]; intros Hs He; [by inversion He|]. cbn in Hs. apply StronglySorted_inv in Hs as [Hs Hx].
  inversion He as [? ? H'|? ? H']; subst; [|by apply IH].
  rewrite fmap_app in Hx. apply Forall_app in Hx as [_ Hx]. apply Forall_cons in Hx as [Hx _]. lia.
Qed.

Lemma sorted_prefix (l : list Check) c r : StronglySorted Z.le ((l ++ c :: r).*1) -> StronglySorted Z.le ((l ++ [c]).*1).
Proof.
  rewrite !fmap_app. induction (l.*1) as [|x xs IH]; cbn; intros Hs; apply StronglySorted_inv in Hs as [Hs Hx]; constructor.
  - constructor. - constructor. - by apply IH.
  - apply Forall_app in Hx as [Hx Hc]. apply Forall_app. split; [done|]. inversion Hc. by repeat constructor.
Qed.

(** C32: replay. Whatever is checked in between, a ticket accepted once is accepted
    again only after the set of used tickets has been cleared, and is not
    accepted a third time within thirty minutes of the first. *)
Theorem replay_bounded u c1 l2 c2 l3 c3 :
  StronglySorted Z.le ((c1 :: l2 ++ c2 :: l3 ++ [c3]).*1) -> pair_of c2 = pair_of c1 -> pair_of c3 = pair_of c1 ->
  let u1 := after u c1 in
  let u2 := foldl after u1 l2 in
  let u3 := foldl after (after u2 c2) l3 in
  accepted c1 u -> accepted c2 u2 ->
  next_gc u1 < c2.1 /\ (accepted c3 u3 -> c1.1 + TICKET_GC_INTERVAL < c3.1).
Proof.
  intros Hs E2 E3 u1 u2 u3 Ha1 Ha2. cbn in Hs. apply StronglySorted_inv in Hs as [Hs Hc1].
  assert (Hi : 0 <= TICKET_GC_INTERVAL) by done.
  assert (H1 : held (pair_of c2) (next_gc u1) u1) by (rewrite E2; split; [destruct (check_cases c1 u); tauto|done]).
  assert (Hg : next_gc u1 < c2.1).
  { apply (reaccepted c2 u2); [|done]. destruct (checks_held l2 _ _ _ H1) as [|He]; [by left|right].
    apply (last_latest l2 c2); [|done]. by apply sorted_prefix in Hs. }
  split; [done|]. intros Ha3.
  rewrite Forall_fmap, Forall_app, Forall_cons in Hc1. destruct Hc1 as (Hl2 & Hle & _). cbn in Hle.
  assert (H2 : held (pair_of c3) (c1.1 + TICKET_GC_INTERVAL) (after u2 c2)).
  { unfold held. rewrite E3, <- E2. destruct (check_cases c2 u2) as [(? & -> & ? & _)|(_ & E & _ & Hp & Hacc)]; [split; [done|lia]|].
    split; [done|]. apply Hacc in Ha2. rewrite E.
    destruct (checks_gone l2 (pair_of c2) c1.1 u1 Hl2 (or_introl (proj1 H1))) as [Hin|Hin]; [by destruct Ha2|exact Hin]. }
  apply (reaccepted c3 u3); [|done]. destruct (checks_held l3 _ _ _ H2) as [|He]; [by left|right].
  apply (last_latest l3 c3); [|done]. rewrite fmap_app in Hs. cbn in Hs. rewrite fmap_app. cbn.
  clear -Hs. induction (l2.*1) as [|x xs IH]; cbn in Hs; apply StronglySorted_inv in Hs as [Hs _]; [by rewrite fmap_app in Hs|auto].
Qed.

(** A ticket may be accepted twice within two nanoseconds. *)
Example accepted_twice :
  let t := {| guid := 7; expiry_unix_secs := 2000000000; entitlement_hash := None; extra_json := None |} in
  let u := used_new 0 in
  accepted (next_gc u, t) u /\ accepted (next_gc u + 1, t) (after u (next_gc u, t)).
Proof. split; reflexivity. Qed.

Lemma replay_bounded_witness :
  let t := {| guid := 7; expiry_unix_secs := 2000000000; entitlement_hash := None; extra_json := None |} in
  1 + TICKET_GC_INTERVAL < 2 + 2 * TICKET_GC_INTERVAL.
Proof.
  intros t. apply (proj2 (replay_bounded (used_new 0) (1, t) [] (1 + TICKET_GC_INTERVAL, t) [] (2 + 2 * TICKET_GC_INTERVAL, t)
    ltac:(repeat constructor; vm_compute; discriminate) eq_refl eq_refl eq_refl eq_refl)). reflexivity.
Defined.

(** ** Examples *)

(** Codecs for closed examples: text is not encoded, a digest is the first
    bytes, a key signs by repeating itself. *)
Definition sample_crypto : TicketCrypto := {|
  RsaPublicKey := Z; base64_decode := fun text => if bool_decide (bytes_ok text) then Some text else None; sha1 := take 20;
  verify_pkcs1v15 := fun k _ sig => bool_decide (sig = repeat k 128); from_pkcs1_der := head;
  base64_error := fun _ => []; pkcs1_error := fun _ => []; hex_encode := id |}.

Lemma sample_crypto_laws : @TicketCryptoLaws sample_crypto.
Proof. intros text d. cbn. case_bool_decide; [|done]. by intros [= <-]. Qed.

(** Player 7's ticket, valid until 2000, with a hash and no text. *)
Definition sample_ticket : Name := ticket_of 7 2000 (repeat 5 128) (repeat 1 20) (repeat 5 128) [].

Lemma ticket_exact_witness : @parse_and_verify sample_crypto sample_ticket 7 5 1000 =
  Some (inr {| guid := 7; expiry_unix_secs := 2000; entitlement_hash := Some (repeat 1 20); extra_json := None |}).
Proof.
  apply (proj2 (@ticket_exact sample_crypto sample_crypto_laws sample_ticket 7 5 1000)).
  exists 2000, (repeat 5 128), (repeat 1 20), (repeat 5 128), []. split_and!; try (vm_compute; reflexivity).
  - apply (bool_decide_unpack _). vm_compute. exact I.
  - apply (bool_decide_unpack _). vm_compute. exact I.
  - apply (bool_decide_unpack _). vm_compute. exact I.
  - lia.
Defined.
