(* ===== verification/Config.v ===== *)
(** * The configuration (src/crates/baston-config/src/lib.rs)

    The sections of baston.toml, a module each, with their defaults and
    validation, and how a configuration is loaded. Paths and strings are their
    bytes; reading the file, parsing TOML and asking whether a path exists are
    libraries' and a class. The texts of [ConfigError]'s messages are left out,
    but for the reasons the code computes. *)

From S2P Require Import Prelude F32 Decimal Utf8 Udp DebugFeed.
From S2P Require AdaptiveTick InterestNg.
#[local] Open Scope Z_scope.

Abbreviation Text := (list Z).
Abbreviation PathBuf := (list Z).

Inductive ConfigError :=
| Read (path : PathBuf) (why : Text)
| Parse (path : PathBuf) (why : Text)
| Invalid (section reason : Text)
| EnvOverride (var value reason : Text)
| EscrowMissingLicense
| EscrowMissingDllPath
| EscrowDllNotFound (path : PathBuf)
| EscrowMissingFxserverPath
| EscrowFxserverNotFound (path : PathBuf)
| LicenseMissingKey (mode : Text)
| LicenseMalformedKey
| ApiKeyMissingName
| ApiKeyDuplicateName (name : Text)
| ApiKeyWeakToken (name : Text)
| ApiKeyDuplicateToken (name : Text)
| ApiKeyNoPermissions (name : Text)
| LicenseMissingFxserverPath
| LicenseFxserverNotFound (path : PathBuf).

(** [Result<T, ConfigError>] and its [?]. *)
Abbreviation Checked A := (ConfigError + A)%type.
#[global] Instance checked_bind : MBind (sum ConfigError) := fun A B f r => match r with inl e => inl e | inr a => f a end.

Definition refuse_if (bad : bool) (e : ConfigError) : Checked unit := if bad then inl e else inr tt.
Definition ok_or {A} (o : option A) (e : ConfigError) : Checked A := match o with Some a => inr a | None => inl e end.
Definition quoted (s : string) : Text := [34] ++ as_bytes s ++ [34].
Definition invalid (section reason : string) : ConfigError := Invalid (as_bytes section) (as_bytes reason).

(** ** Text *)

(** [s.chars().any(char::is_whitespace)]: no white-space character starts
    inside another character. *)
Fixpoint any_whitespace (bs : Text) : bool :=
  match bs with [] => false | _ :: rest => is_some (white_space bs) || any_whitespace rest end.

Definition to_ascii_uppercase (b : Z) : Z := if (97 <=? b) && (b <=? 122) then b - 32 else b.

Definition REPLACE_ME : Text := as_bytes "REPLACE_ME".
Definition is_placeholder (bs : Text) : bool := contains_slice REPLACE_ME (to_ascii_uppercase <$> bs).

(** The part of a text after its last [c], the whole text without one. *)
Definition after_last (c : Z) (bs : Text) : Text :=
  match find_byte c (rev bs) with Some i => rev (take i (rev bs)) | None => bs end.

(** ** Addresses, as the standard library classifies them *)

Inductive IpAddr := V4 (bits : Z) | V6 (bits : Z).
#[global] Instance IpAddr_eq_dec : EqDecision IpAddr.
Proof. solve_decision. Defined.

Definition is_unspecified (a : IpAddr) : bool := match a with V4 z | V6 z => z =? 0 end.
Definition is_loopback (a : IpAddr) : bool := match a with V4 z => z / 2 ^ 24 =? 127 | V6 z => z =? 1 end.
Definition is_multicast (a : IpAddr) : bool :=
  match a with V4 z => (224 <=? z / 2 ^ 24) && (z / 2 ^ 24 <=? 239) | V6 z => z / 2 ^ 120 =? 255 end.

(** What the code asks of the file system and of the crate toml. *)
Class ConfigIo (C : Type) := {
  path_exists : PathBuf -> bool;
  read_to_string : PathBuf -> Text + Text;
  toml_from_str : Text -> Text + C;
  env_var : Text -> option Text
}.

(** ** [voice] *)
Module Voice.
Record VoiceConfig := { enabled : bool; port : Z; external_address : Text }.
Definition default_voice_port : Z := 30121.
Definition default : VoiceConfig := {| enabled := false; port := default_voice_port; external_address := [] |}.
End Voice.

(** ** [api] *)
Module Api.
Inductive ApiPermission :=
| MonitorRead | ResourceControl | PlayerKick | ZoneDrain | ProfilerControl | ProfilerRead | ConsoleExecute.
#[global] Instance ApiPermission_eq_dec : EqDecision ApiPermission.
Proof. solve_decision. Defined.

Record ApiKey := { name : Text; token : Text; permissions : list ApiPermission }.
Record ApiConfig := { keys : list ApiKey; audit_log : PathBuf }.

Definition default_audit_log : PathBuf := as_bytes "baston-audit.jsonl".
Definition default : ApiConfig := {| keys := []; audit_log := default_audit_log |}.

Definition weak_token (token : Text) : bool := (length token <? 32)%nat || any_whitespace token || is_placeholder token.

Fixpoint validate_keys (names tokens : list Text) (keys : list ApiKey) : Checked unit :=
  match keys with
  | [] => inr tt
  | k :: rest =>
      refuse_if (bool_decide (trim (name k) = [])) ApiKeyMissingName ≫= fun _ =>
      refuse_if (bool_decide (name k ∈ names)) (ApiKeyDuplicateName (name k)) ≫= fun _ =>
      let t := trim (token k) in
      refuse_if (weak_token t) (ApiKeyWeakToken (name k)) ≫= fun _ =>
      refuse_if (bool_decide (t ∈ tokens)) (ApiKeyDuplicateToken (name k)) ≫= fun _ =>
      refuse_if (bool_decide (permissions k = [])) (ApiKeyNoPermissions (name k)) ≫= fun _ =>
      validate_keys (name k :: names) (t :: tokens) rest
  end.

Definition validate (c : ApiConfig) : Checked unit := validate_keys [] [] (keys c).
End Api.

(** ** [license] *)
Module License.
Inductive LicenseMode := Off | Gate | Verified.
#[global] Instance LicenseMode_eq_dec : EqDecision LicenseMode.
Proof. solve_decision. Defined.

Record LicenseConfig := {
  mode : LicenseMode; sv_license_key : Text; fxserver_path : option PathBuf; sidecar_port : Z;
  public_listing : bool; listing_ip_override : option IpAddr
}.

Definition default_sidecar_port : Z := 30130.
Definition default : LicenseConfig := {|
  mode := Off; sv_license_key := []; fxserver_path := None; sidecar_port := default_sidecar_port;
  public_listing := false; listing_ip_override := None |}.

Definition is_well_formed_key (c : LicenseConfig) : bool :=
  let key := trim (sv_license_key c) in
  negb (bool_decide (key = [])) && (20 <=? length key)%nat && negb (any_whitespace key) && negb (is_placeholder key).

Definition validate_key (mode : string) (c : LicenseConfig) : Checked unit :=
  refuse_if (bool_decide (trim (sv_license_key c) = [])) (LicenseMissingKey (as_bytes mode)) ≫= fun _ =>
  refuse_if (negb (is_well_formed_key c)) LicenseMalformedKey.

Definition validate (path_exists : PathBuf -> bool) (c : LicenseConfig) : Checked unit :=
  match mode c with
  | Off => inr tt
  | Gate => validate_key "gate" c
  | Verified =>
      validate_key "verified" c ≫= fun _ =>
      ok_or (fxserver_path c) LicenseMissingFxserverPath ≫= fun path =>
      refuse_if (negb (path_exists path)) (LicenseFxserverNotFound path)
  end.
End License.

(** ** [escrow] *)
Module Escrow.
Inductive EscrowBackend := Sidecar | Direct.
Record EscrowConfig := {
  enabled : bool; backend : EscrowBackend; server_license : Text; dll_path : option PathBuf; fxserver_path : option PathBuf
}.
Definition default : EscrowConfig := {|
  enabled := false; backend := Sidecar; server_license := []; dll_path := None; fxserver_path := None |}.

Definition validate (path_exists : PathBuf -> bool) (c : EscrowConfig) : Checked unit :=
  if negb (enabled c) then inr tt
  else
    refuse_if (bool_decide (server_license c = [])) EscrowMissingLicense ≫= fun _ =>
    match backend c with
    | Sidecar =>
        ok_or (fxserver_path c) EscrowMissingFxserverPath ≫= fun path =>
        refuse_if (negb (path_exists path)) (EscrowFxserverNotFound path)
    | Direct =>
        ok_or (dll_path c) EscrowMissingDllPath ≫= fun path =>
        refuse_if (negb (path_exists path)) (EscrowDllNotFound path)
    end.
End Escrow.

(** ** [meshing] *)
Module Meshing.
Record MeshingConfig := {
  enabled : bool; gateway_grpc_addr : Text; gateway_grpc : Text; zone_grpc_addr : Text;
  zone_public_grpc_addr : option Text; zone_bounds : option Text;
  heartbeat_interval_secs : Z; zone_timeout_secs : Z; boundary_margin : f32;
  boundary_scan_interval_ms : Z; handoff_cooldown_secs : Z; admin_port : Z; admin_token : Text
}.
#[global] Instance MeshingConfig_rebuild : Rebuild MeshingConfig := fun c =>
  Build_MeshingConfig (enabled c) (gateway_grpc_addr c) (gateway_grpc c) (zone_grpc_addr c) (zone_public_grpc_addr c)
    (zone_bounds c) (heartbeat_interval_secs c) (zone_timeout_secs c) (boundary_margin c)
    (boundary_scan_interval_ms c) (handoff_cooldown_secs c) (admin_port c) (admin_token c).
Definition default_gateway_grpc_addr : Text := as_bytes "0.0.0.0:50050".
Definition default_gateway_grpc_target : Text := as_bytes "127.0.0.1:50050".
Definition default_zone_grpc_addr : Text := as_bytes "0.0.0.0:50051".
Definition default_heartbeat_interval : Z := 5.
Definition default_zone_timeout : Z := 15.
Definition default_boundary_margin : f32 := f32_of_Z 300.
Definition default_boundary_scan_interval_ms : Z := 500.
Definition default_handoff_cooldown : Z := 5.
Definition default_admin_port : Z := 8080.
Definition default : MeshingConfig := {|
  enabled := false; gateway_grpc_addr := default_gateway_grpc_addr; gateway_grpc := default_gateway_grpc_target;
  zone_grpc_addr := default_zone_grpc_addr; zone_public_grpc_addr := None; zone_bounds := None;
  heartbeat_interval_secs := default_heartbeat_interval; zone_timeout_secs := default_zone_timeout;
  boundary_margin := default_boundary_margin; boundary_scan_interval_ms := default_boundary_scan_interval_ms;
  handoff_cooldown_secs := default_handoff_cooldown; admin_port := default_admin_port; admin_token := [] |}.
End Meshing.

(** ** [nats] *)
Module Nats.
Record NatsConfig := { url : Text; zone_id : Text }.
Definition default_nats_url : Text := as_bytes "nats://127.0.0.1:4222".
Definition default_zone_id : Text := as_bytes "zone-a".
Definition default : NatsConfig := {| url := default_nats_url; zone_id := default_zone_id |}.
End Nats.

(** ** [state_sync] *)
Module StateSync.
Inductive OneSyncMode := Off | On.
Definition is_enabled (m : OneSyncMode) : bool := match m with On => true | Off => false end.
Definition convar_value (m : OneSyncMode) : Text := match m with Off => as_bytes "off" | On => as_bytes "on" end.

Record StateSyncConfig := {
  sync_interval_ms : Z; push_interval_ms : Z; aoi_radius : f32; max_speed_mps : f32; ownership_interval_secs : Z;
  onesync : OneSyncMode; adaptive_tick_enabled : bool; tick_min_hz : Z; tick_default_hz : Z; tick_max_hz : Z;
  tick_high_utilization : f32; tick_low_utilization : f32; tick_recovery_window : Z; tick_overload_backoff : f32;
  interest_budget_bytes : Z; interest_remove_budget_bytes : Z; interest_distance_weight : f32;
  interest_closing_weight : f32; interest_staleness_weight : f32; interest_hysteresis_m : f32
}.
#[global] Instance StateSyncConfig_rebuild : Rebuild StateSyncConfig := fun c =>
  Build_StateSyncConfig (sync_interval_ms c) (push_interval_ms c) (aoi_radius c) (max_speed_mps c) (ownership_interval_secs c)
    (onesync c) (adaptive_tick_enabled c) (tick_min_hz c) (tick_default_hz c) (tick_max_hz c) (tick_high_utilization c)
    (tick_low_utilization c) (tick_recovery_window c) (tick_overload_backoff c) (interest_budget_bytes c)
    (interest_remove_budget_bytes c) (interest_distance_weight c) (interest_closing_weight c) (interest_staleness_weight c)
    (interest_hysteresis_m c).

(** A decimal constant of the source, rounded to the nearest f32. *)
Definition literal (n d : Z) : f32 := f32_div (f32_of_Z n) (f32_of_Z d).

Definition default_sync_interval_ms : Z := 16.
Definition default_push_interval_ms : Z := 50.
Definition default_aoi_radius : f32 := f32_of_Z 450.
Definition default_max_speed : f32 := f32_of_Z 200.
Definition default_ownership_interval : Z := 5.
Definition default_tick_min_hz : Z := 20.
Definition default_tick_default_hz : Z := 60.
Definition default_tick_max_hz : Z := 120.
Definition default_tick_high_utilization : f32 := literal 85 100.
Definition default_tick_low_utilization : f32 := literal 1 2.
Definition default_tick_recovery_window : Z := 180.
Definition default_tick_overload_backoff : f32 := literal 1 2.
Definition default_interest_budget_bytes : Z := 24 * 1024.
Definition default_interest_remove_budget_bytes : Z := 4 * 1024.
Definition default_interest_distance_weight : f32 := f32_of_Z 10.
Definition default_interest_closing_weight : f32 := literal 1 2.
Definition default_interest_staleness_weight : f32 := f32_one.
Definition default_interest_hysteresis_m : f32 := f32_of_Z 20.

Definition default : StateSyncConfig := {|
  sync_interval_ms := default_sync_interval_ms; push_interval_ms := default_push_interval_ms;
  aoi_radius := default_aoi_radius; max_speed_mps := default_max_speed;
  ownership_interval_secs := default_ownership_interval; onesync := Off; adaptive_tick_enabled := true;
  tick_min_hz := default_tick_min_hz; tick_default_hz := default_tick_default_hz; tick_max_hz := default_tick_max_hz;
  tick_high_utilization := default_tick_high_utilization; tick_low_utilization := default_tick_low_utilization;
  tick_recovery_window := default_tick_recovery_window; tick_overload_backoff := default_tick_overload_backoff;
  interest_budget_bytes := default_interest_budget_bytes;
  interest_remove_budget_bytes := default_interest_remove_budget_bytes;
  interest_distance_weight := default_interest_distance_weight;
  interest_closing_weight := default_interest_closing_weight;
  interest_staleness_weight := default_interest_staleness_weight;
  interest_hysteresis_m := default_interest_hysteresis_m |}.

(** Ranges of floats: [(0.0..1.0).contains(x)] and [(0.0..=1.0)]. *)
Definition in_unit_open (x : f32) : bool := f32_le f32_zero x && f32_lt x f32_one.
Definition in_unit_closed (x : f32) : bool := f32_le f32_zero x && f32_le x f32_one.

Definition bad_rates (c : StateSyncConfig) : bool :=
  (tick_min_hz c =? 0) || (tick_default_hz c <? tick_min_hz c) || (tick_max_hz c <? tick_default_hz c) || (120 <? tick_max_hz c).

Definition rates_reason (c : StateSyncConfig) : Text :=
  as_bytes "tick rates must satisfy 1 <= min (" ++ decimal (tick_min_hz c) ++ as_bytes ") <= default ("
    ++ decimal (tick_default_hz c) ++ as_bytes ") <= max (" ++ decimal (tick_max_hz c) ++ as_bytes ") <= 120 Hz".

Definition bad_weight (x : f32) : bool := negb (is_finite x) || f32_lt x f32_zero.

Fixpoint validate_weights (weights : list (string * f32)) : Checked unit :=
  match weights with
  | [] => inr tt
  | (name, value) :: rest =>
      refuse_if (bad_weight value) (Invalid (as_bytes "state_sync") (as_bytes name ++ as_bytes " must be finite and non-negative")) ≫= fun _ =>
      validate_weights rest
  end.

Definition validate (c : StateSyncConfig) : Checked unit :=
  refuse_if (bad_rates c) (Invalid (as_bytes "state_sync") (rates_reason c)) ≫= fun _ =>
  refuse_if (negb (in_unit_open (tick_low_utilization c)) || negb (in_unit_closed (tick_high_utilization c))
      || f32_ge (tick_low_utilization c) (tick_high_utilization c))
    (invalid "state_sync" "tick utilization thresholds must satisfy 0 <= low < high <= 1") ≫= fun _ =>
  refuse_if (negb (in_unit_open (tick_overload_backoff c)))
    (invalid "state_sync" "tick_overload_backoff must be greater than 0 and less than 1") ≫= fun _ =>
  refuse_if ((tick_recovery_window c =? 0) || (interest_budget_bytes c =? 0) || (interest_remove_budget_bytes c =? 0)
      || negb (is_finite (aoi_radius c)) || f32_le (aoi_radius c) f32_zero
      || negb (is_finite (interest_hysteresis_m c)) || f32_lt (interest_hysteresis_m c) f32_zero)
    (invalid "state_sync" "recovery window, budgets and AoI must be positive; hysteresis must be finite and non-negative") ≫= fun _ =>
  validate_weights [("interest_distance_weight"%string, interest_distance_weight c);
                    ("interest_closing_weight"%string, interest_closing_weight c);
                    ("interest_staleness_weight"%string, interest_staleness_weight c)].

(** ** What the zone builds from the section *)

(** [f64::from] of an f32 is exact. *)
Definition f64_from (x : f32) : spec_float :=
  match x with
  | S754_finite s m e => binary_normalize 53 1024 (if s then Z.neg m else Z.pos m) e s
  | _ => x
  end.

Definition tick_config (c : StateSyncConfig) : AdaptiveTick.AdaptiveTickConfig := {|
  AdaptiveTick.enabled := adaptive_tick_enabled c; AdaptiveTick.min_hz := tick_min_hz c;
  AdaptiveTick.initial_hz := tick_default_hz c; AdaptiveTick.max_hz := tick_max_hz c;
  AdaptiveTick.low_utilization := f64_from (tick_low_utilization c);
  AdaptiveTick.high_utilization := f64_from (tick_high_utilization c);
  AdaptiveTick.recovery_window := tick_recovery_window c;
  AdaptiveTick.overload_backoff := f64_from (tick_overload_backoff c) |}.

Definition interest_config (c : StateSyncConfig) : InterestNg.InterestConfig := {|
  InterestNg.aoi_radius := aoi_radius c; InterestNg.budget_bytes := interest_budget_bytes c;
  InterestNg.distance_weight := interest_distance_weight c; InterestNg.closing_weight := interest_closing_weight c;
  InterestNg.staleness_weight := interest_staleness_weight c; InterestNg.hysteresis_m := interest_hysteresis_m c;
  InterestNg.remove_budget_bytes := interest_remove_budget_bytes c |}.
End StateSync.

(** ** [metrics], [udp], [server], [auth], [connection], [dev], [tls] *)
Module Metrics.
Record MetricsConfig := { enabled : bool; port : Z }.
#[global] Instance MetricsConfig_rebuild : Rebuild MetricsConfig := fun c => Build_MetricsConfig (enabled c) (port c).
Definition default_metrics_port : Z := 9090.
Definition default : MetricsConfig := {| enabled := true; port := default_metrics_port |}.
End Metrics.

Module UdpSection.
Record UdpConfig := { port : option Z; poll_interval_ms : Z }.
Definition default_udp_poll_interval : Z := 5.
Definition default : UdpConfig := {| port := None; poll_interval_ms := default_udp_poll_interval |}.
End UdpSection.

Module Server.
Record ServerConfig := { name : Text; port : Z; bind_address : IpAddr; max_players : Z; enforce_game_build : Text }.
#[global] Instance ServerConfig_rebuild : Rebuild ServerConfig := fun c =>
  Build_ServerConfig (name c) (port c) (bind_address c) (max_players c) (enforce_game_build c).
(** What the keys of [server] a file leaves out are read as. *)
Definition default_server_name : Text := as_bytes "BASTON Dev".
Definition default_port : Z := 30120.
Definition default_bind_address : IpAddr := V4 0.
Definition default_max_players : Z := 32.
Definition default_enforce_game_build : Text := [].
End Server.

Module AuthSection.
Record AuthConfig := { pubkey_url : Text; http_timeout_secs : Z }.
Definition default_pubkey_url : Text := as_bytes "https://lambda.fivem.net/api/ticket/pubkey".
Definition default_auth_timeout : Z := 5.
Definition default : AuthConfig := {| pubkey_url := default_pubkey_url; http_timeout_secs := default_auth_timeout |}.
End AuthSection.

Module ConnectionSection.
Record ConnectionConfig := { deferral_timeout_secs : Z }.
Definition default_deferral_timeout : Z := 10.
Definition default : ConnectionConfig := {| deferral_timeout_secs := default_deferral_timeout |}.
End ConnectionSection.

Module Dev.
Record DevConfig := { hot_reload : bool; auth_bypass : bool }.
Definition default : DevConfig := {| hot_reload := true; auth_bypass := false |}.
End Dev.

Record TlsConfig := { cert_pem : PathBuf; key_pem : PathBuf }.

(** ** [resources] *)
Module Resources.
Record ResourcesConfig := {
  path : PathBuf; file_download_timeout_secs : Z; file_download_chunk_bytes : Z; file_download_concurrency : Z;
  kvp_path : PathBuf; kvp_flush_interval_secs : Z; http_request_timeout_secs : Z; http_concurrency : Z;
  http_response_max_bytes : Z; http_handler_timeout_secs : Z; http_request_max_bytes : Z
}.
#[global] Instance ResourcesConfig_rebuild : Rebuild ResourcesConfig := fun c =>
  Build_ResourcesConfig (path c) (file_download_timeout_secs c) (file_download_chunk_bytes c) (file_download_concurrency c)
    (kvp_path c) (kvp_flush_interval_secs c) (http_request_timeout_secs c) (http_concurrency c)
    (http_response_max_bytes c) (http_handler_timeout_secs c) (http_request_max_bytes c).
Definition default_resources_path : PathBuf := as_bytes "resources".
Definition default_file_download_timeout_secs : Z := 30.
Definition default_file_download_chunk_bytes : Z := 64 * 1024.
Definition default_file_download_concurrency : Z := 64.
Definition default_kvp_path : PathBuf := as_bytes "baston-kvp.json".
Definition default_kvp_flush_interval_secs : Z := 30.
Definition default_http_request_timeout_secs : Z := 30.
Definition default_http_concurrency : Z := 32.
Definition default_http_response_max_bytes : Z := 5 * 1024 * 1024.
Definition default_http_handler_timeout_secs : Z := 15.
Definition default_http_request_max_bytes : Z := 1024 * 1024.
Definition default : ResourcesConfig := {|
  path := default_resources_path; file_download_timeout_secs := default_file_download_timeout_secs;
  file_download_chunk_bytes := default_file_download_chunk_bytes;
  file_download_concurrency := default_file_download_concurrency; kvp_path := default_kvp_path;
  kvp_flush_interval_secs := default_kvp_flush_interval_secs;
  http_request_timeout_secs := default_http_request_timeout_secs; http_concurrency := default_http_concurrency;
  http_response_max_bytes := default_http_response_max_bytes;
  http_handler_timeout_secs := default_http_handler_timeout_secs; http_request_max_bytes := default_http_request_max_bytes |}.

Definition validate (c : ResourcesConfig) : Checked unit :=
  refuse_if (file_download_timeout_secs c =? 0)
    (invalid "resources" "file_download_timeout_secs must be greater than zero") ≫= fun _ =>
  refuse_if (negb ((4 * 1024 <=? file_download_chunk_bytes c) && (file_download_chunk_bytes c <=? 4 * 1024 * 1024)))
    (invalid "resources" "file_download_chunk_bytes must be between 4096 and 4194304 bytes") ≫= fun _ =>
  refuse_if (file_download_concurrency c =? 0)
    (invalid "resources" "file_download_concurrency must be greater than zero") ≫= fun _ =>
  refuse_if ((http_request_timeout_secs c =? 0) || (http_handler_timeout_secs c =? 0))
    (invalid "resources" "http_request_timeout_secs and http_handler_timeout_secs must be greater than zero") ≫= fun _ =>
  refuse_if (http_concurrency c =? 0)
    (invalid "resources" "http_concurrency must be greater than zero") ≫= fun _ =>
  refuse_if ((http_response_max_bytes c =? 0) || (http_request_max_bytes c =? 0))
    (invalid "resources" "http_response_max_bytes and http_request_max_bytes must be greater than zero").
End Resources.

(** ** [debug], whose record is DebugFeed's *)
Module Debug.
Definition default_display_info_hz : Z := 5.
Definition default : DebugConfig := {| display_info := Off; allow := []; refresh_hz := default_display_info_hz |}.

Definition validate (c : DebugConfig) : Checked unit :=
  refuse_if (negb ((1 <=? refresh_hz c) && (refresh_hz c <=? 30)))
    (Invalid (as_bytes "debug") (as_bytes "refresh_hz must be between 1 and 30, got " ++ decimal (refresh_hz c))) ≫= fun _ =>
  refuse_if (bool_decide (display_info c = Allowlist) && bool_decide (allow c = []))
    (Invalid (as_bytes "debug") (as_bytes "display_info = " ++ quoted "allowlist" ++ as_bytes " but allow is empty — list the identifiers cleared for the overlay, or use " ++ quoted "off")).
End Debug.

(** ** The whole *)

Record BastonConfig := {
  server : Server.ServerConfig; auth : AuthSection.AuthConfig; resources : Resources.ResourcesConfig;
  connection : ConnectionSection.ConnectionConfig; udp : UdpSection.UdpConfig; nats : Nats.NatsConfig;
  state_sync : StateSync.StateSyncConfig; metrics : Metrics.MetricsConfig; dev : Dev.DevConfig; debug : DebugConfig;
  meshing : Meshing.MeshingConfig; escrow : Escrow.EscrowConfig; license : License.LicenseConfig;
  api : Api.ApiConfig; voice : Voice.VoiceConfig; tls : option TlsConfig
}.
#[global] Instance BastonConfig_rebuild : Rebuild BastonConfig := fun c =>
  Build_BastonConfig (server c) (auth c) (resources c) (connection c) (udp c) (nats c) (state_sync c) (metrics c) (dev c)
    (debug c) (meshing c) (escrow c) (license c) (api c) (voice c) (tls c).
#[global] Instance VoiceConfig_rebuild : Rebuild Voice.VoiceConfig := fun c =>
  Voice.Build_VoiceConfig (Voice.enabled c) (Voice.port c) (Voice.external_address c).
#[global] Instance NatsConfig_rebuild : Rebuild Nats.NatsConfig := fun c => Nats.Build_NatsConfig (Nats.url c) (Nats.zone_id c).

Definition unicast (a : IpAddr) : bool := negb (is_unspecified a || is_loopback a || is_multicast a).

Definition validate_listing (c : BastonConfig) : Checked unit :=
  if License.public_listing (license c) then
    refuse_if (negb (bool_decide (License.mode (license c) = License.Verified)))
      (Invalid (as_bytes "license") (as_bytes "public_listing requires mode = " ++ quoted "verified")) ≫= fun _ =>
    ok_or (License.listing_ip_override (license c)) (invalid "license" "public_listing requires listing_ip_override") ≫= fun listing_ip =>
    refuse_if (negb (unicast listing_ip)) (invalid "license" "listing_ip_override must be a concrete unicast address") ≫= fun _ =>
    refuse_if (negb (unicast (Server.bind_address (server c))))
      (invalid "server" "public listing requires bind_address to select a concrete non-loopback interface") ≫= fun _ =>
    refuse_if (negb (default (Server.port (server c)) (UdpSection.port (udp c)) =? Server.port (server c)))
      (invalid "udp" "public listing requires udp.port to equal server.port")
  else inr tt.

Definition validate_voice (c : BastonConfig) : Checked unit :=
  refuse_if (Voice.enabled (voice c) && (Voice.port (voice c) =? Server.port (server c)))
    (Invalid (as_bytes "voice") (as_bytes "voice.port (" ++ decimal (Voice.port (voice c))
      ++ as_bytes ") must differ from server.port (the game transport owns it)")).

Definition validate (path_exists : PathBuf -> bool) (c : BastonConfig) : Checked unit :=
  License.validate path_exists (license c) ≫= fun _ =>
  Escrow.validate path_exists (escrow c) ≫= fun _ =>
  Api.validate (api c) ≫= fun _ =>
  StateSync.validate (state_sync c) ≫= fun _ =>
  Resources.validate (resources c) ≫= fun _ =>
  Debug.validate (debug c) ≫= fun _ =>
  validate_listing c ≫= fun _ =>
  validate_voice c.

(** ** Overrides by the environment *)

(** [str::parse::<u16>] with the reason of a failure. *)
Fixpoint parse_u16_digits (acc : Z) (bs : Text) : Text + Z :=
  match bs with
  | [] => inr acc
  | b :: rest =>
      if (48 <=? b) && (b <=? 57) then
        let acc := acc * 10 + (b - 48) in
        if acc <? 2 ^ 16 then parse_u16_digits acc rest else inl (as_bytes "number too large to fit in target type")
      else inl (as_bytes "invalid digit found in string")
  end.
Definition parse_u16 (bs : Text) : Text + Z :=
  match bs with
  | [] => inl (as_bytes "cannot parse integer from empty string")
  | 43 :: [] => inl (as_bytes "invalid digit found in string")
  | 43 :: rest => parse_u16_digits 0 rest
  | _ => parse_u16_digits 0 bs
  end.

Definition is_truthy (value : Text) : bool :=
  bool_decide (value ∈ [as_bytes "true"; as_bytes "1"; as_bytes "yes"]).

Section env.
Variable env_var : Text -> option Text.

(** [if let Ok(value) = std::env::var(name) { .. }]. *)
Definition override (name : string) (set : Text -> BastonConfig -> BastonConfig) (c : BastonConfig) : BastonConfig :=
  match env_var (as_bytes name) with Some value => set value c | None => c end.

Definition override_port (name : string) (set : Z -> BastonConfig -> BastonConfig) (c : BastonConfig) : Checked BastonConfig :=
  match env_var (as_bytes name) with
  | Some value =>
      match parse_u16 value with
      | inr port => inr (set port c)
      | inl why => inl (EnvOverride (as_bytes name) value why)
      end
  | None => inr c
  end.

Definition apply_env_overrides (c : BastonConfig) : Checked BastonConfig :=
  override_port "BASTON_PORT" (fun p c => c <| server := (server c) <| Server.port := p |> |>) c ≫= fun c =>
  let c := override "BASTON_RESOURCES_PATH" (fun v c => c <| resources := (resources c) <| Resources.path := v |> |>) c in
  let c := override "ZONE_ID" (fun v c => c <| nats := (nats c) <| Nats.zone_id := v |> |>) c in
  let c := override "ZONE_BOUNDS" (fun v c => c <| meshing := (meshing c) <| Meshing.zone_bounds := Some v |> |>) c in
  let c := override "GATEWAY_GRPC" (fun v c => c <| meshing := (meshing c) <| Meshing.gateway_grpc := v |> |>) c in
  let c := override "NATS_URL" (fun v c => c <| nats := (nats c) <| Nats.url := v |> |>) c in
  let c := override "BASTON_GRPC_ADDR" (fun v c => c <| meshing := (meshing c) <| Meshing.gateway_grpc_addr := v |> |>) c in
  let c := override "ZONE_GRPC_ADDR" (fun v c => c <| meshing := (meshing c) <| Meshing.zone_grpc_addr := v |> |>) c in
  let c := override "ZONE_PUBLIC_GRPC_ADDR" (fun v c => c <| meshing := (meshing c) <| Meshing.zone_public_grpc_addr := Some v |> |>) c in
  let c := override "BASTON_ADMIN_TOKEN" (fun v c => c <| meshing := (meshing c) <| Meshing.admin_token := v |> |>) c in
  let c := override "BASTON_MESHING_ENABLED" (fun v c => c <| meshing := (meshing c) <| Meshing.enabled := is_truthy v |> |>) c in
  let c := override "BASTON_VOICE_ENABLED" (fun v c => c <| voice := (voice c) <| Voice.enabled := is_truthy v |> |>) c in
  override_port "BASTON_VOICE_PORT" (fun p c => c <| voice := (voice c) <| Voice.port := p |> |>) c ≫= fun c =>
  override_port "BASTON_METRICS_PORT" (fun p c => c <| metrics := (metrics c) <| Metrics.port := p |> |>) c.

(** The zone service's address as the gateway is told it. *)
Definition zone_public_grpc_addr (c : BastonConfig) : Text :=
  match Meshing.zone_public_grpc_addr (meshing c) with
  | Some addr => addr
  | None =>
      let port := after_last 58 (Meshing.zone_grpc_addr (meshing c)) in
      if is_some (env_var (as_bytes "ZONE_ID")) then Nats.zone_id (nats c) ++ [58] ++ port
      else as_bytes "127.0.0.1:" ++ port
  end.
End env.

Definition load `{ConfigIo BastonConfig} (path : PathBuf) : Checked BastonConfig :=
  match read_to_string path with
  | inl why => inl (Read path why)
  | inr raw =>
      match toml_from_str raw with
      | inl why => inl (Parse path why)
      | inr config =>
          apply_env_overrides env_var config ≫= fun config =>
          validate path_exists config ≫= fun _ => inr config
      end
  end.

(** A file that holds an empty [server] section. *)
Definition minimal : BastonConfig := {|
  server := {| Server.name := Server.default_server_name; Server.port := Server.default_port;
    Server.bind_address := Server.default_bind_address; Server.max_players := Server.default_max_players;
    Server.enforce_game_build := Server.default_enforce_game_build |};
  auth := AuthSection.default; resources := Resources.default; connection := ConnectionSection.default;
  udp := UdpSection.default; nats := Nats.default; state_sync := StateSync.default; metrics := Metrics.default;
  dev := Dev.default; debug := Debug.default; meshing := Meshing.default; escrow := Escrow.default;
  license := License.default; api := Api.default; voice := Voice.default; tls := None |}.

Example minimal_valid : validate (fun _ => false) minimal = inr tt.
Proof. vm_compute. reflexivity. Qed.

(** ** What validation accepts *)

Lemma refuse_if_ok {A} bad e (k : unit -> Checked A) a :
  (refuse_if bad e ≫= k) = inr a <-> bad = false /\ k tt = inr a.
Proof. unfold refuse_if. destruct bad; cbn; naive_solver. Qed.

Lemma refuse_if_last bad e : refuse_if bad e = inr tt <-> bad = false.
Proof. unfold refuse_if. destruct bad; naive_solver. Qed.

Lemma ok_or_ok {A B} (o : option A) e (k : A -> Checked B) b :
  (ok_or o e ≫= k) = inr b <-> exists a, o = Some a /\ k a = inr b.
Proof. unfold ok_or. destruct o; cbn; naive_solver. Qed.

Lemma checked_bind_ok {A B} (r : Checked A) (k : A -> Checked B) b : (r ≫= k) = inr b <-> exists a, r = inr a /\ k a = inr b.
Proof. destruct r; cbn; naive_solver. Qed.

Lemma checked_seq_ok {B} (r : Checked unit) (k : unit -> Checked B) b : (r ≫= k) = inr b <-> r = inr tt /\ k tt = inr b.
Proof. rewrite checked_bind_ok. split; [intros ([] & ?); done|intros; by exists tt]. Qed.

Record key_ok (k : Api.ApiKey) : Prop := {
  key_named : trim (Api.name k) <> [];
  key_long : (32 <= length (trim (Api.token k)))%nat;
  key_compact : any_whitespace (trim (Api.token k)) = false;
  key_real : is_placeholder (trim (Api.token k)) = false;
  key_grants : Api.permissions k <> []
}.

(** Every key well formed, no name and no token twice. *)
Definition api_ok (c : Api.ApiConfig) : Prop :=
  Forall key_ok (Api.keys c) /\ NoDup (Api.name <$> Api.keys c) /\ NoDup ((fun k => trim (Api.token k)) <$> Api.keys c).

Lemma weak_token_false t : Api.weak_token t = false <->
  (32 <= length t)%nat /\ any_whitespace t = false /\ is_placeholder t = false.
Proof. unfold Api.weak_token. rewrite !orb_false_iff, Nat.ltb_ge. tauto. Qed.

Lemma validate_keys_ok keys : forall names tokens, Api.validate_keys names tokens keys = inr tt <->
  Forall key_ok keys /\ NoDup (Api.name <$> keys) /\ NoDup ((fun k => trim (Api.token k)) <$> keys) /\
  Forall (fun k => (Api.name k ∉ names) /\ (trim (Api.token k) ∉ tokens)) keys.
Proof.
  induction keys as [|k keys IH]; intros names tokens; cbn [Api.validate_keys].
  { split; [intros _|done]. cbn. repeat split; constructor. }
  rewrite !refuse_if_ok, !bool_decide_eq_false, weak_token_false, IH.
  rewrite !fmap_cons, !NoDup_cons, !Forall_cons, !Forall_forall, !list_elem_of_fmap. split.
  - intros (Hn & Hnn & (Hl & Hw & Hp) & Ht & Hg & Hk & Hdn & Hdt & Hf). split_and!; try done.
    + intros (k' & E & Hin). apply (proj1 (Hf k' Hin)). rewrite <- E. by left.
    + intros (k' & E & Hin). apply (proj2 (Hf k' Hin)). cbn in E. rewrite <- E. by left.
    + intros k' Hin. destruct (Hf k' Hin) as [H1 H2]. split; [intros H; apply H1|intros H; apply H2]; by right.
  - intros (([] & Hk) & (Hin & Hdn) & (Hit & Hdt) & (Hn & Ht) & Hf). split_and!; try done.
    intros k' Hin'. specialize (Hf k' Hin'). rewrite !elem_of_cons. split; intros [E|E]; try tauto.
    + apply Hin. by exists k'.
    + apply Hit. by exists k'.
Qed.

Lemma api_validate_ok c : Api.validate c = inr tt <-> api_ok c.
Proof.
  unfold Api.validate, api_ok. rewrite validate_keys_ok. split; [tauto|]. intros H. split_and!; try tauto.
  apply Forall_true. intros k. split; apply not_elem_of_nil.
Qed.

Definition license_key_ok (c : License.LicenseConfig) : Prop :=
  (20 <= length (trim (License.sv_license_key c)))%nat /\ any_whitespace (trim (License.sv_license_key c)) = false /\
  is_placeholder (trim (License.sv_license_key c)) = false.

Definition license_ok (path_exists : PathBuf -> bool) (c : License.LicenseConfig) : Prop :=
  (License.mode c <> License.Off -> license_key_ok c) /\
  (License.mode c = License.Verified -> exists p, License.fxserver_path c = Some p /\ path_exists p = true).

Lemma validate_key_ok mode c : License.validate_key mode c = inr tt <-> license_key_ok c.
Proof.
  unfold License.validate_key, license_key_ok. rewrite refuse_if_ok, refuse_if_last, bool_decide_eq_false, negb_false_iff.
  unfold License.is_well_formed_key. cbv zeta. set (k := trim _). rewrite !andb_true_iff, !negb_true_iff, bool_decide_eq_false, Nat.leb_le.
  split; [tauto|]. intros (? & ? & ?). split; [|split_and!; try done]; intros E; rewrite E in *; cbn in *; lia.
Qed.

Lemma license_validate_ok path_exists c : License.validate path_exists c = inr tt <-> license_ok path_exists c.
Proof.
  unfold License.validate, license_ok. destruct (License.mode c).
  - split; [|done]. intros _. split; [done|discriminate].
  - rewrite validate_key_ok. split; [|intros [H _]; by apply H]. intros. split; [done|discriminate].
  - rewrite checked_seq_ok, validate_key_ok, ok_or_ok. setoid_rewrite refuse_if_last. setoid_rewrite negb_false_iff.
    split; [intros [? ?]; by split|]. intros [H1 H2]. split; [by apply H1|by apply H2].
Qed.

Definition escrow_ok (path_exists : PathBuf -> bool) (c : Escrow.EscrowConfig) : Prop :=
  Escrow.enabled c = true -> Escrow.server_license c <> [] /\
    exists p, match Escrow.backend c with Escrow.Sidecar => Escrow.fxserver_path c | Escrow.Direct => Escrow.dll_path c end = Some p /\
      path_exists p = true.

Lemma escrow_validate_ok path_exists c : Escrow.validate path_exists c = inr tt <-> escrow_ok path_exists c.
Proof.
  unfold Escrow.validate, escrow_ok. destruct (Escrow.enabled c); cbn [negb]; [|naive_solver].
  rewrite refuse_if_ok, bool_decide_eq_false.
  destruct (Escrow.backend c); rewrite ok_or_ok; setoid_rewrite refuse_if_last; setoid_rewrite negb_false_iff; naive_solver.
Qed.

Section state_sync_checks.
Import StateSync.

Record state_sync_ok (c : StateSyncConfig) : Prop := {
  rates_ok : tick_min_hz c <> 0 /\ tick_min_hz c <= tick_default_hz c <= tick_max_hz c /\ tick_max_hz c <= 120;
  thresholds_ok : f32_le f32_zero (tick_low_utilization c) = true /\
    f32_lt (tick_low_utilization c) (tick_high_utilization c) = true /\ f32_le (tick_high_utilization c) f32_one = true;
  backoff_ok : f32_le f32_zero (tick_overload_backoff c) = true /\ f32_lt (tick_overload_backoff c) f32_one = true;
  sizes_ok : tick_recovery_window c <> 0 /\ interest_budget_bytes c <> 0 /\ interest_remove_budget_bytes c <> 0;
  area_ok : is_finite (aoi_radius c) = true /\ f32_lt f32_zero (aoi_radius c) = true;
  finite_ok : Forall (fun x => is_finite x = true /\ f32_le f32_zero x = true)
    [interest_hysteresis_m c; interest_distance_weight c; interest_closing_weight c; interest_staleness_weight c]
}.

Lemma le_false_lt a b : is_nan a = false -> is_nan b = false -> f32_le a b = false <-> f32_lt b a = true.
Proof.
  intros Ha Hb. unfold f32_le, f32_lt, SFleb, SFltb. rewrite (SFcompare_antisym a b), num_cmp_rank by done.
  by destruct (lex_compare _ _).
Qed.

Lemma lt_false_le a b : is_nan a = false -> is_nan b = false -> f32_lt a b = false <-> f32_le b a = true.
Proof.
  intros Ha Hb. unfold f32_le, f32_lt, SFleb, SFltb. rewrite (SFcompare_antisym a b), num_cmp_rank by done.
  by destruct (lex_compare _ _).
Qed.

Lemma finite_num a : is_finite a = true -> is_nan a = false.
Proof. by destruct a. Qed.

Lemma bad_weight_false x : bad_weight x = false <-> is_finite x = true /\ f32_le f32_zero x = true.
Proof.
  unfold bad_weight. rewrite orb_false_iff, negb_false_iff. split; intros [Hf Hx]; (split; [done|]).
  - apply lt_false_le in Hx; [done|by apply finite_num|done].
  - apply lt_false_le; [by apply finite_num|done|done].
Qed.

Lemma thresholds_false low high :
  negb (in_unit_open low) || negb (in_unit_closed high) || f32_ge low high = false <->
  f32_le f32_zero low = true /\ f32_lt low high = true /\ f32_le high f32_one = true.
Proof.
  unfold in_unit_open, in_unit_closed. rewrite !orb_false_iff, !negb_false_iff, !andb_true_iff. split.
  - intros [[[H1 H2] [H3 H4]] H5]. split; [done|]. split; [|done].
    apply (le_false_lt high low) in H5; [done| |].
    + by apply f32_le_num in H3 as (_ & ? & _).
    + by apply f32_le_num in H1 as (_ & ? & _).
  - intros (H1 & H2 & H3). pose proof (f32_lt_num _ _ H2) as (Hl & Hh & _). split; [split; split; try done|].
    + by apply (f32_lt_le_trans _ high).
    + apply (f32_le_trans _ low); [done|]. apply lt_false_le; [done..|by apply f32_lt_asym].
    + by apply le_false_lt.
Qed.

Lemma bad_rates_false c : bad_rates c = false <->
  tick_min_hz c <> 0 /\ tick_min_hz c <= tick_default_hz c <= tick_max_hz c /\ tick_max_hz c <= 120.
Proof. unfold bad_rates. rewrite !orb_false_iff, Z.eqb_neq, !Z.ltb_ge. lia. Qed.

Lemma state_sync_validate_ok c : StateSync.validate c = inr tt <-> state_sync_ok c.
Proof.
  unfold StateSync.validate. rewrite !refuse_if_ok. cbn [validate_weights]. rewrite !refuse_if_ok.
  rewrite bad_rates_false, thresholds_false, !bad_weight_false, !orb_false_iff, !Z.eqb_neq, !negb_false_iff.
  unfold in_unit_open. rewrite andb_true_iff. split.
  - intros (H1 & H2 & H3 & ((((((H4 & H5) & H6) & H7) & H8) & H9) & H10) & H11 & H12 & H13 & _).
    pose proof (proj2 (bad_weight_false (interest_hysteresis_m c))) as Hh. split; try done.
    + split; [done|]. by apply le_false_lt; [apply finite_num| |].
    + repeat constructor; try tauto. apply lt_false_le; [by apply finite_num|done|done].
  - intros [H1 H2 H3 H4 [H5 H6] H7]. rewrite !Forall_cons in H7. destruct H7 as ([H7 H7'] & H8 & H9 & H10 & _).
    split_and!; try tauto.
    + by apply le_false_lt; [apply finite_num| |].
    + by apply lt_false_le; [apply finite_num| |].
Qed.
End state_sync_checks.

Definition resources_ok (c : Resources.ResourcesConfig) : Prop :=
  Resources.file_download_timeout_secs c <> 0 /\ 4096 <= Resources.file_download_chunk_bytes c <= 4194304 /\
  Resources.file_download_concurrency c <> 0 /\ Resources.http_request_timeout_secs c <> 0 /\
  Resources.http_handler_timeout_secs c <> 0 /\ Resources.http_concurrency c <> 0 /\
  Resources.http_response_max_bytes c <> 0 /\ Resources.http_request_max_bytes c <> 0.

Lemma resources_validate_ok c : Resources.validate c = inr tt <-> resources_ok c.
Proof.
  unfold Resources.validate, resources_ok. rewrite !refuse_if_ok, refuse_if_last, negb_false_iff, !orb_false_iff, andb_true_iff,
    !Z.eqb_neq, !Z.leb_le. change (4 * 1024) with 4096. change (4096 * 1024) with 4194304. tauto.
Qed.

Definition debug_ok (c : DebugConfig) : Prop :=
  1 <= refresh_hz c <= 30 /\ (display_info c = Allowlist -> allow c <> []).

Lemma debug_validate_ok c : Debug.validate c = inr tt <-> debug_ok c.
Proof.
  unfold Debug.validate, debug_ok. rewrite refuse_if_ok, refuse_if_last, negb_false_iff, andb_true_iff, !Z.leb_le, andb_false_iff,
    !bool_decide_eq_false. destruct (decide (display_info c = Allowlist)); tauto.
Qed.

(** A public listing needs the official sidecar, real addresses and one port. *)
Definition listing_ok (c : BastonConfig) : Prop :=
  License.public_listing (license c) = true ->
    License.mode (license c) = License.Verified /\
    (exists a, License.listing_ip_override (license c) = Some a /\ unicast a = true) /\
    unicast (Server.bind_address (server c)) = true /\
    forall p, UdpSection.port (udp c) = Some p -> p = Server.port (server c).

Lemma listing_validate_ok c : validate_listing c = inr tt <-> listing_ok c.
Proof.
  unfold validate_listing, listing_ok. destruct (License.public_listing (license c)); [|naive_solver].
  rewrite refuse_if_ok, negb_false_iff, bool_decide_eq_true, ok_or_ok. setoid_rewrite refuse_if_ok. setoid_rewrite refuse_if_ok.
  setoid_rewrite refuse_if_last. setoid_rewrite negb_false_iff. setoid_rewrite Z.eqb_eq.
  destruct (UdpSection.port (udp c)); cbn [default]; naive_solver.
Qed.

Definition voice_ok (c : BastonConfig) : Prop :=
  Voice.enabled (voice c) = true -> Voice.port (voice c) <> Server.port (server c).

Lemma voice_validate_ok c : validate_voice c = inr tt <-> voice_ok c.
Proof.
  unfold validate_voice, voice_ok. rewrite refuse_if_last, andb_false_iff, Z.eqb_neq. destruct (Voice.enabled (voice c)); naive_solver.
Qed.

(** Every section as the checks of the code want it. *)
Record config_ok (path_exists : PathBuf -> bool) (c : BastonConfig) : Prop := {
  ok_license : license_ok path_exists (license c); ok_escrow : escrow_ok path_exists (escrow c);
  ok_api : api_ok (api c); ok_state_sync : state_sync_ok (state_sync c); ok_resources : resources_ok (resources c);
  ok_debug : debug_ok (debug c); ok_listing : listing_ok c; ok_voice : voice_ok c
}.

(** The checks accept exactly these configurations. *)
Lemma config_validate_exact path_exists c : validate path_exists c = inr tt <-> config_ok path_exists c.
Proof.
  unfold validate. rewrite !checked_seq_ok, license_validate_ok, escrow_validate_ok, api_validate_ok, state_sync_validate_ok,
    resources_validate_ok, debug_validate_ok, listing_validate_ok, voice_validate_ok.
  split; [intros (? & ? & ? & ? & ? & ? & ? & ?); by split|intros []; by split_and!].
Qed.

(** What the documentation of the fields and the messages ask for on top: a
    back-off above zero, public addresses that are unicast, and a voice port
    that is not the one of the game transport. *)
Definition BROADCAST : IpAddr := V4 (2 ^ 32 - 1).
Definition game_port (c : BastonConfig) : Z := default (Server.port (server c)) (UdpSection.port (udp c)).

Record documented (c : BastonConfig) : Prop := {
  doc_backoff : f32_lt f32_zero (StateSync.tick_overload_backoff (state_sync c)) = true;
  doc_listing : License.public_listing (license c) = true ->
    License.listing_ip_override (license c) <> Some BROADCAST /\ Server.bind_address (server c) <> BROADCAST;
  doc_voice : Voice.enabled (voice c) = true -> Voice.port (voice c) <> game_port c
}.

(** What the checks let through all the same. *)
Inductive gap (c : BastonConfig) : Prop :=
| ZeroBackoff : f32_le (StateSync.tick_overload_backoff (state_sync c)) f32_zero = true -> gap c
| BroadcastListed : License.public_listing (license c) = true ->
    License.listing_ip_override (license c) = Some BROADCAST \/ Server.bind_address (server c) = BROADCAST -> gap c
| VoiceOnGamePort p : Voice.enabled (voice c) = true -> UdpSection.port (udp c) = Some p -> p = Voice.port (voice c) ->
    p <> Server.port (server c) -> gap c.

Lemma documented_or_gap path_exists c : config_ok path_exists c -> documented c \/ gap c.
Proof.
  intros Hok. pose proof (backoff_ok _ (ok_state_sync _ _ Hok)) as [Hb _].
  destruct (f32_lt f32_zero (StateSync.tick_overload_backoff (state_sync c))) eqn:Hz.
  2: { right. apply ZeroBackoff. by apply lt_false_le in Hz; [|done|apply f32_le_num in Hb as (_ & ? & _)]. }
  destruct (decide (License.public_listing (license c) = true /\
    (License.listing_ip_override (license c) = Some BROADCAST \/ Server.bind_address (server c) = BROADCAST))) as [[Hp Hl]|Hl].
  { right. by apply BroadcastListed. }
  destruct (decide (Voice.enabled (voice c) = true /\ Voice.port (voice c) = game_port c)) as [[Hv Hg]|Hv].
  - right. unfold game_port in Hg. destruct (UdpSection.port (udp c)) as [p|] eqn:Hu; cbn in Hg.
    + apply (VoiceOnGamePort c p); [done..|]. rewrite <- Hg. by apply (ok_voice _ _ Hok).
    + by destruct (ok_voice _ _ Hok Hv).
  - left. split; [done| |]; tauto.
Qed.

(** ** What a loaded configuration guarantees *)

Section load.
Context `{ConfigIo BastonConfig}.


Lemma load_validates path c : load path = inr c -> config_ok path_exists c.
Proof.
  unfold load. destruct (read_to_string path) as [|raw]; [done|]. destruct (toml_from_str raw) as [|c0]; [done|].
  intros (c1 & _ & H1)%checked_bind_ok. apply checked_seq_ok in H1 as [H1 [= <-]]. by apply config_validate_exact.
Qed.

(** a configuration that was loaded drives the tick-rate controller safely:
    the controller is built (the panic of an empty range is out of reach) and
    whatever it observes, it runs at 1 to 120 ticks a second. *)
Theorem loaded_rates path c : load path = inr c -> is_u 16 (StateSync.tick_min_hz (state_sync c)) ->
  exists ctl, AdaptiveTick.controller_new (StateSync.tick_config (state_sync c)) = Some ctl /\
    forall os, 1 <= AdaptiveTick.current_hz (AdaptiveTick.run os ctl) <= 120.
Proof.
  intros Hl Hu. apply load_validates, ok_state_sync, rates_ok in Hl as (Hne & Hr & Hmax). unfold is_u in Hu.
  assert (Hrange := AdaptiveTick.rate_stays_in_range (StateSync.tick_config (state_sync c))).
  destruct (AdaptiveTick.controller_new _) as [ctl|]; cbn in Hrange.
  - exists ctl. split; [done|]. intros os. specialize (Hrange os). lia.
  - specialize (Hrange []). lia.
Qed.
End load.

#[local] Instance sample_io : ConfigIo BastonConfig := {|
  path_exists := fun _ => true; read_to_string := inr; toml_from_str := fun _ => inr minimal; env_var := fun _ => None |}.

Lemma loaded_rates_witness : exists c ctl, load [] = inr c /\
  AdaptiveTick.controller_new (StateSync.tick_config (state_sync c)) = Some ctl /\ 1 <= AdaptiveTick.current_hz ctl <= 120.
Proof.
  assert (Hl : load [] = inr minimal) by (vm_compute; reflexivity).
  destruct (loaded_rates [] minimal Hl ltac:(vm_compute; done)) as (ctl & Hc & Hr).
  exists minimal, ctl. split; [exact Hl|]. split; [exact Hc|exact (Hr [])].
Defined.

(** What the messages say and the checks do not: a back-off of zero, a
    broadcast address, a voice port on the game's UDP port. *)
Definition zeroed : BastonConfig := minimal <| state_sync := StateSync.default <| StateSync.tick_overload_backoff := f32_zero |> |>.
Example zero_backoff : validate path_exists zeroed = inr tt /\ gap zeroed.
Proof. split; [vm_compute; reflexivity|]. apply ZeroBackoff. vm_compute. reflexivity. Qed.

Definition listed : BastonConfig :=
  (minimal <| license := {| License.mode := License.Verified; License.sv_license_key := as_bytes "cfxk_0123456789abcdefghij_012345";
      License.fxserver_path := Some (as_bytes "fxserver"); License.sidecar_port := 0; License.public_listing := true;
      License.listing_ip_override := Some BROADCAST |} |>)
    <| server := {| Server.name := []; Server.port := Server.default_port; Server.bind_address := V4 16909060;
      Server.max_players := 32; Server.enforce_game_build := [] |} |>.
Example broadcast_listed : validate path_exists listed = inr tt /\ gap listed.
Proof. split; [vm_compute; reflexivity|]. apply BroadcastListed; [done|by left]. Qed.

Definition lax : BastonConfig :=
  (minimal <| voice := {| Voice.enabled := true; Voice.port := 30500; Voice.external_address := [] |} |>)
    <| udp := {| UdpSection.port := Some 30500; UdpSection.poll_interval_ms := 5 |} |>.
Example voice_on_game_port : validate path_exists lax = inr tt /\ gap lax.
Proof. split; [vm_compute; reflexivity|]. by apply (VoiceOnGamePort lax 30500). Qed.
