(* ===== verification/ControlApi.v ===== *)
(** * The administration API
      (src/crates/baston-gateway/src/api/{mod,auth,audit}.rs and admin.rs)

    Who a bearer token stands for, the routes that control the server, and the
    audit log they write. A handler is given the request and what the rest of
    the server answers, and returns its response, what it asks for in order
    ([Act]) and the records it appends. The rendering of responses as JSON, the
    monitoring of scripts and the HTTP server are left out. *)

From S2P Require Import Prelude Decimal Utf8 Udp.
From S2P Require Players Config.
Import Config.Api(ApiPermission(..), ApiKey(..), name, token, permissions, ApiConfig(..), keys).
#[local] Existing Instance Config.Api.ApiPermission_eq_dec.
#[local] Open Scope Z_scope.

Abbreviation Name := (list Z).

(** The headers the handlers read, those whose text is visible ASCII. *)
Record HeaderMap := { authorization : option Name; x_real_ip : option Name }.

Definition BEARER : Name := as_bytes "Bearer ".
Definition bearer (headers : HeaderMap) : option Name :=
  match authorization headers with Some value => Decimal.strip_prefix BEARER value | None => None end.

(** ** admin.rs *)

Definition bearer_matches (token : Name) (headers : HeaderMap) : bool :=
  if bool_decide (token = []) then false
  else match bearer headers with Some p => bool_decide (p = token) | None => false end.

(** ** api/auth.rs *)

Inductive AuthError := Unknown | Forbidden (key_name : Name).

Definition ALL_PERMISSIONS : list ApiPermission :=
  [MonitorRead; ResourceControl; PlayerKick; ZoneDrain; ProfilerControl; ProfilerRead; ConsoleExecute].

Record KeyEntry := { key_name : Name; key_token : Name; key_permissions : list ApiPermission }.
Abbreviation KeyRing := (list KeyEntry).

Definition ADMIN : Name := as_bytes "admin".

Definition key_entry (k : ApiKey) : KeyEntry :=
  {| key_name := name k; key_token := trim (token k); key_permissions := permissions k |}.

Definition from_config (api : ApiConfig) (admin_token : Name) : KeyRing :=
  (key_entry <$> keys api) ++
  (if bool_decide (admin_token = []) then []
   else [{| key_name := ADMIN; key_token := admin_token; key_permissions := ALL_PERMISSIONS |}]).

(** The first key with the token. *)
Definition authorize (ring : KeyRing) (headers : HeaderMap) (permission : ApiPermission) : AuthError + Name :=
  let provided := default [] (bearer headers) in
  if bool_decide (provided = []) then inl Unknown
  else
    match List.find (fun k => bool_decide (key_token k = provided)) ring with
    | None => inl Unknown
    | Some k => if bool_decide (permission ∈ key_permissions k) then inr (key_name k) else inl (Forbidden (key_name k))
    end.

(** ** api/audit.rs *)

(** The clock reading of a record is left out. *)
Record AuditRecord := { by_key : Name; action : Name; target : Name; outcome : Name }.

(** ** api/mod.rs *)

Inductive Response :=
| Unauthorized
| MissingPermission
| NotFound (why : string)
| BadRequest (why : string)
| NoTransport
| Kicked (source : Z)
| Controlled (zones : list (Name * option Name))
| ControlFailed (why : Name) (zones : list (Name * option Name))
| Drained (zone : Name) (players : nat)
| ProfilerStatus
| ResmonListing
| CommandAccepted (command : Name) (source : Z)
| CommandFailed (command why : Name).

(** What a request asks of the rest of the server, in order. *)
Inductive Act :=
| DropSource (source : Z)
| StartResource (name : Name)
| StopResource (name : Name)
| RestartResource (name : Name)
| RelayControl (zone name action : Name)
| DrainZone (zone : Name)
| StartProfiler (frames seconds : option Z) (scope : Name) (include_native_calls : bool)
| StopProfiler
| SetResmon (on : bool)
| RunCommand (command : Name) (source : Z) (args : list Name) (raw : Name).

(** A zone as the relay sees it: its id and, with a client, its answer: a
    transport error, or whether it did it and what it said. *)
Abbreviation ZoneAnswer := (Name * option (Name + bool * Name))%type.

(** What the API works on, and what the server would answer this request. *)
Record ApiState := {
  keyring : KeyRing;
  players : Players.PlayerDirectory;
  mesh : option (list ZoneAnswer);
  udp : bool;
  resource_answer : option Name;
  command_answer : option Name;
  drained : nat
}.

Definition Handled : Type := Response * list Act * list AuditRecord.

Definition OK : Name := as_bytes "ok".
Definition DENIED : Name := as_bytes "denied".

Definition record (key act tgt out : Name) : AuditRecord := {| by_key := key; action := act; target := tgt; outcome := out |}.

(** [guard] of a control route, and the route. *)
Definition guarded (s : ApiState) (headers : HeaderMap) (permission : ApiPermission) (act tgt : Name)
    (route : Name -> Handled) : Handled :=
  match authorize (keyring s) headers permission with
  | inr key => route key
  | inl Unknown => (Unauthorized, [], [])
  | inl (Forbidden key) => (MissingPermission, [], [record key act tgt DENIED])
  end.

Definition kick_player (s : ApiState) (headers : HeaderMap) (source : Z) (reason : option Name) : Handled :=
  let act := as_bytes "player.kick" in
  let tgt := as_bytes "source:" ++ decimal source in
  guarded s headers PlayerKick act tgt (fun key =>
    match Players.get (players s) source with
    | None => (NotFound "unknown player", [], [record key act tgt (as_bytes "not_found")])
    | Some _ =>
        if negb (udp s) then (NoTransport, [], [record key act tgt (as_bytes "no_udp")])
        else
          let reason := default (as_bytes "Kicked by admin") reason in
          (Kicked source, [DropSource source], [record key act (tgt ++ as_bytes " reason:" ++ reason) OK])
    end).

(** "ok", or the error. *)
Definition zone_outcome (a : Name + bool * Name) : option Name :=
  match a with inr (true, _) => None | inr (false, message) | inl message => Some message end.

(** The zones with a client, each asked in turn. *)
Definition relayed (s : ApiState) : list (Name * option Name) :=
  omap (fun z : ZoneAnswer => (fun a => (z.1, zone_outcome a)) <$> z.2) (default [] (mesh s)).

Definition control_resource (s : ApiState) (headers : HeaderMap) (name act_name : Name) : Handled :=
  let act := as_bytes "resource." ++ act_name in
  let tgt := as_bytes "resource:" ++ name in
  guarded s headers ResourceControl act tgt (fun key =>
    let own :=
      if bool_decide (act_name = as_bytes "start") then Some (StartResource name)
      else if bool_decide (act_name = as_bytes "stop") then Some (StopResource name)
      else if bool_decide (act_name = as_bytes "restart") then Some (RestartResource name)
      else None in
    match own with
    | None => (BadRequest "action must be start, stop or restart", [], [])
    | Some own =>
        let acts := own :: ((fun z => RelayControl z.1 name act_name) <$> relayed s) in
        match resource_answer s with
        | None => (Controlled (relayed s), acts, [record key act tgt OK])
        | Some why => (ControlFailed why (relayed s), acts, [record key act tgt why])
        end
    end).

Definition drain_zone (s : ApiState) (headers : HeaderMap) (id : Name) : Handled :=
  let act := as_bytes "zone.drain" in
  let tgt := as_bytes "zone:" ++ id in
  guarded s headers ZoneDrain act tgt (fun key =>
    match mesh s with
    | None => (NotFound "meshing disabled", [], [record key act tgt (as_bytes "meshing_disabled")])
    | Some zones =>
        if negb (bool_decide (id ∈ zones.*1)) then (NotFound "unknown zone", [], [record key act tgt (as_bytes "not_found")])
        else (Drained id (drained s), [DrainZone id], [record key act tgt OK])
    end).

(** The body of a recording request, of which every field may be missing. *)
Record ProfilerRecordRequest := {
  frames : option Z; seconds : option Z; scope : option Name; include_native_calls : option bool
}.

Definition GATEWAY_SCOPE : Name := as_bytes "scope:gateway".
Definition SERVER_SCOPE : Name := as_bytes "server".

Definition profiler_record (s : ApiState) (headers : HeaderMap) (body : option ProfilerRecordRequest) : Handled :=
  let act := as_bytes "profiler.record" in
  guarded s headers ProfilerControl act GATEWAY_SCOPE (fun key =>
    (ProfilerStatus,
     [StartProfiler (body ≫= frames) (body ≫= seconds) (default SERVER_SCOPE (body ≫= scope))
        (default true (body ≫= include_native_calls))],
     [record key act GATEWAY_SCOPE OK])).

Definition profiler_stop (s : ApiState) (headers : HeaderMap) : Handled :=
  let act := as_bytes "profiler.stop" in
  guarded s headers ProfilerControl act GATEWAY_SCOPE (fun key => (ProfilerStatus, [StopProfiler], [record key act GATEWAY_SCOPE OK])).

(** [str::split_whitespace]: the words between white space. *)
Fixpoint words_loop (n : nat) (word bs : Name) : list Name :=
  let emit rest := if bool_decide (word = []) then rest else word :: rest in
  match n, bs with
  | S n, b :: rest =>
      match white_space bs with
      | Some len => emit (words_loop n [] (drop len bs))
      | None => words_loop n (word ++ [b]) rest
      end
  | _, _ => emit []
  end.
Definition split_whitespace (bs : Name) : list Name := words_loop (length bs) [] bs.

Example words : split_whitespace (as_bytes " say  hello there ") = [as_bytes "say"; as_bytes "hello"; as_bytes "there"].
Proof. reflexivity. Qed.

Definition EXECUTE : Name := as_bytes "command.execute".
Definition INVALID : Name := as_bytes "invalid".

Definition execute_resmon_command (key tgt : Name) (args : list Name) : Handled :=
  let listed acts := (ResmonListing, acts, [record key EXECUTE tgt OK]) in
  match head args with
  | None => listed []
  | Some a =>
      if bool_decide (a ∈ as_bytes <$> ["1"; "true"; "on"; "start"]%string) then listed [SetResmon true]
      else if bool_decide (a ∈ as_bytes <$> ["0"; "false"; "off"; "stop"]%string) then listed [SetResmon false]
      else (BadRequest "usage: resmon [1|0|on|off]", [], [record key EXECUTE tgt INVALID])
  end.

Definition execute_profiler_command (key tgt : Name) (args : list Name) : Handled :=
  let usage why := (BadRequest why, [], [record key EXECUTE tgt INVALID]) in
  let ok acts := (ProfilerStatus, acts, [record key EXECUTE tgt OK]) in
  let first_is w := bool_decide (head args = Some (as_bytes w)) in
  if first_is "record" then
    match args !! 1%nat with
    | Some raw =>
        match parse_u64 raw with
        | Some frames =>
            if 0 <? frames then ok [StartProfiler (Some frames) None SERVER_SCOPE true]
            else usage "usage: profiler record [frames]"
        | None => usage "usage: profiler record [frames]"
        end
    | None => ok [StartProfiler None None SERVER_SCOPE true]
    end
  else if first_is "stop" then ok [StopProfiler]
  else if first_is "status" then ok []
  else if first_is "view" then ok []
  else usage "usage: profiler record [frames]|stop|status|view".

Definition execute_command (s : ApiState) (headers : HeaderMap) (command : Name) (source : option Z) : Handled :=
  let raw := trim command in
  let parts := split_whitespace raw in
  let command_name := default [] (head parts) in
  let tgt := if bool_decide (command_name = []) then as_bytes "command:<empty>" else as_bytes "command:" ++ command_name in
  guarded s headers ConsoleExecute EXECUTE tgt (fun key =>
    if bool_decide (command_name = []) then
      (BadRequest "command must not be empty", [], [record key EXECUTE tgt INVALID])
    else if bool_decide (command_name = as_bytes "resmon") then execute_resmon_command key tgt (tail parts)
    else if bool_decide (command_name = as_bytes "profiler") then execute_profiler_command key tgt (tail parts)
    else
      let by_ := default 0 source in
      let acts := [RunCommand command_name by_ (tail parts) raw] in
      match command_answer s with
      | None => (CommandAccepted command_name by_, acts, [record key EXECUTE tgt OK])
      | Some why => (CommandFailed command_name why, acts, [record key EXECUTE tgt why])
      end).

(** The control routes. *)
Inductive Request :=
| Kick (source : Z) (reason : option Name)
| Control (name act : Name)
| Drain (zone : Name)
| Record_ (body : option ProfilerRecordRequest)
| Stop
| Execute (command : Name) (source : option Z).

Definition handle (s : ApiState) (headers : HeaderMap) (r : Request) : Handled :=
  match r with
  | Kick source reason => kick_player s headers source reason
  | Control name act => control_resource s headers name act
  | Drain zone => drain_zone s headers zone
  | Record_ body => profiler_record s headers body
  | Stop => profiler_stop s headers
  | Execute command source => execute_command s headers command source
  end.

(** ** Who may do what *)

(** The permission a route asks for, and what its records call it. *)
Definition needs (r : Request) : ApiPermission :=
  match r with
  | Kick _ _ => PlayerKick | Control _ _ => ResourceControl | Drain _ => ZoneDrain
  | Record_ _ | Stop => ProfilerControl | Execute _ _ => ConsoleExecute
  end.
Definition called (r : Request) : Name :=
  match r with
  | Kick _ _ => as_bytes "player.kick" | Control _ act => as_bytes "resource." ++ act | Drain _ => as_bytes "zone.drain"
  | Record_ _ => as_bytes "profiler.record" | Stop => as_bytes "profiler.stop" | Execute _ _ => EXECUTE
  end.

(** The key a token stands for: the first with it. *)
Definition stands_for (ring : KeyRing) (headers : HeaderMap) (k : KeyEntry) : Prop :=
  exists t before behind, bearer headers = Some t /\ t <> [] /\ ring = before ++ k :: behind /\ key_token k = t /\
    Forall (fun k' => key_token k' <> t) before.

Lemma find_first (t : Name) ring : match List.find (fun k => bool_decide (key_token k = t)) ring with
  | Some k => exists before behind, ring = before ++ k :: behind /\ key_token k = t /\ Forall (fun k' => key_token k' <> t) before
  | None => Forall (fun k' => key_token k' <> t) ring
  end.
Proof.
  induction ring as [|k ring IH]; [constructor|]. cbn. case_bool_decide as E.
  - exists [], ring. split_and!; [done|done|constructor].
  - destruct (List.find _ ring) as [k'|]; [|by constructor].
    destruct IH as (bef & beh & -> & Hk & Hb). exists (k :: bef), beh. split_and!; [done|done|by constructor].
Qed.

Lemma stands_for_unique ring headers k k' : stands_for ring headers k -> stands_for ring headers k' -> k = k'.
Proof.
  intros (t & b1 & a1 & Et & _ & -> & Hk & Hb) (t' & b2 & a2 & Et' & _ & E & Hk' & Hb'). rewrite Et in Et'. injection Et' as <-.
  revert b2 E Hb'. induction Hb as [|x b1 Hx _ IH]; intros [|y b2] E Hb'; cbn in E; injection E as E1 E2; subst; try done.
  - by inversion Hb'.
  - apply Forall_cons in Hb' as [_ Hb']. by apply (IH b2).
Qed.

Lemma authorize_spec ring headers p :
  match authorize ring headers p with
  | inr n => exists k, stands_for ring headers k /\ p ∈ key_permissions k /\ n = key_name k
  | inl (Forbidden n) => exists k, stands_for ring headers k /\ (p ∉ key_permissions k) /\ n = key_name k
  | inl Unknown => forall k, ~ stands_for ring headers k
  end.
Proof.
  unfold authorize. destruct (bearer headers) as [t|] eqn:Et; cbn.
  2: { intros k (t & ? & ? & E & _). congruence. }
  case_bool_decide as Ht; [subst; intros k (t' & ? & ? & E & Hne & _); congruence|].
  pose proof (find_first t ring) as Hf. destruct (List.find _ ring) as [k|].
  - destruct Hf as (bef & beh & Hr & Hk & Hb). assert (Hs : stands_for ring headers k) by (by exists t, bef, beh).
    case_bool_decide; by exists k.
  - intros k (t' & bef & beh & Et' & _ & -> & Hk & _). rewrite Et in Et'. injection Et' as <-.
    rewrite Forall_app, Forall_cons in Hf. by destruct Hf as (_ & Hf & _).
Qed.

(** Which routes act and record nothing: an action that is none. *)
Definition unknown_action (r : Request) : Prop :=
  exists name act, r = Control name act /\ act ∉ as_bytes <$> ["start"; "stop"; "restart"]%string.

Lemma resmon_recorded key tgt args : exists o, (execute_resmon_command key tgt args).2 = [record key EXECUTE tgt o].
Proof. unfold execute_resmon_command. repeat case_match; by eexists. Qed.

Lemma profiler_recorded key tgt args : exists o, (execute_profiler_command key tgt args).2 = [record key EXECUTE tgt o].
Proof. unfold execute_profiler_command. cbv zeta. repeat case_match; by eexists. Qed.

Lemma handle_guarded s headers r : exists tgt route,
  handle s headers r = guarded s headers (needs r) (called r) tgt route /\
  forall key,
    (~ unknown_action r /\ exists t o, (route key).2 = [record key (called r) t o]) \/
    (unknown_action r /\ (exists why, (route key).1.1 = BadRequest why) /\ (route key).1.2 = [] /\ (route key).2 = []).
Proof.
  destruct r as [source reason|name act|zone|body| |command source]; cbn [handle needs called].
  2: { eexists _, _. split; [reflexivity|]. intros key. cbn beta. cbv zeta.
    case_bool_decide as E1; [|case_bool_decide as E2; [|case_bool_decide as E3]].
    1-3: left; split; [intros (n & a & [= <- <-] & Hn); apply Hn; subst; set_solver|]; destruct (resource_answer s); by eexists _, _.
    right. split_and!; [|by eexists|done|done]. exists name, act. split; [done|]. cbn [fmap list_fmap]. set_solver. }
  all: eexists _, _; split; [reflexivity|]; intros key; left; split; [by intros (? & ? & ? & _)|]; cbn beta; cbv zeta.
  - destruct (Players.get _ _); [|by eexists _, _]. destruct (negb _); by eexists _, _.
  - destruct (mesh s); [|by eexists _, _]. destruct (negb _); by eexists _, _.
  - by eexists _, _.
  - by eexists _, _.
  - case_bool_decide; [by eexists _, _|].
    case_bool_decide; [eexists; apply resmon_recorded|]. case_bool_decide; [eexists; apply profiler_recorded|].
    destruct (command_answer s); by eexists _, _.
Qed.

(** C26: control. Whatever the request and the server's state, a control route acts
    only for a token that stands for a key with the route's permission. With
    such a key exactly one record is written, under the key's name and the
    route's, unless the action asked of a resource is none of the known ones:
    then the answer is that it is a bad request, nothing is done and nothing
    recorded. A key without the permission does nothing and leaves one record
    that it was denied. A token of no key is refused, does nothing and leaves
    no record. *)
Theorem control_audited s headers r :
  let '(response, acts, log) := handle s headers r in
  (forall k, stands_for (keyring s) headers k -> needs r ∈ key_permissions k ->
    (~ unknown_action r -> exists t o, log = [record (key_name k) (called r) t o]) /\
    (unknown_action r -> (exists why, response = BadRequest why) /\ acts = [] /\ log = [])) /\
  (forall k, stands_for (keyring s) headers k -> needs r ∉ key_permissions k ->
    response = MissingPermission /\ acts = [] /\ exists t, log = [record (key_name k) (called r) t DENIED]) /\
  ((forall k, ~ stands_for (keyring s) headers k) -> response = Unauthorized /\ acts = [] /\ log = []).
Proof.
  destruct (handle_guarded s headers r) as (tgt & route & -> & Hroute). unfold guarded.
  pose proof (authorize_spec (keyring s) headers (needs r)) as Ha. destruct (authorize _ _ _) as [[|n]|n].
  - split_and!; [intros k Hk; by destruct (Ha k)|intros k Hk; by destruct (Ha k)|done].
  - destruct Ha as (k & Hk & Hp & ->). split_and!.
    + intros k' Hk' Hp'. by rewrite (stands_for_unique _ _ _ _ Hk' Hk) in Hp'.
    + intros k' Hk' _. rewrite (stands_for_unique _ _ _ _ Hk' Hk). split_and!; [done|done|by eexists].
    + intros Hn. by destruct (Hn k).
  - destruct Ha as (k & Hk & Hp & ->). specialize (Hroute (key_name k)). destruct (route (key_name k)) as [[response acts] log]. cbn in Hroute.
    split_and!.
    + intros k' Hk' _. rewrite (stands_for_unique _ _ _ _ Hk' Hk). split; intros Hu; destruct Hroute; naive_solver.
    + intros k' Hk' Hp'. by rewrite (stands_for_unique _ _ _ _ Hk' Hk) in Hp'.
    + intros Hn. by destruct (Hn k).
Qed.

Lemma distinct_stands_for ring headers k t : NoDup (key_token <$> ring) -> k ∈ ring -> bearer headers = Some t -> key_token k = t ->
  t <> [] -> stands_for ring headers k.
Proof.
  intros Hd (bef & beh & ->)%list_elem_of_split Hb Hk Ht. exists t, bef, beh. split_and!; try done.
  apply Forall_forall. intros k' Hin E. rewrite fmap_app, fmap_cons, NoDup_app in Hd. destruct Hd as (_ & Hd & _).
  apply (Hd (key_token k')); [by apply list_elem_of_fmap_2|]. rewrite E, Hk. by left.
Qed.

Lemma stands_for_in ring headers k : stands_for ring headers k -> k ∈ ring /\ bearer headers = Some (key_token k) /\ key_token k <> [].
Proof. intros (t & bef & beh & Hb & Ht & -> & Hk & _). rewrite Hk. split; [apply elem_of_app; right; by left|done]. Qed.

(** the keys of a valid configuration. When the administrator's token is no
    key's, a request is granted a permission exactly when its token is that of
    a configured key with it, under that key's name, or is the administrator's. *)
Theorem authorize_exact api admin_token headers p n :
  Config.api_ok api -> admin_token ∉ (fun k => trim (token k)) <$> keys api ->
  authorize (from_config api admin_token) headers p = inr n <->
  exists t, bearer headers = Some t /\
    ((exists k, k ∈ keys api /\ trim (token k) = t /\ p ∈ permissions k /\ n = name k) \/
     (t = admin_token /\ admin_token <> [] /\ n = ADMIN)).
Proof.
  intros (Hk & _ & Hd) Hfresh. set (ring := from_config api admin_token).
  assert (Hin : forall e, e ∈ ring <-> (exists k, k ∈ keys api /\ e = key_entry k) \/
    (admin_token <> [] /\ e = {| key_name := ADMIN; key_token := admin_token; key_permissions := ALL_PERMISSIONS |})).
  { intros e. unfold ring, from_config. rewrite elem_of_app, list_elem_of_fmap.
    case_bool_decide; rewrite ?elem_of_nil, ?list_elem_of_singleton; naive_solver. }
  assert (Hdist : NoDup (key_token <$> ring)).
  { unfold ring, from_config. rewrite fmap_app, <- list_fmap_compose. apply NoDup_app. split; [done|]. split.
    - intros t Ht. case_bool_decide; cbn; [apply not_elem_of_nil|]. rewrite list_elem_of_singleton. by intros ->.
    - case_bool_decide; cbn; [constructor|]. by apply NoDup_singleton. }
  pose proof (authorize_spec ring headers p) as Ha. split.
  - intros E. rewrite E in Ha. destruct Ha as (e & (He & Hb & Ht)%stands_for_in & Hp & ->). exists (key_token e). split; [done|].
    apply Hin in He as [(k & Hkin & ->)|[Hne ->]]; [left; by exists k|by right].
  - intros (t & Hb & Hor).
    assert (He : exists e, stands_for ring headers e /\ p ∈ key_permissions e /\ n = key_name e).
    { destruct Hor as [(k & Hkin & Et & Hp & ->)|(-> & Hne & ->)].
      - exists (key_entry k). split; [|done]. apply (distinct_stands_for _ _ _ t); [done|apply Hin; left; by exists k|done|done|].
        rewrite Forall_forall in Hk. destruct (Hk k Hkin) as [_ Hl _ _ _]. intros ->. rewrite Et in Hl. cbn in Hl. lia.
      - exists {| key_name := ADMIN; key_token := admin_token; key_permissions := ALL_PERMISSIONS |}. split; [|split; [|done]].
        + apply (distinct_stands_for _ _ _ admin_token); [done|apply Hin; right; split; [done|reflexivity]|done|done|done].
        + cbn. destruct p; set_solver. }
    destruct He as (e & He & Hp & ->). destruct (authorize ring headers p) as [[|m]|m].
    + by destruct (Ha e).
    + destruct Ha as (e' & He' & Hp' & _). by rewrite (stands_for_unique _ _ _ _ He' He) in Hp'.
    + destruct Ha as (e' & He' & _ & ->). by rewrite (stands_for_unique _ _ _ _ He' He).
Qed.

(** ** Examples *)

Definition bot_token : Name := as_bytes "monitor-token-0123456789abcdef01".
Definition sample_api : ApiConfig :=
  {| keys := [{| name := as_bytes "bot"; token := bot_token; permissions := [ConsoleExecute] |}];
     Config.Api.audit_log := Config.Api.default_audit_log |}.
Definition with_token (t : Name) : HeaderMap := {| authorization := Some (BEARER ++ t); x_real_ip := None |}.

Lemma sample_api_ok : Config.api_ok sample_api.
Proof. apply Config.api_validate_ok. vm_compute. reflexivity. Qed.

Lemma authorize_exact_witness : authorize (from_config sample_api (as_bytes "secret")) (with_token bot_token) ConsoleExecute = inr (as_bytes "bot").
Proof.
  apply (proj2 (authorize_exact sample_api (as_bytes "secret") (with_token bot_token) ConsoleExecute (as_bytes "bot") sample_api_ok
    ltac:(apply (bool_decide_unpack _); vm_compute; exact I))).
  exists bot_token. split; [vm_compute; reflexivity|left]. eexists. split; [by left|]. split; [vm_compute; reflexivity|]. split; [by left|reflexivity].
Defined.

(** Where the administrator's token is also a key's, the key's permissions
    apply, and the administrator's are out of reach. *)
Example admin_shadowed :
  Config.validate (fun _ => true) (Config.minimal <| Config.api := sample_api |>
    <| Config.meshing := (Config.minimal.(Config.meshing)) <| Config.Meshing.admin_token := bot_token |> |>) = inr tt /\
  authorize (from_config sample_api bot_token) (with_token bot_token) PlayerKick = inl (Forbidden (as_bytes "bot")).
Proof. split; vm_compute; reflexivity. Qed.

Definition sample_state (ring : KeyRing) : ApiState := {|
  keyring := ring; players := Players.directory_new; mesh := None; udp := true; resource_answer := None;
  command_answer := None; drained := 0 |}.

(** A key for the console alone starts the profiler. *)
Example console_profiles :
  handle (sample_state (from_config sample_api [])) (with_token bot_token) (Execute (as_bytes "profiler record 5") None) =
    (ProfilerStatus, [StartProfiler (Some 5) None SERVER_SCOPE true],
     [record (as_bytes "bot") EXECUTE (as_bytes "command:profiler") OK]) /\
  authorize (from_config sample_api []) (with_token bot_token) ProfilerControl = inl (Forbidden (as_bytes "bot")).
Proof. split; vm_compute; reflexivity. Qed.

(** A request of no known action is done nothing about and not recorded. *)
Example action_unrecorded :
  let ring := [{| key_name := ADMIN; key_token := bot_token; key_permissions := ALL_PERMISSIONS |}] in
  (handle (sample_state ring) (with_token bot_token) (Control (as_bytes "maps") (as_bytes "erase"))).2 = [].
Proof. vm_compute. reflexivity. Qed.
