(* ===== verification/Connection.v ===== *)
(** * How a player connects
      (src/crates/baston-scripting/src/deferrals.rs,
      src/crates/baston-gateway/src/http/client.rs,
      src/crates/baston-protocol/src/connection.rs)

    A connection is a request that runs for as long as the scripts take: it is
    authenticated, announced to the scripts, which may hold it back, and then
    admitted or refused. Requests run interleaved, with each other, with the
    calls of the scripts and with disconnections: [step] runs one of them from
    one wait to its next. A request whose client goes away is dropped where it
    waits. *)

From S2P Require Import Prelude Decimal Utf8 Udp Events.
From S2P Require Players Config Auth ControlApi.
#[local] Open Scope Z_scope.

(** ** deferrals.rs *)

(** [Result<(), String>]. *)
Abbreviation DeferralOutcome := (Name + unit)%type.

(** A oneshot channel is a number; the sender of an entry is that of its channel. *)
Record DeferralEntry := {
  tx : option Z; deferred : bool; kick_reason : option Name; last_update : option Name
}.
#[export] Instance DeferralEntry_rebuild : Rebuild DeferralEntry := fun e =>
  Build_DeferralEntry (tx e) (deferred e) (kick_reason e) (last_update e).

Record DeferralRegistry := { inner : gmap Z DeferralEntry; next_channel : Z; sent : gmap Z DeferralOutcome }.
#[export] Instance DeferralRegistry_rebuild : Rebuild DeferralRegistry := fun r =>
  Build_DeferralRegistry (inner r) (next_channel r) (sent r).

Definition deferrals_new : DeferralRegistry := {| inner := ∅; next_channel := 0; sent := ∅ |}.

Definition register (source : Z) (r : DeferralRegistry) : Z * DeferralRegistry :=
  let rx := next_channel r in
  (rx, (r <| next_channel := rx + 1 |>)
         <| inner := <[source := {| tx := Some rx; deferred := false; kick_reason := None; last_update := None |}]> (inner r) |>).

(** [if let Some(mut entry) = self.inner.get_mut(&source)]. *)
Definition with_entry (source : Z) (f : DeferralEntry -> DeferralEntry) (r : DeferralRegistry) : DeferralRegistry :=
  r <| inner := alter f source (inner r) |>.

Definition defer (source : Z) : DeferralRegistry -> DeferralRegistry := with_entry source (fun e => e <| deferred := true |>).
Definition update (source : Z) (message : Name) : DeferralRegistry -> DeferralRegistry :=
  with_entry source (fun e => e <| last_update := Some message |>).
Definition present_card (source : Z) (card_json : Name) (r : DeferralRegistry) : DeferralRegistry := r.
Definition set_kick_reason (source : Z) (reason : Name) : DeferralRegistry -> DeferralRegistry :=
  with_entry source (fun e => e <| kick_reason := Some reason |>).

Definition outcome_of (reason : option Name) : DeferralOutcome :=
  match reason with Some (b :: rest) => inl (b :: rest) | _ => inr tt end.

Definition done_ (source : Z) (reason : option Name) (r : DeferralRegistry) : DeferralRegistry :=
  match inner r !! source with
  | Some e =>
      match tx e with
      | Some c => (with_entry source (fun e => e <| tx := None |>) r) <| sent := <[c := outcome_of reason]> (sent r) |>
      | None => r
      end
  | None => r
  end.

Definition resolve_if_not_deferred (source : Z) (r : DeferralRegistry) : DeferralRegistry :=
  let should_resolve := match inner r !! source with Some e => negb (deferred e) && is_some (tx e) | None => false end in
  if should_resolve then done_ source None r else r.

Definition is_pending (source : Z) (r : DeferralRegistry) : bool :=
  match inner r !! source with Some e => is_some (tx e) | None => false end.

Definition remove (source : Z) (r : DeferralRegistry) : DeferralRegistry := r <| inner := delete source (inner r) |>.

(** What the receiver of a channel finds: nothing yet, the outcome, or that the
    sender is gone. *)
Inductive Received := Pending | Resolved (o : DeferralOutcome) | SenderDropped.

Definition receive (rx : Z) (r : DeferralRegistry) : Received :=
  match sent r !! rx with
  | Some o => Resolved o
  | None => if bool_decide (map_Exists (fun _ e => tx e = Some rx) (inner r)) then Pending else SenderDropped
  end.

(** What a script may call; "" is no reason. *)
Inductive ScriptCall :=
| Defer (source : Z)
| Update (source : Z) (message : Name)
| PresentCard (source : Z) (card_json : Name)
| SetKickReason (source : Z) (reason : Name)
| Done (source : Z) (reason : Name).

Definition script_call (c : ScriptCall) (r : DeferralRegistry) : DeferralRegistry :=
  match c with
  | Defer source => defer source r
  | Update source message => update source message r
  | PresentCard source card_json => present_card source card_json r
  | SetKickReason source reason => set_kick_reason source reason r
  | Done source reason => done_ source (if bool_decide (reason = []) then None else Some reason) r
  end.

(** ** What decides a connection *)

Inductive RegistryCall :=
| Scripted (c : ScriptCall)
| Register (source : Z)
| Resolve (source : Z)
| Remove (source : Z).

Definition registry_call (r : DeferralRegistry) (c : RegistryCall) : DeferralRegistry :=
  match c with
  | Scripted c => script_call c r
  | Register source => (register source r).2
  | Resolve source => resolve_if_not_deferred source r
  | Remove source => remove source r
  end.

(** Open channels are numbered below the next one, are nobody else's and have
    nothing sent. *)
Record registry_ok (r : DeferralRegistry) : Prop := {
  open_fresh : forall s e c, inner r !! s = Some e -> tx e = Some c -> c < next_channel r /\ sent r !! c = None;
  open_own : forall s s' e e' c, inner r !! s = Some e -> tx e = Some c -> inner r !! s' = Some e' -> tx e' = Some c -> s = s';
  sent_old : forall c o, sent r !! c = Some o -> c < next_channel r
}.

Lemma deferrals_new_ok : registry_ok deferrals_new.
Proof. split; [intros s e c H|intros s s' e e' c H|intros c o H]; cbn in H; by rewrite lookup_empty in H. Qed.

(** A change of the entries that opens no channel. *)
Lemma entries_ok r m : registry_ok r ->
  (forall s e c, m !! s = Some e -> tx e = Some c -> exists e', inner r !! s = Some e' /\ tx e' = Some c) ->
  registry_ok (r <| inner := m |>).
Proof.
  intros [H1 H2 H3] Hm. split; cbn.
  - intros s e c Hs Hc. destruct (Hm s e c Hs Hc) as (e' & Hs' & Hc'). by apply (H1 s e').
  - intros s s' e e' c Hs Hc Hs' Hc'. destruct (Hm s e c Hs Hc) as (d & Hd & Hdc), (Hm s' e' c Hs' Hc') as (d' & Hd' & Hdc').
    by apply (H2 s s' d d' c).
  - done.
Qed.

Lemma with_entry_ok s f r : (forall e, tx (f e) = tx e) -> registry_ok r -> registry_ok (with_entry s f r).
Proof.
  intros Hf Hr. apply entries_ok; [done|]. intros s' e c Hs Hc. destruct (decide (s' = s)) as [->|Hne].
  - rewrite lookup_alter_eq in Hs. destruct (inner r !! s) as [e'|]; [|done]. injection Hs as <-. rewrite Hf in Hc. by exists e'.
  - rewrite lookup_alter_ne in Hs by done. by exists e.
Qed.

Lemma done_ok s reason r : registry_ok r -> registry_ok (done_ s reason r).
Proof.
  intros Hr. unfold done_. destruct (inner r !! s) as [e|] eqn:Es; [|done]. destruct (tx e) as [c|] eqn:Ec; [|done].
  destruct Hr as [H1 H2 H3]. destruct (H1 s e c Es Ec) as [Hlt Hc].
  assert (Hm : forall s' e' c', alter (fun e : DeferralEntry => e <| tx := None |>) s (inner r) !! s' = Some e' -> tx e' = Some c' ->
    inner r !! s' = Some e' /\ s' <> s).
  { intros s' e' c' Hs' Hc'. destruct (decide (s' = s)) as [->|Hne].
    - rewrite lookup_alter_eq, Es in Hs'. injection Hs' as <-. discriminate.
    - by rewrite lookup_alter_ne in Hs' by done. }
  split; cbn.
  - intros s' e' c' Hs' Hc'. destruct (Hm s' e' c' Hs' Hc') as [Hs Hne]. destruct (H1 s' e' c' Hs Hc') as [? ?]. split; [done|].
    rewrite lookup_insert_ne; [done|]. intros ->. by destruct (Hne (H2 s' s e' e c' Hs Hc' Es Ec)).
  - intros s' s'' e' e'' c' Hs' Hc' Hs'' Hc''. destruct (Hm s' e' c' Hs' Hc') as [Ha _], (Hm s'' e'' c' Hs'' Hc'') as [Hb _].
    by apply (H2 s' s'' e' e'' c').
  - intros c' o. destruct (decide (c' = c)) as [->|Hne]; [done|]. rewrite lookup_insert_ne by done. apply H3.
Qed.

Lemma script_call_ok c r : registry_ok r -> registry_ok (script_call c r).
Proof. destruct c; cbn [script_call]; [by apply with_entry_ok|by apply with_entry_ok|done|by apply with_entry_ok|apply done_ok]. Qed.

Lemma register_keeps s r : registry_ok r -> registry_ok (register s r).2.
Proof.
  intros [H1 H2 H3]. cbn. split; cbn.
  - intros s' e c Hs Hc. destruct (decide (s' = s)) as [->|Hne].
    + rewrite lookup_insert_eq in Hs. injection Hs as <-. injection Hc as <-. split; [lia|].
      destruct (sent r !! next_channel r) as [o|] eqn:E; [|done]. apply H3 in E. lia.
    + rewrite lookup_insert_ne in Hs by done. destruct (H1 s' e c Hs Hc). split; [lia|done].
  - intros s' s'' e e' c Hs Hc Hs' Hc'. destruct (decide (s' = s)) as [->|Hne], (decide (s'' = s)) as [->|Hne']; [done| | |].
    + rewrite lookup_insert_eq in Hs. injection Hs as <-. injection Hc as <-. rewrite lookup_insert_ne in Hs' by done.
      destruct (H1 s'' e' _ Hs' Hc'). lia.
    + rewrite lookup_insert_eq in Hs'. injection Hs' as <-. injection Hc' as <-. rewrite lookup_insert_ne in Hs by done.
      destruct (H1 s' e _ Hs Hc). lia.
    + rewrite lookup_insert_ne in Hs by done. rewrite lookup_insert_ne in Hs' by done. by apply (H2 s' s'' e e' c).
  - intros c o Hc. apply H3 in Hc. lia.
Qed.

Lemma registry_call_ok c r : registry_ok r -> registry_ok (registry_call r c).
Proof.
  destruct c as [c|s|s|s]; cbn [registry_call]; [apply script_call_ok|apply register_keeps| |].
  - unfold resolve_if_not_deferred. cbv zeta. intros Hr. case_match; [by apply done_ok|done].
  - intros Hr. apply entries_ok; [done|]. intros s' e c Hs Hc. apply lookup_delete_Some in Hs as [_ Hs]. by exists e.
Qed.

(** An outcome once sent stays. *)
Lemma done_sent s reason r c o : registry_ok r -> sent r !! c = Some o -> sent (done_ s reason r) !! c = Some o.
Proof.
  intros Hr Hc. unfold done_. destruct (inner r !! s) as [e|] eqn:Es; [|done]. destruct (tx e) as [c'|] eqn:Ec; [|done].
  cbn. rewrite lookup_insert_ne; [done|]. intros ->. destruct (open_fresh r Hr s e c Es Ec). congruence.
Qed.

Lemma call_sent c r rx o : registry_ok r -> sent r !! rx = Some o -> sent (registry_call r c) !! rx = Some o.
Proof.
  intros Hr Hc. destruct c as [[]| | |]; cbn [registry_call script_call]; try done; [by apply done_sent|].
  unfold resolve_if_not_deferred. cbv zeta. case_match; [by apply done_sent|done].
Qed.

(** The first call that decides: a [done], or the host's resolution when no
    script has deferred before it. *)
Fixpoint decision (s : Z) (held : bool) (calls : list RegistryCall) : option DeferralOutcome :=
  match calls with
  | [] => None
  | c :: rest =>
      match c with
      | Scripted (Done s' reason) =>
          if s' =? s then Some (if bool_decide (reason = []) then inr tt else inl reason) else decision s held rest
      | Scripted (Defer s') => decision s (held || (s' =? s)) rest
      | Resolve s' => if (s' =? s) && negb held then Some (inr tt) else decision s held rest
      | _ => decision s held rest
      end
  end.

Definition leaves (s : Z) (c : RegistryCall) : Prop := c <> Register s /\ c <> Remove s.

(** The entry that waits on a channel. *)
Definition waits (s rx : Z) (held : bool) (r : DeferralRegistry) : Prop :=
  exists e, inner r !! s = Some e /\ tx e = Some rx /\ deferred e = held.

Lemma waits_pending s rx held r : registry_ok r -> waits s rx held r -> receive rx r = Pending.
Proof.
  intros Hr (e & Hs & Hc & _). unfold receive. destruct (open_fresh r Hr s e rx Hs Hc) as [_ ->].
  rewrite bool_decide_eq_true_2; [done|]. by exists s, e.
Qed.

Lemma with_entry_waits s s' f rx held r : (forall e, tx (f e) = tx e /\ deferred (f e) = deferred e) ->
  waits s rx held r -> waits s rx held (with_entry s' f r).
Proof.
  intros Hf (e & Hs & Hc & Hd). destruct (decide (s' = s)) as [->|Hne].
  - exists (f e). cbn. rewrite lookup_alter_eq, Hs. by destruct (Hf e) as [-> ->].
  - exists e. cbn. by rewrite lookup_alter_ne.
Qed.

Lemma done_waits s s' reason rx held r : s' <> s -> waits s rx held r -> waits s rx held (done_ s' reason r).
Proof.
  intros Hne (e & Hs & Hc & Hd). unfold done_. destruct (inner r !! s') as [e'|] eqn:Es; [|by exists e].
  destruct (tx e'); [|by exists e]. exists e. cbn. by rewrite lookup_alter_ne.
Qed.

Lemma done_decides s reason rx held r : waits s rx held r -> sent (done_ s reason r) !! rx = Some (outcome_of reason).
Proof. intros (e & Hs & Hc & _). unfold done_. rewrite Hs, Hc. cbn. apply lookup_insert_eq. Qed.

Lemma calls_sent calls : forall r rx o, registry_ok r -> sent r !! rx = Some o -> sent (foldl registry_call r calls) !! rx = Some o.
Proof.
  induction calls as [|c calls IH]; intros r rx o Hr Ho; [done|]. cbn [foldl].
  apply IH; [by apply registry_call_ok|by apply call_sent].
Qed.

Lemma waits_decided s rx calls : forall held r, Forall (leaves s) calls -> registry_ok r -> waits s rx held r ->
  receive rx (foldl registry_call r calls) = match decision s held calls with Some o => Resolved o | None => Pending end.
Proof.
  induction calls as [|c calls IH]; intros held r Hl Hr Hw; [by eapply waits_pending|]. apply Forall_cons in Hl as [[Hl1 Hl2] Hl].
  pose proof (registry_call_ok c r Hr) as Hr'. cbn [foldl decision].
  assert (Hsettle : forall o, sent (registry_call r c) !! rx = Some o -> receive rx (foldl registry_call (registry_call r c) calls) = Resolved o).
  { intros o Ho. unfold receive. by rewrite (calls_sent calls _ _ _ Hr' Ho). }
  destruct c as [[s'|s' m|s' m|s' m|s' reason]|s'|s'|s']; cbn [registry_call script_call] in *.
  - apply IH; [done|done|]. destruct Hw as (e & Hs & Hc & Hd). destruct (Z.eqb_spec s' s) as [->|Hne].
    + exists (e <| deferred := true |>). cbn. rewrite lookup_alter_eq, Hs. split_and!; [done|done|by rewrite orb_true_r].
    + exists e. cbn. rewrite lookup_alter_ne by done. by rewrite orb_false_r.
  - apply IH; [done|done|]. by apply with_entry_waits.
  - by apply IH.
  - apply IH; [done|done|]. by apply with_entry_waits.
  - destruct (Z.eqb_spec s' s) as [->|Hne]; [|apply IH; [done|done|by apply done_waits]].
    apply Hsettle. rewrite (done_decides _ _ _ _ _ Hw). case_bool_decide as E; [done|]. by destruct reason.
  - apply IH; [done|done|]. destruct Hw as (e & Hs & Hc & Hd). exists e. cbn. rewrite lookup_insert_ne by congruence. done.
  - unfold resolve_if_not_deferred in *. destruct (Z.eqb_spec s' s) as [->|Hne]; cbn [andb].
    + pose proof Hw as (e & Hs & Hc & Hd). rewrite Hs, Hc, Hd in *. cbn [is_some andb] in *. rewrite andb_true_r in *.
      destruct held; cbn [negb] in *; [by apply IH|]. apply Hsettle. by rewrite (done_decides _ _ _ _ _ Hw).
    + apply IH; [done|done|]. case_match; [by apply done_waits|done].
  - apply IH; [done|done|]. destruct Hw as (e & Hs & Hc & Hd). exists e. cbn. rewrite lookup_delete_ne by congruence. done.
Qed.

(** C27: deferrals. From the registration of a connection on, whatever the scripts
    and other connections do, its channel is pending until a script is done
    with it or the host resolves it with no script having deferred, and then
    carries the outcome of that first decision: a later one changes nothing,
    another resource's deferral does not hold it back. *)
Theorem deferral_decided s r calls : registry_ok r -> Forall (leaves s) calls ->
  let '(rx, r1) := register s r in
  receive rx (foldl registry_call r1 calls) = match decision s false calls with Some o => Resolved o | None => Pending end.
Proof.
  intros Hr Hl. pose proof (register_keeps s r Hr) as Hr1. cbn [register] in *. apply waits_decided; [done|done|].
  eexists. cbn. rewrite lookup_insert_eq. done.
Qed.

(** A resource that checks a list and another that is done at once. *)
Definition bypassed : list RegistryCall :=
  [Scripted (Defer 1); Scripted (Defer 1); Scripted (Done 1 []); Resolve 1; Scripted (Done 1 (as_bytes "Not whitelisted"))].

Lemma deferral_decided_witness : receive 0 (foldl registry_call (register 1 deferrals_new).2 bypassed) = Resolved (inr tt).
Proof.
  apply (deferral_decided 1 deferrals_new bypassed deferrals_new_ok). repeat constructor; discriminate.
Defined.

(** ** connection.rs *)

Definition PROTOCOL_VERSION : Z := 5.
Definition MIN_CLIENT_PROTOCOL : Z := 12.
Definition NET_BIT_VERSION : Z := 0x202501010000.
Definition NETLIB_VERSION : Z := 2.

(** [handover] is an object, of keys and JSON texts. *)
Record InitConnectResponse := {
  protocol : Z; bit_version : Z; pure : Z; script_hook_allowed : bool; enhanced_host_support : bool;
  onesync : bool; onesync_big : bool; onesync_lh : bool; onesync_population : bool;
  token : Name; gamename : Name; netlib_version : Z; max_clients : Z; handover : list (Name * Name)
}.

Definition response_new (token game_name : Name) (max_clients : Z) (onesync_enabled : bool) : InitConnectResponse := {|
  protocol := PROTOCOL_VERSION; bit_version := NET_BIT_VERSION; pure := 0; script_hook_allowed := false;
  enhanced_host_support := negb onesync_enabled; onesync := onesync_enabled; onesync_big := onesync_enabled;
  onesync_lh := false; onesync_population := onesync_enabled; token := token; gamename := game_name;
  netlib_version := NETLIB_VERSION; max_clients := max_clients; handover := [] |}.

(** ** http/client.rs *)

Definition DEFAULT_PLAYER_NAME : Name := as_bytes "Player".

(** [getConfiguration] is another handler's. *)
Inductive Response :=
| ClientError (reason : Name)
| GetConfiguration
| Endpoints
| InvalidMethod
| ScriptingError
| Accepted (r : InitConnectResponse)
| Rejected (reason : Name)
| TimedOut.

(** Where a request waits: for the key, the first or the second time; for the
    scripts' handlers; for the outcome. *)
Inductive Phase :=
| Verifying (refresh : bool)
| Firing
| Waiting
| Answered (r : Response)
| Gone.

(** The variables of a request that was given a source. *)
Record Attempt := {
  source : Z; name : Name; ip : Name; game_name : Name; guid : Z; ticket : Name; now : Z;
  identifiers : list Name; rx : Z; phase : Phase
}.
#[export] Instance Attempt_rebuild : Rebuild Attempt := fun a =>
  Build_Attempt (source a) (name a) (ip a) (game_name a) (guid a) (ticket a) (now a) (identifiers a) (rx a) (phase a).

Section gateway.
Context `{Auth.TicketCrypto} `{Json} `{FormCodec}.

(** What the requests share; [routed] is who the mesh was asked to place. *)
Record Gateway := {
  players : Players.PlayerDirectory; deferrals : DeferralRegistry; auth : Auth.AuthService;
  attempts : list Attempt; routed : list Z
}.
#[export] Instance Gateway_rebuild : Rebuild Gateway := fun g =>
  Build_Gateway (players g) (deferrals g) (auth g) (attempts g) (routed g).

Definition gateway_new (instant : Z) : Gateway := {|
  players := Players.directory_new; deferrals := deferrals_new; auth := Auth.service_new instant; attempts := []; routed := [] |}.

Definition extract_field (body : Name) (key : string) : option Name :=
  if starts_with [123] (trim_start body) then
    from_str body ≫= fun v => field v (as_bytes key) ≫= as_str
  else snd <$> List.find (fun kv : Name * Name => bool_decide (kv.1 = as_bytes key)) (form_parse body).

Definition peer_ip (headers : ControlApi.HeaderMap) : Name :=
  default (as_bytes "127.0.0.1") (ControlApi.x_real_ip headers).

Definition dev_identifiers (source : Z) (ip : Name) : list Name :=
  [as_bytes "license:dev-" ++ decimal source; as_bytes "ip:" ++ ip].

(** [deferrals.register] and the call of the scripts' handlers. *)
Definition announce (ids : list Name) (a : Attempt) (g : Gateway) : Attempt * Gateway :=
  let '(c, d) := register (source a) (deferrals g) in
  (((a <| identifiers := ids |>) <| rx := c |>) <| phase := Firing |>, g <| deferrals := d |>).

(** The request up to its first wait. *)
Definition begin (cfg : Config.BastonConfig) (headers : ControlApi.HeaderMap) (body : Name) (now_secs : Z) (g : Gateway) :
    Response + (Attempt * Gateway) :=
  let name :=
    match extract_field body "name" with Some (b :: rest) => b :: rest | _ => DEFAULT_PLAYER_NAME end in
  let ip := peer_ip headers in
  let method := default (as_bytes "initConnect") (extract_field body "method") in
  if bool_decide (method = as_bytes "getConfiguration") then inl GetConfiguration
  else if bool_decide (method = as_bytes "getEndpoints") then inl Endpoints
  else if negb (bool_decide (method = as_bytes "initConnect")) then inl InvalidMethod
  else
    let protocol := default 0 (extract_field body "protocol" ≫= parse_u32) in
    if protocol <? MIN_CLIENT_PROTOCOL then
      inl (ClientError (as_bytes "Client/server version mismatch. Restart your game client to update."))
    else
      let game_name := default (as_bytes "gta5") (extract_field body "gameName") in
      if negb (bool_decide (game_name = as_bytes "gta5")) then
        inl (ClientError (as_bytes "Client/Server game mismatch: " ++ game_name ++ as_bytes "/gta5"))
      else
        let '(source, directory) := Players.allocate_source (players g) in
        let g := g <| players := directory |> in
        let a := {| source := source; name := name; ip := ip; game_name := game_name; guid := 0; ticket := []; now := now_secs;
                    identifiers := []; rx := 0; phase := Verifying false |} in
        if Config.Dev.auth_bypass (Config.dev cfg) then inr (announce (dev_identifiers source ip) a g)
        else
          match extract_field body "cfxTicket2" with
          | None => inr (a <| phase := Answered (ClientError (as_bytes "No authentication ticket was specified.")) |>, g)
          | Some t =>
              inr ((a <| ticket := t |>) <| guid := default 0 (parse_u64 (default [] (extract_field body "guid"))) |>, g)
          end.

(** [validate_ticket] from one wait for the key to the next. *)
Definition on_key (refresh : bool) (f : Auth.Fetch) (instant : Z) (a : Attempt) (g : Gateway) : option (Attempt * Gateway) :=
  '(r, s) ← Auth.verify_under refresh f (ticket a) (guid a) (now a) (auth g);
  let g := g <| auth := s |> in
  match r with
  | inl e =>
      match e, refresh with
      | Auth.InvalidSignature, false => Some (a <| phase := Verifying true |>, g)
      | _, _ => Some (a <| phase := Answered (ClientError (Auth.error_text e)) |>, g)
      end
  | inr t =>
      let '(reused, used) := Auth.check_reuse instant t (Auth.used_tickets (auth g)) in
      let g := g <| auth := {| Auth.pubkey := Auth.pubkey (auth g); Auth.used_tickets := used |} |> in
      match reused with
      | inl e => Some (a <| phase := Answered (ClientError (Auth.error_text e)) |>, g)
      | inr _ => Some (announce (Auth.identifiers (Auth.build_player t (ip a))) a g)
      end
  end.

(** The handlers have run. *)
Definition on_fired (ok : bool) (a : Attempt) (g : Gateway) : Attempt * Gateway :=
  if ok then (a <| phase := Waiting |>, g <| deferrals := resolve_if_not_deferred (source a) (deferrals g) |>)
  else (a <| phase := Answered ScriptingError |>, g <| deferrals := remove (source a) (deferrals g) |>).

Definition player_of (a : Attempt) : Players.PlayerInfo :=
  {| Players.source := source a; Players.name := name a; Players.identifiers := identifiers a |}.

(** The end of the wait for the outcome, which the deadline does not overtake. *)
Definition on_outcome (cfg : Config.BastonConfig) (meshed timed_out : bool) (fresh : Name) (a : Attempt) (g : Gateway) :
    option (Attempt * Gateway) :=
  let removed := g <| deferrals := remove (source a) (deferrals g) |> in
  match receive (rx a) (deferrals g) with
  | Pending => if timed_out then Some (a <| phase := Answered TimedOut |>, removed) else None
  | SenderDropped => Some (a <| phase := Answered TimedOut |>, removed)
  | Resolved (inl reason) => Some (a <| phase := Answered (Rejected reason) |>, removed)
  | Resolved (inr _) =>
      let g := removed <| players := Players.bind_token fresh (source a) (Players.insert (player_of a) (players removed)) |> in
      let g := if meshed then g <| routed := routed g ++ [source a] |> else g in
      Some (a <| phase := Answered (Accepted (response_new fresh (game_name a)
        (Config.Server.max_players (Config.server cfg)) (Config.StateSync.is_enabled (Config.StateSync.onesync (Config.state_sync cfg))))) |>, g)
  end.

(** What may happen next; [id] is a request by its place in [attempts]. *)
Inductive Label :=
| Post (headers : ControlApi.HeaderMap) (body : Name) (now_secs : Z)
| Key (id : nat) (f : Auth.Fetch) (instant : Z)
| Fired (id : nat) (ok : bool)
| Outcome (id : nat) (timed_out : bool) (fresh : Name)
| Abandon (id : nat)
| Script (c : ScriptCall)
| AdminDrop (headers : ControlApi.HeaderMap) (source : Z)
| PeerGone (source : Z).

Definition store (id : nat) (ag : Attempt * Gateway) : Gateway := ag.2 <| attempts := <[id := ag.1]> (attempts ag.2) |>.

Definition forget (source : Z) (g : Gateway) : Gateway := g <| players := (Players.remove source (players g)).2 |>.

Section run.
Variable cfg : Config.BastonConfig.
Variable meshed : bool.

(** [None]: not possible here, or a panic. *)
Definition step (g : Gateway) (l : Label) : option Gateway :=
  match l with
  | Post headers body now_secs =>
      match begin cfg headers body now_secs g with
      | inl _ => Some g
      | inr (a, g) => Some (g <| attempts := attempts g ++ [a] |>)
      end
  | Key id f instant =>
      a ← attempts g !! id;
      match phase a with Verifying refresh => store id <$> on_key refresh f instant a g | _ => None end
  | Fired id ok =>
      a ← attempts g !! id;
      match phase a with Firing => Some (store id (on_fired ok a g)) | _ => None end
  | Outcome id timed_out fresh =>
      a ← attempts g !! id;
      match phase a with Waiting => store id <$> on_outcome cfg meshed timed_out fresh a g | _ => None end
  | Abandon id =>
      a ← attempts g !! id;
      match phase a with Answered _ | Gone => None | _ => Some (store id (a <| phase := Gone |>, g)) end
  | Script c => Some (g <| deferrals := script_call c (deferrals g) |>)
  | AdminDrop headers source =>
      if ControlApi.bearer_matches (Config.Meshing.admin_token (Config.meshing cfg)) headers then Some (forget source g) else Some g
  | PeerGone source => Some (forget source g)
  end.

Fixpoint run (g : Gateway) (labels : list Label) : option Gateway :=
  match labels with
  | [] => Some g
  | l :: labels => g ← step g l; run g labels
  end.
End run.

(** ** Who is admitted *)

Section theorems.
Variable cfg : Config.BastonConfig.
Variable meshed : bool.

(** The key was the endpoint's answer to one of the fetches. *)
Definition fetched (labels : list Label) (k : Auth.RsaPublicKey) : Prop :=
  exists id f instant, Key id f instant ∈ labels /\ Auth.fetch_pubkey f = inr k.

(** The identifiers are those of a ticket verified under such a key, or, in
    development, made up from the source. *)
Definition authentic (labels : list Label) (a : Attempt) : Prop :=
  if Config.Dev.auth_bypass (Config.dev cfg) then identifiers a = dev_identifiers (source a) (ip a)
  else exists k t, fetched labels k /\ Auth.parse_and_verify (ticket a) (guid a) k (now a) = Some (inr t) /\
    identifiers a = Auth.identifiers (Auth.build_player t (ip a)).

Definition admitted (a : Attempt) : Prop := exists r, phase a = Answered (Accepted r).
Definition past_auth (a : Attempt) : Prop := phase a = Firing \/ phase a = Waiting \/ admitted a.

Record attempt_ok (labels : list Label) (d : DeferralRegistry) (a : Attempt) : Prop := {
  announced_authentic : past_auth a -> authentic labels a;
  admitted_resolved : admitted a -> sent d !! rx a = Some (inr tt)
}.

Record gateway_ok (labels : list Label) (g : Gateway) : Prop := {
  key_fetched : forall e, Auth.pubkey (auth g) = Some e -> fetched labels (Auth.key e);
  registry_fine : registry_ok (deferrals g);
  attempts_ok : forall a, a ∈ attempts g -> attempt_ok labels (deferrals g) a;
  tokens_ok : forall t s, Players.source_for_token (players g) t = Some s ->
    exists a r, a ∈ attempts g /\ phase a = Answered (Accepted r) /\ source a = s /\ token r = t;
  players_ok : forall s p, Players.get (players g) s = Some p ->
    exists a, a ∈ attempts g /\ admitted a /\ source a = s /\ p = player_of a
}.

Lemma fetched_more labels l k : fetched labels k -> fetched (labels ++ l) k.
Proof. intros (id & f & i & Hin & Hf). exists id, f, i. split; [apply elem_of_app; by left|done]. Qed.

Lemma authentic_more labels l a : authentic labels a -> authentic (labels ++ l) a.
Proof.
  unfold authentic. destruct (Config.Dev.auth_bypass _); [done|]. intros (k & t & Hk & Ht). exists k, t.
  split; [by apply fetched_more|done].
Qed.

Lemma attempt_ok_more labels l d d' a : (forall c o, sent d !! c = Some o -> sent d' !! c = Some o) ->
  attempt_ok labels d a -> attempt_ok (labels ++ l) d' a.
Proof. intros Hd [K1 K2]. split; [intros Hp; by apply authentic_more, K1|intros Ha; by apply Hd, K2]. Qed.

(** A step that leaves attempts, players and tokens alone. *)
Lemma frame_ok labels l g g' : gateway_ok labels g ->
  (forall e, Auth.pubkey (auth g') = Some e -> fetched (labels ++ l) (Auth.key e)) ->
  registry_ok (deferrals g') -> (forall c o, sent (deferrals g) !! c = Some o -> sent (deferrals g') !! c = Some o) ->
  attempts g' = attempts g -> players g' = players g -> gateway_ok (labels ++ l) g'.
Proof.
  intros [_ _ K3 K4 K5] Hk Hr Hd Ha Hp. split; rewrite ?Ha, ?Hp; try done.
  intros a Hin. apply (attempt_ok_more _ _ (deferrals g)); [done|by apply K3].
Qed.

(** A request that is not answered changes. *)
Lemma store_ok labels id old a g : gateway_ok labels g -> attempts g !! id = Some old ->
  (forall r, phase old <> Answered r) -> attempt_ok labels (deferrals g) a ->
  gateway_ok labels (store id (a, g)).
Proof.
  intros [K1 K2 K3 K4 K5] Hid Hold Ha. unfold store.
  assert (Hkeep : forall a', a' ∈ attempts g -> (exists r, phase a' = Answered r) -> a' ∈ <[id := a]> (attempts g)).
  { intros a' Hin [r Hr]. apply list_elem_of_lookup in Hin as [j Hj]. apply list_elem_of_lookup. exists j.
    rewrite list_lookup_insert_ne; [done|]. intros ->. rewrite Hid in Hj. injection Hj as ->. by destruct (Hold r). }
  split; cbn; [exact K1|exact K2| | |].
  - intros a' [j Hj]%list_elem_of_lookup. apply list_lookup_insert_Some in Hj as [(_ & <- & _)|[_ Hj]]; [done|].
    apply K3, list_elem_of_lookup. by exists j.
  - intros t s Ht. destruct (K4 t s Ht) as (a' & r & Hin & Hr & Hs & Hto). exists a', r. split_and!; try done. apply Hkeep; [done|by eexists].
  - intros s p Hp. destruct (K5 s p Hp) as (a' & Hin & [r Hr] & Hs & He). exists a'. split_and!; try done; [apply Hkeep; [done|by eexists]|by eexists].
Qed.

Lemma forget_ok labels s g : gateway_ok labels g -> gateway_ok labels (forget s g).
Proof.
  intros [K1 K2 K3 K4 K5]. split; [exact K1|exact K2|exact K3| |];
    change (players (forget s g)) with (Players.remove s (players g)).2; change (attempts (forget s g)) with (attempts g).
  - intros t s'. unfold Players.source_for_token. rewrite Players.remove_token. intros Ht. apply K4. unfold Players.source_for_token.
    destruct (Players.session_tokens (players g) !! t); [|done]. by case_decide.
  - intros s' p. unfold Players.get. cbn. rewrite lookup_delete_Some. intros [_ Hp]. by apply K5.
Qed.

Lemma bind_ok labels id old a t g : gateway_ok labels g -> attempts g !! id = Some old -> (forall r, phase old <> Answered r) ->
  attempt_ok labels (deferrals g) a -> (exists r, phase a = Answered (Accepted r) /\ token r = t) ->
  gateway_ok labels (store id (a, g <| players := Players.bind_token t (source a) (Players.insert (player_of a) (players g)) |>)).
Proof.
  intros Hg Hid Hold Ha (r & Hr & Ht). destruct (store_ok labels id old a g Hg Hid Hold Ha) as [K1 K2 K3 K4 K5].
  assert (Hin : a ∈ <[id := a]> (attempts g)).
  { apply list_elem_of_lookup. exists id. apply list_lookup_insert_eq. by eapply lookup_lt_Some. }
  unfold store in *. split; cbn in *; try done.
  - intros t' s'. unfold Players.source_for_token. cbn. destruct (decide (t = t')) as [<-|Hne].
    + rewrite lookup_insert_eq. intros [= <-]. by exists a, r.
    + rewrite lookup_insert_ne by done. apply K4.
  - intros s' p. unfold Players.get. cbn. change (Players.source (player_of a)) with (source a). destruct (decide (source a = s')) as [<-|Hne].
    + rewrite lookup_insert_eq. intros [= <-]. exists a. split_and!; try done. by exists r.
    + rewrite lookup_insert_ne by done. apply K5.
Qed.

(** A new request. *)
Lemma append_ok labels a g : gateway_ok labels g -> attempt_ok labels (deferrals g) a ->
  gateway_ok labels (g <| attempts := attempts g ++ [a] |>).
Proof.
  intros [K1 K2 K3 K4 K5] Ha. split; cbn; [exact K1|exact K2| | |].
  - intros a' [Hin|Hin%list_elem_of_singleton]%elem_of_app; [by apply K3|by subst].
  - intros t s Ht. destruct (K4 t s Ht) as (a' & r & Hin & Hr). exists a', r. split; [apply elem_of_app; by left|done].
  - intros s p Hp. destruct (K5 s p Hp) as (a' & Hin & Hr). exists a'. split; [apply elem_of_app; by left|done].
Qed.

(** A request that has not been announced to the scripts owes nothing. *)
Lemma early_ok labels d a : ~ past_auth a -> attempt_ok labels d a.
Proof. intros Hn. split; [done|]. intros Ha. destruct Hn. by right; right. Qed.

Lemma announce_ok labels ids a g : gateway_ok labels g ->
  authentic labels (a <| identifiers := ids |>) ->
  gateway_ok labels (announce ids a g).2 /\ attempt_ok labels (deferrals (announce ids a g).2) (announce ids a g).1 /\
  attempts (announce ids a g).2 = attempts g.
Proof.
  intros Hg Hids. cbn. split; [|split; [|done]].
  - rewrite <- (app_nil_r labels). apply (frame_ok labels [] g); cbn; try done.
    + rewrite app_nil_r. apply (key_fetched _ _ Hg).
    + apply (register_keeps (source a) (deferrals g)), (registry_fine _ _ Hg).
  - split; [intros _; exact Hids|]. intros [r [=]].
Qed.

Lemma begin_ok labels headers body now_secs g : gateway_ok labels g ->
  match begin cfg headers body now_secs g with
  | inl _ => True
  | inr (a, g') => gateway_ok labels g' /\ attempt_ok labels (deferrals g') a
  end.
Proof.
  intros Hg. unfold begin. cbv zeta.
  do 5 match goal with |- context [if ?b then inl _ else _] => destruct b; [done|] end.
  destruct (Players.allocate_source (players g)) as [s d] eqn:Ed.
  assert (Hg' : gateway_ok labels (g <| players := d |>)).
  { injection Ed as <- <-. destruct Hg as [K1 K2 K3 K4 K5]. by split. }
  destruct (Config.Dev.auth_bypass (Config.dev cfg)) eqn:Eb.
  - match goal with |- context [announce ?ids ?a ?g'] => destruct (announce_ok labels ids a g' Hg') as (Hg2 & Ha2 & _) end;
      [unfold authentic; by rewrite Eb|].
    split; [exact Hg2|exact Ha2].
  - destruct (extract_field body "cfxTicket2"); (split; [exact Hg'|]); apply early_ok; intros [[=]|[[=]|[r [=]]]].
Qed.

Lemma resolve_ok s r : registry_ok r -> registry_ok (resolve_if_not_deferred s r) /\
  (forall c o, sent r !! c = Some o -> sent (resolve_if_not_deferred s r) !! c = Some o).
Proof.
  intros Hr. split; [exact (registry_call_ok (Resolve s) r Hr)|]. intros c o. exact (call_sent (Resolve s) r c o Hr).
Qed.

Lemma drop_entry_ok labels s g : gateway_ok labels g -> gateway_ok labels (g <| deferrals := remove s (deferrals g) |>).
Proof.
  intros Hg. rewrite <- (app_nil_r labels). apply (frame_ok labels [] g); cbn; try done.
  - rewrite app_nil_r. apply (key_fetched _ _ Hg).
  - exact (registry_call_ok (Remove s) _ (registry_fine _ _ Hg)).
Qed.

Lemma on_fired_ok labels id ok a g : gateway_ok labels g -> attempts g !! id = Some a -> phase a = Firing ->
  gateway_ok labels (store id (on_fired ok a g)).
Proof.
  intros Hg Hid Hph. pose proof (attempts_ok _ _ Hg a (list_elem_of_lookup_2 _ _ _ Hid)) as [Ka _].
  assert (Hold : forall r, phase a <> Answered r) by (intros r; rewrite Hph; discriminate).
  destruct ok; cbn [on_fired].
  - pose proof (resolve_ok (source a) _ (registry_fine _ _ Hg)) as [Hr Hs].
    apply (store_ok labels id a); [|done|done|].
    + rewrite <- (app_nil_r labels). apply (frame_ok labels [] g); cbn; try done. rewrite app_nil_r. apply (key_fetched _ _ Hg).
    + split; [intros _|intros [r [=]]]. apply Ka. by left.
  - apply (store_ok labels id a); [by apply drop_entry_ok|done|done|]. apply early_ok. intros [[=]|[[=]|[r [=]]]].
Qed.

Lemma on_outcome_ok labels id timed_out fresh a g ag : gateway_ok labels g -> attempts g !! id = Some a -> phase a = Waiting ->
  on_outcome cfg meshed timed_out fresh a g = Some ag -> gateway_ok labels (store id ag).
Proof.
  intros Hg Hid Hph. pose proof (attempts_ok _ _ Hg a (list_elem_of_lookup_2 _ _ _ Hid)) as [Ka _].
  assert (Hold : forall r, phase a <> Answered r) by (intros r; rewrite Hph; discriminate).
  pose proof (drop_entry_ok labels (source a) g Hg) as Hg'. unfold on_outcome.
  assert (Hearly : forall r, (forall i, r <> Accepted i) ->
    gateway_ok labels (store id (a <| phase := Answered r |>, g <| deferrals := remove (source a) (deferrals g) |>))).
  { intros r Hr. apply (store_ok labels id a); [done|done|done|]. apply early_ok. intros [[=]|[[=]|[i [= Hi]]]]. by destruct (Hr i). }
  destruct (receive (rx a) (deferrals g)) as [|[reason|[]]|] eqn:Er.
  - destruct timed_out; [|done]. intros [= <-]. by apply Hearly.
  - intros [= <-]. by apply Hearly.
  - intros [= <-]. set (a' := a <| phase := _ |>).
    assert (Ha' : attempt_ok labels (remove (source a) (deferrals g)) a').
    { split; [intros _; apply Ka; by right; left|]. intros _. cbn. revert Er. unfold receive.
      destruct (sent (deferrals g) !! rx a); [by intros [= ->]|case_match; discriminate]. }
    pose proof (bind_ok labels id a a' fresh _ Hg' Hid Hold Ha' (ex_intro _ _ (conj eq_refl eq_refl))) as Hb.
    destruct meshed; [|exact Hb]. destruct Hb as [K1 K2 K3 K4 K5]. by split.
  - intros [= <-]. by apply Hearly.
Qed.

Lemma verify_under_ok labels refresh f b64 n now_secs s r s' :
  (forall e, Auth.pubkey s = Some e -> fetched labels (Auth.key e)) ->
  (forall k, Auth.fetch_pubkey f = inr k -> fetched labels k) ->
  Auth.verify_under refresh f b64 n now_secs s = Some (r, s') ->
  (forall e, Auth.pubkey s' = Some e -> fetched labels (Auth.key e)) /\
  (forall t, r = inr t -> exists k, fetched labels k /\ Auth.parse_and_verify b64 n k now_secs = Some (inr t)).
Proof.
  intros Hs Hf. unfold Auth.verify_under.
  assert (Hget : match Auth.get_pubkey refresh f s with
    | (inl _, s1) => forall e, Auth.pubkey s1 = Some e -> fetched labels (Auth.key e)
    | (inr k, s1) => fetched labels k /\ forall e, Auth.pubkey s1 = Some e -> fetched labels (Auth.key e)
    end).
  { unfold Auth.get_pubkey. cbv zeta. destruct (Auth.pubkey s) as [e|] eqn:Ee.
    - destruct (negb _); [split; [by apply Hs|by rewrite Ee]|]. destruct (Auth.fetch_pubkey f) as [|k] eqn:Ef; [by rewrite Ee|].
      split; [by apply Hf|]. intros e' [= <-]. by apply Hf.
    - destruct (Auth.fetch_pubkey f) as [|k] eqn:Ef; [by rewrite Ee|]. split; [by apply Hf|]. intros e' [= <-]. by apply Hf. }
  destruct (Auth.get_pubkey refresh f s) as [[e|k] s1].
  - intros [= <- <-]. split; [done|]. intros t [=].
  - destruct Hget as [Hk Hs1]. destruct (Auth.parse_and_verify b64 n k now_secs) as [r'|] eqn:Ep; [|done]. intros [= <- <-].
    split; [done|]. intros t ->. by exists k.
Qed.

(** Nothing but the service changes. *)
Lemma with_auth_ok labels s g : gateway_ok labels g -> (forall e, Auth.pubkey s = Some e -> fetched labels (Auth.key e)) ->
  gateway_ok labels (g <| auth := s |>).
Proof. intros [K1 K2 K3 K4 K5] Hs. by split. Qed.

Lemma on_key_ok labels id refresh f instant a g ag : gateway_ok labels g -> Config.Dev.auth_bypass (Config.dev cfg) = false ->
  attempts g !! id = Some a -> phase a = Verifying refresh ->
  (forall k, Auth.fetch_pubkey f = inr k -> fetched labels k) ->
  on_key refresh f instant a g = Some ag -> gateway_ok labels (store id ag).
Proof.
  intros Hg Hb Hid Hph Hf. unfold on_key.
  destruct (Auth.verify_under refresh f (ticket a) (guid a) (now a) (auth g)) as [[r s]|] eqn:Ev; [|done]. cbn [mbind option_bind].
  destruct (verify_under_ok labels _ _ _ _ _ _ _ _ (key_fetched _ _ Hg) Hf Ev) as [Hs Hr].
  assert (Hold : forall r, phase a <> Answered r) by (intros r'; rewrite Hph; discriminate).
  assert (Hearly : forall s' p, (forall e, Auth.pubkey s' = Some e -> fetched labels (Auth.key e)) ->
    ~ past_auth (a <| phase := p |>) -> gateway_ok labels (store id (a <| phase := p |>, g <| auth := s' |>))).
  { intros s' p Hs' Hp. apply (store_ok labels id a); [by apply with_auth_ok|done|done|by apply early_ok]. }
  assert (Herr : forall t, ~ past_auth (a <| phase := Answered (ClientError t) |>)) by (intros t [[=]|[[=]|[r' [=]]]]).
  destruct r as [e|t].
  - intros Hag.
    assert (ag = (a <| phase := Verifying true |>, g <| auth := s |>) \/
      ag = (a <| phase := Answered (ClientError (Auth.error_text e)) |>, g <| auth := s |>)) as [->| ->].
    { destruct e, refresh; injection Hag as <-; auto. }
    + apply Hearly; [done|]. intros [[=]|[[=]|[r' [=]]]].
    + by apply Hearly.
  - destruct (Auth.check_reuse instant t _) as [[e|[]] used]; intros [= <-]; [by apply Hearly|].
    destruct (Hr t eq_refl) as (k & Hk & Ht).
    match goal with |- context [announce ?ids a ?g'] =>
      destruct (announce_ok labels ids a g') as (Hg2 & Ha2 & Hl) end; [by apply with_auth_ok; [apply with_auth_ok|]| |].
    { unfold authentic. rewrite Hb. by exists k, t. }
    rewrite (surjective_pairing (announce _ _ _)). apply (store_ok labels id a); [exact Hg2|by rewrite Hl|done|exact Ha2].
Qed.

(** Requests that wait for a key only exist where tickets are verified. *)
Definition no_bypass (g : Gateway) : Prop :=
  Config.Dev.auth_bypass (Config.dev cfg) = true -> forall a refresh, a ∈ attempts g -> phase a <> Verifying refresh.

Lemma insert_elem (id : nat) (a x : Attempt) (l : list Attempt) : x ∈ <[id := a]> l -> x = a \/ x ∈ l.
Proof.
  intros [j Hj]%list_elem_of_lookup. apply list_lookup_insert_Some in Hj as [(_ & <- & _)|[_ Hj]]; [by left|right].
  apply list_elem_of_lookup. by exists j.
Qed.

Lemma store_no_bypass id a g : no_bypass g -> (forall refresh, phase a <> Verifying refresh) -> no_bypass (store id (a, g)).
Proof. intros Hn Ha Hb x refresh [->|Hx]%insert_elem; [apply Ha|by apply Hn]. Qed.

Lemma begin_no_bypass headers body now_secs g : no_bypass g ->
  match begin cfg headers body now_secs g with
  | inl _ => True
  | inr (a, g') => no_bypass (g' <| attempts := attempts g' ++ [a] |>)
  end.
Proof.
  intros Hn. unfold begin. cbv zeta.
  do 5 match goal with |- context [if ?b then inl _ else _] => destruct b; [done|] end.
  destruct (Players.allocate_source (players g)) as [s d]. destruct (Config.Dev.auth_bypass (Config.dev cfg)) eqn:Eb.
  - intros _ a refresh [Ha|Ha%list_elem_of_singleton]%elem_of_app; [by apply Hn|]. subst. discriminate.
  - destruct (extract_field body "cfxTicket2"); intros Hb; congruence.
Qed.

Lemma on_outcome_phase timed_out fresh a g ag : on_outcome cfg meshed timed_out fresh a g = Some ag ->
  exists r, phase ag.1 = Answered r /\ attempts ag.2 = attempts g.
Proof.
  unfold on_outcome. destruct (receive _ _) as [|[|]|]; [destruct timed_out; [|done]| | |]; intros [= <-]; cbn; try by eexists.
  destruct meshed; by eexists.
Qed.

Lemma step_no_bypass g l g' : no_bypass g -> step cfg meshed g l = Some g' -> no_bypass g'.
Proof.
  intros Hn. destruct l as [headers body now_secs|id f instant|id ok|id timed_out fresh|id|c|headers s|s]; cbn [step].
  - pose proof (begin_no_bypass headers body now_secs g Hn) as Hb. destruct (begin _ _ _ _ _) as [r|[a g1]]; intros [= <-]; done.
  - destruct (attempts g !! id) as [a|] eqn:Ea; [|done]. cbn [mbind option_bind]. destruct (phase a) eqn:Ep; try done.
    intros _ Hb. destruct (Hn Hb a refresh (list_elem_of_lookup_2 _ _ _ Ea) Ep).
  - destruct (attempts g !! id) as [a|] eqn:Ea; [|done]. cbn [mbind option_bind]. destruct (phase a); try done. intros [= <-].
    destruct ok; apply store_no_bypass; done.
  - destruct (attempts g !! id) as [a|] eqn:Ea; [|done]. cbn [mbind option_bind]. destruct (phase a); try done.
    destruct (on_outcome _ _ _ _ a g) as [ag|] eqn:Eo; [|done]. intros [= <-]. apply on_outcome_phase in Eo as (r & Hr & Ha).
    rewrite (surjective_pairing ag). apply store_no_bypass; [|intros refresh; by rewrite Hr]. intros Hb. rewrite Ha. by apply Hn.
  - destruct (attempts g !! id) as [a|] eqn:Ea; [|done]. cbn [mbind option_bind].
    destruct (phase a); try done; intros [= <-]; by apply store_no_bypass.
  - intros [= <-]. exact Hn.
  - destruct (ControlApi.bearer_matches _ _); intros [= <-]; exact Hn.
  - intros [= <-]. exact Hn.
Qed.

Lemma gateway_step_ok labels g l g' : gateway_ok labels g -> no_bypass g -> step cfg meshed g l = Some g' -> gateway_ok (labels ++ [l]) g'.
Proof.
  intros Hg Hn Hstep.
  assert (Hw : gateway_ok (labels ++ [l]) g).
  { apply (frame_ok labels [l] g); try done; [|apply (registry_fine _ _ Hg)].
    intros e He. apply fetched_more. by apply (key_fetched _ _ Hg). }
  clear Hg. destruct l as [headers body now_secs|id f instant|id ok|id timed_out fresh|id|c|headers s|s]; cbn [step] in Hstep.
  - pose proof (begin_ok _ headers body now_secs g Hw) as Hb. destruct (begin _ _ _ _ _) as [r|[a g1]]; injection Hstep as <-; [done|].
    destruct Hb. by apply append_ok.
  - destruct (attempts g !! id) as [a|] eqn:Ea; [|done]. cbn [mbind option_bind] in Hstep. destruct (phase a) eqn:Ep; try done.
    destruct (on_key refresh f instant a g) as [ag|] eqn:Ek; [|done]. injection Hstep as <-.
    apply (on_key_ok _ id refresh f instant a g); try done.
    + destruct (Config.Dev.auth_bypass (Config.dev cfg)) eqn:Eb; [|done].
      by destruct (Hn Eb a refresh (list_elem_of_lookup_2 _ _ _ Ea)).
    + intros k Hk. exists id, f, instant. split; [|done]. apply elem_of_app. right. by left.
  - destruct (attempts g !! id) as [a|] eqn:Ea; [|done]. cbn [mbind option_bind] in Hstep. destruct (phase a) eqn:Ep; try done.
    injection Hstep as <-. by apply on_fired_ok.
  - destruct (attempts g !! id) as [a|] eqn:Ea; [|done]. cbn [mbind option_bind] in Hstep. destruct (phase a) eqn:Ep; try done.
    destruct (on_outcome _ _ _ _ a g) as [ag|] eqn:Eo; [|done]. injection Hstep as <-. by apply (on_outcome_ok _ id timed_out fresh a g).
  - destruct (attempts g !! id) as [a|] eqn:Ea; [|done]. cbn [mbind option_bind] in Hstep.
    assert (Hgone : (forall r, phase a <> Answered r) -> gateway_ok (labels ++ [Abandon id]) (store id (a <| phase := Gone |>, g))).
    { intros Hold. apply (store_ok _ id a); [done|done|done|]. apply early_ok. intros [[=]|[[=]|[r [=]]]]. }
    destruct (phase a) eqn:Ep; try done; injection Hstep as <-; by apply Hgone.
  - injection Hstep as <-. rewrite <- (app_nil_r (labels ++ [Script c])). apply (frame_ok _ [] g); cbn; try done.
    + rewrite app_nil_r. apply (key_fetched _ _ Hw).
    + apply script_call_ok, (registry_fine _ _ Hw).
    + intros n o. exact (call_sent (Scripted c) _ n o (registry_fine _ _ Hw)).
  - destruct (ControlApi.bearer_matches _ _); injection Hstep as <-; [by apply forget_ok|done].
  - injection Hstep as <-. by apply forget_ok.
Qed.

Lemma gateway_run_ok labels : forall before g g', gateway_ok before g -> no_bypass g -> run cfg meshed g labels = Some g' ->
  gateway_ok (before ++ labels) g'.
Proof.
  induction labels as [|l labels IH]; intros before g g' Hg Hn; cbn [run].
  { intros [= <-]. by rewrite app_nil_r. }
  destruct (step cfg meshed g l) as [g1|] eqn:Es; [|done]. cbn [mbind option_bind]. intros Hr.
  replace (before ++ l :: labels) with ((before ++ [l]) ++ labels) by (by rewrite <- app_assoc).
  apply (IH _ g1); [by apply (gateway_step_ok _ g)|by apply (step_no_bypass g l)|done].
Qed.

Lemma gateway_new_ok instant : gateway_ok [] (gateway_new instant).
Proof.
  split; [done|apply deferrals_new_ok| | |].
  - intros a Ha. by apply elem_of_nil in Ha.
  - intros t s Ht. change ((∅ : gmap Name Z) !! t = Some s) in Ht. by rewrite lookup_empty in Ht.
  - intros s p Hp. change ((∅ : gmap Z Players.PlayerInfo) !! s = Some p) in Hp. by rewrite lookup_empty in Hp.
Qed.

(** C7: admission. However requests, script calls, kicks and disconnections
    interleave, a token that stands for a source was issued to a request of
    that source, the outcome of whose deferral was to let it in and which was
    authentic: its identifiers are those of a ticket that verified, for the
    posted id and at the time of the post, under a key Cfx's endpoint answered,
    or, with authentication switched off ([auth_bypass], a development mode),
    those the mode gives every connection from its address. A player of the directory is that
    of such a request. *)
Theorem admission_authentic instant labels g : run cfg meshed (gateway_new instant) labels = Some g ->
  (forall t s, Players.source_for_token (players g) t = Some s -> exists a r, a ∈ attempts g /\ source a = s /\
    phase a = Answered (Accepted r) /\ token r = t /\ sent (deferrals g) !! rx a = Some (inr tt) /\ authentic labels a) /\
  (forall s p, Players.get (players g) s = Some p -> exists a, a ∈ attempts g /\ source a = s /\ p = player_of a /\
    sent (deferrals g) !! rx a = Some (inr tt) /\ authentic labels a).
Proof.
  intros Hr. assert (Hn : no_bypass (gateway_new instant)) by (intros _ a refresh Ha; by apply elem_of_nil in Ha).
  destruct (gateway_run_ok labels [] _ g (gateway_new_ok instant) Hn Hr) as [_ _ K3 K4 K5]. split.
  - intros t s Ht. destruct (K4 t s Ht) as (a & r & Hin & Hp & Hs & Hto). destruct (K3 a Hin) as [Ka Kb].
    assert (Hadm : admitted a) by (by exists r). exists a, r. split_and!; try done; [by apply Kb|apply Ka; by right; right].
  - intros s p Hp. destruct (K5 s p Hp) as (a & Hin & Hadm & Hs & He). destruct (K3 a Hin) as [Ka Kb].
    exists a. split_and!; try done; [by apply Kb|apply Ka; by right; right].
Qed.
End theorems.
End gateway.

(** ** Examples *)

#[local] Existing Instance Auth.sample_crypto.
Definition sample_json : Json := {|
  value := Z; null := 0; of_bool := fun b : bool => if b then 1 else 0; of_u64 := id; of_string := fun _ => 0;
  of_array := fun l => default 0 (head l); elem := fun v _ => Some v; field := fun _ _ => None; as_u64 := Some;
  as_f64 := fun _ => None; as_bool := fun _ => None; as_str := fun _ => None; as_array := fun _ => None; to_string := fun v => [v];
  from_str := head; rmp_to_vec := fun v => Some [v]; rmp_from_slice := head |}.
Definition sample_form : FormCodec := fun _ =>
  [(as_bytes "protocol", as_bytes "12"); (as_bytes "guid", as_bytes "7"); (as_bytes "cfxTicket2", Auth.sample_ticket)].
#[local] Existing Instances sample_json sample_form.

Definition no_headers : ControlApi.HeaderMap := {| ControlApi.authorization := None; ControlApi.x_real_ip := None |}.
Definition sample_fetch : Auth.Fetch := {| Auth.looked_at := 1; Auth.endpoint_answer := inr [5]; Auth.answered_at := 2 |}.

(** One player connects, a script holding it back for a while. *)
Definition sample_labels : list Label :=
  [Post no_headers [] 1000; Key 0 sample_fetch 3; Script (Defer 1); Fired 0 true; Script (Done 1 []); Outcome 0 false [116]].

Lemma admission_authentic_witness : exists g a r, run Config.minimal false (gateway_new 0) sample_labels = Some g /\
  Players.source_for_token (players g) [116] = Some 1 /\ a ∈ attempts g /\ phase a = Answered (Accepted r) /\ token r = [116].
Proof.
  destruct (run Config.minimal false (gateway_new 0) sample_labels) as [g|] eqn:E; [|exfalso; vm_compute in E; discriminate].
  assert (Ht : Players.source_for_token (players g) [116] = Some 1).
  { vm_compute in E. injection E as <-. vm_compute. reflexivity. }
  destruct (proj1 (admission_authentic Config.minimal false 0 sample_labels g E) [116] 1 Ht) as (a & r & Hin & _ & Hp & Hto & _).
  exists g, a, r. repeat split; [exact Ht|exact Hin|exact Hp|exact Hto].
Defined.

(** Two players on a server for one. *)
Definition crowded : Config.BastonConfig :=
  (Config.minimal <| Config.dev := {| Config.Dev.hot_reload := true; Config.Dev.auth_bypass := true |} |>)
    <| Config.server := (Config.server Config.minimal) <| Config.Server.max_players := 1 |> |>.
Example max_players_ignored :
  (Players.count ∘ players) <$> run crowded false (gateway_new 0)
    [Post no_headers [] 0; Fired 0 true; Outcome 0 false [116]; Post no_headers [] 0; Fired 1 true; Outcome 1 false [117]] = Some 2%nat.
Proof. vm_compute. reflexivity. Qed.

(** A request whose client goes away leaves its deferral behind, which nothing
    removes. *)
Example deferral_leaks :
  (is_pending 1 ∘ deferrals) <$> run crowded false (gateway_new 0) [Post no_headers [] 0; Script (Defer 1); Fired 0 true; Abandon 0] = Some true.
Proof. vm_compute. reflexivity. Qed.

(** A kick reason that was set is not what the client is told. *)
Example kick_reason_unused :
  (fmap phase ∘ attempts) <$> run crowded false (gateway_new 0)
    [Post no_headers [] 0; Script (Defer 1); Script (SetKickReason 1 (as_bytes "banned")); Fired 0 true; Outcome 0 true []] =
    Some [Answered TimedOut].
Proof. vm_compute. reflexivity. Qed.
