(* ===== verification/ScriptHost.v ===== *)
(** * The script host
      (src/crates/baston-scripting/src/{host,http_handler,runtime}.rs and
      extensions/mod.rs)

    One isolate per resource runs its scripts; the host hands each a command at
    a time and collects the replies. V8 and the scripts are a class: what the
    isolates do when they are asked something is a list of the operations they
    call, with the point where each settles its dispatch, in the order in which
    they happen. The operations and the host are definitions. The host waits for
    every reply without a timeout: a call whose dispatch never settles in some
    isolate has no result, and the caller stays where it is ([Waits]). *)

From S2P Require Import Prelude Decimal Udp Events.
From S2P Require StateBags Connection.
#[local] Open Scope Z_scope.

(** ** http_handler.rs *)

Definition HTTP_REQUEST_EVENT : Name := as_bytes "__cfx_internal:httpRequest".

Record ScriptHttpResponse := { status : Z; headers : list (Name * Name); body : Name }.

(** A waiting request is its id; what its waiter received is kept in [answers]. *)
Record HttpHandlerRegistry := {
  handlers : gset Name; pending : gset Z; next_id : Z; answers : gmap Z ScriptHttpResponse
}.
#[export] Instance HttpHandlerRegistry_rebuild : Rebuild HttpHandlerRegistry := fun r =>
  Build_HttpHandlerRegistry (handlers r) (pending r) (next_id r) (answers r).

Definition http_new : HttpHandlerRegistry := {| handlers := ∅; pending := ∅; next_id := 0; answers := ∅ |}.

Definition register (resource : Name) (r : HttpHandlerRegistry) : HttpHandlerRegistry := r <| handlers := {[resource]} ∪ handlers r |>.
Definition unregister (resource : Name) (r : HttpHandlerRegistry) : HttpHandlerRegistry := r <| handlers := handlers r ∖ {[resource]} |>.
Definition has_handler (r : HttpHandlerRegistry) (resource : Name) : bool := bool_decide (resource ∈ handlers r).

(** The loop of [begin] skips id 0, so it runs at most twice. *)
Definition begin (r : HttpHandlerRegistry) : Z * HttpHandlerRegistry :=
  let id := if next_id r =? 0 then 1 else next_id r in
  (id, (r <| next_id := u32 (id + 1) |>) <| pending := {[id]} ∪ pending r |>).

Definition complete (id : Z) (response : ScriptHttpResponse) (r : HttpHandlerRegistry) : bool * HttpHandlerRegistry :=
  if bool_decide (id ∈ pending r) then
    (true, (r <| pending := pending r ∖ {[id]} |>) <| answers := <[id := response]> (answers r) |>)
  else (false, r).

Definition abandon (id : Z) (r : HttpHandlerRegistry) : HttpHandlerRegistry := r <| pending := pending r ∖ {[id]} |>.
Definition pending_count (r : HttpHandlerRegistry) : nat := size (pending r).

(** ** The state of an isolate and of the host *)

Abbreviation QueuedEvents := (list (Name * Name)).

Inductive ScriptError :=
| RuntimeInit (resource message : Name)
| Execute (resource script message : Name)
| HostGone
| HostStart (why : Name)
| ResourceNotLoaded (name : Name).

Record ScriptSource := { path : Name; code : Name }.

Record RuntimeContext := {
  queued_events : QueuedEvents; handled_events : gset Name; exports : gset Name; commands : gmap Name bool;
  has_zone_transfer_state : bool; collected_transfer_state : option Name; handler_errors : Z
}.
#[export] Instance RuntimeContext_rebuild : Rebuild RuntimeContext := fun c =>
  Build_RuntimeContext (queued_events c) (handled_events c) (exports c) (commands c) (has_zone_transfer_state c)
    (collected_transfer_state c) (handler_errors c).

Definition context_new : RuntimeContext :=
  {| queued_events := []; handled_events := ∅; exports := ∅; commands := ∅; has_zone_transfer_state := false;
     collected_transfer_state := None; handler_errors := 0 |}.

Inductive RuntimeCommand :=
| DispatchEvent (event args_json : Name)
| DispatchPlayerConnecting (source : Z) (player_name : Name)
| DispatchNetEvent (event : Name) (source : Z) (args_json : Name)
| DispatchCommand (command : Name) (source : Z) (args : list Name) (raw : Name)
| CollectTransferState (source : Z)
| DispatchStateBagChanges.

Section host.
Context `{Json}.

(** [published] is what was handed to the cross-zone publisher, [asked] the
    commands broadcast to the isolates and the events each brought back, oldest
    first. *)
Record ScriptHost := {
  runtimes : gmap Name RuntimeContext; deferrals : Connection.DeferralRegistry;
  state_bags : StateBags.StateBagStore value; http_handlers : HttpHandlerRegistry;
  cross_zone : bool; published : QueuedEvents; asked : list (RuntimeCommand * QueuedEvents)
}.
#[export] Instance ScriptHost_rebuild : Rebuild ScriptHost := fun h =>
  Build_ScriptHost (runtimes h) (deferrals h) (state_bags h) (http_handlers h) (cross_zone h) (published h) (asked h).

Definition spawn : ScriptHost :=
  {| runtimes := ∅; deferrals := Connection.deferrals_new; state_bags := StateBags.store_default; http_handlers := http_new;
     cross_zone := false; published := []; asked := [] |}.

Definition set_cross_zone_publisher (h : ScriptHost) : ScriptHost := h <| cross_zone := true |>.

(** ** The operations of the scripts (extensions/mod.rs) *)

(** [SetStateBag] is the native SET_STATE_BAG_VALUE. *)
Inductive ScriptOp :=
| AddEventHandler (event : Name)
| RegisterCommand (name : Name) (restricted : bool)
| TriggerEvent (event args_json : Name)
| ReportHandlerError
| AddStateBagChangeHandler (key_filter bag_filter : Name) (callback : Z)
| RemoveStateBagChangeHandler (cookie : Z)
| PollStateBagChanges
| AddExport (name : Name)
| SetStateBag (b k : Name) (v : value) (repl : bool)
| DeferralCall (c : Connection.ScriptCall)
| RegisterZoneTransferState
| ReportZoneTransferState (json : Name)
| SetHttpHandler
| HttpResponse (id : Z) (response : ScriptHttpResponse).

(** What the isolates do. [order] and [handler_order] are the orders in which
    the hash maps are walked. *)
Class Isolates := {
  order : gmap Name RuntimeContext -> list Name;
  handler_order : gmap Z StateBags.Handler -> list StateBags.Handler;
  create : Name -> option ScriptError;
  load_script : Name -> ScriptSource -> ScriptHost -> list ScriptOp * option ScriptError;
  run : RuntimeCommand -> ScriptHost -> list (Name * (ScriptOp + option ScriptError))
}.

Class IsolatesLaws `{Isolates} := {
  order_keys : forall m, order m ≡ₚ (map_to_list m).*1;
  handler_order_values : forall m, handler_order m ≡ₚ (map_to_list m).*2
}.

Context `{Isolates}.

Definition MAX_DELIVERIES_PER_POLL : nat := Z.to_nat 4096.

(** An operation called by the isolate of [r], whose context is given apart. *)
Definition apply_op (r : Name) (op : ScriptOp) (ch : RuntimeContext * ScriptHost) : RuntimeContext * ScriptHost :=
  let '(ctx, h) := ch in
  match op with
  | AddEventHandler event => (ctx <| handled_events := {[event]} ∪ handled_events ctx |>, h)
  | RegisterCommand name restricted => (ctx <| commands := <[name := restricted]> (commands ctx) |>, h)
  | TriggerEvent event args_json => (ctx <| queued_events := queued_events ctx ++ [(event, args_json)] |>, h)
  | ReportHandlerError => (ctx <| handler_errors := handler_errors ctx + 1 |>, h)
  | AddStateBagChangeHandler key_filter bag_filter callback =>
      (ctx, h <| state_bags := (StateBags.add_handler r (Some key_filter) (Some bag_filter) callback (state_bags h)).2 |>)
  | RemoveStateBagChangeHandler cookie => (ctx, h <| state_bags := (StateBags.remove_handler r cookie (state_bags h)).2 |>)
  | PollStateBagChanges =>
      (ctx, h <| state_bags := (StateBags.drain_deliveries r MAX_DELIVERIES_PER_POLL (state_bags h)).2 |>)
  | AddExport name => (ctx <| exports := {[name]} ∪ exports ctx |>, h)
  | SetStateBag b k v repl =>
      (ctx, h <| state_bags := (StateBags.set_value (handler_order (StateBags.handlers (state_bags h))) b k v repl
                                 (StateBags.source_resource r) (state_bags h)).2 |>)
  | DeferralCall c => (ctx, h <| deferrals := Connection.script_call c (deferrals h) |>)
  | RegisterZoneTransferState => (ctx <| has_zone_transfer_state := true |>, h)
  | ReportZoneTransferState json => (ctx <| collected_transfer_state := Some json |>, h)
  | SetHttpHandler => (ctx, h <| http_handlers := register r (http_handlers h) |>)
  | HttpResponse id response => (ctx, h <| http_handlers := (complete id response (http_handlers h)).2 |>)
  end.

(** ** A command to every isolate *)

(** [finish_dispatch], and the reply: the queue is drained unless the dispatch
    failed. *)
Definition settle (error : option ScriptError) (ctx : RuntimeContext) : (ScriptError + QueuedEvents) * RuntimeContext :=
  let ctx := ctx <| handler_errors := 0 |> in
  match error with
  | Some e => (inl e, ctx)
  | None => (inr (queued_events ctx), ctx <| queued_events := [] |>)
  end.

Abbreviation Replies := (gmap Name (ScriptError + QueuedEvents)).

(** One thing an isolate does; a dispatch settles once. *)
Definition step_isolate (hr : ScriptHost * Replies) (s : Name * (ScriptOp + option ScriptError)) : ScriptHost * Replies :=
  let '(h, replies) := hr in
  match runtimes h !! s.1 with
  | None => (h, replies)
  | Some ctx =>
      match s.2 with
      | inl op => let '(ctx, h) := apply_op s.1 op (ctx, h) in (h <| runtimes := <[s.1 := ctx]> (runtimes h) |>, replies)
      | inr error =>
          if is_some (replies !! s.1) then (h, replies)
          else let '(reply, ctx) := settle error ctx in
               (h <| runtimes := <[s.1 := ctx]> (runtimes h) |>, <[s.1 := reply]> replies)
      end
  end.

(** [start_command_dispatch] of a resource without the command: an empty reply. *)
Definition unhandled (c : RuntimeCommand) (m : gmap Name RuntimeContext) : Replies :=
  match c with
  | DispatchCommand command _ _ _ => (fun _ => inr []) <$> filter (fun rc => commands rc.2 !! command = None) m
  | _ => ∅
  end.

(** An error is logged. *)
Definition collect (replies : list (ScriptError + QueuedEvents)) : QueuedEvents :=
  replies ≫= fun r => match r with inr q => q | inl _ => [] end.

(** A call of the host: its result, or [None] when it waits for a reply that
    never comes; and the host as it is then. *)
Abbreviation Waits A := (option A * ScriptHost)%type.

(** [begin] of every isolate, then every reply in the order of the map, of
    which the events are kept. An isolate that is gone answers [HostGone]; one
    whose dispatch never settles does not answer. *)
Definition round (c : RuntimeCommand) (h : ScriptHost) : Waits QueuedEvents :=
  let '(h', replies) := foldl step_isolate (h, unhandled c (runtimes h)) (run c h) in
  let queued := collect <$> mapM (fun r => replies !! r) (order (runtimes h)) in
  (queued, h' <| asked := asked h' ++ [(c, default [] queued)] |>).

Definition pending_deliveries (s : StateBags.StateBagStore value) : nat :=
  list_sum ((fun kq => length kq.2) <$> map_to_list (StateBags.pending s)).

Definition MAX_CALLBACK_ROUNDS : nat := 64.

Fixpoint callback_rounds (n : nat) (queued : QueuedEvents) (h : ScriptHost) : Waits QueuedEvents :=
  match n with
  | O => (Some queued, h)
  | S n =>
      if (pending_deliveries (state_bags h) =? 0)%nat then (Some queued, h)
      else match round DispatchStateBagChanges h with
           | (None, h) => (None, h)
           | (Some more, h) => callback_rounds n (queued ++ more) h
           end
  end.

Definition flush_state_bag_callbacks (h : ScriptHost) : Waits QueuedEvents := callback_rounds MAX_CALLBACK_ROUNDS [] h.

(** ** Events *)

Definition is_zone_local_event (event : Name) : bool :=
  starts_with (as_bytes "onResource") event || starts_with (as_bytes "player") event
  || starts_with (as_bytes "__baston") event || bool_decide (event = as_bytes "onEntityOwnerChanged").

Definition MAX_EVENT_CHAIN : nat := 64.

Definition publish (e : Name * Name) (h : ScriptHost) : ScriptHost :=
  if cross_zone h then h <| published := published h ++ [e] |> else h.

(** [while let Some((event, args_json)) = pending.pop_front()]; [None] is fuel
    exhaustion. *)
Fixpoint chain (turns dispatched : nat) (publish_entry : bool) (pending : QueuedEvents) (h : ScriptHost) : option (Waits unit) :=
  match pending, turns with
  | [], _ => Some (Some tt, h)
  | _, O => None
  | (event, args_json) :: pending, S turns =>
      let dispatched := S dispatched in
      let is_remote_entry := (dispatched =? 1)%nat && negb publish_entry in
      let h := if negb is_remote_entry && negb (is_zone_local_event event) then publish (event, args_json) h else h in
      if (MAX_EVENT_CHAIN <? dispatched)%nat then Some (Some tt, h)
      else
        match round (DispatchEvent event args_json) h with
        | (None, h) => Some (None, h)
        | (Some queued, h) =>
            match flush_state_bag_callbacks h with
            | (None, h) => Some (None, h)
            | (Some more, h) => chain turns dispatched publish_entry ((pending ++ queued) ++ more) h
            end
        end
  end.

(** The default is never used ([event_chain_bounded]). *)
Definition broadcast_chain_inner (event args_json : Name) (publish_entry : bool) (h : ScriptHost) : Waits unit :=
  default (Some tt, h) (chain (S MAX_EVENT_CHAIN) 0 publish_entry [(event, args_json)] h).

Definition broadcast_chain (event args_json : Name) (h : ScriptHost) : Waits unit := broadcast_chain_inner event args_json true h.

Fixpoint rebroadcast (queued : QueuedEvents) (h : ScriptHost) : Waits unit :=
  match queued with
  | [] => (Some tt, h)
  | (event, args_json) :: queued =>
      match broadcast_chain event args_json h with (None, h) => (None, h) | (Some _, h) => rebroadcast queued h end
  end.

Definition args_text (args : list value) : Name := to_string (of_array args).

Definition trigger_event (event : Name) (args : list value) (h : ScriptHost) : Waits unit := broadcast_chain event (args_text args) h.

Definition trigger_remote_event (event args_json : Name) (h : ScriptHost) : Waits unit :=
  broadcast_chain_inner event args_json false h.

(** To one resource: what it replies; the others may run meanwhile. *)
Definition send (resource : Name) (c : RuntimeCommand) (h : ScriptHost) : Waits (ScriptError + QueuedEvents) :=
  let '(h', replies) := foldl step_isolate (h, ∅) (run c h) in (replies !! resource, h').

Definition trigger_event_on (resource event : Name) (args : list value) (h : ScriptHost) : Waits (ScriptError + unit) :=
  match runtimes h !! resource with
  | None => (Some (inr tt), h)
  | Some _ =>
      match send resource (DispatchEvent event (args_text args)) h with
      | (None, h) => (None, h)
      | (Some (inl e), h) => (Some (inl e), h)
      | (Some (inr queued), h) => let '(r, h) := rebroadcast queued h in (inr <$> r, h)
      end
  end.

(** The broadcasts that are not chains: a round, then what it queued. *)
Definition broadcast_once (c : RuntimeCommand) (h : ScriptHost) : Waits unit :=
  match round c h with
  | (None, h) => (None, h)
  | (Some queued, h) =>
      match rebroadcast queued h with
      | (None, h) => (None, h)
      | (Some _, h) => match flush_state_bag_callbacks h with (None, h) => (None, h) | (Some more, h) => rebroadcast more h end
      end
  end.

Definition trigger_net_event (event : Name) (source : Z) (args : value) (h : ScriptHost) : Waits unit :=
  broadcast_once (DispatchNetEvent event source (to_string args)) h.

Definition fire_player_connecting (source : Z) (player_name : Name) (h : ScriptHost) : Waits unit :=
  match broadcast_once (DispatchPlayerConnecting source player_name) h with
  | (None, h) => (None, h)
  | (Some _, h) => (Some tt, h <| deferrals := Connection.resolve_if_not_deferred source (deferrals h) |>)
  end.

Definition execute_command (command : Name) (source : Z) (args : list Name) (raw : Name) (h : ScriptHost) : Waits unit :=
  broadcast_once (DispatchCommand command source args raw) h.

(** The collector of a resource is synchronous: nothing of its queue is drained. *)
Definition is_op (s : Name * (ScriptOp + option ScriptError)) : bool := match s.2 with inl _ => true | inr _ => false end.

Definition failed (r : Name) (steps : list (Name * (ScriptOp + option ScriptError))) : bool :=
  existsb (fun s => bool_decide (s.1 = r) && match s.2 with inr (Some _) => true | _ => false end) steps.

Definition set_context (r : Name) (f : RuntimeContext -> RuntimeContext) (h : ScriptHost) : ScriptHost :=
  h <| runtimes := alter f r (runtimes h) |>.

Definition collect_from (source : Z) (oh : gmap Name Name * ScriptHost) (r : Name) : gmap Name Name * ScriptHost :=
  let '(out, h) := oh in
  match runtimes h !! r with
  | None => (out, h)
  | Some ctx =>
      if negb (has_zone_transfer_state ctx) then (out, h)
      else
        let h := set_context r (fun ctx => ctx <| collected_transfer_state := None |>) h in
        let steps := run (CollectTransferState source) h in
        let h := (foldl step_isolate (h, ∅) (List.filter is_op steps)).1 in
        let h := set_context r (fun ctx => ctx <| handler_errors := 0 |>) h in
        if failed r steps then (out, h)
        else
          let collected := runtimes h !! r ≫= collected_transfer_state in
          (match collected with Some json => <[r := json]> out | None => out end,
           set_context r (fun ctx => ctx <| collected_transfer_state := None |>) h)
  end.

Definition collect_zone_transfer_state (source : Z) (h : ScriptHost) : gmap Name Name * ScriptHost :=
  foldl (collect_from source) (∅, h) (order (runtimes h)).

(** ** Loading and unloading *)

(** [ExecuteScripts]: each script to idle, up to the first that fails. That a
    script comes to idle is part of the class ([load_script] answers). *)
Fixpoint execute_scripts (name : Name) (scripts : list ScriptSource) (ch : RuntimeContext * ScriptHost)
    : option ScriptError * (RuntimeContext * ScriptHost) :=
  match scripts with
  | [] => (None, ch)
  | script :: rest =>
      let '(ops, error) := load_script name script ch.2 in
      let '(ctx, h) := foldl (fun ch op => apply_op name op ch) ch ops in
      let ch := (ctx <| handler_errors := 0 |>, h) in
      match error with Some e => (Some e, ch) | None => execute_scripts name rest ch end
  end.

(** What loading and unloading a resource forget of it. *)
Definition forget (name : Name) (h : ScriptHost) : ScriptHost :=
  ((h <| runtimes := delete name (runtimes h) |>) <| state_bags := StateBags.cleanup_resource name (state_bags h) |>)
    <| http_handlers := unregister name (http_handlers h) |>.

Definition load_resource (name : Name) (scripts : list ScriptSource) (h : ScriptHost) : Waits (ScriptError + unit) :=
  let h := forget name h in
  match create name with
  | Some e => (Some (inl e), h)
  | None =>
      let '(error, (ctx, h)) := execute_scripts name scripts (context_new, h) in
      match error with
      | Some e => (Some (inl e), h)
      | None =>
          let h := h <| runtimes := <[name := ctx <| queued_events := [] |>]> (runtimes h) |> in
          match flush_state_bag_callbacks h with
          | (None, h) => (None, h)
          | (Some more, h) =>
              match rebroadcast (queued_events ctx ++ more) h with
              | (None, h) => (None, h)
              | (Some _, h) =>
                  let '(r, h) := trigger_event (as_bytes "onResourceStart") [of_string name] h in
                  (inr <$> r, h)
              end
          end
      end
  end.

Definition unload_resource (name : Name) (h : ScriptHost) : Waits (ScriptError + unit) :=
  match runtimes h !! name with
  | None => (Some (inl (ResourceNotLoaded name)), h)
  | Some _ =>
      match trigger_event (as_bytes "onResourceStop") [of_string name] h with
      | (None, h) => (None, h)
      | (Some _, h) => (Some (inr tt), forget name h)
      end
  end.
End host.

(** ** What a round leaves alone *)

Section theorems.
Context `{Isolates}.
Implicit Types h : ScriptHost.

#[local] Arguments apply_op : simpl never.
#[local] Arguments settle : simpl never.

(** Everything but the contexts' contents, the deferrals and the stores of the scripts. *)
Definition same_frame h h' : Prop :=
  published h' = published h /\ cross_zone h' = cross_zone h /\ dom (runtimes h') = dom (runtimes h).

#[local] Instance same_frame_preorder : PreOrder same_frame.
Proof. split; [by intros h|]. intros h1 h2 h3 (? & ? & ?) (? & ? & ?). split_and!; congruence. Qed.

Lemma apply_op_frame r op ctx h : let ch := apply_op r op (ctx, h) in
  published ch.2 = published h /\ cross_zone ch.2 = cross_zone h /\ runtimes ch.2 = runtimes h /\ asked ch.2 = asked h.
Proof. by destruct op. Qed.

Lemma step_frame hr s : same_frame hr.1 (step_isolate hr s).1 /\ asked (step_isolate hr s).1 = asked hr.1.
Proof.
  destruct hr as [h replies], s as [r what]. unfold step_isolate. cbn. destruct (runtimes h !! r) as [ctx|] eqn:E; [|done].
  assert (Hd : forall ctx', dom (<[r := ctx']> (runtimes h)) = dom (runtimes h)).
  { intros. apply elem_of_dom_2 in E. rewrite dom_insert_L. set_solver. }
  destruct what as [op|error].
  - pose proof (apply_op_frame r op ctx h) as Hf. destruct (apply_op r op (ctx, h)) as [ctx' h']. cbn in *.
    destruct Hf as (? & ? & Hr & ?). unfold same_frame. cbn. rewrite Hr. by split_and!.
  - destruct (is_some _); [done|]. destruct (settle error ctx) as [reply ctx']. cbn. unfold same_frame. cbn. by split_and!.
Qed.

Lemma steps_frame steps : forall hr, same_frame hr.1 (foldl step_isolate hr steps).1 /\ asked (foldl step_isolate hr steps).1 = asked hr.1.
Proof.
  induction steps as [|s steps IH]; intros hr; [done|]. cbn [foldl]. destruct (step_frame hr s) as [Hs Ha], (IH (step_isolate hr s)) as [Hi Hb].
  split; [by etransitivity|congruence].
Qed.

Lemma round_frame c h : same_frame h (round c h).2 /\ asked (round c h).2 = asked h ++ [(c, default [] (round c h).1)].
Proof.
  unfold round. pose proof (steps_frame (run c h) (h, unhandled c (runtimes h))) as [Hf Ha].
  destruct (foldl _ _ _) as [h' replies]. cbn in Hf, Ha |- *. split; [exact Hf|by rewrite Ha].
Qed.

(** The caller waits in the round that is the last of the log. *)
Definition stuck (log : list (RuntimeCommand * QueuedEvents)) h' : Prop :=
  exists c h0, last log = Some (c, []) /\ round c h0 = (None, h').

Lemma stuck_cons l log h' : stuck log h' -> stuck (l :: log) h'.
Proof. intros (c & h0 & Hl & Hr). exists c, h0. split; [|done]. by destruct log. Qed.

Lemma stuck_app l log h' : stuck log h' -> stuck (l ++ log) h'.
Proof. intros Hs. induction l as [|x l IH]; [done|]. by apply stuck_cons. Qed.

(** No dispatch stays without an answer. *)
Definition settling : Prop := forall c h, is_Some (round c h).1.

Lemma callback_rounds_frame n : forall queued h, exists log,
  let r := callback_rounds n queued h in
  same_frame h r.2 /\ asked r.2 = asked h ++ log /\ (length log <= n)%nat /\
  Forall (fun l => l.1 = DispatchStateBagChanges) log /\
  match r.1 with Some all => all = queued ++ concat log.*2 | None => stuck log r.2 /\ ~ settling end.
Proof.
  induction n as [|n IH]; intros queued h; cbn [callback_rounds].
  { exists []. rewrite !app_nil_r. by split_and!. }
  destruct (Nat.eqb_spec (pending_deliveries (state_bags h)) 0); [exists []; rewrite !app_nil_r; split_and!; [done|done|cbn; lia|done|done]|].
  destruct (round_frame DispatchStateBagChanges h) as [Hf Ha]. destruct (round DispatchStateBagChanges h) as [[more|] h1] eqn:E.
  2: { exists [(DispatchStateBagChanges, [])]. cbn in Ha |- *. split_and!; [done|done|lia|by apply Forall_singleton|by eexists _, _|].
       intros Hs. destruct (Hs DispatchStateBagChanges h) as [x Hx]. by rewrite E in Hx. }
  destruct (IH (queued ++ more) h1) as (log & Hf1 & Ha1 & Hl & Hc & Hq). exists ((DispatchStateBagChanges, more) :: log).
  cbn in *. split_and!; [by etransitivity| |lia|by constructor|].
  - rewrite Ha1, Ha, <- app_assoc. done.
  - destruct (callback_rounds n _ h1) as [[all|] h2]; cbn in *.
    + by rewrite Hq, <- app_assoc.
    + destruct Hq. split; [by apply stuck_cons|done].
Qed.

(** ** Chains of events *)

Definition dispatched_event (l : RuntimeCommand * QueuedEvents) : option (Name * Name) :=
  match l.1 with DispatchEvent event args => Some (event, args) | _ => None end.
Definition events_of (log : list (RuntimeCommand * QueuedEvents)) : QueuedEvents := omap dispatched_event log.

Lemma callbacks_no_events log : Forall (fun l => l.1 = DispatchStateBagChanges) log -> events_of log = [].
Proof. induction 1 as [|[c q] log Hc _ IH]; [done|]. cbn in *. by rewrite Hc. Qed.

Definition mirrored (e : Name * Name) : bool := negb (is_zone_local_event e.1).

Lemma publish_frame e h : asked (publish e h) = asked h /\ cross_zone (publish e h) = cross_zone h.
Proof. unfold publish. by destruct (cross_zone h) eqn:E. Qed.

Lemma publish_published e h : published (publish e h) = published h ++ (if cross_zone h then [e] else []).
Proof. unfold publish. destruct (cross_zone h); [done|]. by rewrite app_nil_r. Qed.

(** What a chain publishes of the events it has popped. *)
Definition to_siblings (on : bool) (popped : QueuedEvents) : QueuedEvents := if on then List.filter mirrored popped else [].

Lemma to_siblings_cons on e popped : to_siblings on (e :: popped) = (if mirrored e then if on then [e] else [] else []) ++ to_siblings on popped.
Proof. unfold to_siblings. destruct on; cbn; by destruct (mirrored e). Qed.

Lemma chain_spec turns : forall dispatched pe pending h, (dispatched <= MAX_EVENT_CHAIN)%nat -> (dispatched + turns = S MAX_EVENT_CHAIN)%nat ->
  exists popped rest log r h', chain turns dispatched pe pending h = Some (r, h') /\
    popped ++ rest = pending ++ concat log.*2 /\ asked h' = asked h ++ log /\
    published h' = published h ++ to_siblings (cross_zone h) (if (dispatched =? 0)%nat && negb pe then tail popped else popped) /\
    events_of log = take (MAX_EVENT_CHAIN - dispatched) popped /\ (length log <= S MAX_CALLBACK_ROUNDS * length (events_of log))%nat /\
    (dispatched + length popped <= S MAX_EVENT_CHAIN)%nat /\
    match r with
    | Some _ => rest = [] \/ (dispatched + length popped = S MAX_EVENT_CHAIN)%nat
    | None => stuck log h' /\ ~ settling
    end.
Proof.
  induction turns as [|turns IH]; intros dispatched pe pending h Hd Ht; [lia|]. cbn [chain]. destruct pending as [|[event args] pending].
  { exists [], [], [], (Some tt), h. split_and!; [done|done|by rewrite app_nil_r| |by rewrite take_nil|cbn [length]; lia|cbn [length]; lia|by left].
    unfold to_siblings. destruct (_ && _), (cross_zone h); cbn; by rewrite app_nil_r. }
  cbv zeta. set (entry := (S dispatched =? 1)%nat && negb pe).
  set (h0 := if negb entry && negb (is_zone_local_event event) then publish (event, args) h else h).
  assert (Hh0 : asked h0 = asked h /\ cross_zone h0 = cross_zone h /\
    published h0 = published h ++ to_siblings (cross_zone h) (if entry then [] else [(event, args)])).
  { unfold h0, to_siblings. destruct (publish_frame (event, args) h) as [? ?]. change (S dispatched =? 1)%nat with (dispatched =? 0)%nat in *.
    destruct entry; cbn [negb andb]; [split_and!; [done|done|destruct (cross_zone h); cbn; by rewrite app_nil_r]|].
    unfold mirrored. cbn. destruct (is_zone_local_event event) eqn:El; cbn.
    - split_and!; [done|done|destruct (cross_zone h); by rewrite app_nil_r].
    - split_and!; [done|done|apply publish_published]. }
  destruct Hh0 as (Ha0 & Hc0 & Hp0). clearbody h0.
  assert (Hp1 : forall p, p = published h0 -> p = published h ++ to_siblings (cross_zone h) (if (dispatched =? 0)%nat && negb pe then tail [(event, args)] else [(event, args)])).
  { intros p ->. rewrite Hp0. unfold entry. change (S dispatched =? 1)%nat with (dispatched =? 0)%nat. by destruct (_ && _). }
  destruct (Nat.ltb_spec MAX_EVENT_CHAIN (S dispatched)) as [Hlast|Hmore].
  - exists [(event, args)], pending, [], (Some tt), h0.
    split_and!; [done|cbn; by rewrite app_nil_r|by rewrite app_nil_r, Ha0|by apply Hp1| |cbn [length]; lia|cbn [length]; lia|right; cbn [length]; lia].
    by replace (MAX_EVENT_CHAIN - dispatched)%nat with O by lia.
  - assert (Htake : [(event, args)] = take (MAX_EVENT_CHAIN - dispatched) [(event, args)])
      by (replace (MAX_EVENT_CHAIN - dispatched)%nat with (S (MAX_EVENT_CHAIN - S dispatched)) by lia; cbn [take]; by rewrite take_nil).
    destruct (round_frame (DispatchEvent event args) h0) as [(Hpr & Hcr & _) Har].
    destruct (round (DispatchEvent event args) h0) as [[queued|] h1] eqn:Er; cbn [fst snd] in *.
    2: { exists [(event, args)], pending, [(DispatchEvent event args, [])], None, h1.
         split_and!; [done|cbn; by rewrite app_nil_r|by rewrite Har, Ha0|by apply Hp1|done|cbn; lia|cbn [length]; lia|by eexists _, _|].
         intros Hs. destruct (Hs (DispatchEvent event args) h0) as [x Hx]. by rewrite Er in Hx. }
    destruct (callback_rounds_frame MAX_CALLBACK_ROUNDS [] h1) as (log1 & (Hpf & Hcf & _) & Haf & Hl1 & Hcb & Hmf). unfold flush_state_bag_callbacks in *.
    assert (Hev1 : forall log, events_of ((DispatchEvent event args, queued) :: log1 ++ log) = (event, args) :: events_of log).
    { intros log. unfold events_of. cbn. rewrite omap_app. fold (events_of log1). by rewrite (callbacks_no_events _ Hcb). }
    destruct (callback_rounds MAX_CALLBACK_ROUNDS [] h1) as [[more|] h2]; cbn [fst snd app] in *.
    2: { destruct Hmf as [Hst Hns]. exists [(event, args)], (pending ++ queued ++ concat log1.*2), ((DispatchEvent event args, queued) :: log1), None, h2.
         specialize (Hev1 []). rewrite app_nil_r in Hev1.
         split_and!; [done|done|by rewrite Haf, Har, Ha0, <- app_assoc|apply Hp1; congruence|by rewrite Hev1|rewrite Hev1; cbn [length events_of omap]; lia|cbn [length]; lia| |done].
         by apply stuck_cons. }
    destruct (IH (S dispatched) pe ((pending ++ queued) ++ more) h2) as (popped & rest & log & r & h' & Hch & Hpop & Has & Hpub & Hev & Hlen & Hle & Hcase); [lia|lia|].
    specialize (Hev1 log).
    exists ((event, args) :: popped), rest, ((DispatchEvent event args, queued) :: log1 ++ log), r, h'. split_and!; [done| | | | | | |].
    + cbn. rewrite Hpop, fmap_app, concat_app, Hmf, <- !app_assoc. done.
    + rewrite Has, Haf, Har, Ha0, <- !app_assoc. done.
    + rewrite Hpub, Hpf, Hpr, Hp0, Hcf, Hcr, Hc0, <- app_assoc. f_equal. cbn [Nat.eqb andb].
      unfold entry. change (S dispatched =? 1)%nat with (dispatched =? 0)%nat. unfold to_siblings.
      destruct (_ && _), (cross_zone h); cbn [tail]; try done. cbn. by destruct (mirrored (event, args)).
    + rewrite Hev1, Hev. by replace (MAX_EVENT_CHAIN - dispatched)%nat with (S (MAX_EVENT_CHAIN - S dispatched)) by lia.
    + rewrite Hev1. cbn [length]. rewrite length_app. lia.
    + cbn [length]. lia.
    + destruct r; cbn [length]; [destruct Hcase as [->|?]; [by left|right; lia]|].
      destruct Hcase as [Hst Hns]. split; [by apply (stuck_app (_ :: log1))|done].
Qed.

(** C33: event chains. An event that is triggered costs at most 64 dispatches
    and 4,160 rounds, whatever the scripts do. What is dispatched is the event
    and then, in order and once each, the events the rounds have brought back;
    what is published to the sibling zones is the events taken up that may
    leave the zone, without the entry when it came from a sibling. The call
    returns when the queue is empty or with the 65th event, which it drops with
    the rest; if the isolates settle every dispatch it does return, and the
    only other case is that it waits for ever in the round it has asked last,
    since the host sets no deadline for an answer. *)
Theorem event_chain_bounded event args pe h : exists popped rest log,
  let '(r, h') := broadcast_chain_inner event args pe h in
  asked h' = asked h ++ log /\ (length log <= 4160)%nat /\
  events_of log = take 64 popped /\ popped ++ rest = (event, args) :: concat log.*2 /\ (length popped <= 65)%nat /\
  published h' = published h ++ to_siblings (cross_zone h) (if pe then popped else tail popped) /\
  match r with
  | Some _ => rest = [] \/ length popped = 65%nat
  | None => stuck log h' /\ ~ settling
  end.
Proof.
  destruct (chain_spec (S MAX_EVENT_CHAIN) 0 pe [(event, args)] h) as (popped & rest & log & r & h' & Hc & Hp & Ha & Hpub & He & Hl & Hle & Hcase);
    [lia|lia|]. exists popped, rest, log. unfold broadcast_chain_inner. rewrite Hc. cbn [default].
  change (MAX_EVENT_CHAIN - 0)%nat with 64%nat in *. split_and!; try done.
  - assert (length (events_of log) <= 64)%nat by (rewrite He, length_take; lia). unfold MAX_CALLBACK_ROUNDS in *. lia.
  - rewrite Hpub. by destruct pe.
Qed.

(** ** What every operation of the host keeps *)

(** A property of the host that no single thing an isolate does breaks. *)
Class Kept (I : ScriptHost -> Prop) := {
  kept_step : forall c h0 hr s, s ∈ run c h0 -> I hr.1 -> I (step_isolate hr s).1;
  kept_log : forall h l, I h -> I (h <| asked := l |>);
  kept_publish : forall e h, I h -> I (publish e h)
}.

Section kept.
Context (I : ScriptHost -> Prop) `{!Kept I}.

Lemma steps_kept c h0 steps : (forall s, s ∈ steps -> s ∈ run c h0) -> forall hr, I hr.1 -> I (foldl step_isolate hr steps).1.
Proof.
  induction steps as [|s steps IH]; intros Hs hr Hi; [done|]. cbn [foldl].
  apply IH; [intros; apply Hs; by right|]. apply (kept_step c h0); [apply Hs; by left|done].
Qed.

Lemma round_kept c h : I h -> I (round c h).2.
Proof.
  intros Hi. unfold round. pose proof (steps_kept c h (run c h) (fun _ x => x) (h, unhandled c (runtimes h)) Hi) as Hk.
  destruct (foldl _ _ _) as [h' replies]. by apply kept_log.
Qed.

Lemma callback_rounds_kept n : forall queued h, I h -> I (callback_rounds n queued h).2.
Proof.
  induction n as [|n IH]; intros queued h Hi; cbn [callback_rounds]; [done|]. destruct (_ =? 0)%nat; [done|].
  pose proof (round_kept DispatchStateBagChanges h Hi). destruct (round _ h) as [[more|] h']; [by apply IH|done].
Qed.

Lemma chain_kept turns : forall dispatched pe pending h r, I h -> chain turns dispatched pe pending h = Some r -> I r.2.
Proof.
  induction turns as [|turns IH]; intros dispatched pe [|[event args] pending] h r Hi; cbn [chain]; try (by intros [= <-]).
  cbv zeta. set (h0 := if _ && _ then publish _ h else h). assert (H0' : I h0) by (unfold h0; destruct (_ && _); [by apply kept_publish|done]).
  clearbody h0. destruct (_ <? _)%nat; [by intros [= <-]|]. pose proof (round_kept (DispatchEvent event args) h0 H0') as H1.
  destruct (round _ h0) as [[queued|] h1]; [|by intros [= <-]]. unfold flush_state_bag_callbacks.
  pose proof (callback_rounds_kept MAX_CALLBACK_ROUNDS [] h1 H1) as H2.
  destruct (callback_rounds _ [] h1) as [[more|] h2]; [by apply IH|by intros [= <-]].
Qed.

Lemma broadcast_kept event args pe h : I h -> I (broadcast_chain_inner event args pe h).2.
Proof. intros Hi. unfold broadcast_chain_inner. destruct (chain _ _ _ _ _) eqn:E; [by eapply chain_kept|done]. Qed.

Lemma rebroadcast_kept queued : forall h, I h -> I (rebroadcast queued h).2.
Proof.
  induction queued as [|[event args] queued IH]; intros h Hi; [done|]. cbn [rebroadcast]. unfold broadcast_chain.
  pose proof (broadcast_kept event args true h Hi) as H1. destruct (broadcast_chain_inner _ _ _ h) as [[u|] h1]; [by apply IH|done].
Qed.

Lemma broadcast_once_kept c h : I h -> I (broadcast_once c h).2.
Proof.
  intros Hi. unfold broadcast_once. pose proof (round_kept c h Hi) as H1. destruct (round c h) as [[queued|] h1]; [|done].
  pose proof (rebroadcast_kept queued h1 H1) as H2. destruct (rebroadcast queued h1) as [[u|] h2]; [|done]. unfold flush_state_bag_callbacks.
  pose proof (callback_rounds_kept MAX_CALLBACK_ROUNDS [] _ H2) as H3.
  destruct (callback_rounds _ _ _) as [[more|] h3]; [by apply rebroadcast_kept|done].
Qed.

Lemma send_kept r c h : I h -> I (send r c h).2.
Proof.
  intros Hi. unfold send. pose proof (steps_kept c h (run c h) (fun _ x => x) (h, ∅) Hi). by destruct (foldl _ _ _).
Qed.

Lemma trigger_event_on_kept r event args h : I h -> I (trigger_event_on r event args h).2.
Proof.
  intros Hi. unfold trigger_event_on. destruct (runtimes h !! r); [|done].
  pose proof (send_kept r (DispatchEvent event (args_text args)) h Hi) as H1. destruct (send _ _ h) as [[[e|queued]|] h1]; [done| |done].
  pose proof (rebroadcast_kept queued h1 H1). by destruct (rebroadcast queued h1).
Qed.
End kept.

(** ** What returns when every dispatch settles *)

Section returns.
Context (Hs : settling).

Lemma callback_rounds_returns n queued h : is_Some (callback_rounds n queued h).1.
Proof.
  destruct (callback_rounds_frame n queued h) as (log & _ & _ & _ & _ & Hr). destruct (callback_rounds n queued h) as [[all|] h']; [by eexists|].
  by destruct Hr.
Qed.

Lemma broadcast_returns event args pe h : is_Some (broadcast_chain_inner event args pe h).1.
Proof.
  destruct (chain_spec (S MAX_EVENT_CHAIN) 0 pe [(event, args)] h) as (popped & rest & log & r & h' & Hc & _ & _ & _ & _ & _ & _ & Hr); [lia|lia|].
  unfold broadcast_chain_inner. rewrite Hc. destruct r; [by eexists|by destruct Hr].
Qed.

Lemma rebroadcast_returns queued : forall h, is_Some (rebroadcast queued h).1.
Proof.
  induction queued as [|[event args] queued IH]; intros h; [by eexists|]. cbn [rebroadcast]. unfold broadcast_chain.
  destruct (broadcast_returns event args true h) as [u Hu]. destruct (broadcast_chain_inner _ _ _ h) as [[u'|] h1]; [apply IH|done].
Qed.

Lemma broadcast_once_returns c h : is_Some (broadcast_once c h).1.
Proof.
  unfold broadcast_once. destruct (Hs c h) as [q Hq]. destruct (round c h) as [[queued|] h1]; [|done].
  destruct (rebroadcast_returns queued h1) as [u Hu]. destruct (rebroadcast queued h1) as [[u'|] h2]; [|done]. unfold flush_state_bag_callbacks.
  destruct (callback_rounds_returns MAX_CALLBACK_ROUNDS [] h2) as [all Ha]. destruct (callback_rounds _ _ h2) as [[more|] h3]; [apply rebroadcast_returns|done].
Qed.

Lemma load_returns name scripts h : is_Some (load_resource name scripts h).1.
Proof.
  unfold load_resource. destruct (create name); [by eexists|]. destruct (execute_scripts _ _ _) as [[e|] [ctx h1]]; [by eexists|].
  set (h2 := h1 <| runtimes := _ |>). clearbody h2. unfold flush_state_bag_callbacks.
  destruct (callback_rounds_returns MAX_CALLBACK_ROUNDS [] h2) as [all Ha]. destruct (callback_rounds _ _ h2) as [[more|] h3]; [|done].
  destruct (rebroadcast_returns (queued_events ctx ++ more) h3) as [u Hu]. destruct (rebroadcast _ h3) as [[u'|] h4]; [|done].
  unfold trigger_event, broadcast_chain. destruct (broadcast_returns (as_bytes "onResourceStart") (args_text [of_string name]) true h4) as [u4 Hu4].
  destruct (broadcast_chain_inner _ _ _ h4) as [r h5]. cbn in Hu4. subst r. by eexists.
Qed.

Lemma unload_returns name h : is_Some (unload_resource name h).1.
Proof.
  unfold unload_resource. destruct (runtimes h !! name); [|by eexists]. unfold trigger_event, broadcast_chain.
  destruct (broadcast_returns (as_bytes "onResourceStop") (args_text [of_string name]) true h) as [u Hu].
  destruct (broadcast_chain_inner _ _ _ h) as [[u'|] h1]; [by eexists|done].
Qed.

(** A dispatch to one resource settles with the round it is part of. *)
Lemma trigger_event_on_returns `{!IsolatesLaws} name event args h : is_Some (trigger_event_on name event args h).1.
Proof.
  unfold trigger_event_on. destruct (runtimes h !! name) as [ctx|] eqn:En; [|by eexists].
  assert (Hsend : is_Some (send name (DispatchEvent event (args_text args)) h).1).
  { destruct (Hs (DispatchEvent event (args_text args)) h) as [q Hq]. unfold send, round in *. cbn [unhandled] in Hq.
    destruct (foldl _ _ _) as [h' replies]. cbn [fst] in *. apply fmap_Some in Hq as (rs & Hm & _).
    assert (Hin : name ∈ order (runtimes h)).
    { rewrite order_keys. apply list_elem_of_fmap. exists (name, ctx). split; [done|by apply elem_of_map_to_list]. }
    apply mapM_Some_1 in Hm. apply list_elem_of_lookup in Hin as [i Hi]. by destruct (Forall2_lookup_l _ _ _ _ _ Hm Hi) as (y & _ & ->). }
  destruct Hsend as [r Hr]. destruct (send _ _ h) as [[[e|queued]|] h1]; [by eexists| |done].
  destruct (rebroadcast_returns queued h1) as [u Hu]. destruct (rebroadcast queued h1) as [r2 h2]. cbn in Hu. subst r2. by eexists.
Qed.
End returns.

(** ** Connections *)

Definition may_call (c : Connection.ScriptCall) : Prop := exists cmd h r, (r, inl (DeferralCall c)) ∈ run cmd h.

(** The registry has seen calls of scripts, and nothing else. *)
Definition touched (r : Connection.DeferralRegistry) h : Prop :=
  exists calls, Forall may_call calls /\ deferrals h = foldl Connection.registry_call r (Connection.Scripted <$> calls).

#[local] Instance touched_kept r : Kept (touched r).
Proof.
  split; [|done|intros e h; unfold publish; by destruct (cross_zone h)].
  intros c h0 [h replies] [n what] Hin (calls & Hc & Hd). unfold step_isolate. cbn. destruct (runtimes h !! n) as [ctx|]; [|by exists calls].
  destruct what as [op|error].
  - destruct op; unfold apply_op; cbn; try (by exists calls).
    exists (calls ++ [c0]). split; [apply Forall_app; split; [done|constructor; [by exists c, h0, n|constructor]]|].
    cbn in Hd. by rewrite fmap_app, foldl_app, <- Hd.
  - destruct (is_some _); [by exists calls|]. destruct (settle error ctx). by exists calls.
Qed.

(** connecting. Once the announcement of a connection returns, its channel has
    been decided by what scripts called on the way: it carries the outcome of
    the first script that was done with it, or it was accepted because none
    deferred it; it is pending only if a script has deferred it. *)
Theorem connecting_decided s name h rx : Connection.registry_ok (deferrals h) -> Connection.waits s rx false (deferrals h) ->
  let '(r, h') := fire_player_connecting s name h in
  is_Some r -> exists calls, Forall may_call calls /\
    Connection.receive rx (deferrals h') =
      match Connection.decision s false ((Connection.Scripted <$> calls) ++ [Connection.Resolve s]) with
      | Some o => Connection.Resolved o | None => Connection.Pending end /\
    (Connection.receive rx (deferrals h') = Connection.Pending -> Connection.Defer s ∈ calls).
Proof.
  intros Hr Hw. assert (Ht : touched (deferrals h) (broadcast_once (DispatchPlayerConnecting s name) h).2).
  { apply (broadcast_once_kept (touched (deferrals h))). by exists []. }
  unfold fire_player_connecting. destruct (broadcast_once _ h) as [[u|] h1]; [intros _|by intros [? ?]].
  destruct Ht as (calls & Hc & Hd). exists calls. set (h' := h1 <| deferrals := _ |>).
  assert (E : deferrals h' = foldl Connection.registry_call (deferrals h) ((Connection.Scripted <$> calls) ++ [Connection.Resolve s])).
  { unfold h'. cbn in Hd |- *. by rewrite foldl_app, <- Hd. }
  assert (Hl : Forall (Connection.leaves s) ((Connection.Scripted <$> calls) ++ [Connection.Resolve s])).
  { apply Forall_app. split; [apply Forall_fmap, Forall_true; done|by repeat constructor]. }
  rewrite E, (Connection.waits_decided s rx _ false _ Hl Hr Hw). split_and!; [done|done|].
  clear. intros Hp. assert (Hx : Connection.decision s false ((Connection.Scripted <$> calls) ++ [Connection.Resolve s]) = None)
    by (by destruct (Connection.decision _ _ _)). clear Hp. induction calls as [|c calls IH]; cbn in Hx.
  { by rewrite Z.eqb_refl in Hx. }
  destruct c as [s'|s' m|s' m|s' m|s' reason]; cbn in Hx.
  - destruct (Z.eqb_spec s' s) as [->|]; [by left|]. right. by apply IH.
  - right. by apply IH. - right. by apply IH. - right. by apply IH.
  - destruct (s' =? s); [done|]. right. by apply IH.
Qed.
End theorems.

(** ** Deliveries nobody collects *)

Section orphans.
Context `{Isolates}.
Implicit Types h : ScriptHost.
#[local] Arguments apply_op : simpl never.
#[local] Arguments settle : simpl never.

(** Changes are queued for a resource that has no isolate. *)
Definition orphaned (r : Name) h : Prop :=
  runtimes h !! r = None /\ exists q, StateBags.pending (state_bags h) !! r = Some q /\ q <> [].

Lemma delivered_more (r : Name) (c : StateBags.StateBagChange value) hs : forall m,
  (exists q, m !! r = Some q /\ q <> []) -> exists q, foldl (StateBags.deliver c) m hs !! r = Some q /\ q <> [].
Proof.
  induction hs as [|h hs IH]; intros m Hm; [done|]. cbn [foldl]. apply IH. unfold StateBags.deliver.
  destruct (decide (StateBags.h_resource h = r)) as [->|Hne]; [|by rewrite lookup_insert_ne].
  rewrite lookup_insert_eq. eexists. split; [done|]. unfold StateBags.push_bounded. by intros [_ ?]%app_nil.
Qed.

Lemma op_orphaned n op ctx r h : n <> r -> orphaned r h -> orphaned r (apply_op n op (ctx, h)).2.
Proof.
  intros Hne (Hr & q & Hq & Hn). destruct (apply_op_frame n op ctx h) as (_ & _ & Hru & _). split; [by rewrite Hru|].
  destruct op; unfold apply_op; cbn; try (by exists q).
  - unfold StateBags.remove_handler. destruct (StateBags.handlers (state_bags h) !! cookie) as [hd|]; [|by exists q]. case_bool_decide; by exists q.
  - unfold StateBags.drain_deliveries. destruct (StateBags.pending (state_bags h) !! n) as [qn|]; [|by exists q]. cbn.
    exists q. case_bool_decide; [by rewrite lookup_delete_ne|by rewrite lookup_insert_ne].
  - unfold StateBags.set_value, StateBags.store_change. cbn. destruct repl; cbn; apply delivered_more; by exists q.
Qed.

#[local] Instance orphaned_kept r : Kept (orphaned r).
Proof.
  split; [|done|intros e h; unfold publish; by destruct (cross_zone h)].
  intros c h0 [h replies] [n what] _ Ho. unfold step_isolate. cbn [fst snd] in *. pose proof Ho as [Hr _].
  destruct (runtimes h !! n) as [ctx|] eqn:En; [|done]. assert (Hne : n <> r) by congruence.
  assert (Hins : forall h1 ctx1, orphaned r h1 -> orphaned r (h1 <| runtimes := <[n := ctx1]> (runtimes h1) |>)).
  { intros h1 ctx1 [H1 H2]. split; [|done]. cbn. by rewrite lookup_insert_ne. }
  destruct what as [op|error].
  - pose proof (op_orphaned n op ctx r h Hne Ho) as H1. destruct (apply_op n op (ctx, h)) as [ctx1 h1]. by apply Hins.
  - destruct (is_some _); [done|]. destruct (settle error ctx) as [reply ctx1]. by apply Hins.
Qed.

Lemma sum_zero (l : list nat) n : n ∈ l -> list_sum l = O -> n = O.
Proof. induction 1 as [|? ? ? _ IH]; cbn; intros; [lia|apply IH; unfold list_sum; lia]. Qed.

Lemma orphaned_pending r h : orphaned r h -> pending_deliveries (state_bags h) <> O.
Proof.
  intros (_ & q & Hq & Hn) E. apply Hn, nil_length_inv. refine (sum_zero _ _ _ E).
  apply list_elem_of_fmap. exists (r, q). split; [done|by apply elem_of_map_to_list].
Qed.

(** spinning. While a resource without an isolate has changes queued, every
    flush that returns, and so every event, has run all its 64 rounds, and
    leaves them queued. *)
Theorem orphans_spin r h : orphaned r h -> let '(all, h') := flush_state_bag_callbacks h in
  orphaned r h' /\ exists log, asked h' = asked h ++ log /\ Forall (fun l => l.1 = DispatchStateBagChanges) log /\
    (is_Some all -> length log = 64%nat).
Proof.
  intros Ho. unfold flush_state_bag_callbacks. change 64%nat with MAX_CALLBACK_ROUNDS. generalize ([] : QueuedEvents) as queued.
  revert h Ho. induction MAX_CALLBACK_ROUNDS as [|n IH]; intros h Ho queued; cbn [callback_rounds].
  { split; [done|]. exists []. by rewrite app_nil_r. }
  destruct (Nat.eqb_spec (pending_deliveries (state_bags h)) 0) as [E|_]; [by apply orphaned_pending in Ho|].
  pose proof (round_kept (orphaned r) DispatchStateBagChanges h Ho) as H1. destruct (round_frame DispatchStateBagChanges h) as [_ Ha].
  destruct (round _ h) as [[more|] h1]; cbn in Ha.
  2: { split; [done|]. eexists. split_and!; [exact Ha|by apply Forall_singleton|by intros [? ?]]. }
  specialize (IH h1 H1 (queued ++ more)). destruct (callback_rounds n _ h1) as [all h2]. destruct IH as (H2 & log & Hl & Hc & Hn).
  split; [done|]. exists ((DispatchStateBagChanges, more) :: log). rewrite Hl, Ha, <- app_assoc.
  split_and!; [done|by constructor|intros Hs; cbn; by rewrite (Hn Hs)].
Qed.
End orphans.

(** ** What loading and unloading leave *)

Section owners.
Context `{IsolatesLaws}.
Implicit Types h : ScriptHost.
#[local] Arguments apply_op : simpl never.
#[local] Arguments settle : simpl never.

(** The loaded resources are [D]; what is registered in the host's stores
    belongs to [X]. *)
Record owned (D X : gset Name) h : Prop := {
  own_runtimes : dom (runtimes h) = D;
  own_http : handlers (http_handlers h) ⊆ X;
  own_handlers : forall k hd, StateBags.handlers (state_bags h) !! k = Some hd -> StateBags.h_resource hd ∈ X;
  own_pending : dom (StateBags.pending (state_bags h)) ⊆ X
}.

Lemma delivered_to (c : StateBags.StateBagChange value) hs X : (forall hd, hd ∈ hs -> StateBags.h_resource hd ∈ X) ->
  forall m, dom m ⊆ X -> dom (foldl (StateBags.deliver c) m hs) ⊆ X.
Proof.
  induction hs as [|hd hs IH]; intros Hh m Hm; [done|]. cbn [foldl]. apply IH; [intros; apply Hh; by right|].
  unfold StateBags.deliver. rewrite dom_insert_L. specialize (Hh hd ltac:(by left)). set_solver.
Qed.

Lemma ordered_owned (p : StateBags.Handler -> bool) (m : gmap Z StateBags.Handler) (X : gset Name) : (forall k hd, m !! k = Some hd -> StateBags.h_resource hd ∈ X) ->
  forall hd, hd ∈ List.filter p (handler_order m) -> StateBags.h_resource hd ∈ X.
Proof.
  intros Hm hd Hin. apply list_elem_of_In, filter_In in Hin as [Hin _]. apply list_elem_of_In in Hin.
  rewrite handler_order_values in Hin. apply list_elem_of_fmap in Hin as ([k hd'] & -> & Hk). apply elem_of_map_to_list in Hk. by eapply Hm.
Qed.

Lemma op_owned n op ctx D X h : n ∈ X -> owned D X h -> owned D X (apply_op n op (ctx, h)).2.
Proof.
  intros Hn [K1 K2 K3 K4]. destruct (apply_op_frame n op ctx h) as (_ & _ & Hru & _).
  assert (K1' : dom (runtimes (apply_op n op (ctx, h)).2) = D) by congruence. unfold apply_op in *. destruct op; cbn in *; try (by split).
  - split; try done. intros k hd. cbn. rewrite lookup_insert_Some. intros [[_ <-]|[_ Hk]]; [done|by eapply K3].
  - cbn. unfold StateBags.remove_handler in *. split; try done; cbn; destruct (StateBags.handlers (state_bags h) !! cookie) as [hd'|]; try done; case_bool_decide; try done.
    intros k hd. cbn. rewrite lookup_delete_Some. intros [_ Hk]. by eapply K3.
  - cbn. unfold StateBags.drain_deliveries. split; try done; cbn; destruct (StateBags.pending (state_bags h) !! n) as [qn|]; try done. cbn.
    case_bool_decide; [rewrite dom_delete_L|rewrite dom_insert_L]; set_solver.
  - unfold StateBags.set_value, StateBags.store_change. split; try done; cbn; destruct repl; cbn; try done;
      apply delivered_to; try done; intros hd Hin; by eapply ordered_owned.
  - split; try done. cbn. set_solver.
  - unfold complete. cbn. split; try done; cbn; case_bool_decide; done.
Qed.

Lemma owned_kept D X : D ⊆ X -> Kept (owned D X).
Proof.
  intros Hx. split; [|intros h l []; by split|intros e h Ho; unfold publish; destruct (cross_zone h); [destruct Ho; by split|done]].
  intros c h0 [h replies] [n what] _ Ho. unfold step_isolate. cbn [fst snd] in *.
  destruct (runtimes h !! n) as [ctx|] eqn:En; [|done].
  assert (Hn : n ∈ D) by (rewrite <- (own_runtimes _ _ _ Ho); by eapply elem_of_dom_2).
  assert (Hins : forall h1 ctx1, owned D X h1 -> owned D X (h1 <| runtimes := <[n := ctx1]> (runtimes h1) |>)).
  { intros h1 ctx1 [K1 K2 K3 K4]. split; cbn; try done. rewrite dom_insert_L. set_solver. }
  destruct what as [op|error].
  - pose proof (op_owned n op ctx D X h (Hx n Hn) Ho) as H2. destruct (apply_op n op (ctx, h)) as [ctx1 h1]. by apply Hins.
  - destruct (is_some _); [done|]. destruct (settle error ctx) as [reply ctx1]. by apply Hins.
Qed.

Lemma forget_owned name D X h : owned D X h -> owned (D ∖ {[name]}) (X ∖ {[name]}) (forget name h).
Proof.
  intros [K1 K2 K3 K4]. split; cbn.
  - rewrite dom_delete_L. set_solver.
  - set_solver.
  - intros k hd. rewrite map_lookup_filter_Some. intros [Hk Hr]. specialize (K3 k hd Hk). cbn in Hr. set_solver.
  - rewrite dom_delete_L. set_solver.
Qed.

Lemma execute_owned name scripts D X : name ∈ X -> forall ch, owned D X ch.2 -> owned D X (execute_scripts name scripts ch).2.2.
Proof.
  intros Hn. induction scripts as [|script rest IH]; intros ch Ho; cbn [execute_scripts]; [done|].
  destruct (load_script name script ch.2) as [ops error].
  assert (Hops : forall ch, owned D X ch.2 -> owned D X (foldl (fun ch op => apply_op name op ch) ch ops).2).
  { clear IH. induction ops as [|op ops IH]; intros [ctx h] Hc; [done|]. cbn [foldl]. apply IH. by apply op_owned. }
  specialize (Hops ch Ho). destruct (foldl _ _ _) as [ctx h]. destruct error; [done|]. by apply IH.
Qed.

Lemma owned_more D X X' h : X ⊆ X' -> owned D X h -> owned D X' h.
Proof. intros Hx [K1 K2 K3 K4]. split; [done|set_solver|intros k hd Hk; specialize (K3 k hd Hk); set_solver|set_solver]. Qed.

Lemma load_owned name scripts D X h : owned D X h -> D ⊆ X ->
  let '(r, h') := load_resource name scripts h in
  owned (match r with Some (inl _) => D ∖ {[name]} | _ => {[name]} ∪ D end) ({[name]} ∪ X) h'.
Proof.
  intros Ho Hx. unfold load_resource. apply (forget_owned name) in Ho.
  apply (owned_more _ _ ({[name]} ∪ X)) in Ho; [|set_solver]. destruct (create name); [done|].
  assert (Hin : name ∈ {[name]} ∪ X) by set_solver.
  pose proof (execute_owned name scripts _ _ Hin (context_new, forget name h) Ho) as He.
  destruct (execute_scripts _ _ _) as [error [ctx h1]]. cbn in He. destruct error; [done|].
  set (h2 := h1 <| runtimes := _ |>).
  assert (H2 : owned ({[name]} ∪ D) ({[name]} ∪ X) h2).
  { destruct He as [K1 K2 K3 K4]. split; try done. unfold h2. cbn. rewrite dom_insert_L, K1. apply set_eq. intros x.
    destruct (decide (x = name)); set_solver. }
  clearbody h2. assert (HK : Kept (owned ({[name]} ∪ D) ({[name]} ∪ X))) by (apply owned_kept; set_solver). unfold flush_state_bag_callbacks.
  pose proof (callback_rounds_kept _ MAX_CALLBACK_ROUNDS [] h2 H2) as H3. destruct (callback_rounds _ [] h2) as [[more|] h3]; [|done].
  pose proof (rebroadcast_kept _ (queued_events ctx ++ more) h3 H3) as H4. destruct (rebroadcast _ h3) as [[u|] h4]; [|done].
  unfold trigger_event, broadcast_chain. pose proof (broadcast_kept _ (as_bytes "onResourceStart") (args_text [of_string name]) true h4 H4).
  by destruct (broadcast_chain_inner _ _ _ h4) as [[u'|] h5].
Qed.

Lemma unload_owned name D X h : owned D X h -> D ⊆ X -> name ∈ D ->
  let '(r, h') := unload_resource name h in
  match r with Some r => r = inr tt /\ owned (D ∖ {[name]}) (X ∖ {[name]}) h' | None => owned D X h' end.
Proof.
  intros Ho Hx Hn. unfold unload_resource. assert (Hs : is_Some (runtimes h !! name)).
  { apply elem_of_dom. by rewrite (own_runtimes _ _ _ Ho). }
  destruct Hs as [ctx ->]. assert (HK := owned_kept D X Hx). unfold trigger_event, broadcast_chain.
  pose proof (broadcast_kept (owned _ _) (as_bytes "onResourceStop") (args_text [of_string name]) true h Ho) as Hk.
  destruct (broadcast_chain_inner _ _ _ h) as [[u|] h3]; [|done]. split; [done|]. by apply forget_owned.
Qed.
End owners.

(** ** Examples *)

#[local] Existing Instance Connection.sample_json.

Definition ping : Name := as_bytes "ping".
Definition pong : Name := as_bytes "pong".

(** What a resource does, by its name: one answers pings, one pongs, one ticks
    itself on, one throws after it has triggered an event, one holds players. *)
Definition reacts (r : Name) (c : RuntimeCommand) : list (Name * (ScriptOp + option ScriptError)) :=
  let on e op := match c with
    | DispatchEvent e' _ => if bool_decide (e' = as_bytes e) then [(r, inl op)] else [] | _ => [] end in
  let is_named n := bool_decide (r = as_bytes n) in
  (if is_named "ponger" then on "ping"%string (TriggerEvent pong []) else if is_named "pinger" then on "pong"%string (TriggerEvent ping [])
   else if is_named "ticker" then on "tick"%string (TriggerEvent (as_bytes "tick") []) else [])
  ++ match c with
     | DispatchStateBagChanges => [(r, inl PollStateBagChanges); (r, inr None)]
     | DispatchPlayerConnecting s _ => (if is_named "gate" then [(r, inl (DeferralCall (Connection.Defer s)))] else []) ++ [(r, inr None)]
     | DispatchEvent e _ =>
         if is_named "thrower" && bool_decide (e = as_bytes "order") then
           [(r, inl (TriggerEvent (as_bytes "paid") [])); (r, inr (Some HostGone))]
         else [(r, inr None)]
     | _ => [(r, inr None)]
     end.

#[local] Instance sample_isolates : Isolates := {|
  order := fun m => (map_to_list m).*1; handler_order := fun m => (map_to_list m).*2; create := fun _ => None;
  load_script := fun name script _ =>
    if bool_decide (code script = as_bytes "broken") then
      ([SetHttpHandler; AddStateBagChangeHandler [] [] 1], Some (Execute name (path script) []))
    else if bool_decide (code script = as_bytes "write") then ([SetStateBag (as_bytes "global") (as_bytes "k") 1 false], None)
    else ([], None);
  run := fun c h => (map_to_list (runtimes h)).*1 ≫= fun r => reacts r c |}.

#[local] Instance sample_isolates_laws : IsolatesLaws.
Proof. by split. Qed.

Definition script (code : string) : list ScriptSource := [{| path := as_bytes "main.js"; code := as_bytes code |}].
Definition started (name code : string) (h : ScriptHost) : ScriptHost := (load_resource (as_bytes name) (script code) h).2.

(** A handler that triggers its own event: 64 dispatches, and one event more
    for the sibling zones. *)
Example capped : let h := (trigger_event (as_bytes "tick") [] (set_cross_zone_publisher (started "ticker" "" spawn))).2 in
  length (List.filter (fun e => bool_decide (e.1 = as_bytes "tick")) (events_of (asked h))) = 64%nat /\ length (published h) = 65%nat.
Proof. split; vm_compute; reflexivity. Qed.

(** What a handler triggers before it throws is heard with the next event. *)
Example late_event : let h := started "thrower" "" spawn in
  let h1 := (trigger_event (as_bytes "order") [] h).2 in
  let h2 := (trigger_event (as_bytes "other") [] h1).2 in
  as_bytes "paid" ∉ (events_of (asked h1)).*1 /\ as_bytes "paid" ∈ (events_of (asked h2)).*1.
Proof. split; apply (bool_decide_unpack _); vm_compute; exact I. Qed.

(** A resource whose script fails stays registered, without an isolate; a
    change of a bag is then queued for it for good. *)
Definition half_loaded : ScriptHost := started "writer" "write" (started "panel" "broken" spawn).

Lemma half_loaded_orphan : has_handler (http_handlers half_loaded) (as_bytes "panel") = true /\ orphaned (as_bytes "panel") half_loaded.
Proof. split; [vm_compute; reflexivity|]. split; [vm_compute; reflexivity|]. eexists. split; [vm_compute; reflexivity|discriminate]. Qed.

Lemma orphans_spin_witness : orphaned (as_bytes "panel") (flush_state_bag_callbacks half_loaded).2.
Proof.
  pose proof (orphans_spin (as_bytes "panel") half_loaded (proj2 half_loaded_orphan)) as Ho.
  destruct (flush_state_bag_callbacks half_loaded) as [all h']. apply Ho.
Defined.

Lemma connecting_decided_witness : let h := (started "gate" "" spawn) <| deferrals := (Connection.register 1 Connection.deferrals_new).2 |> in
  exists calls, Connection.receive 0 (deferrals (fire_player_connecting 1 [] h).2) =
    match Connection.decision 1 false ((Connection.Scripted <$> calls) ++ [Connection.Resolve 1]) with
    | Some o => Connection.Resolved o | None => Connection.Pending end.
Proof.
  intros h. assert (E : deferrals h = (Connection.register 1 Connection.deferrals_new).2) by (vm_compute; reflexivity).
  assert (Er : is_Some (fire_player_connecting 1 [] h).1) by (eexists; vm_compute; reflexivity).
  pose proof (connecting_decided 1 [] h 0) as Hc. destruct (fire_player_connecting 1 [] h) as [r h'].
  destruct Hc as (calls & _ & Hr & _).
  - rewrite E. apply (Connection.register_keeps 1 _ Connection.deferrals_new_ok).
  - rewrite E. eexists. split_and!; reflexivity.
  - exact Er.
  - exists calls. exact Hr.
Defined.

(** ** Two zones *)

(** A zone takes the events a sibling published, and publishes in turn. *)
Definition exchange (received : QueuedEvents) (h : ScriptHost) : QueuedEvents * ScriptHost :=
  let h := foldl (fun h e => (trigger_remote_event e.1 e.2 h).2) h received in
  (published h, (h <| published := [] |>) <| asked := [] |>).

(** The events in flight after [n] crossings. *)
Fixpoint in_flight (n : nat) (events : QueuedEvents) (here there : ScriptHost) : QueuedEvents :=
  match n with
  | O => events
  | S n => let '(events, here) := exchange events here in in_flight n events there here
  end.

Definition zone_of (name : string) : ScriptHost := (set_cross_zone_publisher (started name "" spawn)) <| asked := [] |>.

Lemma answering e1 e2 (here there : ScriptHost) :
  exchange [e1] here = ([e2], here) -> exchange [e2] there = ([e1], there) ->
  forall n, in_flight n [e1] here there <> [] /\ in_flight n [e2] there here <> [].
Proof. intros E1 E2. induction n as [|n [IH1 IH2]]; [done|]. cbn [in_flight]. by rewrite E1, E2. Qed.

(** A zone that answers pings and one that answers pongs keep each other busy
    for ever over one event, although each chain has a single reaction. *)
Theorem zones_answer_forever n : in_flight n [(ping, [])] (zone_of "ponger") (zone_of "pinger") <> [].
Proof. apply (answering (ping, []) (pong, [])); vm_compute; reflexivity. Qed.
