(* ===== verification/ResourceManager.v ===== *)
(** * The lifecycle of resources
      (src/crates/baston-zone/src/resource_loader/{resource_manager,manifest}.rs,
      src/crates/baston-scripting/src/resource_registry.rs and
      src/crates/baston-core/src/script_decryptor.rs)

    Resources are discovered on disk, started in the order of their
    dependencies, stopped and restarted. The manager's lock is free while a
    resource is loaded or unloaded, so [start] and [stop] are given in pieces.
    The disk and serde are a record of what they answer; a path is its bytes,
    with the separator of Unix. *)

From S2P Require Import Prelude Decimal Utf8 Udp Events.
From S2P Require ResourceOrder Connection.
From S2P Require Import ScriptHost.
#[local] Open Scope Z_scope.

(** ** Paths *)

Definition SLASH : Z := 47.
Definition is_absolute (path : Name) : bool := bool_decide (head path = Some SLASH).

(** [PathBuf::push]; [Path::join] is the same on a copy. *)
Definition push (base part : Name) : Name :=
  if is_absolute part then part
  else match last base with
       | Some b => if b =? SLASH then base ++ part else base ++ SLASH :: part
       | None => part
       end.

(** The pieces between separators, and [Path::components] of a relative path
    (empty pieces and "." are no components; a leading "." is one that every
    reader here skips). *)
Fixpoint pieces (part path : Name) : list Name :=
  match path with
  | [] => [part]
  | b :: rest => if b =? SLASH then part :: pieces [] rest else pieces (part ++ [b]) rest
  end.

Definition DOT : Name := as_bytes ".".
Definition DOTDOT : Name := as_bytes "..".
Definition components (path : Name) : list Name := List.filter (fun c => negb (bool_decide (c = [] \/ c = DOT))) (pieces [] path).

(** ** script_decryptor.rs *)

Inductive DecryptError :=
| NoDecryptorAvailable
| DecryptionFailed (resource file reason : Name)
| EntitlementDenied (resource : Name).

Definition CFX_MAGIC : Name := as_bytes "FXAP".
Definition is_cfx_encrypted (bytes : list Z) : bool := (length CFX_MAGIC <? length bytes)%nat && starts_with CFX_MAGIC bytes.

Definition ScriptDecryptor : Type := Name -> Name -> list Z -> DecryptError + list Z.
Definition plain_decryptor : ScriptDecryptor := fun _ _ bytes => if is_cfx_encrypted bytes then inl NoDecryptorAvailable else inr bytes.

(** ** resource_registry.rs *)

(** [ResourceManifest] of baston-protocol/src/lib.rs. *)
Record ResourceManifest := {
  m_name : Name; m_version : option Name; m_dependencies : list Name;
  m_server_scripts : list Name; m_client_scripts : list Name; m_files : list Name
}.

Inductive ScriptResourceState := RUninitialized | RStarting | RStarted | RStopped | RMissing | RUnknown.

Definition state_str (s : ScriptResourceState) : Name :=
  match s with
  | RUninitialized => as_bytes "uninitialized" | RStarting => as_bytes "starting" | RStarted => as_bytes "started"
  | RStopped => as_bytes "stopped" | RMissing => as_bytes "missing" | RUnknown => as_bytes "unknown"
  end.

Record ResourceRecord := { r_root : Name; r_manifest : ResourceManifest; r_state : ScriptResourceState }.
Abbreviation ResourceRegistry := (gmap Name ResourceRecord).

Definition upsert_resource (name root : Name) (manifest : ResourceManifest) (state : ScriptResourceState)
    : ResourceRegistry -> ResourceRegistry := <[name := {| r_root := root; r_manifest := manifest; r_state := state |}]>.

Definition set_state (name : Name) (state : ScriptResourceState) : ResourceRegistry -> ResourceRegistry :=
  alter (fun r => {| r_root := r_root r; r_manifest := r_manifest r; r_state := state |}) name.

Definition count (r : ResourceRegistry) : nat := size r.
Definition names (r : ResourceRegistry) : list Name := sort_by bytes_leb (map_to_list r).*1.
Definition name_at (r : ResourceRegistry) (index : nat) : Name := default [] (names r !! index).
Definition state_of (r : ResourceRegistry) (name : Name) : Name :=
  match r !! name with Some e => state_str (r_state e) | None => state_str RMissing end.
Definition path_of (r : ResourceRegistry) (name : Name) : Name :=
  match r !! name with Some e => from_utf8_lossy (r_root e) | None => [] end.

Definition metadata_values (r : ResourceRegistry) (name key : Name) : list Name :=
  match r !! name with
  | None => []
  | Some e =>
      let m := r_manifest e in
      if bool_decide (key = as_bytes "version") then match m_version m with Some v => [v] | None => [] end
      else if bool_decide (key = as_bytes "dependency") then m_dependencies m
      else if bool_decide (key = as_bytes "server_script") then m_server_scripts m
      else if bool_decide (key = as_bytes "client_script") then m_client_scripts m
      else if bool_decide (key = as_bytes "file") then m_files m
      else []
  end.
Definition metadata_count (r : ResourceRegistry) (name key : Name) : Z := u32 (Z.of_nat (length (metadata_values r name key))).
Definition metadata_value (r : ResourceRegistry) (name key : Name) (index : nat) : Name :=
  default [] (metadata_values r name key !! index).

Definition sanitize_relative_path (raw : Name) : option Name :=
  if is_absolute raw then None
  else foldl (fun out c => out ≫= fun out => if bool_decide (c = DOTDOT) then None else Some (push out c)) (Some []) (components raw).

Definition resource_file_path (r : ResourceRegistry) (name file_name : Name) : option Name :=
  match r !! name with
  | None => None
  | Some e => push (r_root e) <$> sanitize_relative_path file_name
  end.

(** The bytes a script asks to save: the whole text, or its first [data_len]. *)
Definition saved_bytes (data : Name) (data_len : Z) : Name :=
  if data_len <? 0 then data else take (Nat.min (length data) (Z.to_nat data_len)) data.

(** ** The disk *)

Record Disk := {
  read_dir : Name -> option (list Name); is_dir : Name -> bool; is_file : Name -> bool;
  read : Name -> option (list Z); parse_json : Name -> option ResourceManifest
}.

Definition load_file (d : Disk) (r : ResourceRegistry) (name file_name : Name) : option Name :=
  (resource_file_path r name file_name ≫= read d) ≫= from_utf8.

(** What is written where. *)
Definition save_file (r : ResourceRegistry) (name file_name data : Name) (data_len : Z) : option (Name * Name) :=
  (fun p => (p, saved_bytes data data_len)) <$> resource_file_path r name file_name.

(** ** manifest.rs *)

Inductive ZoneError :=
| ManifestRead (path : Name)
| ManifestParse (path : Name)
| Topo (e : ResourceOrder.TopoError)
| UnknownResource (name : Name)
| ScriptRead (path : Name)
| Decrypt (path : Name) (e : DecryptError)
| ScriptNotUtf8 (path : Name)
| Scripting (e : ScriptError).

Record DiscoveredResource := { manifest : ResourceManifest; root : Name }.

Definition MANIFEST : Name := as_bytes "manifest.json".

Definition parse_manifest (d : Disk) (resource_root : Name) : ZoneError + ResourceManifest :=
  let manifest_path := push resource_root MANIFEST in
  match (read d manifest_path ≫= from_utf8) with
  | None => inl (ManifestRead manifest_path)
  | Some raw => match parse_json d raw with None => inl (ManifestParse manifest_path) | Some m => inr m end
  end.

(** An entry that is no resource, or has an invalid manifest, is skipped. *)
Definition discover_dir (d : Disk) (resources_dir : Name) : ZoneError + list DiscoveredResource :=
  match read_dir d resources_dir with
  | None => inl (ManifestRead resources_dir)
  | Some entries =>
      inr (omap (M := list) (fun root =>
        if negb (is_dir d root) || negb (is_file d (push root MANIFEST)) then None
        else match parse_manifest d root with inr m => Some {| manifest := m; root := root |} | inl _ => None end) entries)
  end.

(** ** resource_manager.rs *)

Inductive ResourceState := Unloaded | Loading | Started | Stopped | Error.
#[export] Instance ResourceState_eq_dec : EqDecision ResourceState.
Proof. solve_decision. Defined.

Record ResourceEntry := { discovered : DiscoveredResource; state : ResourceState }.

Definition script_state (s : ResourceState) : ScriptResourceState :=
  match s with
  | Unloaded => RUninitialized | Loading => RStarting | Started => RStarted | Stopped => RStopped | Error => RUnknown
  end.

Section manager.
Context `{Isolates}.

(** [registry] is the script host's. *)
Record ResourceManager := {
  script_host : ScriptHost; registry : ResourceRegistry; resources : gmap Name ResourceEntry;
  resources_dir : Name; decryptor : ScriptDecryptor
}.
#[export] Instance ResourceManager_rebuild : Rebuild ResourceManager := fun m =>
  Build_ResourceManager (script_host m) (registry m) (resources m) (resources_dir m) (decryptor m).

Definition manager_new (host : ScriptHost) (dir : Name) : ResourceManager :=
  {| script_host := host; registry := ∅; resources := ∅; resources_dir := dir; decryptor := plain_decryptor |}.

Definition set_script_decryptor (dec : ScriptDecryptor) (m : ResourceManager) : ResourceManager := m <| decryptor := dec |>.

Definition add_discovered (m : ResourceManager) (found : DiscoveredResource) : ResourceManager :=
  let name := m_name (manifest found) in
  let entry := match resources m !! name with
    | Some e => {| discovered := found; state := state e |}
    | None => {| discovered := found; state := Unloaded |}
    end in
  (m <| resources := <[name := entry]> (resources m) |>)
    <| registry := upsert_resource name (root found) (manifest found) RUninitialized (registry m) |>.

Definition discover (d : Disk) (m : ResourceManager) : (ZoneError + list Name) * ResourceManager :=
  match discover_dir d (resources_dir m) with
  | inl e => (inl e, m)
  | inr found => (inr ((fun f => m_name (manifest f)) <$> found), foldl add_discovered m found)
  end.

Definition set_entry (name : Name) (s : ResourceState) (m : ResourceManager) : ResourceManager :=
  m <| resources := alter (fun e => {| discovered := discovered e; state := s |}) name (resources m) |>.

(** The first locked part of [start]: what to load, if anything. *)
Definition start_begin (name : Name) (m : ResourceManager) : (ZoneError + option (Name * list Name)) * ResourceManager :=
  match resources m !! name with
  | None => (inl (UnknownResource name), m)
  | Some e =>
      if decide (state e = Started) then (inr None, m)
      else (inr (Some (root (discovered e), m_server_scripts (manifest (discovered e)))),
            (set_entry name Loading m) <| registry := set_state name RStarting (registry m) |>)
  end.

Fixpoint read_scripts (d : Disk) (dec : ScriptDecryptor) (name root : Name) (script_paths : list Name) : ZoneError + list ScriptSource :=
  match script_paths with
  | [] => inr []
  | rel :: rest =>
      let path := push root rel in
      match read d path with
      | None => inl (ScriptRead path)
      | Some raw =>
          match dec name rel raw with
          | inl e => inl (Decrypt path e)
          | inr bytes =>
              match from_utf8 bytes with
              | None => inl (ScriptNotUtf8 path)
              | Some code =>
                  match read_scripts d dec name root rest with
                  | inl e => inl e
                  | inr scripts => inr ({| path := rel; code := code |} :: scripts)
                  end
              end
          end
      end
  end.

(** A call that waits for the scripts: its result, or [None] when they never
    answer; and the manager as it is then. *)
Abbreviation Awaits A := (option A * ResourceManager)%type.

Definition returned {A} (r : Awaits A) : option ResourceManager := match r.1 with Some _ => Some r.2 | None => None end.

(** [ZoneError::Scripting] by [From]. *)
Definition scripting (r : ScriptError + unit) : ZoneError + unit := match r with inl e => inl (Scripting e) | inr _ => inr tt end.

Definition load_scripts (d : Disk) (name root : Name) (script_paths : list Name) (m : ResourceManager) : Awaits (ZoneError + unit) :=
  match read_scripts d (decryptor m) name root script_paths with
  | inl e => (Some (inl e), m)
  | inr scripts => let '(r, h) := load_resource name scripts (script_host m) in (scripting <$> r, m <| script_host := h |>)
  end.

(** The last locked part of [start]. *)
Definition start_finish (name : Name) (result : ZoneError + unit) (m : ResourceManager) : ResourceManager :=
  let '(s, r) := match result with inr _ => (Started, RStarted) | inl _ => (Error, RUnknown) end in
  match resources m !! name with
  | Some _ => (set_entry name s m) <| registry := set_state name r (registry m) |>
  | None => m
  end.

Definition start (d : Disk) (name : Name) (m : ResourceManager) : Awaits (ZoneError + unit) :=
  match start_begin name m with
  | (inl e, m) => (Some (inl e), m)
  | (inr None, m) => (Some (inr tt), m)
  | (inr (Some (root, script_paths)), m) =>
      match load_scripts d name root script_paths m with
      | (None, m) => (None, m)
      | (Some result, m) => (Some result, start_finish name result m)
      end
  end.

(** Whether [stop] goes on. *)
Definition stop_check (name : Name) (m : ResourceManager) : ZoneError + bool :=
  match resources m !! name with
  | None => inl (UnknownResource name)
  | Some e => inr (bool_decide (state e = Started))
  end.

Definition stop_unload (name : Name) (m : ResourceManager) : Awaits (ZoneError + unit) :=
  let '(r, h) := unload_resource name (script_host m) in (scripting <$> r, m <| script_host := h |>).

Definition stop_finish (name : Name) (m : ResourceManager) : ResourceManager :=
  (set_entry name Stopped m) <| registry := set_state name RStopped (registry m) |>.

Definition stop (name : Name) (m : ResourceManager) : Awaits (ZoneError + unit) :=
  match stop_check name m with
  | inl e => (Some (inl e), m)
  | inr false => (Some (inr tt), m)
  | inr true =>
      match stop_unload name m with
      | (Some (inr _), m) => (Some (inr tt), stop_finish name m)
      | (r, m) => (r, m)
      end
  end.

Definition ensure (d : Disk) (name : Name) (m : ResourceManager) : Awaits (ZoneError + unit) :=
  match stop name m with
  | (Some (inr _), m) => start d name m
  | (r, m) => (r, m)
  end.

Definition reparse (d : Disk) (name dir : Name) (m : ResourceManager) : ResourceManager :=
  match parse_manifest d dir, resources m !! name with
  | inr mf, Some e =>
      let found := {| manifest := mf; root := root (discovered e) |} in
      (m <| resources := <[name := {| discovered := found; state := state e |}]> (resources m) |>)
        <| registry := upsert_resource name dir mf (script_state (state e)) (registry m) |>
  | _, _ => m
  end.

Definition restart (d : Disk) (name : Name) (m : ResourceManager) : Awaits (ZoneError + unit) :=
  match resources m !! name with
  | None => (Some (inl (UnknownResource name)), m)
  | Some e => ensure d name (reparse d name (root (discovered e)) m)
  end.

(** [for name in order { self.start(&name).await?; }]. *)
Fixpoint start_each (d : Disk) (order : list Name) (m : ResourceManager) : Awaits (ZoneError + unit) :=
  match order with
  | [] => (Some (inr tt), m)
  | name :: rest =>
      match start d name m with
      | (Some (inr _), m) => start_each d rest m
      | (r, m) => (r, m)
      end
  end.

(** The entries in the order of the map; which order does not matter
    ([ResourceOrder.topo_sort_deterministic]). *)
Definition graph (m : ResourceManager) : ResourceOrder.Resources :=
  (fun ne => (ne.1, m_dependencies (manifest (discovered ne.2)))) <$> map_to_list (resources m).

(** [None]: a panic of the sort, which it does not have. *)
Definition start_all (d : Disk) (m : ResourceManager) : option (Awaits (ZoneError + unit)) :=
  match ResourceOrder.topo_sort (graph m) with
  | None => None
  | Some (inr e) => Some (Some (inl (Topo e)), m)
  | Some (inl order) => Some (start_each d order m)
  end.

Definition status (m : ResourceManager) : list (Name * ResourceState) :=
  sort_by (fun a b => bytes_leb a.1 b.1) ((fun ne => (ne.1, state ne.2)) <$> map_to_list (resources m)).

Definition started_names (m : ResourceManager) : list Name :=
  (List.filter (fun ns : Name * ResourceState => bool_decide (ns.2 = Started)) (status m)).*1.

Definition started_resource (m : ResourceManager) (name : Name) : option (Name * ResourceManifest) :=
  resources m !! name ≫= fun e => if decide (state e = Started) then Some (root (discovered e), manifest (discovered e)) else None.
End manager.

(** ** Files a script may name *)

Definition normal (c : Name) : Prop := c <> [] /\ c <> DOT /\ c <> DOTDOT /\ (SLASH ∉ c).

Lemma pieces_no_slash path : forall part, (SLASH ∉ part) -> Forall (fun c => SLASH ∉ c) (pieces part path).
Proof.
  induction path as [|b path IH]; intros part Hp; cbn [pieces]; [by constructor|].
  destruct (Z.eqb_spec b SLASH); [constructor; [done|apply IH; set_solver]|]. apply IH. set_solver.
Qed.

Lemma components_normal path : DOTDOT ∉ components path -> Forall normal (components path).
Proof.
  intros Hd. apply Forall_forall. intros c Hc. assert (Hne : c <> DOTDOT) by congruence.
  apply list_elem_of_In, filter_In in Hc as [Hc Hb]. apply negb_true_iff, bool_decide_eq_false in Hb. apply list_elem_of_In in Hc.
  pose proof (pieces_no_slash path [] ltac:(set_solver)) as Hs. rewrite Forall_forall in Hs. specialize (Hs c Hc).
  unfold normal. tauto.
Qed.

Definition push_all (base : Name) (parts : list Name) : Name := foldl push base parts.

Lemma sanitize_spec raw : sanitize_relative_path raw =
  if is_absolute raw || bool_decide (DOTDOT ∈ components raw) then None else Some (push_all [] (components raw)).
Proof.
  unfold sanitize_relative_path. destruct (is_absolute raw); [done|]. cbn [orb]. generalize ([] : Name) as out.
  induction (components raw) as [|c cs IH]; intros out; [done|]. cbn [foldl mbind option_bind].
  destruct (decide (c = DOTDOT)) as [->|Hne].
  - rewrite (bool_decide_eq_true_2 (DOTDOT = DOTDOT)) by done. rewrite bool_decide_eq_true_2 by (by left).
    clear IH. by induction cs.
  - rewrite (bool_decide_eq_false_2 (c = DOTDOT)) by done. rewrite IH. unfold push_all. cbn [foldl].
    case_bool_decide; [rewrite bool_decide_eq_true_2 by (by right); done|]. rewrite bool_decide_eq_false_2; [done|]. set_solver.
Qed.

(** What is pushed below a path that is not empty stays below it. *)
Definition below (base path : Name) : Prop := exists rest, path = base ++ rest.

Lemma push_below base part : is_absolute part = false -> below base (push base part).
Proof.
  intros Ha. unfold push. rewrite Ha. destruct (last base) as [b|] eqn:El.
  - destruct (b =? SLASH); by eexists.
  - apply last_None in El as ->. by exists part.
Qed.

Lemma normal_relative c : normal c -> is_absolute c = false.
Proof. intros (Hn & _ & _ & Hs). destruct c as [|b c]; [done|]. unfold is_absolute. cbn. apply bool_decide_eq_false_2. set_solver. Qed.

Lemma push_relative base part : is_absolute base = false -> base <> [] -> is_absolute part = false -> is_absolute (push base part) = false.
Proof.
  intros Hb Hn Hp. destruct (push_below base part Hp) as [rest ->]. destruct base; [done|]. exact Hb.
Qed.

Lemma push_all_relative parts : Forall normal parts -> forall base, is_absolute base = false -> is_absolute (push_all base parts) = false.
Proof.
  induction 1 as [|c parts Hc _ IH]; intros base Hb; [done|]. cbn [push_all foldl]. apply IH.
  destruct base as [|b base]; [|apply push_relative; [done|done|by apply normal_relative]].
  unfold push. rewrite (normal_relative c Hc). cbn. by apply normal_relative.
Qed.

(** C39: file access. The path a script reaches with a file name is below the
    root of the resource it names: the root with the components of the name.
    A name is refused exactly when the resource is unknown, the name is
    absolute or one of its components is the parent directory. [components]
    leaves the root out, so the check of an absolute name is the only one that
    refuses it. *)
Theorem file_confined r name file_name :
  match resource_file_path r name file_name with
  | Some p => is_absolute file_name = false /\ (DOTDOT ∉ components file_name) /\
      exists e, r !! name = Some e /\ p = push (r_root e) (push_all [] (components file_name)) /\
        Forall normal (components file_name) /\ below (r_root e) p
  | None => r !! name = None \/ is_absolute file_name = true \/ DOTDOT ∈ components file_name
  end.
Proof.
  unfold resource_file_path. destruct (r !! name) as [e|]; [|by left]. rewrite sanitize_spec.
  destruct (is_absolute file_name) eqn:Ea; cbn; [by right; left|]. case_bool_decide as Hd; cbn; [by right; right|].
  pose proof (components_normal _ Hd) as Hn. split; [done|]. split; [done|]. exists e. split_and!; [done|done|done|].
  apply push_below. by apply push_all_relative.
Qed.

(** ** The lifecycle *)

Section lifecycle.
Context `{IsolatesLaws}.
Implicit Types m : ResourceManager.

Definition is_started m (n : Name) : Prop := exists e, resources m !! n = Some e /\ state e = Started.
Definition started_set m : gset Name := dom (filter (fun ne => state ne.2 = Started) (resources m)).

Lemma elem_of_started m n : n ∈ started_set m <-> is_started m n.
Proof.
  unfold started_set, is_started. rewrite elem_of_dom. split.
  - intros [e He]. apply map_lookup_filter_Some in He as [He Hs]. by exists e.
  - intros (e & He & Hs). exists e. by apply map_lookup_filter_Some.
Qed.

(** Something of the host's stores is registered for [n]. *)
Definition registered m (n : Name) : Prop :=
  has_handler (http_handlers (script_host m)) n = true \/
  (exists k hd, StateBags.handlers (state_bags (script_host m)) !! k = Some hd /\ StateBags.h_resource hd = n) \/
  is_Some (StateBags.pending (state_bags (script_host m)) !! n).

(** The loaded isolates are those of the started resources; whatever else is
    registered in the host belongs to a started resource or to one whose start
    failed. What scripts are told of a state is that state, unless a discovery
    has found the resource in that state ([F]). *)
Record lifecycle_ok (F : Name -> ResourceState -> Prop) m : Prop := {
  life_owned : exists X, owned (started_set m) X (script_host m) /\ started_set m ⊆ X /\
    forall n, n ∈ X -> exists e, resources m !! n = Some e /\ (state e = Started \/ state e = Error);
  life_view : forall n e, resources m !! n = Some e ->
    exists r, registry m !! n = Some r /\ (r_state r = script_state (state e) \/ r_state r = RUninitialized /\ F n (state e))
}.

Lemma lifecycle_registered F m n : lifecycle_ok F m -> registered m n -> exists e, resources m !! n = Some e /\ (state e = Started \/ state e = Error).
Proof.
  intros Hok Hn. destruct (life_owned F m Hok) as (X & Ho & HX & Hown). apply Hown. destruct Hn as [Hn|[(k & hd & Hk & <-)|Hn]].
  - apply (own_http _ _ _ Ho). by apply bool_decide_eq_true in Hn.
  - by eapply (own_handlers _ _ _ Ho).
  - apply (own_pending _ _ _ Ho). by apply elem_of_dom.
Qed.

Lemma lifecycle_mono (F F' : Name -> ResourceState -> Prop) m : (forall n s, F n s -> F' n s) -> lifecycle_ok F m -> lifecycle_ok F' m.
Proof.
  intros Hf [K1 K2]. split; [done|]. intros n e He. destruct (K2 n e He) as (r & Hr & [?|[? ?]]); exists r; split; auto.
Qed.

Lemma manager_new_ok F host dir : runtimes host = ∅ -> handlers (http_handlers host) = ∅ ->
  StateBags.handlers (state_bags host) = ∅ -> StateBags.pending (state_bags host) = ∅ -> lifecycle_ok F (manager_new host dir).
Proof.
  intros E1 E2 E3 E4. split; [|intros n e Hn; cbn in Hn; by rewrite lookup_empty in Hn].
  assert (Es : started_set (manager_new host dir) = ∅) by (unfold started_set; cbn; by rewrite map_filter_empty, dom_empty_L).
  exists ∅. rewrite Es. split_and!; [|done|set_solver]. split; cbn.
  - by rewrite E1, dom_empty_L.
  - by rewrite E2.
  - intros k hd. by rewrite E3, lookup_empty.
  - by rewrite E4, dom_empty_L.
Qed.

(** One resource has changed its state to [s]. *)
Definition moved (n : Name) (s : ResourceState) m m' : Prop :=
  (forall k, k <> n -> resources m' !! k = resources m !! k /\ registry m' !! k = registry m !! k) /\
  exists e, resources m' !! n = Some e /\ state e = s /\
    exists r, registry m' !! n = Some r /\ r_state r = script_state s.

Lemma moved_started n s m m' : moved n s m m' ->
  started_set m' = if decide (s = Started) then {[n]} ∪ started_set m else started_set m ∖ {[n]}.
Proof.
  intros (Hk & e & He & Hs & _). apply set_eq. intros k. destruct (decide (k = n)) as [->|Hne].
  - rewrite elem_of_started. unfold is_started. destruct (decide (s = Started)) as [->|Hn].
    + split; [set_solver|]. intros _. by exists e.
    + split; [intros (e' & He' & Hs'); congruence|set_solver].
  - assert (E : k ∈ started_set m' <-> k ∈ started_set m).
    { rewrite !elem_of_started. unfold is_started. by rewrite (proj1 (Hk k Hne)). }
    destruct (decide (s = Started)); set_solver.
Qed.

Lemma moved_ok F n s X X' m m' : lifecycle_ok F m -> moved n s m m' -> (s = Started \/ s = Error \/ s = Stopped) ->
  (forall k, k ∈ X -> exists e, resources m !! k = Some e /\ (state e = Started \/ state e = Error)) -> started_set m ⊆ X ->
  owned (if decide (s = Started) then {[n]} ∪ started_set m else started_set m ∖ {[n]}) X' (script_host m') ->
  X' ⊆ {[n]} ∪ X -> (s = Stopped -> X' = X ∖ {[n]}) -> (s <> Stopped -> {[n]} ∪ X ⊆ X' \/ X' = X /\ s = Error) -> lifecycle_ok F m'.
Proof.
  intros Hok Hm Hs HX HsX Ho Hsub Hstop Hmore. pose proof (moved_started n s m m' Hm) as Est. pose proof Hm as (Hk & e & He & Hse & r & Hr & Hrs).
  split.
  - exists X'. rewrite Est. split_and!; [done| |].
    + destruct Hs as [->|[->| ->]]; cbn.
      * destruct Hmore as [Hx|[_ ?]]; [done|set_solver|done].
      * destruct Hmore as [Hx|[-> _]]; [done|set_solver|set_solver].
      * rewrite Hstop by done. set_solver.
    + intros k Hin. destruct (decide (k = n)) as [->|Hne].
      * exists e. split; [done|]. destruct Hs as [->|[->| ->]]; [by left|by right|]. rewrite Hstop in Hin by done. set_solver.
      * rewrite (proj1 (Hk k Hne)). apply HX. set_solver.
  - intros k e' He'. destruct (decide (k = n)) as [->|Hne].
    + exists r. split; [done|]. left. congruence.
    + rewrite (proj1 (Hk k Hne)) in He'. rewrite (proj2 (Hk k Hne)). by apply (life_view F m Hok).
Qed.

Lemma finish_moved n e result m m1 : resources m !! n = Some e -> is_Some (registry m !! n) ->
  resources m1 = resources (set_entry n Loading m) -> registry m1 = set_state n RStarting (registry m) ->
  moved n (match result with inr _ => Started | inl _ => Error end) m (start_finish n result m1) /\
  script_host (start_finish n result m1) = script_host m1.
Proof.
  intros He [r Hr] E1 E2. unfold start_finish. rewrite E1. unfold set_entry at 1. cbn. rewrite lookup_alter_eq, He. cbn.
  split; [|by destruct result].
  assert (Hm : forall s rs, rs = script_state s -> moved n s m ((set_entry n s m1) <| registry := set_state n rs (registry m1) |>)).
  { intros s rs ->. unfold moved, set_entry, set_state. cbn. rewrite E1, E2. unfold set_entry, set_state. cbn. split.
    - intros k Hk. by rewrite !lookup_alter_ne by done.
    - rewrite !lookup_alter_eq, He, Hr. cbn. eexists. split_and!; [done|done|]. by eexists. }
  destruct result; by apply Hm.
Qed.

#[local] Arguments start_finish : simpl never.

Lemma start_ok F d n m m' : lifecycle_ok F m -> returned (start d n m) = Some m' -> lifecycle_ok F m'.
Proof.
  intros Hok. unfold start, start_begin. destruct (resources m !! n) as [e|] eqn:He; [|by intros [= <-]].
  destruct (decide (state e = Started)) as [|Hne]; [by intros [= <-]|].
  destruct (life_owned F m Hok) as (X & Ho & HX & Hown). destruct (life_view F m Hok n e He) as (r & Hr & _).
  assert (Hn : n ∉ started_set m) by (rewrite elem_of_started; intros (e' & He' & Hs'); congruence).
  assert (Hd : started_set m ∖ {[n]} = started_set m) by set_solver.
  unfold load_scripts. destruct (read_scripts _ _ _ _ _) as [err|scripts]; cbn.
  - intros [= <-]. match goal with |- context [start_finish n ?r ?m1] => destruct (finish_moved n e r m m1) as [Hm Hh] end; [done|by eexists|done|done|].
    apply (moved_ok F n Error X X m); try done; [by right; left| |set_solver|by right]. cbn. rewrite Hh, Hd. exact Ho.
  - pose proof (load_owned n scripts (started_set m) X (script_host m) Ho HX) as Hl.
    destruct (load_resource n scripts (script_host m)) as [[result|] h]; [|done]. destruct result as [err|[]]; intros [= <-];
      match goal with |- context [start_finish n ?r ?m1] => destruct (finish_moved n e r m m1) as [Hm Hh] end; try done; try (by eexists).
    + apply (moved_ok F n Error X ({[n]} ∪ X) m); try done; [by right; left| |by left]. cbn. rewrite Hh. exact Hl.
    + apply (moved_ok F n Started X ({[n]} ∪ X) m); try done; [by left| |by left]. cbn. rewrite Hh. exact Hl.
Qed.

(** [stop] of a resource that is known succeeds if it returns, and leaves
    nothing of a resource that was started. *)
Lemma stop_spec F n m r m' : lifecycle_ok F m -> stop n m = (Some r, m') -> lifecycle_ok F m' /\
  (is_Some (resources m !! n) -> r = inr tt /\ ~ is_started m' n) /\
  (is_started m n -> state_of (registry m') n = state_str RStopped /\ ~ registered m' n).
Proof.
  intros Hok. unfold stop, stop_check, is_started. destruct (resources m !! n) as [e|] eqn:He.
  2: { intros [= <- <-]. split_and!; [done|by intros []|by intros (? & ? & ?)]. }
  case_bool_decide as Hs.
  2: { intros [= <- <-]. split_and!; [done| |intros (e' & [= <-] & Hs'); by rewrite Hs' in Hs].
       intros _. split; [done|]. intros (e' & He' & Hs'). congruence. }
  destruct (life_owned F m Hok) as (X & Ho & HX & Hown). destruct (life_view F m Hok n e He) as (v & Hr & _).
  assert (Hn : n ∈ started_set m) by (apply elem_of_started; by exists e).
  pose proof (unload_owned n (started_set m) X (script_host m) Ho HX Hn) as Hl.
  unfold stop_unload. destruct (unload_resource n (script_host m)) as [[u|] h]; [|done]. destruct Hl as [-> Hl]. cbn. intros [= <- <-].
  assert (Hm : moved n Stopped m (stop_finish n (m <| script_host := h |>))).
  { unfold moved, stop_finish, set_entry, set_state. cbn. split; [intros k Hk; by rewrite !lookup_alter_ne by done|].
    rewrite !lookup_alter_eq, He, Hr. eexists. split_and!; [done|done|]. by eexists. }
  assert (Hok' : lifecycle_ok F (stop_finish n (m <| script_host := h |>))).
  { apply (moved_ok F n Stopped X (X ∖ {[n]}) m); try done; [by right; right|set_solver]. }
  destruct Hm as (_ & e1 & He1 & Hs1 & r1 & Hr1 & Hrs1). split_and!; [done| |].
  - intros _. split; [done|]. intros (e' & He' & Hs'). congruence.
  - intros _. split; [unfold state_of; by rewrite Hr1, Hrs1|]. intros Hreg.
    destruct (lifecycle_registered F _ n Hok' Hreg) as (e' & He' & [Hs'|Hs']); congruence.
Qed.

Lemma stop_ok F n m m' : lifecycle_ok F m -> returned (stop n m) = Some m' -> lifecycle_ok F m'.
Proof.
  intros Hok. unfold returned. destruct (stop n m) as [[r|] m1] eqn:E; [|done]. intros [= <-]. by apply (stop_spec F n m r m1).
Qed.

(** What leaves the states and the host alone. *)
Lemma same_states_ok F m m' : lifecycle_ok F m -> script_host m' = script_host m ->
  (forall n, state <$> resources m' !! n = state <$> resources m !! n \/ resources m !! n = None /\ state <$> resources m' !! n = Some Unloaded) ->
  (forall n e, resources m' !! n = Some e ->
    exists r, registry m' !! n = Some r /\ (r_state r = script_state (state e) \/ r_state r = RUninitialized /\ F n (state e))) -> lifecycle_ok F m'.
Proof.
  intros Hok Hh Hst Hv. destruct (life_owned F m Hok) as (X & Ho & HX & Hown).
  assert (E : started_set m' = started_set m).
  { apply set_eq. intros n. rewrite !elem_of_started. unfold is_started. destruct (Hst n) as [Hn|[Hn1 Hn2]].
    - destruct (resources m' !! n) as [e'|], (resources m !! n) as [e|]; try done. injection Hn as Hn.
      split; intros (x & [= <-] & Hx); eexists; (split; [done|congruence]).
    - rewrite Hn1. destruct (resources m' !! n) as [e'|]; [|done]. injection Hn2 as Hn2.
      split; intros (x & Hx & Hs); [injection Hx as <-; congruence|done]. }
  split; [|done]. exists X. rewrite E, Hh. split_and!; [done|done|]. intros n Hn. destruct (Hown n Hn) as (e & He & Hs).
  destruct (Hst n) as [Hs'|[Hs' _]]; [|congruence]. rewrite He in Hs'. destruct (resources m' !! n) as [e'|]; [|done].
  injection Hs' as Hs'. exists e'. split; [done|]. by rewrite Hs'.
Qed.

Lemma add_discovered_ok F m found :
  (forall e, resources m !! m_name (manifest found) = Some e -> state e = Unloaded \/ F (m_name (manifest found)) (state e)) ->
  lifecycle_ok F m -> lifecycle_ok F (add_discovered m found).
Proof.
  intros Hf Hok. apply (same_states_ok F m); [done|done| |]; unfold add_discovered, upsert_resource; cbn; intros n.
  - destruct (decide (m_name (manifest found) = n)) as [<-|Hne]; [|left; by rewrite lookup_insert_ne].
    rewrite lookup_insert_eq. destruct (resources m !! _) as [e|]; [by left|by right].
  - intros e. destruct (decide (m_name (manifest found) = n)) as [<-|Hne].
    + rewrite !lookup_insert_eq. intros [= <-]. eexists. split; [done|]. cbn.
      destruct (resources m !! m_name (manifest found)) as [e|] eqn:He; [|by left]. cbn. destruct (Hf e eq_refl) as [->|?]; [by left|by right].
    + rewrite !lookup_insert_ne by done. apply (life_view F m Hok).
Qed.

(** A discovery of [m] finds [n], whose state is [s]. *)
Definition finds (d : Disk) m (n : Name) (s : ResourceState) : Prop :=
  exists names, (discover d m).1 = inr names /\ n ∈ names /\ state <$> resources m !! n = Some s.

Lemma add_all_ok F m found :
  (forall f, f ∈ found -> forall s, state <$> resources m !! m_name (manifest f) = Some s -> F (m_name (manifest f)) s) ->
  forall m1, (forall n e, resources m1 !! n = Some e -> state e = Unloaded \/ state <$> resources m !! n = Some (state e)) ->
  lifecycle_ok F m1 -> lifecycle_ok F (foldl add_discovered m1 found).
Proof.
  induction found as [|f found IH]; intros Hin m1 Hst Hok; [done|]. cbn [foldl]. apply IH; [intros f' Hf'; apply Hin; by right| |].
  - intros n e. unfold add_discovered. cbn. rewrite lookup_insert_Some. intros [[<- <-]|[_ He]]; [|by apply Hst].
    destruct (resources m1 !! _) as [e1|] eqn:He1; [exact (Hst _ e1 He1)|by left].
  - apply add_discovered_ok; [|done]. intros e He. destruct (Hst _ e He) as [?|?]; [by left|right]. apply (Hin f); [by left|done].
Qed.

Lemma discover_ok F d m : lifecycle_ok F m -> lifecycle_ok (fun n s => F n s \/ finds d m n s) (discover d m).2.
Proof.
  intros Hok. apply (lifecycle_mono _ (fun n s => F n s \/ finds d m n s)) in Hok; [|auto]. unfold finds, discover in *.
  destruct (discover_dir d _) as [|found]; [done|]. cbn [fst snd] in *. apply (add_all_ok _ m); [| |done].
  - intros f Hf s Hs. right. eexists. split_and!; [done|apply list_elem_of_fmap; by exists f|done].
  - intros n e ->. by right.
Qed.

Lemma reparse_ok F d n dir m : lifecycle_ok F m -> lifecycle_ok F (reparse d n dir m).
Proof.
  intros Hok. unfold reparse. destruct (parse_manifest d dir) as [|mf]; [done|]. destruct (resources m !! n) as [e|] eqn:He; [|done].
  apply (same_states_ok F m); [done|done| |]; unfold upsert_resource; cbn; intros k.
  - left. destruct (decide (n = k)) as [<-|Hne]; [by rewrite lookup_insert_eq, He|by rewrite lookup_insert_ne].
  - intros e'. destruct (decide (n = k)) as [<-|Hne].
    + rewrite !lookup_insert_eq. intros [= <-]. eexists. split; [done|by left].
    + rewrite !lookup_insert_ne by done. apply (life_view F m Hok).
Qed.

Lemma ensure_ok F d n m m' : lifecycle_ok F m -> returned (ensure d n m) = Some m' -> lifecycle_ok F m'.
Proof.
  intros Hok. unfold ensure. pose proof (stop_ok F n m) as Hs. destruct (stop n m) as [[[e|[]]|] m1]; [by intros [= <-]; apply Hs| |done].
  apply start_ok. by apply Hs.
Qed.

Lemma start_each_ok F d names m' : forall m, lifecycle_ok F m -> returned (start_each d names m) = Some m' -> lifecycle_ok F m'.
Proof.
  induction names as [|n names IH]; intros m Hok; cbn [start_each]; [by intros [= <-]|]. pose proof (start_ok F d n m) as Hs.
  destruct (start d n m) as [[[e|[]]|] m1]; [by intros [= <-]; apply Hs| |done]. apply IH. by apply Hs.
Qed.

(** ** Every call of the manager, one after the other *)

Inductive ManagerCall :=
| Discover (d : Disk)
| StartAll (d : Disk)
| Start (d : Disk) (name : Name)
| Stop (name : Name)
| Ensure (d : Disk) (name : Name)
| Restart (d : Disk) (name : Name)
| SetDecryptor (dec : ScriptDecryptor)
| TriggerAll (event : Name) (args : list value)
| RemoteEvent (event args_json : Name)
| Broadcast (c : RuntimeCommand)
| Connecting (source : Z) (player_name : Name)
| TriggerOn (resource event : Name) (args : list value).

Definition on_host {A} (f : ScriptHost -> option A * ScriptHost) m : option A * ResourceManager :=
  let '(r, h) := f (script_host m) in (r, m <| script_host := h |>).

(** [None]: the call does not return. *)
Definition manager_call (c : ManagerCall) m : option ResourceManager :=
  match c with
  | Discover d => Some (discover d m).2
  | StartAll d => start_all d m ≫= returned
  | Start d name => returned (start d name m)
  | Stop name => returned (stop name m)
  | Ensure d name => returned (ensure d name m)
  | Restart d name => returned (restart d name m)
  | SetDecryptor dec => Some (set_script_decryptor dec m)
  | TriggerAll event args => returned (on_host (trigger_event event args) m)
  | RemoteEvent event args_json => returned (on_host (trigger_remote_event event args_json) m)
  | Broadcast c => returned (on_host (broadcast_once c) m)
  | Connecting source player_name => returned (on_host (fire_player_connecting source player_name) m)
  | TriggerOn resource event args => returned (on_host (trigger_event_on resource event args) m)
  end.

Fixpoint manager_calls (calls : list ManagerCall) m : option ResourceManager :=
  match calls with [] => Some m | c :: calls => manager_call c m ≫= manager_calls calls end.

Lemma manager_calls_app c1 c2 : forall m, manager_calls (c1 ++ c2) m = manager_calls c1 m ≫= manager_calls c2.
Proof. induction c1 as [|c c1 IH]; intros m; [done|]. cbn. destruct (manager_call c m); [apply IH|done]. Qed.

Lemma on_host_ok {A} F (f : ScriptHost -> option A * ScriptHost) m m' :
  (forall D X, D ⊆ X -> owned D X (script_host m) -> owned D X (f (script_host m)).2) ->
  lifecycle_ok F m -> returned (on_host f m) = Some m' -> lifecycle_ok F m'.
Proof.
  intros Hf Hok. destruct (life_owned F m Hok) as (X & Ho & HX & Hown). specialize (Hf _ X HX Ho). unfold returned, on_host.
  destruct (f (script_host m)) as [[r|] h]; [|done]. intros [= <-]. split; [|exact (life_view F m Hok)]. by exists X.
Qed.

(** What one call has found on disk. *)
Definition call_finds (c : ManagerCall) m (n : Name) (s : ResourceState) : Prop := match c with Discover d => finds d m n s | _ => False end.

Lemma manager_call_ok F c m m' : lifecycle_ok F m -> manager_call c m = Some m' -> lifecycle_ok (fun n s => F n s \/ call_finds c m n s) m'.
Proof.
  intros Hok Hc. destruct c; cbn [manager_call call_finds] in *.
  { injection Hc as <-. by apply discover_ok. }
  all: apply (lifecycle_mono F); [by left|].
  - unfold start_all in Hc. destruct (ResourceOrder.topo_sort _) as [[names|e]|]; [|by injection Hc as <-|done]. by apply (start_each_ok F) in Hc.
  - by apply (start_ok F) in Hc.
  - by apply (stop_ok F) in Hc.
  - by apply (ensure_ok F) in Hc.
  - unfold restart in Hc. destruct (resources m !! name) as [e|]; [|by injection Hc as <-]. apply (ensure_ok F) in Hc; [done|by apply reparse_ok].
  - injection Hc as <-. apply (same_states_ok F m); try done; [by left|]. apply (life_view F m Hok).
  - eapply on_host_ok; [|exact Hok|exact Hc]. intros D X HX Ho. assert (HK := owned_kept D X HX). by apply (broadcast_kept (owned D X)).
  - eapply on_host_ok; [|exact Hok|exact Hc]. intros D X HX Ho. assert (HK := owned_kept D X HX). by apply (broadcast_kept (owned D X)).
  - eapply on_host_ok; [|exact Hok|exact Hc]. intros D X HX Ho. assert (HK := owned_kept D X HX). by apply (broadcast_once_kept (owned D X)).
  - eapply on_host_ok; [|exact Hok|exact Hc]. intros D X HX Ho. assert (HK := owned_kept D X HX). unfold fire_player_connecting.
    pose proof (broadcast_once_kept (owned D X) (DispatchPlayerConnecting source player_name) _ Ho) as Hb.
    destruct (broadcast_once _ _) as [[u|] h1]; [|done]. destruct Hb. by split.
  - eapply on_host_ok; [|exact Hok|exact Hc]. intros D X HX Ho. assert (HK := owned_kept D X HX). by apply (trigger_event_on_kept (owned D X)).
Qed.

(** A discovery among the calls has found [n] when its state was [s]. *)
Definition found_as m0 (calls : list ManagerCall) (n : Name) (s : ResourceState) : Prop :=
  exists before d after m, calls = before ++ Discover d :: after /\ manager_calls before m0 = Some m /\ finds d m n s.

Lemma manager_calls_ok m0 rest m' : forall past m, manager_calls past m0 = Some m -> lifecycle_ok (found_as m0 past) m ->
  manager_calls rest m = Some m' -> lifecycle_ok (found_as m0 (past ++ rest)) m'.
Proof.
  induction rest as [|c rest IH]; intros past m Hp Hok; cbn [manager_calls].
  { rewrite app_nil_r. by intros [= <-]. }
  destruct (manager_call c m) as [m1|] eqn:Hc; [|done]. cbn [mbind option_bind]. rewrite (cons_middle c past rest), app_assoc. apply IH.
  - rewrite manager_calls_app, Hp. cbn. by rewrite Hc.
  - pose proof (manager_call_ok _ c m m1 Hok Hc) as K1. eapply lifecycle_mono; [|exact K1]. intros n s [(b & d & a & mb & -> & Hb & Hf)|Hf].
    + exists b, d, (a ++ [c]), mb. split_and!; [by rewrite <- app_assoc|done|done].
    + destruct c; try done. by exists past, d, [], m.
Qed.

(** *** When every dispatch settles *)

Section settled.
Context (Hs : settling).

Lemma start_returns d n m : is_Some (start d n m).1.
Proof.
  unfold start, start_begin. destruct (resources m !! n) as [e|]; [|by eexists]. destruct (decide _); [by eexists|]. unfold load_scripts.
  destruct (read_scripts _ _ _ _ _) as [err|scripts]; [by eexists|]. cbn [script_host].
  match goal with |- context [load_resource n scripts ?h] => destruct (load_returns Hs n scripts h) as [r Hr] end.
  destruct (load_resource _ _ _) as [r' h]. cbn in Hr. subst r'. by eexists.
Qed.

Lemma stop_returns n m : is_Some (stop n m).1.
Proof.
  unfold stop. destruct (stop_check n m) as [e|[|]]; [by eexists| |by eexists]. unfold stop_unload.
  destruct (unload_returns Hs n (script_host m)) as [r Hr]. destruct (unload_resource _ _) as [r' h]. cbn in Hr. subst r'.
  destruct r; by eexists.
Qed.

Lemma ensure_returns d n m : is_Some (ensure d n m).1.
Proof.
  unfold ensure. destruct (stop_returns n m) as [r Hr]. destruct (stop n m) as [r' m1]. cbn in Hr. subst r'.
  destruct r; [by eexists|apply start_returns].
Qed.

Lemma start_each_returns d names : forall m, is_Some (start_each d names m).1.
Proof.
  induction names as [|n names IH]; intros m; [by eexists|]. cbn [start_each]. destruct (start_returns d n m) as [r Hr].
  destruct (start d n m) as [r' m1]. cbn in Hr. subst r'. destruct r; [by eexists|apply IH].
Qed.

Lemma returned_some {A} (r : option A * ResourceManager) : is_Some r.1 -> is_Some (returned r).
Proof. destruct r as [[x|] m]; [by eexists|by intros []]. Qed.

Lemma on_host_returns {A} (f : ScriptHost -> option A * ScriptHost) m : is_Some (f (script_host m)).1 -> is_Some (returned (on_host f m)).
Proof. intros Hf. apply returned_some. unfold on_host. by destruct (f (script_host m)). Qed.

Lemma manager_call_returns c m : is_Some (manager_call c m).
Proof.
  destruct c; cbn [manager_call]; try (by eexists); try (lazymatch goal with |- is_Some (returned (on_host _ _)) => apply on_host_returns | _ => apply returned_some end).
  - unfold start_all. pose proof (ResourceOrder.topo_sort_spec (graph m)) as Ht.
    assert (Hnd : NoDup (graph m).*1).
    { unfold graph. rewrite <- list_fmap_compose. apply (NoDup_fmap_fst (map_to_list (resources m)));
        [intros x y1 y2; rewrite !elem_of_map_to_list; congruence|apply NoDup_map_to_list]. }
    specialize (Ht Hnd). destruct (ResourceOrder.topo_sort _) as [[names|e]|]; [apply returned_some, start_each_returns|by eexists|done].
  - apply start_returns.
  - apply stop_returns.
  - apply ensure_returns.
  - unfold restart. destruct (resources m !! name); [apply ensure_returns|by eexists].
  - by apply broadcast_returns.
  - by apply broadcast_returns.
  - by apply broadcast_once_returns.
  - unfold fire_player_connecting. destruct (broadcast_once_returns Hs (DispatchPlayerConnecting source player_name) (script_host m)) as [u Hu].
    destruct (broadcast_once _ _) as [r h]. cbn in Hu. subst r. by eexists.
  - by apply trigger_event_on_returns.
Qed.

Lemma manager_calls_return calls : forall m, is_Some (manager_calls calls m).
Proof. induction calls as [|c calls IH]; intros m; [by eexists|]. cbn. destruct (manager_call_returns c m) as [m1 ->]. apply IH. Qed.
End settled.

(** C31: lifecycle. Resources are discovered, started, stopped and restarted,
    one call after the other, with any events in between. The calls return if
    the isolates settle every dispatch, and a list of calls that have all
    returned leaves this: a resource has an isolate exactly when it is started;
    an HTTP handler, a state-bag handler or a queued change belongs to a
    resource that is started or whose last start failed, which keeps what its
    scripts had registered; [GetResourceState] tells the state, except that it
    may tell "uninitialized" of a resource which a discovery has found again in
    the state it is in; and a known resource can be stopped: the call fails
    only to return, when a dispatch does not settle, and nothing is left
    registered of a resource that was started. *)
Theorem lifecycle_exact dir calls :
  (settling -> is_Some (manager_calls calls (manager_new spawn dir))) /\
  forall m, manager_calls calls (manager_new spawn dir) = Some m ->
  (forall n, is_Some (runtimes (script_host m) !! n) <-> is_started m n) /\
  (forall n, registered m n -> exists e, resources m !! n = Some e /\ (state e = Started \/ state e = Error)) /\
  (forall n e, resources m !! n = Some e ->
    state_of (registry m) n = state_str (script_state (state e)) \/
    state_of (registry m) n = state_str RUninitialized /\ found_as (manager_new spawn dir) calls n (state e)) /\
  (forall n, is_Some (resources m !! n) ->
    match stop n m with
    | (None, _) => ~ settling
    | (Some r, m') => r = inr tt /\ ~ is_started m' n /\ (is_started m n -> state_of (registry m') n = state_str RStopped /\ ~ registered m' n)
    end).
Proof.
  split; [intros Hs; by apply manager_calls_return|]. intros m Hm.
  assert (Hok : lifecycle_ok (found_as (manager_new spawn dir) calls) m).
  { apply (manager_calls_ok _ calls m [] (manager_new spawn dir)); [done|by apply manager_new_ok|done]. }
  destruct (life_owned _ m Hok) as (X & Ho & HX & Hown). split_and!.
  - intros n. rewrite <- elem_of_dom, (own_runtimes _ _ _ Ho). apply elem_of_started.
  - intros n. by apply (lifecycle_registered _ m n Hok).
  - intros n e He. unfold state_of. destruct (life_view _ m Hok n e He) as (r & -> & [->|[-> ?]]); [by left|by right].
  - intros n Hn. pose proof (stop_spec (found_as (manager_new spawn dir) calls) n m) as Hstop. pose proof (fun Hs => stop_returns Hs n m) as Hret.
    destruct (stop n m) as [[r|] m']; [|intros Hs; by destruct (Hret Hs)].
    destruct (Hstop r m' Hok eq_refl) as (_ & K1 & K2). destruct (K1 Hn). by split_and!.
Qed.
End lifecycle.

(** ** What two calls at once may do *)

Section wedged.
Context `{Isolates}.
Implicit Types m : ResourceManager.

Lemma no_unload n m : runtimes (script_host m) !! n = None -> stop_unload n m = (Some (inl (Scripting (ResourceNotLoaded n))), m).
Proof. intros Hr. unfold stop_unload, unload_resource. rewrite Hr. by destruct m. Qed.

Definition wedged n m : Prop := (exists e, resources m !! n = Some e /\ state e = Started) /\ runtimes (script_host m) !! n = None.

Lemma wedged_stop n m : wedged n m -> stop n m = (Some (inl (Scripting (ResourceNotLoaded n))), m).
Proof. intros [(e & He & Hs) Hr]. unfold stop, stop_check. rewrite He, bool_decide_eq_true_2 by done. by rewrite no_unload. Qed.

(** wedged. A resource that counts as started and has no isolate stays that
    way: starting it does nothing and reports success, stopping, ensuring and
    restarting it fail. *)
Theorem wedged_for_good d n m : wedged n m ->
  start d n m = (Some (inr tt), m) /\ stop n m = (Some (inl (Scripting (ResourceNotLoaded n))), m) /\
  ensure d n m = (Some (inl (Scripting (ResourceNotLoaded n))), m) /\
  (restart d n m).1 = Some (inl (Scripting (ResourceNotLoaded n))) /\ wedged n (restart d n m).2.
Proof.
  intros Hw. pose proof Hw as [(e & He & Hs) Hr].
  assert (Hen : forall m, wedged n m -> ensure d n m = (Some (inl (Scripting (ResourceNotLoaded n))), m)).
  { intros m0 Hm0. unfold ensure. by rewrite wedged_stop. }
  split_and!; [|by apply wedged_stop|by apply Hen| |].
  - unfold start, start_begin. rewrite He, decide_True by done. done.
  - unfold restart. rewrite He. rewrite Hen; [done|]. unfold reparse. destruct (parse_manifest _ _); [done|]. rewrite He.
    split; [|done]. eexists. cbn. rewrite lookup_insert_eq. done.
  - unfold restart. rewrite He. assert (Hp : wedged n (reparse d n (root (discovered e)) m)); [|by rewrite Hen].
    unfold reparse. destruct (parse_manifest _ _); [done|]. rewrite He. split; [|done]. eexists. cbn. rewrite lookup_insert_eq. done.
Qed.
End wedged.

(** ** Examples *)

#[local] Existing Instances Connection.sample_json sample_isolates.

Definition chat : Name := as_bytes "chat".
Definition chat_manifest : ResourceManifest :=
  {| m_name := chat; m_version := None; m_dependencies := []; m_server_scripts := [as_bytes "main.js"]; m_client_scripts := []; m_files := [] |}.

(** One resource, with one script. *)
Definition sample_disk (code : string) : Disk := {|
  read_dir := fun _ => Some [as_bytes "resources/chat"]; is_dir := fun _ => true; is_file := fun _ => true;
  read := fun p => if bool_decide (p = as_bytes "resources/chat/main.js") then Some (as_bytes code) else Some [];
  parse_json := fun _ => Some chat_manifest |}.

Definition fresh : ResourceManager := (discover (sample_disk "") (manager_new spawn (as_bytes "resources"))).2.
Definition running : ResourceManager := (start (sample_disk "") chat fresh).2.

(** Two restarts at once: both see the resource started; the second stops what
    the first has just loaded, before the first records that it has. *)
Definition raced : ResourceManager :=
  let m := stop_finish chat (stop_unload chat running).2 in
  let m := (start_begin chat m).2 in
  let '(result, m) := load_scripts (sample_disk "") chat (as_bytes "resources/chat") [as_bytes "main.js"] m in
  let m := stop_finish chat (stop_unload chat m).2 in
  start_finish chat (default (inr tt) result) m.

Lemma wedged_for_good_witness : stop_check chat running = inr true /\ wedged chat raced /\
  (restart (sample_disk "") chat raced).1 = Some (inl (Scripting (ResourceNotLoaded chat))).
Proof.
  assert (Hw : wedged chat raced).
  { split; [|vm_compute; reflexivity]. eexists. split; [vm_compute; reflexivity|reflexivity]. }
  split; [vm_compute; reflexivity|]. split; [exact Hw|]. apply (wedged_for_good (sample_disk "") chat raced Hw).
Defined.

(** A scan of the resources makes a running one uninitialized for scripts. *)
Example rescan_forgets : state_of (registry running) chat = as_bytes "started" /\
  state_of (registry (discover (sample_disk "") running).2) chat = as_bytes "uninitialized" /\
  started_names (discover (sample_disk "") running).2 = [chat].
Proof. vm_compute. done. Qed.

(** A resource whose start failed keeps its HTTP handler, and cannot be
    stopped into giving it up. *)
Example failed_start_keeps_handler : let m := (stop chat (start (sample_disk "broken") chat fresh).2).2 in
  state <$> resources m !! chat = Some Error /\ has_handler (http_handlers (script_host m)) chat = true.
Proof. vm_compute. done. Qed.

Definition sample_calls : list ManagerCall := [Discover (sample_disk ""); Start (sample_disk "") chat; TriggerAll (as_bytes "ping") []].

Lemma lifecycle_exact_witness :
  exists m, manager_calls sample_calls (manager_new spawn (as_bytes "resources")) = Some m /\ is_Some (runtimes (script_host m) !! chat).
Proof.
  destruct (manager_calls sample_calls (manager_new spawn (as_bytes "resources"))) as [m|] eqn:E; [|vm_compute in E; discriminate].
  exists m. split; [reflexivity|]. destruct (@lifecycle_exact _ _ sample_isolates_laws (as_bytes "resources") sample_calls) as [_ Hl].
  apply (proj1 (Hl m E)). vm_compute in E. injection E as <-. eexists. split; [vm_compute; reflexivity|reflexivity].
Defined.
