(* ===== verification/Packfile.v ===== *)
(** * The archive of a resource's client files
      (src/crates/baston-zone/src/packfile.rs)

    A client downloads the files of a resource as one RPF2 archive: a header, a
    table of contents of 16-byte records, the names, and the data, aligned. The
    writer builds a tree of directories, flattens it, and patches the records
    once it knows where names and data have gone. A BTreeMap is a sorted
    association list. *)

From Stdlib Require Import Sorting.Sorted.
From S2P Require Import Prelude Decimal Udp.
From S2P Require ResourceManager.
#[local] Open Scope Z_scope.

Abbreviation Name := (list Z).

Definition RPF2_MAGIC : Z := 0x32465052.
Definition ALIGNMENT : nat := Z.to_nat 2048.
Definition DIRECTORY_FLAG : Z := 0x80000000.

Record PackfileInput := { in_path : Name; in_data : list Z }.

(** ** The tree *)

Inductive DirNode := Dir (dirs : list (Name * DirNode)) (files : list (Name * list Z)).

Definition dirs_of (n : DirNode) : list (Name * DirNode) := match n with Dir dirs _ => dirs end.
Definition files_of (n : DirNode) : list (Name * list Z) := match n with Dir _ files => files end.
Definition empty_dir : DirNode := Dir [] [].

(** What [BTreeMap::entry] and [insert] do to a map. *)
Fixpoint upsert {V} (key : Name) (f : option V -> V) (m : list (Name * V)) : list (Name * V) :=
  match m with
  | [] => [(key, f None)]
  | (k, v) :: rest =>
      if bool_decide (k = key) then (k, f (Some v)) :: rest
      else if bytes_leb key k then (key, f None) :: m
      else (k, v) :: upsert key f rest
  end.

(** The directories and the file name of a path: [split_once('/')] as long as
    something follows the slash. *)
Fixpoint segments (part path : Name) : list Name :=
  match path with
  | [] => [part]
  | b :: rest => if (b =? 47) && negb (bool_decide (rest = [])) then part :: segments [] rest else segments (part ++ [b]) rest
  end.

Fixpoint insert_at (segs : list Name) (data : list Z) (node : DirNode) : DirNode :=
  match segs with
  | [] => node
  | [name] => Dir (dirs_of node) (upsert name (fun _ => data) (files_of node))
  | dir :: segs => Dir (upsert dir (fun child => insert_at segs data (default empty_dir child)) (dirs_of node)) (files_of node)
  end.

Definition insert (path : Name) (data : list Z) (node : DirNode) : DirNode := insert_at (segments [] path) data node.

(** ** The table of contents *)

Inductive TocEntry :=
| TocDir (name : Name) (child_count first_child : Z)
| TocFile (name : Name) (data : list Z).

Definition entry_name (e : TocEntry) : Name := match e with TocDir name _ _ | TocFile name _ => name end.

(** [pad_to], of a buffer whose length is given. *)
Definition padding (len : nat) : list Z :=
  let rem := (len mod ALIGNMENT)%nat in if (rem =? 0)%nat then [] else repeat 0 (ALIGNMENT - rem).
Definition pad_to (buf : list Z) : list Z := buf ++ padding (length buf).

Definition name_leb (a b : Name * (DirNode + list Z)) : bool := bytes_leb a.1 b.1.

Definition children (node : DirNode) : list (Name * (DirNode + list Z)) :=
  sort_by name_leb (((fun d => (d.1, inl d.2)) <$> dirs_of node) ++ ((fun f => (f.1, inr f.2)) <$> files_of node)).

Definition set_counts (child_count first_child : Z) (e : TocEntry) : TocEntry :=
  match e with TocDir name _ _ => TocDir name child_count first_child | TocFile _ _ => e end.

(** One child of a directory: its entry, and its place among those to do. *)
Definition push_child (acc : list TocEntry * list (nat * DirNode)) (c : Name * (DirNode + list Z)) :
    list TocEntry * list (nat * DirNode) :=
  let '(entries, sub_dirs) := acc in
  match c.2 with
  | inl node => (entries ++ [TocDir c.1 0 0], sub_dirs ++ [(length entries, node)])
  | inr data => (entries ++ [TocFile c.1 data], sub_dirs)
  end.

Fixpoint dir_count (n : DirNode) : nat :=
  match n with Dir dirs _ => S (foldr (fun d n => (dir_count d.2 + n)%nat) O dirs) end.

(** [while let Some((dir_index, node)) = pending.pop()], the top of the stack
    first; each turn does one directory. *)
Fixpoint flatten_loop (turns : nat) (entries : list TocEntry) (pending : list (nat * DirNode)) : option (list TocEntry) :=
  match pending, turns with
  | [], _ => Some entries
  | _, O => None
  | (dir_index, node) :: pending, S turns =>
      let first_child := u32 (Z.of_nat (length entries)) in
      let child_count := u32 (Z.of_nat (length (children node))) in
      let entries := alter (set_counts child_count first_child) dir_index entries in
      let '(entries, sub_dirs) := foldl push_child (entries, []) (children node) in
      flatten_loop turns entries (sub_dirs ++ pending)
  end.

(** The default is never used ([flatten_placed]). *)
Definition flatten (root : DirNode) : list TocEntry :=
  default [] (flatten_loop (dir_count root) [TocDir [] 0 0] [(O, root)]).

(** ** The archive *)

Definition le32 (z : Z) : list Z := to_le_bytes 4 (u32 z).

(** [buf[off..off + n].copy_from_slice(bytes)]; every place patched is there
    ([patch_field]). *)
Definition patch (off : nat) (bytes buf : list Z) : list Z := take off buf ++ bytes ++ drop (off + length bytes) buf.

Definition toc_record (e : TocEntry) : list Z :=
  match e with
  | TocDir _ child_count first_child => le32 0 ++ le32 child_count ++ le32 (Z.lor first_child DIRECTORY_FLAG) ++ le32 child_count
  | TocFile _ _ => le32 0 ++ le32 0 ++ le32 0 ++ le32 0
  end.

Definition write_name (toc_start names_base : nat) (acc : nat * list Z) (e : TocEntry) : nat * list Z :=
  let '(i, buf) := acc in
  let record := (toc_start + i * 16)%nat in
  let name_off := if (i =? 0)%nat then 0 else Z.of_nat (length buf - names_base) in
  let buf := patch record (le32 name_off) buf in
  (S i, if (i =? 0)%nat then buf else buf ++ entry_name e ++ [0]).

Definition write_data (toc_start : nat) (acc : nat * list Z) (e : TocEntry) : nat * list Z :=
  let '(i, buf) := acc in
  (S i, match e with
        | TocDir _ _ _ => buf
        | TocFile _ data =>
            let record := (toc_start + i * 16)%nat in
            let offset := Z.of_nat (length buf) in
            let len := Z.of_nat (length data) in
            let buf := patch (record + 4) (le32 len) buf in
            let buf := patch (record + 8) (le32 offset) buf in
            let buf := patch (record + 12) (le32 len) buf in
            pad_to (buf ++ data)
        end).

(** [path.replace('\\', '/')] and [trim_start_matches('/')]. *)
Definition forward_slashes (path : Name) : Name := (fun b => if b =? 92 then 47 else b) <$> path.
Fixpoint trim_slashes (path : Name) : Name := match path with b :: rest => if b =? 47 then trim_slashes rest else path | [] => [] end.
Definition archive_path (path : Name) : Name := trim_slashes (forward_slashes path).

Definition add_file (root : DirNode) (f : PackfileInput) : DirNode :=
  let path := archive_path (in_path f) in if bool_decide (path = []) then root else insert path (in_data f) root.

Definition rpf_header (entries : list TocEntry) : list Z :=
  pad_to (le32 RPF2_MAGIC ++ le32 0 ++ le32 (Z.of_nat (length entries)) ++ le32 0 ++ le32 0).

Definition write_rpf (entries : list TocEntry) : list Z :=
  let buf := rpf_header entries in
  let toc_start := length buf in
  let buf := buf ++ concat (toc_record <$> entries) in
  let names_base := length buf in
  let buf := buf ++ [47; 0] in
  let buf := (foldl (write_name toc_start names_base) (O, buf) entries).2 in
  let buf := pad_to buf in
  let toc_size := Z.of_nat (length buf) in
  let buf := patch 4 (le32 toc_size) buf in
  (foldl (write_data toc_start) (O, buf) entries).2.

Definition build_rpf (files : list PackfileInput) : list Z := write_rpf (flatten (foldl add_file empty_dir files)).

(** ** [generate_fxmanifest] *)

Fixpoint join (sep : Name) (items : list Name) : Name :=
  match items with [] => [] | [item] => item | item :: rest => item ++ sep ++ join sep rest end.

Definition NEWLINE : Name := [10].
Definition lua_list (items : list Name) : Name :=
  join (as_bytes "," ++ NEWLINE) ((fun i => as_bytes "    '" ++ forward_slashes i ++ as_bytes "'") <$> items).

Definition lua_block (key : string) (items : list Name) : Name :=
  if bool_decide (items = []) then []
  else as_bytes key ++ as_bytes " {" ++ NEWLINE ++ lua_list items ++ NEWLINE ++ as_bytes "}" ++ NEWLINE.

Definition generate_fxmanifest (m : ResourceManager.ResourceManifest) : Name :=
  as_bytes "-- generated by BASTON from manifest.json" ++ NEWLINE ++ as_bytes "fx_version 'cerulean'" ++ NEWLINE
  ++ as_bytes "game 'gta5'" ++ NEWLINE ++ NEWLINE
  ++ lua_block "client_scripts" (ResourceManager.m_client_scripts m) ++ lua_block "files" (ResourceManager.m_files m).

(** A quote in a file name ends the Lua string. *)
Example broken_manifest : lua_list [as_bytes "it's.js"] = as_bytes "    'it's.js'".
Proof. reflexivity. Qed.

(** ** A reader of the documented layout *)

Definition u32_at (buf : list Z) (off : nat) : Z := from_le_bytes (take 4 (drop off buf)).

Fixpoint until_nul (bs : list Z) : Name := match bs with b :: rest => if b =? 0 then [] else b :: until_nul rest | [] => [] end.

(** The archive names its table's length; the table starts at the alignment. *)
Definition toc_len (buf : list Z) : nat := Z.to_nat (u32_at buf 8).
Definition field_at (buf : list Z) (i k : nat) : Z := u32_at buf (ALIGNMENT + i * 16 + 4 * k).
Definition name_at (buf : list Z) (i : nat) : Name :=
  until_nul (drop (ALIGNMENT + toc_len buf * 16 + Z.to_nat (field_at buf i 0)) buf).
Definition is_dir_at (buf : list Z) (i : nat) : bool := Z.testbit (field_at buf i 2) 31.

(** The child of directory [i] with a name, of a kind. *)
Definition child_at (buf : list Z) (i : nat) (want_dir : bool) (name : Name) : option nat :=
  List.find (fun j => Bool.eqb (is_dir_at buf j) want_dir && bool_decide (name_at buf j = name))
    (seq (Z.to_nat (Z.land (field_at buf i 2) 0x7FFFFFFF)) (Z.to_nat (field_at buf i 1))).

Fixpoint read_at (buf : list Z) (i : nat) (segs : list Name) : option (list Z) :=
  match segs with
  | [] => None
  | [name] =>
      j ← child_at buf i false name;
      Some (take (Z.to_nat (field_at buf j 1)) (drop (Z.to_nat (field_at buf j 2)) buf))
  | dir :: segs => j ← child_at buf i true dir; read_at buf j segs
  end.

Definition read_rpf (buf : list Z) (path : Name) : option (list Z) := read_at buf O (segments [] path).

(** What the archive is meant to hold at a path: the last file given for it. *)
Definition last_given (files : list PackfileInput) (path : Name) : option (list Z) :=
  foldl (fun found f => let p := archive_path (in_path f) in
    if bool_decide (p = []) then found else if bool_decide (segments [] p = segments [] path) then Some (in_data f) else found)
    None files.

Example small_archive :
  let files := [{| in_path := as_bytes "dist\client/index.js"; in_data := [1; 2; 3] |};
                {| in_path := as_bytes "/fxmanifest.lua"; in_data := [4; 5] |}] in
  let rpf := build_rpf files in
  toc_len rpf = 5%nat /\ read_rpf rpf (as_bytes "dist/client/index.js") = Some [1; 2; 3] /\
  read_rpf rpf (as_bytes "fxmanifest.lua") = Some [4; 5] /\ read_rpf rpf (as_bytes "dist") = None.
Proof. vm_compute. done. Qed.

(** ** The tree as a map *)

Definition assoc {V} (k : Name) (m : list (Name * V)) : option V := snd <$> List.find (fun e => bool_decide (e.1 = k)) m.

(** Keys in order, each once, none with a NUL. *)
Definition below (a b : Name) : Prop := a <> b /\ Is_true (bytes_leb a b).
Definition keys_ok {V} (m : list (Name * V)) : Prop := StronglySorted below m.*1 /\ Forall (fun k => 0 ∉ k) m.*1.

Inductive tree_ok : DirNode -> Prop :=
| tree_ok_dir dirs files : keys_ok dirs -> keys_ok files -> (forall n d, (n, d) ∈ dirs -> tree_ok d) -> tree_ok (Dir dirs files).

Lemma empty_ok : tree_ok empty_dir.
Proof. repeat constructor. by intros n d Hd%elem_of_nil. Qed.

Lemma below_absent {V} key k (v : V) m : keys_ok ((k, v) :: m) -> below key k -> assoc key ((k, v) :: m) = None.
Proof.
  intros [Hs _] [Hne Hle]. unfold assoc. cbn. rewrite bool_decide_eq_false_2 by congruence.
  destruct (List.find _ m) as [[k' v']|] eqn:E; [|done]. apply find_some in E as [Hin Hk]. apply bool_decide_eq_true in Hk. cbn in Hk. subst k'.
  cbn in Hs. apply StronglySorted_inv in Hs as [_ Hall]. rewrite Forall_fmap, Forall_forall in Hall.
  apply list_elem_of_In in Hin. destruct (Hall _ Hin) as [_ Hge]. cbn in Hge. destruct Hne. by apply (bytes_leb_antisymm key k).
Qed.

Lemma keys_ok_tail {V} k (v : V) m : keys_ok ((k, v) :: m) -> keys_ok m.
Proof. intros [Hs Hn]. cbn in *. apply StronglySorted_inv in Hs as [Hs _]. apply Forall_cons in Hn as [_ Hn]. by split. Qed.

Lemma assoc_upsert {V} key (f : option V -> V) m k : keys_ok m ->
  assoc k (upsert key f m) = if bool_decide (k = key) then Some (f (assoc key m)) else assoc k m.
Proof.
  intros Hok. case_bool_decide as Hk.
  - subst k. induction m as [|[k v] m IH]; cbn [upsert]; [unfold assoc; cbn; by rewrite bool_decide_eq_true_2|].
    destruct (decide (k = key)) as [->|Hne]; [rewrite (bool_decide_eq_true_2 (key = key)) by done; unfold assoc; cbn;
      by rewrite (bool_decide_eq_true_2 (key = key))|]. rewrite (bool_decide_eq_false_2 (k = key)) by done.
    destruct (bytes_leb key k) eqn:El.
    + rewrite (below_absent key k v m Hok) by (split; [congruence|by rewrite El]). unfold assoc. cbn. by rewrite (bool_decide_eq_true_2 (key = key)).
    + specialize (IH (keys_ok_tail _ _ _ Hok)). unfold assoc in *. cbn. by rewrite (bool_decide_eq_false_2 (k = key)).
  - clear Hok. induction m as [|[k' v] m IH]; cbn [upsert]; [unfold assoc; cbn; by rewrite bool_decide_eq_false_2 by congruence|].
    destruct (decide (k' = key)) as [->|Hne]; [rewrite (bool_decide_eq_true_2 (key = key)) by done; unfold assoc; cbn;
      by rewrite !(bool_decide_eq_false_2 (key = k)) by congruence|]. rewrite (bool_decide_eq_false_2 (k' = key)) by done.
    destruct (bytes_leb key k'); [unfold assoc; cbn; by rewrite (bool_decide_eq_false_2 (key = k)) by congruence|].
    unfold assoc in *. cbn. case_bool_decide; [done|exact IH].
Qed.

Lemma elem_of_upsert {V} key (f : option V -> V) m k v : (k, v) ∈ upsert key f m ->
  (k, v) ∈ m \/ k = key /\ exists o, v = f o /\ match o with Some w => (key, w) ∈ m | None => True end.
Proof.
  induction m as [|[k' v'] m IH]; cbn [upsert].
  { intros [= -> ->]%list_elem_of_singleton. right. split; [done|]. by exists None. }
  case_bool_decide as Hk; [|destruct (bytes_leb key k')].
  - subst k'. intros [[= -> ->]|Hin]%elem_of_cons; [|left; by right]. right. split; [done|]. exists (Some v'). split; [done|by left].
  - intros [[= -> ->]|Hin]%elem_of_cons; [|by left]. right. split; [done|]. by exists None.
  - intros [[= -> ->]|Hin]%elem_of_cons; [left; by left|]. destruct (IH Hin) as [Hm|(-> & o & -> & Ho)]; [left; by right|right].
    split; [done|]. exists o. split; [done|]. destruct o; [by right|done].
Qed.

Lemma upsert_ok {V} key (f : option V -> V) m : (0 ∉ key) -> keys_ok m -> keys_ok (upsert key f m).
Proof.
  intros Hz [Hs Hn]. assert (Hin : forall m k, k ∈ (upsert key f m).*1 -> k = key \/ k ∈ m.*1).
  { clear. intros m k [[k' v] [-> Hv]]%list_elem_of_fmap. cbn. apply elem_of_upsert in Hv as [Hv|[-> _]]; [right|by left].
    apply list_elem_of_fmap. by exists (k', v). }
  split; [|apply Forall_forall; intros k [->|Hk]%Hin; [done|]; rewrite Forall_forall in Hn; by apply Hn].
  clear Hn. induction m as [|[k v] m IH]; cbn [upsert]; [by repeat constructor|]. cbn in Hs. apply StronglySorted_inv in Hs as [Hs Hall].
  case_bool_decide as Hk; [by constructor|]. destruct (bytes_leb key k) eqn:El; cbn.
  - constructor; [by constructor|]. constructor; [split; [congruence|by rewrite El]|]. rewrite Forall_forall in *. intros x Hx. destruct (Hall x Hx) as [Hne Hle].
    split; [|transitivity k; [by rewrite El|done]]. intros ->. apply Hk. apply (bytes_leb_antisymm k x); [done|by rewrite El].
  - constructor; [by apply IH|]. apply Forall_forall. intros x [->|Hx]%Hin.
    + split; [done|]. apply bytes_leb_total in El. by rewrite El.
    + rewrite Forall_forall in Hall. by apply Hall.
Qed.

Fixpoint get_at (segs : list Name) (node : DirNode) : option (list Z) :=
  match segs with
  | [] => None
  | [name] => assoc name (files_of node)
  | dir :: segs => child ← assoc dir (dirs_of node); get_at segs child
  end.

Lemma get_at_cons dir s segs node : get_at (dir :: s :: segs) node = (assoc dir (dirs_of node) ≫= get_at (s :: segs)).
Proof. done. Qed.

Lemma insert_at_cons dir s segs data node : insert_at (dir :: s :: segs) data node =
  Dir (upsert dir (fun child => insert_at (s :: segs) data (default empty_dir child)) (dirs_of node)) (files_of node).
Proof. done. Qed.

Lemma get_empty segs : get_at segs empty_dir = None.
Proof. by destruct segs as [|? []]. Qed.

Lemma insert_at_ok segs data : Forall (fun s => 0 ∉ s) segs -> forall node, tree_ok node -> tree_ok (insert_at segs data node).
Proof.
  induction segs as [|s segs IH]; intros Hz node Hok; [done|]. apply Forall_cons in Hz as [Hs Hz]. destruct Hok as [dirs files Hd Hf Hc].
  destruct segs as [|s' segs].
  - constructor; cbn; [done|by apply upsert_ok|done].
  - rewrite insert_at_cons. constructor; cbn [dirs_of files_of]; [by apply upsert_ok|done|]. intros n d Hin.
    apply elem_of_upsert in Hin as [Hin|(-> & o & -> & Ho)]; [by eapply Hc|]. apply IH; [done|]. destruct o; [by eapply Hc|apply empty_ok].
Qed.

Lemma get_insert segs data : segs <> [] -> forall node segs', tree_ok node ->
  get_at segs' (insert_at segs data node) = if bool_decide (segs' = segs) then Some data else get_at segs' node.
Proof.
  induction segs as [|s segs IH]; intros Hne node segs' Hok; [done|]. destruct Hok as [dirs files Hd Hf Hc].
  destruct segs as [|s1 segs].
  - destruct segs' as [|s' [|s1' segs']]; cbn [insert_at get_at dirs_of files_of].
    + by rewrite bool_decide_eq_false_2.
    + rewrite assoc_upsert by done. destruct (decide (s' = s)) as [->|Hns]; [by rewrite !bool_decide_eq_true_2|by rewrite !bool_decide_eq_false_2 by congruence].
    + by rewrite bool_decide_eq_false_2.
  - rewrite insert_at_cons. destruct segs' as [|s' [|s1' segs']].
    + by rewrite bool_decide_eq_false_2.
    + cbn [get_at files_of]. by rewrite bool_decide_eq_false_2.
    + rewrite !get_at_cons. cbn [dirs_of]. rewrite assoc_upsert by done. case_bool_decide as E1.
      2: { rewrite bool_decide_eq_false_2 by congruence. done. }
      subst s'. cbn [mbind option_bind]. rewrite IH; [|done|].
      2: { destruct (assoc s dirs) as [d|] eqn:Ea; [|apply empty_ok]. unfold assoc in Ea. destruct (List.find _ dirs) as [[k d']|] eqn:Ef; [|done].
        injection Ea as <-. apply find_some in Ef as [Hin _]. apply list_elem_of_In in Hin. by eapply Hc. }
      case_bool_decide as E2; [by rewrite bool_decide_eq_true_2 by congruence|]. rewrite bool_decide_eq_false_2 by congruence.
      destruct (assoc s dirs); [done|]. apply get_empty.
Qed.

Lemma segments_nonempty path : forall part, segments part path <> [].
Proof. induction path as [|b path IH]; intros part; cbn [segments]; [done|]. destruct (_ && _); [done|apply IH]. Qed.

Lemma segments_clean path : forall part, (0 ∉ part) -> (0 ∉ path) -> Forall (fun s => 0 ∉ s) (segments part path).
Proof.
  induction path as [|b path IH]; intros part Hp Hz; cbn [segments]; [by constructor|].
  destruct (_ && _); [constructor; [done|]; apply IH; set_solver|apply IH; set_solver].
Qed.

Definition clean (f : PackfileInput) : Prop := 0 ∉ in_path f.

Lemma archive_path_clean path : (0 ∉ path) -> 0 ∉ archive_path path.
Proof.
  intros Hz. unfold archive_path. assert (Hf : 0 ∉ forward_slashes path).
  { unfold forward_slashes. intros [b [Hb Hin]]%list_elem_of_fmap. destruct (b =? 92); [done|]. by subst. }
  induction (forward_slashes path) as [|b bs IH]; cbn [trim_slashes]; [done|]. destruct (b =? 47); [apply IH; set_solver|done].
Qed.

(** The tree of some files holds, at every path, the last file given for it. *)
Lemma tree_of_files files : Forall clean files -> let root := foldl add_file empty_dir files in
  tree_ok root /\ forall path, get_at (segments [] path) root = last_given files path.
Proof.
  intros Hc. cbv zeta. unfold last_given.
  cut (forall root found, tree_ok root -> (forall path, get_at (segments [] path) root = found path) ->
    tree_ok (foldl add_file root files) /\ forall path, get_at (segments [] path) (foldl add_file root files) =
      foldl (fun found f => let p := archive_path (in_path f) in if bool_decide (p = []) then found
        else if bool_decide (segments [] p = segments [] path) then Some (in_data f) else found) (found path) files).
  { intros Hcut. apply Hcut; [apply empty_ok|]. intros path. by rewrite get_empty. }
  induction Hc as [|f files Hf _ IH]; intros root found Hok Hget; cbn [foldl]; [done|].
  unfold add_file at 2 4. cbv zeta. case_bool_decide as Hp; [by apply IH|].
  apply (IH _ (fun path => if bool_decide (segments [] (archive_path (in_path f)) = segments [] path) then Some (in_data f) else found path)).
  - apply insert_at_ok; [|done]. apply segments_clean; [set_solver|]. by apply archive_path_clean.
  - intros path. unfold insert. rewrite get_insert by (done || apply segments_nonempty). rewrite Hget.
    destruct (decide (segments [] (archive_path (in_path f)) = segments [] path)) as [E|E];
      [by rewrite !bool_decide_eq_true_2|by rewrite !bool_decide_eq_false_2 by congruence].
Qed.

(** ** The flattened tree *)

Abbreviation Child := (Name * (DirNode + list Z))%type.

Definition entry_of (c : Child) : TocEntry := match c.2 with inl _ => TocDir c.1 0 0 | inr data => TocFile c.1 data end.

(** The directories among some children, with their places. *)
Fixpoint subs_from (i : nat) (cs : list Child) : list (nat * DirNode) :=
  match cs with
  | [] => []
  | (_, inl d) :: cs => (i, d) :: subs_from (S i) cs
  | _ :: cs => subs_from (S i) cs
  end.

Lemma push_children cs : forall es subs, foldl push_child (es, subs) cs = (es ++ (entry_of <$> cs), subs ++ subs_from (length es) cs).
Proof.
  induction cs as [|[n c] cs IH]; intros es subs; cbn [foldl]; [by rewrite !app_nil_r|]. destruct c as [d|data]; cbn [push_child snd fst]; rewrite IH.
  - rewrite length_app, <- !app_assoc. cbn. by replace (length es + 1)%nat with (S (length es)) by lia.
  - rewrite length_app, <- !app_assoc. cbn. by replace (length es + 1)%nat with (S (length es)) by lia.
Qed.

Lemma elem_of_subs cs : forall i j d, (j, d) ∈ subs_from i cs <-> exists k n, cs !! k = Some (n, inl d) /\ j = (i + k)%nat.
Proof.
  induction cs as [|[n c] cs IH]; intros i j d; cbn [subs_from].
  { rewrite elem_of_nil. split; [done|]. intros (k & m & Hk & _). by rewrite lookup_nil in Hk. }
  assert (Hrest : (j, d) ∈ subs_from (S i) cs <-> exists k m, ((n, c) :: cs) !! S k = Some (m, inl d) /\ j = (i + S k)%nat).
  { rewrite IH. cbn. split; intros (k & m & Hk & ->); exists k, m; (split; [done|lia]). }
  destruct c as [d'|data].
  - rewrite elem_of_cons, Hrest. split.
    + intros [[= -> ->]|(k & m & Hk & ->)]; [exists O, n; split; [done|lia]|by exists (S k), m].
    + intros ([|k] & m & Hk & ->); [left; cbn in Hk; injection Hk as -> ->; f_equal; lia|right; by exists k, m].
  - rewrite Hrest. split; [intros (k & m & Hk & ->); by exists (S k), m|]. intros ([|k] & m & Hk & ->); [done|by exists k, m].
Qed.

Lemma subs_from_bounds cs : forall i j, j ∈ (subs_from i cs).*1 -> (i <= j < i + length cs)%nat.
Proof.
  intros i j [[j' d] [-> Hin]]%list_elem_of_fmap. apply elem_of_subs in Hin as (k & n & Hk & ->). apply lookup_lt_Some in Hk. cbn. lia.
Qed.

Lemma subs_from_nodup cs : forall i, NoDup (subs_from i cs).*1.
Proof.
  induction cs as [|[n [d|data]] cs IH]; intros i; cbn [subs_from fmap list_fmap]; [constructor| |apply IH].
  constructor; [|apply IH]. cbn. intros Hin%subs_from_bounds. lia.
Qed.

Definition dirs_in (cs : list Child) : nat := list_sum ((fun c => match c.2 with inl d => dir_count d | inr _ => O end) <$> cs).
Definition to_do (pending : list (nat * DirNode)) : nat := list_sum ((fun p => dir_count p.2) <$> pending).

Lemma to_do_subs cs : forall i, to_do (subs_from i cs) = dirs_in cs.
Proof. induction cs as [|[n [d|data]] cs IH]; intros i; cbn; [done| |apply IH]. unfold to_do, dirs_in in *. cbn. by rewrite IH. Qed.

Lemma dirs_in_perm cs cs' : cs ≡ₚ cs' -> dirs_in cs = dirs_in cs'.
Proof. unfold dirs_in, list_sum. induction 1; cbn [fmap list_fmap foldr] in *; lia. Qed.

Lemma dirs_in_children node : S (dirs_in (children node)) = dir_count node.
Proof.
  destruct node as [dirs files]. unfold children. rewrite (dirs_in_perm _ _ (sort_by_perm _ _)). cbn [dirs_of files_of dir_count]. f_equal.
  unfold dirs_in. rewrite fmap_app, list_sum_app. assert (E : list_sum ((fun c : Child => match c.2 with inl d => dir_count d | inr _ => O end) <$>
    ((fun f => (f.1, inr f.2)) <$> files)) = O) by (clear; by induction files).
  rewrite E. clear. unfold list_sum. induction dirs as [|d dirs IH]; cbn [fmap list_fmap foldr snd] in *; lia.
Qed.

Lemma to_do_app p q : to_do (p ++ q) = (to_do p + to_do q)%nat.
Proof. unfold to_do. by rewrite fmap_app, list_sum_app. Qed.

(** The tree [node] has its entry at [i], and its children together. *)
Inductive placed (E : list TocEntry) : nat -> DirNode -> Prop :=
| placed_at i node name first :
    E !! i = Some (TocDir name (Z.of_nat (length (children node))) (Z.of_nat first)) -> (0 < first <= length E)%nat ->
    (forall k n d, children node !! k = Some (n, inl d) -> (exists cc fc, E !! (first + k)%nat = Some (TocDir n cc fc)) /\ placed E (first + k) d) ->
    (forall k n data, children node !! k = Some (n, inr data) -> E !! (first + k)%nat = Some (TocFile n data)) ->
    placed E i node.

(** What a later state of the table keeps of an earlier one. *)
Definition keeps_names (es E : list TocEntry) : Prop := forall i e, es !! i = Some e ->
  exists e', E !! i = Some e' /\ match e, e' with TocDir n _ _, TocDir n' _ _ => n = n' | TocFile n d, TocFile n' d' => n = n' /\ d = d' | _, _ => False end.

Lemma keeps_names_trans es1 es2 es3 : keeps_names es1 es2 -> keeps_names es2 es3 -> keeps_names es1 es3.
Proof.
  intros H1 H2 i e He. destruct (H1 i e He) as (e1 & He1 & Hm). destruct (H2 i e1 He1) as (e2 & He2 & Hm2). exists e2. split; [done|].
  destruct e, e1, e2; try done; [congruence|]. destruct Hm, Hm2. split; congruence.
Qed.

Lemma keeps_names_step cc fc i es more : keeps_names es (alter (set_counts cc fc) i es ++ more).
Proof.
  intros j e He. assert (Hj : (j < length (alter (set_counts cc fc) i es))%nat) by (rewrite length_alter; by eapply lookup_lt_Some).
  destruct (decide (j = i)) as [->|Hne].
  - exists (set_counts cc fc e). rewrite lookup_app_l, list_lookup_alter_eq, He by done. split; [done|]. by destruct e.
  - exists e. rewrite lookup_app_l, list_lookup_alter_ne by done. split; [done|]. by destruct e.
Qed.

Lemma flatten_loop_spec turns : forall es pending, (to_do pending <= turns)%nat -> NoDup pending.*1 ->
  (forall i d, (i, d) ∈ pending -> exists n cc fc, es !! i = Some (TocDir n cc fc)) ->
  exists E, flatten_loop turns es pending = Some E /\ (length es <= length E)%nat /\ keeps_names es E /\
    (forall i, (i < length es)%nat -> i ∉ pending.*1 -> E !! i = es !! i) /\
    (Z.of_nat (length E) < 2 ^ 31 -> forall i d, (i, d) ∈ pending -> placed E i d).
Proof.
  induction turns as [|turns IH]; intros es pending Ht Hnd Hdir.
  { destruct pending as [|[i d] pending]; [|exfalso; pose proof (dirs_in_children d); unfold to_do, list_sum in Ht; cbn [fmap list_fmap foldr snd] in Ht; lia].
    exists es. cbn. split_and!; [done|done| |done|intros _ i d Hd; by apply elem_of_nil in Hd]. intros i e He. exists e. split; [done|]. by destruct e. }
  destruct pending as [|[i node] pending].
  { exists es. cbn. split_and!; [done|done| |done|intros _ i d Hd; by apply elem_of_nil in Hd]. intros i e He. exists e. split; [done|]. by destruct e. }
  cbn [flatten_loop]. set (cc := u32 (Z.of_nat (length (children node)))). set (fc := u32 (Z.of_nat (length es))).
  rewrite push_children, length_alter. cbn [app]. set (es1 := alter (set_counts cc fc) i es ++ (entry_of <$> children node)).
  assert (Hl1 : length es1 = (length es + length (children node))%nat) by (unfold es1; by rewrite length_app, length_alter, length_fmap).
  apply NoDup_cons in Hnd as [Hi Hnd]. destruct (Hdir i node ltac:(by left)) as (n0 & cc0 & fc0 & He0).
  assert (Hil : (i < length es)%nat) by by eapply lookup_lt_Some.
  assert (Hkeep : keeps_names es es1) by apply keeps_names_step.
  assert (Hnew : forall k c, children node !! k = Some c -> es1 !! (length es + k)%nat = Some (entry_of c)).
  { intros k c Hk. unfold es1. rewrite lookup_app_r by (rewrite length_alter; lia). rewrite length_alter.
    replace (length es + k - length es)%nat with k by lia. by rewrite list_lookup_fmap, Hk. }
  assert (Hold : forall j, (j < length es)%nat -> j <> i -> es1 !! j = es !! j).
  { intros j Hj Hne. unfold es1. rewrite lookup_app_l by (by rewrite length_alter). by rewrite list_lookup_alter_ne. }
  assert (Hpl : forall j, j ∈ pending.*1 -> (j < length es)%nat).
  { intros j [[j' d] [-> Hj]]%list_elem_of_fmap. destruct (Hdir j' d ltac:(by right)) as (? & ? & ? & Hx). by eapply lookup_lt_Some. }
  destruct (IH es1 (subs_from (length es) (children node) ++ pending)) as (E & HE & Hle & Hkn & Hsame & Hplaced).
  - rewrite to_do_app, to_do_subs. pose proof (dirs_in_children node). unfold to_do, list_sum in *. cbn [fmap list_fmap foldr snd] in Ht. lia.
  - rewrite fmap_app. apply NoDup_app. split_and!; [apply subs_from_nodup| |done]. intros j Hj%subs_from_bounds Hp%Hpl. lia.
  - intros j d [Hj|Hj]%elem_of_app.
    + apply elem_of_subs in Hj as (k & n & Hk & ->). exists n, 0, 0. by apply (Hnew k (n, inl d)).
    + destruct (Hdir j d ltac:(by right)) as (n & c1 & f1 & Hx). exists n, c1, f1. rewrite Hold; [done|by eapply lookup_lt_Some|].
      intros ->. apply Hi. apply list_elem_of_fmap. by exists (i, d).
  - exists E. split_and!; [done|lia|by eapply keeps_names_trans| |].
    + intros j Hj Hnot. cbn in Hnot. rewrite Hsame; [apply Hold; [done|set_solver]|lia|]. rewrite fmap_app. intros [Hs%subs_from_bounds|Hp]%elem_of_app; [lia|set_solver].
    + intros Hmax j d [[= -> ->]|Hj]%elem_of_cons; [|apply Hplaced; [done|apply elem_of_app; by right]].
      assert (Hei : E !! i = es1 !! i).
      { apply Hsame; [lia|]. rewrite fmap_app. intros [Hs%subs_from_bounds|Hp]%elem_of_app; [lia|done]. }
      apply (placed_at E i node n0 (length es)).
      * rewrite Hei. unfold es1. rewrite lookup_app_l by (by rewrite length_alter). rewrite list_lookup_alter_eq, He0. cbn. unfold cc, fc, u32.
        by rewrite !(u_id 32) by (unfold is_u; lia).
      * lia.
      * intros k n d Hk. split; [|apply Hplaced; [done|]; apply elem_of_app; left; apply elem_of_subs; by exists k, n].
        destruct (Hkn _ _ (Hnew k _ Hk)) as (e' & He' & Hm). cbn in Hm. destruct e' as [n' c' f'|]; [|done]. subst n'. by exists c', f'.
      * intros k n data Hk. destruct (Hkn _ _ (Hnew k _ Hk)) as (e' & He' & Hm). cbn in Hm. destruct e' as [|n' d']; [done|]. by destruct Hm as [-> ->].
Qed.

(** The table of a tree: enough turns, and the tree in it, if it is not too long. *)
Lemma flatten_placed root : exists E, flatten_loop (dir_count root) [TocDir [] 0 0] [(O, root)] = Some E /\ flatten root = E /\
  (0 < length E)%nat /\ (Z.of_nat (length E) < 2 ^ 31 -> placed E O root).
Proof.
  destruct (flatten_loop_spec (dir_count root) [TocDir [] 0 0] [(O, root)]) as (E & HE & Hl & _ & _ & Hp).
  - unfold to_do, list_sum. cbn [fmap list_fmap foldr snd]. lia.
  - cbn. apply NoDup_singleton.
  - intros i d [= -> ->]%list_elem_of_singleton. by exists [], 0, 0.
  - exists E. split_and!; [done|unfold flatten; by rewrite HE|cbn in Hl; lia|]. intros Hm. apply Hp; [done|by left].
Qed.

(** ** The buffer *)

Lemma length_patch off bytes buf : (off + length bytes <= length buf)%nat -> length (patch off bytes buf) = length buf.
Proof. intros. unfold patch. rewrite !length_app, length_take, length_drop. lia. Qed.

Lemma patch_app_l off bytes a b : (off + length bytes <= length a)%nat -> patch off bytes (a ++ b) = patch off bytes a ++ b.
Proof. intros. unfold patch. rewrite take_app_le, drop_app_le by lia. by rewrite <- !app_assoc. Qed.

Lemma patch_app_r off bytes a b : patch (length a + off) bytes (a ++ b) = a ++ patch off bytes b.
Proof.
  unfold patch. rewrite take_app_add, <- Nat.add_assoc, drop_app_add. by rewrite <- app_assoc.
Qed.

Definition RECORD : nat := 16.
Definition records_ok (recs : list (list Z)) : Prop := Forall (fun r => length r = RECORD) recs.
Definition layout (h : list Z) (recs : list (list Z)) (tail : list Z) : list Z := h ++ concat recs ++ tail.

Lemma length_records recs : records_ok recs -> length (concat recs) = (length recs * 16)%nat.
Proof. induction 1 as [|r recs Hr _ IH]; [done|]. cbn. rewrite length_app, IH, Hr. unfold RECORD. lia. Qed.

Lemma records_alter f i recs : (forall r, length r = RECORD -> length (f r) = RECORD) -> records_ok recs -> records_ok (alter f i recs).
Proof.
  intros Hf Hr. apply Forall_lookup. intros j r Hj. destruct (decide (j = i)) as [->|Hne].
  - rewrite list_lookup_alter_eq in Hj. destruct (recs !! i) as [r'|] eqn:E; [|done]. injection Hj as <-. apply Hf. by eapply Forall_lookup_1 in Hr.
  - rewrite list_lookup_alter_ne in Hj by done. by eapply Forall_lookup_1 in Hr.
Qed.

(** A patch inside a record changes that record. *)
Lemma patch_field h recs tail i k bytes : records_ok recs -> (i < length recs)%nat -> (k + length bytes <= 16)%nat ->
  patch (length h + i * 16 + k) bytes (layout h recs tail) = layout h (alter (patch k bytes) i recs) tail.
Proof.
  intros Hr Hi Hk. unfold layout. rewrite <- Nat.add_assoc, patch_app_r. f_equal.
  revert i Hi. induction Hr as [|r recs Hl Hr IH]; intros i Hi; [cbn in Hi; lia|]. unfold RECORD in Hl. destruct i as [|i]; cbn [concat alter list_alter].
  - rewrite <- !app_assoc. by rewrite Nat.mul_0_l, Nat.add_0_l, patch_app_l by lia.
  - rewrite <- !app_assoc. replace (S i * 16 + k)%nat with (length r + (i * 16 + k))%nat by lia. rewrite patch_app_r.
    cbn in Hi. rewrite IH by lia. done.
Qed.

(** Four bytes of a record, read back. *)
Definition field (k : nat) (r : list Z) : list Z := take 4 (drop (4 * k) r).

Lemma layout_field h recs tail i r k : records_ok recs -> recs !! i = Some r -> (k < 4)%nat ->
  u32_at (layout h recs tail) (length h + i * 16 + 4 * k) = from_le_bytes (field k r).
Proof.
  intros Hr Hi Hk. unfold u32_at, layout, field. f_equal. rewrite <- Nat.add_assoc, drop_app_add.
  revert i Hi. induction Hr as [|r' recs Hl Hr IH]; intros i Hi; [done|]. unfold RECORD in Hl. destruct i as [|i]; cbn [concat].
  - cbn in Hi. injection Hi as <-. rewrite <- app_assoc, drop_app_le by lia. rewrite take_app_le; [done|]. rewrite length_drop. lia.
  - replace (S i * 16 + 4 * k)%nat with (length r' + (i * 16 + 4 * k))%nat by lia. rewrite <- app_assoc, drop_app_add. by apply IH.
Qed.

Lemma field_patch_same k bytes r : length r = RECORD -> length bytes = 4%nat -> (k < 4)%nat -> field k (patch (4 * k) bytes r) = bytes.
Proof.
  intros Hr Hb Hk. unfold RECORD in Hr. unfold field, patch. rewrite drop_app_length' by (rewrite length_take; lia).
  rewrite take_app_le by lia. rewrite <- Hb. apply firstn_all.
Qed.

Lemma field_patch_other k k' bytes r : length r = RECORD -> length bytes = 4%nat -> (k < 4)%nat -> (k' < 4)%nat -> k <> k' ->
  field k (patch (4 * k') bytes r) = field k r.
Proof.
  intros Hr Hb Hk Hk' Hne. unfold RECORD in Hr. unfold field. apply list_eq. intros j. destruct (decide (j < 4)%nat) as [Hj|Hj].
  2: { rewrite !lookup_take_ge by lia. done. }
  rewrite !lookup_take_lt, !lookup_drop by lia. unfold patch. destruct (decide (k < k')%nat).
  - rewrite lookup_app_l by (rewrite length_take; lia). rewrite lookup_take_lt by lia. done.
  - rewrite lookup_app_r by (rewrite length_take; lia). rewrite length_take. rewrite lookup_app_r by lia. rewrite lookup_drop, Hb. f_equal. lia.
Qed.

Lemma length_le32 z : length (le32 z) = 4%nat.
Proof. apply length_to_le_bytes. Qed.

Lemma from_le32 z : from_le_bytes (le32 z) = u32 z.
Proof. unfold le32. rewrite from_to_le_bytes. unfold u32. change (8 * Z.of_nat 4) with 32. by rewrite Z.mod_mod by lia. Qed.

Lemma patch_record k z r : (k < 4)%nat -> length r = RECORD -> length (patch (4 * k) (le32 z) r) = RECORD.
Proof. intros Hk Hr. rewrite length_patch; [done|]. rewrite length_le32, Hr. unfold RECORD. lia. Qed.

(** ** The names *)

(** The name of entry [j] is in the names, where record [j] says. *)
Definition named (E : list TocEntry) (recs : list (list Z)) (tail : list Z) (j : nat) : Prop :=
  j = O \/ exists e r a b, E !! j = Some e /\ recs !! j = Some r /\ tail = a ++ entry_name e ++ 0 :: b /\ field 0 r = le32 (Z.of_nat (length a)).

(** Records that agree but for the name. *)
Definition same_fields (recs recs' : list (list Z)) : Prop := length recs' = length recs /\
  forall j r, recs !! j = Some r -> exists r', recs' !! j = Some r' /\ forall k, (0 < k < 4)%nat -> field k r' = field k r.

Lemma names_written E h es : forall i recs tail, records_ok recs -> length recs = length E -> es = drop i E ->
  (forall j, (j < i)%nat -> named E recs tail j) ->
  exists recs' tail', foldl (write_name (length h) (length h + length recs * 16)) (i, layout h recs tail) es = (length E `max` i, layout h recs' tail')%nat /\
    records_ok recs' /\ same_fields recs recs' /\ forall j, (j < length E)%nat -> named E recs' tail' j.
Proof.
  induction es as [|e es IH]; intros i recs tail Hr Hl He Hn; cbn [foldl].
  { assert (Hi : (length E <= i)%nat) by (by apply drop_nil_inv). exists recs, tail. rewrite Nat.max_r by lia. split_and!; [done|done| |].
    - split; [done|]. intros j r Hj. by exists r.
    - intros j Hj. apply Hn. lia. }
  assert (Hei : E !! i = Some e) by (rewrite <- (Nat.add_0_r i), <- lookup_drop, <- He; done).
  assert (Hil : (i < length E)%nat) by by eapply lookup_lt_Some. destruct (lookup_lt_is_Some_2 recs i ltac:(lia)) as [r Hri].
  assert (Hes : es = drop (S i) E) by (rewrite (drop_S E e i Hei) in He; by injection He).
  unfold write_name at 2. cbv zeta. set (off := if (i =? 0)%nat then 0 else Z.of_nat (length (layout h recs tail) - (length h + length recs * 16))).
  assert (Hoff : i <> O -> off = Z.of_nat (length tail)).
  { intros Hi. unfold off. destruct (Nat.eqb_spec i 0); [done|]. unfold layout. rewrite !length_app, length_records by done. f_equal. lia. }
  rewrite <- (Nat.add_0_r (length h + i * 16)), (patch_field h recs tail i 0 (le32 off)) by (done || rewrite ?length_le32; lia).
  change (patch 0 (le32 off)) with (patch (4 * 0) (le32 off)). set (recs1 := alter (patch (4 * 0) (le32 off)) i recs).
  assert (Hr1 : records_ok recs1) by (apply records_alter; [intros; apply patch_record; [lia|done]|done]).
  assert (Hl1 : length recs1 = length E) by (unfold recs1; by rewrite length_alter).
  assert (Hlr : length r = RECORD) by by eapply Forall_lookup_1 in Hr.
  assert (Hri1 : recs1 !! i = Some (patch (4 * 0) (le32 off) r)) by (unfold recs1; by rewrite list_lookup_alter_eq, Hri).
  set (tail1 := if (i =? 0)%nat then tail else tail ++ entry_name e ++ [0]).
  assert (Hbuf : (if (i =? 0)%nat then layout h recs1 tail else layout h recs1 tail ++ entry_name e ++ [0]) = layout h recs1 tail1).
  { unfold tail1, layout. destruct (i =? 0)%nat; [done|]. by rewrite <- !app_assoc. }
  rewrite Hbuf. assert (Hlen : length recs = length recs1) by (unfold recs1; by rewrite length_alter). rewrite Hlen.
  assert (Hsf : same_fields recs recs1).
  { split; [done|]. intros j r' Hj. unfold recs1. destruct (decide (j = i)) as [->|Hne].
    - rewrite list_lookup_alter_eq, Hj. eexists. split; [done|]. intros k Hk. apply field_patch_other; try lia; [|apply length_le32].
      by eapply Forall_lookup_1 in Hr.
    - rewrite list_lookup_alter_ne by done. by exists r'. }
  destruct (IH (S i) recs1 tail1 Hr1 Hl1 Hes) as (recs' & tail' & Hf & Hr' & Hsf' & Hn').
  - intros j Hj. destruct (decide (j = i)) as [->|Hne].
    + destruct (decide (i = O)) as [->|Hi0]; [by left|right]. exists e, (patch (4 * 0) (le32 off) r), tail, []. split_and!; [done|done| |].
      * unfold tail1. by destruct (Nat.eqb_spec i 0).
      * rewrite field_patch_same by (done || apply length_le32 || lia). by rewrite Hoff.
    + destruct (Hn j ltac:(lia)) as [->|(e' & r' & a & b & He' & Hr' & Ht & Hfi)]; [by left|right].
      exists e', r', a, (if (i =? 0)%nat then b else b ++ entry_name e ++ [0]). split_and!; [done|unfold recs1; by rewrite list_lookup_alter_ne| |done].
      unfold tail1. destruct (i =? 0)%nat; [done|]. rewrite Ht, <- !app_assoc. done.
  - exists recs', tail'. split_and!; [|done| |done].
    + rewrite Hf. f_equal. lia.
    + destruct Hsf as [Hsl Hsf], Hsf' as [Hsl' Hsf']. split; [congruence|]. intros j r' Hj. destruct (Hsf j r' Hj) as (r1 & Hj1 & Hk1).
      destruct (Hsf' j r1 Hj1) as (r2 & Hj2 & Hk2). exists r2. split; [done|]. intros k Hk. by rewrite Hk2, Hk1.
Qed.

(** ** The data *)

(** A directory's record has its counts. *)
Definition counted (E : list TocEntry) (recs : list (list Z)) (j : nat) : Prop := forall n cc fc r,
  E !! j = Some (TocDir n cc fc) -> recs !! j = Some r -> field 1 r = le32 cc /\ field 2 r = le32 (Z.lor fc DIRECTORY_FLAG).

(** A file's data is where its record says; the tail starts at [base]. *)
Definition stored (E : list TocEntry) (recs : list (list Z)) (tail : list Z) (base : nat) (j : nat) : Prop := forall n data,
  E !! j = Some (TocFile n data) -> exists r a b, recs !! j = Some r /\ tail = a ++ data ++ b /\
    field 1 r = le32 (Z.of_nat (length data)) /\ field 2 r = le32 (Z.of_nat (base + length a)).

(** The three fields of a file. *)
Definition set_file (offset len : Z) (r : list Z) : list Z := patch 12 (le32 len) (patch 8 (le32 offset) (patch 4 (le32 len) r)).

Lemma set_file_spec offset len r : length r = RECORD -> length (set_file offset len r) = RECORD /\
  field 0 (set_file offset len r) = field 0 r /\ field 1 (set_file offset len r) = le32 len /\ field 2 (set_file offset len r) = le32 offset.
Proof.
  intros Hr. unfold set_file. change 12%nat with (4 * 3)%nat. change 8%nat with (4 * 2)%nat. change (patch 4) with (patch (4 * 1)).
  assert (H1 : length (patch (4 * 1) (le32 len) r) = RECORD) by (apply patch_record; [lia|done]).
  assert (H2 : length (patch (4 * 2) (le32 offset) (patch (4 * 1) (le32 len) r)) = RECORD) by (apply patch_record; [lia|done]).
  pose proof length_le32 as Hl. split_and!.
  - apply patch_record; [lia|done].
  - by rewrite !field_patch_other by (done || lia).
  - rewrite !(field_patch_other 1) by (done || lia). by rewrite field_patch_same by (done || lia).
  - rewrite (field_patch_other 2 3) by (done || lia). by rewrite field_patch_same by (done || lia).
Qed.

Lemma alter_twice {A} (f g : A -> A) i (l : list A) : alter f i (alter g i l) = alter (fun x => f (g x)) i l.
Proof. revert i. induction l as [|x l IH]; intros [|i]; cbn; [done|done|done|]. f_equal. apply IH. Qed.

Lemma write_data_file h recs tail i n data : records_ok recs -> (i < length recs)%nat ->
  exists pad, write_data (length h) (i, layout h recs tail) (TocFile n data) =
    (S i, layout h (alter (set_file (Z.of_nat (length h + length recs * 16 + length tail)) (Z.of_nat (length data))) i recs) (tail ++ data ++ pad)).
Proof.
  intros Hr Hi. unfold write_data. cbv zeta.
  assert (Hlen : length (layout h recs tail) = (length h + length recs * 16 + length tail)%nat) by (unfold layout; rewrite !length_app, length_records by done; lia).
  rewrite Hlen. set (offset := Z.of_nat (length h + length recs * 16 + length tail)). set (len := Z.of_nat (length data)).
  assert (Hp : forall recs k z, records_ok recs -> (i < length recs)%nat -> (k < 4)%nat ->
    patch (length h + i * 16 + 4 * k) (le32 z) (layout h recs tail) = layout h (alter (patch (4 * k) (le32 z)) i recs) tail /\
    records_ok (alter (patch (4 * k) (le32 z)) i recs)).
  { intros recs' k z Hr' Hi' Hk. split; [apply patch_field; [done|done|rewrite length_le32; lia]|].
    apply records_alter; [intros; by apply patch_record|done]. }
  destruct (Hp recs 1%nat len Hr Hi ltac:(lia)) as [E1 Hr1]. change (4 * 1)%nat with 4%nat in E1, Hr1. rewrite E1.
  destruct (Hp _ 2%nat offset Hr1 ltac:(by rewrite length_alter) ltac:(lia)) as [E2 Hr2]. change (4 * 2)%nat with 8%nat in E2, Hr2. rewrite E2.
  destruct (Hp _ 3%nat len Hr2 ltac:(by rewrite !length_alter) ltac:(lia)) as [E3 Hr3]. change (4 * 3)%nat with 12%nat in E3, Hr3. rewrite E3.
  rewrite !alter_twice. change (fun x => patch 12 (le32 len) (patch 8 (le32 offset) (patch 4 (le32 len) x))) with (set_file offset len).
  exists (padding (length (layout h (alter (set_file offset len) i recs) tail ++ data))). unfold pad_to at 1. f_equal. unfold layout. by rewrite <- !app_assoc.
Qed.

Lemma data_written E h es : forall i recs tail, records_ok recs -> length recs = length E -> es = drop i E ->
  (forall j, (j < length E)%nat -> named E recs tail j /\ counted E recs j) ->
  (forall j, (j < i)%nat -> stored E recs tail (length h + length recs * 16) j) ->
  exists recs' tail', (foldl (write_data (length h)) (i, layout h recs tail) es).2 = layout h recs' tail' /\ records_ok recs' /\
    length recs' = length E /\ (forall j, (j < length E)%nat -> named E recs' tail' j /\ counted E recs' j) /\
    (forall j, (j < length E)%nat -> stored E recs' tail' (length h + length recs' * 16) j).
Proof.
  induction es as [|e es IH]; intros i recs tail Hr Hl He Hn Hst; cbn [foldl].
  { assert (Hi : (length E <= i)%nat) by (by apply drop_nil_inv). exists recs, tail. split_and!; try done. intros j Hj. apply Hst. lia. }
  assert (Hei : E !! i = Some e) by (rewrite <- (Nat.add_0_r i), <- lookup_drop, <- He; done).
  assert (Hil : (i < length E)%nat) by by eapply lookup_lt_Some. destruct (lookup_lt_is_Some_2 recs i ltac:(lia)) as [r Hri].
  assert (Hes : es = drop (S i) E) by (rewrite (drop_S E e i Hei) in He; by injection He). assert (Hlr : length r = RECORD) by by eapply Forall_lookup_1 in Hr.
  destruct e as [n cc fc|n data].
  { cbn [write_data]. apply IH; [done|done|done|done|]. intros j Hj. destruct (decide (j = i)) as [->|Hne]; [|apply Hst; lia].
    intros n' data Hx. congruence. }
  destruct (write_data_file h recs tail i n data Hr ltac:(lia)) as [pad Hw]. rewrite Hw.
  set (offset := Z.of_nat (length h + length recs * 16 + length tail)) in *. set (len := Z.of_nat (length data)) in *.
  destruct (set_file_spec offset len r Hlr) as (Hsl & Hf0 & Hf1 & Hf2). set (recs1 := alter (set_file offset len) i recs) in *.
  assert (Hr1 : records_ok recs1) by (apply records_alter; [intros; by apply set_file_spec|done]).
  assert (Hl1 : length recs1 = length recs) by (unfold recs1; by rewrite length_alter).
  assert (Hri1 : recs1 !! i = Some (set_file offset len r)) by (unfold recs1; by rewrite list_lookup_alter_eq, Hri).
  assert (Hrj : forall j, j <> i -> recs1 !! j = recs !! j) by (intros; unfold recs1; by rewrite list_lookup_alter_ne).
  apply IH; [done|congruence|done| |].
  - intros j Hj. destruct (Hn j Hj) as [Hnj Hcj]. split.
    + destruct Hnj as [->|(e' & r' & a & b & He' & Hr' & Ht & Hf)]; [by left|right].
      destruct (decide (j = i)) as [->|Hne].
      * exists e', (set_file offset len r), a, (b ++ data ++ pad). rewrite Hri in Hr'. injection Hr' as <-. split_and!; [done|done| |congruence].
        rewrite Ht, <- !app_assoc. done.
      * exists e', r', a, (b ++ data ++ pad). split_and!; [done|by rewrite Hrj| |done]. rewrite Ht, <- !app_assoc. done.
    + intros n' cc fc r' HE. destruct (decide (j = i)) as [->|Hne]; [congruence|]. intros Hr'. rewrite Hrj in Hr' by done. exact (Hcj n' cc fc r' HE Hr').
  - intros j Hj. destruct (decide (j = i)) as [->|Hne].
    + intros n' data' HE. rewrite Hei in HE. injection HE as <- <-. exists (set_file offset len r), tail, pad. rewrite Hl1. split_and!; [done|done|done|].
      rewrite Hf2. done.
    + intros n' data' HE. destruct (Hst j ltac:(lia) n' data' HE) as (r' & a & b & Hr' & Ht & Hg1 & Hg2). exists r', a, (b ++ data ++ pad). rewrite Hl1.
      split_and!; [by rewrite Hrj| |done|done]. rewrite Ht, <- !app_assoc. done.
Qed.

(** ** The whole archive *)

Lemma length_toc_record e : length (toc_record e) = RECORD.
Proof. destruct e; cbn [toc_record]; rewrite !length_app, !length_le32; done. Qed.

Lemma four_fields a b c d : length a = 4%nat -> length b = 4%nat -> length c = 4%nat -> length d = 4%nat ->
  field 1 (a ++ b ++ c ++ d) = b /\ field 2 (a ++ b ++ c ++ d) = c.
Proof.
  intros Ha Hb Hc Hd. unfold field. split.
  - rewrite drop_app_length' by (by rewrite Ha). by rewrite take_app_length' by done.
  - rewrite (app_assoc a b), drop_app_length' by (by rewrite length_app, Ha, Hb). by rewrite take_app_length' by done.
Qed.

Lemma dir_record n cc fc : field 1 (toc_record (TocDir n cc fc)) = le32 cc /\
  field 2 (toc_record (TocDir n cc fc)) = le32 (Z.lor fc DIRECTORY_FLAG).
Proof. apply four_fields; apply length_le32. Qed.

Lemma header_spec E : length (rpf_header E) = ALIGNMENT /\ exists rest, rpf_header E = le32 RPF2_MAGIC ++ le32 0 ++ le32 (Z.of_nat (length E)) ++ rest.
Proof.
  unfold rpf_header, pad_to. set (b := le32 RPF2_MAGIC ++ _).
  assert (Hb : length b = 20%nat) by (unfold b; rewrite !length_app, !length_le32; done). rewrite Hb. unfold padding.
  assert (Ha : (20 <= ALIGNMENT)%nat) by (unfold ALIGNMENT; lia). rewrite Nat.mod_small by (unfold ALIGNMENT; lia). change (20 =? 0)%nat with false. cbn iota.
  split; [rewrite length_app, repeat_length, Hb; lia|]. eexists. unfold b. rewrite <- !app_assoc. done.
Qed.

(** What is in the archive: a header with the length of the table, then the
    records, which have the names, the counts and the data of the entries. *)
Lemma archive_layout E : (0 < length E)%nat -> exists h recs tail, write_rpf E = layout h recs tail /\ length h = ALIGNMENT /\
  take 4 (drop 8 h) = le32 (Z.of_nat (length E)) /\ records_ok recs /\ length recs = length E /\
  forall j, (j < length E)%nat -> named E recs tail j /\ counted E recs j /\ stored E recs tail (ALIGNMENT + length E * 16) j.
Proof.
  intros Hpos. destruct (header_spec E) as (Hh & rest & Hrest). unfold write_rpf. cbv zeta. set (h := rpf_header E) in *.
  set (recs0 := toc_record <$> E). assert (Hr0 : records_ok recs0) by (apply Forall_fmap, Forall_true; intros; apply length_toc_record).
  assert (Hl0 : length recs0 = length E) by (unfold recs0; by rewrite length_fmap).
  assert (Hnb : length (h ++ concat recs0) = (length h + length recs0 * 16)%nat) by (by rewrite length_app, length_records).
  rewrite Hnb, <- app_assoc. change (h ++ concat recs0 ++ [47; 0]) with (layout h recs0 [47; 0]).
  destruct (names_written E h E 0 recs0 [47; 0] Hr0 Hl0 eq_refl ltac:(intros; lia)) as (recs1 & tail1 & Hf & Hr1 & [Hl1 Hs1] & Hn1).
  rewrite Hf. cbn [snd]. set (pad := padding (length (layout h recs1 tail1))).
  assert (Hpad : pad_to (layout h recs1 tail1) = layout h recs1 (tail1 ++ pad)) by (unfold pad_to, layout; by rewrite <- !app_assoc).
  rewrite Hpad. set (size := le32 (Z.of_nat (length (layout h recs1 (tail1 ++ pad))))). set (h2 := patch 4 size h).
  assert (Ha : (20 <= ALIGNMENT)%nat) by (unfold ALIGNMENT; lia).
  assert (Hh2 : length h2 = ALIGNMENT) by (unfold h2; rewrite length_patch; [done|unfold size; rewrite length_le32; lia]).
  assert (Hpatch : patch 4 size (layout h recs1 (tail1 ++ pad)) = layout h2 recs1 (tail1 ++ pad)).
  { unfold layout. rewrite patch_app_l; [done|]. unfold size. rewrite length_le32. lia. }
  rewrite Hpatch. rewrite Hh, <- Hh2.
  destruct (data_written E h2 E 0 recs1 (tail1 ++ pad) Hr1 ltac:(congruence) eq_refl) as (recs2 & tail2 & Hw & Hr2 & Hl2 & Hnc & Hst); [| |].
  - intros j Hj. split.
    + destruct (Hn1 j Hj) as [->|(e & r & a & b & He & Hr & Ht & Hfi)]; [by left|right]. exists e, r, a, (b ++ pad). split_and!; [done|done| |done].
      rewrite Ht, <- !app_assoc. done.
    + intros n cc fc r HE Hr. destruct (Hs1 j (toc_record (TocDir n cc fc))) as (r1 & Hr1' & Hk).
      { unfold recs0. by rewrite list_lookup_fmap, HE. }
      rewrite Hr in Hr1'. injection Hr1' as <-. rewrite !Hk by lia. apply dir_record.
  - intros j Hj. lia.
  - exists h2, recs2, tail2. split_and!; [done|done| |done|done|].
    + assert (Hsz : length size = 4%nat) by apply length_le32. unfold h2, patch. rewrite Hsz. change (4 + 4)%nat with 8%nat.
      rewrite drop_app_ge by (rewrite length_take; lia). rewrite length_take, Nat.min_l by lia. change (8 - 4)%nat with 4%nat.
      rewrite drop_app_length' by done. rewrite Hrest, app_assoc, drop_app_length' by (by rewrite length_app, !length_le32).
      by rewrite take_app_length' by (by rewrite length_le32).
    + intros j Hj. destruct (Hnc j Hj) as [Hn2 Hc2]. split_and!; [done|done|]. rewrite Hh2, Hl2 in Hst. by apply Hst.
Qed.

Lemma assoc_in {V} (m : list (Name * V)) k v : keys_ok m -> assoc k m = Some v <-> (k, v) ∈ m.
Proof.
  intros Hok. split.
  { unfold assoc. destruct (List.find _ m) as [[k' v']|] eqn:E; [|done]. intros [= ->]. apply find_some in E as [Hin Hk].
    apply bool_decide_eq_true in Hk. cbn in Hk. subst k'. by apply list_elem_of_In. }
  induction m as [|[k' v'] m IH]; [by intros Hin%elem_of_nil|]. intros Hin. unfold assoc. cbn. case_bool_decide as Hk.
  - subst k'. apply elem_of_cons in Hin as [[= ->]|Hin]; [done|]. destruct Hok as [Hs _]. cbn in Hs. apply StronglySorted_inv in Hs as [_ Hall].
    rewrite Forall_fmap, Forall_forall in Hall. destruct (Hall _ Hin) as [Hne ?]. cbn in Hne. congruence.
  - apply elem_of_cons in Hin as [[= -> ->]|Hin]; [done|]. apply IH; [by eapply keys_ok_tail|done].
Qed.

Lemma key_clean {V} (m : list (Name * V)) k v : keys_ok m -> (k, v) ∈ m -> 0 ∉ k.
Proof. intros [_ Hn] Hin. rewrite Forall_forall in Hn. apply Hn, list_elem_of_fmap. by exists (k, v). Qed.

Lemma children_in node n c : (n, c) ∈ children node <-> match c with inl d => (n, d) ∈ dirs_of node | inr data => (n, data) ∈ files_of node end.
Proof.
  unfold children. rewrite (sort_by_perm _ _), elem_of_app, !list_elem_of_fmap. destruct c as [d|data]; split.
  - intros [([n' d'] & [= -> ->] & Hin)|([n' d'] & Hx & _)]; [done|discriminate].
  - intros Hin. left. by exists (n, d).
  - intros [([n' d'] & Hx & _)|([n' d'] & [= -> ->] & Hin)]; [discriminate|done].
  - intros Hin. right. by exists (n, data).
Qed.

Lemma children_clean node n c : tree_ok node -> (n, c) ∈ children node -> 0 ∉ n.
Proof. intros [dirs files Hd Hf _] Hin%children_in. destruct c; [exact (key_clean _ _ _ Hd Hin)|exact (key_clean _ _ _ Hf Hin)]. Qed.

(** A search of a run of places that hold the children, in their order. *)
Lemma find_placed (P : nat -> bool) (Q : Child -> bool) first cs : (forall k c, cs !! k = Some c -> P (first + k)%nat = Q c) ->
  match List.find P (seq first (length cs)) with
  | Some j => exists k c, j = (first + k)%nat /\ cs !! k = Some c /\ Q c = true
  | None => forall c, c ∈ cs -> Q c = false
  end.
Proof.
  intros HP. destruct (List.find P _) as [j|] eqn:E.
  - apply find_some in E as [Hin Hj]. apply in_seq in Hin. destruct (lookup_lt_is_Some_2 cs (j - first) ltac:(lia)) as [c Hc].
    exists (j - first)%nat, c. split_and!; [lia|done|]. rewrite <- (HP _ c Hc). by replace (first + (j - first))%nat with j by lia.
  - intros c [k Hk]%list_elem_of_lookup. rewrite <- (HP k c Hk). apply (find_none _ _ E). apply in_seq. apply lookup_lt_Some in Hk. lia.
Qed.

Lemma until_nul_app name rest : (0 ∉ name) -> until_nul (name ++ 0 :: rest) = name.
Proof.
  induction name as [|b name IH]; intros Hz; cbn [until_nul app]; [done|]. destruct (Z.eqb_spec b 0); [subst; set_solver|]. f_equal. apply IH. set_solver.
Qed.

Lemma flag_set z : Z.testbit (u32 (Z.lor z DIRECTORY_FLAG)) 31 = true.
Proof. unfold u32. rewrite Z.mod_pow2_bits_low, Z.lor_spec by lia. by rewrite orb_true_r. Qed.

Lemma flag_clear z : 0 <= z < 2 ^ 31 -> Z.testbit z 31 = false.
Proof. intros Hz. rewrite <- (Z.mod_small z (2 ^ 31)) by done. apply Z.mod_pow2_bits_high. lia. Qed.

Lemma flag_away z : 0 <= z < 2 ^ 31 -> Z.land (u32 (Z.lor z DIRECTORY_FLAG)) 0x7FFFFFFF = z.
Proof.
  intros Hz. change 0x7FFFFFFF with (Z.ones 31). rewrite Z.land_ones by lia. unfold u32. change DIRECTORY_FLAG with (1 * 2 ^ 31).
  rewrite <- (Z.land_ones _ 32), <- (Z.land_ones _ 31), <- Z.land_assoc by lia. change (Z.land (Z.ones 32) (Z.ones 31)) with (Z.ones 31).
  rewrite Z.land_lor_distr_l, (Z.land_ones z) by lia. change (Z.land (1 * 2 ^ 31) (Z.ones 31)) with 0. rewrite Z.lor_0_r. by apply Z.mod_small.
Qed.

Lemma tree_parts node : tree_ok node -> keys_ok (dirs_of node) /\ keys_ok (files_of node) /\ forall n d, (n, d) ∈ dirs_of node -> tree_ok d.
Proof. by intros [dirs files]. Qed.

Section reading.
Context (E : list TocEntry) (h : list Z) (recs : list (list Z)) (tail : list Z).
Let buf := layout h recs tail.
Hypothesis header_len : length h = ALIGNMENT.
Hypothesis header_toc : take 4 (drop 8 h) = le32 (Z.of_nat (length E)).
Hypothesis recs_ok : records_ok recs.
Hypothesis recs_len : length recs = length E.
Hypothesis entries : forall j, (j < length E)%nat -> named E recs tail j /\ counted E recs j /\ stored E recs tail (ALIGNMENT + length E * 16) j.
Hypothesis small : Z.of_nat (length buf) < 2 ^ 31.

Lemma length_buf : length buf = (ALIGNMENT + length E * 16 + length tail)%nat.
Proof. unfold buf, layout. rewrite !length_app, length_records, header_len, recs_len by done. lia. Qed.

Lemma toc_len_buf : toc_len buf = length E.
Proof.
  unfold toc_len, u32_at, buf, layout. pose proof length_buf as Hb. assert (Ha : (20 <= ALIGNMENT)%nat) by (unfold ALIGNMENT; lia).
  rewrite drop_app_le, take_app_le by (rewrite ?length_drop; lia). rewrite header_toc, from_le32. unfold u32. rewrite (u_id 32); [lia|].
  unfold is_u. lia.
Qed.

Lemma field_of j r k : recs !! j = Some r -> (k < 4)%nat -> field_at buf j k = from_le_bytes (field k r).
Proof. intros Hj Hk. unfold field_at, buf. rewrite <- header_len. by apply layout_field. Qed.

Lemma name_of j e : j <> O -> E !! j = Some e -> (0 ∉ entry_name e) -> name_at buf j = entry_name e.
Proof.
  intros Hj He Hz. pose proof (lookup_lt_Some _ _ _ He) as Hlt. destruct (entries j Hlt) as ([?|(e' & r & a & b & He' & Hr & Ht & Hf)] & _); [done|].
  rewrite He in He'. injection He' as <-. unfold name_at. rewrite toc_len_buf, (field_of j r 0 Hr), Hf, from_le32 by lia.
  pose proof length_buf as Hb. rewrite Ht, !length_app in Hb. unfold u32. rewrite (u_id 32) by (unfold is_u; lia). rewrite Nat2Z.id.
  unfold buf, layout. rewrite Ht, <- header_len, <- recs_len, <- (length_records recs) by done.
  rewrite <- Nat.add_assoc, drop_app_add, drop_app_add, drop_app_length. by apply until_nul_app.
Qed.

Lemma dir_fields j n cc fc : E !! j = Some (TocDir n cc fc) -> field_at buf j 1 = u32 cc /\ field_at buf j 2 = u32 (Z.lor fc DIRECTORY_FLAG).
Proof.
  intros He. pose proof (lookup_lt_Some _ _ _ He) as Hlt. destruct (entries j Hlt) as (_ & Hc & _).
  destruct (lookup_lt_is_Some_2 recs j ltac:(lia)) as [r Hr]. destruct (Hc _ _ _ _ He Hr) as [H1 H2].
  rewrite !(field_of j r _ Hr), H1, H2, !from_le32 by lia. done.
Qed.

Lemma file_fields j n data : E !! j = Some (TocFile n data) -> is_dir_at buf j = false /\
  take (Z.to_nat (field_at buf j 1)) (drop (Z.to_nat (field_at buf j 2)) buf) = data.
Proof.
  intros He. pose proof (lookup_lt_Some _ _ _ He) as Hlt. destruct (entries j Hlt) as (_ & _ & Hs).
  destruct (Hs _ _ He) as (r & a & b & Hr & Ht & H1 & H2). unfold is_dir_at. rewrite !(field_of j r _ Hr), H1, H2, !from_le32 by lia.
  pose proof length_buf as Hb. rewrite Ht, !length_app in Hb. unfold u32. rewrite !(u_id 32) by (unfold is_u; lia). rewrite !Nat2Z.id. split.
  - apply flag_clear. lia.
  - unfold buf, layout. rewrite Ht, <- header_len, <- recs_len, <- (length_records recs) by done.
    rewrite <- Nat.add_assoc, drop_app_add, drop_app_add, drop_app_length. apply take_app_length.
Qed.

(** The test of a search, on a placed child. *)
Definition is_child (want_dir : bool) (name : Name) (c : Child) : bool :=
  Bool.eqb (match c.2 with inl _ => true | inr _ => false end) want_dir && bool_decide (c.1 = name).

Lemma child_found i node want_dir name : tree_ok node -> placed E i node ->
  match child_at buf i want_dir name with
  | Some j => exists c, c ∈ children node /\ is_child want_dir name c = true /\
      match c.2 with inl d => placed E j d | inr data => E !! j = Some (TocFile c.1 data) end
  | None => forall c, c ∈ children node -> is_child want_dir name c = false
  end.
Proof.
  intros Hok Hp. destruct Hp as [i node nm first Hi Hfirst Hdirs Hfiles]. destruct (dir_fields _ _ _ _ Hi) as [H1 H2]. pose proof length_buf as Hb.
  assert (Hfit : (length (children node) = 0 \/ length (children node) <= length E)%nat).
  { destruct (children node) as [|c cs] eqn:Ec; [by left|right]. assert (Hlt : (length cs < length (c :: cs))%nat) by (cbn; lia).
    destruct (lookup_lt_is_Some_2 (c :: cs) (length cs) Hlt) as [[n [d|data]] Hk].
    - destruct (Hdirs _ _ _ Hk) as [(cc & fc & Hx) _]. apply lookup_lt_Some in Hx. cbn. lia.
    - apply Hfiles, lookup_lt_Some in Hk. cbn. lia. }
  assert (HQ : forall want_dir name k c, children node !! k = Some c ->
    Bool.eqb (is_dir_at buf (first + k)) want_dir && bool_decide (name_at buf (first + k) = name) = is_child want_dir name c).
  { intros want_dir' name' k [n c] Hk. assert (Hz : 0 ∉ n) by (eapply children_clean; [done|by eapply list_elem_of_lookup_2]).
    unfold is_child. cbn [fst snd]. destruct c as [d|data].
    - destruct (Hdirs _ _ _ Hk) as [(cc & fc & Hx) _]. rewrite (name_of (first + k) _ ltac:(lia) Hx Hz). destruct (dir_fields _ _ _ _ Hx) as [_ H2'].
      unfold is_dir_at. by rewrite H2', flag_set.
    - pose proof (Hfiles _ _ _ Hk) as Hx. rewrite (name_of (first + k) _ ltac:(lia) Hx Hz). by destruct (file_fields _ _ _ Hx) as [-> _]. }
  unfold child_at. rewrite H1, H2, flag_away by lia. unfold u32. rewrite (u_id 32) by (unfold is_u; lia). rewrite !Nat2Z.id.
  pose proof (find_placed (fun j => Bool.eqb (is_dir_at buf j) want_dir && bool_decide (name_at buf j = name)) (is_child want_dir name) first (children node) (HQ want_dir name)) as Hfind.
  destruct (List.find _ _) as [j|]; [|done]. destruct Hfind as (k & [n c] & -> & Hk & Hc). exists (n, c).
  split_and!; [by eapply list_elem_of_lookup_2|done|]. destruct c as [d|data]; cbn; [by apply (Hdirs k n d)|by apply Hfiles].
Qed.

Lemma read_placed segs : forall i node, tree_ok node -> placed E i node -> read_at buf i segs = get_at segs node.
Proof.
  induction segs as [|s segs IH]; intros i node Hok Hp; [done|]. destruct (tree_parts node Hok) as (Hd & Hf & Hsub). destruct segs as [|s' segs].
  - cbn [read_at get_at]. pose proof (child_found i node false s Hok Hp) as Hc. destruct (child_at _ _ _ _) as [j|]; cbn.
    + destruct Hc as ([n [d|data]] & Hin & [Hk Hn%bool_decide_eq_true]%andb_true_iff & Hj); [done|]. cbn in Hn. subst n.
      destruct (file_fields _ _ _ Hj) as [_ ->]. symmetry. apply assoc_in; [done|]. by apply (children_in node s (inr data)) in Hin.
    + destruct (assoc s (files_of node)) as [data|] eqn:Ea; [|done]. apply assoc_in in Ea; [|done].
      specialize (Hc (s, inr data) ltac:(by apply children_in)). unfold is_child in Hc. cbn in Hc. by rewrite bool_decide_eq_true_2 in Hc.
  - rewrite get_at_cons. change (read_at buf i (s :: s' :: segs)) with (child_at buf i true s ≫= fun j => read_at buf j (s' :: segs)).
    pose proof (child_found i node true s Hok Hp) as Hc. destruct (child_at _ _ _ _) as [j|]; cbn [mbind option_bind].
    + destruct Hc as ([n [d|data]] & Hin & [Hk Hn%bool_decide_eq_true]%andb_true_iff & Hj); [|done]. cbn in Hn, Hj. subst n.
      apply children_in in Hin. assert (Ha : assoc s (dirs_of node) = Some d) by (by apply assoc_in).
      rewrite Ha. cbn. apply IH; [|done]. by apply (Hsub s).
    + destruct (assoc s (dirs_of node)) as [d|] eqn:Ea; [|done]. apply assoc_in in Ea; [|done].
      specialize (Hc (s, inl d) ltac:(by apply children_in)). unfold is_child in Hc. cbn in Hc. by rewrite bool_decide_eq_true_2 in Hc.
Qed.
End reading.

(** C35: A reader of the archive finds, at every path, the data of the last file
    given for that path, and nothing at a path no file was given for, as long as
    no name has a NUL and the archive is below 2 GiB. *)
Theorem rpf_round_trip (files : list PackfileInput) (path : Name) :
  Forall clean files -> Z.of_nat (length (build_rpf files)) < 2 ^ 31 -> read_rpf (build_rpf files) path = last_given files path.
Proof.
  intros Hc Hsmall. destruct (tree_of_files files Hc) as [Hok Hget]. destruct (flatten_placed (foldl add_file empty_dir files)) as (E & _ & HE & Hpos & Hp).
  unfold build_rpf in *. rewrite HE in *. destruct (archive_layout E Hpos) as (h & recs & tail & Hb & Hh & Ht & Hr & Hl & Hent).
  rewrite Hb in *. rewrite <- Hget. unfold read_rpf. apply (read_placed E h recs tail); try done.
  apply Hp. unfold layout in Hsmall. rewrite !length_app, length_records in Hsmall by done. lia.
Qed.

Lemma rpf_round_trip_witness :
  let files := [{| in_path := as_bytes "dist\client/index.js"; in_data := [1; 2; 3] |};
                {| in_path := as_bytes "/fxmanifest.lua"; in_data := [4; 5] |};
                {| in_path := as_bytes "dist/client/index.js"; in_data := [6] |}] in
  read_rpf (build_rpf files) (as_bytes "dist/client/index.js") = Some [6].
Proof.
  cbv zeta. rewrite rpf_round_trip; [reflexivity| |].
  - repeat constructor; unfold clean; apply (bool_decide_unpack _); vm_compute; exact I.
  - vm_compute. reflexivity.
Defined.
