(* ===== verification/CfxBoot.v ===== *)
(** * The licence of the server and its start
      (src/crates/baston-core/src/license.rs,
      baston-cfx-platform/src/{license,policy,sidecar,error}.rs and
      baston-gateway/src/cfx.rs)

    Before it opens a listener the gateway starts the official broker, a
    subprocess, asks it for a verdict over two files, and lowers its slots to
    what the policy service grants. What the process, the disk, the clock and
    the policy service do is input, poll by poll; the decisions are definitions.
    Times are milliseconds. *)

From Stdlib Require Import Floats.SpecFloat.
From S2P Require Import Prelude Decimal Utf8 Udp Events.
From S2P Require AdaptiveTick Config ResourceManager.
#[local] Open Scope Z_scope.

Abbreviation Text := (list Z).

(** ** error.rs *)

Inductive CfxPlatformError :=
| SidecarSpawn (why : Text)
| SidecarStartTimeout
| SidecarIo (why : Text)
| SidecarDied (status : Text)
| SidecarRequestTimeout
| SidecarCancelled
| SidecarProtocol (why : Text)
| LicenseQueryFailed (why : Text)
| PolicyClientBuild
| PolicyEndpoint
| PolicyRequest
| PolicyHttpStatus (code : Z)
| PolicyDecode
| PolicyResponseTooLarge
| InvalidBrokerConfig (field : Text).

#[global] Instance platform_bind : MBind (sum CfxPlatformError) := fun A B f r => match r with inl e => inl e | inr a => f a end.

(** ** baston-core: what a licence allows *)

(** [LicenseKeyToken::new]; a token is its text. *)
Definition token_new (value : Text) : option Text :=
  let value := trim value in if bool_decide (value = []) then None else Some value.

Record Entitlements := { max_slots : option Z; features : list Text }.
Definition entitlements_default : Entitlements := {| max_slots := None; features := [] |}.

Definition eq_ignore_ascii_case (a b : Text) : bool :=
  bool_decide (Config.to_ascii_uppercase <$> a = Config.to_ascii_uppercase <$> b).
Definition grants_feature (e : Entitlements) (feature : Text) : bool := existsb (fun f => eq_ignore_ascii_case f feature) (features e).

Record LicenseStatus := {
  valid : bool; banned : bool; token : option Text; entitlements : Entitlements; reason : option Text
}.

Definition authenticated (t : Text) : LicenseStatus :=
  {| valid := true; banned := false; token := Some t; entitlements := entitlements_default; reason := None |}.
Definition invalid (why : Text) : LicenseStatus :=
  {| valid := false; banned := false; token := None; entitlements := entitlements_default; reason := Some why |}.
Definition is_authenticated (s : LicenseStatus) : bool := valid s && negb (banned s) && is_some (token s).

Inductive BootDecision := Allow | Deny (why : Text).
Definition is_allowed (d : BootDecision) : bool := match d with Allow => true | Deny _ => false end.

Definition boot_decision (s : LicenseStatus) : BootDecision :=
  if banned s then Deny (default (as_bytes "licence banned or revoked (reported by the CFX component)") (reason s))
  else if negb (valid s) then Deny (default (as_bytes "licence not valid (reported by the CFX component)") (reason s))
  else if is_some (token s) then Allow
  else Deny (as_bytes "licence accepted without an authenticated CFX token").

Definition effective_max_players (configured : Z) (e : Entitlements) : Z * bool :=
  match max_slots e with
  | Some limit => if limit <? configured then (limit, true) else (configured, false)
  | None => (configured, false)
  end.

Definition feature_permitted (requested : bool) (feature : Text) (e : Entitlements) : bool := requested && grants_feature e feature.

(** ** sidecar.rs: the launch configuration *)

Record PublicListing := { public_ip : Config.IpAddr; public_port : Z; hostname : Text; max_clients : Z; onesync : bool }.

Record SidecarParams := {
  fxserver_path : Text; resources_dir : Text; license_key : option Text; port : Z; listing : option PublicListing
}.
#[global] Instance SidecarParams_rebuild : Rebuild SidecarParams := fun p =>
  Build_SidecarParams (fxserver_path p) (resources_dir p) (license_key p) (port p) (listing p).

Definition QUOTE : Z := 34.

(** [char::is_control] of some character: U+0000 to U+001F, U+007F to U+009F,
    the last of which are two bytes. *)
Fixpoint any_unsafe (bs : Text) : bool :=
  match bs with
  | [] => false
  | b :: rest =>
      (b =? QUOTE) || (b <? 32) || (b =? 127)
      || ((b =? 194) && match rest with c :: _ => Utf8.between 128 159 c | [] => false end) || any_unsafe rest
  end.

Definition validate_config_value (field : string) (value : Text) : CfxPlatformError + unit :=
  if any_unsafe value then inl (InvalidBrokerConfig (as_bytes field)) else inr tt.

(** [Display] of the addresses. *)
Definition hex_digit (d : Z) : Z := if d <? 10 then 48 + d else 87 + d.
Fixpoint hex_digits (n : nat) (z : Z) : Text :=
  match n with O => [] | S n => (if z <? 16 then [] else hex_digits n (z / 16)) ++ [hex_digit (z mod 16)] end.
Definition display_v4 (z : Z) : Text :=
  decimal (z / 2 ^ 24 mod 256) ++ [46] ++ decimal (z / 2 ^ 16 mod 256) ++ [46] ++ decimal (z / 2 ^ 8 mod 256) ++ [46] ++ decimal (z mod 256).
Definition v6_segments (z : Z) : list Z := (fun i => z / 2 ^ (16 * i) mod 2 ^ 16) <$> [7; 6; 5; 4; 3; 2; 1; 0].

(** The first longest run of zeros: where it starts, and its length. *)
Fixpoint zero_span (i start len best_start best_len : nat) (segments : list Z) : nat * nat :=
  match segments with
  | [] => (best_start, best_len)
  | s :: rest =>
      if s =? 0 then
        let start := if (len =? 0)%nat then i else start in
        let len := S len in
        if (best_len <? len)%nat then zero_span (S i) start len start len rest else zero_span (S i) start len best_start best_len rest
      else zero_span (S i) O O best_start best_len rest
  end.

Fixpoint colons (segments : list Z) : Text :=
  match segments with [] => [] | [s] => hex_digits 4 s | s :: rest => hex_digits 4 s ++ [58] ++ colons rest end.

Definition display_v6 (z : Z) : Text :=
  if z / 2 ^ 32 =? 0xFFFF then as_bytes "::ffff:" ++ display_v4 (z mod 2 ^ 32)
  else
    let segments := v6_segments z in
    let '(start, len) := zero_span O O O O O segments in
    if (1 <? len)%nat then colons (take start segments) ++ [58; 58] ++ colons (drop (start + len) segments) else colons segments.

Definition display_ip (a : Config.IpAddr) : Text := match a with Config.V4 z => display_v4 z | Config.V6 z => display_v6 z end.

Definition NL : Z := 10.
Definition plain_line (key : string) (value : Text) : Text := as_bytes key ++ [32] ++ value ++ [NL].
Definition quoted_line (key : string) (value : Text) : Text := as_bytes key ++ [32; QUOTE] ++ value ++ [QUOTE; NL].
Definition endpoint (p : Z) : Text := as_bytes "127.0.0.1:" ++ decimal p.

Definition render_key (key : option Text) : CfxPlatformError + Text :=
  match key with
  | None => inr []
  | Some key => validate_config_value "licence key" key ≫= fun _ => inr (quoted_line "sv_licenseKey" key)
  end.

Definition render_listing (p : SidecarParams) : CfxPlatformError + (Text * Z) :=
  match listing p with
  | Some l =>
      validate_config_value "hostname" (hostname l) ≫= fun _ =>
      inr (plain_line "sv_maxclients" (decimal (max_clients l)) ++ quoted_line "sv_listingIpOverride" (display_ip (public_ip l))
             ++ quoted_line "sv_hostname" (hostname l) ++ plain_line "onesync" (as_bytes (if onesync l then "on" else "off")),
           public_port l)
  | None =>
      inr (plain_line "sv_maxclients" (as_bytes "1") ++ quoted_line "sv_master1" [] ++ plain_line "onesync" (as_bytes "off"), port p)
  end.

Definition render_sidecar_cfg (p : SidecarParams) : CfxPlatformError + Text :=
  render_key (license_key p) ≫= fun head =>
  render_listing p ≫= fun body =>
  inr (head ++ body.1 ++ plain_line "sv_endpointprivacy" (as_bytes "true") ++ plain_line "sv_scriptHookAllowed" (as_bytes "false")
         ++ quoted_line "endpoint_add_tcp" (endpoint body.2) ++ quoted_line "endpoint_add_udp" (endpoint body.2)).

(** ** sidecar.rs: the process *)

Definition READY_TIMEOUT : Z := 60 * 1000.
Definition REQUEST_TIMEOUT : Z := 8 * 1000.

(** One look at the process while it starts. *)
Record ReadyPoll := { rp_cancelled : bool; rp_ready : bool; rp_exit : option Text; rp_now : Z }.

(** [None]: still waiting when the polls end. *)
Fixpoint await_ready (deadline : Z) (polls : list ReadyPoll) : option (CfxPlatformError + unit) :=
  match polls with
  | [] => None
  | p :: polls =>
      if rp_cancelled p then Some (inl SidecarCancelled)
      else if rp_ready p then Some (inr tt)
      else match rp_exit p with
      | Some status => Some (inl (SidecarDied (as_bytes "sidecar exited during startup (" ++ status ++ as_bytes ")")))
      | None => if deadline <=? rp_now p then Some (inl SidecarStartTimeout) else await_ready deadline polls
      end
  end.

(** What the system does for a launch: the port it finds, the shim and the
    configuration file it writes, the process it spawns. *)
Record Launch := {
  l_port : CfxPlatformError + Z; l_shim : CfxPlatformError + unit; l_config : CfxPlatformError + unit;
  l_spawn : CfxPlatformError + unit; l_started : Z; l_polls : list ReadyPoll
}.

Record Sidecar := { params : SidecarParams; cfg : Text; seq : Z }.
#[global] Instance Sidecar_rebuild : Rebuild Sidecar := fun s => Build_Sidecar (params s) (cfg s) (seq s).

(** [start_with_cancellation], and whether the shim's directory is left. *)
Definition start_sidecar (p : SidecarParams) (l : Launch) : option ((CfxPlatformError + Sidecar) * bool) :=
  match (if port p =? 0 then l_port l else inr (port p)) with
  | inl e => Some (inl e, false)
  | inr free =>
      let p := p <| port := free |> in
      match l_shim l with
      | inl e => Some (inl e, true)
      | inr _ =>
          match render_sidecar_cfg p ≫= fun cfg => l_config l ≫= fun _ => inr cfg with
          | inl e => Some (inl e, true)
          | inr cfg =>
              match l_spawn l with
              | inl e => Some (inl e, false)
              | inr _ =>
                  match await_ready (l_started l + READY_TIMEOUT) (l_polls l) with
                  | None => None
                  | Some (inl e) => Some (inl e, false)
                  | Some (inr _) => Some (inr {| params := p; cfg := cfg; seq := 0 |}, true)
                  end
              end
          end
      end
  end.

Section json.
Context `{Json}.

Definition get (v : value) (key : string) : option value := field v (as_bytes key).

(** One look at the answer file: what it holds, and why it cannot be removed,
    if not for its being gone. *)
Record Poll := { p_cancelled : bool; p_exit : option Text; p_file : option (list Z); p_removal : option Text; p_now : Z }.

Definition answers_id (id : Z) (v : value) : bool :=
  match get v "id" with
  | None => false
  | Some i =>
      bool_decide (as_u64 i = Some id)
      || match as_f64 i with Some x => SFeqb x (AdaptiveTick.f64_of_Z id) | None => false end
  end.

Definition reply_of (id : Z) (file : option (list Z)) : option value :=
  bytes ← file; text ← from_utf8 bytes; v ← from_str text; if answers_id id v then Some v else None.

Fixpoint poll_reply (id deadline : Z) (polls : list Poll) : option (CfxPlatformError + value) :=
  match polls with
  | [] => None
  | p :: polls =>
      if p_cancelled p then Some (inl SidecarCancelled)
      else match p_exit p with
      | Some status => Some (inl (SidecarDied status))
      | None =>
          match reply_of id (p_file p) with
          | Some v =>
              Some match p_removal p with
                   | Some why => inl (SidecarIo (as_bytes "removing consumed response: " ++ why))
                   | None => inr v
                   end
          | None => if deadline <=? p_now p then Some (inl SidecarRequestTimeout) else poll_reply id deadline polls
          end
      end
  end.

(** [r_written]: why the request could not be written. *)
Record Request := { r_written : option Text; r_started : Z; r_polls : list Poll }.

Definition request (r : Request) (s : Sidecar) : option (CfxPlatformError + value) * Sidecar :=
  let id := u64 (seq s + 1) in
  (match r_written r with
   | Some why => Some (inl (SidecarIo (as_bytes "writing request: " ++ why)))
   | None => poll_reply id (r_started r + REQUEST_TIMEOUT) (r_polls r)
   end, s <| seq := id |>).

(** ** license.rs: the verdict *)

Definition parse_entitlements (v : value) : Entitlements :=
  match get v "entitlements" with
  | None => entitlements_default
  | Some ent =>
      {| max_slots := (get ent "max_slots" ≫= as_u64) ≫= fun m => if m <? 2 ^ 32 then Some m else None;
         features := match get ent "features" ≫= as_array with Some fs => omap as_str fs | None => [] end |}
  end.

Definition parse_status (v : value) : CfxPlatformError + LicenseStatus :=
  match get v "error" ≫= as_str with
  | Some err => inl (LicenseQueryFailed err)
  | None =>
      inr {| valid := default false (get v "valid" ≫= as_bool); banned := default false (get v "banned" ≫= as_bool);
             token := (get v "token" ≫= as_str) ≫= token_new; entitlements := parse_entitlements v;
             reason := get v "reason" ≫= as_str |}
  end.

(** One turn of the query: the request, the clock read after an error and
    before the pause, and whether the pause is cancelled. *)
Record Attempt := { a_cancelled : bool; a_request : Request; a_error_now : Z; a_now : Z; a_pause_cancelled : bool }.

Definition no_verdict : LicenseStatus := invalid (as_bytes "no licence verdict from the CFX component within the startup budget").

(** [query_with_cancellation]; [None]: still asking when the turns end. *)
Fixpoint query_loop (deadline : Z) (last : option LicenseStatus) (attempts : list Attempt) (s : Sidecar)
    : option (CfxPlatformError + LicenseStatus) * Sidecar :=
  match attempts with
  | [] => (None, s)
  | a :: attempts =>
      if a_cancelled a then (Some (inl SidecarCancelled), s)
      else
        let '(reply, s) := request (a_request a) s in
        let pause last :=
          if deadline <=? a_now a then (Some (inr (default no_verdict last)), s)
          else if a_pause_cancelled a then (Some (inl SidecarCancelled), s) else query_loop deadline last attempts s in
        match reply with
        | None => (None, s)
        | Some reply =>
            match reply ≫= parse_status with
            | inr status => if banned status || is_authenticated status then (Some (inr status), s) else pause (Some status)
            | inl e => if deadline <=? a_error_now a then (Some (inl e), s) else pause last
            end
        end
  end.

Definition query (started budget : Z) (attempts : list Attempt) (s : Sidecar) : option (CfxPlatformError + LicenseStatus) * Sidecar :=
  query_loop (started + budget) None attempts s.

(** ** policy.rs *)

Definition BASE_MAX_SLOTS : Z := 48.
Definition MAX_POLICY_RESPONSE_BYTES : nat := Z.to_nat (64 * 1024).

Inductive PolicySource := Cfx | ConservativeFallback.
Record PolicyResolution := { granted : Entitlements; source : PolicySource }.

Definition entitlements_from_policies (policies : list Text) : Entitlements :=
  let grants name := bool_decide (as_bytes name ∈ policies) in
  let slots :=
    if grants "onesync_big"%string then 2048
    else if grants "onesync_plus"%string || grants "onesync_medium"%string then 128
    else if grants "onesync"%string then 64 else BASE_MAX_SLOTS in
  {| max_slots := Some slots; features := policies |}.

(** The service's answer: none, or a status and chunks, the last of which may
    fail. The endpoint is a base, so the token can be pushed to it. *)
Inductive HttpReply := NoReply | Replied (status : Z) (chunks : list (option (list Z))).

Fixpoint read_body (body : list Z) (chunks : list (option (list Z))) : CfxPlatformError + list Z :=
  match chunks with
  | [] => inr body
  | None :: _ => inl PolicyRequest
  | Some chunk :: chunks =>
      if (MAX_POLICY_RESPONSE_BYTES <? length body + length chunk)%nat then inl PolicyResponseTooLarge
      else read_body (body ++ chunk) chunks
  end.

Definition parse_policies (body : list Z) : option (list Text) :=
  text ← from_utf8 body; v ← from_str text; items ← as_array v; mapM as_str items.

Definition fetch (r : HttpReply) : CfxPlatformError + Entitlements :=
  match r with
  | NoReply => inl PolicyRequest
  | Replied status chunks =>
      if negb (Utf8.between 200 299 status) then inl (PolicyHttpStatus status)
      else read_body [] chunks ≫= fun body =>
        match parse_policies body with None => inl PolicyDecode | Some policies => inr (entitlements_from_policies policies) end
  end.

Definition resolve (r : HttpReply) : PolicyResolution :=
  match fetch r with
  | inr e => {| granted := e; source := Cfx |}
  | inl _ => {| granted := entitlements_from_policies []; source := ConservativeFallback |}
  end.

(** ** cfx.rs *)

Inductive CfxBootstrapError := Platform (e : CfxPlatformError) | BrokerTask | LicenceDenied (why : Text).

Record CfxRuntime := { sidecar : Sidecar; runtime_token : Text; policy_source : PolicySource }.

Definition authenticated_token (s : LicenseStatus) : CfxBootstrapError + Text :=
  match boot_decision s with
  | Allow => match token s with Some t => inr t | None => inl (LicenceDenied (as_bytes "the official broker returned no authenticated token")) end
  | Deny why => inl (LicenceDenied why)
  end.

(** One broker: how it starts and answers, and whether its task fails. *)
Record Broker := { b_launch : Launch; b_asked : Z; b_attempts : list Attempt; b_panics : bool }.

Definition start_and_authenticate (p : SidecarParams) (b : Broker) : option (CfxBootstrapError + (Sidecar * Text)) :=
  if b_panics b then Some (inl BrokerTask)
  else match start_sidecar p (b_launch b) with
  | None => None
  | Some (inl e, _) => Some (inl (Platform e))
  | Some (inr s, _) =>
      match query (b_asked b) (20 * 1000) (b_attempts b) s with
      | (None, _) => None
      | (Some (inl e), _) => Some (inl (Platform e))
      | (Some (inr status), s) =>
          Some match authenticated_token status with inl e => inl e | inr t => inr (s, t) end
      end
  end.

Definition apply_slot_policy (c : Config.BastonConfig) (e : Entitlements) : Config.BastonConfig :=
  let '(effective, capped) := effective_max_players (Config.Server.max_players (Config.server c)) e in
  if capped then c <| Config.server := (Config.server c) <| Config.Server.max_players := effective |> |> else c.

(** The directory beside the resources, up to the components that stand for
    nothing. *)
Definition sidecar_scratch_dir (resources_path : Text) : Text :=
  let base := if ResourceManager.is_absolute resources_path then [ResourceManager.SLASH] else [] in
  ResourceManager.push (foldl ResourceManager.push base (removelast (ResourceManager.components resources_path))) (as_bytes ".baston-sidecar-res").

Definition broker_params (c : Config.BastonConfig) (l : option PublicListing) : CfxBootstrapError + SidecarParams :=
  match Config.License.fxserver_path (Config.license c) with
  | None => inl (LicenceDenied (as_bytes "FXServer path is missing"))
  | Some path =>
      inr {| fxserver_path := path; resources_dir := sidecar_scratch_dir (Config.Resources.path (Config.resources c));
             license_key := Some (trim (Config.License.sv_license_key (Config.license c)));
             port := Config.License.sidecar_port (Config.license c); listing := l |}
  end.

(** [client_built]: whether the policy client can be made. *)
Definition bootstrap (b : Broker) (client_built : CfxPlatformError + unit) (policy : HttpReply) (c : Config.BastonConfig)
    : option ((CfxBootstrapError + option CfxRuntime) * Config.BastonConfig) :=
  match Config.License.mode (Config.license c) with
  | Config.License.Off | Config.License.Gate => Some (inr None, c)
  | Config.License.Verified =>
      match broker_params c None with
      | inl e => Some (inl e, c)
      | inr p =>
          match start_and_authenticate p b with
          | None => None
          | Some (inl e) => Some (inl e, c)
          | Some (inr (s, t)) =>
              match client_built with
              | inl e => Some (inl (Platform e), c)
              | inr _ =>
                  let r := resolve policy in
                  Some (inr (Some {| sidecar := s; runtime_token := t; policy_source := source r |}), apply_slot_policy c (granted r))
              end
          end
      end
  end.

Definition public_listing (c : Config.BastonConfig) : CfxBootstrapError + option PublicListing :=
  if Config.License.public_listing (Config.license c) then
    match Config.License.listing_ip_override (Config.license c) with
    | None => inl (LicenceDenied (as_bytes "public listing requires license.listing_ip_override"))
    | Some ip =>
        inr (Some {| public_ip := ip; public_port := Config.Server.port (Config.server c); hostname := Config.Server.name (Config.server c);
                     max_clients := Config.Server.max_players (Config.server c);
                     onesync := Config.StateSync.is_enabled (Config.StateSync.onesync (Config.state_sync c)) |})
    end
  else inr None.

(** Which of the two comes first: the new broker, or the end of the old one. *)
Inductive Race := NewBroker (b : Broker) | OldStopped (why : Text).

Definition activate_public_listing (race : Race) (c : Config.BastonConfig) (rt : CfxRuntime) : option (CfxBootstrapError + CfxRuntime) :=
  match public_listing c with
  | inl e => Some (inl e)
  | inr None => Some (inr rt)
  | inr (Some l) =>
      match broker_params c (Some l), race with
      | inl e, _ => Some (inl e)
      | inr _, OldStopped why => Some (inl (LicenceDenied (as_bytes "private CFX broker stopped during public activation: " ++ why)))
      | inr p, NewBroker b =>
          match start_and_authenticate p b with
          | None => None
          | Some (inl e) => Some (inl e)
          | Some (inr (s, t)) => Some (inr {| sidecar := s; runtime_token := t; policy_source := policy_source rt |})
          end
      end
  end.

(** ** The launch configuration, read back *)

Fixpoint lines (part bs : Text) : list Text :=
  match bs with
  | [] => if bool_decide (part = []) then [] else [part]
  | b :: rest => if b =? NL then part :: lines [] rest else lines (part ++ [b]) rest
  end.

Definition unquote (v : Text) : Text := match v with b :: rest => if b =? QUOTE then removelast rest else v | [] => [] end.
Definition read_line (l : Text) : Text * Text :=
  match find_byte 32 l with Some i => (take i l, unquote (drop (S i) l)) | None => (l, []) end.
Definition read_cfg (cfg : Text) : list (Text * Text) := read_line <$> lines [] cfg.

(** What the configuration is meant to say. *)
Definition settings (p : SidecarParams) : list (Text * Text) :=
  match license_key p with Some k => [(as_bytes "sv_licenseKey", k)] | None => [] end
  ++ match listing p with
     | Some l =>
         [(as_bytes "sv_maxclients", decimal (max_clients l)); (as_bytes "sv_listingIpOverride", display_ip (public_ip l));
          (as_bytes "sv_hostname", hostname l); (as_bytes "onesync", as_bytes (if onesync l then "on" else "off"))]
     | None => [(as_bytes "sv_maxclients", as_bytes "1"); (as_bytes "sv_master1", []); (as_bytes "onesync", as_bytes "off")]
     end
  ++ let p := match listing p with Some l => public_port l | None => port p end in
     [(as_bytes "sv_endpointprivacy", as_bytes "true"); (as_bytes "sv_scriptHookAllowed", as_bytes "false");
      (as_bytes "endpoint_add_tcp", endpoint p); (as_bytes "endpoint_add_udp", endpoint p)].

Definition tame (b : Z) : Prop := b <> NL /\ b <> QUOTE.

Lemma tame_decimal z : Forall tame (decimal z).
Proof.
  unfold decimal. generalize 10%nat. intros n. revert z. induction n as [|n IH]; intros z; cbn [decimal_digits]; [constructor|].
  pose proof (Z.mod_pos_bound z 10 ltac:(lia)). apply Forall_app. split; [destruct (z <? 10); [constructor|apply IH]|].
  repeat constructor; unfold NL, QUOTE; lia.
Qed.

Lemma tame_hex n : forall z, Forall tame (hex_digits n z).
Proof.
  induction n as [|n IH]; intros z; cbn [hex_digits]; [constructor|]. pose proof (Z.mod_pos_bound z 16 ltac:(lia)). apply Forall_app.
  split; [destruct (z <? 16); [constructor|apply IH]|]. unfold hex_digit. destruct (Z.ltb_spec (z mod 16) 10); repeat constructor; unfold NL, QUOTE; lia.
Qed.

Create HintDb tame.
#[local] Hint Resolve tame_decimal tame_hex Forall_app_2 : tame.
#[local] Hint Extern 3 (Forall tame (_ :: _)) => constructor : tame.
#[local] Hint Extern 3 (Forall tame []) => constructor : tame.
#[local] Hint Extern 3 (tame _) => (split; [discriminate|discriminate]) : tame.

Lemma tame_colons segments : Forall tame (colons segments).
Proof. induction segments as [|s [|s' segments] IH]; cbn [colons]; auto 8 with tame. Qed.

Lemma tame_v4 z : Forall tame (display_v4 z).
Proof. unfold display_v4. auto 12 with tame. Qed.

Lemma tame_ip a : Forall tame (display_ip a).
Proof.
  destruct a as [z|z]; cbn [display_ip]; [apply tame_v4|]. unfold display_v6. destruct (_ =? _).
  - apply Forall_app_2; [|apply tame_v4]. cbn. auto 20 with tame.
  - destruct (zero_span _ _ _ _ _ _) as [start len]. destruct (1 <? len)%nat; [|apply tame_colons].
    apply Forall_app_2; [apply tame_colons|]. apply Forall_app_2; [auto with tame|apply tame_colons].
Qed.

Lemma tame_endpoint q : Forall tame (endpoint q).
Proof. unfold endpoint. apply Forall_app_2; [|apply tame_decimal]. by repeat constructor. Qed.

Lemma lines_cons l rest : forall part, (NL ∉ l) -> lines part (l ++ NL :: rest) = (part ++ l) :: lines [] rest.
Proof.
  induction l as [|b l IH]; intros part Hn; cbn [lines app]; [by rewrite app_nil_r|].
  destruct (Z.eqb_spec b NL); [subst; set_solver|]. rewrite IH by set_solver. by rewrite <- app_assoc.
Qed.

(** The keys of the source have neither spaces nor line ends. *)
Definition key_ok (key : string) : bool := forallb (fun b => negb (b =? 32) && negb (b =? NL)) (as_bytes key).

Lemma read_line_key key value : key_ok key = true -> read_line (as_bytes key ++ [32] ++ value) = (as_bytes key, unquote value).
Proof.
  intros Hk. unfold read_line. cbn [app]. rewrite find_byte_app.
  - rewrite take_app_length. by rewrite (cons_middle 32), app_assoc, drop_app_length' by (rewrite length_app; cbn; lia).
  - unfold key_ok in Hk. rewrite forallb_forall in Hk. apply Forall_forall. intros b Hb ->. apply list_elem_of_In in Hb. by apply Hk in Hb.
Qed.

Lemma key_no_nl key : key_ok key = true -> NL ∉ as_bytes key.
Proof. intros Hk Hin. unfold key_ok in Hk. rewrite forallb_forall in Hk. apply list_elem_of_In in Hin. by apply Hk in Hin. Qed.

Lemma tame_no_nl v : Forall tame v -> NL ∉ v.
Proof. intros Ht Hin. rewrite Forall_forall in Ht. by destruct (Ht _ Hin). Qed.

Lemma read_plain key value rest : key_ok key = true -> Forall tame value ->
  read_cfg (plain_line key value ++ rest) = (as_bytes key, value) :: read_cfg rest.
Proof.
  intros Hk Hv. unfold read_cfg, plain_line. rewrite <- !app_assoc. cbn [app].
  replace (as_bytes key ++ 32 :: value ++ NL :: rest) with ((as_bytes key ++ [32] ++ value) ++ NL :: rest) by (by rewrite <- !app_assoc).
  pose proof (key_no_nl key Hk). pose proof (tame_no_nl value Hv).
  rewrite lines_cons by (rewrite !elem_of_app, list_elem_of_singleton; intros [?|[?|?]]; done).
  cbn [fmap list_fmap]. f_equal. rewrite app_nil_l, (read_line_key key value Hk). f_equal. destruct Hv as [|b v [_ Hq] Hv]; [done|]. cbn.
  by destruct (Z.eqb_spec b QUOTE).
Qed.

Lemma read_quoted key value rest : key_ok key = true -> (NL ∉ value) ->
  read_cfg (quoted_line key value ++ rest) = (as_bytes key, value) :: read_cfg rest.
Proof.
  intros Hk Hv. unfold read_cfg, quoted_line. rewrite <- !app_assoc. cbn [app].
  replace (as_bytes key ++ 32 :: QUOTE :: value ++ QUOTE :: NL :: rest) with ((as_bytes key ++ [32] ++ QUOTE :: value ++ [QUOTE]) ++ NL :: rest)
    by (rewrite <- !app_assoc; cbn; by rewrite <- !app_assoc).
  pose proof (key_no_nl key Hk) as Hn. rewrite lines_cons.
  - cbn [fmap list_fmap]. f_equal. rewrite app_nil_l, (read_line_key key _ Hk). cbn [unquote]. by rewrite Z.eqb_refl, removelast_last.
  - intros Hin. repeat apply elem_of_app in Hin as [Hin|Hin]; [done|by apply list_elem_of_singleton in Hin|].
    apply elem_of_cons in Hin as [?|[?|Hin]%elem_of_app]; [done|done|]. by apply list_elem_of_singleton in Hin.
Qed.

Lemma safe_no_nl v : any_unsafe v = false -> NL ∉ v.
Proof.
  induction v as [|b v IH]; cbn [any_unsafe]; [by intros _ Hin%elem_of_nil|]. intros [[[[_ Hc]%orb_false_iff _]%orb_false_iff _]%orb_false_iff Hv]%orb_false_iff.
  intros [<-|Hin]%elem_of_cons; [by unfold NL in Hc|by apply IH].
Qed.

(** the broker's configuration. What is rendered reads back, line by line, as
    the settings it is meant to have, so no key and no host name adds or changes
    a setting; it is refused exactly for a key or a host name with a quote or a
    control character, and the error does not tell the value. *)
Theorem cfg_reads_back p :
  match render_sidecar_cfg p with
  | inr cfg => read_cfg cfg = settings p
  | inl e => e = InvalidBrokerConfig (as_bytes "licence key") /\ any_unsafe (default [] (license_key p)) = true \/
      e = InvalidBrokerConfig (as_bytes "hostname") /\ exists l, listing p = Some l /\ any_unsafe (hostname l) = true
  end.
Proof.
  assert (Hend : forall q, read_cfg (plain_line "sv_endpointprivacy" (as_bytes "true") ++ plain_line "sv_scriptHookAllowed" (as_bytes "false")
    ++ quoted_line "endpoint_add_tcp" (endpoint q) ++ quoted_line "endpoint_add_udp" (endpoint q)) =
    [(as_bytes "sv_endpointprivacy", as_bytes "true"); (as_bytes "sv_scriptHookAllowed", as_bytes "false");
      (as_bytes "endpoint_add_tcp", endpoint q); (as_bytes "endpoint_add_udp", endpoint q)]).
  { intros q. assert (Hq : NL ∉ endpoint q) by apply tame_no_nl, tame_endpoint.
    rewrite !read_plain, read_quoted by (done || (cbn; auto 10 with tame)). do 3 f_equal.
    rewrite <- (app_nil_r (quoted_line "endpoint_add_udp" _)). by rewrite read_quoted. }
  assert (Hkey : match render_key (license_key p) with
    | inr head => forall rest, read_cfg (head ++ rest) = match license_key p with Some k => [(as_bytes "sv_licenseKey", k)] | None => [] end ++ read_cfg rest
    | inl e => e = InvalidBrokerConfig (as_bytes "licence key") /\ any_unsafe (default [] (license_key p)) = true end).
  { unfold render_key, validate_config_value. destruct (license_key p) as [k|]; [|done]. destruct (any_unsafe k) eqn:Ek; cbn [mbind platform_bind]; [done|].
    intros rest. apply read_quoted; [done|]. by apply safe_no_nl. }
  unfold render_sidecar_cfg. destruct (render_key (license_key p)) as [e|head]; [by left|]. cbn [mbind platform_bind]. unfold render_listing, settings.
  destruct (listing p) as [l|].
  - unfold validate_config_value. destruct (any_unsafe (hostname l)) eqn:El; cbn [mbind platform_bind]; [right; split; [done|by exists l]|].
    cbn [fst snd]. rewrite Hkey, <- !app_assoc. f_equal. rewrite read_plain by (done || apply tame_decimal).
    rewrite !read_quoted by (done || (by apply safe_no_nl) || (apply tame_no_nl, tame_ip)).
    rewrite read_plain by (done || (destruct (onesync l); cbn; auto 10 with tame)). cbn [app]. do 4 f_equal. apply Hend.
  - cbn [mbind platform_bind fst snd]. rewrite Hkey, <- !app_assoc. f_equal. rewrite read_plain by (done || (cbn; auto with tame)).
    rewrite read_quoted by (done || set_solver). rewrite read_plain by (done || (cbn; auto 10 with tame)). cbn [app]. do 3 f_equal. apply Hend.
Qed.

(** ** The start *)

(** The answers of the broker, in order. *)
Fixpoint replies (attempts : list Attempt) (s : Sidecar) : list (option (CfxPlatformError + value)) :=
  match attempts with
  | [] => []
  | a :: attempts => let '(r, s) := request (a_request a) s in r :: replies attempts s
  end.

Definition decisive (s : LicenseStatus) : bool := banned s || is_authenticated s.

(** A verdict that decides is the first that does. *)
Lemma query_decides deadline attempts status s' : forall s last, (forall st, last = Some st -> decisive st = false) ->
  query_loop deadline last attempts s = (Some (inr status), s') -> decisive status = true ->
  exists n v, replies attempts s !! n = Some (Some (inr v)) /\ parse_status v = inr status /\
    forall m w st, (m < n)%nat -> replies attempts s !! m = Some (Some (inr w)) -> parse_status w = inr st -> decisive st = false.
Proof.
  induction attempts as [|a attempts IH]; intros s last Hlast Hq Hd; [done|]. cbn [query_loop replies] in *. destruct (a_cancelled a); [done|].
  destruct (request (a_request a) s) as [r s1]. destruct r as [reply|]; [|done].
  assert (Hstop : forall last, (forall st, last = Some st -> decisive st = false) -> default no_verdict last <> status).
  { intros [st|] Hl <-; [|done]. specialize (Hl st eq_refl). cbn in Hd. congruence. }
  assert (Hrest : forall last, (forall st, last = Some st -> decisive st = false) ->
    (forall w st, reply = inr w -> parse_status w = inr st -> decisive st = false) ->
    (if deadline <=? a_now a then (Some (inr (default no_verdict last)), s1)
     else if a_pause_cancelled a then (Some (inl SidecarCancelled), s1) else query_loop deadline last attempts s1) = (Some (inr status), s') ->
    exists n v, (Some reply :: replies attempts s1) !! n = Some (Some (inr v)) /\ parse_status v = inr status /\
      forall m w st, (m < n)%nat -> (Some reply :: replies attempts s1) !! m = Some (Some (inr w)) -> parse_status w = inr st -> decisive st = false).
  { intros last' Hl Hr Hq'. destruct (deadline <=? a_now a); [injection Hq' as Hx _; by apply Hstop in Hx|].
    destruct (a_pause_cancelled a); [done|]. destruct (IH s1 last' Hl Hq' Hd) as (n & v & Hn & Hv & Hall). exists (S n), v.
    split_and!; [done|done|]. intros [|m] w st Hm Hw Hp; [cbn in Hw; injection Hw as ->; by apply (Hr w)|]. apply (Hall m w st); [lia|done|done]. }
  destruct (reply ≫= parse_status) as [e|st] eqn:Ep.
  - destruct (deadline <=? a_error_now a); [done|]. apply (Hrest last); [done| |done]. intros w st -> Hp. cbn in Ep. congruence.
  - destruct reply as [e|w]; [done|]. cbn in Ep. destruct (decisive st) eqn:Est; unfold decisive in Est; rewrite Est in Hq.
    + injection Hq as -> _. exists O, w. split_and!; [done|done|lia].
    + apply (Hrest (Some st)); [by intros ? [= <-]| |done]. intros w' st' [= <-] Hp. rewrite Ep in Hp. by injection Hp as <-.
Qed.

Lemma authenticated_spec status t : authenticated_token status = inr t ->
  decisive status = true /\ valid status = true /\ banned status = false /\ token status = Some t.
Proof.
  unfold authenticated_token, boot_decision, decisive, is_authenticated. destruct (banned status); [done|]. destruct (valid status); [|done].
  cbn. destruct (token status) as [t'|]; [|done]. intros [= ->]. done.
Qed.

(** What starting a broker gives: one that answered, and the token of the first
    verdict that decides. *)
Lemma started_spec p b s t : start_and_authenticate p b = Some (inr (s, t)) ->
  exists s0 n v status, start_sidecar p (b_launch b) = Some (inr s0, true) /\ replies (b_attempts b) s0 !! n = Some (Some (inr v)) /\
    parse_status v = inr status /\ valid status = true /\ banned status = false /\ token status = Some t /\
    forall m w st, (m < n)%nat -> replies (b_attempts b) s0 !! m = Some (Some (inr w)) -> parse_status w = inr st -> decisive st = false.
Proof.
  unfold start_and_authenticate. destruct (b_panics b); [done|]. destruct (start_sidecar p (b_launch b)) as [[[e|s0] left]|] eqn:Es; [done| |done].
  assert (left = true) as ->.
  { clear -Es. unfold start_sidecar in Es. repeat case_match; simplify_eq; done. }
  destruct (query _ _ _ _) as [[[e|status]|] s1] eqn:Eq; [done| |done]. destruct (authenticated_token status) as [e|t'] eqn:Et; [done|]. intros [= -> ->].
  destruct (authenticated_spec _ _ Et) as (Hd & Hv & Hb & Htk). unfold query in Eq.
  destruct (query_decides _ _ _ _ _ None ltac:(done) Eq Hd) as (n & v & Hn & Hp & Hall). exists s0, n, v, status. done.
Qed.

Lemma min_slots configured e limit : max_slots e = Some limit -> (effective_max_players configured e).1 = Z.min configured limit.
Proof. unfold effective_max_players. intros ->. destruct (Z.ltb_spec limit configured); cbn; lia. Qed.

(** The slots the policies grant, or the base without their answer. *)
Definition granted_slots (policy : HttpReply) : Z := default BASE_MAX_SLOTS (max_slots (granted (resolve policy))).

Lemma granted_known policy : max_slots (granted (resolve policy)) = Some (granted_slots policy).
Proof.
  unfold granted_slots, resolve. destruct (fetch policy) as [e|e] eqn:E; [done|]. unfold fetch in E. destruct policy as [|status chunks]; [done|].
  destruct (negb _); [done|]. destruct (read_body [] chunks) as [|body]; [done|]. cbn in E. destruct (parse_policies body); [|done]. by injection E as <-.
Qed.

Lemma apply_policy c policy : apply_slot_policy c (granted (resolve policy)) =
  c <| Config.server := (Config.server c) <| Config.Server.max_players := Z.min (Config.Server.max_players (Config.server c)) (granted_slots policy) |> |>.
Proof.
  unfold apply_slot_policy. pose proof (min_slots (Config.Server.max_players (Config.server c)) _ _ (granted_known policy)) as Hm.
  destruct (effective_max_players _ _) as [effective capped] eqn:Ee. cbn in Hm. subst effective. destruct capped; [done|].
  unfold effective_max_players in Ee. rewrite granted_known in Ee. destruct (Z.ltb_spec (granted_slots policy) (Config.Server.max_players (Config.server c))); [done|].
  injection Ee as Ee. rewrite <- Ee. by destruct c as [[] ? ? ? ? ? ? ? ? ? ? ? ? ? ? ?].
Qed.

(** C28: the start fails closed. Whatever the process, the disk, the clock and the
    policy service do, a verified server starts only with the token of a broker
    verdict that is valid and not banned, before which no verdict was banned, and
    with at most the slots the policies grant, 48 if they did not answer; a
    server that is not verified starts without a token, a refused one changes
    nothing. *)
Theorem boot_fails_closed b client_built policy c :
  match bootstrap b client_built policy c with
  | None => Config.License.mode (Config.license c) = Config.License.Verified
  | Some (inl _, c') => Config.License.mode (Config.license c) = Config.License.Verified /\ c' = c
  | Some (inr None, c') => Config.License.mode (Config.license c) <> Config.License.Verified /\ c' = c
  | Some (inr (Some rt), c') =>
      Config.License.mode (Config.license c) = Config.License.Verified /\
      (exists p s0 n v status, start_sidecar p (b_launch b) = Some (inr s0, true) /\ listing p = None /\
        replies (b_attempts b) s0 !! n = Some (Some (inr v)) /\ parse_status v = inr status /\
        valid status = true /\ banned status = false /\ token status = Some (runtime_token rt) /\
        forall m w st, (m < n)%nat -> replies (b_attempts b) s0 !! m = Some (Some (inr w)) -> parse_status w = inr st -> banned st = false) /\
      c' = c <| Config.server := (Config.server c) <| Config.Server.max_players :=
             Z.min (Config.Server.max_players (Config.server c)) (granted_slots policy) |> |> /\
      (policy_source rt = ConservativeFallback -> granted_slots policy = 48)
  end.
Proof.
  unfold bootstrap. destruct (Config.License.mode _) eqn:Em; [done|done|]. destruct (broker_params c None) as [e|p] eqn:Ep; [done|].
  destruct (start_and_authenticate p b) as [[e|[s t]]|] eqn:Es; [done| |done]. destruct client_built; [done|]. cbn [runtime_token policy_source].
  apply started_spec in Es as (s0 & n & v & status & Hs0 & Hn & Hp & Hv & Hb & Ht & Hall). split_and!; [done| |apply apply_policy|].
  - exists p, s0, n, v, status. split_and!; try done.
    + unfold broker_params in Ep. destruct (Config.License.fxserver_path _); [|done]. by injection Ep as <-.
    + intros m w st Hm Hw Hst. specialize (Hall m w st Hm Hw Hst). unfold decisive in Hall. by apply orb_false_iff in Hall as [? _].
  - unfold granted_slots, resolve. by destruct (fetch policy).
Qed.

(** ** The waits end *)

Lemma poll_ends id deadline polls : Exists (fun p => deadline <= p_now p) polls -> is_Some (poll_reply id deadline polls).
Proof.
  induction 1 as [p polls Hp|p polls _ IH]; cbn [poll_reply]; (destruct (p_cancelled p); [by eexists|]); (destruct (p_exit p); [by eexists|]);
    destruct (reply_of id (p_file p)); [by eexists| |by eexists|]; [rewrite (proj2 (Z.leb_le _ _) Hp); by eexists|].
  destruct (deadline <=? p_now p); [by eexists|done].
Qed.

Lemma loop_ends deadline attempts : Forall (fun a => Exists (fun p => r_started (a_request a) + REQUEST_TIMEOUT <= p_now p) (r_polls (a_request a))) attempts ->
  Exists (fun a => deadline <= a_error_now a /\ deadline <= a_now a) attempts -> forall last s, is_Some (query_loop deadline last attempts s).1.
Proof.
  induction attempts as [|a attempts IH]; intros Hall Hex last s; [by apply Exists_nil in Hex|]. apply Forall_cons in Hall as [Ha Hall]. cbn [query_loop].
  destruct (a_cancelled a); [by eexists|]. assert (Hr : exists r s', request (a_request a) s = (Some r, s')).
  { unfold request. destruct (r_written _); [by do 2 eexists|]. destruct (poll_ends (u64 (seq s + 1)) _ _ Ha) as [r ->]. by do 2 eexists. }
  destruct Hr as (r & s' & ->). apply Exists_cons in Hex. destruct (r ≫= parse_status) as [e|st].
  - destruct (Z.leb_spec deadline (a_error_now a)); [by eexists|]. destruct (Z.leb_spec deadline (a_now a)); [by eexists|].
    destruct (a_pause_cancelled a); [by eexists|]. apply IH; [done|]. destruct Hex as [[? _]|]; [lia|done].
  - destruct (_ || _); [by eexists|]. destruct (Z.leb_spec deadline (a_now a)); [by eexists|].
    destruct (a_pause_cancelled a); [by eexists|]. apply IH; [done|]. destruct Hex as [[_ ?]|]; [lia|done].
Qed.

(** the query ends. When every request is polled to its deadline and some turn
    ends at the budget's, the query has an answer. *)
Theorem query_ends started budget attempts s :
  Forall (fun a => Exists (fun p => r_started (a_request a) + REQUEST_TIMEOUT <= p_now p) (r_polls (a_request a))) attempts ->
  Exists (fun a => started + budget <= a_error_now a /\ started + budget <= a_now a) attempts ->
  is_Some (query started budget attempts s).1.
Proof. intros. by apply loop_ends. Qed.
End json.

(** ** Examples *)

Example v6_texts : display_ip (Config.V6 1) = as_bytes "::1" /\ display_ip (Config.V6 0) = as_bytes "::" /\
  display_ip (Config.V6 0x20010db8000000000000000000000005) = as_bytes "2001:db8::5" /\
  display_ip (Config.V6 0xffffcb00710a) = as_bytes "::ffff:203.0.113.10" /\ display_ip (Config.V4 0xcb00710a) = as_bytes "203.0.113.10".
Proof. vm_compute. done. Qed.

(** Some JSON: the texts are the two the broker and the service answer. *)
Inductive Tree := TBool (b : bool) | TNum (n : Z) | TStr (s : Text) | TArr (l : list Tree) | TObj (l : list (Text * Tree)).

Definition verdict : Tree := TObj [(as_bytes "id", TNum 1); (as_bytes "valid", TBool true); (as_bytes "token", TStr (as_bytes "cfx-token"));
  (as_bytes "entitlements", TObj [(as_bytes "max_slots", TNum 8)])].

Definition tree_json : Json := {|
  value := Tree; null := TArr []; of_bool := TBool; of_u64 := TNum; of_string := TStr; of_array := TArr;
  elem := fun v i => match v with TArr l => l !! i | _ => None end;
  field := fun v k => match v with TObj l => snd <$> List.find (fun e => bool_decide (e.1 = k)) l | _ => None end;
  as_u64 := fun v => match v with TNum n => Some n | _ => None end; as_f64 := fun _ => None;
  as_bool := fun v => match v with TBool b => Some b | _ => None end; as_str := fun v => match v with TStr t => Some t | _ => None end;
  as_array := fun v => match v with TArr l => Some l | _ => None end; to_string := fun _ => [];
  from_str := fun t => if bool_decide (t = as_bytes "verdict") then Some verdict
    else if bool_decide (t = as_bytes "policies") then Some (TArr [TStr (as_bytes "onesync")]) else None;
  rmp_to_vec := fun _ => None; rmp_from_slice := fun _ => None |}.
#[local] Existing Instance tree_json.

Definition ready : Launch := {| l_port := inr 40000; l_shim := inr tt; l_config := inr tt; l_spawn := inr tt; l_started := 0;
  l_polls := [{| rp_cancelled := false; rp_ready := true; rp_exit := None; rp_now := 10 |}] |}.
Definition look (file : option (list Z)) (now : Z) : Poll :=
  {| p_cancelled := false; p_exit := None; p_file := file; p_removal := None; p_now := now |}.
(** The second file is an answer to another request, or half written. *)
Definition answering : Broker := {| b_launch := ready; b_asked := 10; b_panics := false; b_attempts := [
  {| a_cancelled := false; a_error_now := 60; a_now := 60; a_pause_cancelled := false;
     a_request := {| r_written := None; r_started := 10; r_polls := [look None 20; look (Some (as_bytes "verd")) 30; look (Some (as_bytes "verdict")) 40] |} |}] |}.

Definition verified (name : Text) (slots : Z) : Config.BastonConfig :=
  Config.minimal
    <| Config.license := {| Config.License.mode := Config.License.Verified; Config.License.sv_license_key := as_bytes "cfxk_0123456789abcdefghij";
         Config.License.fxserver_path := Some (as_bytes "FXServer.exe"); Config.License.sidecar_port := 30130;
         Config.License.public_listing := true; Config.License.listing_ip_override := Some (Config.V4 0xcb00710a) |} |>
    <| Config.server := (Config.server Config.minimal) <| Config.Server.name := name |> <| Config.Server.bind_address := Config.V4 0xcb00710a |> <| Config.Server.max_players := slots |> |>.

Definition booted (policy : HttpReply) (c : Config.BastonConfig) : option (option (Text * PolicySource) * Z) :=
  match bootstrap answering (inr tt) policy c with
  | Some (inr rt, c') => Some ((fun rt => (runtime_token rt, policy_source rt)) <$> rt, Config.Server.max_players (Config.server c'))
  | _ => None
  end.

(** The policies cap the slots, and so does their absence; the limit of 8 the
    component reports with its verdict does not. *)
Example reported_slots_ignored :
  booted (Replied 200 [Some (as_bytes "poli"); Some (as_bytes "cies")]) (verified (as_bytes "Baston") 100) = Some (Some (as_bytes "cfx-token", Cfx), 64) /\
  booted NoReply (verified (as_bytes "Baston") 100) = Some (Some (as_bytes "cfx-token", ConservativeFallback), 48) /\
  booted (Replied 302 []) (verified (as_bytes "Baston") 32) = Some (Some (as_bytes "cfx-token", ConservativeFallback), 32).
Proof. vm_compute. done. Qed.

(** A host name with a quote passes the validation of the configuration and the
    private start, and fails the public one, which leaves its shim behind. *)
Definition quoting : Config.BastonConfig := verified (QUOTE :: as_bytes "Best" ++ [QUOTE]) 32.
Example quoted_name_fails_late : Config.validate (fun _ => true) quoting = inr tt /\
  booted NoReply quoting = Some (Some (as_bytes "cfx-token", ConservativeFallback), 32) /\
  match public_listing quoting with
  | inr l => match broker_params quoting l with inr p => start_sidecar p ready | inl _ => None end
  | inl _ => None
  end = Some (inl (InvalidBrokerConfig (as_bytes "hostname")), true).
Proof. vm_compute. done. Qed.
