(* ===== verification/Downloads.v ===== *)
(** * What a client downloads (src/crates/baston-gateway/src/http/
      {files,packfile_cache,stream_cache,builtin,configuration}.rs)

    [getConfiguration] tells a client the resources that run, with the hash of
    each one's archive and of its streaming assets; the file route serves them,
    archives from a cache, assets and declared files from the disk in chunks. The
    disk is what it shows at the time of a request; SHA-1 is a function. Which
    regular files lie under a directory, at any depth and sorted, is what the
    walk of stream_cache.rs finds, and input like the rest of the disk. *)

From S2P Require Import Prelude Decimal Utf8 Udp Events.
From S2P Require Import ScriptHost.
From S2P Require Players DebugFeed Config Connection Kvp ResourceManager Packfile.
#[local] Open Scope Z_scope.

Definition DEFAULT_RESOURCE_SET : Name := as_bytes "resource.rpf".

(** ** files.rs: paths and ranges *)

(** [Path::extension]: none for a name that only starts with a dot. *)
Definition extension (path : Name) : option Name :=
  match last (ResourceManager.components path) with
  | None => None
  | Some f =>
      if bool_decide (f = ResourceManager.DOTDOT) then None
      else match find_byte 46 (rev f) with
      | Some i => if (S i =? length f)%nat then None else Some (rev (take i (rev f)))
      | None => None
      end
  end.

Definition content_type_for (path : Name) : string :=
  match extension path with
  | Some e =>
      let has s := bool_decide (e = as_bytes s) in
      if has "js"%string then "application/javascript" else if has "html"%string then "text/html" else if has "css"%string then "text/css"
      else if has "json"%string then "application/json" else if has "png"%string then "image/png"
      else if has "jpg"%string || has "jpeg"%string then "image/jpeg" else "application/octet-stream"
  | None => "application/octet-stream"
  end.

(** Components are all normal; only a leading dot is one of its own. *)
Definition sanitize (rel : Name) : option Name :=
  if bool_decide (rel = []) || ResourceManager.is_absolute rel
     || bool_decide (head (ResourceManager.pieces [] rel) = Some ResourceManager.DOT)
     || bool_decide (ResourceManager.DOTDOT ∈ ResourceManager.components rel)
  then None else Some rel.

Record ByteRange := { start : Z; end_inclusive : Z }.
Definition range_len (r : ByteRange) : Z := end_inclusive r - start r + 1.

(** From a first to a last byte, of a file of a size that is not 0. *)
Definition closed_range (size first final : Z) : option ByteRange :=
  if (final <? first) || (size <=? first) then None else Some {| start := first; end_inclusive := Z.min final (size - 1) |}.
Definition open_range (size first : Z) : option ByteRange :=
  if size <=? first then None else Some {| start := first; end_inclusive := size - 1 |}.
Definition suffix_range (size suffix : Z) : option ByteRange :=
  if suffix =? 0 then None else Some {| start := size - Z.min suffix size; end_inclusive := size - 1 |}.

Definition parse_range (value : Name) (size : Z) : option ByteRange :=
  match Decimal.strip_prefix (as_bytes "bytes=") value with
  | None => None
  | Some spec =>
      if bool_decide (44 ∈ spec) then None
      else match Kvp.split_once 45 spec with
      | None => None
      | Some (a, b) =>
          if size =? 0 then None
          else match a, b with
          | [], [] => None
          | [], _ => parse_u64 b ≫= suffix_range size
          | _, [] => parse_u64 a ≫= open_range size
          | _, _ => parse_u64 a ≫= fun first => parse_u64 b ≫= closed_range size first
          end
      end
  end.

(** The headers a client sends: a range header may not be text. *)
Record Headers := { range : option (option Name); cfx_token : option Name; host : option Name }.

(** [None]: not satisfiable. *)
Definition requested_range (h : Headers) (size : Z) : option (option ByteRange) :=
  match range h with
  | None => Some None
  | Some value => text ← value; Some <$> parse_range text size
  end.

(** ** The disk *)

Inductive Canonical := Resolved (path : Name) | Unresolved.

Record Fs := {
  f_meta : Name -> option (Z * Z * bool);   (* time of change, size, a regular file *)
  f_read : Name -> option (list Z);
  f_canonical : Name -> Canonical;
  f_walk : Name -> list Name
}.

(** ** files.rs: responses *)

Inductive BodyEnd := Complete | Broken | Reading.

(** [r_range]: what [Content-Range] says, with the size. *)
Record Response := {
  r_status : Z; r_type : option string; r_length : option Z; r_range : option (option ByteRange * Z);
  r_body : list (list Z); r_end : BodyEnd
}.

Definition status_only (status : Z) : Response :=
  {| r_status := status; r_type := None; r_length := None; r_range := None; r_body := []; r_end := Complete |}.
Definition range_not_satisfiable (size : Z) : Response :=
  {| r_status := 416; r_type := None; r_length := None; r_range := Some (None, size); r_body := []; r_end := Complete |}.
Definition response_headers (status : Z) (content_type : string) (size : Z) (r : option ByteRange) (body : list (list Z) * BodyEnd) : Response :=
  {| r_status := status; r_type := Some content_type; r_length := Some match r with Some r => range_len r | None => size end;
     r_range := (fun r => (Some r, size)) <$> r; r_body := body.1; r_end := body.2 |}.

Inductive Method := GET | HEAD.
#[export] Instance Method_eq_dec : EqDecision Method.
Proof. solve_decision. Defined.

Inductive ReadResult := ReadUpTo (n : nat) | ReadFailed | ReadTimedOut.
Inductive OpenResult := Opened | OpenFailed | OpenTimedOut.

(** What happens to one request: whether a permit came in time, how opening and
    seeking went, and what each read returned. *)
Record Io := { permit : bool; opened : OpenResult; seeked : OpenResult; reads : list ReadResult }.

(** The chunks of a file from [pos] on. *)
Fixpoint disk_body (content : list Z) (pos : nat) (remaining chunk_size : Z) (reads : list ReadResult) : list (list Z) * BodyEnd :=
  if remaining =? 0 then ([], Complete)
  else match reads with
  | [] => ([], Reading)
  | ReadFailed :: _ | ReadTimedOut :: _ => ([], Broken)
  | ReadUpTo n :: reads =>
      let bytes := take (n `min` Z.to_nat (Z.min remaining chunk_size)) (drop pos content) in
      if bool_decide (bytes = []) then ([], Broken)
      else let '(chunks, e) := disk_body content (pos + length bytes) (remaining - Z.of_nat (length bytes)) chunk_size reads in
           (bytes :: chunks, e)
  end.

Definition serve_memory (io : Io) (method : Method) (h : Headers) (bytes : list Z) : Response :=
  let size := Z.of_nat (length bytes) in
  match requested_range h size with
  | None => range_not_satisfiable size
  | Some r =>
      let status := if is_some r then 206 else 200 in
      if decide (method = HEAD) then response_headers status "application/octet-stream" size r ([], Complete)
      else if negb (permit io) then status_only 503
      else
        let selected := match r with Some r => take (Z.to_nat (range_len r)) (drop (Z.to_nat (start r)) bytes) | None => bytes end in
        response_headers status "application/octet-stream" size r ([selected], Complete)
  end.

(** [Path::starts_with] of two canonical paths. *)
Definition path_below (path root : Name) : bool :=
  bool_decide (ResourceManager.components root `prefix_of` ResourceManager.components path).

Definition serve_disk (fs : Fs) (chunk_size : Z) (io : Io) (method : Method) (h : Headers) (path allowed_root : Name) : Response :=
  match f_canonical fs path, f_canonical fs allowed_root with
  | Unresolved, _ => status_only 404
  | Resolved _, Unresolved => status_only 500
  | Resolved canonical, Resolved root =>
      if negb (path_below canonical root) then status_only 404
      else match f_meta fs canonical with
      | Some (_, size, true) =>
          match requested_range h size with
          | None => range_not_satisfiable size
          | Some r =>
              let status := if is_some r then 206 else 200 in
              let content_type := content_type_for canonical in
              if decide (method = HEAD) then response_headers status content_type size r ([], Complete)
              else if negb (permit io) then status_only 503
              else
                let start := match r with Some r => start r | None => 0 end in
                match opened io, (if start =? 0 then Opened else seeked io), f_read fs canonical with
                | OpenTimedOut, _, _ => status_only 408
                | OpenFailed, _, _ | _, _, None => status_only 500
                | Opened, OpenTimedOut, _ => status_only 408
                | Opened, OpenFailed, _ => status_only 500
                | Opened, Opened, Some content =>
                    let remaining := match r with Some r => range_len r | None => size end in
                    response_headers status content_type size r (disk_body content (Z.to_nat start) remaining chunk_size (reads io))
                end
          end
      | _ => status_only 404
      end
  end.

(** ** packfile_cache.rs *)

Class Digest := sha1_hex : list Z -> Name.

Abbreviation Fingerprint := (list (Name * Z * Z)).

Record CachedPackfile := { p_bytes : list Z; p_sha1 : Name }.

(** [Vec::dedup]: of equal neighbours the first stays. *)
Fixpoint dedup (l : list Name) : list Name :=
  match l with
  | a :: (b :: _) as rest => if bool_decide (a = b) then dedup rest else a :: dedup rest
  | _ => l
  end.

Definition client_file_list (m : ResourceManager.ResourceManifest) : list Name :=
  dedup (sort_by bytes_leb (ResourceManager.m_client_scripts m ++ ResourceManager.m_files m)).

Definition stamp (fs : Fs) (path : Name) : Name * Z * Z :=
  match f_meta fs path with Some (mtime, len, _) => (path, mtime, len) | None => (path, 0, 0) end.

Definition fingerprint (fs : Fs) (root : Name) (files : list Name) : Fingerprint :=
  (fun rel => stamp fs (ResourceManager.push root rel)) <$> files.

(** ** stream_cache.rs *)

Definition RSC7_MAGIC : Z := 0x37435352.
Definition RSC5_MAGIC : Z := 0x05435352.
Definition RSC8_MAGIC : Z := 0x38435352.
Definition STREAM_RAW_SUFFIX : Name := as_bytes ".stream_raw".

Record StreamFileEntry := {
  hash : Name; rsc_flags : Z; rsc_version : Z; size : Z; rsc_pages_virtual : option Z; rsc_pages_physical : option Z; encrypted : option bool
}.
Record StreamAsset := { entry : StreamFileEntry; on_disk : Name }.
Abbreviation CachedStreamSet := (gmap Name StreamAsset).

Definition parse_rsc_header (head : list Z) : option (Z * Z * Z) :=
  if (length head <? 16)%nat then None
  else
    let word i := from_le_bytes (take 4 (drop i head)) in
    let magic := word O in
    if (magic =? RSC7_MAGIC) || (magic =? RSC8_MAGIC) then Some (word 4%nat, word 8%nat, word 12%nat)
    else if magic =? RSC5_MAGIC then Some (word 4%nat, word 8%nat, word 4%nat) else None.

Definition file_name (path : Name) : option Name :=
  match last (ResourceManager.components path) with
  | Some f => if bool_decide (f = ResourceManager.DOTDOT) then None else from_utf8 f
  | None => None
  end.

Section downloads.
Context `{Digest} `{Isolates}.

Definition scan_file (fs : Fs) (path : Name) : option (Name * StreamAsset) :=
  basename ← file_name path;
  if contains_slice STREAM_RAW_SUFFIX basename then None
  else
    '(_, len, _) ← f_meta fs path;
    if 2 ^ 32 <=? len then None
    else
      let companion := path ++ STREAM_RAW_SUFFIX in
      let header_path := if is_some (f_meta fs companion) then companion else path in
      let header := f_read fs header_path ≫= fun content => parse_rsc_header (take 16 content) in
      content ← f_read fs path;
      let h := sha1_hex content in
      Some (basename, {|
        entry := match header with
          | Some (version, virt, phys) =>
              {| hash := h; rsc_flags := len; rsc_version := version; size := len; rsc_pages_virtual := Some virt;
                 rsc_pages_physical := Some phys; encrypted := Some false |}
          | None =>
              {| hash := h; rsc_flags := len; rsc_version := 0; size := len; rsc_pages_virtual := None;
                 rsc_pages_physical := None; encrypted := None |}
          end;
        on_disk := path |}).

(** ** The caches *)

Record Caches := { packfiles : gmap Name (Fingerprint * CachedPackfile); streams : gmap Name (Fingerprint * CachedStreamSet) }.
#[export] Instance Caches_rebuild : Rebuild Caches := fun c => Build_Caches (packfiles c) (streams c).
Definition caches_new : Caches := {| packfiles := ∅; streams := ∅ |}.

Definition pack (inputs : list Packfile.PackfileInput) : CachedPackfile :=
  let bytes := Packfile.build_rpf inputs in {| p_bytes := bytes; p_sha1 := sha1_hex bytes |}.

Definition FXMANIFEST : Name := as_bytes "fxmanifest.lua".
Definition manifest_input (m : ResourceManager.ResourceManifest) : Packfile.PackfileInput :=
  {| Packfile.in_path := FXMANIFEST; Packfile.in_data := Packfile.generate_fxmanifest m |}.

(** A file that cannot be read is left out. *)
Definition pack_inputs (fs : Fs) (root : Name) (m : ResourceManager.ResourceManifest) : list Packfile.PackfileInput :=
  manifest_input m :: omap (fun rel =>
    (fun data => {| Packfile.in_path := rel; Packfile.in_data := data |}) <$> f_read fs (ResourceManager.push root rel)) (client_file_list m).

Definition packfile_get (fs : Fs) (rm : ResourceManager.ResourceManager) (resource : Name) (manifest_only_fallback : bool) (c : Caches)
    : option CachedPackfile * Caches :=
  match ResourceManager.started_resource rm resource with
  | None => (None, c)
  | Some (root, m) =>
      let files := client_file_list m in
      if bool_decide (files = []) && negb manifest_only_fallback then (None, c)
      else
        let fp := fingerprint fs root files in
        let fresh := pack (pack_inputs fs root m) in
        let rebuilt := (Some fresh, c <| packfiles := <[resource := (fp, fresh)]> (packfiles c) |>) in
        match packfiles c !! resource with
        | Some (fp', cached) => if bool_decide (fp' = fp) then (Some cached, c) else rebuilt
        | None => rebuilt
        end
  end.

Definition STREAM : Name := as_bytes "stream".

(** The later of two paths with one name wins. *)
Definition scan_all (fs : Fs) (files : list Name) : CachedStreamSet :=
  foldl (fun assets path => match scan_file fs path with Some (basename, asset) => <[basename := asset]> assets | None => assets end) ∅ files.

Definition stream_get (fs : Fs) (rm : ResourceManager.ResourceManager) (resource : Name) (c : Caches) : option CachedStreamSet * Caches :=
  match ResourceManager.started_resource rm resource with
  | None => (None, c)
  | Some (root, _) =>
      let files := f_walk fs (ResourceManager.push root STREAM) in
      let fp := stamp fs <$> files in
      let fresh := scan_all fs files in
      let rescanned := (Some fresh, c <| streams := <[resource := (fp, fresh)]> (streams c) |>) in
      match streams c !! resource with
      | Some (fp', cached) => if bool_decide (fp' = fp) then (Some cached, c) else rescanned
      | None => rescanned
      end
  end.

Definition stream_resolve (fs : Fs) (rm : ResourceManager.ResourceManager) (resource basename : Name) (c : Caches) : option Name * Caches :=
  let '(set, c) := stream_get fs rm resource c in (set ≫= fun set => on_disk <$> set !! basename, c).

(** ** builtin.rs *)

Record Builtin := { b_name : Name; b_client_scripts : list Name; b_files : list (Name * list Z) }.

Definition builtin_manifest (b : Builtin) : ResourceManager.ResourceManifest :=
  {| ResourceManager.m_name := b_name b; ResourceManager.m_version := Some (as_bytes "0.1.0-alpha"); ResourceManager.m_dependencies := [];
     ResourceManager.m_server_scripts := []; ResourceManager.m_client_scripts := b_client_scripts b; ResourceManager.m_files := [] |}.

Definition builtin_pack (b : Builtin) : CachedPackfile :=
  pack (manifest_input (builtin_manifest b)
    :: ((fun f => {| Packfile.in_path := f.1; Packfile.in_data := f.2 |}) <$> b_files b)).

Definition DISPLAYINFO : Name := as_bytes "baston_displayinfo".

(** [client_js]: the script the binary embeds. *)
Definition displayinfo (client_js : list Z) : Builtin :=
  {| b_name := DISPLAYINFO; b_client_scripts := [as_bytes "client.js"]; b_files := [(as_bytes "client.js", client_js)] |}.

Definition builtins_from_config (client_js : list Z) (c : Config.BastonConfig) : list Builtin :=
  if DebugFeed.is_enabled (DebugFeed.display_info (Config.debug c)) then [displayinfo client_js] else [].

Definition builtin_packfile (builtins : list Builtin) (resource : Name) : option CachedPackfile :=
  builtin_pack <$> List.find (fun b => bool_decide (b_name b = resource)) builtins.

(** ** configuration.rs *)

Record ResourceConfiguration := { c_name : Name; c_pack : Name; c_streams : gmap Name StreamFileEntry }.

(** [str::split(';')]: at least one piece. *)
Fixpoint split_semicolons (part bs : Name) : list Name :=
  match bs with
  | [] => [part]
  | b :: rest => if b =? 59 then part :: split_semicolons [] rest else split_semicolons (part ++ [b]) rest
  end.

Definition filtered_out (filter : list Name) (name : Name) : bool := negb (bool_decide (filter = [])) && negb (bool_decide (name ∈ filter)).

Definition add_resource (fs : Fs) (rm : ResourceManager.ResourceManager) (filter : list Name)
    (acc : list ResourceConfiguration * Caches) (name : Name) : list ResourceConfiguration * Caches :=
  let '(resources, c) := acc in
  if filtered_out filter name then acc
  else
    let '(set, c) := stream_get fs rm name c in
    let stream_files := entry <$> default ∅ set in
    let '(p, c) := packfile_get fs rm name (negb (bool_decide (stream_files = ∅))) c in
    match p with
    | None => (resources, c)
    | Some p => (resources ++ [{| c_name := name; c_pack := p_sha1 p; c_streams := stream_files |}], c)
    end.

Definition add_builtin (filter : list Name) (resources : list ResourceConfiguration) (b : Builtin) : list ResourceConfiguration :=
  if filtered_out filter (b_name b) then resources
  else if existsb (fun r => bool_decide (c_name r = b_name b)) resources then resources
  else resources ++ [{| c_name := b_name b; c_pack := p_sha1 (builtin_pack b); c_streams := ∅ |}].

Definition configure (fs : Fs) (rm : ResourceManager.ResourceManager) (builtins : list Builtin) (filter : list Name) (c : Caches)
    : list ResourceConfiguration * Caches :=
  let '(resources, c) := foldl (add_resource fs rm filter) ([], c) (ResourceManager.started_names rm) in
  (foldl (add_builtin filter) resources builtins, c).

Context `{FormCodec}.

Record GetConfigurationResponse := { file_server : Name; c_resources : list ResourceConfiguration }.

Definition file_server_of (h : Headers) : Name :=
  match host h with Some host => as_bytes "http://" ++ host ++ as_bytes "/files" | None => as_bytes "https://%s/files" end.

(** [None]: not a valid client. The builtins are named once each. *)
Definition get_configuration (fs : Fs) (rm : ResourceManager.ResourceManager) (builtins : list Builtin) (players : Players.PlayerDirectory)
    (auth_bypass : bool) (h : Headers) (body : Name) (c : Caches) : option GetConfigurationResponse * Caches :=
  if negb (is_some (Players.source_for_token players (default [] (cfx_token h)))) && negb auth_bypass then (None, c)
  else
    let filter := match Connection.extract_field body "resources" with Some f => split_semicolons [] f | None => [] end in
    let '(resources, c) := configure fs rm builtins filter c in
    (Some {| file_server := file_server_of h; c_resources := resources |}, c).

(** ** files.rs: the route *)

(** [is_client_file] and what it is on the disk. *)
Definition declared (m : ResourceManager.ResourceManifest) (path : Name) : bool :=
  bool_decide (Packfile.forward_slashes path ∈ ResourceManager.m_client_scripts m ++ ResourceManager.m_files m).

Definition disk_path (fs : Fs) (rm : ResourceManager.ResourceManager) (root : Name) (m : ResourceManager.ResourceManifest)
    (resource path : Name) (c : Caches) : option Name * Caches :=
  if declared m path then (Some (ResourceManager.push root path), c)
  else if (length (ResourceManager.components path) =? 1)%nat then stream_resolve fs rm resource path c
  else (None, c).

Definition serve_resource_file (fs : Fs) (rm : ResourceManager.ResourceManager) (builtins : list Builtin) (chunk_size : Z) (io : Io)
    (method : Method) (h : Headers) (resource path : Name) (c : Caches) : Response * Caches :=
  match sanitize resource, sanitize path with
  | Some _, Some _ =>
      if negb (length (ResourceManager.components resource) =? 1)%nat then (status_only 400, c)
      else match builtin_packfile builtins resource with
      | Some p => (if bool_decide (path = DEFAULT_RESOURCE_SET) then serve_memory io method h (p_bytes p) else status_only 404, c)
      | None =>
          if bool_decide (path = DEFAULT_RESOURCE_SET) then
            let '(p, c) := packfile_get fs rm resource true c in
            (match p with Some p => serve_memory io method h (p_bytes p) | None => status_only 404 end, c)
          else match ResourceManager.started_resource rm resource with
          | None => (status_only 404, c)
          | Some (root, m) =>
              let '(file, c) := disk_path fs rm root m resource path c in
              (match file with Some file => serve_disk fs chunk_size io method h file root | None => status_only 404 end, c)
          end
      end
  | _, _ => (status_only 400, c)
  end.
End downloads.

(** ** Ranges and bodies *)

Lemma parse_digits_range w bs : forall acc n, 0 <= acc < 2 ^ w -> parse_digits w acc bs = Some n -> 0 <= n < 2 ^ w.
Proof.
  induction bs as [|b bs IH]; intros acc n Ha; cbn [parse_digits]; [by intros [= <-]|].
  destruct (Z.leb_spec 48 b); [|done]. destruct (b <=? 57); [|done]. cbn [andb]. destruct (Z.ltb_spec (acc * 10 + (b - 48)) (2 ^ w)); [|done].
  apply IH. lia.
Qed.

Lemma parse_u64_range bs n : parse_u64 bs = Some n -> 0 <= n < 2 ^ 64.
Proof.
  unfold parse_u64, parse_unsigned. intros Hp. repeat case_match; try discriminate; by eapply parse_digits_range, Hp.
Qed.

Definition in_file (size : Z) (r : ByteRange) : Prop := 0 <= start r <= end_inclusive r /\ end_inclusive r < size.

Lemma parse_range_bounds value size r : 0 <= size -> parse_range value size = Some r -> in_file size r.
Proof.
  intros Hs. unfold parse_range. destruct (Decimal.strip_prefix _ _) as [spec|]; [|done]. destruct (bool_decide _); [done|].
  destruct (Kvp.split_once 45 spec) as [[a b]|]; [|done]. destruct (Z.eqb_spec size 0); [done|]. unfold in_file.
  assert (Hsuffix : forall bs, parse_u64 bs ≫= suffix_range size = Some r -> in_file size r).
  { intros bs. destruct (parse_u64 bs) as [n'|] eqn:En; [|done]. apply parse_u64_range in En. cbn. unfold suffix_range.
    destruct (Z.eqb_spec n' 0); [done|]. intros [= <-]. unfold in_file. cbn. lia. }
  assert (Hopen : forall bs, parse_u64 bs ≫= open_range size = Some r -> in_file size r).
  { intros bs. destruct (parse_u64 bs) as [n'|] eqn:En; [|done]. apply parse_u64_range in En. cbn. unfold open_range.
    destruct (Z.leb_spec size n'); [done|]. intros [= <-]. unfold in_file. cbn. lia. }
  assert (Hclosed : forall bs bs', (parse_u64 bs ≫= fun first => parse_u64 bs' ≫= closed_range size first) = Some r -> in_file size r).
  { intros bs bs'. destruct (parse_u64 bs) as [n1|] eqn:E1; [|done]. cbn. destruct (parse_u64 bs') as [n2|] eqn:E2; [|done].
    apply parse_u64_range in E1, E2. cbn. unfold closed_range. destruct (Z.ltb_spec n2 n1); [done|]. destruct (Z.leb_spec size n1); [done|].
    intros [= <-]. unfold in_file. cbn. lia. }
  destruct a, b; [done|apply Hsuffix|apply Hopen|apply Hclosed].
Qed.

Lemma requested_bounds h size r : 0 <= size -> requested_range h size = Some (Some r) -> in_file size r.
Proof.
  intros Hs. unfold requested_range. destruct (range h) as [[text|]|]; cbn; [|done|done].
  destruct (parse_range text size) eqn:E; [|done]. intros [= <-]. by eapply parse_range_bounds.
Qed.

(** The bytes of a file a range stands for. *)
Definition window (r : option ByteRange) (content : list Z) : list Z :=
  match r with Some r => take (Z.to_nat (range_len r)) (drop (Z.to_nat (start r)) content) | None => content end.

Lemma length_window r content : (forall r', r = Some r' -> in_file (Z.of_nat (length content)) r') ->
  Z.of_nat (length (window r content)) = match r with Some r => range_len r | None => Z.of_nat (length content) end.
Proof.
  destruct r as [r|]; [|done]. intros Hb. destruct (Hb r eq_refl) as [H1 H2]. cbn. unfold range_len. rewrite length_take, length_drop. lia.
Qed.

Lemma take_of_length {A} (l : list A) : forall k, take (length (take k l)) l = take k l.
Proof. induction l as [|x l IH]; intros [|k]; cbn; [done|done|done|]. f_equal. apply IH. Qed.

(** A body that completes is the file from its position on, in chunks that are
    not empty and not too long. *)
Lemma disk_body_exact content chunk_size reads : forall pos remaining chunks, 0 <= remaining ->
  disk_body content pos remaining chunk_size reads = (chunks, Complete) ->
  concat chunks = take (Z.to_nat remaining) (drop pos content) /\
  Forall (fun c => c <> [] /\ Z.of_nat (length c) <= Z.max 0 chunk_size) chunks.
Proof.
  induction reads as [|r reads IH]; intros pos remaining chunks Hr; cbn [disk_body].
  all: destruct (Z.eqb_spec remaining 0) as [->|Hne]; [intros [= <-]; by split|].
  { done. }
  destruct r as [n| |]; [|done|done]. set (bytes := take _ _). case_bool_decide as Hb; [done|].
  destruct (disk_body _ _ _ _ _) as [rest e] eqn:E. intros [= <- ->].
  assert (Hlen : (length bytes <= Z.to_nat (Z.min remaining chunk_size))%nat) by (unfold bytes; rewrite length_take; lia).
  assert (Hrem : 0 <= remaining - Z.of_nat (length bytes)) by lia. destruct (IH _ _ _ Hrem E) as [Hc Hall]. split; [|constructor; [split; [done|lia]|done]]. cbn. rewrite Hc.
  replace (Z.to_nat remaining) with (length bytes + (Z.to_nat remaining - length bytes))%nat by lia.
  rewrite <- take_take_drop, drop_drop. f_equal.
  - symmetry. apply take_of_length.
  - f_equal. lia.
Qed.

(** What every way of serving a file promises. *)
Definition exact_response (h : Headers) (content : list Z) (resp : Response) : Prop :=
  r_end resp = Complete -> r_status resp = 200 \/ r_status resp = 206 ->
  exists r, requested_range h (Z.of_nat (length content)) = Some r /\ r_status resp = (if is_some r then 206 else 200) /\
    (forall r', r = Some r' -> in_file (Z.of_nat (length content)) r') /\
    concat (r_body resp) = window r content /\ r_length resp = Some (Z.of_nat (length (window r content))) /\
    r_range resp = (fun r => (Some r, Z.of_nat (length content))) <$> r.

Lemma ranges_in_file h (content : list Z) r : requested_range h (Z.of_nat (length content)) = Some r -> forall r', r = Some r' -> in_file (Z.of_nat (length content)) r'.
Proof. intros Hr r' ->. eapply requested_bounds; [|done]. lia. Qed.

Lemma memory_exact io h content : exact_response h content (serve_memory io GET h content).
Proof.
  unfold exact_response, serve_memory. cbv zeta. destruct (requested_range h _) as [r|] eqn:Er; [|by intros _ [|]]. pose proof (ranges_in_file h content r Er) as Hb.
  rewrite decide_False by done. destruct (permit io); cbn [negb]; [|by intros _ [|]]. intros _ _. exists r.
  assert (Hw : concat [match r with Some r => take (Z.to_nat (range_len r)) (drop (Z.to_nat (start r)) content) | None => content end] = window r content)
    by (destruct r; apply app_nil_r).
  split_and!; [done|done|done|exact Hw|cbn; by rewrite length_window|done].
Qed.

Lemma disk_exact fs chunk_size io h path root canonical mtime content :
  f_canonical fs path = Resolved canonical -> f_meta fs canonical = Some (mtime, Z.of_nat (length content), true) -> f_read fs canonical = Some content ->
  exact_response h content (serve_disk fs chunk_size io GET h path root).
Proof.
  intros Hc Hm Hr. unfold exact_response, serve_disk. rewrite Hc. destruct (f_canonical fs root); [|by intros _ [|]]. destruct (negb (path_below _ _)); [by intros _ [|]|].
  rewrite Hm. destruct (requested_range h _) as [r|] eqn:Er; [|by intros _ [|]]. pose proof (ranges_in_file h content r Er) as Hb. cbv zeta.
  rewrite decide_False by done. destruct (permit io); cbn [negb]; [|by intros _ [|]]. rewrite Hr.
  destruct (opened io); [|by intros _ [|]|by intros _ [|]]. set (sk := if _ =? 0 then Opened else seeked io).
  destruct sk; [|by intros _ [|]|by intros _ [|]]. destruct (disk_body _ _ _ _ _) as [chunks e] eqn:E. cbn [r_end response_headers snd fst]. intros -> _. exists r.
  assert (Hlen : 0 <= match r with Some r => range_len r | None => Z.of_nat (length content) end) by (rewrite <- (length_window r) by done; lia).
  destruct (disk_body_exact _ _ _ _ _ _ Hlen E) as [Hbody _].
  split_and!; [done|done|done| |by rewrite length_window|done]. cbn [r_body response_headers fst]. rewrite Hbody. destruct r as [r|]; [done|]. cbn.
  rewrite drop_0, Nat2Z.id. apply firstn_all.
Qed.

(** downloads. A file or an archive that is served to its end holds exactly
    the bytes of the range that was asked for, or all of them: the announced
    length is the number of bytes, the range lies in the file, and none of this
    depends on how many bytes each read returns. *)
Theorem download_exact fs chunk_size io h path root canonical mtime content :
  f_canonical fs path = Resolved canonical -> f_meta fs canonical = Some (mtime, Z.of_nat (length content), true) -> f_read fs canonical = Some content ->
  exact_response h content (serve_disk fs chunk_size io GET h path root) /\ exact_response h content (serve_memory io GET h content).
Proof. intros. split; [by eapply disk_exact|apply memory_exact]. Qed.

(** ** What is reachable *)

Lemma sanitized rel rel' : sanitize rel = Some rel' -> rel' = rel /\ ResourceManager.is_absolute rel = false /\ ResourceManager.DOTDOT ∉ ResourceManager.components rel.
Proof.
  unfold sanitize. destruct (ResourceManager.is_absolute rel); [by rewrite orb_true_r|].
  destruct (bool_decide (ResourceManager.DOTDOT ∈ _)) eqn:E; [by rewrite orb_true_r|]. destruct (_ || _); [done|]. intros [= <-].
  by apply bool_decide_eq_false in E.
Qed.

Definition success (resp : Response) : Prop := r_status resp = 200 \/ r_status resp = 206.

(** A file that is served is regular and its real path is below the root's. *)
Lemma disk_confined fs chunk_size io method h path root : success (serve_disk fs chunk_size io method h path root) ->
  exists canonical croot mtime len, f_canonical fs path = Resolved canonical /\ f_canonical fs root = Resolved croot /\
    ResourceManager.components croot `prefix_of` ResourceManager.components canonical /\ f_meta fs canonical = Some (mtime, len, true).
Proof.
  unfold serve_disk, success. destruct (f_canonical fs path) as [canonical|]; [|by intros [|]]. destruct (f_canonical fs root) as [croot|]; [|by intros [|]].
  unfold path_below. case_bool_decide as Hb; cbn [negb]; [|by intros [|]]. destruct (f_meta fs canonical) as [[[mtime len] [|]]|] eqn:Em; [|by intros [|]|by intros [|]].
  intros _. by exists canonical, croot, mtime, len.
Qed.

Section caches.
Context `{Digest} `{Isolates}.
Implicit Types (fs : Fs) (rm : ResourceManager.ResourceManager) (c : Caches).

(** C30: what can be downloaded. Besides archives the route gives a file only of a
    resource that runs, only if the manifest declares it for clients or it is a
    streaming asset under its base name, only below the real path of the
    resource's directory, whatever links lie on the way; no name with a parent
    component gets that far. *)
Theorem download_confined fs rm builtins chunk_size io method h resource path c :
  success (serve_resource_file fs rm builtins chunk_size io method h resource path c).1 ->
  (ResourceManager.DOTDOT ∉ ResourceManager.components path) /\
  (path = DEFAULT_RESOURCE_SET \/
   builtin_packfile builtins resource = None /\
   exists root m file canonical croot mtime len, ResourceManager.started_resource rm resource = Some (root, m) /\
     f_canonical fs file = Resolved canonical /\ f_canonical fs root = Resolved croot /\
     ResourceManager.components croot `prefix_of` ResourceManager.components canonical /\ f_meta fs canonical = Some (mtime, len, true) /\
     (declared m path = true /\ file = ResourceManager.push root path \/
      exists set asset, (stream_get fs rm resource c).1 = Some set /\ set !! path = Some asset /\ on_disk asset = file)).
Proof.
  unfold serve_resource_file. destruct (sanitize resource); [|by intros [|]]. destruct (sanitize path) as [p|] eqn:Ep; [|by intros [|]].
  destruct (sanitized _ _ Ep) as (_ & _ & Hd). destruct (negb _); [by intros [|]|]. intros Hs. split; [done|]. revert Hs.
  destruct (builtin_packfile builtins resource); [case_bool_decide; [by left|by intros [|]]|]. case_bool_decide as Hp; [by left|].
  destruct (ResourceManager.started_resource rm resource) as [[root m]|] eqn:Er; [|by intros [|]].
  destruct (disk_path fs rm root m resource path c) as [file c'] eqn:Ed. destruct file as [file|]; cbn [fst]; [|by intros [|]]. intros Hs. right.
  split; [done|]. destruct (disk_confined _ _ _ _ _ _ _ Hs) as (canonical & croot & mtime & len & Hf). exists root, m, file, canonical, croot, mtime, len.
  destruct Hf as (H1' & H2' & H3' & H4'). split_and!; try done. unfold disk_path in Ed. destruct (declared m path); [left; split; [done|congruence]|].
  destruct (_ =? 1)%nat; [|done]. unfold stream_resolve in Ed. destruct (stream_get fs rm resource c) as [[set|] c''] eqn:Eg; [|done].
  injection Ed as Ed _. cbn in Ed. destruct (set !! path) as [asset|] eqn:Ea; [|done]. right. exists set, asset. cbn in Ed. injection Ed as <-. done.
Qed.

(** ** What is advertised *)

Definition packs_ok c : Prop := map_Forall (fun _ e => p_sha1 e.2 = sha1_hex (p_bytes e.2)) (packfiles c).

(** The cache has the archive of a running resource as it is on the disk. *)
Definition holds fs rm n p c : Prop := exists root m, ResourceManager.started_resource rm n = Some (root, m) /\
  packfiles c !! n = Some (fingerprint fs root (client_file_list m), p).
Definition holds_set fs rm n set c : Prop := exists root m, ResourceManager.started_resource rm n = Some (root, m) /\
  streams c !! n = Some (stamp fs <$> f_walk fs (ResourceManager.push root STREAM), set).

Lemma packfile_get_spec fs rm n b c : packs_ok c -> let '(p, c') := packfile_get fs rm n b c in
  packs_ok c' /\ streams c' = streams c /\ (forall q, p = Some q -> holds fs rm n q c') /\ (forall n' q, holds fs rm n' q c -> holds fs rm n' q c').
Proof.
  intros Hok. unfold packfile_get. destruct (ResourceManager.started_resource rm n) as [[root m]|] eqn:Er; [|by split_and!].
  destruct (_ && _); [by split_and!|]. cbv zeta. set (fp := fingerprint _ _ _). set (fresh := pack _). set (c1 := c <| packfiles := _ |>).
  assert (Hc1 : packfiles c1 = <[n := (fp, fresh)]> (packfiles c)) by done.
  assert (Hnew : packfiles c !! n = None \/ (exists fp' q, packfiles c !! n = Some (fp', q) /\ fp' <> fp) ->
    packs_ok c1 /\ streams c1 = streams c /\ (forall q, Some fresh = Some q -> holds fs rm n q c1) /\ (forall n' q, holds fs rm n' q c -> holds fs rm n' q c1)).
  { intros Hd. split_and!; [unfold packs_ok; rewrite Hc1; by apply map_Forall_insert_2|done| |].
    - intros q [= <-]. exists root, m. split; [done|]. rewrite Hc1. apply lookup_insert_eq.
    - intros n' q (root' & m' & Hr' & Hq). exists root', m'. split; [done|]. rewrite Hc1. destruct (decide (n' = n)) as [->|Hne]; [|by rewrite lookup_insert_ne].
      rewrite Er in Hr'. injection Hr' as <- <-. destruct Hd as [Hn|(fp' & q' & Hn & Hne)]; rewrite Hn in Hq; [done|]. injection Hq as -> _. by destruct Hne. }
  destruct (packfiles c !! n) as [[fp' q]|] eqn:En; [|by apply Hnew; left]. case_bool_decide as Hfp.
  - split_and!; [done|done| |done]. intros q' [= <-]. exists root, m. split; [done|]. by rewrite En, Hfp.
  - apply Hnew. right. by exists fp', q.
Qed.

Lemma stream_get_spec fs rm n c : let '(set, c') := stream_get fs rm n c in
  packfiles c' = packfiles c /\ (forall q, set = Some q -> holds_set fs rm n q c') /\ (forall n' q, holds_set fs rm n' q c -> holds_set fs rm n' q c').
Proof.
  unfold stream_get. destruct (ResourceManager.started_resource rm n) as [[root m]|] eqn:Er; [|by split_and!].
  cbv zeta. set (fp := stamp fs <$> _). set (fresh := scan_all _ _). set (c1 := c <| streams := _ |>).
  assert (Hc1 : streams c1 = <[n := (fp, fresh)]> (streams c)) by done.
  assert (Hnew : streams c !! n = None \/ (exists fp' q, streams c !! n = Some (fp', q) /\ fp' <> fp) ->
    packfiles c1 = packfiles c /\ (forall q, Some fresh = Some q -> holds_set fs rm n q c1) /\ (forall n' q, holds_set fs rm n' q c -> holds_set fs rm n' q c1)).
  { intros Hd. split_and!; [done| |].
    - intros q [= <-]. exists root, m. split; [done|]. rewrite Hc1. apply lookup_insert_eq.
    - intros n' q (root' & m' & Hr' & Hq). exists root', m'. split; [done|]. rewrite Hc1. destruct (decide (n' = n)) as [->|Hne]; [|by rewrite lookup_insert_ne].
      rewrite Er in Hr'. injection Hr' as <- <-. destruct Hd as [Hn|(fp' & q' & Hn & Hne)]; rewrite Hn in Hq; [done|]. injection Hq as -> _. by destruct Hne. }
  destruct (streams c !! n) as [[fp' q]|] eqn:En; [|by apply Hnew; left]. case_bool_decide as Hfp.
  - split_and!; [done| |done]. intros q' [= <-]. exists root, m. split; [done|]. by rewrite En, Hfp.
  - apply Hnew. right. by exists fp', q.
Qed.

(** What is held is what the next request gets. *)
Lemma holds_get fs rm n p c : holds fs rm n p c -> packfile_get fs rm n true c = (Some p, c).
Proof. intros (root & m & Hr & Hp). unfold packfile_get. rewrite Hr, andb_false_r. cbv zeta. rewrite Hp. by rewrite bool_decide_eq_true_2. Qed.

Lemma holds_set_get fs rm n set c : holds_set fs rm n set c -> stream_get fs rm n c = (Some set, c).
Proof. intros (root & m & Hr & Hp). unfold stream_get. rewrite Hr. cbv zeta. rewrite Hp. by rewrite bool_decide_eq_true_2. Qed.

(** An advertised resource of the disk. *)
Definition kept fs rm c (r : ResourceConfiguration) : Prop := c_name r ∈ ResourceManager.started_names rm /\
  exists p set, holds fs rm (c_name r) p c /\ p_sha1 p = c_pack r /\ holds_set fs rm (c_name r) set c /\ c_streams r = entry <$> set.

Lemma add_resource_kept fs rm filter acc name : name ∈ ResourceManager.started_names rm -> packs_ok acc.2 -> Forall (kept fs rm acc.2) acc.1 ->
  (exists root m, ResourceManager.started_resource rm name = Some (root, m)) ->
  let acc' := add_resource fs rm filter acc name in packs_ok acc'.2 /\ Forall (kept fs rm acc'.2) acc'.1.
Proof.
  destruct acc as [resources c]. cbn [fst snd]. intros Hn Hok Hall (root & m & Hr). unfold add_resource. destruct (filtered_out filter name); [done|].
  pose proof (stream_get_spec fs rm name c) as Hs. assert (Hset : exists set c1, stream_get fs rm name c = (Some set, c1)).
  { unfold stream_get. rewrite Hr. cbv zeta. repeat case_match; eauto. }
  destruct Hset as (set & c1 & Es). rewrite Es in Hs |- *. destruct Hs as (Hpk & Hh & Hm). assert (Hok1 : packs_ok c1) by (unfold packs_ok; by rewrite Hpk).
  pose proof (packfile_get_spec fs rm name (negb (bool_decide (entry <$> default ∅ (Some set) = ∅))) c1 Hok1) as Hg.
  destruct (packfile_get _ _ _ _ _) as [p c2]. destruct Hg as (Hok2 & Hst2 & Hp2 & Hm2).
  assert (Hall2 : Forall (kept fs rm c2) resources).
  { eapply Forall_impl; [exact Hall|]. intros r (Hrn & q & qs & Hq & Hsh & Hqs & He). split; [done|]. exists q, qs. split_and!; [|done| |done].
    - apply Hm2. destruct Hq as (root' & m' & ? & ?). exists root', m'. by rewrite Hpk.
    - apply Hm in Hqs. destruct Hqs as (root' & m' & ? & ?). exists root', m'. by rewrite Hst2. }
  destruct p as [p|]; [|done]. split; [done|]. apply Forall_app. split; [done|]. constructor; [|done]. split; [done|]. exists p, set. cbn. split_and!; [by apply Hp2|done| |done].
  destruct (Hh set eq_refl) as (root' & m' & ? & ?). exists root', m'. by rewrite Hst2.
Qed.

Lemma started_named rm name : name ∈ ResourceManager.started_names rm -> exists root m, ResourceManager.started_resource rm name = Some (root, m).
Proof.
  unfold ResourceManager.started_names. intros ([n s] & -> & Hin)%list_elem_of_fmap. cbn. apply list_elem_of_In, filter_In in Hin as [Hin Hs].
  apply bool_decide_eq_true in Hs. cbn in Hs. subst s. apply list_elem_of_In in Hin. unfold ResourceManager.status in Hin. rewrite (sort_by_perm _ _) in Hin.
  apply list_elem_of_fmap in Hin as ([n' e] & [= -> Hs] & Hin). apply elem_of_map_to_list in Hin. unfold ResourceManager.started_resource. rewrite Hin. cbn.
  rewrite decide_True by done. by do 2 eexists.
Qed.

Lemma add_builtins filter builtins : forall resources r, r ∈ foldl (add_builtin filter) resources builtins ->
  r ∈ resources \/ exists b, b ∈ builtins /\ c_name r = b_name b /\ c_pack r = p_sha1 (builtin_pack b) /\ c_streams r = ∅.
Proof.
  induction builtins as [|b builtins IH]; intros resources r Hin; [by left|]. cbn [foldl] in Hin. apply IH in Hin as [Hin|(b' & Hb & Hr)].
  - unfold add_builtin in Hin. destruct (filtered_out _ _); [by left|]. destruct (existsb _ _); [by left|].
    apply elem_of_app in Hin as [Hin|Hin%list_elem_of_singleton]; [by left|]. right. exists b. subst r. split_and!; [by left|done|done|done].
  - right. exists b'. split; [by right|done].
Qed.

Lemma configured_kept fs rm builtins filter c : packs_ok c -> let '(rcs, c') := configure fs rm builtins filter c in
  packs_ok c' /\ forall r, r ∈ rcs -> kept fs rm c' r \/ exists b, b ∈ builtins /\ c_name r = b_name b /\ c_pack r = p_sha1 (builtin_pack b) /\ c_streams r = ∅.
Proof.
  intros Hok. unfold configure. assert (Hfold : forall names acc, (forall n, n ∈ names -> n ∈ ResourceManager.started_names rm) -> packs_ok acc.2 ->
    Forall (kept fs rm acc.2) acc.1 -> let acc' := foldl (add_resource fs rm filter) acc names in packs_ok acc'.2 /\ Forall (kept fs rm acc'.2) acc'.1).
  { induction names as [|n names IH]; intros acc Hin Hok' Hall; [done|]. cbn [foldl].
    destruct (add_resource_kept fs rm filter acc n (Hin n ltac:(by left)) Hok' Hall (started_named rm n (Hin n ltac:(by left)))) as [Hok1 Hall1].
    apply IH; [|done|done]. intros n' Hn'. apply Hin. by right. }
  destruct (Hfold (ResourceManager.started_names rm) ([], c) ltac:(done) Hok ltac:(constructor)) as [Hok' Hall].
  destruct (foldl _ _ _) as [resources c']. split; [done|]. intros r [Hin|Hb]%add_builtins; [left|by right]. rewrite Forall_forall in Hall. by apply Hall.
Qed.

Lemma memory_whole io h bytes : permit io = true -> range h = None ->
  r_status (serve_memory io GET h bytes) = 200 /\ concat (r_body (serve_memory io GET h bytes)) = bytes.
Proof.
  intros Hp Hr. unfold serve_memory, requested_range. rewrite Hr. cbv zeta. rewrite decide_False by done. rewrite Hp. cbn. by rewrite app_nil_r.
Qed.

Lemma builtin_found builtins b : NoDup (b_name <$> builtins) -> b ∈ builtins -> builtin_packfile builtins (b_name b) = Some (builtin_pack b).
Proof.
  unfold builtin_packfile. induction builtins as [|b' builtins IH]; intros Hnd Hin; [by apply elem_of_nil in Hin|]. cbn. case_bool_decide as Hn.
  - apply elem_of_cons in Hin as [->|Hin]; [done|]. cbn in Hnd. apply NoDup_cons in Hnd as [Hnot _]. destruct Hnot. rewrite Hn. by apply list_elem_of_fmap_2.
  - apply elem_of_cons in Hin as [->|Hin]; [done|]. cbn in Hnd. apply NoDup_cons in Hnd as [_ Hnd]. by apply IH.
Qed.

(** C37: what is advertised is what is served. With the disk as it was when the
    configuration was sent, the archive of every resource in it downloads whole
    and has the advertised hash, and every streaming asset in it resolves to the
    file that was scanned for it; unless a resource of the disk has the name of a
    builtin. *)
Theorem advertised_is_served fs rm builtins filter c r rcs c' chunk_size io h :
  configure fs rm builtins filter c = (rcs, c') -> packs_ok c -> NoDup (b_name <$> builtins) -> r ∈ rcs ->
  is_Some (sanitize (c_name r)) -> length (ResourceManager.components (c_name r)) = 1%nat -> permit io = true -> range h = None ->
  builtin_packfile builtins (c_name r) = None \/ (c_name r ∉ ResourceManager.started_names rm) ->
  let resp := (serve_resource_file fs rm builtins chunk_size io GET h (c_name r) DEFAULT_RESOURCE_SET c').1 in
  r_status resp = 200 /\ sha1_hex (concat (r_body resp)) = c_pack r /\
  forall b e, c_streams r !! b = Some e -> exists asset, (stream_resolve fs rm (c_name r) b c').1 = Some (on_disk asset) /\ entry asset = e.
Proof.
  intros Hconf Hok Hnd Hin [x Hx] Hlen Hpermit Hrange Hshadow. pose proof (configured_kept fs rm builtins filter c Hok) as Hkept. rewrite Hconf in Hkept.
  destruct Hkept as [Hok' Hkept]. cbv zeta. unfold serve_resource_file. rewrite Hx, Hlen. change (sanitize DEFAULT_RESOURCE_SET) with (Some DEFAULT_RESOURCE_SET).
  cbn [negb Nat.eqb]. rewrite (bool_decide_eq_true_2 (DEFAULT_RESOURCE_SET = DEFAULT_RESOURCE_SET)) by done.
  destruct (Hkept r Hin) as [(Hst & p & set & Hp & Hsh & Hset & Hstr)|(b & Hb & Hn & Hpack & Hstr)].
  - destruct Hshadow as [->|]; [|done]. rewrite (holds_get _ _ _ _ _ Hp). cbn [fst].
    destruct (memory_whole io h (p_bytes p) Hpermit Hrange) as [Hs Hc]. split_and!; [done| |].
    + rewrite Hc, <- Hsh. destruct Hp as (root & m & _ & Hp). by specialize (Hok' _ _ Hp).
    + intros bn e He. rewrite Hstr, lookup_fmap in He. destruct (set !! bn) as [asset|] eqn:Ea; [|done]. injection He as <-. exists asset.
      unfold stream_resolve. rewrite (holds_set_get _ _ _ _ _ Hset). cbn. by rewrite Ea.
  - rewrite Hn, (builtin_found builtins b Hnd Hb). cbn [fst]. destruct (memory_whole io h (p_bytes (builtin_pack b)) Hpermit Hrange) as [Hs Hc].
    split_and!; [done|by rewrite Hc, Hpack|]. intros bn e He. by rewrite Hstr, lookup_empty in He.
Qed.
End caches.

(** ** Examples *)

#[local] Instance whole_file : Digest := fun bytes => bytes.
#[local] Existing Instances Connection.sample_json sample_isolates.

Definition car_manifest (name : string) (scripts files : list Name) : ResourceManager.ResourceManifest :=
  {| ResourceManager.m_name := as_bytes name; ResourceManager.m_version := None; ResourceManager.m_dependencies := [];
     ResourceManager.m_server_scripts := []; ResourceManager.m_client_scripts := scripts; ResourceManager.m_files := files |}.

Definition running (name : string) (m : ResourceManager.ResourceManifest) : ResourceManager.ResourceManager :=
  {| ResourceManager.script_host := spawn; ResourceManager.registry := ∅; ResourceManager.resources_dir := as_bytes "resources";
     ResourceManager.decryptor := ResourceManager.plain_decryptor;
     ResourceManager.resources := {[as_bytes name := {| ResourceManager.discovered :=
       {| ResourceManager.manifest := m; ResourceManager.root := as_bytes "/r" |}; ResourceManager.state := ResourceManager.Started |}]} |}.

(** One script and one model, and a link out of the directory. *)
Definition disk : Fs := {|
  f_meta := fun p => if bool_decide (p = as_bytes "/r/a.js") then Some (7, 3, true)
    else if bool_decide (p = as_bytes "/r/stream/car.yft") then Some (7, 2, true) else if bool_decide (p = as_bytes "/etc/key") then Some (1, 1, true) else None;
  f_read := fun p => if bool_decide (p = as_bytes "/r/a.js") then Some [1; 2; 3] else if bool_decide (p = as_bytes "/r/stream/car.yft") then Some [4; 5] else None;
  f_canonical := fun p => if bool_decide (p = as_bytes "/r/link.js") then Resolved (as_bytes "/etc/key") else Resolved p;
  f_walk := fun p => if bool_decide (p = as_bytes "/r/stream") then [as_bytes "/r/stream/car.yft"] else [] |}.

Definition no_headers : Headers := {| range := None; cfx_token := None; host := None |}.
Definition fine : Io := {| permit := true; opened := Opened; seeked := Opened; reads := [ReadUpTo 1; ReadUpTo 9] |}.
Definition scripts : ResourceManager.ResourceManager := running "cars" (car_manifest "cars" [as_bytes "a.js"; as_bytes "link.js"] []).

Lemma advertised_is_served_witness :
  let '(rcs, c') := configure disk scripts [] [] caches_new in
  exists r, r ∈ rcs /\ let resp := (serve_resource_file disk scripts [] 64 fine GET no_headers (c_name r) DEFAULT_RESOURCE_SET c').1 in
  r_status resp = 200 /\ sha1_hex (concat (r_body resp)) = c_pack r.
Proof.
  destruct (configure disk scripts [] [] caches_new) as [rcs c'] eqn:E.
  assert (Hr : exists r, head rcs = Some r /\ c_name r = as_bytes "cars") by (revert E; vm_compute; intros [= <- <-]; by eexists).
  destruct Hr as (r & Hr & Hn). exists r. assert (Hin : r ∈ rcs) by (destruct rcs; [done|]; injection Hr as ->; by left). split; [done|].
  assert (Hs : is_Some (sanitize (c_name r))) by (rewrite Hn; eexists; vm_compute; reflexivity).
  assert (Hl : length (ResourceManager.components (c_name r)) = 1%nat) by (rewrite Hn; vm_compute; reflexivity).
  assert (Hok : packs_ok caches_new) by apply map_Forall_empty. assert (Hnd : NoDup (b_name <$> [])) by constructor.
  destruct (advertised_is_served disk scripts [] [] caches_new r rcs c' 64 fine no_headers E Hok Hnd Hin Hs Hl eq_refl eq_refl (or_introl eq_refl)) as (H1 & H2 & _).
  exact (conj H1 H2).
Defined.

Lemma download_exact_witness :
  let h := {| range := Some (Some (as_bytes "bytes=1-")); cfx_token := None; host := None |} in
  let resp := serve_disk disk 64 fine GET h (as_bytes "/r/a.js") (as_bytes "/r") in
  r_end resp = Complete /\ r_body resp = [[2]; [3]] /\ exact_response h [1; 2; 3] resp.
Proof.
  cbv zeta. split_and!; [vm_compute; reflexivity|vm_compute; reflexivity|].
  apply (download_exact disk 64 fine {| range := Some (Some (as_bytes "bytes=1-")); cfx_token := None; host := None |}
    (as_bytes "/r/a.js") (as_bytes "/r") (as_bytes "/r/a.js") 7 [1; 2; 3]); vm_compute; reflexivity.
Defined.

Lemma download_confined_witness :
  let get path := serve_resource_file disk scripts [] 64 fine GET no_headers (as_bytes "cars") (as_bytes path) caches_new in
  r_body (get "car.yft"%string).1 = [[4]; [5]] /\ r_status (get "link.js"%string).1 = 404 /\ r_status (get "../a.js"%string).1 = 400 /\
  ResourceManager.DOTDOT ∉ ResourceManager.components (as_bytes "car.yft").
Proof.
  cbv zeta. split_and!; [vm_compute; reflexivity|vm_compute; reflexivity|vm_compute; reflexivity|].
  apply (download_confined disk scripts [] 64 fine GET no_headers (as_bytes "cars") (as_bytes "car.yft") caches_new). left. vm_compute. reflexivity.
Defined.

(** A manifest that moves a script to the files leaves the archive as it was:
    what the cache compares does not have the manifest. *)
Example stale_manifest :
  let moved := running "cars" (car_manifest "cars" [] [as_bytes "a.js"; as_bytes "link.js"]) in
  let '(before, c) := packfile_get disk scripts (as_bytes "cars") true caches_new in
  let same a b := bool_decide (p_bytes <$> a = p_bytes <$> b) in
  same (packfile_get disk moved (as_bytes "cars") true c).1 before = true /\
  same (packfile_get disk moved (as_bytes "cars") true caches_new).1 before = false.
Proof. vm_compute. split; reflexivity. Qed.

(** A resource of the disk with a builtin's name is advertised, and the builtin
    is served in its place: the hash does not fit. *)
Example shadowed_builtin :
  let named := running "baston_displayinfo" (car_manifest "baston_displayinfo" [as_bytes "a.js"] []) in
  let builtins := [displayinfo [9]] in
  let '(rcs, c) := configure disk named builtins [] caches_new in
  let resp := (serve_resource_file disk named builtins 64 fine GET no_headers DISPLAYINFO DEFAULT_RESOURCE_SET c).1 in
  c_name <$> rcs = [DISPLAYINFO] /\ r_status resp = 200 /\ bool_decide ([sha1_hex (concat (r_body resp))] = c_pack <$> rcs) = false.
Proof. vm_compute. split_and!; reflexivity. Qed.
