(* ===== verification/HotReload.v ===== *)
(** * Hot reload (src/crates/baston-zone/src/resource_loader/hot_reload.rs)

    A change of a script on the disk restarts the resource it is part of, at most
    once in a while. The watcher is a library; what it reports, and when the
    loop sees it, is input. Times are milliseconds. *)

From S2P Require Import Prelude Decimal Udp Events.
From S2P Require Import ScriptHost.
From S2P Require ResourceManager Downloads.
#[local] Open Scope Z_scope.

Definition DEBOUNCE : Z := 300.

Inductive EventKind := Create | Modify | Remove | OtherEvent.

(** What the watcher sends for an event: nothing if it is not relevant. *)
Definition js_paths (kind : EventKind) (paths : list Name) : list Name :=
  match kind with
  | OtherEvent => []
  | _ => List.filter (fun p => bool_decide (Downloads.extension p = Some (as_bytes "js"))) paths
  end.

Section reload.
Context `{Isolates}.

(** The first resource, in the order of the map, whose real directory holds the
    real path. *)
Definition resource_for_path (fs : Downloads.Fs) (order : list Name) (rm : ResourceManager.ResourceManager) (path : Name) : option Name :=
  match Downloads.f_canonical fs path with
  | Downloads.Unresolved => None
  | Downloads.Resolved path =>
      List.find (fun name =>
        match ResourceManager.resources rm !! name with
        | None => false
        | Some e =>
            match Downloads.f_canonical fs (ResourceManager.root (ResourceManager.discovered e)) with
            | Downloads.Unresolved => false
            | Downloads.Resolved root => Downloads.path_below path root
            end
        end) order
  end.

(** What the loop keeps; [restarted] is what it restarted, and when, newest
    first, and [stuck] that it waits for a restart that does not return. *)
Record Watch := {
  last_reload : option (Name * Z); manager : ResourceManager.ResourceManager; restarted : list (Name * Z); stuck : bool
}.

(** A path that changed, when the loop takes it, and the disk then. *)
Record Change := { ch_path : Name; ch_at : Z; ch_fs : Downloads.Fs; ch_disk : ResourceManager.Disk; ch_order : list Name }.

Definition debounced (w : Watch) (resource : Name) (now : Z) : bool :=
  match last_reload w with Some (name, at_) => bool_decide (name = resource) && (now - at_ <? DEBOUNCE) | None => false end.

Definition on_change (w : Watch) (ch : Change) : Watch :=
  if stuck w then w else
  match resource_for_path (ch_fs ch) (ch_order ch) (manager w) (ch_path ch) with
  | None => w
  | Some resource =>
      if debounced w resource (ch_at ch) then w
      else
        let '(r, m) := ResourceManager.restart (ch_disk ch) resource (manager w) in
        {| last_reload := Some (resource, ch_at ch); manager := m; restarted := (resource, ch_at ch) :: restarted w; stuck := is_none r |}
  end.

Definition watching (rm : ResourceManager.ResourceManager) : Watch := {| last_reload := None; manager := rm; restarted := []; stuck := false |}.

(** ** What the window does *)

Definition watch_ok (w : Watch) : Prop := last_reload w = head (restarted w).

(** Neighbours that restart one resource are a window apart. *)
Fixpoint spaced (l : list (Name * Z)) : Prop :=
  match l with
  | (n, t) :: (((n', t') :: _) as rest) => (n = n' -> DEBOUNCE <= t - t') /\ spaced rest
  | _ => True
  end.

Lemma on_change_ok w ch : watch_ok w -> spaced (restarted w) -> watch_ok (on_change w ch) /\ spaced (restarted (on_change w ch)).
Proof.
  intros Hw Hs. unfold on_change. destruct (stuck w); [done|]. destruct (resource_for_path _ _ _ _) as [n|]; [|done].
  destruct (debounced w n (ch_at ch)) eqn:Ed; [done|]. destruct (ResourceManager.restart _ _ _) as [r m].
  split; [done|]. cbn. unfold watch_ok in Hw. destruct (restarted w) as [|[n' t'] l] eqn:El; [done|]. split; [|done]. intros <-.
  unfold debounced in Ed. rewrite Hw in Ed. cbn in Ed. rewrite bool_decide_eq_true_2 in Ed by done. cbn in Ed. lia.
Qed.

(** hot reload. Once a change of a file of a resource is seen, that resource
    has been restarted less than a window before it or at it; two restarts of one
    resource with no other between them are a window apart; nothing else is
    restarted. A restart that does not return is the last: the loop sees no
    change any more. *)
Theorem reload_exact rm before ch :
  let w := foldl on_change (watching rm) before in
  let w' := on_change w ch in
  spaced (restarted w') /\
  if stuck w then w' = w else
  match resource_for_path (ch_fs ch) (ch_order ch) (manager w) (ch_path ch) with
  | None => w' = w
  | Some resource => exists t, head (restarted w') = Some (resource, t) /\ ch_at ch - DEBOUNCE < t /\
      (restarted w' = restarted w \/ restarted w' = (resource, ch_at ch) :: restarted w)
  end.
Proof.
  cbv zeta. set (w := foldl on_change (watching rm) before). assert (Hw : watch_ok w /\ spaced (restarted w)).
  { unfold w. clear w. assert (Hinit : watch_ok (watching rm) /\ spaced (restarted (watching rm))) by done. revert Hinit. generalize (watching rm).
    induction before as [|b before IH]; intros w [Ha Hb]; [done|]. cbn [foldl]. apply IH. by apply on_change_ok. }
  destruct Hw as [Hw Hs]. destruct (on_change_ok w ch Hw Hs) as [Hw' Hs']. split; [done|]. unfold on_change in *.
  destruct (stuck w); [done|]. destruct (resource_for_path _ _ _ _) as [n|]; [|done]. destruct (debounced w n (ch_at ch)) eqn:Ed.
  - unfold debounced in Ed. destruct (last_reload w) as [[n' t]|] eqn:El; [|done]. apply andb_true_iff in Ed as [Hn%bool_decide_eq_true Ht]. subst n'.
    exists t. split_and!; [by rewrite <- Hw|lia|by left].
  - exists (ch_at ch). destruct (ResourceManager.restart _ _ _) as [r m]. cbn. split_and!; [done|unfold DEBOUNCE; lia|by right].
Qed.
End reload.

(** ** Examples *)

#[local] Existing Instances Connection.sample_json sample_isolates.

Definition change (file : string) (at_ : Z) : Change := {|
  ch_path := as_bytes file; ch_at := at_; ch_disk := ResourceManager.sample_disk ""; ch_order := [as_bytes "cars"; as_bytes "bikes"];
  ch_fs := Downloads.disk |}.

Definition two : ResourceManager.ResourceManager :=
  let entry name root := {| ResourceManager.discovered := {| ResourceManager.manifest := Downloads.car_manifest name [] []; ResourceManager.root := as_bytes root |};
    ResourceManager.state := ResourceManager.Stopped |} in
  {| ResourceManager.script_host := spawn; ResourceManager.registry := ∅; ResourceManager.resources_dir := as_bytes "/"; ResourceManager.decryptor := ResourceManager.plain_decryptor;
     ResourceManager.resources := <[as_bytes "cars" := entry "cars"%string "/r"%string]> {[as_bytes "bikes" := entry "bikes"%string "/b"%string]} |}.

(** The last of two saves is not loaded; the events of saves to two resources
    in turn are not debounced at all. *)
Example last_save_lost :
  restarted (foldl on_change (watching two) [change "/r/a.js" 0; change "/r/a.js" 299]) = [(as_bytes "cars", 0)] /\
  length (restarted (foldl on_change (watching two) [change "/r/a.js" 0; change "/b/b.js" 1; change "/r/a.js" 2; change "/b/b.js" 3])) = 4%nat.
Proof. vm_compute. done. Qed.
