(* ===== verification/Oob.v ===== *)
(** * Queries of the server browser (src/crates/baston-gateway/src/udp/oob.rs)

    On the game socket a datagram that starts with four bytes of ones is not
    ENet's: [getinfo] is answered, at most so often per address, and the datagram
    is hidden from the protocol behind. Times are nanoseconds. *)

From S2P Require Import Prelude F32 Decimal Utf8 Udp.
From S2P Require Config ZoneIngest.
#[local] Open Scope Z_scope.

Definition OOB_MARKER : list Z := [255; 255; 255; 255].
Definition OOB_RATE_PER_SEC : f32 := f32_of_Z 5.
Definition OOB_BURST : f32 := f32_of_Z 5.
Definition OOB_MAX_TRACKED_IPS : nat := Z.to_nat 8192.
Definition OOB_SWEEP_INTERVAL : Z := 30 * 10 ^ 9.
Definition OOB_MAX_CHALLENGE_LEN : nat := 64.

(** ** The rate limiter *)

Record Bucket := { tokens : f32; last : Z }.

(** An address as the key of a map. *)
Definition ip_key (a : Config.IpAddr) : bool * Z := match a with Config.V4 z => (false, z) | Config.V6 z => (true, z) end.

Record OobRateLimiter := { buckets : gmap (bool * Z) Bucket; last_sweep : Z }.
#[export] Instance OobRateLimiter_rebuild : Rebuild OobRateLimiter := fun r => Build_OobRateLimiter (buckets r) (last_sweep r).

Definition limiter_new (now : Z) : OobRateLimiter := {| buckets := ∅; last_sweep := now |}.

(** [saturating_duration_since] and [as_secs_f32]. *)
Definition elapsed (now since : Z) : f32 := ZoneIngest.as_secs_f32 (Z.max 0 (now - since)).
Definition refilled (now : Z) (b : Bucket) : f32 := f32_add (tokens b) (f32_mul (elapsed now (last b)) OOB_RATE_PER_SEC).

Definition maybe_sweep (now : Z) (r : OobRateLimiter) : OobRateLimiter :=
  if Z.max 0 (now - last_sweep r) <? OOB_SWEEP_INTERVAL then r
  else {| buckets := filter (fun kb => Is_true (f32_lt (refilled now kb.2) OOB_BURST)) (buckets r); last_sweep := now |}.

Definition allow (now : Z) (ip : Config.IpAddr) (r : OobRateLimiter) : bool * OobRateLimiter :=
  let r := maybe_sweep now r in
  let key := ip_key ip in
  if (OOB_MAX_TRACKED_IPS <=? size (buckets r))%nat && negb (is_some (buckets r !! key)) then (false, r)
  else
    let b := default {| tokens := OOB_BURST; last := now |} (buckets r !! key) in
    let t := f32_min (refilled now b) OOB_BURST in
    let ok := f32_ge t f32_one in
    (ok, r <| buckets := <[key := {| tokens := if ok then f32_sub t f32_one else t; last := now |}]> (buckets r) |>).

(** ** The socket *)

Record OobInfo := { hostname : list Z; max_clients : Z }.

(** [chars().take(n)] of valid text. *)
Fixpoint take_chars (n : nat) (bs : list Z) : list Z :=
  match n, bs with
  | S n, _ :: _ => let len := (next_char bs).2 in take len bs ++ take_chars n (drop len bs)
  | _, _ => []
  end.

(** [split([' ', '\n']).next()]. *)
Fixpoint first_word (bs : list Z) : list Z :=
  match bs with b :: rest => if (b =? 32) || (b =? 10) then [] else b :: first_word rest | [] => [] end.

Definition info_response (i : OobInfo) (clients : Z) (challenge : list Z) : list Z :=
  as_bytes "infoResponse" ++ [10] ++ as_bytes "\sv_maxclients\" ++ decimal (max_clients i) ++ as_bytes "\clients\" ++ decimal clients
    ++ as_bytes "\challenge\" ++ challenge ++ as_bytes "\gamename\CitizenFX\protocol\4\hostname\" ++ hostname i
    ++ as_bytes "\gametype\Roleplay\mapname\Los Santos\iv\0".

(** What is sent back, if anything. *)
Definition handle_oob (i : OobInfo) (clients now : Z) (from : Config.IpAddr) (data : list Z) (r : OobRateLimiter) : option (list Z) * OobRateLimiter :=
  match from_utf8 data with
  | None => (None, r)
  | Some text =>
      match Decimal.strip_prefix (as_bytes "getinfo") text with
      | None => (None, r)
      | Some rest =>
          let '(ok, r) := allow now from r in
          if ok then (Some (OOB_MARKER ++ info_response i clients (take_chars OOB_MAX_CHALLENGE_LEN (first_word (trim_start rest)))), r)
          else (None, r)
      end
  end.

(** One datagram the socket receives: when, from whom. *)
Record Datagram := { d_now : Z; d_from : Config.IpAddr; d_bytes : list Z }.

Definition is_oob (bytes : list Z) : bool := bool_decide (take 4 bytes = OOB_MARKER).

(** [receive] over the datagrams that wait, until one is ENet's: that one, the
    answers, what waits still. *)
Fixpoint receive (i : OobInfo) (clients : Z) (waiting : list Datagram) (r : OobRateLimiter)
    : option Datagram * list (Config.IpAddr * list Z) * list Datagram * OobRateLimiter :=
  match waiting with
  | [] => (None, [], [], r)
  | d :: waiting =>
      if is_oob (d_bytes d) then
        let '(reply, r) := handle_oob i clients (d_now d) (d_from d) (drop 4 (d_bytes d)) r in
        let '(got, sent, rest, r) := receive i clients waiting r in
        (got, match reply with Some bytes => (d_from d, bytes) :: sent | None => sent end, rest, r)
      else (Some d, [], waiting, r)
  end.

(** ** What holds *)

Definition table_ok (r : OobRateLimiter) : Prop := (size (buckets r) <= OOB_MAX_TRACKED_IPS)%nat.

Lemma sweep_ok now r : table_ok r -> table_ok (maybe_sweep now r).
Proof.
  unfold table_ok, maybe_sweep. destruct (_ <? _); [done|]. cbn. intros Hr. etrans; [|exact Hr]. apply map_size_filter.
Qed.

Lemma allow_ok now ip r : table_ok r -> table_ok (allow now ip r).2.
Proof.
  intros Hr. apply (sweep_ok now) in Hr. unfold allow. set (r1 := maybe_sweep now r) in *. destruct (_ && _) eqn:E; [done|]. cbn. unfold table_ok in *. cbn.
  destruct (buckets r1 !! ip_key ip) as [b|] eqn:Eb.
  - by rewrite map_size_insert, Eb.
  - rewrite map_size_insert, Eb. apply andb_false_iff in E as [E%Nat.leb_gt|]; [lia|done].
Qed.

Lemma take_chars_len n : forall bs, (length (take_chars n bs) <= 4 * n)%nat.
Proof.
  induction n as [|n IH]; intros bs; [done|]. cbn [take_chars]. destruct bs as [|b bs]; [cbn; lia|]. rewrite length_app, length_take.
  pose proof (next_char_len (b :: bs)). specialize (IH (drop (next_char (b :: bs)).2 (b :: bs))). lia.
Qed.

Lemma decimal_len z : (length (decimal z) <= 10)%nat.
Proof.
  unfold decimal. generalize 10%nat. intros n. revert z. induction n as [|n IH]; intros z; cbn [decimal_digits]; [done|].
  rewrite length_app. destruct (z <? 10); cbn; [lia|]. specialize (IH (z / 10)). lia.
Qed.

Lemma length_as_bytes s : length (as_bytes s) = String.length s.
Proof. unfold as_bytes. rewrite length_fmap. induction s as [|c s IH]; cbn; congruence. Qed.

(** The longest answer, but for the server's own name. *)
Definition MAX_REPLY : nat := 413.

Lemma reply_bounded i clients now from data r reply : (handle_oob i clients now from data r).1 = Some reply ->
  (length reply <= MAX_REPLY + length (hostname i))%nat.
Proof.
  unfold handle_oob. destruct (from_utf8 data); [|done]. destruct (Decimal.strip_prefix _ _) as [rest|]; [|done].
  destruct (allow now from r) as [[|] r']; [|done]. cbn [fst]. intros <-%(inj Some). unfold info_response. rewrite !length_app, !length_as_bytes.
  pose proof (decimal_len (max_clients i)). pose proof (decimal_len clients). pose proof (take_chars_len OOB_MAX_CHALLENGE_LEN (first_word (trim_start rest))).
  unfold OOB_MAX_CHALLENGE_LEN, MAX_REPLY, OOB_MARKER in *. cbn [String.length length]. lia.
Qed.

(** the game socket. ENet gets the first datagram without the marker, with
    everything before it taken out; each of those is answered at most once, to
    where it came from, with a bounded number of bytes whatever it asks; and the
    table of addresses stays bounded whatever addresses appear. *)
Theorem receive_bounded i clients waiting : forall r, table_ok r ->
  let '(got, sent, rest, r') := receive i clients waiting r in
  table_ok r' /\ Forall (fun s => (length s.2 <= MAX_REPLY + length (hostname i))%nat) sent /\
  exists oobs, waiting = oobs ++ match got with Some d => d :: rest | None => rest end /\
    Forall (fun d => is_oob (d_bytes d) = true) oobs /\ (forall d, got = Some d -> is_oob (d_bytes d) = false) /\
    sent.*1 `sublist_of` d_from <$> oobs.
Proof.
  induction waiting as [|d waiting IH]; intros r Hr; cbn [receive].
  { split_and!; [done|constructor|]. exists []. by split_and!. }
  destruct (is_oob (d_bytes d)) eqn:Ed.
  2: { split_and!; [done|constructor|]. exists []. split_and!; [done|constructor|by intros ? [= <-]|done]. }
  pose proof (reply_bounded i clients (d_now d) (d_from d) (drop 4 (d_bytes d)) r) as Hb.
  assert (Hok : table_ok (handle_oob i clients (d_now d) (d_from d) (drop 4 (d_bytes d)) r).2).
  { unfold handle_oob. destruct (from_utf8 _); [|done]. destruct (Decimal.strip_prefix _ _); [|done].
    pose proof (allow_ok (d_now d) (d_from d) r Hr). by destruct (allow _ _ _) as [[|] r1]. }
  destruct (handle_oob _ _ _ _ _ _) as [reply r1]. cbn [fst snd] in *. specialize (IH r1 Hok). destruct (receive i clients waiting r1) as [[[got sent] rest] r2].
  destruct IH as (Hr2 & Hs & oobs & -> & Ho & Hg & Hsub). split_and!; [done|destruct reply; [constructor; [by apply Hb|done]|done]|].
  exists (d :: oobs). split_and!; [done|by constructor|done|]. destruct reply; cbn; [by constructor|by apply sublist_cons].
Qed.

Definition asked : list Datagram := (fun t => {| d_now := t; d_from := Config.V4 1; d_bytes := OOB_MARKER ++ as_bytes "getinfo xyz" |})
  <$> [0; 0; 0; 0; 0; 0; 1; 200000000; 200000001].

(** Five answers at once, then one every fifth of a second. *)
Example answered : let '(got, sent, rest, _) := receive {| hostname := as_bytes "b"; max_clients := 48 |} 2 asked (limiter_new 0) in
  got = None /\ length sent = 6%nat /\ rest = [] /\ length <$> (snd <$> sent) = repeat 141%nat 6.
Proof. vm_compute. done. Qed.

Lemma receive_bounded_witness : let '(got, sent, rest, r') := receive {| hostname := as_bytes "b"; max_clients := 48 |} 2 asked (limiter_new 0) in table_ok r'.
Proof.
  pose proof (receive_bounded {| hostname := as_bytes "b"; max_clients := 48 |} 2 asked (limiter_new 0) (Nat.le_0_l _)) as Hw.
  destruct (receive _ _ _ _) as [[[got sent] rest] r']. exact (proj1 Hw).
Defined.
