(* ===== verification/Endpoint.v ===== *)
(** * The HTTP endpoint of a resource
      (src/crates/baston-gateway/src/http/resource_endpoint.rs)

    A request to a resource with a handler gets an id and is told to the
    resource's scripts as an event; whoever answers the id first settles it, or
    the deadline does. Which names and values make headers, and the JSON of a
    request, are the libraries'. *)

From S2P Require Import Prelude Decimal Utf8 Udp Events.
From S2P Require Import ScriptHost.
#[local] Open Scope Z_scope.

Record Request := { q_method : Name; q_path : Name; q_address : Name; q_headers : list (Name * Name); q_body : list Z }.

(** [serde_json::json!] of a request with its id, and the http crate's rules. *)
Class HttpRules `{Json} := {
  payload : Z -> Request -> value;
  header_text : Name -> bool;
  header_name_ok : Name -> bool;
  header_value_ok : Name -> bool
}.

Record Answer := { a_status : Z; a_headers : list (Name * Name); a_body : list Z }.
Definition status_answer (status : Z) : Answer := {| a_status := status; a_headers := []; a_body := [] |}.

Section endpoint.
Context `{Isolates} `{!HttpRules}.

(** [request_headers]: only values that are text. *)
Definition request_headers (headers : list (Name * Name)) : list (Name * Name) := List.filter (fun h => header_text h.2) headers.

Definition request_payload (id : Z) (q : Request) : value :=
  payload id {| q_method := q_method q; q_path := q_path q; q_address := q_address q; q_headers := request_headers (q_headers q);
    q_body := from_utf8_lossy (q_body q) |}.

(** A status the http crate knows has three digits. *)
Definition build_response (r : ScriptHttpResponse) : Answer :=
  {| a_status := if (100 <=? status r) && (status r <=? 999) then status r else 500;
     a_headers := List.filter (fun h => header_name_ok h.1 && header_value_ok h.2) (headers r); a_body := body r |}.

(** What is known at once, or the id that waits. *)
Definition accept (max_bytes : Z) (resource : Name) (q : Request) (h : ScriptHost) : (Answer + Z) * ScriptHost :=
  if negb (has_handler (http_handlers h) resource) then (inl (status_answer 404), h)
  else if max_bytes <? Z.of_nat (length (q_body q)) then
    (inl {| a_status := 413; a_headers := []; a_body := as_bytes "request body exceeds the " ++ decimal max_bytes ++ as_bytes " byte limit" |}, h)
  else let '(id, r) := begin (http_handlers h) in (inr id, h <| http_handlers := r |>).

(** The task that tells the scripts; a failure is logged. *)
Definition dispatch (resource : Name) (id : Z) (q : Request) (h : ScriptHost) : ScriptHost :=
  (trigger_event_on resource HTTP_REQUEST_EVENT [request_payload id q] h).2.

(** What a waiting request sees; [late]: the deadline is over. *)
Definition poll (id : Z) (late : bool) (r : HttpHandlerRegistry) : option Answer * HttpHandlerRegistry :=
  match answers r !! id with
  | Some response => (Some (build_response response), r)
  | None =>
      if bool_decide (id ∉ pending r) then (Some (status_answer 503), r)
      else if late then (Some (status_answer 504), abandon id r)
      else (None, r)
  end.

(** ** Who settles a request *)

(** What else happens to the registry meanwhile. *)
Inductive RegistryCall :=
| Begin | CompleteCall (id : Z) (response : ScriptHttpResponse) | AbandonCall (id : Z) | RegisterCall (resource : Name) | UnregisterCall (resource : Name).

Definition registry_call (r : HttpHandlerRegistry) (c : RegistryCall) : HttpHandlerRegistry :=
  match c with
  | Begin => (begin r).2
  | CompleteCall id response => (complete id response r).2
  | AbandonCall id => abandon id r
  | RegisterCall resource => register resource r
  | UnregisterCall resource => unregister resource r
  end.

(** The first answer to an id; only the id's own deadline abandons it. *)
Fixpoint first_answer (id : Z) (calls : list RegistryCall) : option ScriptHttpResponse :=
  match calls with
  | [] => None
  | CompleteCall id' response :: calls => if id' =? id then Some response else first_answer id calls
  | _ :: calls => first_answer id calls
  end.

Definition begins (calls : list RegistryCall) : Z := Z.of_nat (length (List.filter (fun c => match c with Begin => true | _ => false end) calls)).

(** Ids go round 1 to 2^32 - 1. *)
Definition IDS : Z := 2 ^ 32 - 1.
Definition next_is (a : Z) (r : HttpHandlerRegistry) : Prop := (begin r).1 = 1 + a mod IDS.

Lemma next_begin a r : next_is a r -> next_is (a + 1) (begin r).2.
Proof.
  unfold next_is, begin. cbn. intros Ha. set (x := if next_id r =? 0 then 1 else next_id r) in *. clearbody x. subst x. unfold u32, IDS.
  pose proof (Z.mod_pos_bound a (2 ^ 32 - 1) ltac:(lia)) as Hb.
  assert (Hs : (a + 1) mod (2 ^ 32 - 1) = if a mod (2 ^ 32 - 1) =? 2 ^ 32 - 2 then 0 else a mod (2 ^ 32 - 1) + 1).
  { rewrite <- Z.add_mod_idemp_l by lia. destruct (Z.eqb_spec (a mod (2 ^ 32 - 1)) (2 ^ 32 - 2)) as [->|Hne]; [done|]. apply Z.mod_small. lia. }
  rewrite Hs. destruct (Z.eqb_spec (a mod (2 ^ 32 - 1)) (2 ^ 32 - 2)) as [->|Hne]; [done|].
  rewrite (Z.mod_small (1 + _ + 1)) by lia. destruct (Z.eqb_spec (1 + a mod (2 ^ 32 - 1) + 1) 0); lia.
Qed.

(** What has become of the request that waits for an id. *)
Definition settled (id : Z) (found : option ScriptHttpResponse) (r : HttpHandlerRegistry) : Prop :=
  answers r !! id = found /\ (found = None -> id ∈ pending r).

Lemma calls_settle id calls : forall a k found r, id = 1 + a mod IDS -> 0 < k -> k + begins calls < IDS -> next_is (a + k) r -> settled id found r ->
  Forall (fun c => c <> AbandonCall id) calls -> (found <> None -> id ∉ pending r) ->
  settled id (match found with Some f => Some f | None => first_answer id calls end) (foldl registry_call r calls).
Proof.
  induction calls as [|c calls IH]; intros a k found r Hid Hk Hb Hn [Ha Hp] Hab Hgone; [by destruct found|].
  apply Forall_cons in Hab as [Hc Hab]. cbn [foldl]. assert (Hpos : 0 <= begins calls) by (unfold begins; lia).
  destruct c as [|id' response|id'|resource|resource]; cbn [registry_call first_answer].
  - assert (Hb' : k + 1 + begins calls < IDS) by (unfold begins in *; cbn [List.filter length] in Hb; lia).
    assert (Hfresh : (begin r).1 <> id).
    { rewrite Hn, Hid. intros Heq. assert (Hm : (a + k) mod IDS = a mod IDS) by lia. assert (HI : 0 < IDS) by (unfold IDS; lia).
      pose proof (Z.div_mod (a + k) IDS ltac:(lia)). pose proof (Z.div_mod a IDS ltac:(lia)).
      assert (Hd : k = IDS * ((a + k) / IDS - a / IDS)) by lia. assert ((a + k) / IDS - a / IDS <= 0 \/ 1 <= (a + k) / IDS - a / IDS) as [|] by lia; nia. }
    apply (IH a (k + 1) found); try done; [lia| |split; [done|]|].
    + replace (a + (k + 1)) with (a + k + 1) by lia. by apply next_begin.
    + intros Hf. cbn. apply elem_of_union. right. by apply Hp.
    + intros Hf. cbn. apply not_elem_of_union. split; [|by apply Hgone]. intros Hin%elem_of_singleton. by apply Hfresh.
  - unfold complete. case_bool_decide as Hin; cbn [snd].
    + destruct (Z.eqb_spec id' id) as [->|Hne].
      * destruct found as [f|]; [by destruct (Hgone ltac:(done))|]. apply (IH a k (Some response)); try done; [split; [apply lookup_insert_eq|done]|cbn; set_solver].
      * apply (IH a k found); try done; [split; [cbn; by rewrite lookup_insert_ne|cbn; set_solver]|cbn; set_solver].
    + destruct (Z.eqb_spec id' id) as [->|Hne]; [|by apply (IH a k found)]. destruct found as [f|]; [by apply (IH a k (Some f))|by destruct Hin; apply Hp].
  - assert (Hne : id <> id') by congruence. apply (IH a k found); try done; [split; [done|cbn; set_solver]|cbn; set_solver].
  - by apply (IH a k found).
  - by apply (IH a k found).
Qed.

(** a request is settled once. Whatever other requests begin, end and are
    answered meanwhile, unless four billion of them begin, a request that was
    accepted ends at its deadline with the first answer given to its id, and
    with a time-out if there was none; either way nothing of it is left to
    answer. *)
Theorem request_settled max_bytes resource q h id h' a calls :
  accept max_bytes resource q h = (inr id, h') -> next_is a (http_handlers h) -> answers (http_handlers h) !! id = None ->
  Forall (fun c => c <> AbandonCall id) calls -> begins calls < IDS - 1 ->
  let '(answer, r) := poll id true (foldl registry_call (http_handlers h') calls) in
  answer = Some (match first_answer id calls with Some response => build_response response | None => status_answer 504 end) /\
  (first_answer id calls = None -> id ∉ pending r).
Proof.
  intros Hacc Hn Hfree Hab Hb. unfold accept in Hacc. destruct (negb _); [done|]. destruct (_ <? _); [done|].
  pose proof (next_begin a (http_handlers h) Hn) as Hn'. destruct (begin (http_handlers h)) as [id0 r0] eqn:Eb. injection Hacc as -> <-. cbn in Hn'.
  assert (Hid : id = 1 + a mod IDS) by (unfold next_is in Hn; by rewrite Eb in Hn).
  assert (Hs : settled id None r0).
  { unfold begin in Eb. injection Eb as Hx <-. split; [exact Hfree|]. intros _. cbn. apply elem_of_union. left. apply elem_of_singleton. by rewrite Hx. }
  destruct (calls_settle id calls a 1 None r0 Hid ltac:(lia) ltac:(lia) Hn' Hs Hab ltac:(done)) as [Hans Hpend]. cbn [http_handlers].
  unfold poll. change (http_handlers (h <| http_handlers := r0 |>)) with r0. rewrite Hans. destruct (first_answer id calls) as [response|]; [done|].
  rewrite bool_decide_eq_false_2 by (intros Hx; apply Hx; by apply Hpend). split; [done|]. intros _. cbn. set_solver.
Qed.

(** A request is refused exactly without a handler or with too long a body. *)
Lemma accept_exact max_bytes resource q h : match (accept max_bytes resource q h).1 with
  | inl answer => a_status answer = 404 /\ (resource ∉ handlers (http_handlers h)) \/
      a_status answer = 413 /\ resource ∈ handlers (http_handlers h) /\ max_bytes < Z.of_nat (length (q_body q))
  | inr id => resource ∈ handlers (http_handlers h) /\ Z.of_nat (length (q_body q)) <= max_bytes
  end.
Proof.
  unfold accept, has_handler. case_bool_decide as Hh; cbn [negb]; [|by left]. destruct (Z.ltb_spec max_bytes (Z.of_nat (length (q_body q)))); [right; by split_and!|].
  destruct (begin _). split; [done|lia].
Qed.
End endpoint.

(** ** Examples *)

#[local] Existing Instances Connection.sample_json sample_isolates.
#[local] Instance sample_rules : HttpRules := {| payload := fun id _ => id; header_text := fun _ => true; header_name_ok := fun _ => true; header_value_ok := fun _ => true |}.

Definition hook : Request := {| q_method := as_bytes "POST"; q_path := as_bytes "/hook"; q_address := []; q_headers := []; q_body := [1] |}.
Definition panel : ScriptHost := (started "panel" "" spawn) <| http_handlers := register (as_bytes "panel") http_new |>.
Definition reply (text : string) : ScriptHttpResponse := {| status := 42; headers := []; body := as_bytes text |}.

Lemma request_settled_witness : let calls := [Begin; CompleteCall 2 (reply "other"); CompleteCall 1 (reply "first"); CompleteCall 1 (reply "second")] in
  let '(answer, r) := poll 1 true (foldl registry_call (http_handlers (accept 10 (as_bytes "panel") hook panel).2) calls) in
  answer = Some {| a_status := 500; a_headers := []; a_body := as_bytes "first" |}.
Proof.
  cbv zeta. set (calls := [Begin; _; _; _]).
  assert (Hacc : accept 10 (as_bytes "panel") hook panel = (inr 1, (accept 10 (as_bytes "panel") hook panel).2)) by reflexivity.
  assert (Hab : Forall (fun c => c <> AbandonCall 1) calls) by (repeat constructor; discriminate).
  pose proof (request_settled 10 (as_bytes "panel") hook panel 1 _ 0 calls Hacc eq_refl eq_refl Hab eq_refl) as Hw.
  destruct (poll 1 true _) as [answer r]. exact (proj1 Hw).
Defined.

(** A request whose client goes away is never abandoned: it waits, answered by
    nobody, for good. *)
Example dropped_request_waits : let h := (accept 10 (as_bytes "panel") hook panel).2 in
  pending_count (http_handlers (unload_resource (as_bytes "panel") h).2) = 1%nat /\
  (poll 1 false (http_handlers (unload_resource (as_bytes "panel") h).2)).1 = None.
Proof. vm_compute. done. Qed.
